(* ===== verification/_CoqProject ===== *)
-Q . S2P
Prelude.v
GoStrings.v
Approvals.v
ActionRegistry.v
SecretBox.v
Recordings.v
Vault.v
VaultRotation.v
AuditChain.v
AuthSession.v
Accounts.v
Scim.v
Sso.v
Mfa.v
SignIn.v
Tunnel.v
Federation.v
FederationAuth.v
FederationSites.v
ServiceAccounts.v
Binary64.v
NetGuard.v
RequestGuard.v
Ueba.v
GoParse.v
Kms.v
ExtSecret.v
Config.v
Clock.v
AccessPolicy.v
Scheduler.v
CommandControl.v
HostAccess.v
CommandIndex.v
SessionLog.v
Retention.v
HostSearch.v
AccessReview.v
Cluster.v
CertAuthority.v
Identity.v
HostKeys.v
Release.v
Upgrade.v
Updater.v
Forward.v
Notify.v
HostFacts.v
Monitor.v
