(* ===== verification/Prelude.v ===== *)
(** A verification development of Moorgate (Fleet-Terminal), the bastion and fleet
    management server under [src/backend/internal].

    * The program

    The server is a set of HTTP handlers over one PostgreSQL database. A handler
    authenticates its request, then alternates local decisions with single statements of the
    store; several requests, several background loops and several servers run against the same
    tables at once. The parts modelled here are the ones that decide who may do what:

    - [Approvals] - just-in-time access: requests, decisions, temporary grants and the reaper
      ([approvals/approvals.go], [store/approvals.go]);
    - [ActionRegistry] - actions an assistant proposes and people confirm or approve
      ([aiaction/registry.go], [store/assistant_actions.go]);
    - [SecretBox] - sealing at rest: the envelopes, base64 and the re-seal sweep
      ([secretbox/secretbox.go]). It also holds the interface class [SecretBox] with its laws;
    - [Vault] - credentials, grants, check-outs, reveals and the injection of vaulted
      credentials into connections ([vault/handlers.go], [vault/checkout.go],
      [store/vault.go], [store/vault_checkouts.go], [credinject], [credresolve]). Its theorems
      are proved against the class of [SecretBox];
    - [VaultRotation] - password rotation against a managed host, the rotation loop, and the
      sweeps that change the master key or the derivation function ([vault/rotate.go],
      [vault/rotator.go], [vault/rekey.go], [vault/reseal.go]); it runs on the store of [Vault];
    - [AuditChain] - the hash-chained audit log ([store/audit.go]);
    - [AuthSession] - sign-in and lockout, sessions, refresh tokens, API tokens, principals
      and the request middleware ([auth/service.go], [auth/middleware.go], [auth/context.go],
      [store/sessions.go], [store/sessionpolicy.go]);
    - [Accounts] - accounts, roles and permissions, session policies, password changes and the
      first-run wizard, with the guards against escalation ([admin], [bootstrap], [auth/handlers.go],
      [auth/password.go], [store/users.go], [store/rbac.go]); it runs on the store of [AuthSession];
    - [Clock] - civil time as Go's [time] package computes it, shared by the next two;
    - [AccessPolicy] - contextual deny rules, their enforcement at a connection attempt and
      their management API ([accesspolicy], [accesspolicyapi], [store/accesspolicy.go]);
    - [Scheduler] - recurring runs: next fire times, the claim of due rows, the tick, what a
      fire launches, the handlers ([store/schedules.go], [scheduler]);
    - [CommandControl] - the guard of a terminal's input stream, the check of the ad-hoc
      runner, waivers and their API ([commandpolicy], [commandpolicyapi],
      [store/commandpolicy.go], [terminal/terminal.go], [command/run.go]);
    - [HostAccess] - hosts, groups, rule-driven groups, direct grants, denials and temporary
      access, who can reach what, and what a revocation tears down: sessions, live connections,
      certificates and the revocation list ([store/hosts.go], [store/groups.go],
      [store/denials.go], [store/dynamic_groups.go], [admin], [hostadmin], [api/server.go]);
    - [HostSearch] - the search patterns and the target picker of the access-request form
      ([store/hosts.go], [store/groups.go], [approvals/approvals.go]), on the store of
      [HostAccess];
    - [AccessReview] - review campaigns over the same grants ([store/access_reviews.go],
      [accessreview/handlers.go]);
    - [Cluster] - membership, heartbeats and the leader's lock, several instances interleaved
      ([cluster/cluster.go], [store/cluster.go]);
    - [CertAuthority] - the signing keys, sealed with [SecretBox], and user certificates
      ([ca/ca.go], [store/certs.go], [certificates/handlers.go]);
    - [Identity] - issued certificates, the in-memory credentials of a session, renewal, system
      identities, the credentials a connection presents and the principals a host trusts
      ([identity], [principals], [sshgw/gateway.go], [store/certs.go]); it holds the signing key
      of [CertAuthority];
    - [HostKeys] - trust on first use of a host's own key ([sshgw/hostkey.go],
      [store/hostkeys.go], [hosts/handlers.go]);
    - [Release] - versions, manifests, trusted keys, release channels and signed bundles
      ([release]);
    - [Upgrade] - the upgrade service of one instance over those bundles: staging, verification,
      the hand-over to the updater, drain and its handlers ([upgrade]);
    - [Updater] - the sidecar that applies a bundle: merging new settings, the pipeline with its
      rollback, its server ([src/backend/cmd/fleet-updater]); it opens bundles with [Release];
    - [Recordings] - terminal and desktop recordings at rest: the sealed frames, the whole-file and
      the streaming reader ([recorder], [rdp/crypto.go]), over [SecretBox];
    - [CommandIndex] - the commands typed in a recording ([cmdindex]), over [Recordings];
    - [SessionLog] - the rows of terminal and desktop sessions, their recordings, the indexed
      commands and who may search and play them ([store/sshsessions.go], [store/recordings.go],
      [store/sessioncommands.go], [sessionsapi], [rdp/handlers_api.go]); access is that of
      [HostAccess], contents those of [Recordings] and [CommandIndex];
    - [Retention] - the sweep that prunes all of it ([store/retention.go], [api/server.go]);
    - [Scim] - provisioning by an identity provider ([scim]), on the tables of [AuthSession] with
      the statements of [Accounts];
    - [Sso] - sign-in through LDAP, OpenID Connect and SAML, provisioning and group mapping, and
      the re-sealing of their secrets ([auth/ldap.go], [auth/oidc.go], [auth/saml.go],
      [auth/reseal.go]);
    - [Mfa] - second factors, recovery codes, the secrets' encryption ([auth/mfa.go],
      [auth/recovery.go], [store/mfa.go], [store/recovery.go], [store/webauthn.go]);
    - [SignIn] - the handlers that sign in, over the three above, and passkeys
      ([auth/handlers.go], [auth/webauthn.go]).
    - [Tunnel] - the channel between a hub and its sites: the framing of terminal messages, requests
      and responses, the site's response writer, the hub's table of live links
      ([federation/wsframe.go], [federation/streamproto.go], [federation/streamrw.go],
      [federation/link/link.go]);
    - [Federation] - both ends of a federation over that channel: joining, the link, key rotation on
      either side, forwarding with signed assertions, their verification, the hub's caches and
      operator API ([federation/hub.go], [federation/site.go], [federation/proxy.go],
      [federation/ingress.go], [federation/ingest.go], [federation/keys.go], [federation/fedauth],
      [store/federation.go]). It holds the definitions; [FederationAuth] has the theorems on
      requests, [FederationSites] those on keys, sites and join tokens;
    - [ServiceAccounts] - service accounts and API tokens ([serviceaccounts/handlers.go],
      [store/service_accounts.go]), on the tables of [AuthSession];
    - [NetGuard] - addresses and the guard on outgoing connections ([ssrf/ssrf.go]);
    - [RequestGuard] - what stands before every handler: the client's address, rate limits, the CSRF
      check, the guard of the metrics ([api/realip.go], [api/middleware.go], [ratelimit]);
    - [Ueba] - behaviour analytics over the session log ([ueba/analyzer.go], [store/ueba.go]);
    - [Config] - the settings of the server: reading, deriving and checking them
      ([config/config.go]), over [GoParse] (truth values and durations as Go reads them), [Kms]
      (secrets wrapped by a key management service, [kms/]) and [ExtSecret] (secrets in an external
      manager, [extsecret/]);
    - [Forward] - forwarding of audit events to a collector, its queue and its retries
      ([auditfwd/]);
    - [Notify] - notifications: routing, throttling, messages and settings ([notify/]);
    - [HostFacts] - what is read out of the answers of hosts ([monitor/metrics.go] and half of
      [monitor/monitor.go]); [Monitor] - the sweeps over the hosts, their probes, the statuses, the
      availability history and the alerts ([monitor/monitor.go], with its rows in [store/]);
    - [Binary64] - Go's [float64] for the last two, computed by the standard library's [SpecFloat];
    - [GoStrings] - functions of Go's [strings], [strconv] and [encoding/hex] packages.

    A file models a component: its tables as a [store] record of finite maps keyed by row id,
    its rows as records, one definition per store method, handler, loop or helper, named as in
    the Go code, each handler complete from its guards to its audit row.

    * How the state and the interleaving are modelled

    This file holds what the components share. [M T A] is a program over a world: a tick and the
    component's tables of type [T]. [db f] is one statement; the environment [Env] says, for each
    tick, what the clock reads, whether the statement fails ([ErrDB]), and what other requests
    committed since the last statement ([interfere]). A statement itself is atomic, as one SQL
    statement or one transaction is. [effect] is an in-process side effect, [time_now] reads the
    clock. Errors are values of [res].

    [guar R P m Q] is a rely-guarantee triple: every effect of [m] is a step of [R], and [Q]
    holds of the result, when the environment's interference is a step of [R] too ([Relies]).
    So an invariant of [R] holds of the running server whatever the interleaving. Theorems about
    one request alone use a [Quiet] environment, where any statement may still fail unless the
    theorem says otherwise.

    * What the theorems show

    Each comment says which interference and which failures its theorem allows.

    - Invariants under interference and failing statements: [approvals_reachable_inv],
      [registry_serve_inv], [vault_serve_inv] (the vault's statements in any order; not the foreign
      keys of other tables), [waivers_four_eyes], [stored_windows], [accounts_well_formed] (whatever
      names the other routes create accounts under),
      [ca_keys_recoverable], [vault_keys_inv], [tofu_one_key], [totp_steps_increase],
      [rdp_rewrite_safe], [live_links_registered], [provider_sign_in_confined] and
      [provisioning_confined] (what identity providers can do to accounts), [every_event_accounted]
      (every queued audit event is delivered, given up after its attempts, or set aside exactly when
      the settings in force are off).
    - Invariants of one run among others that leave its tables alone: [key_rotation_keeps_link] (one
      rotation of a site's key, failing anywhere, does not lock it out), [history_tells_status] (a
      sweep adds to the availability history exactly the changes of status, and the history ends in
      the status), [offline_needs_confirmation] (as many failed probes as configured, unless the
      server stops).
    - Refinement and liveness: [access_queries_refine] (the four access queries implement one
      relation), [cluster_refines_lease] (the cluster's steps implement a lease of one owner and
      the nodes that report themselves leader; a reclaim signals the stranded session, which the
      database ends later), [takeover_within_a_tick], [like_escape_literal], [recompute_matches_rule],
      [disallowed_is_blocklist],
      [pick_update_best] (the update picked is a newest one among those that apply),
      [apply_outcome] (an update loads the manifest's images and runs them, or nothing runs another
      image, or what ran runs again, or the message says that the rollback was not done),
      [stream_reads_the_file] (the streaming reader is the whole-file reader).
    - Separation of duties and authorization: [decide_separation_of_duties],
      [execute_safe_and_own], [approve_four_eyes], [reveal_authorized], [injection_gated],
      [RequireAuth_serves], [loadPrincipal_lifecycle], [Authorize_spec],
      [terminal_line_outcome], [denial_overrides], [revoke_cuts_access],
      [certificate_tier_confined], [no_escalation] (no request of an ordinary administrator
      hands out a permission it lacks), [dispatch_verified], [search_scoped],
      [hub_request_authorized], [assertion_honoured_once], [proxy_preserves_authority], [site_confined],
      [operator_confined], [join_token_spent_once], [service_roles_confined], [guarded_request_confined]
      (a request through the guarded client connects to no refused address, whatever the resolver
      answers),
      [client_address_not_spoofable], [boot_is_secured] (which secrets and checks a server has
      that starts outside development), [overlay_pools_disjoint],
      [session_needs_factors], [sign_in_needs_proof], [assertion_signs_in_once],
      [recovery_code_spent_once].
    - Secrets and evidence: [seal_open_roundtrip], [reseal_preserves_and_converges],
      [rekey_preserves], [reseal_sweep_preserves], [rotate_keeps_agreement],
      [rotateOne_keeps_agreement], [keyed_chain_tamper_evident], [appends_stay_intact],
      [bundle_authentic], [bundle_roundtrip], [recording_survives_crash],
      [mfa_secrets_survive_keys], [relay_delivers_in_order], [response_crosses],
      [wrapped_secret_returns], [settings_secrets_write_only].
    - Functional behaviour: [authenticate_lockout], [refresh_replay_revokes],
      [destroyUserSessions_spec], [ReapStaleSessions_spec], [next_run_least],
      [tick_fires_due_once], [claim_exclusive], [guard_sees_lines], [reaper_expires],
      [user_access_highest], [review_decision_effect], [review_snapshots_every_grant],
      [boot_signs_with_trusted_key], [destroy_session_spec], [ensure_host_credential_spec],
      [clear_host_keys_spec], [disable_ends_access], [merge_additive],
      [typed_commands_extracted], [command_bounds], [index_run_spec], [sweep_keeps_what_is_live],
      [token_lifecycle], [burst_per_key], [analysis_exact],
      [notifications_spaced], [mail_header_fixed],
      [deprovision_ends_access], [group_roles_authoritative], [wrong_codes_lock].
    - What the code gets wrong, proved of the code as it is: [policy_never_set],
      [reveal_fails_open], [list_accessible_fails], [delete_user_breaks_chain],
      [forged_and_truncated_accepted], [refresh_race], [bad_weekday_hangs], [interval_next],
      [krl_read_failure_unrevokes], [scoped_review_refused], [two_leaders_reachable],
      [targets_offer_unreached], [revoked_credential_reused], [renewal_drops_fleet],
      [first_use_race],
      [last_super_race], [assign_role_fails_open], [extract_collision],
      [failed_upgrade_keeps_draining], [two_applies_race], [reviewed_bundle_replaced],
      [interrupted_apply_blocks], [two_applies_accepted], [prune_breaks_chain],
      [torn_line_poisons_recording], [keep_recordings_stops_retention], [patch_undoes_disable],
      [scim_removes_last_super], [factor_check_fails_open], [setup_token_outlives_enrollment], and
      the lemmas [bad_body_still_checks_out], [rotate_leaves_other_hosts],
      [rotate_revert_failure], [canonical_ambiguous], [guard_fails_open], [spring_forward],
      [padded_code_replays], [recovery_code_bias], [passkey_ignores_lock],
      [directory_passwords_uncounted], [relay_backslash], [reseal_misses_saml], [hub_pin_not_checked],
      [query_not_covered], [hub_admin_becomes_super], [revoke_closes_foreign_link],
      [concurrent_rotations_lock_out], [rotation_replays_after_prune], [short_hub_key_is_final],
      [announced_key_unchecked], [negative_length_panics], [oversize_ends_relay],
      [token_lends_power], [long_expiry_is_past], [metadata_v6_allowed], [checked_name_rebinds],
      [second_line_ignored], [audit_address_is_claimed], [unreadable_networks_open_metrics],
      [pruning_refills], [first_access_dated_last],
      [misspelt_switch_is_off], [staging_short_ca], [zero_ttl_accepted], [jump_ip_ignored],
      [equal_plans_accepted], [spaced_origin], [unverified_secrets_manager], [short_outage_loses_event],
      [read_failure_discards], [read_failure_sets_aside], [failed_read_wipes_secrets],
      [failed_delivery_throttles], [reseal_miscounts], [missing_tool_shifts], [event_lost],
      [unread_status_flaps], [new_host_recovers], [refresh_ignored].

    * Bounds and fuel

    Durations and instants are integers of nanoseconds; where an [int64] can wrap in practice
    (the interval of a schedule) the wrap is written out with [wrap64]. String functions that
    recurse on what is left of a string take its length as fuel, and so do the loops that read the
    frames of a recording (each frame takes at least its header from what is left). The weekday search of a
    schedule takes its fuel as an argument, [None] meaning that the call has not returned:
    [next_run_least] shows that eight steps are enough for an existing weekday, and
    [bad_weekday_hangs] that no number is for the others. A guarded request takes the five requests it
    may make as fuel, and [guarded_request_confined] shows that it ends with a result. A duration's
    text is its own fuel: every unit takes a character. An audit event has the five attempts of its
    delivery. A sweep lists the hosts five hundred at a time, so more pages than a five-hundredth of
    the fleet are fuel enough ([history_tells_status]).

    * What is not modelled

    Cryptographic primitives, password hashing, JWT parsing, regular expressions, JSON decoding
    of payloads, time-zone data, case folding and the database's text comparison are parameters,
    with the laws used as named hypotheses or class fields. Row orders that no claim depends on,
    audit details and notification texts are left out. The transports (the byte streams of the
    SSH gateway, RDP, SFTP, overlay networks, the multiplexer, reconnection and push timer of a
    federation link), enrollment, the scripts that run on hosts, scanning and the runners
    behind scheduled jobs, the redirects that start a single sign-on and single logout, the search
    in the contents of recordings, the assistant's language model and the web front end are not
    modelled. *)
From stdpp Require Export base numbers relations gmap sets strings list.

#[export] Set Default Goal Selector "!".

(** * Notations *)
Declare Scope fleet_scope.
Delimit Scope fleet_scope with fleet.
#[global] Open Scope Z_scope.

#[global] Open Scope fleet_scope.
(* +:+ is stdpp's string append *)

(** Identifiers ([uuid.UUID] in the Go code). [uuid.Nil] is [0]. *)
Abbreviation uuid := N.
Definition uuid_nil : uuid := 0%N.

(** Instants and durations are nanosecond counts, as [time.Duration] is. *)
Definition second : Z := 1000000000.
Definition minute : Z := 60 * second.
Definition hour : Z := 60 * minute.
Definition day : Z := 24 * hour.

(** Two's complement wrap-around of Go's [int64]. *)
Definition wrap64 (z : Z) : Z := (z + 2 ^ 63) mod 2 ^ 64 - 2 ^ 63.

(** * Fallible results: a Go function returning [(A, error)]. *)
Inductive res (E A : Type) : Type :=
| Ok (a : A)
| Err (e : E).
Arguments Ok {E A} a.
Arguments Err {E A} e.

#[export] Instance res_ret E : MRet (res E) := λ A a, Ok a.
#[export] Instance res_bind E : MBind (res E) := λ A B f r,
  match r with Ok a => f a | Err e => Err e end.

Definition is_ok {E A} (r : res E A) : bool :=
  match r with Ok _ => true | Err _ => false end.

(** The errors a store call can give: the row is missing ([ErrNotFound]) or the
    statement failed (connection, constraint, context cancelled). *)
Inductive store_error := ErrNotFound | ErrDB.
#[export] Instance store_error_eq_dec : EqDecision store_error.
Proof. solve_decision. Defined.

(** * The world a request handler runs in

    A handler alternates local computation with statements of the store. The
    environment decides, at each tick, the clock, whether the statement fails, and
    what the other requests committed since the previous statement. *)
Class Env (T : Type) := MkEnv {
  db_err : nat → bool;
  clock : nat → Z;
  interfere : nat → T → T;
}.

Record world (T : Type) := World { w_tick : nat; w_db : T }.
Arguments World {T} _ _.
Arguments w_tick {T} _.
Arguments w_db {T} _.

Definition M (T A : Type) : Type := world T → A * world T.

#[export] Instance M_ret T : MRet (M T) := λ A a w, (a, w).
#[export] Instance M_bind T : MBind (M T) := λ A B f m w,
  let '(a, w') := m w in f a w'.

Section world.
Context {T : Type} `{!Env T}.

(** [time.Now()] *)
Definition time_now : M T Z := λ w, (clock (w_tick w), World (S (w_tick w)) (w_db w)).

(** One statement (or transaction) of the store: it sees what the others
    committed, fails without an effect, or applies [f] atomically. *)
Definition db {A} (f : Z → T → res store_error A * T) : M T (res store_error A) := λ w,
  let s := interfere (w_tick w) (w_db w) in
  if db_err (w_tick w) then (Err ErrDB, World (S (w_tick w)) s)
  else let '(r, s') := f (clock (w_tick w)) s in (r, World (S (w_tick w)) s').

(** An in-process effect (a hook, a notification handed to the notifier). *)
Definition effect (f : T → T) : M T unit := λ w, (tt, World (w_tick w) (f (w_db w))).

(** A value read off the current state without a statement. *)
Definition peek {A} (f : T → A) : M T A := λ w, (f (w_db w), w).

(** A random draw, a function of the tick. *)
Definition draw {A} (f : nat → A) : M T A := λ w, (f (w_tick w), w).
End world.

(** A store operation that only reads. *)
Definition reading {T A} (f : Z → T → res store_error A) : Z → T → res store_error A * T :=
  λ now s, (f now s, s).

(** A read of one row by key. *)
Definition get_row {T A} (f : T → option A) : Z → T → res store_error A * T :=
  reading (λ _ s, match f s with Some a => Ok a | None => Err ErrNotFound end).

(** * Rely and guarantee

    [guar R P m Q]: started where [P] holds, every effect of [m] is a step of [R] and
    its result satisfies [Q]. When the environment's interference also is a step of
    [R], a handler and everything that interleaves with it is one trace of [R], so an
    invariant of [R] holds of the running server whatever the interleaving. *)
Definition guar {T A} (R : relation T) (P : T → Prop) (m : M T A) (Q : A → T → Prop) : Prop :=
  ∀ w, P (w_db w) → R (w_db w) (w_db (m w).2) ∧ Q (m w).1 (w_db (m w).2).

Definition within {T A} (R : relation T) (m : M T A) : Prop :=
  guar R (λ _, True) m (λ _ _, True).

Class Relies {T} `{!Env T} (R : relation T) : Prop :=
  relies : ∀ n s, R s (interfere n s).

(** A fact the others cannot falsify. *)
Class Stable {T} (R : relation T) (P : T → Prop) : Prop :=
  stable : ∀ s s', P s → R s s' → P s'.

(** The environment nobody else runs in. *)
Class Quiet {T} (E : Env T) : Prop := quiet : ∀ n s, interfere n s = s.

(** No failures, the clock counts statements. *)
Definition quiet_env {T} : Env T := MkEnv T (λ _, false) Z.of_nat (λ _ s, s).
#[export] Instance quiet_env_quiet {T} : Quiet (T:=T) quiet_env.
Proof. done. Qed.
#[export] Instance quiet_relies {T} (R : relation T) : Reflexive R → @Relies T quiet_env R.
Proof. intros HR n s. apply HR. Qed.

(** Another request runs in full before the statement at tick [k]. *)
Definition interposed {T} (k : nat) (f : T → T) : Env T :=
  MkEnv T (λ _, false) Z.of_nat (λ n s, if bool_decide (n = k) then f s else s).

(** Running a statement. *)
Lemma db_eq {T A} `{!Env T} (f : Z → T → res store_error A * T) w :
  db f w =
  if db_err (w_tick w) then (Err ErrDB, World (S (w_tick w)) (interfere (w_tick w) (w_db w)))
  else let q := f (clock (w_tick w)) (interfere (w_tick w) (w_db w)) in (q.1, World (S (w_tick w)) q.2).
Proof. unfold db. destruct (db_err _); [done|]. by destruct (f _ _). Qed.

(** Running a statement when nobody else runs. *)
Lemma run_db {T A} `{!Env T, !Quiet Env0} (f : Z → T → res store_error A * T) n s :
  db f (World n s) =
  if db_err n then (Err ErrDB, World (S n) s)
  else ((f (clock n) s).1, World (S n) (f (clock n) s).2).
Proof. unfold db. simpl. rewrite quiet. destruct (db_err n); [done|]. by destruct (f _ _). Qed.

Lemma run_bind {T A B} (m : M T A) (k : A → M T B) w : (m ≫= k) w = k (m w).1 (m w).2.
Proof. unfold mbind, M_bind. by destruct (m w). Qed.

(** [run]: computes the next statement of a program applied to a world. *)
Ltac run_step :=
  repeat (progress (rewrite ?run_bind, ?run_db;
    cbn [fst snd mret M_ret time_now effect peek draw w_tick w_db])).

Section guar.
Context {T : Type} `{!Env T} (R : relation T) `{!PreOrder R}.
Implicit Types P : T → Prop.

Lemma guar_ret {A} P (Q : A → T → Prop) a : (∀ s, P s → Q a s) → guar R P (mret a) Q.
Proof. intros HQ w HP. split; [reflexivity | by apply HQ]. Qed.

Lemma guar_bind {A B} P Q (Q' : B → T → Prop) (m : M T A) (k : A → M T B) :
  guar R P m Q → (∀ a, guar R (Q a) (k a) Q') → guar R P (m ≫= k) Q'.
Proof.
  intros Hm Hk w HP. unfold mbind, M_bind. destruct (Hm w HP) as [HR HQ].
  destruct (m w) as [a w1]. destruct (Hk a w1 HQ) as [HR' HQ'].
  split; [by etrans | done].
Qed.

Lemma guar_conseq {A} P P' (Q Q' : A → T → Prop) m :
  guar R P' m Q' → (∀ s, P s → P' s) → (∀ a s, Q' a s → Q a s) → guar R P m Q.
Proof. intros Hm HP HQ w H. destruct (Hm w (HP _ H)); eauto. Qed.

Lemma guar_weaken {A} P P' (Q : A → T → Prop) m :
  guar R P' m Q → (∀ s, P s → P' s) → guar R P m Q.
Proof. eauto using guar_conseq. Qed.

Lemma guar_pure {A} (φ : Prop) P (Q : A → T → Prop) m :
  (φ → guar R P m Q) → guar R (λ s, P s ∧ φ) m Q.
Proof. intros Hm w [HP Hφ]. by apply Hm. Qed.

Lemma guar_within {A} P (m : M T A) : within R m → guar R P m (λ _ _, True).
Proof. intros Hm w _. by apply Hm. Qed.

(** A stable precondition survives a program that stays within [R]. *)
Lemma guar_frame {A} P `{!Stable R P} (m : M T A) :
  within R m → guar R P m (λ _, P).
Proof. intros Hm w HP. destruct (Hm w I) as [HR _]. split; [done | by eapply stable]. Qed.

(** A statement: it fails at a tick where the store fails, or is applied at the
    clock of its tick. *)
Lemma guar_db_at {A} P (Q : res store_error A → T → Prop) `{!Relies R, !Stable R P}
    (f : Z → T → res store_error A * T) :
  (∀ n s, db_err n = true → P s → Q (Err ErrDB) s) →
  (∀ n s, P s → R s (f (clock n) s).2 ∧ Q (f (clock n) s).1 (f (clock n) s).2) →
  guar R P (db f) Q.
Proof.
  intros He Hf w HP. unfold db.
  pose proof (relies (w_tick w) (w_db w)) as Hi. pose proof (stable _ _ HP Hi) as HP'.
  destruct (db_err _) eqn:Hd; simpl; [eauto|].
  destruct (Hf (w_tick w) _ HP') as [HR HQ].
  destruct (f _ _) as [r s']; simpl in *. split; [by etrans | done].
Qed.

Lemma guar_db {A} P (Q : res store_error A → T → Prop) `{!Relies R, !Stable R P}
    (f : Z → T → res store_error A * T) :
  (∀ s, P s → Q (Err ErrDB) s) →
  (∀ now s, P s → R s (f now s).2 ∧ Q (f now s).1 (f now s).2) →
  guar R P (db f) Q.
Proof. intros He Hf. apply guar_db_at; [done..|eauto|eauto]. Qed.

(** Facts the others cannot falsify can be carried across a program. *)
Lemma guar_and_frame {A} P F (Q : A → T → Prop) m :
  Stable R F → guar R P m Q → guar R (λ s, P s ∧ F s) m (λ a s, Q a s ∧ F s).
Proof. intros HF Hm w [HP HFw]. destruct (Hm w HP) as [HR HQ]. split_and!; [done..|by eapply HF]. Qed.

(** With nobody else running, any precondition reaches the statement. *)
Lemma guar_db_quiet {A} P (Q : res store_error A → T → Prop) `{!Quiet _}
    (f : Z → T → res store_error A * T) :
  (∀ n s, db_err n = true → P s → Q (Err ErrDB) s) →
  (∀ n s, P s → R s (f (clock n) s).2 ∧ Q (f (clock n) s).1 (f (clock n) s).2) →
  guar R P (db f) Q.
Proof.
  intros He Hf w HP. unfold db. rewrite quiet.
  destruct (db_err _) eqn:Hd; simpl; [split; [reflexivity|eauto]|].
  destruct (Hf (w_tick w) _ HP) as [HR HQ]. by destruct (f _ _) as [r s']; simpl in *.
Qed.

(** Reading a row: the row was there when it was read. *)
Lemma guar_get_row {A} P `{!Relies R, !Stable R P} (f : T → option A) :
  guar R P (db (get_row f)) (λ r s, P s ∧ ∀ a, r = Ok a → f s = Some a).
Proof.
  apply guar_db; [done..|]. intros now s HP. simpl. split; [reflexivity|].
  split; [done|]. intros a. case_match; naive_solver.
Qed.

Lemma guar_draw {A} P (f : nat → A) (Q : A → T → Prop) :
  (∀ n s, P s → Q (f n) s) → guar R P (draw f) Q.
Proof. intros HQ w HP. split; [reflexivity | by apply HQ]. Qed.

Lemma within_ret {A} (a : A) : within R (mret a).
Proof. by apply guar_ret. Qed.

Lemma within_bind {A B} (m : M T A) (k : A → M T B) :
  within R m → (∀ a, within R (k a)) → within R (m ≫= k).
Proof. intros Hm Hk. eapply guar_bind; [exact Hm | exact Hk]. Qed.

Lemma within_now : within R time_now.
Proof. intros w _. split; [reflexivity | done]. Qed.

Lemma within_peek {A} (f : T → A) : within R (peek f).
Proof. intros w _. split; [reflexivity | done]. Qed.

Lemma within_draw {A} (f : nat → A) : within R (draw f).
Proof. by apply guar_draw. Qed.

Lemma within_effect f : (∀ s, R s (f s)) → within R (effect f).
Proof. intros Hf w _. split; [apply Hf | done]. Qed.

#[export] Instance stable_true : Stable R (λ _, True).
Proof. done. Qed.

Lemma within_db {A} `{!Relies R} (f : Z → T → res store_error A * T) :
  (∀ now s, R s (f now s).2) → within R (db f).
Proof. intros Hf. apply guar_db; [done|apply stable_true|..]; eauto. Qed.

Lemma within_reading {A} `{!Relies R} (f : Z → T → res store_error A) :
  within R (db (reading f)).
Proof. apply within_db. intros now s. reflexivity. Qed.

Lemma within_get_row {A} `{!Relies R} (f : T → option A) : within R (db (get_row f)).
Proof. apply within_reading. Qed.

Lemma within_mapM {A B} (f : A → M T B) l :
  (∀ a, within R (f a)) → within R (mapM f l).
Proof.
  intros Hf. induction l as [|a l IH]; [apply within_ret|].
  change (mapM f (a :: l)) with (b ← f a; bs ← mapM f l; mret (b :: bs)).
  apply within_bind; [apply Hf|]. intros b. apply within_bind; [apply IH|].
  intros. apply within_ret.
Qed.

Lemma stable_and P P' : Stable R P → Stable R P' → Stable R (λ s, P s ∧ P' s).
Proof. intros H1 H2 s s' [??] HR. split; [by eapply H1 | by eapply H2]. Qed.

Lemma stable_const (φ : Prop) : Stable R (λ _, φ).
Proof. by intros ???. Qed.
End guar.

#[export] Hint Extern 0 (Stable _ (λ _, True)) => intros ???; exact I : typeclass_instances.
#[export] Hint Resolve stable_and stable_const | 10 : typeclass_instances.

(** Plain pre- and postconditions, the steps in between not being of interest. *)
Definition anything {T} : relation T := λ _ _, True.
#[export] Instance anything_preorder {T} : PreOrder (@anything T).
Proof. done. Qed.

Create HintDb within.
#[export] Hint Resolve within_ret within_now within_peek within_draw within_get_row within_reading : within.
#[export] Hint Resolve within_db within_effect within_mapM : within.

(** Splits a handler into its statements and decides the branches. *)
Ltac within_step :=
  match goal with
  | |- forall _, _ => intros ?
  | |- within _ (match ?x with _ => _ end) => destruct x eqn:?
  | |- within _ (if ?b then _ else _) => destruct b eqn:?
  | |- within _ (let '(_, _) := ?x in _) => destruct x
  | |- within _ _ => solve [eauto with within typeclass_instances]
  | |- within _ (_ ≫= _) => apply within_bind; [typeclasses eauto | |]
  end.
Ltac within_tac := repeat within_step.

(** Programs never turn the clock's tick back. *)
Definition forward {T A} (m : M T A) : Prop := ∀ w, (w_tick w ≤ w_tick (m w).2)%nat.

Section forward.
Context {T : Type} `{!Env T}.

Lemma forward_ret {A} (a : A) : forward (mret a : M T A).
Proof. intros w. done. Qed.

Lemma forward_bind {A B} (m : M T A) (k : A → M T B) :
  forward m → (∀ a, forward (k a)) → forward (m ≫= k).
Proof. intros Hm Hk w. rewrite run_bind. etrans; [apply Hm|apply Hk]. Qed.

Lemma forward_now : forward (time_now : M T Z).
Proof. intros w. simpl. lia. Qed.

Lemma forward_effect f : forward (effect f : M T unit).
Proof. intros w. done. Qed.

Lemma forward_db {A} (f : Z → T → res store_error A * T) : forward (db f).
Proof. intros w. unfold db. destruct (db_err _); simpl; [lia|]. destruct (f _ _). simpl. lia. Qed.
End forward.

Create HintDb forward.
#[export] Hint Resolve forward_ret forward_now forward_effect forward_db : forward.

Ltac forward_step :=
  match goal with
  | |- forall _, _ => intros ?
  | |- forward (match ?x with _ => _ end) => destruct x eqn:?
  | |- forward _ => solve [eauto with forward]
  | |- forward (_ ≫= _) => apply forward_bind
  end.
Ltac forward_tac := repeat forward_step.

(** * Tables: maps keyed by row id, new rows under a key the table does not hold *)
Lemma fresh_lookup {A} (m : gmap uuid A) : m !! fresh (dom m) = None.
Proof. apply not_elem_of_dom, is_fresh. Qed.

(** * Replies of an HTTP handler *)
Inductive reply (A : Type) : Type :=
| WriteError (code : Z) (msg : string)
| WriteJSON (code : Z) (body : A).
Arguments WriteError {A} _ _.
Arguments WriteJSON {A} _ _.

(** * Go strings: byte strings *)
Fixpoint has_prefix (p s : string) : bool :=
  match p, s with
  | EmptyString, _ => true
  | String a p', String b s' => if Ascii.eqb a b then has_prefix p' s' else false
  | _, _ => false
  end.

Fixpoint str_drop (n : nat) (s : string) : string :=
  match n, s with
  | O, _ => s
  | S n', String _ s' => str_drop n' s'
  | S _, EmptyString => EmptyString
  end.

Fixpoint contains_sub (sub s : string) : bool :=
  has_prefix sub s ||
  match s with EmptyString => false | String _ s' => contains_sub sub s' end.

Definition str_eqb (a b : string) : bool := bool_decide (a = b).

Lemma str_app_nil (s : string) : s +:+ "" = s.
Proof. induction s as [|c s IH]; [done|].
  change (String c (s +:+ "") = String c s). by rewrite IH. Qed.
Lemma str_app_assoc (a b c : string) : a +:+ (b +:+ c) = (a +:+ b) +:+ c.
Proof. induction a as [|x a IH]; [done|].
  change (String x (a +:+ (b +:+ c)) = String x ((a +:+ b) +:+ c)). by rewrite IH. Qed.

Lemma has_prefix_app p s : has_prefix p (p +:+ s) = true.
Proof. induction p as [|a p IH]; simpl; [done|]. by rewrite Ascii.eqb_refl. Qed.

Lemma has_prefix_spec p s : has_prefix p s = true ↔ ∃ t, s = p +:+ t.
Proof.
  split.
  - revert s. induction p as [|a p IH]; intros s; simpl; [eauto|].
    destruct s as [|b s]; [done|]. destruct (Ascii.eqb_spec a b) as [->|]; [|done].
    intros [t ->]%IH. by exists t.
  - intros [t ->]. apply has_prefix_app.
Qed.

Lemma str_eqb_eq a b : str_eqb a b = true ↔ a = b.
Proof. unfold str_eqb. apply bool_decide_eq_true. Qed.


(** [strings.TrimSpace]: the UTF-8 encodings of the runes [unicode.IsSpace] accepts,
    removed from both ends. The fuel is the length: each step removes a byte. *)
Definition chr (n : nat) : string := String (Ascii.ascii_of_nat n) "".

Definition go_spaces : list string :=
  (chr <$> [9; 10; 11; 12; 13; 32]%nat) ++
  [chr 194 +:+ chr 133; chr 194 +:+ chr 160; chr 225 +:+ chr 154 +:+ chr 128] ++
  ((λ n, chr 226 +:+ chr 128 +:+ chr n) <$> (seq 128 11 ++ [168; 169; 175]%nat)) ++
  [chr 226 +:+ chr 129 +:+ chr 159; chr 227 +:+ chr 128 +:+ chr 128].

Fixpoint trim_left (fuel : nat) (spaces : list string) (s : string) : string :=
  match fuel with
  | O => s
  | S fuel' =>
    match List.find (λ p, has_prefix p s) spaces with
    | Some p => trim_left fuel' spaces (str_drop (String.length p) s)
    | None => s
    end
  end.

Fixpoint rev_string (s acc : string) : string :=
  match s with EmptyString => acc | String c s' => rev_string s' (String c acc) end.

Definition TrimSpace (s : string) : string :=
  let l := trim_left (String.length s) go_spaces s in
  rev_string (trim_left (String.length l) ((λ p, rev_string p "") <$> go_spaces)
                (rev_string l "")) "".

Example TrimSpace_ex : TrimSpace "  a b 	" = "a b" ∧ TrimSpace (chr 194 +:+ chr 160) = "".
Proof. by vm_compute. Qed.
