(* ===== verification/GoStrings.v ===== *)
(** Functions of Go's [strings], [strconv] and [encoding/hex] packages shared by the components that read text, with
    the lemmas about splitting and trimming. *)
From S2P Require Import Prelude.
From Stdlib Require Import Strings.Ascii Strings.Byte.

(** * Strings *)
Fixpoint Split (c : ascii) (s : string) : list string :=
  match s with
  | EmptyString => [""]
  | String d s' =>
    if Ascii.eqb d c then "" :: Split c s'
    else match Split c s' with h :: t => String d h :: t | [] => [String d ""] end
  end.

(** [hex.EncodeToString] *)
Definition hex_digit (n : N) : ascii := ascii_of_N (if (n <? 10)%N then 48 + n else 87 + n)%N.
Fixpoint hex (bs : list Byte.byte) : string :=
  match bs with
  | [] => ""
  | b :: bs' => let n := Byte.to_N b in
    String (hex_digit (n / 16)) (String (hex_digit (n mod 16)) (hex bs'))
  end.

(** Up to the first of the given characters. *)
Fixpoint before_any (cs : list ascii) (s : string) : string :=
  match s with
  | EmptyString => ""
  | String d s' => if bool_decide (d ∈ cs) then "" else String d (before_any cs s')
  end.

Definition TrimPrefix (p s : string) : string :=
  if has_prefix p s then str_drop (String.length p) s else s.

(** [strings.TrimRight] with a cutset of one character. *)
Fixpoint TrimRight (c : ascii) (s : string) : string :=
  match s with
  | EmptyString => EmptyString
  | String d t =>
    match TrimRight c t with
    | EmptyString => if Ascii.eqb d c then EmptyString else String d EmptyString
    | t' => String d t'
    end
  end.

Definition all_chars (f : ascii → bool) (s : string) : bool := forallb f (String.list_ascii_of_string s).
Definition code_between (lo hi : N) (c : ascii) : bool := bool_decide (lo ≤ N_of_ascii c ≤ hi)%N.
Definition is_digit : ascii → bool := code_between 48 57.

(** [strconv.Atoi] *)
Fixpoint digits (acc : Z) (s : string) : option Z :=
  match s with
  | EmptyString => Some acc
  | String c s' => if is_digit c then digits (acc * 10 + Z.of_N (N_of_ascii c - 48)) s' else None
  end.
Definition int_range (z : Z) : bool := (- 2 ^ 63 <=? z) && (z <? 2 ^ 63).
Definition signed_digits (neg : bool) (t : string) : option Z :=
  if str_eqb t "" then None
  else match digits 0 t with
       | Some z => let z := if neg then - z else z in if int_range z then Some z else None
       | None => None
       end.
Definition Atoi (s : string) : option Z :=
  match s with
  | String "-" t => signed_digits true t
  | String "+" t => signed_digits false t
  | _ => signed_digits false s
  end.


(** * Splitting *)
Lemma TrimRight_keeps c a d : d ≠ c → TrimRight c (a +:+ String d "") = a +:+ String d "".
Proof.
  intros Hd. induction a as [|x a IH].
  - simpl. by destruct (Ascii.eqb_spec d c).
  - change (String x a +:+ String d "") with (String x (a +:+ String d "")). cbn [TrimRight]. rewrite IH. by destruct a.
Qed.
Lemma TrimRight_snoc c s : TrimRight c (s +:+ String c "") = TrimRight c s.
Proof.
  induction s as [|d s IH]; [change ("" +:+ String c "") with (String c ""); cbn [TrimRight]; by rewrite Ascii.eqb_refl|].
  change (String d s +:+ String c "") with (String d (s +:+ String c "")). cbn [TrimRight]. by rewrite IH.
Qed.
Lemma Split_nosep c s : all_chars (λ d, negb (Ascii.eqb d c)) s = true → Split c s = [s].
Proof.
  induction s as [|d s IH]; [done|]. unfold all_chars. simpl. intros [Hd Hs]%andb_true_iff.
  apply negb_true_iff in Hd. rewrite Hd. by rewrite IH.
Qed.
Lemma Split_sep c s t : all_chars (λ d, negb (Ascii.eqb d c)) s = true →
  Split c (s +:+ String c "" +:+ t) = s :: Split c t.
Proof.
  change (String c "" +:+ t) with (String c t).
  induction s as [|d s IH]; simpl; [by rewrite Ascii.eqb_refl|]. unfold all_chars. simpl.
  intros [Hd Hs]%andb_true_iff. apply negb_true_iff in Hd. rewrite Hd. by rewrite IH.
Qed.
Lemma before_any_none cs s : all_chars (λ d, negb (bool_decide (d ∈ cs))) s = true → before_any cs s = s.
Proof.
  induction s as [|d s IH]; [done|]. unfold all_chars. simpl. intros [Hd Hs]%andb_true_iff.
  apply negb_true_iff in Hd. rewrite Hd. by rewrite IH.
Qed.

Lemma Split_nonempty c s : Split c s ≠ [].
Proof. induction s as [|d s IH]; [done|]. cbn [Split]. destruct (Ascii.eqb d c); [done|]. by destruct (Split c s). Qed.
Lemma Split_app c a b : Split c (a +:+ String c "" +:+ b) = Split c a ++ Split c b.
Proof.
  change (String c "" +:+ b) with (String c b).
  induction a as [|d a IH].
  { change (Split c (String c b) = [""] ++ Split c b). cbn [Split]. by rewrite Ascii.eqb_refl. }
  change (String d a +:+ String c b) with (String d (a +:+ String c b)). cbn [Split].
  rewrite IH. destruct (Ascii.eqb d c); [done|]. 
  pose proof (Split_nonempty c a). by destruct (Split c a).
Qed.

(** * Trimming *)
(** Nothing to trim when the ends are plain characters. *)
Definition plain_char (c : ascii) : bool := code_between 33 127 c.

Lemma trim_left_plain spaces fuel c s :
  forallb (λ p, match p with String x _ => negb (plain_char x) | "" => false end) spaces = true →
  plain_char c = true → trim_left fuel spaces (String c s) = String c s.
Proof.
  intros Hsp Hc. destruct fuel as [|fuel]; [done|]. simpl.
  destruct (List.find _ spaces) as [p|] eqn:Hf; [|done]. exfalso.
  apply List.find_some in Hf as [Hin Hp]. rewrite forallb_forall in Hsp. specialize (Hsp p Hin).
  destruct p as [|x p]; [done|]. simpl in Hp. destruct (Ascii.eqb_spec x c) as [->|]; [|done].
  by rewrite Hc in Hsp.
Qed.

Lemma rev_string_app s acc acc' : rev_string s (acc +:+ acc') = rev_string s acc +:+ acc'.
Proof. revert acc. induction s as [|c s IH]; intros acc; [done|]. apply (IH (String c acc)). Qed.
Lemma rev_string_rev s acc : rev_string (rev_string s acc) "" = rev_string acc s.
Proof. revert acc. induction s as [|c s IH]; intros acc; [done|]. simpl. by rewrite IH. Qed.
Lemma rev_string_snoc s c : rev_string (s +:+ String c "") "" = String c (rev_string s "").
Proof.
  assert (∀ acc, rev_string (s +:+ String c "") acc = String c (rev_string s "" +:+ acc)) as Hg.
  { induction s as [|d s IH]; intros acc; [done|]. simpl. rewrite IH.
    replace (rev_string s (String d "")) with (rev_string s "" +:+ String d "")
      by (symmetry; apply (rev_string_app s "" (String d ""))).
    by rewrite <- str_app_assoc. }
  rewrite (Hg ""). by rewrite str_app_nil.
Qed.

Lemma rev_string_concat a b : rev_string (a +:+ b) "" = rev_string b "" +:+ rev_string a "".
Proof.
  assert (∀ acc, rev_string (a +:+ b) acc = rev_string b (rev_string a acc)) as Hg.
  { induction a as [|x a IH]; intros acc; [done|]. apply IH. }
  by rewrite Hg, <- (rev_string_app b "" (rev_string a "")).
Qed.
Lemma str_app_inj_l a b c : a +:+ b = a +:+ c → b = c.
Proof. induction a as [|x a IH]; [done|]. intros [= Heq]. by apply IH. Qed.
Lemma str_app_inj_r a b c : a +:+ c = b +:+ c → a = b.
Proof.
  intros Heq. assert (rev_string a "" = rev_string b "") as He.
  { apply (str_app_inj_l (rev_string c "")). by rewrite <- !rev_string_concat, Heq. }
  pose proof (rev_string_rev a "") as Ha. pose proof (rev_string_rev b "") as Hb.
  rewrite He in Ha. cbn [rev_string] in Ha, Hb. congruence.
Qed.

Lemma spaces_not_plain : forallb (λ p, match p with String x _ => negb (plain_char x) | "" => false end) go_spaces = true
  ∧ forallb (λ p, match p with String x _ => negb (plain_char x) | "" => false end)
      ((λ p, rev_string p "") <$> go_spaces) = true.
Proof. by vm_compute. Qed.

Lemma TrimSpace_plain c s d t :
  String c s = t +:+ String d "" → plain_char c = true → plain_char d = true → TrimSpace (String c s) = String c s.
Proof.
  intros Heq Hc Hd. destruct spaces_not_plain as [H1 H2]. unfold TrimSpace.
  rewrite (trim_left_plain go_spaces) by done. rewrite Heq, rev_string_snoc.
  rewrite trim_left_plain by done.
  rewrite <- rev_string_snoc, rev_string_rev. done.
Qed.

(** A non-empty string of plain characters. *)
Lemma TrimSpace_all_plain s : all_chars plain_char s = true → TrimSpace s = s.
Proof.
  intros Hs. destruct s as [|c s]; [by vm_compute|].
  assert (∃ t d, String c s = t +:+ String d "") as (t & d & Heq).
  { revert c Hs. induction s as [|c' s IH]; intros c Hs; [by exists "", c|].
    destruct (IH c') as (t & d & Heq); [by apply andb_true_iff in Hs as [_ ?]|]. exists (String c t), d. by rewrite Heq. }
  eapply TrimSpace_plain; [done|by apply andb_true_iff in Hs as [? _]|].
  rewrite Heq in Hs. clear Heq. induction t as [|x t IH]; apply andb_true_iff in Hs as [??]; auto.
Qed.

Lemma all_chars_app f s t : all_chars f (s +:+ t) = all_chars f s && all_chars f t.
Proof. induction s as [|c s IH]; [done|]. unfold all_chars in *. simpl. by rewrite IH, andb_assoc. Qed.
Lemma all_chars_impl (f g : ascii → bool) s : (∀ c, f c = true → g c = true) → all_chars f s = true → all_chars g s = true.
Proof.
  intros Hfg. induction s as [|c s IH]; [done|]. unfold all_chars in *. simpl.
  intros [??]%andb_true_iff. apply andb_true_iff. auto.
Qed.


(** Trimming stops at a plain character. *)
Definition no_plain (p : string) : bool := negb (str_eqb p "") && all_chars (λ c, negb (plain_char c)) p.

Lemma has_prefix_plain p x c y : no_plain p = true → plain_char c = true →
  has_prefix p (x +:+ String c y) = true → ∃ x', x = p +:+ x'.
Proof.
  intros [_ Hp]%andb_true_iff Hc. revert x. induction p as [|d p IH]; intros x Hx; [by exists x|].
  apply andb_true_iff in Hp as [Hd Hp]. destruct x as [|e x]; simpl in Hx.
  - destruct (Ascii.eqb_spec d c) as [->|]; [|done]. by rewrite Hc in Hd.
  - destruct (Ascii.eqb_spec d e) as [->|]; [|done]. destruct (IH Hp x Hx) as [x' ->]. by exists x'.
Qed.

Lemma str_drop_app p x : str_drop (String.length p) (p +:+ x) = x.
Proof. by induction p. Qed.

Lemma trim_left_stops spaces fuel x c y : forallb no_plain spaces = true → plain_char c = true →
  ∃ x', trim_left fuel spaces (x +:+ String c y) = x' +:+ String c y.
Proof.
  intros Hsp Hc. revert x. induction fuel as [|fuel IH]; intros x; [by exists x|]. cbn [trim_left].
  destruct (List.find _ spaces) as [p|] eqn:Hf; [|by exists x].
  apply List.find_some in Hf as [Hin Hp]. rewrite forallb_forall in Hsp.
  destruct (has_prefix_plain p x c y (Hsp p Hin) Hc Hp) as [x' ->].
  rewrite <- str_app_assoc, str_drop_app. apply IH.
Qed.

Lemma spaces_no_plain : forallb no_plain ((λ p, rev_string p "") <$> go_spaces) = true.
Proof. by vm_compute. Qed.

(** Only what follows the last plain character can be trimmed. *)
Lemma TrimSpace_keeps c s d t : plain_char c = true → plain_char d = true →
  (∃ v, String c s = v +:+ String d "") →
  ∃ t', TrimSpace (String c s +:+ t) = String c s +:+ t'.
Proof.
  intros Hc Hd [v Hv]. destruct spaces_not_plain as [H1 H2]. unfold TrimSpace.
  change (String c s +:+ t) with (String c (s +:+ t)). rewrite (trim_left_plain go_spaces) by done.
  change (String c (s +:+ t)) with (String c s +:+ t). rewrite Hv.
  rewrite rev_string_concat, rev_string_snoc.
  destruct (trim_left_stops ((λ p, rev_string p "") <$> go_spaces)
    (String.length ((v +:+ String d "") +:+ t)) (rev_string t "") d (rev_string v "")) as [x' ->];
    [apply spaces_no_plain|done|].
  exists (rev_string x' ""). rewrite rev_string_concat. f_equal. rewrite <- rev_string_snoc. apply rev_string_rev.
Qed.

(** * A text for numbers, to build concrete instances of the encodings *)
Fixpoint pos_bytes (p : positive) : list Byte.byte :=
  match p with xI p => x31 :: pos_bytes p | xO p => x30 :: pos_bytes p | xH => [] end.
Fixpoint bytes_pos (s : list Byte.byte) : positive :=
  match s with x31 :: s => xI (bytes_pos s) | x30 :: s => xO (bytes_pos s) | _ => xH end.

Lemma pos_bytes_line p : x0a ∉ pos_bytes p.
Proof. induction p; [by apply not_elem_of_cons..|apply not_elem_of_nil]. Qed.
Lemma bytes_pos_app p b l : b ≠ x30 → b ≠ x31 → bytes_pos (pos_bytes p ++ b :: l) = p.
Proof. intros H0 H1. induction p as [p IH|p IH|]; simpl; [by rewrite IH..|]. by destruct b. Qed.
