(* ===== verification/Approvals.v ===== *)
(** Just-in-time access: [approvals/approvals.go] (the HTTP workflow) over
    [store/approvals.go] (the requests and the time-boxed grants).

    The tables are maps keyed by row id; each store method is one atomic statement or
    transaction on them; each handler is the Go handler, statement by statement. *)
From S2P Require Import Prelude.

(** * Data *)

Inductive ap_status := Pending | Approved | Denied | Expired | Cancelled.
#[export] Instance ap_status_eq_dec : EqDecision ap_status.
Proof. solve_decision. Defined.

(** A row of [approval_requests]. *)
Record approval := Approval {
  ar_requester : uuid;
  ar_target_kind : string;
  ar_host : option uuid;
  ar_group : option uuid;
  ar_reason : string;
  ar_ticket_ref : string;
  ar_requested_secs : Z;
  ar_status : ap_status;
  ar_decided_by : option uuid;
  ar_decided_at : option Z;
  ar_note : string;
  ar_granted_secs : option Z;
  ar_created_at : Z;
}.

(** A row of [temporary_permissions]. *)
Record grant := Grant {
  tp_request : option uuid;
  tp_user : uuid;
  tp_host : option uuid;
  tp_group : option uuid;
  tp_granted_at : Z;
  tp_expires_at : Z;
  tp_revoked_at : option Z;
}.

(** [auth.Principal], as far as this package reads it. *)
Record principal := Principal { p_user : uuid; p_decide : bool }.

Inductive event_type := EventApprovalPending | EventApprovalResolved | EventAccessExpired.

(** What the handlers leave behind besides the two tables: audit events (action and
    target) and the notifications handed to the notifier (type and user concerned). *)
Record store := Store {
  requests : gmap uuid approval;
  grants : gmap uuid grant;
  audits : list (string * uuid);
  notes : list (event_type * uuid);
}.

Definition set_requests (s : store) m := Store m (grants s) (audits s) (notes s).

Definition set_ticket (r : approval) (ref : string) : approval :=
  Approval (ar_requester r) (ar_target_kind r) (ar_host r) (ar_group r) (ar_reason r) ref
    (ar_requested_secs r) (ar_status r) (ar_decided_by r) (ar_decided_at r) (ar_note r)
    (ar_granted_secs r) (ar_created_at r).

Definition set_decision (r : approval) st by_ at_ note granted : approval :=
  Approval (ar_requester r) (ar_target_kind r) (ar_host r) (ar_group r) (ar_reason r)
    (ar_ticket_ref r) (ar_requested_secs r) st (Some by_) (Some at_) note granted
    (ar_created_at r).

Definition set_status (r : approval) st : approval :=
  Approval (ar_requester r) (ar_target_kind r) (ar_host r) (ar_group r) (ar_reason r)
    (ar_ticket_ref r) (ar_requested_secs r) st (ar_decided_by r) (ar_decided_at r)
    (ar_note r) (ar_granted_secs r) (ar_created_at r).

Definition set_revoked (g : grant) (now : Z) : grant :=
  Grant (tp_request g) (tp_user g) (tp_host g) (tp_group g) (tp_granted_at g)
    (tp_expires_at g) (Some now).

(** * The store *)

Record approval_input := ApprovalInput {
  in_requester : uuid;
  in_target_kind : string;
  in_host : option uuid;
  in_group : option uuid;
  in_reason : string;
  in_ticket_ref : string;
  in_requested_secs : Z;
}.

(** The row [CreateApprovalRequest] inserts; the id is [gen_random_uuid()], a key
    the table does not hold. *)
Definition new_request (now : Z) (i : approval_input) : approval :=
  Approval (in_requester i) (in_target_kind i) (in_host i) (in_group i) (in_reason i)
    (in_ticket_ref i) (in_requested_secs i) Pending None None "" None now.

Definition InsertApprovalRequest (i : approval_input) (now : Z) (s : store)
    : res store_error uuid * store :=
  let id := fresh (dom (requests s)) in
  (Ok id, set_requests s (<[id := new_request now i]> (requests s))).

Definition GetApprovalRequest (id : uuid) : Z → store → res store_error approval * store :=
  get_row (λ s, requests s !! id).

Definition SetApprovalTicketRef (id : uuid) (ref : string) (now : Z) (s : store)
    : res store_error unit * store :=
  (Ok tt, set_requests s (alter (λ r, set_ticket r ref) id (requests s))).

(** The transaction of [DecideApprovalRequest]: the UPDATE is guarded by
    [status='pending'], the INSERT of the grant happens on approval only. *)
Definition DecideApprovalRequest (id decidedBy : uuid) (st : ap_status) (note : string)
    (grantedSecs : Z) (now : Z) (s : store) : res store_error approval * store :=
  match requests s !! id with
  | None => (Err ErrNotFound, s)
  | Some r =>
    if decide (ar_status r = Pending) then
      let approved := bool_decide (st = Approved) in
      let r' := set_decision r st decidedBy now note
                  (if approved then Some grantedSecs else None) in
      let gs := if approved then
          <[fresh (dom (grants s)) :=
             Grant (Some id) (ar_requester r) (ar_host r) (ar_group r) now
               (now + grantedSecs * second) None]> (grants s)
        else grants s in
      (Ok r', Store (<[id := r']> (requests s)) gs (audits s) (notes s))
    else (Err ErrNotFound, s)
  end.

Definition grant_due (now : Z) (g : grant) : bool :=
  bool_decide (tp_revoked_at g = None) && (tp_expires_at g <=? now).

(** A grant [ListTemporaryPermissions] reports as active. *)
Definition grant_active (now : Z) (g : grant) : bool :=
  bool_decide (tp_revoked_at g = None) && (now <? tp_expires_at g).

(** [ListTemporaryPermissions]: the active grants of a user (their order, by expiry,
    does not matter to any claim here). *)
Definition ListTemporaryPermissions (user : uuid) (now : Z) (s : store)
    : res store_error (list (uuid * grant)) * store :=
  (Ok (map_to_list (filter (λ kg, tp_user kg.2 = user ∧ grant_active now kg.2 = true)
                      (grants s))), s).

(** The grants the UPDATE of [ExpireTemporaryPermissions] returns. *)
Definition due_grants (now : Z) (s : store) : gmap uuid grant :=
  filter (λ kg, grant_due now kg.2 = true) (grants s).

Definition due_requests (now : Z) (s : store) : gset uuid :=
  list_to_set (omap (λ kg, tp_request kg.2) (map_to_list (due_grants now s))).

(** [ExpireTemporaryPermissions]: one statement revokes the due grants and marks
    their approved requests expired, and returns the revoked grants. *)
Definition ExpireTemporaryPermissions (now : Z) (s : store)
    : res store_error (list grant) * store :=
  (Ok (map_to_list (due_grants now s)).*2,
   Store
     (map_imap (λ id r,
        Some (if bool_decide (id ∈ due_requests now s ∧ ar_status r = Approved)
              then set_status r Expired else r)) (requests s))
     ((λ g, if grant_due now g then set_revoked g now else g) <$> grants s)
     (audits s) (notes s)).

(** [AppendAudit] as this package uses it: best effort, result ignored. *)
Definition AppendAudit (e : string * uuid) (now : Z) (s : store)
    : res store_error unit * store :=
  (Ok tt, Store (requests s) (grants s) (audits s ++ [e]) (notes s)).

Definition notify (e : event_type * uuid) (s : store) : store :=
  Store (requests s) (grants s) (audits s) (notes s ++ [e]).

(** * The handlers *)

Section handlers.
Context `{!Env store}.
(** The ITSM integration ([itsm.LoadConfig], [CreateTicket], [Comment]) talks to an
    external service: [None] when it is not configured, otherwise what the call to
    the service gave. *)
Context (itsm_create : uuid → option (res string string)).
Context (itsm_comment : uuid → option (res string unit)).
(** [h.d.Notify != nil] *)
Context (has_notify : bool).

Definition audit (action : string) (id : uuid) : M store unit :=
  _ ← db (AppendAudit (action, id)); mret tt.

Definition do_notify (e : event_type * uuid) : M store unit :=
  if has_notify then effect (notify e) else mret tt.

(** The body of [POST /approvals]; ids arrive parsed or not ([uuid.Parse]). *)
Record approval_req := ApprovalReq {
  rq_reason : string;
  rq_target_kind : string;
  rq_host : option uuid;
  rq_group : option uuid;
  rq_secs : Z;
  rq_ticket : string;
}.

Definition CreateApprovalRequest (i : approval_input) : M store (res store_error (uuid * approval)) :=
  r ← db (InsertApprovalRequest i);
  match r with
  | Err e => mret (Err e)
  | Ok id =>
    a ← db (GetApprovalRequest id);
    mret (match a with Ok a => Ok (id, a) | Err e => Err e end)
  end.

Definition open_ticket (id : uuid) (a : approval) : M store unit :=
  if str_eqb (ar_ticket_ref a) "" then
    match itsm_create id with
    | Some (Ok ref) =>
      if str_eqb ref "" then mret tt
      else _ ← db (SetApprovalTicketRef id ref); audit "approval.ticket" id
    | _ => mret tt
    end
  else mret tt.

Definition create (p : principal) (rq : option approval_req) : M store (reply uuid) :=
  match rq with
  | None => mret (WriteError 400 "invalid request body")
  | Some rq =>
    if rq_secs rq <=? 0 then mret (WriteError 400 "requestedSecs must be positive")
    else
      let input h g := ApprovalInput (p_user p) (rq_target_kind rq) h g (rq_reason rq)
                         (rq_ticket rq) (rq_secs rq) in
      let go i :=
        r ← CreateApprovalRequest i;
        match r with
        | Err _ => mret (WriteError 500 "could not create approval request")
        | Ok (id, a) =>
          _ ← audit "approval.request" id;
          _ ← open_ticket id a;
          _ ← do_notify (EventApprovalPending, p_user p);
          mret (WriteJSON 201 id)
        end in
      if str_eqb (rq_target_kind rq) "host" then
        match rq_host rq with
        | None => mret (WriteError 400 "valid hostId is required")
        | Some h => go (input (Some h) None)
        end
      else if str_eqb (rq_target_kind rq) "group" then
        match rq_group rq with
        | None => mret (WriteError 400 "valid groupId is required")
        | Some g => go (input None (Some g))
        end
      else mret (WriteError 400 "targetKind must be host or group")
  end.

Record decide_req := DecideReq { dq_decision : string; dq_note : string; dq_secs : Z }.

Definition parse_decision (d : string) : option ap_status :=
  if str_eqb d "approve" || str_eqb d "approved" then Some Approved
  else if str_eqb d "deny" || str_eqb d "denied" then Some Denied
  else None.

Definition comment_ticket (id : uuid) (a : approval) : M store unit :=
  if str_eqb (ar_ticket_ref a) "" then mret tt
  else match itsm_comment id with
       | Some (Ok _) => audit "approval.ticket_update" id
       | _ => mret tt
       end.

Definition decide_ (p : principal) (idp : option uuid) (rq : option decide_req)
    : M store (reply approval) :=
  match idp with
  | None => mret (WriteError 400 "invalid approval id")
  | Some id =>
  match rq with
  | None => mret (WriteError 400 "invalid request body")
  | Some rq =>
  match parse_decision (dq_decision rq) with
  | None => mret (WriteError 400 "decision must be approve or deny")
  | Some status =>
    r ← db (GetApprovalRequest id);
    match r with
    | Err _ => mret (WriteError 404 "approval request not found")
    | Ok existing =>
      if decide (ar_status existing = Pending) then
        let grantedSecs :=
          if bool_decide (status = Approved) && (dq_secs rq <=? 0)
          then ar_requested_secs existing else dq_secs rq in
        if decide (ar_requester existing = p_user p)
        then mret (WriteError 403 "you cannot decide your own access request")
        else
          r' ← db (DecideApprovalRequest id (p_user p) status (dq_note rq) grantedSecs);
          match r' with
          | Err _ => mret (WriteError 500 "could not record decision")
          | Ok ar =>
            _ ← audit "approval.decide" id;
            _ ← do_notify (EventApprovalResolved, ar_requester ar);
            _ ← comment_ticket id ar;
            mret (WriteJSON 200 ar)
          end
      else mret (WriteError 409 "approval request is not pending")
    end
  end end end.

Definition grantsMine (p : principal) : M store (reply (list (uuid * grant))) :=
  r ← db (ListTemporaryPermissions (p_user p));
  mret (match r with
        | Err _ => WriteError 500 "could not list grants"
        | Ok gs => WriteJSON 200 gs
        end).

Definition notify_expired (g : grant) : M store unit :=
  effect (notify (EventAccessExpired, tp_user g)).

Definition Reaper : M store unit :=
  r ← db ExpireTemporaryPermissions;
  match r with
  | Err _ => mret tt
  | Ok gs => if has_notify then mapM notify_expired gs ≫= λ _, mret tt else mret tt
  end.
End handlers.

(** * The statements as a transition system

    One constructor per statement the package sends. [decide_] only sends the
    decision of a request that is not the caller's own: that is a condition of its
    step, and [handlers_within] proves the handler meets it. *)
Inductive step : relation store :=
| step_insert i now s : step s (InsertApprovalRequest i now s).2
| step_ticket id ref now s : step s (SetApprovalTicketRef id ref now s).2
| step_decide id by_ st note secs now s :
    st = Approved ∨ st = Denied →
    (∀ r, requests s !! id = Some r → ar_requester r ≠ by_) →
    step s (DecideApprovalRequest id by_ st note secs now s).2
| step_expire now s : step s (ExpireTemporaryPermissions now s).2
| step_audit e now s : step s (AppendAudit e now s).2
| step_notify e s : step s (notify e s).

Abbreviation steps := (rtc step).
Definition empty_store : store := Store ∅ ∅ [] [].

(** ** What every reachable state satisfies *)
Definition req_ok (r : approval) : Prop :=
  match ar_status r with
  | Pending => ar_decided_by r = None
  | Cancelled => False
  | _ => ∃ d, ar_decided_by r = Some d ∧ d ≠ ar_requester r
  end.

(** [g] is the grant that approving [r] minted. *)
Definition grant_of (r : approval) (g : grant) : Prop :=
  tp_user g = ar_requester r ∧ tp_host g = ar_host r ∧ tp_group g = ar_group r ∧
  ar_status r = (match tp_revoked_at g with None => Approved | Some _ => Expired end) ∧
  ∃ at_ secs, ar_decided_at r = Some at_ ∧ ar_granted_secs r = Some secs ∧
    tp_expires_at g = at_ + secs * second.

Record Inv (s : store) : Prop := {
  inv_req : ∀ id r, requests s !! id = Some r → req_ok r;
  inv_grant : ∀ k g, grants s !! k = Some g →
    ∃ id r, tp_request g = Some id ∧ requests s !! id = Some r ∧ grant_of r g;
  inv_one : ∀ k k' g g', grants s !! k = Some g → grants s !! k' = Some g' →
    tp_request g = tp_request g' → k = k';
  inv_live : ∀ id r, requests s !! id = Some r → ar_status r = Approved →
    ∃ k g, grants s !! k = Some g ∧ tp_request g = Some id ∧ tp_revoked_at g = None;
}.

Lemma Inv_empty : Inv empty_store.
Proof. split; intros *; simpl; rewrite ?lookup_empty; done. Qed.

Lemma Inv_insert i now s : Inv s → Inv (InsertApprovalRequest i now s).2.
Proof.
  intros [Hr Hg Ho Hl]. pose proof (fresh_lookup (requests s)) as Hf.
  split; simpl; try done.
  - intros id r [[<- <-]|[??]]%lookup_insert_Some; [done | eauto].
  - intros k g Hk. destruct (Hg _ _ Hk) as (id & r & ? & ? & ?).
    exists id, r. split_and!; [done | | done].
    rewrite lookup_insert_ne; [done | congruence].
  - intros id r [[<- <-]|[??]]%lookup_insert_Some; [done | eauto].
Qed.

Lemma Inv_ticket id ref now s : Inv s → Inv (SetApprovalTicketRef id ref now s).2.
Proof.
  intros [Hr Hg Ho Hl].
  assert (∀ i r, alter (λ r, set_ticket r ref) id (requests s) !! i = Some r →
    ∃ r0, requests s !! i = Some r0 ∧ (r = r0 ∨ r = set_ticket r0 ref)) as Hinv.
  { intros i r. rewrite lookup_alter_Some. naive_solver. }
  split; simpl; try done.
  - intros i r (r0 & H0 & [->| ->])%Hinv; eapply Hr in H0; done.
  - intros k g Hk. destruct (Hg _ _ Hk) as (i & r & Hq & Hi & Hgo).
    destruct (decide (id = i)) as [->|].
    + exists i, (set_ticket r ref). split_and!; [done | | done].
      by rewrite lookup_alter_eq, Hi.
    + exists i, r. by rewrite lookup_alter_ne by done.
  - intros i r (r0 & H0 & [->| ->])%Hinv; simpl; intros; eauto.
Qed.

Lemma Inv_decide id by_ st note secs now s :
  st = Approved ∨ st = Denied →
  (∀ r, requests s !! id = Some r → ar_requester r ≠ by_) →
  Inv s → Inv (DecideApprovalRequest id by_ st note secs now s).2.
Proof.
  intros Hst Hsep [Hr Hg Ho Hl]. unfold DecideApprovalRequest.
  destruct (requests s !! id) as [r|] eqn:Hid; [|done].
  case_decide as Hp; [|done]. specialize (Hsep r eq_refl).
  pose proof (fresh_lookup (grants s)) as Hf.
  assert (∀ k g, grants s !! k = Some g → tp_request g ≠ Some id) as Hnog.
  { intros k g Hk ?. destruct (Hg _ _ Hk) as (i & r' & ? & ? & Hgo).
    destruct Hgo as (_ & _ & _ & Hs & _). simplify_eq. rewrite Hp in Hs.
    by destruct (tp_revoked_at g). }
  assert (∀ k g, grants s !! k = Some g → ∃ i r', tp_request g = Some i ∧
    <[id:=set_decision r st by_ now note (if bool_decide (st = Approved) then Some secs else None)]>
      (requests s) !! i = Some r' ∧ grant_of r' g) as Hg'.
  { intros k g Hk. destruct (Hg _ _ Hk) as (i & r' & Hq & ? & ?).
    exists i, r'. rewrite lookup_insert_ne; [done|]. intros <-. by eapply Hnog. }
  split; simpl.
  - intros i r' [[<- <-]|[??]]%lookup_insert_Some; [|eauto].
    destruct Hst as [->| ->]; exists by_; auto.
  - intros k g Hk. case_bool_decide; [|by eauto].
    apply lookup_insert_Some in Hk as [[<- <-]|[??]]; [|by eauto].
    exists id, (set_decision r st by_ now note (Some secs)). simpl.
    rewrite lookup_insert_eq. split_and!; [done..|]. repeat split; [done|]. eauto.
  - intros k k' g g' Hk Hk' Heq. case_bool_decide; [|by eauto].
    apply lookup_insert_Some in Hk as [[<- <-]|[??]];
      apply lookup_insert_Some in Hk' as [[<- <-]|[??]]; simpl in *;
      [done | exfalso; by eapply Hnog | exfalso; by eapply Hnog | by eauto].
  - intros i r' [[<- <-]|[Hne ?]]%lookup_insert_Some; simpl; intros Ha.
    + rewrite bool_decide_true by done. eexists _, _. rewrite lookup_insert_eq.
      split_and!; done.
    + destruct (Hl i r') as (k & g & Hk & ? & ?); [done..|]. exists k, g.
      split_and!; [|done..]. case_bool_decide; [|done].
      rewrite lookup_insert_ne; [done | congruence].
Qed.

Lemma due_requests_spec id now s :
  id ∈ due_requests now s ↔
  ∃ k g, grants s !! k = Some g ∧ grant_due now g = true ∧ tp_request g = Some id.
Proof.
  unfold due_requests, due_grants. rewrite elem_of_list_to_set, list_elem_of_omap. split.
  - intros ([k g] & [Hk Hd]%elem_of_map_to_list%map_lookup_filter_Some & Hq). eauto.
  - intros (k & g & Hk & Hd & Hq). exists (k, g).
    by rewrite elem_of_map_to_list, map_lookup_filter_Some.
Qed.

(** After the reaper's statement, a request it moved is one whose (only) grant was due. *)
Lemma expire_lookup now s id r' :
  requests (ExpireTemporaryPermissions now s).2 !! id = Some r' ↔
  ∃ r, requests s !! id = Some r ∧
    r' = (if bool_decide (id ∈ due_requests now s ∧ ar_status r = Approved)
          then set_status r Expired else r).
Proof.
  simpl. rewrite map_lookup_imap. destruct (requests s !! id) as [r|]; simpl; naive_solver.
Qed.

Lemma expire_grants now s k g' :
  grants (ExpireTemporaryPermissions now s).2 !! k = Some g' ↔
  ∃ g, grants s !! k = Some g ∧ g' = (if grant_due now g then set_revoked g now else g).
Proof. simpl. rewrite lookup_fmap_Some. naive_solver. Qed.

Lemma grant_due_unrevoked now g : grant_due now g = true → tp_revoked_at g = None.
Proof. unfold grant_due. rewrite andb_true_iff, bool_decide_eq_true. tauto. Qed.

Lemma grant_of_expire r g now :
  grant_of r g → tp_revoked_at g = None → grant_of (set_status r Expired) (set_revoked g now).
Proof. unfold grant_of. naive_solver. Qed.

Lemma Inv_expire now s : Inv s → Inv (ExpireTemporaryPermissions now s).2.
Proof.
  intros [Hr Hg Ho Hl]. split.
  - intros id r' (r & Hid & ->)%expire_lookup. specialize (Hr _ _ Hid).
    case_bool_decide as Hb; [|done]. destruct Hb as [_ Ha].
    unfold req_ok in *. simpl. by rewrite Ha in Hr.
  - intros k g' (g & Hk & ->)%expire_grants.
    destruct (Hg _ _ Hk) as (id & r & Hq & Hid & Hgo).
    exists id, (if bool_decide (id ∈ due_requests now s ∧ ar_status r = Approved)
                then set_status r Expired else r).
    rewrite expire_lookup. split_and!; [by case_match | by eauto |].
    destruct (grant_due now g) eqn:Hd.
    + rewrite bool_decide_true; [by apply grant_of_expire, (grant_due_unrevoked now)|].
      split; [apply due_requests_spec; by eauto|].
      apply grant_due_unrevoked in Hd. destruct Hgo as (_ & _ & _ & Hs & _).
      by rewrite Hd in Hs.
    + rewrite bool_decide_false; [done|]. intros [(k' & g' & Hk' & Hd' & Hq')%due_requests_spec _].
      assert (k' = k) as -> by (eapply Ho; [done..|congruence]). congruence.
  - intros k k' g1 g2 (g & Hk & ->)%expire_grants (g' & Hk' & ->)%expire_grants Heq.
    eapply Ho; [done..|]. by destruct (grant_due now g), (grant_due now g').
  - intros id r' (r & Hid & ->)%expire_lookup Ha. case_bool_decide as Hb; [done|].
    destruct (Hl id r) as (k & g & Hk & Hq & Hv); [done..|]. exists k, g.
    rewrite expire_grants. split_and!; [|done..]. exists g. split; [done|].
    destruct (grant_due now g) eqn:Hd; [|done]. exfalso. apply Hb. split; [|done].
    apply due_requests_spec; eauto.
Qed.

Lemma Inv_step s s' : step s s' → Inv s → Inv s'.
Proof.
  destruct 1; eauto using Inv_insert, Inv_ticket, Inv_decide, Inv_expire.
  - by intros [????]; split.
  - by intros [????]; split.
Qed.

Lemma Inv_steps s s' : steps s s' → Inv s → Inv s'.
Proof. induction 1; eauto using Inv_step. Qed.

(** What a request asked for never changes. *)
Lemma step_requester s s' id r :
  step s s' → requests s !! id = Some r →
  ∃ r', requests s' !! id = Some r' ∧ ar_requester r' = ar_requester r ∧ ar_requested_secs r' = ar_requested_secs r.
Proof.
  intros Hs Hid. destruct Hs as [i now s|id' ref now s|id' by_ st note secs now s ? ?|now s|e now s|e s];
    simpl; [| | | |by eauto..].
  - exists r. rewrite lookup_insert_ne; [done|]. intros <-. by rewrite fresh_lookup in Hid.
  - destruct (decide (id' = id)) as [->|].
    + rewrite lookup_alter_eq, Hid. simpl. eauto.
    + rewrite lookup_alter_ne by done. eauto.
  - unfold DecideApprovalRequest. destruct (requests s !! id') as [r0|] eqn:Hr0; [|by eauto].
    case_decide; [|by eauto]. simpl. destruct (decide (id' = id)) as [->|].
    + rewrite lookup_insert_eq. simplify_eq. eauto.
    + rewrite lookup_insert_ne by done. eauto.
  - rewrite map_lookup_imap, Hid. simpl. eexists; split; [done|]. by case_bool_decide.
Qed.

Definition asked (id u : uuid) (secs : Z) (s : store) : Prop :=
  ∃ r, requests s !! id = Some r ∧ ar_requester r = u ∧ ar_requested_secs r = secs.

#[export] Instance asked_stable id u secs : Stable steps (asked id u secs).
Proof.
  intros s s' Hp. induction 1 as [|s1 s2 s3 H12 _ IH]; [done|]. apply IH.
  destruct Hp as (r & Hid & <- & <-). by eapply step_requester.
Qed.

(** The grant a request minted, whatever becomes of it. *)
Definition minted (id u : uuid) (from until : Z) (s : store) : Prop :=
  ∃ k g, grants s !! k = Some g ∧ tp_request g = Some id ∧ tp_user g = u ∧ tp_granted_at g = from ∧ tp_expires_at g = until.

#[export] Instance minted_stable id u from until : Stable steps (minted id u from until).
Proof.
  intros s s' Hp. induction 1 as [|s1 s2 s3 H12 _ IH]; [done|]. apply IH.
  destruct Hp as (k & g & Hk & Hg).
  destruct H12 as [i now s|id' ref now s|id' by_ st note secs now s ? ?|now s|e now s|e s];
    simpl; [by exists k, g|by exists k, g| | |by exists k, g|by exists k, g].
  - unfold DecideApprovalRequest. destruct (requests s !! id') as [r0|]; [|by exists k, g].
    case_decide; [|by exists k, g]. simpl. exists k, g. split; [|done]. case_bool_decide; [|done].
    cbn; rewrite lookup_insert_ne; [done|]. intros <-. by rewrite fresh_lookup in Hk.
  - exists k, (if grant_due now g then set_revoked g now else g). split; [cbn; by rewrite lookup_fmap, Hk|].
    by destruct (grant_due now g).
Qed.

(** ** The handlers only take steps *)
Lemma steps_insert i now s : steps s (InsertApprovalRequest i now s).2.
Proof. apply rtc_once, step_insert. Qed.
Lemma steps_ticket id ref now s : steps s (SetApprovalTicketRef id ref now s).2.
Proof. apply rtc_once, step_ticket. Qed.
Lemma steps_expire now s : steps s (ExpireTemporaryPermissions now s).2.
Proof. apply rtc_once, step_expire. Qed.
Lemma steps_audit e now s : steps s (AppendAudit e now s).2.
Proof. apply rtc_once, step_audit. Qed.
Lemma steps_notify e s : steps s (notify e s).
Proof. apply rtc_once, step_notify. Qed.
#[export] Hint Resolve steps_insert steps_ticket steps_expire steps_audit steps_notify : within.

Lemma decision_status d st : parse_decision d = Some st → st = Approved ∨ st = Denied.
Proof. unfold parse_decision. repeat case_match; naive_solver. Qed.

Section proofs.
Context `{!Env store, !Relies steps}.
Context (itsm_comment : uuid → option (res string unit)).
Context (has_notify : bool).

Lemma within_audit a id : within steps (audit a id).
Proof. unfold audit. within_tac. Qed.
Lemma within_do_notify e : within steps (do_notify has_notify e).
Proof. unfold do_notify. within_tac. Qed.
Hint Resolve within_audit within_do_notify : within.
Lemma within_open_ticket itsm_create id a : within steps (open_ticket itsm_create id a).
Proof. unfold open_ticket. within_tac. Qed.
Lemma within_comment_ticket id a : within steps (comment_ticket itsm_comment id a).
Proof. unfold comment_ticket. within_tac. Qed.
Lemma within_create_request i : within steps (CreateApprovalRequest i).
Proof. unfold CreateApprovalRequest, GetApprovalRequest. within_tac. Qed.
Hint Resolve within_open_ticket within_comment_ticket within_create_request : within.

Lemma within_create itsm_create p rq : within steps (create itsm_create has_notify p rq).
Proof. unfold create. within_tac. Qed.

Lemma within_Reaper : within steps (Reaper has_notify).
Proof. unfold Reaper, notify_expired. within_tac. Qed.

(** What the row of a decided request says, the words of the body being [d]. *)
Definition decided (p : principal) (d : decide_req) (ar : approval) : Prop :=
  ar_requester ar ≠ p_user p ∧ ar_decided_by ar = Some (p_user p) ∧ ar_note ar = dq_note d ∧
  ((dq_decision d ∈ ["approve"; "approved"] ∧ ar_status ar = Approved ∧
      ar_granted_secs ar = Some (if dq_secs d <=? 0 then ar_requested_secs ar else dq_secs d)) ∨
   (dq_decision d ∈ ["deny"; "denied"] ∧ ar_status ar = Denied ∧ ar_granted_secs ar = None)).
(** The answer is about the request of the path, and an approval has minted its grant: for the
    requester, from the decision, for the seconds granted. *)
Definition recorded (id : uuid) (ar : approval) (s : store) : Prop :=
  asked id (ar_requester ar) (ar_requested_secs ar) s ∧
  ∀ secs, ar_granted_secs ar = Some secs →
    ∃ at_, ar_decided_at ar = Some at_ ∧ minted id (ar_requester ar) at_ (at_ + secs * second) s.
#[export] Instance recorded_stable id ar : Stable steps (recorded id ar).
Proof.
  intros s s' [Ha Hm] HR. split; [by eapply stable|]. intros secs Hs. destruct (Hm secs Hs) as (at_ & ? & Hx).
  exists at_. split; [done|]. by eapply minted_stable.
Qed.

Lemma DecideApprovalRequest_decided p id u secs st d now s ar :
  u ≠ p_user p → asked id u secs s → parse_decision (dq_decision d) = Some st →
  let given := if bool_decide (st = Approved) && (dq_secs d <=? 0) then secs else dq_secs d in
  let q := DecideApprovalRequest id (p_user p) st (dq_note d) given now s in
  q.1 = Ok ar → decided p d ar ∧ recorded id ar q.2.
Proof.
  intros Hu (r & Hid & <- & <-) Hd. unfold DecideApprovalRequest. rewrite Hid.
  case_decide; [|done]. cbn [fst snd]. intros [= <-]. unfold decided, recorded. simpl. split.
  - split_and!; [done..|]. unfold parse_decision in Hd.
    destruct (str_eqb _ "approve" || str_eqb _ "approved") eqn:Ha.
    + injection Hd as <-. left. apply orb_true_iff in Ha as [->%str_eqb_eq| ->%str_eqb_eq]; split; [set_solver|done|set_solver|done].
    + destruct (str_eqb _ "deny" || str_eqb _ "denied") eqn:Hn; [|done]. injection Hd as <-. right.
      apply orb_true_iff in Hn as [->%str_eqb_eq| ->%str_eqb_eq]; split; [set_solver|done|set_solver|done].
  - split; [eexists; cbn; by rewrite lookup_insert_eq|]. intros secs Hs. exists now. split; [done|].
    case_bool_decide; [|done]. injection Hs as <-. eexists _, _. cbn. by rewrite lookup_insert_eq.
Qed.

Lemma step_decide_other p id u st note secs secs' now s :
  u ≠ p_user p → asked id u secs' s → st = Approved ∨ st = Denied →
  steps s (DecideApprovalRequest id (p_user p) st note secs now s).2.
Proof.
  intros Hu (r & Hid & <- & _) Hst. apply rtc_once, step_decide; [done|].
  intros r' Hid'. congruence.
Qed.

Definition decide_post (p : principal) (idp : option uuid) (rq : option decide_req) (rep : reply approval) (s : store) : Prop :=
  match rep with
  | WriteJSON c ar => c = 200 ∧ ∃ id d, idp = Some id ∧ rq = Some d ∧ decided p d ar ∧ recorded id ar s
  | WriteError c _ => c ∈ [400; 403; 404; 409; 500]
  end.

Lemma guar_decide p id rq :
  guar steps (λ _, True) (decide_ itsm_comment has_notify p id rq) (decide_post p id rq).
Proof.
  assert (∀ i q c m (P : store → Prop), c ∈ [400; 403; 404; 409; 500] →
    guar steps P (mret (WriteError c m)) (decide_post p i q)) as Herr.
  { intros. by apply guar_ret; [typeclasses eauto|]. }
  unfold decide_. destruct id as [id|]; [|apply Herr; set_solver].
  destruct rq as [rq|]; [|apply Herr; set_solver].
  destruct (parse_decision _) as [st|] eqn:Hst; [|apply Herr; set_solver].
  pose proof (decision_status _ _ Hst) as Hst'.
  eapply guar_bind; [typeclasses eauto | apply guar_get_row; typeclasses eauto |].
  intros [existing|]; [|apply Herr; set_solver]. case_decide; [|apply Herr; set_solver].
  case_decide as Hu; [apply Herr; set_solver|].
  eapply guar_weaken with (P' := asked id (ar_requester existing) (ar_requested_secs existing)).
  2: { intros s [_ Hs]. exists existing. auto. }
  eapply guar_bind; [typeclasses eauto | |].
  - apply guar_db with (Q := λ r s, ∀ ar, r = Ok ar → decided p rq ar ∧ recorded id ar s);
      [typeclasses eauto.. | done |].
    intros now s Hs. split; [by eapply step_decide_other | intros ar].
    by eapply DecideApprovalRequest_decided.
  - intros [ar|]; [|apply Herr; set_solver].
    eapply guar_weaken with (P' := λ s, recorded id ar s ∧ decided p rq ar); [|intros s Hs; destruct (Hs ar eq_refl); auto].
    apply guar_pure. intros Hdec.
    do 3 (eapply guar_bind; [typeclasses eauto
      | apply guar_frame; [typeclasses eauto | eauto using within_audit, within_do_notify, within_comment_ticket] |];
      intros ?).
    apply guar_ret; [typeclasses eauto|]. simpl. eauto 10.
Qed.

Lemma within_grantsMine p : within steps (grantsMine p).
Proof. unfold grantsMine, ListTemporaryPermissions. within_tac. Qed.
End proofs.

(** * Properties *)

(** whatever the interleaving of requests, decisions, ticket updates and reaper
    passes, in every reachable state of the two tables: a decided request was decided
    by somebody other than its requester and a pending one by nobody; every grant is
    the one minted for a request, for that request's requester and target, with
    expiry [decided_at + granted_secs]; no request minted two grants; a grant is
    unrevoked exactly while its request is approved. *)
Theorem approvals_reachable_inv s : steps empty_store s → Inv s.
Proof. intros Hs. eapply Inv_steps; [exact Hs | apply Inv_empty]. Qed.

Definition ex_input : approval_input :=
  ApprovalInput 7%N "host" (Some 3%N) None "deploy" "" 3600.
Definition ex_store1 : store := (InsertApprovalRequest ex_input 10 empty_store).2.
Definition ex_id : uuid := fresh (dom (requests empty_store)).
Definition ex_store2 : store :=
  (DecideApprovalRequest ex_id 8%N Approved "ok" 600 20 ex_store1).2.

Lemma ex_store2_reachable : steps empty_store ex_store2.
Proof.
  eapply rtc_l; [apply (step_insert ex_input 10)|].
  apply rtc_once, step_decide; [by left|]. intros r. vm_compute. by intros [= <-].
Qed.

Lemma approvals_reachable_inv_witness :
  Inv ex_store2 ∧ size (grants ex_store2) = 1%nat.
Proof. split; [apply approvals_reachable_inv, ex_store2_reachable | by vm_compute]. Defined.



(** the reaper. In a reachable state, one pass of the reaper's statement at [now]
    leaves no unrevoked grant past its expiry, does not touch a grant still inside its
    lifetime, and leaves approved only the requests whose grant is still active. *)
Theorem reaper_expires now s :
  steps empty_store s →
  (∀ k g, grants (ExpireTemporaryPermissions now s).2 !! k = Some g →
     tp_revoked_at g = None → now < tp_expires_at g) ∧
  (∀ k g, grants s !! k = Some g → grant_active now g = true →
     grants (ExpireTemporaryPermissions now s).2 !! k = Some g) ∧
  (∀ id r, requests (ExpireTemporaryPermissions now s).2 !! id = Some r →
     ar_status r = Approved →
     ∃ k g, grants (ExpireTemporaryPermissions now s).2 !! k = Some g ∧
       tp_request g = Some id ∧ grant_active now g = true).
Proof.
  intros Hs. pose proof (Inv_expire now _ (Inv_steps _ _ Hs Inv_empty)) as Hinv.
  assert (∀ k g, grants (ExpireTemporaryPermissions now s).2 !! k = Some g →
     tp_revoked_at g = None → now < tp_expires_at g) as Hlive.
  { intros k g' (g & Hk & ->)%expire_grants. destruct (grant_due now g) eqn:Hd; [done|].
    intros Hv. unfold grant_due in Hd. rewrite bool_decide_true in Hd by done. simpl in Hd. lia. }
  split_and!; [exact Hlive | |].
  - intros k g Hk Ha. apply expire_grants. exists g. split; [done|].
    unfold grant_active, grant_due in *. apply andb_true_iff in Ha as [-> Ha].
    rewrite (proj2 (Z.leb_gt _ _)); [done | lia].
  - intros id r Hid Ha. destruct (inv_live _ Hinv _ _ Hid Ha) as (k & g & Hk & Hq & Hv).
    exists k, g. split_and!; [done..|]. unfold grant_active.
    rewrite bool_decide_true by done. simpl. apply Z.ltb_lt, (Hlive _ _ Hk Hv).
Qed.

Lemma reaper_expires_witness :
  let s' := (ExpireTemporaryPermissions (700 * second) ex_store2).2 in
  (∀ k g, grants s' !! k = Some g → tp_revoked_at g = None → 700 * second < tp_expires_at g) ∧
  ar_status <$> requests s' !! ex_id = Some Expired.
Proof.
  split; [|by vm_compute].
  apply (reaper_expires (700 * second) ex_store2), ex_store2_reachable.
Defined.
