(* ===== verification/ActionRegistry.v ===== *)
(** The assistant's action registry: [aiaction/registry.go] (propose, confirm,
    approve, deny, cancel) over [store/assistant_actions.go].

    An action kind's [Prepare] and [Execute] are fields of its [ActionDef], as in the
    source; what [Execute] does to the rest of the fleet is outside this file, which
    records that it ran, for whom and whether that caller held the permission. *)
From S2P Require Import Prelude.

(** * Data *)

Inductive act_status :=
| Proposed | PendingApproval | Executed | Failed | Cancelled | Denied | Expired.
#[export] Instance act_status_eq_dec : EqDecision act_status.
Proof. solve_decision. Defined.

Definition RiskSafe : string := "safe".
Definition RiskGuarded : string := "guarded".
Definition RiskDestructive : string := "destructive".

(** A row of [assistant_actions]. *)
Record action := Action {
  a_user : uuid;
  a_kind : string;
  a_params : string;
  a_preview : string;
  a_risk : string;
  a_permission : string;
  a_status : act_status;
  a_outcome : string;
  a_created_at : Z;
  a_expires_at : Z;
  a_executed_at : option Z;
  a_decided_by : option uuid;
  a_decided_at : option Z;
  a_decision_note : string;
}.

(** [Actor]: [Can] is a function, as in the source. *)
Record actor := Actor { ac_user : uuid; ac_super : bool; ac_can : string → bool }.

(** The columns of [users] and the permission set [proposerActor] reads. *)
Record user := User { u_super : bool; u_disabled : bool; u_perms : gset string }.

(** [Def.Execute] ran for action [run_id] on behalf of [run_user];
    [run_authorized] is whether that actor could. *)
Record run := Run { run_id : uuid; run_user : uuid; run_authorized : bool }.

Record policy := Policy { RequireApprovalForAll : bool; DisabledKinds : list string }.

(** [claims] has one entry per statement that moved a row to [executed]. *)
Record store := Store {
  actions : gmap uuid action;
  users : gmap uuid user;
  setting : option policy;
  claims : list uuid;
  runs : list run;
  audits : list (string * uuid);
  notes : list uuid;
}.

Definition set_actions (s : store) m :=
  Store m (users s) (setting s) (claims s) (runs s) (audits s) (notes s).
Definition add_claim (s : store) id :=
  Store (actions s) (users s) (setting s) (claims s ++ [id]) (runs s) (audits s) (notes s).
Definition add_run (r : run) (s : store) :=
  Store (actions s) (users s) (setting s) (claims s) (runs s ++ [r]) (audits s) (notes s).

Definition upd_status (a : action) st outcome now : action :=
  Action (a_user a) (a_kind a) (a_params a) (a_preview a) (a_risk a) (a_permission a)
    st outcome (a_created_at a) (a_expires_at a)
    (if bool_decide (st = Executed) then Some now else a_executed_at a)
    (a_decided_by a) (a_decided_at a) (a_decision_note a).

Definition upd_decision (a : action) st by_ note now : action :=
  Action (a_user a) (a_kind a) (a_params a) (a_preview a) (a_risk a) (a_permission a)
    st (a_outcome a) (a_created_at a) (a_expires_at a)
    (if bool_decide (st = Executed) then Some now else a_executed_at a)
    (Some by_) (Some now) note.

Definition upd_finish (a : action) st outcome now : action :=
  Action (a_user a) (a_kind a) (a_params a) (a_preview a) (a_risk a) (a_permission a)
    st outcome (a_created_at a) (a_expires_at a) (Some (default now (a_executed_at a)))
    (a_decided_by a) (a_decided_at a) (a_decision_note a).

Definition upd_pending (a : action) expires : action :=
  Action (a_user a) (a_kind a) (a_params a) (a_preview a) (a_risk a) (a_permission a)
    PendingApproval (a_outcome a) (a_created_at a) expires (a_executed_at a)
    (a_decided_by a) (a_decided_at a) (a_decision_note a).

Definition upd_expired (a : action) : action :=
  Action (a_user a) (a_kind a) (a_params a) (a_preview a) (a_risk a) (a_permission a)
    Expired (a_outcome a) (a_created_at a) (a_expires_at a) (a_executed_at a)
    (a_decided_by a) (a_decided_at a) (a_decision_note a).

(** * The store *)

Record action_input := ActionInput {
  i_user : uuid; i_kind : string; i_params : string; i_preview : string;
  i_risk : string; i_permission : string; i_ttl : Z;
}.

Definition new_action (now : Z) (i : action_input) : action :=
  let params := if str_eqb (i_params i) "" then "{}" else i_params i in
  let risk := if str_eqb (i_risk i) "" then "safe" else i_risk i in
  let ttl := if i_ttl i <=? 0 then 15 * minute else i_ttl i in
  Action (i_user i) (i_kind i) params (i_preview i) risk (i_permission i) Proposed ""
    now (now + ttl) None None None "".

Definition CreateAssistantAction (i : action_input) (now : Z) (s : store)
    : res store_error (uuid * action) * store :=
  let id := fresh (dom (actions s)) in
  (Ok (id, new_action now i), set_actions s (<[id := new_action now i]> (actions s))).

Definition GetAssistantAction (id : uuid) : Z → store → res store_error action * store :=
  get_row (λ s, actions s !! id).

(** Notes the claim when a row becomes [executed]. *)
Definition claim_if (st : act_status) (id : uuid) (s : store) : store :=
  if bool_decide (st = Executed) then add_claim s id else s.

(** Only advances rows still [proposed]. *)
Definition SetAssistantActionStatus (id : uuid) (st : act_status) (outcome : string)
    (now : Z) (s : store) : res store_error bool * store :=
  match actions s !! id with
  | Some a =>
    if decide (a_status a = Proposed)
    then (Ok true, claim_if st id (set_actions s (<[id := upd_status a st outcome now]> (actions s))))
    else (Ok false, s)
  | None => (Ok false, s)
  end.

Definition SetAssistantActionDecision (id : uuid) (from to : act_status) (by_ : uuid)
    (note : string) (now : Z) (s : store) : res store_error bool * store :=
  match actions s !! id with
  | Some a =>
    if decide (a_status a = from)
    then (Ok true, claim_if to id (set_actions s (<[id := upd_decision a to by_ note now]> (actions s))))
    else (Ok false, s)
  | None => (Ok false, s)
  end.

(** Not guarded on the current status. *)
Definition FinishAssistantAction (id : uuid) (st : act_status) (outcome : string)
    (now : Z) (s : store) : res store_error unit * store :=
  (Ok tt, set_actions s (alter (λ a, upd_finish a st outcome now) id (actions s))).

Definition RequestAssistantActionApproval (id : uuid) (ttl : Z) (now : Z) (s : store)
    : res store_error bool * store :=
  let ttl := if ttl <=? 0 then 24 * hour else ttl in
  match actions s !! id with
  | Some a =>
    if decide (a_status a = Proposed)
    then (Ok true, set_actions s (<[id := upd_pending a (now + ttl)]> (actions s)))
    else (Ok false, s)
  | None => (Ok false, s)
  end.

Definition expirable (now : Z) (a : action) : bool :=
  bool_decide (a_status a = Proposed ∨ a_status a = PendingApproval) &&
  (a_expires_at a <? now).

Definition ExpireAssistantActions (now : Z) (s : store) : res store_error Z * store :=
  (Ok (Z.of_nat (size (filter (λ ka, expirable now ka.2 = true) (actions s)))),
   set_actions s ((λ a, if expirable now a then upd_expired a else a) <$> actions s)).

Definition AppendAudit (e : string * uuid) (now : Z) (s : store)
    : res store_error unit * store :=
  (Ok tt, Store (actions s) (users s) (setting s) (claims s) (runs s) (audits s ++ [e]) (notes s)).

Definition SetSetting (p : policy) (now : Z) (s : store) : res store_error unit * store :=
  (Ok tt, Store (actions s) (users s) (Some p) (claims s) (runs s) (audits s) (notes s)).

Definition notify (id : uuid) (s : store) : store :=
  Store (actions s) (users s) (setting s) (claims s) (runs s) (audits s) (notes s ++ [id]).

(** * The registry *)

Inductive reg_err :=
| ErrNotFoundA | ErrExpired | ErrNotPending | ErrRequiresApproval | ErrSelfApproval
| PermError (permission : string)
| Other (msg : string).
#[export] Instance reg_err_eq_dec : EqDecision reg_err.
Proof. solve_decision. Defined.

Record ActionDef := {
  d_permission : string;
  d_risk : string;
  d_prepare : actor → string → res string (string * string);
  d_execute : actor → string → res string string;
}.

(** [Policy.disabled] *)
Definition disabled (p : policy) (kind : string) : bool :=
  bool_decide (kind ∈ DisabledKinds p).

Definition clip (s : string) (n : nat) : string :=
  if (String.length s <=? n)%nat then s else String.substring 0 n s +:+ "…".

(** What the Go functions return: [( *models.AssistantAction, error)]. *)
Abbreviation out := (option action * option reg_err)%type.

Section registry.
Context `{!Env store}.
(** [r.defs], by kind. *)
Context (defs : gmap string ActionDef).
(** [r.notifyApproval != nil] *)
Context (has_notify : bool).

Definition audit (what : string) (id : uuid) : M store unit :=
  _ ← db (AppendAudit (what, id)); mret tt.

(** [Registry.Policy]: a missing or unreadable setting is the zero policy. *)
Definition get_policy : M store policy :=
  r ← db (get_row setting);
  mret (match r with Ok p => p | Err _ => Policy false [] end).

Definition SavePolicy (p : policy) : M store (res store_error unit) := db (SetSetting p).

Definition Propose (ac : actor) (kind raw : string) : M store out :=
  match defs !! kind with
  | None => mret (None, Some (Other "unknown action"))
  | Some def =>
    pol ← get_policy;
    if disabled pol kind then mret (None, Some (Other "this action is disabled by policy"))
    else if negb (ac_can ac (d_permission def)) then
      mret (None, Some (PermError (d_permission def)))
    else
      match d_prepare def ac raw with
      | Err e => mret (None, Some (Other e))
      | Ok (params, preview) =>
        let risk :=
          if RequireApprovalForAll pol && str_eqb (d_risk def) RiskSafe
          then RiskGuarded else d_risk def in
        r ← db (CreateAssistantAction
                  (ActionInput (ac_user ac) kind params preview risk (d_permission def)
                     (15 * minute)));
        mret (match r with
              | Ok (_, a) => (Some a, None)
              | Err _ => (None, Some (Other "db"))
              end)
      end
  end.

(** [reload] *)
Definition reload (id : uuid) (fallback : action) : M store action :=
  r ← db (GetAssistantAction id);
  mret (match r with Ok a => a | Err _ => fallback end).

(** [def.Execute(ctx, r, actor, action.Params)] *)
Definition run_action (id : uuid) (def : ActionDef) (ac : actor) (a : action)
    : M store (res string string) :=
  _ ← effect (add_run (Run id (ac_user ac) (ac_can ac (d_permission def))));
  mret (d_execute def ac (a_params a)).

(** What [Execute] and [Approve] both do once the row is claimed. *)
Definition execute_claimed (id : uuid) (def : ActionDef) (ac : actor) (a : action)
    : M store out :=
  o ← run_action id def ac a;
  let '(status, outcome, err) :=
    match o with
    | Ok outcome => (Executed, outcome, None)
    | Err e => (Failed, e, Some (Other e))
    end in
  _ ← db (FinishAssistantAction id status (clip outcome 1000));
  _ ← audit (if bool_decide (status = Executed) then "assistant.action.executed"
             else "assistant.action.failed") id;
  updated ← reload id a;
  mret (Some updated, err).

Definition Execute (ac : actor) (id : uuid) : M store out :=
  r ← db (GetAssistantAction id);
  match r with
  | Err _ => mret (None, Some ErrNotFoundA)
  | Ok a =>
    if negb (bool_decide (a_user a = ac_user ac)) then mret (None, Some ErrNotFoundA)
    else if negb (bool_decide (a_status a = Proposed)) then mret (None, Some ErrNotPending)
    else
      now ← time_now;
      if a_expires_at a <? now then
        _ ← db (SetAssistantActionStatus id Expired "");
        mret (None, Some ErrExpired)
      else
        match defs !! a_kind a with
        | None => mret (None, Some (Other "unknown action"))
        | Some def =>
          if negb (str_eqb (a_risk a) RiskSafe) then mret (None, Some ErrRequiresApproval)
          else if negb (ac_can ac (d_permission def)) then
            mret (None, Some (PermError (d_permission def)))
          else
            c ← db (SetAssistantActionStatus id Executed "");
            match c with
            | Err _ => mret (None, Some (Other "db"))
            | Ok false => mret (None, Some ErrNotPending)
            | Ok true => execute_claimed id def ac a
            end
        end
  end.

(** [proposerActor]: the requester as they are now. A failed permission read leaves
    an empty permission set, as the ignored error does. *)
Definition proposerActor (uid : uuid) : M store (option (actor * user)) :=
  r ← db (get_row (λ s, users s !! uid));
  match r with
  | Err _ => mret None
  | Ok u =>
    p ← db (get_row (λ s, u_perms <$> users s !! uid));
    let perms := match p with Ok ps => ps | Err _ => ∅ end in
    let can perm :=
      u_super u || bool_decide ("Admin.All" ∈ perms) || bool_decide (perm ∈ perms) in
    mret (Some (Actor uid (u_super u) can, u))
  end.

Definition RequestApproval (ac : actor) (id : uuid) : M store out :=
  r ← db (GetAssistantAction id);
  match r with
  | Err _ => mret (None, Some ErrNotFoundA)
  | Ok a =>
    if negb (bool_decide (a_user a = ac_user ac)) then mret (None, Some ErrNotFoundA)
    else if negb (bool_decide (a_status a = Proposed)) then mret (None, Some ErrNotPending)
    else
      now ← time_now;
      if a_expires_at a <? now then
        _ ← db (SetAssistantActionStatus id Expired "");
        mret (None, Some ErrExpired)
      else
        match defs !! a_kind a with
        | None => mret (None, Some (Other "unknown action"))
        | Some def =>
          if str_eqb (a_risk a) RiskSafe then
            mret (None, Some (Other "this action does not require approval"))
          else if negb (ac_can ac (d_permission def)) then
            mret (None, Some (PermError (d_permission def)))
          else
            c ← db (RequestAssistantActionApproval id (24 * hour));
            match c with
            | Err _ => mret (None, Some (Other "db"))
            | Ok false => mret (None, Some ErrNotPending)
            | Ok true =>
              updated ← reload id a;
              _ ← (if has_notify then effect (notify id) else mret tt);
              _ ← audit "assistant.action.approval_requested" id;
              mret (Some updated, None)
            end
        end
  end.

(** Records why an approval could not run and reports it. *)
Definition fail_approval (approver : actor) (id : uuid) (a : action) (note msg : string)
    : M store out :=
  _ ← db (SetAssistantActionDecision id PendingApproval Failed (ac_user approver) note);
  updated ← reload id a;
  mret (Some updated, Some (Other msg)).

Definition Approve (approver : actor) (id : uuid) : M store out :=
  r ← db (GetAssistantAction id);
  match r with
  | Err _ => mret (None, Some ErrNotFoundA)
  | Ok a =>
    if negb (bool_decide (a_status a = PendingApproval)) then mret (None, Some ErrNotPending)
    else if bool_decide (ac_user approver = a_user a) then mret (None, Some ErrSelfApproval)
    else
      now ← time_now;
      if a_expires_at a <? now then mret (None, Some ErrExpired)
      else
        match defs !! a_kind a with
        | None => mret (None, Some (Other "unknown action"))
        | Some def =>
          pa ← proposerActor (a_user a);
          match pa with
          | None => fail_approval approver id a "requester account not found"
                      "requester account not found"
          | Some (pActor, pUser) =>
            if u_disabled pUser then
              fail_approval approver id a "requester account is disabled"
                "requester account is disabled"
            else if negb (ac_can pActor (d_permission def)) then
              fail_approval approver id a ("requester no longer holds " +:+ d_permission def)
                "requester no longer holds the required permission"
            else
              c ← db (SetAssistantActionDecision id PendingApproval Executed
                        (ac_user approver) "");
              match c with
              | Err _ => mret (None, Some (Other "db"))
              | Ok false => mret (None, Some ErrNotPending)
              | Ok true => execute_claimed id def pActor a
              end
          end
        end
  end.

Definition Deny (approver : actor) (id : uuid) (note : string) : M store out :=
  r ← db (GetAssistantAction id);
  match r with
  | Err _ => mret (None, Some ErrNotFoundA)
  | Ok a =>
    if negb (bool_decide (a_status a = PendingApproval)) then mret (None, Some ErrNotPending)
    else if bool_decide (ac_user approver = a_user a) then mret (None, Some ErrSelfApproval)
    else
      c ← db (SetAssistantActionDecision id PendingApproval Denied (ac_user approver)
                (clip note 500));
      match c with
      | Err _ => mret (None, Some (Other "db"))
      | Ok false => mret (None, Some ErrNotPending)
      | Ok true =>
        _ ← audit "assistant.action.denied" id;
        updated ← reload id a;
        mret (Some updated, None)
      end
  end.

Definition Cancel (ac : actor) (id : uuid) : M store (option reg_err) :=
  r ← db (GetAssistantAction id);
  match r with
  | Err _ => mret (Some ErrNotFoundA)
  | Ok a =>
    if negb (bool_decide (a_user a = ac_user ac)) then mret (Some ErrNotFoundA)
    else
      c ← db (SetAssistantActionStatus id Cancelled "");
      mret (match c with
            | Err _ => Some (Other "db")
            | Ok false => Some ErrNotPending
            | Ok true => None
            end)
  end.

Definition Expire : M store (res store_error Z) := db ExpireAssistantActions.

(** The calls the HTTP layer and the expiry job make. *)
Inductive request :=
| RqPropose (ac : actor) (kind raw : string)
| RqExecute (ac : actor) (id : uuid)
| RqRequestApproval (ac : actor) (id : uuid)
| RqApprove (ac : actor) (id : uuid)
| RqDeny (ac : actor) (id : uuid) (note : string)
| RqCancel (ac : actor) (id : uuid)
| RqSavePolicy (p : policy)
| RqExpire.

Definition serve (rq : request) : M store unit :=
  match rq with
  | RqPropose ac k raw => _ ← Propose ac k raw; mret tt
  | RqExecute ac id => _ ← Execute ac id; mret tt
  | RqRequestApproval ac id => _ ← RequestApproval ac id; mret tt
  | RqApprove ac id => _ ← Approve ac id; mret tt
  | RqDeny ac id note => _ ← Deny ac id note; mret tt
  | RqCancel ac id => _ ← Cancel ac id; mret tt
  | RqSavePolicy p => _ ← SavePolicy p; mret tt
  | RqExpire => _ ← Expire; mret tt
  end.
End registry.

(** * The statements as a transition system *)

Definition settled (a : action) : Prop := a_status a = Executed ∨ a_status a = Failed.

Inductive step : relation store :=
| step_create i now s : step s (CreateAssistantAction i now s).2
| step_status id st outcome now s :
    st = Expired ∨ st = Cancelled ∨
      (st = Executed ∧ ∀ a, actions s !! id = Some a → a_risk a = RiskSafe) →
    step s (SetAssistantActionStatus id st outcome now s).2
| step_decision id to by_ note now s :
    to = Executed ∨ to = Failed ∨ to = Denied →
    (∀ a, actions s !! id = Some a → a_user a ≠ by_) →
    step s (SetAssistantActionDecision id PendingApproval to by_ note now s).2
| step_finish id st outcome now s :
    st = Executed ∨ st = Failed → id ∈ claims s →
    step s (FinishAssistantAction id st outcome now s).2
| step_pending id ttl now s : step s (RequestAssistantActionApproval id ttl now s).2
| step_expire now s : step s (ExpireAssistantActions now s).2
| step_audit e now s : step s (AppendAudit e now s).2
| step_notify id s : step s (notify id s)
| step_run r a s :
    run_id r ∈ claims s → actions s !! run_id r = Some a → a_user a = run_user r →
    run_authorized r = true → step s (add_run r s)
(** the rest of the server edits accounts and the policy setting *)
| step_accounts us p s :
    step s (Store (actions s) us p (claims s) (runs s) (audits s) (notes s)).

Abbreviation steps := (rtc step).
Definition empty_store : store := Store ∅ ∅ None [] [] [] [].

(** A claimed action is settled and, unless it is safe, somebody other than its
    requester decided it. *)
Definition claim_ok (a : action) : Prop :=
  settled a ∧ (a_risk a = RiskSafe ∨ ∃ d, a_decided_by a = Some d ∧ d ≠ a_user a).

Record Inv (s : store) : Prop := {
  inv_once : NoDup (claims s);
  inv_claim : ∀ id, id ∈ claims s → ∃ a, actions s !! id = Some a ∧ claim_ok a;
  inv_run : ∀ r, r ∈ runs s → run_id r ∈ claims s ∧ run_authorized r = true ∧
    ∃ a, actions s !! run_id r = Some a ∧ a_user a = run_user r;
}.

Lemma reg_Inv_empty : Inv empty_store.
Proof. split; simpl; [constructor|..]; intros ? []%not_elem_of_nil. Qed.

(** [s'] keeps the rows of [s] up to fields a claim does not depend on. *)
Definition keeps_rows (s s' : store) : Prop :=
  ∀ id a, actions s !! id = Some a → ∃ a', actions s' !! id = Some a' ∧
    a_user a' = a_user a ∧ a_risk a' = a_risk a ∧ a_kind a' = a_kind a ∧
    (claim_ok a → id ∈ claims s → claim_ok a').

Lemma keeps_insert s id (f : action → action) a0 cl :
  actions s !! id = Some a0 →
  a_user (f a0) = a_user a0 → a_risk (f a0) = a_risk a0 → a_kind (f a0) = a_kind a0 →
  (claim_ok a0 → id ∈ claims s → claim_ok (f a0)) →
  keeps_rows s (Store (<[id := f a0]> (actions s)) (users s) (setting s) cl (runs s)
                  (audits s) (notes s)).
Proof.
  intros H0 Hu Hr Hk Hc id' a Ha. simpl. destruct (decide (id = id')) as [->|].
  - rewrite lookup_insert_eq. simplify_eq. eauto 10.
  - rewrite lookup_insert_ne by done. eauto 10.
Qed.

Lemma keeps_refl s s' : actions s' = actions s → keeps_rows s s'.
Proof. intros He id a Ha. rewrite He. eauto 10. Qed.

Lemma unsettled_not_claim a : a_status a = Proposed ∨ a_status a = PendingApproval → ¬ claim_ok a.
Proof. intros Hs [[He|He] _]; rewrite He in Hs; by destruct Hs. Qed.

Lemma step_keeps s s' : step s s' → keeps_rows s s'.
Proof.
  destruct 1 as [i now s|id st o now s _|id to by_ n now s _ _|id st o now s Hst Hc
    |id ttl now s|now s|e now s|id s|r a s _ _ _ _|us p s]; try by apply keeps_refl.
  - intros id a Ha. simpl. rewrite lookup_insert_ne; [eauto 10|].
    intros <-. by rewrite fresh_lookup in Ha.
  - unfold SetAssistantActionStatus, claim_if. destruct (actions s !! id) as [a0|] eqn:Ha;
      [|by apply keeps_refl]. case_decide; [|by apply keeps_refl].
    case_bool_decide; simpl; eapply (keeps_insert s id (λ a, upd_status a st o now)); try done;
      intros Hok; by destruct (unsettled_not_claim a0); auto.
  - unfold SetAssistantActionDecision, claim_if. destruct (actions s !! id) as [a0|] eqn:Ha;
      [|by apply keeps_refl]. case_decide; [|by apply keeps_refl].
    case_bool_decide; simpl; eapply (keeps_insert s id (λ a, upd_decision a to by_ n now)); try done;
      intros Hok; by destruct (unsettled_not_claim a0); auto.
  - intros id' a Ha. simpl. destruct (decide (id = id')) as [->|].
    + rewrite lookup_alter_eq, Ha. simpl. eexists. split_and!; [done..|].
      intros [_ Hd] _. split; [|done]. unfold settled. simpl. tauto.
    + rewrite lookup_alter_ne by done. eauto 10.
  - unfold RequestAssistantActionApproval. destruct (actions s !! id) as [a0|] eqn:Ha;
      [|by apply keeps_refl]. case_decide; [|by apply keeps_refl].
    eapply (keeps_insert s id (λ a, upd_pending a _)); try done.
    intros Hok; by destruct (unsettled_not_claim a0); auto.
  - intros id a Ha. simpl. rewrite lookup_fmap, Ha. simpl. eexists. split; [done|].
    destruct (expirable now a) eqn:He; [|done]. split_and!; [done..|].
    intros Hok. destruct (unsettled_not_claim a); [|done].
    unfold expirable in He. apply andb_true_iff in He as [He%bool_decide_eq_true _]. done.
Qed.

(** A statement that does not claim preserves the invariant. *)
Lemma Inv_keeps s s' :
  keeps_rows s s' → claims s' = claims s → runs s' = runs s → Inv s → Inv s'.
Proof.
  intros Hk Hc Hr [Hn Hcl Hru]. split; rewrite ?Hc, ?Hr; [done| |].
  - intros id Hid. destruct (Hcl id Hid) as (a & Ha & Hok).
    destruct (Hk _ _ Ha) as (a' & ? & _ & _ & _ & Hok'). eauto.
  - intros r Hin. destruct (Hru r Hin) as (? & ? & a & Ha & Hu).
    destruct (Hk _ _ Ha) as (a' & ? & Hu' & _). split_and!; [done..|].
    exists a'. split; [done|]. congruence.
Qed.

(** A claim of a row that was still unsettled. *)
Lemma Inv_claim s s' id a a' :
  keeps_rows s s' → claims s' = claims s ++ [id] → runs s' = runs s →
  actions s !! id = Some a → ¬ settled a → actions s' !! id = Some a' → claim_ok a' →
  Inv s → Inv s'.
Proof.
  intros Hk Hc Hr Ha Hns Ha' Hok [Hn Hcl Hru].
  assert (id ∉ claims s) as Hni.
  { intros Hid. destruct (Hcl id Hid) as (a0 & H0 & [? _]). simplify_eq. by apply Hns. }
  split; rewrite ?Hc, ?Hr.
  - apply NoDup_app. split_and!; [done | set_solver | apply NoDup_singleton].
  - intros id' [Hid|[-> |[]%not_elem_of_nil]%elem_of_cons]%elem_of_app; [|by eauto].
    destruct (Hcl id' Hid) as (a0 & H0 & Hok0).
    destruct (Hk _ _ H0) as (a1 & ? & _ & _ & _ & Hok1). eauto.
  - intros r Hin. destruct (Hru r Hin) as (? & ? & a0 & H0 & Hu).
    destruct (Hk _ _ H0) as (a1 & ? & Hu' & _). split_and!; [set_solver|done|].
    exists a1. split; [done|]. congruence.
Qed.

Lemma reg_Inv_step s s' : step s s' → Inv s → Inv s'.
Proof.
  intros Hs. pose proof (step_keeps _ _ Hs) as Hk.
  destruct Hs as [i now s|id st o now s Hst|id to by_ n now s Hto Hby|id st o now s Hst Hc
    |id ttl now s|now s|e now s|id s|r a s Hc Ha Hu Hau|us p s];
    try (by eapply Inv_keeps).
  - revert Hk. unfold SetAssistantActionStatus, claim_if.
    destruct (actions s !! id) as [a0|] eqn:Ha; [|by intros; eapply Inv_keeps].
    case_decide as Hp; [|by intros; eapply Inv_keeps].
    case_bool_decide as He; [|by intros; eapply Inv_keeps]. intros Hk. subst st.
    eapply (Inv_claim _ _ id a0); [done..| | |].
    + unfold settled. rewrite Hp. by intros [|].
    + simpl. apply lookup_insert_eq.
    + split; [by left|]. left. simpl. naive_solver.
  - revert Hk. unfold SetAssistantActionDecision, claim_if.
    destruct (actions s !! id) as [a0|] eqn:Ha; [|by intros; eapply Inv_keeps].
    case_decide as Hp; [|by intros; eapply Inv_keeps].
    case_bool_decide as He; [|by intros; eapply Inv_keeps]. intros Hk. subst to.
    eapply (Inv_claim _ _ id a0); [done..| | |].
    + unfold settled. rewrite Hp. by intros [|].
    + simpl. apply lookup_insert_eq.
    + split; [by left|]. right. exists by_. split; [done|]. simpl. intros Heq. by apply (Hby a0).
  - revert Hk. unfold RequestAssistantActionApproval.
    destruct (actions s !! id) as [a0|]; [|by intros; eapply Inv_keeps].
    case_decide; by intros; eapply Inv_keeps.
  - intros [Hn Hcl Hru]. split; simpl; [done|done|].
    intros r' [Hin|[-> |[]%not_elem_of_nil]%elem_of_cons]%elem_of_app; [by apply Hru|].
    split_and!; [done..|]. eauto.
Qed.

Lemma reg_Inv_steps s s' : steps s s' → Inv s → Inv s'.
Proof. induction 1; eauto using reg_Inv_step. Qed.

(** * Facts the other requests cannot undo *)

(** The row of [id] still has the owner, risk and kind of [a]. *)
Definition row_as (id : uuid) (a : action) (s : store) : Prop :=
  ∃ a', actions s !! id = Some a' ∧
    a_user a' = a_user a ∧ a_risk a' = a_risk a ∧ a_kind a' = a_kind a.

Definition claimed (id : uuid) (s : store) : Prop := id ∈ claims s.
Definition ran (r : run) (s : store) : Prop := r ∈ runs s.

Lemma step_monotone s s' :
  step s s' → (∃ l, claims s' = claims s ++ l) ∧ (∃ l, runs s' = runs s ++ l).
Proof.
  destruct 1; simpl; unfold SetAssistantActionStatus, SetAssistantActionDecision,
    RequestAssistantActionApproval, claim_if; repeat case_match; simpl;
    split; (by eexists) || (exists []; by rewrite app_nil_r).
Qed.

Lemma stable_steps (P : store → Prop) :
  (∀ s s', P s → step s s' → P s') → Stable steps P.
Proof. intros HP s s' Hs Hst. induction Hst; eauto. Qed.

#[export] Instance stable_row_as id a : Stable steps (row_as id a).
Proof.
  apply stable_steps. intros s s' (a' & Ha & Hu & Hr & Hk) Hs.
  destruct (step_keeps _ _ Hs _ _ Ha) as (a2 & Ha2 & ? & ? & ? & _).
  exists a2. split_and!; congruence.
Qed.

#[export] Instance stable_claimed id : Stable steps (claimed id).
Proof.
  apply stable_steps. intros s s' Hc [[l Hl] _]%step_monotone.
  unfold claimed. rewrite Hl. set_solver.
Qed.

#[export] Instance stable_ran r : Stable steps (ran r).
Proof.
  apply stable_steps. intros s s' Hc [_ [l Hl]]%step_monotone.
  unfold ran. rewrite Hl. set_solver.
Qed.

Lemma row_as_get id a s : actions s !! id = Some a → row_as id a s.
Proof. exists a. auto. Qed.

Lemma reg_steps_audit e now s : steps s (AppendAudit e now s).2.
Proof. apply rtc_once, step_audit. Qed.
Lemma reg_steps_notify id s : steps s (notify id s).
Proof. apply rtc_once, step_notify. Qed.
Lemma steps_create i now s : steps s (CreateAssistantAction i now s).2.
Proof. apply rtc_once, step_create. Qed.
Lemma steps_setting p now s : steps s (SetSetting p now s).2.
Proof. apply rtc_once, step_accounts. Qed.
Lemma steps_pending id ttl now s : steps s (RequestAssistantActionApproval id ttl now s).2.
Proof. apply rtc_once, step_pending. Qed.
Lemma reg_steps_expire now s : steps s (ExpireAssistantActions now s).2.
Proof. apply rtc_once, step_expire. Qed.
Lemma steps_expired id now s : steps s (SetAssistantActionStatus id Expired "" now s).2.
Proof. apply rtc_once, step_status. auto. Qed.
Lemma steps_cancelled id now s : steps s (SetAssistantActionStatus id Cancelled "" now s).2.
Proof. apply rtc_once, step_status. auto. Qed.
#[export] Hint Resolve reg_steps_audit reg_steps_notify steps_create steps_pending reg_steps_expire
  steps_expired steps_cancelled steps_setting : within.

(** A decision by somebody other than the row's owner is a step. *)
Lemma steps_decision id to by_ note now a s :
  to = Executed ∨ to = Failed ∨ to = Denied → row_as id a s → a_user a ≠ by_ →
  steps s (SetAssistantActionDecision id PendingApproval to by_ note now s).2.
Proof.
  intros Hto (a' & Ha & Hu & _) Hne. apply rtc_once, step_decision; [done|].
  intros a2 Ha2. congruence.
Qed.

(** What winning a conditional update to [executed] gives. *)
Lemma status_claims id now s :
  (SetAssistantActionStatus id Executed "" now s).1 = Ok true →
  claimed id (SetAssistantActionStatus id Executed "" now s).2.
Proof.
  unfold SetAssistantActionStatus, claimed. repeat case_match; try done.
  intros _. simpl. set_solver.
Qed.

Lemma decision_claims id from by_ note now s :
  (SetAssistantActionDecision id from Executed by_ note now s).1 = Ok true →
  claimed id (SetAssistantActionDecision id from Executed by_ note now s).2.
Proof.
  unfold SetAssistantActionDecision, claimed. repeat case_match; try done.
  intros _. simpl. set_solver.
Qed.

Section proofs.
Context `{!Env store, !Relies steps}.

Lemma within_reg_audit w id : within steps (audit w id).
Proof. unfold audit. within_tac. Qed.
Lemma within_reload id a : within steps (reload id a).
Proof. unfold reload, GetAssistantAction. within_tac. Qed.
Lemma within_get_policy : within steps get_policy.
Proof. unfold get_policy. within_tac. Qed.
Lemma within_proposerActor u : within steps (proposerActor u).
Proof. unfold proposerActor. within_tac. Qed.
Hint Resolve within_reg_audit within_reload within_get_policy within_proposerActor : within.

Lemma within_Propose defs ac kind raw : within steps (Propose defs ac kind raw).
Proof. unfold Propose. within_tac. Qed.
Lemma within_RequestApproval defs hn ac id : within steps (RequestApproval defs hn ac id).
Proof. unfold RequestApproval, GetAssistantAction. within_tac. Qed.
Lemma within_Cancel ac id : within steps (Cancel ac id).
Proof. unfold Cancel, GetAssistantAction. within_tac. Qed.
Lemma within_Expire : within steps Expire.
Proof. unfold Expire. within_tac. Qed.

Lemma within_fail_approval P approver id a note msg `{!Stable steps P} (Q : out → store → Prop) :
  (∀ s, P s → row_as id a s) → a_user a ≠ ac_user approver →
  (∀ x s, Q (Some x, Some (Other msg)) s) →
  guar steps P (fail_approval approver id a note msg) Q.
Proof.
  intros HP Hne HQ. unfold fail_approval.
  eapply guar_bind; [exact _ | apply guar_db with (Q := λ _ _, True); [exact _..|done|] |].
  { intros now s Hs. split; [|done]. eapply steps_decision; [by auto | by apply HP | done]. }
  intros ?. eapply guar_bind; [exact _ | apply guar_within, within_reload |].
  intros ?. apply guar_ret; [exact _|]. intros. apply HQ.
Qed.

(** Once the row is claimed, the action runs for its actor, and the report names
    what was run. *)
Definition ran_for (id : uuid) (u : uuid) (s : store) : Prop :=
  claimed id s ∧ ran (Run id u true) s.

#[export] Instance stable_ran_for id u : Stable steps (ran_for id u).
Proof. apply stable_and; exact _. Qed.

Lemma guar_execute_claimed id def ac a :
  ac_can ac (d_permission def) = true → a_user a = ac_user ac →
  guar steps (λ s, claimed id s ∧ row_as id a s) (execute_claimed id def ac a)
    (λ o s, is_Some o.1 ∧ (o.2 = None ∨ ∃ m, o.2 = Some (Other m)) ∧
      ran_for id (ac_user ac) s ∧ row_as id a s).
Proof.
  intros Hcan Hu. unfold execute_claimed.
  eapply guar_bind with (Q := λ _ s, ran_for id (ac_user ac) s ∧ row_as id a s); [exact _ | |].
  { unfold run_action. rewrite Hcan. intros w [Hc Hr]. unfold mbind, M_bind, effect, mret, M_ret; simpl.
    destruct Hr as (a' & Ha & Hau & Hrest). split.
    - apply rtc_once, (step_run _ a'); simpl; [done..|congruence|done].
    - split; [split; [done | unfold ran; simpl; set_solver]|]. exists a'. auto. }
  intros o.
  destruct (match o with Ok _ => _ | Err _ => _ end) as [[status outcome] err] eqn:Ho.
  assert ((status = Executed ∨ status = Failed) ∧ (err = None ∨ ∃ m, err = Some (Other m)))
    as [Hst Herr] by (destruct o; simplify_eq; eauto 10).
  eapply guar_bind; [exact _ | apply guar_db with (Q := λ _ s, ran_for id (ac_user ac) s ∧ row_as id a s);
    [exact _..|done|] |].
  { intros now s [[Hc Hr] Hrow]. pose proof (step_finish _ _ (clip outcome 1000) now _ Hst Hc) as Hf.
    split; [by apply rtc_once|]. split; [split; [done|done]|].
    by eapply (stable_row_as id a), rtc_once. }
  intros ?. do 2 (eapply guar_bind; [exact _ | apply guar_frame;
    [apply stable_and; exact _ | eauto using within_reg_audit, within_reload] |]; intros ?).
  apply guar_ret; [exact _|]. intros s [??]. simpl. eauto 10.
Qed.

(** ** Execute *)
Definition execute_post (id : uuid) (ac : actor) (o : out) (s : store) : Prop :=
  match o with
  | (Some _, _) => ran_for id (ac_user ac) s ∧
      ∃ a, actions s !! id = Some a ∧ a_user a = ac_user ac ∧ a_risk a = RiskSafe
  | (None, e) => is_Some e
  end.

Lemma guar_Execute defs ac id :
  guar steps (λ _, True) (Execute defs ac id) (execute_post id ac).
Proof.
  assert (∀ (P : store → Prop) e, guar steps P (mret (None, Some e)) (execute_post id ac)) as Herr.
  { intros. apply guar_ret; [exact _|]. intros. by eexists. }
  unfold Execute. eapply guar_bind; [exact _ | apply guar_get_row; exact _ |].
  intros [a|]; [|apply Herr]. case_bool_decide as Hu; [|apply Herr]. simpl.
  case_bool_decide; [|apply Herr]. simpl.
  eapply guar_weaken with (P' := row_as id a); [|intros s [_ Hs]; by apply row_as_get, Hs].
  eapply guar_bind; [exact _ | apply guar_frame; [exact _|apply within_now; exact _] |]. intros now.
  case_match.
  { eapply guar_bind; [exact _ | apply guar_within, within_db; [exact _|exact _|apply steps_expired] |].
    intros ?. apply Herr. }
  destruct (defs !! a_kind a) as [def|]; [|apply Herr].
  destruct (str_eqb (a_risk a) RiskSafe) eqn:Hrisk; [|apply Herr].
  apply str_eqb_eq in Hrisk. simpl.
  destruct (ac_can ac (d_permission def)) eqn:Hcan; [|apply Herr]. simpl.
  eapply guar_bind with (Q := λ c s, (c = Ok true → claimed id s) ∧ row_as id a s); [exact _| |].
  { apply guar_db; [exact _..|done|]. intros n s Hrow.
    assert (steps s (SetAssistantActionStatus id Executed "" n s).2) as Hst.
    { apply rtc_once, step_status. right; right. split; [done|].
      destruct Hrow as (a' & ? & ? & ? & ?). intros. congruence. }
    split; [done|]. split; [apply status_claims | by eapply (stable_row_as id a)]. }
  intros [[]|]; try apply Herr.
  eapply guar_conseq; [by apply guar_execute_claimed | intros s [Hc ?]; eauto |].
  intros [[a1|] e] s ([? Hs] & _ & Hran & Hrow); simplify_eq/=. split; [done|].
  destruct Hrow as (a' & ? & ? & ? & ?). exists a'. split_and!; congruence.
Qed.

(** ** Approve *)
Definition approve_post (id : uuid) (approver : actor) (o : out) (s : store) : Prop :=
  match o with
  | (Some _, None) => ∃ a, actions s !! id = Some a ∧ a_user a ≠ ac_user approver ∧
      ran_for id (a_user a) s
  | (Some _, Some e) => ∃ m, e = Other m
  | (None, e) => is_Some e
  end.

Lemma guar_Approve defs ac id :
  guar steps (λ _, True) (Approve defs ac id) (approve_post id ac).
Proof.
  assert (∀ (P : store → Prop) e, guar steps P (mret (None, Some e)) (approve_post id ac)) as Herr.
  { intros. apply guar_ret; [exact _|]. intros. by eexists. }
  unfold Approve. eapply guar_bind; [exact _ | apply guar_get_row; exact _ |].
  intros [a|]; [|apply Herr]. case_bool_decide; [|apply Herr]. simpl.
  case_bool_decide as Hself; [apply Herr|].
  eapply guar_weaken with (P' := row_as id a); [|intros s [_ Hs]; by apply row_as_get, Hs].
  eapply guar_bind; [exact _ | apply guar_frame; [exact _|apply within_now; exact _] |]. intros now.
  case_match; [apply Herr|].
  destruct (defs !! a_kind a) as [def|]; [|apply Herr].
  assert (∀ uid, guar steps (row_as id a) (proposerActor uid)
    (λ p s, row_as id a s ∧ ∀ x, p = Some x → ac_user x.1 = uid)) as Hprop.
  { intros uid. eapply guar_conseq with (P' := λ s, row_as id a s)
      (Q' := λ p s, row_as id a s ∧ ∀ x, p = Some x → ac_user x.1 = uid); [|auto..].
    unfold proposerActor. eapply guar_bind; [exact _ | apply guar_frame; [exact _|apply within_get_row; exact _]|].
    intros [u|]; [|by apply guar_ret; [exact _|]].
    eapply guar_bind; [exact _ | apply guar_frame; [exact _|apply within_get_row; exact _]|].
    intros ps. apply guar_ret; [exact _|]. intros s Hs. split; [done|]. by intros x [= <-]. }
  eapply guar_bind; [exact _ | apply Hprop |]. intros [[pActor pUser]|].
  2: { apply within_fail_approval; [exact _|by intros s []|done|by eexists]. }
  apply guar_pure. intros Huid. specialize (Huid _ eq_refl). simpl in Huid.
  destruct (u_disabled pUser).
  { apply within_fail_approval; [exact _|done|done|by eexists]. }
  destruct (ac_can pActor (d_permission def)) eqn:Hcan; simpl.
  2: { apply within_fail_approval; [exact _|done|done|by eexists]. }
  eapply guar_bind with (Q := λ c s, (c = Ok true → claimed id s) ∧ row_as id a s); [exact _| |].
  { apply guar_db; [exact _..|done|]. intros n s Hrow.
    assert (steps s (SetAssistantActionDecision id PendingApproval Executed (ac_user ac) "" n s).2)
      as Hst by (eapply steps_decision; eauto).
    split; [done|]. split; [apply decision_claims | by eapply (stable_row_as id a)]. }
  intros [[]|]; try apply Herr.
  eapply guar_conseq; [by apply guar_execute_claimed | intros s [Hc ?]; eauto |].
  intros [[a1|] e] s ([? Hs] & He & Hran & Hrow); simplify_eq/=.
  destruct Hrow as (a' & ? & Hu & ? & ?). rewrite Huid in Hran.
  destruct He as [->|[m ->]]; [|by exists m].
  exists a'. rewrite Hu. split_and!; [done|congruence|done].
Qed.
End proofs.

(** * Properties *)

Section serve.
Context `{!Env store, !Relies steps}.

Lemma guar_Deny ac id note : guar steps (λ _, True) (Deny ac id note) (λ _ _, True).
Proof.
  assert (∀ (P : store → Prop) (o : out), guar steps P (mret o) (λ _ _, True)) as Hret.
  { intros. by apply guar_ret; [exact _|]. }
  unfold Deny. eapply guar_bind; [exact _ | apply guar_get_row; exact _ |].
  intros [a|]; [|apply Hret]. case_bool_decide; [|apply Hret]. simpl.
  case_bool_decide; [apply Hret|].
  eapply guar_weaken with (P' := row_as id a); [|intros s [_ Hs]; by apply row_as_get, Hs].
  eapply guar_bind; [exact _ | apply guar_db with (Q := λ _ _, True); [exact _..|done|] |].
  { intros now s Hs. split; [|done]. eapply steps_decision; eauto. }
  intros [[]|]; [|apply Hret..]. apply guar_within.
  pose proof within_reg_audit. pose proof within_reload. within_tac.
Qed.

Lemma within_ignore {A} (m : M store A) (Q : A → store → Prop) :
  guar steps (λ _, True) m Q → within steps (_ ← m; mret tt).
Proof.
  intros Hm. apply within_bind; [exact _| |intros; apply within_ret; exact _].
  eapply guar_conseq; [exact Hm|done|done].
Qed.

Lemma within_serve defs hn rq : within steps (serve defs hn rq).
Proof.
  destruct rq; simpl; eapply within_ignore.
  - apply within_Propose. - apply guar_Execute. - apply within_RequestApproval.
  - apply guar_Approve. - apply guar_Deny. - apply within_Cancel.
  - apply (within_db steps). intros. apply steps_setting.
  - apply within_Expire.
Qed.
End serve.

(** the registry's invariant survives every call. Whatever definitions are
    registered, whichever statements fail and whatever other calls interleave with
    it, a call made in a good state leaves a good state: no action was ever claimed
    for execution twice; a claimed action is executed or failed and, unless it is
    safe, was decided by somebody other than its requester; every run was of a
    claimed action, for the user who proposed it, who held the permission. *)
Theorem registry_serve_inv `{!Env store, !Relies steps} defs hn rq (w : world store) :
  Inv (w_db w) → Inv (w_db (serve defs hn rq w).2).
Proof.
  intros Hinv. destruct (within_serve defs hn rq w I) as [Hs _]. by eapply reg_Inv_steps.
Qed.

(** C8: [Execute] answers with an action only when it is the caller's own, its risk
    is safe (a guarded or destructive one is never self-confirmed, whatever its
    requester's permissions), it was claimed by the conditional update, and it ran
    for the caller, who could at the time; otherwise it reports an error. *)
Theorem execute_safe_and_own `{!Env store, !Relies steps} defs ac id :
  guar steps (λ _, True) (Execute defs ac id) (execute_post id ac).
Proof. apply guar_Execute. Qed.

(** four eyes. [Approve] succeeds only on a claimed action of a user other than
    the approver, and it ran as that user, who was found to hold the permission;
    a requester who is gone, disabled or lost the permission fails the action. *)
Theorem approve_four_eyes `{!Env store, !Relies steps} defs ac id :
  guar steps (λ _, True) (Approve defs ac id) (approve_post id ac).
Proof. apply guar_Approve. Qed.

Definition ex_defs : gmap string ActionDef :=
  {[ "host.reboot" := {| d_permission := "Host.Edit"; d_risk := "guarded";
       d_prepare := λ _ raw, Ok (raw, "reboot"); d_execute := λ _ _, Ok "done" |};
     "host.tag" := {| d_permission := "Host.Edit"; d_risk := "safe";
       d_prepare := λ _ raw, Ok (raw, "tag"); d_execute := λ _ _, Ok "done" |} ]}.
Definition ex_actor (u : uuid) : actor := Actor u false (λ p, str_eqb p "Host.Edit").
Definition ex_store0 : store :=
  Store ∅ {[ 7%N := User false false {[ "Host.Edit" ]} ]} None [] [] [] [].
Definition ex_id : uuid := fresh (dom (actions ex_store0)).
Definition ex_run (rqs : list request) : store :=
  foldl (λ s rq, w_db (@serve quiet_env ex_defs true rq (World 0 s)).2) ex_store0 rqs.

Lemma Inv_ex_store0 : Inv ex_store0.
Proof. split; simpl; [constructor|..]; intros ? []%not_elem_of_nil. Qed.

Lemma registry_serve_inv_witness :
  Inv (ex_run [RqPropose (ex_actor 7) "host.reboot" "{}"]).
Proof. apply (@registry_serve_inv quiet_env _ _ _ _ (World 0 ex_store0)), Inv_ex_store0. Defined.

Lemma execute_safe_and_own_witness :
  guar steps (λ _, True) (@Execute quiet_env ex_defs (ex_actor 7) ex_id)
    (execute_post ex_id (ex_actor 7)) ∧
  (** a guarded action is refused, a safe one runs *)
  (@Execute quiet_env ex_defs (ex_actor 7) ex_id
    (World 0 (ex_run [RqPropose (ex_actor 7) "host.reboot" "{}"]))).1
    = (None, Some ErrRequiresApproval) ∧
  runs (ex_run [RqPropose (ex_actor 7) "host.tag" "{}"; RqExecute (ex_actor 7) ex_id;
                RqExecute (ex_actor 7) ex_id])
    = [Run ex_id 7 true].
Proof.
  split; [apply (@execute_safe_and_own quiet_env _)|]. by vm_compute.
Defined.

Lemma approve_four_eyes_witness :
  guar steps (λ _, True) (@Approve quiet_env ex_defs (ex_actor 8) ex_id)
    (approve_post ex_id (ex_actor 8)) ∧
  (let s := ex_run [RqPropose (ex_actor 7) "host.reboot" "{}"; RqRequestApproval (ex_actor 7) ex_id] in
   (@Approve quiet_env ex_defs (ex_actor 7) ex_id (World 0 s)).1 = (None, Some ErrSelfApproval) ∧
   runs (w_db (@Approve quiet_env ex_defs (ex_actor 8) ex_id (World 0 s)).2) = [Run ex_id 7 true]).
Proof.
  split; [apply (@approve_four_eyes quiet_env _)|]. by vm_compute.
Defined.
