(* ===== verification/SecretBox.v ===== *)
(** Secrets at rest: [secretbox/secretbox.go].

    The three envelopes (v3: PBKDF2, v2: argon2id, legacy: bare SHA-256), sealing,
    opening and the re-seal sweep, over bytes. The primitives of the crypto packages
    (the two key derivations, SHA-256, AES-GCM) are parameters; base64 is the standard
    encoding, written out. [SecretBox] is the interface the vault is proved against. *)
From S2P Require Import Prelude.
From Stdlib Require Import Strings.Ascii Strings.Byte Wf_nat Wellfounded.Inverse_Image.

Abbreviation bytes := (list Byte.byte).
#[export] Instance byte_eq_dec : EqDecision Byte.byte := Byte.byte_eq_dec.

(** * [encoding/base64], [StdEncoding] *)
Module Base64.
Definition sextet : Type := bool * bool * bool * bool * bool * bool.

Definition sextet_Z (s : sextet) : Z :=
  let '(a, b, c, d, e, f) := s in
  32 * Z.b2z a + 16 * Z.b2z b + 8 * Z.b2z c + 4 * Z.b2z d + 2 * Z.b2z e + Z.b2z f.

Definition Z_sextet (z : Z) : sextet :=
  (Z.testbit z 5, Z.testbit z 4, Z.testbit z 3, Z.testbit z 2, Z.testbit z 1, Z.testbit z 0).

Definition alphabet : string :=
  "ABCDEFGHIJKLMNOPQRSTUVWXYZabcdefghijklmnopqrstuvwxyz0123456789+/".

Definition char_of (s : sextet) : Ascii.ascii :=
  default Ascii.zero (String.get (Z.to_nat (sextet_Z s)) alphabet).

Fixpoint index_of (c : Ascii.ascii) (i : Z) (s : string) : option Z :=
  match s with
  | EmptyString => None
  | String d s' => if Ascii.eqb c d then Some i else index_of c (i + 1) s'
  end.

Definition sextet_of (c : Ascii.ascii) : option sextet := Z_sextet <$> index_of c 0 alphabet.

Definition pad : Ascii.ascii := "="%char.

(** Three bytes become four characters; one or two trailing bytes are padded. *)
Fixpoint encode (bs : bytes) : string :=
  match bs with
  | [] => ""
  | [x] =>
    let '(x0, (x1, (x2, (x3, (x4, (x5, (x6, x7))))))) := Byte.to_bits x in
    String (char_of (x7, x6, x5, x4, x3, x2))
      (String (char_of (x1, x0, false, false, false, false)) (String pad (String pad "")))
  | [x; y] =>
    let '(x0, (x1, (x2, (x3, (x4, (x5, (x6, x7))))))) := Byte.to_bits x in
    let '(y0, (y1, (y2, (y3, (y4, (y5, (y6, y7))))))) := Byte.to_bits y in
    String (char_of (x7, x6, x5, x4, x3, x2)) (String (char_of (x1, x0, y7, y6, y5, y4))
      (String (char_of (y3, y2, y1, y0, false, false)) (String pad "")))
  | x :: y :: z :: bs' =>
    let '(x0, (x1, (x2, (x3, (x4, (x5, (x6, x7))))))) := Byte.to_bits x in
    let '(y0, (y1, (y2, (y3, (y4, (y5, (y6, y7))))))) := Byte.to_bits y in
    let '(z0, (z1, (z2, (z3, (z4, (z5, (z6, z7))))))) := Byte.to_bits z in
    String (char_of (x7, x6, x5, x4, x3, x2)) (String (char_of (x1, x0, y7, y6, y5, y4))
      (String (char_of (y3, y2, y1, y0, z7, z6)) (String (char_of (z5, z4, z3, z2, z1, z0))
        (encode bs'))))
  end.

(** The decoder skips line breaks, wants whole quanta, and padding only at the end. *)
Fixpoint strip_newlines (s : string) : string :=
  match s with
  | EmptyString => EmptyString
  | String c s' =>
    if Ascii.eqb c "010"%char || Ascii.eqb c "013"%char then strip_newlines s'
    else String c (strip_newlines s')
  end.

Fixpoint decode_quanta (s : string) : option bytes :=
  match s with
  | EmptyString => Some []
  | String a (String b (String c (String d s'))) =>
    '(x7, x6, x5, x4, x3, x2) ← sextet_of a;
    '(x1, x0, y7, y6, y5, y4) ← sextet_of b;
    let x := Byte.of_bits (x0, (x1, (x2, (x3, (x4, (x5, (x6, x7))))))) in
    if Ascii.eqb c pad then
      if Ascii.eqb d pad && str_eqb s' "" then Some [x] else None
    else
      '(y3, y2, y1, y0, z7, z6) ← sextet_of c;
      let y := Byte.of_bits (y0, (y1, (y2, (y3, (y4, (y5, (y6, y7))))))) in
      if Ascii.eqb d pad then if str_eqb s' "" then Some [x; y] else None
      else
        '(z5, z4, z3, z2, z1, z0) ← sextet_of d;
        let z := Byte.of_bits (z0, (z1, (z2, (z3, (z4, (z5, (z6, z7))))))) in
        rest ← decode_quanta s';
        Some (x :: y :: z :: rest)
  | _ => None
  end.

Definition decode (s : string) : option bytes := decode_quanta (strip_newlines s).

Lemma sextet_char s : sextet_of (char_of s) = Some s.
Proof. destruct s as [[[[[[] []] []] []] []] []]; vm_compute; reflexivity. Qed.

Lemma char_not_special s :
  Ascii.eqb (char_of s) pad = false ∧
  Ascii.eqb (char_of s) "010"%char = false ∧ Ascii.eqb (char_of s) "013"%char = false.
Proof. destruct s as [[[[[[] []] []] []] []] []]; vm_compute; auto. Qed.

Lemma strip_char s t :
  strip_newlines (String (char_of s) t) = String (char_of s) (strip_newlines t).
Proof. simpl. destruct (char_not_special s) as (_ & -> & ->). reflexivity. Qed.

Lemma of_bits_eta x x0 x1 x2 x3 x4 x5 x6 x7 :
  Byte.to_bits x = (x0, (x1, (x2, (x3, (x4, (x5, (x6, x7))))))) →
  Byte.of_bits (x0, (x1, (x2, (x3, (x4, (x5, (x6, x7))))))) = x.
Proof. intros <-. apply Byte.of_bits_to_bits. Qed.

Ltac bits x := let E := fresh "E" in
  destruct (Byte.to_bits x) as (?&?&?&?&?&?&?&?) eqn:E; apply of_bits_eta in E.

#[local] Opaque Byte.of_bits Byte.to_bits.

Lemma decode_encode bs : decode (encode bs) = Some bs.
Proof.
  unfold decode.
  induction bs as [bs IH] using (well_founded_induction (wf_inverse_image _ nat _ (@length _) Wf_nat.lt_wf)).
  assert (∀ s, Ascii.eqb (char_of s) pad = false) as Hp by apply char_not_special.
  destruct bs as [|x [|y [|z bs]]]; [reflexivity|..].
  - cbn [encode]. bits x. rewrite !strip_char. simpl strip_newlines.
    cbn [decode_quanta]. rewrite !sextet_char. simpl. rewrite E. reflexivity.
  - cbn [encode]. bits x. bits y. rewrite !strip_char. simpl strip_newlines.
    cbn [decode_quanta]. rewrite !sextet_char. simpl. rewrite Hp. simpl. rewrite E, E0. reflexivity.
  - cbn [encode]. bits x. bits y. bits z. rewrite !strip_char.
    cbn [decode_quanta]. rewrite !sextet_char. simpl. rewrite !Hp. simpl.
    rewrite IH by (simpl; lia). simpl. rewrite E, E0, E1. reflexivity.
Qed.

Lemma encode_empty bs : encode bs = "" ↔ bs = [].
Proof.
  split; [|by intros ->]. destruct bs as [|x [|y [|z bs]]]; [done|..]; simpl;
    repeat case_match; done.
Qed.
End Base64.

(** * The primitives and what the code relies on *)
Class Crypto := {
  argonKey : bytes → bytes → bytes;
  pbkdf2_Key : bytes → bytes → option bytes;
  Sum256 : bytes → bytes;
  gcm_Seal : bytes → bytes → bytes → bytes;
  gcm_Open : bytes → bytes → bytes → option bytes;
}.

(** AES-GCM opens what it sealed under the same key and nonce. *)
Class CryptoLaws `{!Crypto} : Prop := {
  gcm_open_seal : ∀ k n p, gcm_Open k n (gcm_Seal k n p) = Some p;
}.

Definition magic : bytes := [xf1; x33; x7b; x02].
Definition magicV3 : bytes := [xf1; x33; x7b; x03].
Definition saltLen : nat := 16.
Definition NonceSize : nat := 12.

Definition HasPrefix (raw p : bytes) : bool := bool_decide (take (length p) raw = p).

Inductive box_err := ErrRand | ErrKDF | ErrShort | ErrAuth | ErrBase64 | ErrVerify.

(** What [rand.Read] gave for the salt and for the nonce. *)
Record rand_draw := Rand { r_salt : option bytes; r_nonce : option bytes }.
Definition good_draw (r : rand_draw) : Prop :=
  (∀ s, r_salt r = Some s → length s = saltLen) ∧
  (∀ n, r_nonce r = Some n → length n = NonceSize).

Section secretbox.
Context `{!Crypto}.
(** The package variable [useFIPS], set once at boot. *)
Context (useFIPS : bool).

Definition SealBytes (rnd : rand_draw) (passphrase plaintext : bytes) : res box_err bytes :=
  match r_salt rnd with
  | None => Err ErrRand
  | Some salt =>
    match (if useFIPS
           then match pbkdf2_Key passphrase salt with
                | Some k => Some (magicV3, k) | None => None end
           else Some (magic, argonKey passphrase salt)) with
    | None => Err ErrKDF
    | Some (prefix, key) =>
      match r_nonce rnd with
      | None => Err ErrRand
      | Some nonce => Ok (prefix ++ salt ++ nonce ++ gcm_Seal key nonce plaintext)
      end
    end
  end.

Definition gcm_open (key nonce ct : bytes) : res box_err bytes :=
  match gcm_Open key nonce ct with Some p => Ok p | None => Err ErrAuth end.

Definition openV3 (passphrase body : bytes) : res box_err bytes :=
  if (length body <? saltLen)%nat then Err ErrShort
  else
    let salt := take saltLen body in
    let rest := drop saltLen body in
    match pbkdf2_Key passphrase salt with
    | None => Err ErrKDF
    | Some key =>
      if (length rest <? NonceSize)%nat then Err ErrShort
      else gcm_open key (take NonceSize rest) (drop NonceSize rest)
    end.

Definition openV2 (passphrase body : bytes) : res box_err bytes :=
  if (length body <? saltLen)%nat then Err ErrShort
  else
    let salt := take saltLen body in
    let rest := drop saltLen body in
    if (length rest <? NonceSize)%nat then Err ErrShort
    else gcm_open (argonKey passphrase salt) (take NonceSize rest) (drop NonceSize rest).

Definition openLegacy (passphrase raw : bytes) : res box_err bytes :=
  if (length raw <? NonceSize)%nat then Err ErrShort
  else gcm_open (Sum256 passphrase) (take NonceSize raw) (drop NonceSize raw).

Definition OpenBytes (passphrase raw : bytes) : res box_err bytes :=
  let legacy := openLegacy passphrase raw in
  let v2 :=
    if HasPrefix raw magic then
      match openV2 passphrase (drop (length magic) raw) with
      | Ok pt => Ok pt | Err _ => legacy end
    else legacy in
  if HasPrefix raw magicV3 then
    match openV3 passphrase (drop (length magicV3) raw) with
    | Ok pt => Ok pt | Err _ => v2 end
  else v2.

Definition IsLegacy (raw : bytes) : bool := negb (HasPrefix raw magic) && negb (HasPrefix raw magicV3).
Definition IsFIPSSealed (raw : bytes) : bool := HasPrefix raw magicV3.

Definition NeedsReseal (raw : bytes) : bool :=
  if useFIPS then negb (HasPrefix raw magicV3) else IsLegacy raw.

(** [(out, changed, err)] *)
Definition ResealBytes (rnd : rand_draw) (passphrase raw : bytes)
    : bytes * bool * option box_err :=
  if negb (NeedsReseal raw) then (raw, false, None)
  else
    match OpenBytes passphrase raw with
    | Err e => (raw, false, Some e)
    | Ok plain =>
      match SealBytes rnd passphrase plain with
      | Err e => (raw, false, Some e)
      | Ok sealed =>
        match OpenBytes passphrase sealed with
        | Ok check => if bool_decide (check = plain) then (sealed, true, None)
                      else (raw, false, Some ErrVerify)
        | Err _ => (raw, false, Some ErrVerify)
        end
      end
    end.

Definition ResealString (rnd : rand_draw) (passphrase : bytes) (encoded : string)
    : string * bool * option box_err :=
  if str_eqb encoded "" then (encoded, false, None)
  else
    match Base64.decode encoded with
    | None => (encoded, false, Some ErrBase64)
    | Some raw =>
      match ResealBytes rnd passphrase raw with
      | (sealed, true, None) => (Base64.encode sealed, true, None)
      | (_, _, err) => (encoded, false, err)
      end
    end.

Definition Seal (rnd : rand_draw) (passphrase plaintext : bytes) : res box_err string :=
  raw ← SealBytes rnd passphrase plaintext; Ok (Base64.encode raw).

Definition Open (passphrase : bytes) (encoded : string) : res box_err bytes :=
  match Base64.decode encoded with
  | None => Err ErrBase64
  | Some raw => OpenBytes passphrase raw
  end.
End secretbox.

(** * Lemmas *)
Lemma HasPrefix_app p raw : HasPrefix (p ++ raw) p = true.
Proof. unfold HasPrefix. rewrite take_app_length. by apply bool_decide_eq_true. Qed.

Lemma HasPrefix_v2_v3 raw : HasPrefix (magic ++ raw) magicV3 = false.
Proof. reflexivity. Qed.

Section lemmas.
Context `{!Crypto, !CryptoLaws}.

Lemma split_body (salt nonce ct : bytes) :
  length salt = saltLen → length nonce = NonceSize →
  (length (salt ++ nonce ++ ct) <? saltLen)%nat = false ∧
  take saltLen (salt ++ nonce ++ ct) = salt ∧ drop saltLen (salt ++ nonce ++ ct) = nonce ++ ct ∧
  (length (nonce ++ ct) <? NonceSize)%nat = false ∧
  take NonceSize (nonce ++ ct) = nonce ∧ drop NonceSize (nonce ++ ct) = ct.
Proof.
  intros <- <-. rewrite !take_app_length, !drop_app_length, !length_app.
  split_and!; try done; apply Nat.ltb_ge; lia.
Qed.

Lemma openV2_seal pp salt nonce pt :
  length salt = saltLen → length nonce = NonceSize →
  openV2 pp (salt ++ nonce ++ gcm_Seal (argonKey pp salt) nonce pt) = Ok pt.
Proof.
  intros Hs Hn. unfold openV2.
  edestruct (split_body salt nonce) as (-> & -> & -> & -> & -> & ->); [done..|].
  unfold gcm_open. by rewrite gcm_open_seal.
Qed.

Lemma openV3_seal pp salt nonce pt k :
  length salt = saltLen → length nonce = NonceSize → pbkdf2_Key pp salt = Some k →
  openV3 pp (salt ++ nonce ++ gcm_Seal k nonce pt) = Ok pt.
Proof.
  intros Hs Hn Hk. unfold openV3.
  edestruct (split_body salt nonce) as (-> & -> & -> & -> & -> & ->); [done..|].
  rewrite Hk. unfold gcm_open. by rewrite gcm_open_seal.
Qed.

Lemma OpenBytes_SealBytes fips rnd pp pt raw :
  good_draw rnd → SealBytes fips rnd pp pt = Ok raw →
  OpenBytes pp raw = Ok pt ∧ NeedsReseal fips raw = false.
Proof.
  intros [Hs Hn]. unfold SealBytes.
  destruct (r_salt rnd) as [salt|]; [|done]. destruct (r_nonce rnd) as [nonce|];
    [|repeat case_match; done].
  specialize (Hs _ eq_refl). specialize (Hn _ eq_refl). unfold NeedsReseal, IsLegacy.
  destruct fips.
  - destruct (pbkdf2_Key pp salt) as [k|] eqn:Hk; [|done]. intros Heq.
    assert (raw = magicV3 ++ salt ++ nonce ++ gcm_Seal k nonce pt) as -> by congruence.
    unfold OpenBytes. rewrite HasPrefix_app, drop_app_length.
    by rewrite openV3_seal.
  - intros Heq.
    assert (raw = magic ++ salt ++ nonce ++ gcm_Seal (argonKey pp salt) nonce pt) as -> by congruence.
    unfold OpenBytes. rewrite HasPrefix_v2_v3, (HasPrefix_app magic), (drop_app_length magic).
    by rewrite openV2_seal.
Qed.

Lemma ResealBytes_same fips rnd pp raw out ch err :
  ResealBytes fips rnd pp raw = (out, ch, err) →
  (ch = false ∧ out = raw) ∨
  (ch = true ∧ err = None ∧ NeedsReseal fips raw = true ∧
   ∃ pt, OpenBytes pp raw = Ok pt ∧ OpenBytes pp out = Ok pt ∧ SealBytes fips rnd pp pt = Ok out).
Proof.
  unfold ResealBytes. destruct (NeedsReseal fips raw); simpl.
  2: { intros [= <- <- <-]. by left. }
  destruct (OpenBytes pp raw) as [plain|] eqn:Hp; [|intros [= <- <- <-]; by left].
  destruct (SealBytes fips rnd pp plain) as [sealed|] eqn:Hse; [|intros [= <- <- <-]; by left].
  destruct (OpenBytes pp sealed) as [check|] eqn:Ho; [|intros [= <- <- <-]; by left].
  case_bool_decide as Hc; intros [= <- <- <-]; [|by left]. subst check. right.
  split_and!; [reflexivity..|]. by exists plain.
Qed.
End lemmas.

(** * The interface

    What the callers of the package use: a sealed value opens, under the passphrase
    that sealed it, to what was sealed, and a sealed value is never empty. *)
Class SecretBox := {
  box_seal : rand_draw → bytes → bytes → res box_err string;
  box_open : bytes → string → res box_err bytes;
  box_reseal : rand_draw → bytes → string → string * bool * option box_err;
}.

Class SecretBoxLaws `{!SecretBox} : Prop := {
  box_open_seal : ∀ r k p s, good_draw r → box_seal r k p = Ok s → box_open k s = Ok p;
  box_seal_nonempty : ∀ r k p s, box_seal r k p = Ok s → s ≠ "";
  box_reseal_open : ∀ r k s s' ch err p,
    box_reseal r k s = (s', ch, err) → box_open k s = Ok p → box_open k s' = Ok p;
  box_reseal_changed : ∀ r k s s' err,
    box_reseal r k s = (s', true, err) → is_ok (box_open k s) = true;
  box_reseal_nonempty : ∀ r k s s' ch err,
    box_reseal r k s = (s', ch, err) → s ≠ "" → s' ≠ "";
}.

#[export] Instance secretbox_impl `{!Crypto} (useFIPS : bool) : SecretBox := {|
  box_seal := Seal useFIPS;
  box_open := Open;
  box_reseal := ResealString useFIPS;
|}.

Section impl.
Context `{!Crypto, !CryptoLaws}.

Lemma SealBytes_nonempty fips rnd pp pt raw : SealBytes fips rnd pp pt = Ok raw → raw ≠ [].
Proof.
  unfold SealBytes. destruct (r_salt rnd) as [salt|]; [|done].
  destruct fips; [destruct (pbkdf2_Key pp salt); [|done]|];
    (destruct (r_nonce rnd); [|done]); by intros [= <-].
Qed.

Lemma Open_Seal fips rnd pp pt s :
  good_draw rnd → Seal fips rnd pp pt = Ok s → Open pp s = Ok pt.
Proof.
  intros Hg. unfold Seal, Open. destruct (SealBytes fips rnd pp pt) as [raw|] eqn:Hse; [|done].
  simpl. intros [= <-]. rewrite Base64.decode_encode. by eapply OpenBytes_SealBytes.
Qed.

Lemma ResealString_open fips rnd pp s s' ch err p :
  ResealString fips rnd pp s = (s', ch, err) → Open pp s = Ok p →
  Open pp s' = Ok p ∧ (s ≠ "" → s' ≠ "").
Proof.
  unfold ResealString. destruct (str_eqb s "") eqn:Hs; [by intros [= <- <- <-]|].
  unfold Open at 1. destruct (Base64.decode s) as [raw|] eqn:Hd; [|by intros [= <- <- <-]].
  destruct (ResealBytes fips rnd pp raw) as [[out ch'] err'] eqn:Hr.
  pose proof (ResealBytes_same _ _ _ _ _ _ _ Hr) as [[-> ->]|(-> & -> & Hn & pt & Ho & Ho' & Hse)].
  - intros [= <- <- <-]. intros. split; [|done]. unfold Open. by rewrite Hd.
  - intros [= <- <- <-]. rewrite Ho. intros [= ->]. unfold Open. rewrite Base64.decode_encode.
    split; [done|]. intros _ He%Base64.encode_empty. by eapply SealBytes_nonempty.
Qed.

#[export] Instance secretbox_laws fips : @SecretBoxLaws (secretbox_impl fips).
Proof.
  split; simpl.
  - intros. by eapply Open_Seal.
  - intros r k p s. unfold Seal. destruct (SealBytes fips r k p) as [raw|] eqn:Hse; [|done].
    simpl. intros [= <-] He%Base64.encode_empty. by eapply SealBytes_nonempty.
  - intros r k s s' ch err p Hr Ho. by eapply ResealString_open.
  - intros r k s s' err. unfold ResealString, Open.
    destruct (str_eqb s ""); [done|].
    destruct (Base64.decode s) as [raw|]; [|done].
    destruct (ResealBytes fips r k raw) as [[out ch'] err'] eqn:Hr.
    pose proof (ResealBytes_same _ _ _ _ _ _ _ Hr) as [[-> ->]|(-> & -> & Hn & pt & -> & _)]; done.
  - intros r k s s' ch err. unfold ResealString.
    destruct (str_eqb s "") eqn:Hs; [by apply str_eqb_eq in Hs|].
    destruct (Base64.decode s) as [raw|]; [|by intros [= <- <- <-]].
    destruct (ResealBytes fips r k raw) as [[out ch'] err'] eqn:Hr.
    pose proof (ResealBytes_same _ _ _ _ _ _ _ Hr) as [[-> ->]|(-> & -> & Hn & pt & Ho & Ho' & Hse)];
      [by intros [= <- <- <-]|].
    intros [= <- <- <-] _ He%Base64.encode_empty. by eapply SealBytes_nonempty.
Qed.
End impl.

(** * Properties *)

(** round trip across versions and profiles. A value sealed in either KDF
    profile opens to what was sealed, whatever profile the opening process runs in;
    a legacy value (no envelope) still opens, even when its nonce happens to start
    with an envelope's magic, as long as that envelope does not authenticate. *)
Theorem seal_open_roundtrip `{!Crypto, !CryptoLaws} (pp pt : bytes) :
  (∀ fips rnd s, good_draw rnd → Seal fips rnd pp pt = Ok s → Open pp s = Ok pt) ∧
  (∀ nonce, length nonce = NonceSize →
     let raw := nonce ++ gcm_Seal (Sum256 pp) nonce pt in
     (HasPrefix raw magic = true → is_ok (openV2 pp (drop (length magic) raw)) = false) →
     (HasPrefix raw magicV3 = true → is_ok (openV3 pp (drop (length magicV3) raw)) = false) →
     Open pp (Base64.encode raw) = Ok pt).
Proof.
  split; [intros; by eapply Open_Seal|].
  intros nonce Hn raw H2 H3. unfold Open. rewrite Base64.decode_encode.
  assert (openLegacy pp raw = Ok pt) as Hl.
  { unfold openLegacy, raw. rewrite <-Hn, take_app_length, drop_app_length, length_app.
    rewrite (proj2 (Nat.ltb_ge _ _)) by lia. unfold gcm_open. by rewrite gcm_open_seal. }
  unfold OpenBytes. rewrite Hl.
  destruct (HasPrefix raw magicV3).
  - specialize (H3 eq_refl). destruct (openV3 pp _); [done|].
    destruct (HasPrefix raw magic); [|done].
    specialize (H2 eq_refl). by destruct (openV2 pp _).
  - destruct (HasPrefix raw magic); [|done].
    specialize (H2 eq_refl). by destruct (openV2 pp _).
Qed.

(** A toy instance of the primitives, to run the definitions on. *)
Definition toy_crypto : Crypto := {|
  argonKey := λ p s, p ++ s; pbkdf2_Key := λ p s, Some (s ++ p); Sum256 := λ p, rev p;
  gcm_Seal := λ k n p, p ++ k;
  gcm_Open := λ k n c, if bool_decide (drop (length c - length k) c = k)
                       then Some (take (length c - length k) c) else None;
|}.
Lemma toy_laws : @CryptoLaws toy_crypto.
Proof.
  split. intros k n p. simpl. rewrite length_app.
  replace (length p + length k - length k)%nat with (length p) by lia.
  by rewrite drop_app_length, bool_decide_true, take_app_length.
Qed.
Definition toy_draw : rand_draw := Rand (Some (replicate 16 x07)) (Some (replicate 12 x09)).
Lemma toy_draw_good : good_draw toy_draw.
Proof. split; by intros ? [= <-]. Qed.

Lemma seal_open_roundtrip_witness :
  (∃ s, @Seal toy_crypto true toy_draw [x61] [x62; x63] = Ok s ∧
        @Open toy_crypto [x61] s = Ok [x62; x63]) ∧
  @Open toy_crypto [x61] (Base64.encode (replicate 12 x00 ++ [x62; x63; x61])) = Ok [x62; x63].
Proof.
  split.
  - eexists. split; [vm_compute; reflexivity|].
    eapply (proj1 (@seal_open_roundtrip toy_crypto toy_laws [x61] [x62; x63]) true);
      [exact toy_draw_good | vm_compute; reflexivity].
  - apply (proj2 (@seal_open_roundtrip toy_crypto toy_laws [x61] [x62; x63])
             (replicate 12 x00)); [done | by vm_compute..].
Defined.

(** the re-seal sweep. Whatever happens, the value [ResealString] returns opens to
    the same plaintext as before; an error or a no-op returns it untouched; and one
    successful pass is enough: the next one finds nothing to change. *)
Theorem reseal_preserves_and_converges `{!Crypto, !CryptoLaws} fips rnd pp s s' ch err p :
  good_draw rnd → ResealString fips rnd pp s = (s', ch, err) → Open pp s = Ok p →
  Open pp s' = Ok p ∧ (ch = false → s' = s) ∧ (is_Some err → ch = false) ∧
  (err = None → ∀ rnd', ResealString fips rnd' pp s' = (s', false, None)).
Proof.
  intros Hg Hr Ho. destruct (ResealString_open _ _ _ _ _ _ _ _ Hr Ho) as [Ho' _].
  split; [done|]. revert Hr. unfold ResealString at 1.
  destruct (str_eqb s "") eqn:Hs.
  { intros [= <- <- <-]. split_and!; [done|done|]. intros _ r. unfold ResealString. by rewrite Hs. }
  destruct (Base64.decode s) as [raw|] eqn:Hd; [|by intros [= <- <- <-]].
  destruct (ResealBytes fips rnd pp raw) as [[out ch'] err'] eqn:Hr.
  assert (Open pp s = OpenBytes pp raw) as He by (unfold Open; by rewrite Hd).
  pose proof (ResealBytes_same _ _ _ _ _ _ _ Hr) as [[-> ->]|(-> & -> & Hn & pt & H1 & H2 & Hse)].
  - intros [= <- <- <-]. split_and!; [done|done|]. intros -> r.
    unfold ResealString. rewrite Hs, Hd. revert Hr. unfold ResealBytes.
    destruct (NeedsReseal fips raw); [|done]. simpl. rewrite <-He, Ho.
    destruct (SealBytes fips rnd pp p) as [sealed|]; [|intros [=]].
    destruct (OpenBytes pp sealed) as [check|]; [|intros [=]]. case_bool_decide; intros [=].
  - intros [= <- <- <-]. split_and!; [done|by intros []|]. intros _ r.
    unfold ResealString. destruct (str_eqb (Base64.encode out) "") eqn:Hempty; [done|].
    rewrite Base64.decode_encode. unfold ResealBytes.
    edestruct (OpenBytes_SealBytes fips rnd) as [_ ->]; [done|done|done].
Qed.

Lemma reseal_preserves_and_converges_witness :
  let s := Base64.encode (replicate 12 x00 ++ [x62; x63; x61]) in
  ∃ s', @ResealString toy_crypto false toy_draw [x61] s = (s', true, None) ∧ s' ≠ s ∧
        @Open toy_crypto [x61] s' = Ok [x62; x63].
Proof.
  intros s. eexists. split; [vm_compute; reflexivity|]. split; [by vm_compute|].
  eapply (proj1 (@reseal_preserves_and_converges toy_crypto toy_laws false toy_draw [x61] s
    _ true None [x62; x63] toy_draw_good ltac:(vm_compute; reflexivity)
    ltac:(vm_compute; reflexivity))).
Defined.

(** A box that does not encrypt: an instance of the interface to run clients on. *)
Definition plain_box : SecretBox := {|
  box_seal := λ _ k p, Ok (String "p" (String.string_of_list_byte p));
  box_open := λ k s, match s with String _ s' => Ok (String.list_byte_of_string s') | _ => Err ErrShort end;
  box_reseal := λ _ _ s, (s, false, None);
|}.
Lemma plain_box_laws : @SecretBoxLaws plain_box.
Proof.
  split; simpl.
  - intros r k p s _ [= <-]. by rewrite String.list_byte_of_string_of_list_byte.
  - by intros r k p s [= <-].
  - by intros r k s s' ch err p [= <- <- <-].
  - done.
  - by intros r k s s' ch err [= <- <- <-].
Qed.
