(* ===== verification/Recordings.v ===== *)
(** Session recordings at rest: [recorder/crypto.go], [recorder/asciicast.go], [rdp/crypto.go].

    The writer of a terminal recording line by line, the frames it seals, the two readers (the
    whole file at once, and a stream), and the encryption of a desktop recording once its
    session has ended. The key derivation and AES-GCM are those of [SecretBox]; the JSON text of
    an event is a parameter. *)
From S2P Require Import Prelude GoStrings SecretBox.
From Stdlib Require Import Strings.Byte.

(** * [binary.BigEndian] *)
Definition byte_Z (b : Byte.byte) : Z := Z.of_N (Byte.to_N b).
Definition Z_byte (z : Z) : Byte.byte := default x00 (Byte.of_N (Z.to_N (z mod 256))).
(** Writes the 32 low bits of the value: the conversion [uint32] of the callers. *)
Definition PutUint32 (v : Z) : bytes :=
  [Z_byte (v / 2 ^ 24); Z_byte (v / 2 ^ 16); Z_byte (v / 2 ^ 8); Z_byte v].
Definition Uint32 (b : bytes) : Z :=
  match b with
  | a :: b :: c :: d :: _ => byte_Z a * 2 ^ 24 + byte_Z b * 2 ^ 16 + byte_Z c * 2 ^ 8 + byte_Z d
  | _ => 0
  end.

(** * The framing *)
Definition recMagic : bytes := [xf1; x33; x7c; x01].
Definition recNonceLen : nat := 12.
Definition IsEncrypted (head : bytes) : bool := HasPrefix head recMagic.

Inductive rec_err := ErrEmptyKey | ErrNonce | ErrSealed | ErrIO | ErrFuel.

Section framing.
Context `{!Crypto}.

(** The sealing key is the hash of a key of any length. *)
Definition recGCM (key : bytes) : res rec_err bytes :=
  if (length key =? 0)%nat then Err ErrEmptyKey else Ok (Sum256 key).

Definition frame (nonce ct : bytes) : bytes := PutUint32 (Z.of_nat (length ct)) ++ nonce ++ ct.

(** [nonce] is what [rand.Read] gave. *)
Definition sealFrame (gcm : bytes) (nonce : option bytes) (plaintext : bytes) : res rec_err bytes :=
  match nonce with
  | None => Err ErrNonce
  | Some n => Ok (frame n (gcm_Seal gcm n plaintext))
  end.

(** The loop of [ReadFile]; every turn takes at least sixteen bytes off the body. *)
Fixpoint read_frames (fuel : nat) (gcm body out : bytes) : res rec_err bytes :=
  match fuel with
  | O => Err ErrFuel
  | S fuel =>
    if (length body <? 4 + recNonceLen)%nat then Ok out
    else
      let n := Z.to_nat (Uint32 (take 4 body)) in
      if (length body <? 4 + recNonceLen + n)%nat then Ok out
      else
        let nonce := take recNonceLen (drop 4 body) in
        let ct := take n (drop (4 + recNonceLen) body) in
        match gcm_Open gcm nonce ct with
        | None => Err ErrSealed
        | Some pt => read_frames fuel gcm (drop (4 + recNonceLen + n) body) (out ++ pt)
        end
  end.

(** [raw] is what [os.ReadFile] gave. *)
Definition ReadFile (raw : option bytes) (key : bytes) : res rec_err bytes :=
  match raw with
  | None => Err ErrIO
  | Some raw =>
    if negb (IsEncrypted raw) then Ok raw
    else
      gcm ← recGCM key;
      let body := drop (length recMagic) raw in
      read_frames (S (length body)) gcm body []
  end.

(** ** The stream

    [br] is what is left of the file behind the buffered reader, [buf] the plaintext of the
    current frame that has not been handed out. *)
Inductive read_end := EOF | ReadErr (e : rec_err).
Record frameReader := FrameReader { br : bytes; fr_gcm : bytes; buf : bytes; eof : bool }.

(** [io.ReadFull]: all [n] bytes, or none that the caller can use; and what is left. *)
Definition ReadFull (n : nat) (r : bytes) : option bytes * bytes :=
  (if (length r <? n)%nat then None else Some (take n r), drop n r).

Definition set_br (r : frameReader) (b : bytes) : frameReader :=
  FrameReader b (fr_gcm r) (buf r) (eof r).

Definition next (r : frameReader) : option read_end * frameReader :=
  match ReadFull 4 (br r) with
  | (None, rest) => (Some EOF, set_br r rest)
  | (Some lenBuf, rest) =>
    let n := Z.to_nat (Uint32 lenBuf) in
    match ReadFull (recNonceLen + n) rest with
    | (None, rest) => (Some EOF, set_br r rest)
    | (Some fr, rest) =>
      match gcm_Open (fr_gcm r) (take recNonceLen fr) (drop recNonceLen fr) with
      | None => (Some (ReadErr ErrSealed), set_br r rest)
      | Some pt => (None, FrameReader rest (fr_gcm r) (buf r ++ pt) (eof r))
      end
    end
  end.

(** The loop of [Read]: frames of no plaintext are skipped. *)
Fixpoint fill (fuel : nat) (r : frameReader) : option rec_err * frameReader :=
  match fuel with
  | O => (Some ErrFuel, r)
  | S fuel =>
    if (0 <? length (buf r))%nat || eof r then (None, r)
    else match next r with
         | (Some EOF, r') => (None, FrameReader (br r') (fr_gcm r') (buf r') true)
         | (Some (ReadErr e), r') => (Some e, r')
         | (None, r') => fill fuel r'
         end
  end.

(** [Read(p)] for a slice of [p] bytes. *)
Definition Read (p : nat) (r : frameReader) : (read_end + bytes) * frameReader :=
  match fill (S (S (length (br r)))) r with
  | (Some e, r') => (inl (ReadErr e), r')
  | (None, r') =>
    if (length (buf r') =? 0)%nat then (inl EOF, r')
    else (inr (take p (buf r')), FrameReader (br r') (fr_gcm r') (drop p (buf r')) (eof r'))
  end.

(** [io.ReadAll] with reads of [p] bytes: what was read, and how it ended. *)
Fixpoint ReadAll (fuel p : nat) (r : frameReader) (out : bytes) : bytes * read_end :=
  match fuel with
  | O => (out, ReadErr ErrFuel)
  | S fuel =>
    match Read p r with
    | (inl e, _) => (out, e)
    | (inr b, r') => ReadAll fuel p r' (out ++ b)
    end
  end.

(** A plain file is handed out as it is: [inl]. *)
Definition Open (file : option bytes) (key : bytes) : res rec_err (bytes + frameReader) :=
  match file with
  | None => Err ErrIO
  | Some f =>
    let head := take (length recMagic) f in
    if negb (IsEncrypted head) then Ok (inl f)
    else
      gcm ← recGCM key;
      Ok (inr (FrameReader (drop (length recMagic) f) gcm [] false))
  end.

(** What a reader of the opened file gets, to the end or to the error. *)
Definition drain (fuel p : nat) (o : bytes + frameReader) : bytes :=
  match o with inl f => f | inr r => (ReadAll fuel p r []).1 end.

(** * The writer of a terminal recording *)

(** What the environment gave for one line: the nonce, and how many bytes of the write reached
    the file. *)
Record line_draw := Draw { d_nonce : option bytes; d_wrote : nat }.

(** [file] is the content of the file and [hashed] what the hasher has absorbed. *)
Record Recorder := MkRecorder {
  file : bytes; hashed : bytes; start : Z; rec_path : string; rec_bytes : Z; closed : bool;
  r_gcm : option bytes;
}.

Definition newline : Byte.byte := x0a.

Definition writeLineLocked (d : line_draw) (line : bytes) (r : Recorder) : Recorder :=
  let line := line ++ [newline] in
  let hashed := hashed r ++ line in
  let put out :=
    let out := take (d_wrote d) out in
    MkRecorder (file r ++ out) hashed (start r) (rec_path r)
      (rec_bytes r + Z.of_nat (length out)) (closed r) (r_gcm r) in
  match r_gcm r with
  | Some gcm =>
    match sealFrame gcm (d_nonce d) line with
    | Ok fr => put fr
    | Err _ => MkRecorder (file r) hashed (start r) (rec_path r) (rec_bytes r) (closed r) (r_gcm r)
    end
  | None => put line
  end.

(** The JSON text of a header and of an event is a parameter: [json.Marshal] of the three
    fields. *)
Class CastJson := {
  marshal_header : Z → Z → Z → bytes;
  marshal_event : Z → Byte.byte → bytes → bytes;
}.
Context `{!CastJson}.

(** [opened] and [magic_written] say whether the directory and file could be made and the
    prefix be written. *)
Definition New (opened magic_written : bool) (d : line_draw) (path : string) (cols rows startUnix : Z)
    (key : bytes) : res rec_err Recorder :=
  if negb opened then Err ErrIO
  else
    let r := MkRecorder [] [] (startUnix * second) path 0 false None in
    r ← (if (0 <? length key)%nat then
           gcm ← recGCM key;
           if negb magic_written then Err ErrIO
           else Ok (MkRecorder recMagic [] (startUnix * second) path
                      (Z.of_nat (length recMagic)) false (Some gcm))
         else Ok r);
    Ok (writeLineLocked d (marshal_header cols rows startUnix) r).

Inductive event := Output (b : bytes) | Input (b : bytes) | Resize (text : bytes).
Definition event_kind (e : event) : Byte.byte :=
  match e with Output _ => x6f | Input _ => x69 | Resize _ => x72 end.
Definition event_data (e : event) : bytes :=
  match e with Output b => b | Input b => b | Resize t => t end.

(** At the instant [now]. *)
Definition do_event (now : Z) (d : line_draw) (e : event) (r : Recorder) : Recorder :=
  if closed r then r
  else writeLineLocked d (marshal_event (now - start r) (event_kind e) (event_data e)) r.

Record Result := MkResult { Path : string; SizeBytes : Z; DurationMS : Z; SHA256 : string }.

Definition Close (now : Z) (r : Recorder) : Result * Recorder :=
  if closed r then (MkResult (rec_path r) (rec_bytes r) 0 "", r)
  else (MkResult (rec_path r) (rec_bytes r) (Z.quot (now - start r) 1000000) (hex (Sum256 (hashed r))),
        MkRecorder (file r) (hashed r) (start r) (rec_path r) (rec_bytes r) true (r_gcm r)).

(** A session: the events in the order in which the relay goroutines get the lock. *)
Definition record_all (es : list (Z * line_draw * event)) (r : Recorder) : Recorder :=
  foldl (λ r '(now, d, e), do_event now d e r) r es.

(** * The encryption of a desktop recording ([rdp/crypto.go]) *)
Definition encChunkSize : nat := 64 * 1024.

(** Each turn of the copy loop: how many bytes [src.Read] gave (or that it failed), the nonce,
    and whether the buffered write went through. *)
Record chunk_draw := Chunk { c_read : option nat; c_nonce : option bytes; c_wrote : bool }.

(** What has been written once [src] is used up; a read gives at least one byte and at most a
    buffer. *)
Fixpoint encrypt_chunks (ds : list chunk_draw) (gcm src out : bytes) : res rec_err bytes :=
  if (length src =? 0)%nat then Ok out
  else
    match ds with
    | [] => Err ErrFuel
    | d :: ds =>
      match c_read d with
      | None => Err ErrIO
      | Some n =>
        let rn := Nat.min (Nat.max 1 n) encChunkSize in
        fr ← sealFrame gcm (c_nonce d) (take rn src);
        if negb (c_wrote d) then Err ErrIO
        else encrypt_chunks ds gcm (drop rn src) (out ++ fr)
      end
    end.

(** The files the rewrite touches: the recording, and the temporary file. *)
Record disk := Disk { d_rec : option bytes; d_tmp : option bytes }.
Record enc_env := EncEnv {
  e_open : bool; e_head : bool; e_create : bool; e_prefix : bool; e_flush : bool; e_close : bool;
  e_rename : bool; e_chunks : list chunk_draw;
}.

(** The states the disk goes through, and the outcome: a crash leaves one of them behind (of the
    temporary file, which nothing reads, only the empty and the full content are kept apart).
    [os.Remove] of the temporary file is the last step of a failed run. *)
Definition encryptFileAtRest (env : enc_env) (key : bytes) (d : disk) : list disk * res rec_err () :=
  if (length key =? 0)%nat then ([d], Ok tt)
  else
    match d_rec d with
    | None => ([d], Ok tt)
    | Some src =>
      if negb (e_open env) then ([d], Err ErrIO)
      else if (length src =? 0)%nat then ([d], Ok tt)
      else if negb (e_head env) then ([d], Err ErrIO)
      else if IsEncrypted (take (length recMagic) src) then ([d], Ok tt)
      else
        match recGCM key with
        | Err e => ([d], Err e)
        | Ok gcm =>
          if negb (e_create env) then ([d], Err ErrIO)
          else
            let d0 := Disk (Some src) (Some []) in
            let gone := Disk (Some src) None in
            if negb (e_prefix env) then ([d; d0; gone], Err ErrIO)
            else
              match encrypt_chunks (e_chunks env) gcm src recMagic with
              | Err e => ([d; d0; gone], Err e)
              | Ok content =>
                let d1 := Disk (Some src) (Some content) in
                if negb (e_flush env) then ([d; d0; gone], Err ErrIO)
                else if negb (e_close env) then ([d; d0; d1; gone], Err ErrIO)
                else if negb (e_rename env) then ([d; d0; d1; gone], Err ErrIO)
                else ([d; d0; d1; Disk (Some content) None], Ok tt)
              end
        end
    end.
End framing.

(** * Lemmas on the framing *)
Lemma byte_Z_byte z : byte_Z (Z_byte z) = z mod 256.
Proof.
  unfold byte_Z, Z_byte. pose proof (Z.mod_pos_bound z 256 ltac:(lia)) as Hb.
  destruct (Byte.of_N (Z.to_N (z mod 256))) as [b|] eqn:E.
  - apply Byte.to_of_N in E. simpl. rewrite E. lia.
  - apply Byte.of_N_None_iff in E. lia.
Qed.

Lemma Uint32_Put v : Uint32 (PutUint32 v) = v mod 2 ^ 32.
Proof.
  cbn [PutUint32 Uint32]. rewrite !byte_Z_byte. Z.to_euclidean_division_equations. lia.
Qed.

Lemma byte_Z_bound b : 0 ≤ byte_Z b < 256.
Proof. unfold byte_Z. pose proof (Byte.to_N_bounded b). lia. Qed.

Lemma Uint32_nonneg b : 0 ≤ Uint32 b.
Proof.
  destruct b as [|a [|b [|c [|d l]]]]; simpl; try lia.
  pose proof (byte_Z_bound a). pose proof (byte_Z_bound b). pose proof (byte_Z_bound c).
  pose proof (byte_Z_bound d). lia.
Qed.

Section laws.
Context `{!Crypto}.

(** The first frame of a body: [None] when it is not all there, and otherwise what it opens to
    (or that it does not) and what follows it. *)
Definition split_frame (gcm body : bytes) : option (option bytes * bytes) :=
  let n := Z.to_nat (Uint32 (take 4 body)) in
  if (length body <? 4 + recNonceLen + n)%nat then None
  else Some (gcm_Open gcm (take recNonceLen (drop 4 body)) (take n (drop (4 + recNonceLen) body)),
             drop (4 + recNonceLen + n) body).

(** The specification of both readers: the plaintexts of a body's frames, and whether a frame
    that does not open ends it. *)
Inductive deframes (gcm : bytes) : bytes → list bytes → option rec_err → Prop :=
| deframes_end body : split_frame gcm body = None → deframes gcm body [] None
| deframes_bad body rest :
    split_frame gcm body = Some (None, rest) → deframes gcm body [] (Some ErrSealed)
| deframes_step body pt rest pts e :
    split_frame gcm body = Some (Some pt, rest) → deframes gcm rest pts e →
    deframes gcm body (pt :: pts) e.

Lemma split_frame_shorter gcm body o rest :
  split_frame gcm body = Some (o, rest) → (length rest + 16 ≤ length body)%nat.
Proof.
  unfold split_frame, recNonceLen. case_match eqn:E; [done|]. apply Nat.ltb_ge in E. intros [= _ <-].
  rewrite length_drop. lia.
Qed.

Lemma deframes_total gcm body : ∃ pts e, deframes gcm body pts e.
Proof.
  induction (Nat.lt_wf_0_projected (@length Byte.byte) body) as [body _ IH].
  destruct (split_frame gcm body) as [[[pt|] rest]|] eqn:E; [|eexists _, _; by econstructor..].
  destruct (IH rest) as (pts & e & Hd); [apply split_frame_shorter in E; lia|].
  eexists _, _. by econstructor.
Qed.

Lemma read_frames_split gcm fuel body out : read_frames (S fuel) gcm body out =
  match split_frame gcm body with
  | None => Ok out
  | Some (None, _) => Err ErrSealed
  | Some (Some pt, rest) => read_frames fuel gcm rest (out ++ pt)
  end.
Proof.
  cbn [read_frames]. unfold split_frame.
  destruct (length body <? 4 + recNonceLen)%nat eqn:E1.
  - rewrite (proj2 (Nat.ltb_lt _ _)); [done|]. apply Nat.ltb_lt in E1. lia.
  - case_match; [done|]. by destruct (gcm_Open _ _ _).
Qed.

(** [ReadFile] computes it, and its loop ends. *)
Lemma read_frames_spec gcm body pts e fuel out :
  deframes gcm body pts e → (length body < fuel)%nat →
  read_frames fuel gcm body out =
    match e with None => Ok (out ++ concat pts) | Some e => Err e end.
Proof.
  intros Hd. revert fuel out.
  induction Hd as [body E|body rest E|body pt rest pts e E Hd IH]; intros fuel out Hf;
    (destruct fuel as [|fuel]; [lia|]); rewrite read_frames_split, E; [by rewrite app_nil_r|done|].
  apply split_frame_shorter in E. rewrite IH by lia. by rewrite <- app_assoc.
Qed.

Lemma next_split b gcm u : ∃ b', next (FrameReader b gcm u false) =
  match split_frame gcm b with
  | None => (Some EOF, FrameReader b' gcm u false)
  | Some (None, rest) => (Some (ReadErr ErrSealed), FrameReader rest gcm u false)
  | Some (Some pt, rest) => (None, FrameReader rest gcm (u ++ pt) false)
  end.
Proof.
  unfold split_frame, next, ReadFull, set_br. simpl br. simpl fr_gcm. simpl buf. simpl eof.
  set (n := Z.to_nat (Uint32 (take 4 b))). cbv zeta. rewrite length_drop.
  destruct (length b <? 4)%nat eqn:E4.
  { apply Nat.ltb_lt in E4. rewrite (proj2 (Nat.ltb_lt (length b) _)) by lia. by eexists. }
  apply Nat.ltb_ge in E4. fold n.
  destruct (length b <? 4 + recNonceLen + n)%nat eqn:E.
  { apply Nat.ltb_lt in E. rewrite (proj2 (Nat.ltb_lt (length b - 4) _)) by lia. by eexists. }
  apply Nat.ltb_ge in E. rewrite (proj2 (Nat.ltb_ge (length b - 4) _)) by lia. exists [].
  rewrite take_take, Nat.min_l by lia.
  assert (drop recNonceLen (take (recNonceLen + n) (drop 4 b)) =
          take n (drop (4 + recNonceLen) b)) as ->.
  { rewrite skipn_firstn_comm, drop_drop. f_equal; lia. }
  rewrite drop_drop. replace (4 + (recNonceLen + n))%nat with (4 + recNonceLen + n)%nat by lia.
  by destruct (gcm_Open _ _ _).
Qed.

(** [fill] stops at the first frame with some plaintext. *)
Lemma fill_spec gcm b pts e fuel : deframes gcm b pts e → (length b < fuel)%nat →
  (concat pts = [] ∧ ∃ b' eo,
     fill fuel (FrameReader b gcm [] false) = (e, FrameReader b' gcm [] eo)) ∨
  (∃ b' pt pts', pt ≠ [] ∧ concat pts = pt ++ concat pts' ∧ deframes gcm b' pts' e ∧
     fill fuel (FrameReader b gcm [] false) = (None, FrameReader b' gcm pt false)).
Proof.
  intros Hd. revert fuel.
  induction Hd as [b E|b rest E|b pt rest pts e E Hd IH]; intros fuel Hf;
    (destruct fuel as [|fuel]; [lia|]); cbn [fill]; simpl length; simpl orb; simpl Nat.ltb;
    destruct (next_split b gcm []) as [b' ->]; rewrite E; cbn [br fr_gcm buf eof].
  - left. split; [done|]. by eexists _, _.
  - left. split; [done|]. by eexists _, _.
  - apply split_frame_shorter in E. destruct pt as [|x pt]; simpl app.
    + destruct (IH fuel) as [(Hc & Hl)|Hr]; [lia| |by right]. by left.
    + right. exists rest, (x :: pt), pts. split_and!; [done..|].
      destruct fuel as [|fuel]; [lia|]. done.
Qed.

Lemma ReadAll_spec p fuel : ∀ gcm b u pts e out,
  (0 < p)%nat → deframes gcm b pts e → (length (u ++ concat pts) < fuel)%nat →
  ReadAll fuel p (FrameReader b gcm u false) out =
    (out ++ u ++ concat pts, match e with None => EOF | Some e => ReadErr e end).
Proof.
  induction fuel as [|fuel IH]; intros gcm b u pts e out Hp Hd Hf; [lia|]. cbn [ReadAll].
  assert (∀ b0 v pts0, deframes gcm b0 pts0 e → v ≠ [] → (length (v ++ concat pts0) ≤ fuel)%nat →
    ReadAll fuel p (FrameReader b0 gcm (drop p v) false) (out ++ take p v) =
    (out ++ v ++ concat pts0, match e with None => EOF | Some e => ReadErr e end)) as Hstep.
  { intros b0 v pts0 Hd0 Hv Hl. rewrite (IH _ _ _ pts0 e) by
      (done || (rewrite length_app, length_drop in *; destruct v; [done|]; simpl in *; lia)).
    rewrite <- !app_assoc. f_equal. f_equal. by rewrite (app_assoc (take p v)), take_drop. }
  unfold Read. destruct u as [|x u].
  - simpl app in *. destruct (fill_spec gcm b pts e (S (S (length b))) Hd ltac:(lia))
      as [(Hc & b' & eo & Hfill)|(b' & pt & pts' & Hne & Hc & Hd' & Hfill)];
      change (br (FrameReader b gcm [] false)) with b; rewrite Hfill.
    + rewrite Hc, !app_nil_r. destruct e as [e|]; done.
    + cbn [buf br fr_gcm eof]. destruct pt as [|x pt]; [done|]. simpl Nat.eqb. cbv iota.
      rewrite Hc in *. by apply Hstep; [..|lia].
  - simpl Nat.eqb. cbn [fill buf eof br fr_gcm]. simpl orb. cbv iota. simpl Nat.eqb. cbv iota.
    apply (Hstep b (x :: u) pts); [done..|lia].
Qed.

(** * Frames the writers make *)

(** A nonce and a plaintext, and the frame they make under a key. *)
Definition enc_frame (gcm : bytes) (np : bytes * bytes) : bytes := frame np.1 (gcm_Seal gcm np.1 np.2).
Definition wf_frame (gcm : bytes) (np : bytes * bytes) : Prop :=
  length np.1 = recNonceLen ∧ Z.of_nat (length (gcm_Seal gcm np.1 np.2)) < 2 ^ 32.

Lemma length_frame n ct : length (frame n ct) = (4 + length n + length ct)%nat.
Proof. unfold frame. rewrite !length_app. simpl. lia. Qed.

Context `{!CryptoLaws}.

Lemma split_enc_frame gcm np rest : wf_frame gcm np →
  split_frame gcm (enc_frame gcm np ++ rest) = Some (Some np.2, rest).
Proof.
  intros [Hn Hl]. unfold split_frame, enc_frame, frame. rewrite <- !app_assoc.
  set (ct := gcm_Seal gcm np.1 np.2) in *.
  rewrite (take_app_length' (PutUint32 _)) by done.
  rewrite Uint32_Put, Z.mod_small, Nat2Z.id by lia.
  rewrite !length_app. change (length (PutUint32 _)) with 4%nat. rewrite Hn.
  rewrite (proj2 (Nat.ltb_ge _ _)) by lia.
  rewrite (drop_app_length' (PutUint32 _)), (take_app_length' np.1) by done.
  rewrite <- !drop_drop, (drop_app_length' (PutUint32 _)), (drop_app_length' np.1) by done.
  rewrite (take_app_length' ct), (drop_app_length' ct) by done. unfold ct. by rewrite gcm_open_seal.
Qed.

Lemma split_short gcm np c : wf_frame gcm np → (c < length (enc_frame gcm np))%nat →
  split_frame gcm (take c (enc_frame gcm np)) = None.
Proof.
  intros [Hn Hl] Hc. unfold split_frame.
  destruct (length (take c (enc_frame gcm np)) <? _)%nat eqn:E; [done|]. apply Nat.ltb_ge in E.
  exfalso. revert E. rewrite length_take, Nat.min_l by lia.
  unfold recNonceLen, enc_frame in *. rewrite length_frame in Hc.
  intros E. rewrite take_take, Nat.min_l in E by lia. unfold frame in E.
  rewrite (take_app_length' (PutUint32 _)) in E by done.
  rewrite Uint32_Put, Z.mod_small, Nat2Z.id in E by lia.
  unfold recNonceLen in Hn. lia.
Qed.

(** How many of the frames are whole within the first [c] bytes. *)
Fixpoint whole (c : nat) (frames : list bytes) : nat :=
  match frames with
  | [] => 0
  | f :: frames => if (length f <=? c)%nat then S (whole (c - length f) frames) else 0
  end.

Lemma deframes_prefix gcm nps c : Forall (wf_frame gcm) nps →
  deframes gcm (take c (concat (enc_frame gcm <$> nps)))
    (take (whole c (enc_frame gcm <$> nps)) (snd <$> nps)) None.
Proof.
  intros Hw. revert c. induction Hw as [|np nps Hnp Hw IH]; intros c.
  { simpl. rewrite take_nil. by constructor. }
  rewrite !fmap_cons. cbn [whole concat]. destruct (length (enc_frame gcm np) <=? c)%nat eqn:E.
  - apply Nat.leb_le in E. rewrite take_app_ge by done. cbn [take].
    econstructor; [by apply split_enc_frame|]. apply IH.
  - apply Nat.leb_gt in E. rewrite take_app_le by lia. constructor. by apply split_short.
Qed.

Lemma deframes_app gcm nps tail pts e : Forall (wf_frame gcm) nps → deframes gcm tail pts e →
  deframes gcm (concat (enc_frame gcm <$> nps) ++ tail) ((snd <$> nps) ++ pts) e.
Proof.
  intros Hw Hd. induction Hw as [|np nps Hnp Hw IH]; [done|]. rewrite !fmap_cons. cbn [concat].
  rewrite <- app_assoc. econstructor; [by apply split_enc_frame|]. apply IH.
Qed.

(** A frame cut behind its nonce takes the missing bytes of its ciphertext from what follows. *)
Lemma split_torn gcm np t rest : wf_frame gcm np →
  let fr := enc_frame gcm np in
  (16 ≤ t < length fr)%nat → (length fr ≤ t + length rest)%nat →
  split_frame gcm (take t fr ++ rest) =
    Some (gcm_Open gcm np.1 (drop 16 (take t fr) ++ take (length fr - t) rest),
          drop (length fr - t) rest).
Proof.
  intros [Hn Hl] fr Ht Hr. unfold recNonceLen in Hn.
  set (ct := gcm_Seal gcm np.1 np.2) in *. set (hd := PutUint32 (Z.of_nat (length ct))).
  assert (take t fr = hd ++ np.1 ++ drop 16 (take t fr)) as Hsplit.
  { rewrite app_assoc. rewrite <- (take_drop 16 (take t fr)) at 1. f_equal.
    rewrite take_take, Nat.min_l by lia. unfold fr, enc_frame, frame. fold ct hd.
    rewrite app_assoc. apply take_app_length'. rewrite length_app, Hn. done. }
  assert (length fr = 16 + length ct)%nat as Hfr.
  { unfold fr, enc_frame. rewrite length_frame, Hn. done. }
  assert (length (drop 16 (take t fr)) = t - 16)%nat as Hd.
  { rewrite length_drop, length_take. lia. }
  rewrite Hsplit at 1. set (part := drop 16 (take t fr)) in *. clearbody part. clearbody fr.
  assert (length hd = 4%nat ∧ Z.to_nat (Uint32 hd) = length ct) as [Hh Hu].
  { split; [done|]. unfold hd. by rewrite Uint32_Put, Z.mod_small, Nat2Z.id by lia. }
  clearbody hd. rewrite <- !app_assoc. unfold split_frame, recNonceLen.
  rewrite (take_app_length' hd) by done. rewrite Hu, !length_app, Hn, Hd, Hh.
  rewrite (proj2 (Nat.ltb_ge _ _)) by lia. f_equal. f_equal.
  - f_equal.
    + by rewrite (drop_app_length' hd), (take_app_length' np.1) by done.
    + rewrite <- drop_drop, (drop_app_length' hd), (drop_app_length' np.1) by done.
      rewrite take_app_ge by lia. do 2 f_equal. lia.
  - rewrite <- !drop_drop, (drop_app_length' hd), (drop_app_length' np.1) by done.
    rewrite drop_app_ge by lia. f_equal. lia.
Qed.

Lemma whole_all frames c : (length (concat frames) ≤ c)%nat → whole c frames = length frames.
Proof.
  revert c. induction frames as [|f frames IH]; intros c; simpl; [done|]. rewrite length_app. intros Hc.
  rewrite (proj2 (Nat.leb_le _ _)) by lia. by rewrite IH by lia.
Qed.

Lemma take_whole frames c : (length (concat (take (whole c frames) frames)) ≤ c)%nat.
Proof.
  revert c. induction frames as [|f frames IH]; intros c; simpl; [lia|].
  destruct (length f <=? c)%nat eqn:E; simpl; [|lia]. apply Nat.leb_le in E.
  rewrite length_app. specialize (IH (c - length f)%nat). lia.
Qed.

Lemma IsEncrypted_magic rest : IsEncrypted (recMagic ++ rest) = true.
Proof. unfold IsEncrypted, HasPrefix. by rewrite take_app_length, bool_decide_true. Qed.

Lemma ReadFile_magic body key : key ≠ [] →
  ReadFile (Some (recMagic ++ body)) key = read_frames (S (length body)) (Sum256 key) body [].
Proof.
  intros Hk. unfold ReadFile. rewrite IsEncrypted_magic. simpl negb. cbv iota.
  unfold recGCM. destruct key as [|b key]; [done|]. done.
Qed.

(** Cut anywhere behind the magic prefix, a file of such frames reads as the plaintexts of the
    frames that are whole. *)
Lemma ReadFile_prefix nps key c : key ≠ [] → Forall (wf_frame (Sum256 key)) nps →
  (length recMagic ≤ c)%nat →
  ReadFile (Some (take c (recMagic ++ concat (enc_frame (Sum256 key) <$> nps)))) key =
  Ok (concat (take (whole (c - length recMagic) (enc_frame (Sum256 key) <$> nps)) (snd <$> nps))).
Proof.
  intros Hk Hw Hc. rewrite take_app_ge by done. rewrite ReadFile_magic by done.
  by rewrite (read_frames_spec _ _ _ _ _ _ (deframes_prefix _ _ _ Hw)) by lia.
Qed.

Lemma ReadFile_frames nps key : key ≠ [] → Forall (wf_frame (Sum256 key)) nps →
  ReadFile (Some (recMagic ++ concat (enc_frame (Sum256 key) <$> nps))) key = Ok (concat (snd <$> nps)).
Proof.
  intros Hk Hw. set (f := recMagic ++ _).
  assert (f = take (length f) f) as -> by (by rewrite take_ge). unfold f at 2.
  rewrite ReadFile_prefix; [|done|done|unfold f; rewrite length_app; lia].
  rewrite whole_all by (unfold f; rewrite length_app; lia). rewrite length_fmap.
  by rewrite take_ge by (by rewrite length_fmap).
Qed.
End laws.

(** * What the writer leaves on disk *)

(** Go's JSON of a struct starts with a brace. *)
Class CastJsonLaws `{!CastJson} : Prop := {
  header_brace : ∀ c r t, ∃ rest, marshal_header c r t = x7b :: rest;
}.

Section writer.
Context `{!Crypto, !CryptoLaws, !CastJson}.

(** The lines of a session, with what was drawn for each. *)
Definition event_line (t0 : Z) (ev : Z * line_draw * event) : line_draw * bytes :=
  (ev.1.2, marshal_event (ev.1.1 - t0 * second) (event_kind ev.2) (event_data ev.2) ++ [newline]).
Definition session_lines (cols rows t0 : Z) (d0 : line_draw) (es : list (Z * line_draw * event)) :
    list (line_draw * bytes) :=
  (d0, marshal_header cols rows t0 ++ [newline]) :: (event_line t0 <$> es).

(** The frames of the lines for which there was a nonce. *)
Definition sealed (ls : list (line_draw * bytes)) : list (bytes * bytes) :=
  omap (λ l, (., l.2) <$> d_nonce l.1) ls.

(** The disk took the whole line, and a sealed line has a 12-byte nonce and less than 4 GiB. *)
Definition line_ok (gcm : option bytes) (l : line_draw * bytes) : Prop :=
  match gcm with
  | None => (length l.2 ≤ d_wrote l.1)%nat
  | Some g => ∀ n, d_nonce l.1 = Some n →
      wf_frame g (n, l.2) ∧ (length (enc_frame g (n, l.2)) ≤ d_wrote l.1)%nat
  end.

Definition line_out (gcm : option bytes) (l : line_draw * bytes) : bytes :=
  match gcm with
  | None => l.2
  | Some g => from_option (λ n, enc_frame g (n, l.2)) [] (d_nonce l.1)
  end.

Lemma writeLine_ok d line r : line_ok (r_gcm r) (d, line ++ [newline]) →
  writeLineLocked d line r =
    let out := line_out (r_gcm r) (d, line ++ [newline]) in
    MkRecorder (file r ++ out) (hashed r ++ line ++ [newline]) (start r) (rec_path r)
      (rec_bytes r + Z.of_nat (length out)) (closed r) (r_gcm r).
Proof.
  unfold writeLineLocked, line_ok, line_out, sealFrame. destruct (r_gcm r) as [g|] eqn:Hg; simpl.
  - destruct (d_nonce d) as [n|]; simpl.
    + intros H'. destruct (H' n eq_refl) as [_ Hl]. by rewrite take_ge.
    + intros _. by rewrite app_nil_r, Z.add_0_r.
  - intros Hl. by rewrite take_ge.
Qed.

Lemma record_all_ok t0 es r : closed r = false → start r = t0 * second →
  Forall (line_ok (r_gcm r)) (event_line t0 <$> es) →
  record_all es r =
    let out := concat (line_out (r_gcm r) <$> (event_line t0 <$> es)) in
    MkRecorder (file r ++ out) (hashed r ++ concat (snd <$> (event_line t0 <$> es))) (start r)
      (rec_path r) (rec_bytes r + Z.of_nat (length out)) (closed r) (r_gcm r).
Proof.
  intros Hc Hs. revert r Hc Hs. induction es as [|[[now d] e] es IH]; intros r Hc Hs Hok.
  - simpl. rewrite !app_nil_r, Z.add_0_r. by destruct r.
  - rewrite !fmap_cons in *. apply Forall_cons in Hok as [Hl Hok].
    change (record_all ((now, d, e) :: es) r) with (record_all es (do_event now d e r)).
    unfold do_event. rewrite Hc, Hs. rewrite writeLine_ok by done.
    rewrite IH by (simpl; done). cbv zeta. cbn [file hashed start rec_path rec_bytes closed r_gcm].
    unfold event_line at 2 4 6 8. cbn [concat fst snd]. rewrite !length_app, <- !app_assoc.
    f_equal; try done. lia.
Qed.

(** The state in which a session ends, on a disk that takes every line. *)
Lemma session_state cols rows t0 d0 es path key r0 :
  New true true d0 path cols rows t0 key = Ok r0 →
  let gcm := if (0 <? length key)%nat then Some (Sum256 key) else None in
  let ls := session_lines cols rows t0 d0 es in
  Forall (line_ok gcm) ls →
  record_all es r0 =
    let out := (if gcm is Some _ then recMagic else []) ++ concat (line_out gcm <$> ls) in
    MkRecorder out (concat (snd <$> ls)) (t0 * second) path (Z.of_nat (length out)) false gcm.
Proof.
  intros Hn gcm ls. unfold ls, session_lines. rewrite Forall_cons. intros [Hl Hok].
  assert (r0 = writeLineLocked d0 (marshal_header cols rows t0)
    (MkRecorder (if gcm is Some _ then recMagic else []) [] (t0 * second) path
       (Z.of_nat (length (if gcm is Some _ then recMagic else []))) false gcm)) as ->.
  { revert Hn. unfold New, recGCM, gcm. simpl negb. cbv iota.
    destruct key as [|b key]; simpl; by intros [= <-]. }
  rewrite writeLine_ok by done. rewrite record_all_ok with (t0 := t0) by done.
  cbv zeta. cbn [file hashed start rec_path rec_bytes closed r_gcm].
  rewrite !fmap_cons. cbn [concat snd]. rewrite <- !app_assoc. f_equal.
  rewrite !length_app. lia.
Qed.

Lemma line_out_sealed g ls : concat (line_out (Some g) <$> ls) = concat (enc_frame g <$> sealed ls).
Proof.
  induction ls as [|[d l] ls IH]; [done|]. rewrite fmap_cons. cbn [concat]. rewrite IH.
  unfold sealed. simpl. by destruct (d_nonce d).
Qed.

Lemma sealed_all ls : Forall (λ l, is_Some (d_nonce l.1)) ls → concat (snd <$> sealed ls) = concat (snd <$> ls).
Proof.
  induction 1 as [|[d l] ls [n Hd] Hs IH]; [done|].
  simpl in Hd. rewrite fmap_cons. cbn [concat]. rewrite <- IH. unfold sealed. simpl. by rewrite Hd.
Qed.

Lemma sealed_wf g ls : Forall (line_ok (Some g)) ls → Forall (wf_frame g) (sealed ls).
Proof.
  unfold sealed. induction 1 as [|[d l] ls Hl Hls IH]; simpl; [constructor|].
  simpl in Hl. destruct (d_nonce d) as [n|]; simpl; [|done]. constructor; [|done]. by apply Hl.
Qed.
End writer.

(** * What a stream holds *)
Section stream.
Context `{!Crypto}.

Fixpoint frames_text (fuel : nat) (gcm body : bytes) : bytes :=
  match fuel with
  | O => []
  | S fuel => match split_frame gcm body with
              | Some (Some pt, rest) => pt ++ frames_text fuel gcm rest
              | _ => []
              end
  end.
(** The whole text a reader gets from an opened file, to the end or to the error. *)
Definition stream_text (o : bytes + frameReader) : bytes :=
  match o with
  | inl f => f
  | inr r => buf r ++ frames_text (S (length (br r))) (fr_gcm r) (br r)
  end.

Lemma frames_text_spec gcm body pts e fuel :
  deframes gcm body pts e → (length body < fuel)%nat → frames_text fuel gcm body = concat pts.
Proof.
  intros Hd. revert fuel. induction Hd as [body E|body rest E|body pt rest pts e E Hd IH];
    intros fuel Hf; (destruct fuel as [|fuel]; [lia|]); cbn [frames_text]; rewrite E; [done..|].
  apply split_frame_shorter in E. by rewrite IH by lia.
Qed.

(** With reads of any size, enough of them. *)
Lemma drain_stream_text f key o p fuel : Open (Some f) key = Ok o →
  (0 < p)%nat → (length (stream_text o) < fuel)%nat → drain fuel p o = stream_text o.
Proof.
  unfold Open. destruct (negb _); [by intros [= <-]|].
  destruct (recGCM key) as [gcm|e]; [|done]. unfold mbind, res_bind. intros [= <-] Hp.
  destruct (deframes_total gcm (drop (length recMagic) f)) as (pts & e & Hd).
  unfold stream_text, drain. cbn [buf br fr_gcm app].
  rewrite (frames_text_spec _ _ _ _ _ Hd) by apply Nat.lt_succ_diag_r. intros Hf.
  exact (f_equal fst (ReadAll_spec p fuel gcm _ [] pts e [] Hp Hd Hf)).
Qed.
End stream.

(** * Reading a session back *)
Section readback.
Context `{!Crypto, !CryptoLaws, !CastJson, !CastJsonLaws}.

(** On a disk that takes every line, with a nonce for each, a session reads back in full, with a
    key and without. *)
Lemma session_text cols rows t0 d0 es path key r0 :
  New true true d0 path cols rows t0 key = Ok r0 →
  let gcm := if (0 <? length key)%nat then Some (Sum256 key) else None in
  let ls := session_lines cols rows t0 d0 es in
  Forall (line_ok gcm) ls → Forall (λ l, is_Some (d_nonce l.1)) ls →
  ReadFile (Some (file (record_all es r0))) key = Ok (concat (snd <$> ls)).
Proof.
  intros Hn gcm ls Hok Hs. rewrite (session_state _ _ _ _ _ _ _ _ Hn Hok). fold gcm ls.
  cbv zeta. cbn [file]. revert Hok. destruct key as [|k key];
    [change gcm with (@None bytes)|change gcm with (Some (Sum256 (k :: key)))]; intros Hok.
  - unfold ReadFile. replace (concat (line_out None <$> ls)) with (concat (snd <$> ls)) by done.
    unfold ls, session_lines. rewrite fmap_cons. cbn [concat snd].
    destruct (header_brace cols rows t0) as [rest ->]. done.
  - rewrite line_out_sealed, ReadFile_frames by (done || by apply sealed_wf). by rewrite sealed_all.
Qed.

Lemma open_drain f key text p fuel : ReadFile (Some f) key = Ok text →
  (0 < p)%nat → (length text < fuel)%nat →
  ∃ o, Open (Some f) key = Ok o ∧ drain fuel p o = text.
Proof.
  unfold Open, ReadFile.
  assert (IsEncrypted (take (length recMagic) f) = IsEncrypted f) as ->.
  { unfold IsEncrypted, HasPrefix. by rewrite take_take, Nat.min_id. }
  destruct (IsEncrypted f); simpl negb; cbv iota.
  2: { intros [= <-] _ _. by eexists. }
  destruct (recGCM key) as [gcm|e]; [|done]. unfold mbind, res_bind. intros Hr Hp Hf.
  destruct (deframes_total gcm (drop (length recMagic) f)) as (pts & e & Hd).
  rewrite (read_frames_spec _ _ _ _ _ _ Hd) in Hr by lia.
  destruct e as [e|]; [done|]. injection Hr as <-.
  eexists. split; [reflexivity|]. unfold drain.
  by rewrite (ReadAll_spec p fuel gcm _ [] pts None [] Hp Hd Hf).
Qed.
End readback.

(** * The chunks of a desktop recording *)
Section chunks.
Context `{!Crypto, !CryptoLaws}.

(** The nonce has 12 bytes; a chunk of 64 KiB seals to less than 4 GiB. *)
Definition chunk_ok (gcm : bytes) (d : chunk_draw) : Prop :=
  ∀ n pt, c_nonce d = Some n → (length pt ≤ encChunkSize)%nat → wf_frame gcm (n, pt).

Lemma encrypt_chunks_ok ds gcm : ∀ src out content, Forall (chunk_ok gcm) ds →
  encrypt_chunks ds gcm src out = Ok content →
  ∃ nps, Forall (wf_frame gcm) nps ∧ concat (snd <$> nps) = src ∧
    content = out ++ concat (enc_frame gcm <$> nps).
Proof.
  induction ds as [|d ds IH]; intros src out content Hok; cbn [encrypt_chunks].
  { destruct src; [|done]. intros [= <-]. exists []. simpl. by rewrite app_nil_r. }
  apply Forall_cons in Hok as [Hd Hok].
  destruct src as [|b src]; [intros [= <-]; exists []; simpl; by rewrite app_nil_r|].
  simpl Nat.eqb. cbv iota. destruct (c_read d) as [m|]; [|done]. set (rn := Nat.min _ _).
  unfold sealFrame. destruct (c_nonce d) as [n|] eqn:Hn; [|done]. simpl.
  destruct (c_wrote d); [|done]. simpl. intros Hc. apply IH in Hc as (nps & Hw & Hs & ->); [|done].
  exists ((n, take rn (b :: src)) :: nps). split_and!.
  - constructor; [|done]. apply Hd; [done|]. rewrite length_take. unfold rn. lia.
  - rewrite fmap_cons. cbn [concat snd]. rewrite Hs. apply take_drop.
  - rewrite fmap_cons. cbn [concat]. by rewrite <- app_assoc.
Qed.

(** With a nonce for every chunk and a disk that reads and writes, the copy ends. *)
Lemma encrypt_chunks_total ds gcm : ∀ src out, (length src ≤ length ds)%nat →
  Forall (λ d, is_Some (c_read d) ∧ is_Some (c_nonce d) ∧ c_wrote d = true) ds →
  is_ok (encrypt_chunks ds gcm src out) = true.
Proof.
  induction ds as [|d ds IH]; intros src out Hl Hok; cbn [encrypt_chunks].
  { by destruct src; [|simpl in Hl; lia]. }
  apply Forall_cons in Hok as [([m Hm] & [n Hn] & Hwr) Hok].
  destruct src as [|b src]; [done|]. simpl Nat.eqb. cbv iota.
  rewrite Hm, Hn, Hwr. simpl mbind. simpl negb. cbv iota. apply IH; [|done].
  rewrite length_drop. simpl in *. unfold encChunkSize. lia.
Qed.
End chunks.

(** * The properties *)

(** a recording written with a key, whatever was typed and however the session ended, is never
    lost but for its last line: the file cut at any byte behind its magic prefix reads as the
    lines whose frames are whole; complete, it reads as every line that was sealed, and when none
    had to be dropped the hash and the size of the result are those of what is read and of the
    file. *)
Theorem recording_survives_crash `{!Crypto, !CryptoLaws, !CastJson} cols rows t0 d0 es path key r0 :
  key ≠ [] → New true true d0 path cols rows t0 key = Ok r0 →
  let ls := session_lines cols rows t0 d0 es in
  Forall (line_ok (Some (Sum256 key))) ls →
  let r := record_all es r0 in
  (∀ c, (4 ≤ c)%nat →
     let frames := enc_frame (Sum256 key) <$> sealed ls in
     let j := whole (c - 4) frames in
     ReadFile (Some (take c (file r))) key = Ok (concat (take j (snd <$> sealed ls))) ∧
     (length (concat (take j frames)) ≤ c - 4)%nat) ∧
  ReadFile (Some (file r)) key = Ok (concat (snd <$> sealed ls)) ∧
  (Forall (λ l, is_Some (d_nonce l.1)) ls → ∀ now text,
     ReadFile (Some (file r)) key = Ok text →
     SHA256 (Close now r).1 = hex (Sum256 text) ∧
     SizeBytes (Close now r).1 = Z.of_nat (length (file r))).
Proof.
  intros Hk Hn ls Hok r.
  assert ((if (0 <? length key)%nat then Some (Sum256 key) else None) = Some (Sum256 key)) as Hg
    by (by destruct key).
  pose proof (session_state cols rows t0 d0 es path key r0 Hn) as Hr. rewrite Hg in Hr.
  specialize (Hr Hok). fold ls r in Hr. cbv zeta in Hr. rewrite line_out_sealed in Hr.
  pose proof (sealed_wf _ _ Hok) as Hw. rewrite Hr. cbn [file].
  split; [|split].
  - intros c Hc. split; [by apply ReadFile_prefix|apply take_whole].
  - by apply ReadFile_frames.
  - intros Hs now text. rewrite ReadFile_frames by done. intros [= <-].
    unfold Close. cbn [closed hashed SHA256 SizeBytes fst rec_bytes]. split; [|done].
    f_equal. f_equal. symmetry. exact (sealed_all ls Hs).
Qed.

(** A toy JSON, to run the writer on. *)
Definition toy_json : CastJson := {|
  marshal_header := λ c r t, [x7b; x7d]; marshal_event := λ t k d, x5b :: k :: d |}.
Lemma toy_json_laws : @CastJsonLaws toy_json.
Proof. split. intros. by eexists. Qed.
Definition toy_nonce : bytes := replicate 12 x09.
Definition good_line : line_draw := Draw (Some toy_nonce) 100.

Lemma recording_survives_crash_witness :
  let es := [(second, good_line, Input [x6c; x73]); (second, Draw None 100, Output [x61])] in
  ∃ r0, @New toy_crypto toy_json true true good_line "s.cast" 80 24 0 [x61] = Ok r0 ∧
    @ReadFile toy_crypto (Some (file (@record_all toy_crypto toy_json es r0))) [x61] =
      Ok [x7b; x7d; x0a; x5b; x69; x6c; x73; x0a] ∧
    ∃ j, @ReadFile toy_crypto (Some (take 30 (file (@record_all toy_crypto toy_json es r0)))) [x61] =
      Ok (concat (take j [[x7b; x7d; x0a]; [x5b; x69; x6c; x73; x0a]])) ∧ j = 1%nat.
Proof.
  intros es. eexists. split; [reflexivity|].
  destruct (@recording_survives_crash toy_crypto toy_laws toy_json 80 24 0 good_line es "s.cast"
    [x61] _ ltac:(done) eq_refl) as (Hc & Ha & _).
  { unfold session_lines, es. rewrite !fmap_cons, fmap_nil, !Forall_cons.
    split_and!; [..|by constructor]; intros n [= <-]; (split; [by split; vm_compute|vm_compute; lia]). }
  split; [exact Ha|]. destruct (Hc 30%nat ltac:(lia)) as [Hr _].
  eexists. split; [exact Hr|by vm_compute].
Defined.

(** a recording reads the same through the stream as at once, with reads of any size: all of it, or
    the frames before the one that does not open and then that error. Both loops end. *)
Theorem stream_reads_the_file `{!Crypto} f key gcm r p :
  (0 < p)%nat → recGCM key = Ok gcm → Open (Some f) key = Ok (inr r) →
  ∃ out, ∀ fuel, (length out < fuel)%nat →
    match ReadFile (Some f) key with
    | Ok text => out = text ∧ ReadAll fuel p r [] = (text, EOF)
    | Err e => e = ErrSealed ∧ ReadAll fuel p r [] = (out, ReadErr e)
    end.
Proof.
  intros Hp Hg. unfold Open, ReadFile. rewrite Hg.
  assert (IsEncrypted (take (length recMagic) f) = IsEncrypted f) as ->.
  { unfold IsEncrypted, HasPrefix. by rewrite take_take, Nat.min_id. }
  destruct (IsEncrypted f); simpl negb; cbv iota; [|done].
  unfold mbind, res_bind. intros [= <-].
  destruct (deframes_total gcm (drop (length recMagic) f)) as (pts & e & Hd).
  exists (concat pts). intros fuel Hf.
  rewrite (read_frames_spec _ _ _ _ _ _ Hd) by lia.
  pose proof (ReadAll_spec p fuel gcm _ [] pts e [] Hp Hd Hf) as Ha.
  change (length recMagic) with 4%nat in Ha. rewrite Ha.
  destruct e as [e|]; [|done]. split; [|done].
  clear -Hd. remember (Some e) as o eqn:Ho. induction Hd; simplify_eq; auto.
Qed.

Lemma stream_reads_the_file_witness :
  let f := recMagic ++ @enc_frame toy_crypto [x61] (toy_nonce, [x62; x63]) in
  ∃ r, @Open toy_crypto (Some f) [x61] = Ok (inr r) ∧
    @ReadFile toy_crypto (Some f) [x61] = Ok [x62; x63] ∧
    @ReadAll toy_crypto 9 1 r [] = ([x62; x63], EOF).
Proof.
  intros f. eexists. split; [reflexivity|].
  destruct (@stream_reads_the_file toy_crypto f [x61] [x61] _ 1 ltac:(lia) eq_refl eq_refl) as [out Hout].
  split; [by vm_compute|].
  specialize (Hout (9 + length out)%nat ltac:(lia)).
  assert (@ReadFile toy_crypto (Some f) [x61] = Ok [x62; x63]) as Hr by (by vm_compute).
  rewrite Hr in Hout. destruct Hout as [Ho Hall]. rewrite Ho in Hall. by vm_compute in Hall |- *.
Defined.

(** a line of which the disk took only a part, with lines after it, makes the whole file
    unreadable (and ends the stream there), although every other line is whole on disk. *)
Theorem torn_line_poisons_recording `{!Crypto, !CryptoLaws} nps np t rest key :
  key ≠ [] → Forall (wf_frame (Sum256 key)) nps → wf_frame (Sum256 key) np →
  (16 ≤ t < length (enc_frame (Sum256 key) np))%nat →
  (length (enc_frame (Sum256 key) np) ≤ t + length rest)%nat →
  let ct := drop 16 (take t (enc_frame (Sum256 key) np)) ++
            take (length (enc_frame (Sum256 key) np) - t) rest in
  gcm_Open (Sum256 key) np.1 ct = None →
  let torn := take t (enc_frame (Sum256 key) np) in
  ReadFile (Some (recMagic ++ concat (enc_frame (Sum256 key) <$> nps) ++ torn ++ rest)) key
    = Err ErrSealed ∧
  ReadFile (Some (recMagic ++ concat (enc_frame (Sum256 key) <$> nps) ++ torn)) key
    = Ok (concat (snd <$> nps)).
Proof.
  intros Hk Hw Hnp Ht Hr ct Hauth torn.
  rewrite !ReadFile_magic by done. split.
  - rewrite (read_frames_spec _ _ ((snd <$> nps) ++ []) (Some ErrSealed)); [done| |lia].
    apply (deframes_app _ _ _ [] (Some ErrSealed) Hw). econstructor. unfold torn.
    rewrite split_torn by done. fold ct. by rewrite Hauth.
  - rewrite (read_frames_spec _ _ ((snd <$> nps) ++ []) None); [by rewrite app_nil_r| |lia].
    apply (deframes_app _ _ _ [] None Hw). constructor. apply split_short; [done|lia].
Qed.

Lemma torn_line_poisons_recording_witness :
  let np := (toy_nonce, [x62; x63]) in
  let whole_fr := @enc_frame toy_crypto [x61] np in
  @ReadFile toy_crypto (Some (recMagic ++ (whole_fr ++ []) ++ take 17 whole_fr ++ whole_fr)) [x61]
    = Err ErrSealed ∧
  @ReadFile toy_crypto (Some (recMagic ++ (whole_fr ++ []) ++ take 17 whole_fr)) [x61] = Ok [x62; x63].
Proof.
  intros np whole_fr.
  assert (@wf_frame toy_crypto [x61] np) as Hw by (by split; vm_compute).
  apply (@torn_line_poisons_recording toy_crypto toy_laws [np] np 17 whole_fr [x61]);
    [done|by constructor|done|vm_compute; lia|vm_compute; lia|by vm_compute].
Defined.

(** Runs the branches of the rewrite and looks at every state of the disk. *)
Ltac crash_states := cbn [e_open e_head e_create e_prefix e_flush e_close e_rename e_chunks d_rec] in *;
  repeat match goal with |- context [negb ?b] => destruct b; simpl negb; cbv iota end;
  intros [= <- <-];
  (split; [intros ? Hd; rewrite !elem_of_cons, elem_of_nil in Hd;
     repeat match type of Hd with _ ∨ _ => destruct Hd as [->|Hd]; [by eauto|] end; done|]);
  (split; [eexists; split; [reflexivity|]; cbn [is_ok d_rec]; by eauto|naive_solver]).

(** a crash while a desktop recording is being encrypted leaves it readable: in every state the
    disk goes through, the file at its path reads as the recording, and it is either untouched or
    entirely encrypted. An error leaves it untouched, and with a disk that works and enough
    reads the rewrite succeeds. *)
Theorem rdp_rewrite_safe `{!Crypto, !CryptoLaws} env key src tmp :
  key ≠ [] → src ≠ [] → IsEncrypted src = false → Forall (chunk_ok (Sum256 key)) (e_chunks env) →
  let '(ds, r) := encryptFileAtRest env key (Disk (Some src) tmp) in
  (∀ d, d ∈ ds → ReadFile (d_rec d) key = Ok src ∧
     (d_rec d = Some src ∨ ∃ f, d_rec d = Some f ∧ IsEncrypted f = true)) ∧
  (∃ d, last ds = Some d ∧
     if is_ok r then ∃ f, d = Disk (Some f) None ∧ IsEncrypted f = true else d_rec d = Some src) ∧
  (e_open env = true → e_head env = true → e_create env = true → e_prefix env = true →
   e_flush env = true → e_close env = true → e_rename env = true →
   (length src ≤ length (e_chunks env))%nat →
   Forall (λ d, is_Some (c_read d) ∧ is_Some (c_nonce d) ∧ c_wrote d = true) (e_chunks env) →
   r = Ok tt).
Proof.
  intros Hk Hs He Hok. destruct (encryptFileAtRest env key (Disk (Some src) tmp)) as [ds r] eqn:E.
  assert (ReadFile (Some src) key = Ok src) as Hplain by (unfold ReadFile; by rewrite He).
  revert E. unfold encryptFileAtRest, recGCM. destruct key as [|k key]; [done|].
  destruct src as [|x src]; [done|]. simpl d_rec. simpl Nat.eqb. cbv iota.
  set (txt := x :: src) in *. assert ((length txt =? 0)%nat = false) as -> by done.
  assert (IsEncrypted (take (length recMagic) txt) = false) as ->.
  { revert He. unfold IsEncrypted, HasPrefix. by rewrite take_take, Nat.min_id. }
  destruct (encrypt_chunks _ _ _ _) as [content|err] eqn:Hc.
  - apply encrypt_chunks_ok in Hc as (nps & Hw & Hcat & ->); [|done].
    pose proof (ReadFile_frames nps (k :: key) Hk Hw) as Hread. rewrite Hcat in Hread.
    pose proof (IsEncrypted_magic (concat (enc_frame (Sum256 (k :: key)) <$> nps))) as Hmagic.
    set (F := recMagic ++ _) in *. clearbody F txt.
    destruct env; crash_states.
  - assert (¬ ((length txt ≤ length (e_chunks env))%nat ∧
      Forall (λ d, is_Some (c_read d) ∧ is_Some (c_nonce d) ∧ c_wrote d = true) (e_chunks env))) as Hno.
    { intros [Hl Hf]. pose proof (encrypt_chunks_total _ (Sum256 (k :: key)) txt recMagic Hl Hf) as Ht.
      by rewrite Hc in Ht. }
    clearbody txt.
    destruct env; crash_states.
Qed.

Lemma rdp_rewrite_safe_witness :
  let env := EncEnv true true true true true true true
    (replicate 3 (Chunk (Some 2%nat) (Some toy_nonce) true)) in
  let out := @encryptFileAtRest toy_crypto env [x61] (Disk (Some [x31; x32; x33]) None) in
  out.2 = Ok tt ∧ ∀ d, d ∈ out.1 → @ReadFile toy_crypto (d_rec d) [x61] = Ok [x31; x32; x33].
Proof.
  intros env out.
  assert (Forall (@chunk_ok toy_crypto [x61]) (e_chunks env)) as Hok.
  { apply Forall_replicate. intros n pt [= <-] Hpt. split; [done|].
    cbn [gcm_Seal toy_crypto fst snd]. rewrite length_app. unfold encChunkSize in Hpt. simpl length. lia. }
  pose proof (@rdp_rewrite_safe toy_crypto toy_laws env [x61] [x31; x32; x33] None
    ltac:(done) ltac:(done) ltac:(by vm_compute) Hok) as Ht.
  unfold out. destruct (encryptFileAtRest _ _ _) as [ds r]. destruct Ht as (Hd & _ & Hr).
  split; [apply Hr; try done; repeat constructor; done|]. intros d Hin. by apply Hd.
Defined.
