(* ===== verification/Vault.v ===== *)
(** The credential vault: [vault/handlers.go] and [vault/checkout.go] over
    [store/vault.go] and [store/vault_checkouts.go], and the injection of vaulted
    credentials into connections, [credinject/credinject.go] and
    [credresolve/credresolve.go].

    The tables are maps keyed by row id; sealing is the interface of SecretBox. *)
From S2P Require Import Prelude SecretBox.

(** * Data *)

Inductive co_status := CoPending | CoActive | CoDenied | CoExpired | CoCheckedIn.
#[export] Instance co_status_eq_dec : EqDecision co_status.
Proof. solve_decision. Defined.

(** A row of [vault_secrets]. *)
Record secret := Secret {
  sec_name : string; sec_folder : string; sec_type : string; sec_username : string;
  sec_target : string; sec_description : string; sec_policy : string; sec_version : Z;
  sec_created_by : uuid; sec_rotation_days : Z; sec_last_rotated : option Z;
  sec_next_rotation : option Z; sec_ext_provider : string; sec_ext_ref : string;
}.

(** A row of [vault_secret_versions]. *)
Record version := Version {
  v_secret : uuid; v_version : Z; v_sealed : string; v_created_by : option uuid;
}.

(** A row of [vault_grants]. *)
Record vgrant := VGrant { g_secret : uuid; g_kind : string; g_subject : uuid; g_access : string }.

(** A row of [vault_checkouts]; [co_initial] remembers the status it was inserted with. *)
Record checkout := Checkout {
  co_secret : uuid; co_user : uuid; co_reason : string; co_state : co_status;
  co_requested_at : Z; co_expires_at : Z; co_decided_by : option uuid;
  co_decided_at : option Z; co_checked_in_at : option Z; co_initial : co_status;
}.

(** The columns of [hosts] this package reads. *)
Record host := Host {
  h_hostname : string; h_address : string; h_wg_address : string; h_ssh_user : string;
  h_auth_method : string; h_credential : option uuid;
}.

(** [auth.Principal], as far as this package reads it. *)
Record principal := Principal { p_user : uuid; p_has : string → bool }.

(** [used_ids]: the check-out ids ever generated; a deleted row's id is not reused. *)
Record store := Store {
  secrets : gmap uuid secret;
  versions : gmap uuid version;
  vgrants : gmap uuid vgrant;
  user_groups : gset (uuid * uuid);
  checkouts : gmap uuid checkout;
  hosts : gmap uuid host;
  audits : list (string * uuid);
  pending_notes : list uuid;
  used_ids : gset uuid;
}.

Definition set_secrets (s : store) m := Store m (versions s) (vgrants s) (user_groups s)
  (checkouts s) (hosts s) (audits s) (pending_notes s) (used_ids s).
Definition set_versions (s : store) m := Store (secrets s) m (vgrants s) (user_groups s)
  (checkouts s) (hosts s) (audits s) (pending_notes s) (used_ids s).
Definition set_grants (s : store) m := Store (secrets s) (versions s) m (user_groups s)
  (checkouts s) (hosts s) (audits s) (pending_notes s) (used_ids s).
Definition set_checkouts (s : store) m := Store (secrets s) (versions s) (vgrants s)
  (user_groups s) m (hosts s) (audits s) (pending_notes s) (used_ids s).

(** * [store/vault.go] *)

Record secret_input := SecretInput {
  in_name : string; in_folder : string; in_type : string; in_username : string;
  in_target : string; in_description : string; in_policy : string;
  in_ext_provider : string; in_ext_ref : string; in_created_by : uuid;
}.

Definition accessPolicy (i : secret_input) : string :=
  if str_eqb (in_policy i) "checkout" || str_eqb (in_policy i) "approval"
  then in_policy i else "open".

(** [AllVaultVersionSeals], by row id. *)
Definition AllVaultVersionSeals (now : Z) (s : store)
    : res store_error (list (uuid * string)) * store :=
  (Ok ((λ kv, (kv.1, v_sealed kv.2)) <$> map_to_list (versions s)), s).

Definition with_sealed (sealed : string) (v : version) : version :=
  Version (v_secret v) (v_version v) sealed (v_created_by v).

Definition UpdateVaultVersionSeal (id : uuid) (sealed : string) (now : Z) (s : store)
    : res store_error unit * store :=
  (Ok tt, set_versions s (alter (with_sealed sealed) id (versions s))).

Definition with_rotation (v : secret) (days : Z) (last next : option Z) : secret :=
  Secret (sec_name v) (sec_folder v) (sec_type v) (sec_username v) (sec_target v)
    (sec_description v) (sec_policy v) (sec_version v) (sec_created_by v) days last next
    (sec_ext_provider v) (sec_ext_ref v).

Definition SetVaultRotationPolicy (id : uuid) (days : Z) (now : Z) (s : store)
    : res store_error unit * store :=
  let days := if days <? 0 then 0 else days in
  (Ok tt, set_secrets s (alter (λ v,
     with_rotation v days (sec_last_rotated v)
       (if 0 <? days then Some (default now (sec_last_rotated v) + days * day) else None))
     id (secrets s))).

Definition MarkVaultRotated (id : uuid) (at_ : Z) (now : Z) (s : store)
    : res store_error unit * store :=
  (Ok tt, set_secrets s (alter (λ v,
     with_rotation v (sec_rotation_days v) (Some at_)
       (if 0 <? sec_rotation_days v then Some (at_ + sec_rotation_days v * day) else None))
     id (secrets s))).

Definition DeferVaultRotation (id : uuid) (now : Z) (s : store)
    : res store_error unit * store :=
  (Ok tt, set_secrets s (alter (λ v,
     with_rotation v (sec_rotation_days v) (sec_last_rotated v)
       (if 0 <? sec_rotation_days v then Some (now + sec_rotation_days v * day) else None))
     id (secrets s))).

Definition rotation_due (at_ : Z) (v : secret) : bool :=
  str_eqb (sec_type v) "password" && (0 <? sec_rotation_days v) &&
  str_eqb (sec_ext_provider v) "" &&
  match sec_next_rotation v with Some n => n <=? at_ | None => false end.

(** The order, by due time, is not modelled. *)
Definition DueVaultRotations (at_ : Z) (now : Z) (s : store)
    : res store_error (list (uuid * secret)) * store :=
  (Ok (map_to_list (filter (λ kv, rotation_due at_ kv.2 = true) (secrets s))), s).

Definition new_secret (i : secret_input) : secret :=
  Secret (in_name i) (in_folder i) (in_type i) (in_username i) (in_target i)
    (in_description i) (accessPolicy i) 1 (in_created_by i) 0 None None
    (in_ext_provider i) (in_ext_ref i).

(** The transaction of [CreateVaultSecret]. *)
Definition InsertVaultSecret (i : secret_input) (sealed : string) (now : Z) (s : store)
    : res store_error uuid * store :=
  let id := fresh (dom (secrets s)) in
  let vid := fresh (dom (versions s)) in
  (Ok id, set_versions (set_secrets s (<[id := new_secret i]> (secrets s)))
            (<[vid := Version id 1 sealed (Some (in_created_by i))]> (versions s))).

Definition with_version (v : secret) (n : Z) : secret :=
  Secret (sec_name v) (sec_folder v) (sec_type v) (sec_username v) (sec_target v)
    (sec_description v) (sec_policy v) n (sec_created_by v) (sec_rotation_days v)
    (sec_last_rotated v) (sec_next_rotation v) (sec_ext_provider v) (sec_ext_ref v).

(** One transaction: advance the current version and insert it. *)
Definition AddVaultSecretVersion (id : uuid) (sealed : string) (createdBy : uuid)
    (now : Z) (s : store) : res store_error Z * store :=
  match secrets s !! id with
  | None => (Err ErrNotFound, s)
  | Some v =>
    let next := sec_version v + 1 in
    let vid := fresh (dom (versions s)) in
    (Ok next, set_versions (set_secrets s (<[id := with_version v next]> (secrets s)))
       (<[vid := Version id next sealed
                   (if bool_decide (createdBy = uuid_nil) then None else Some createdBy)]>
          (versions s)))
  end.

Definition GetVaultSecret (id : uuid) : Z → store → res store_error secret * store :=
  get_row (λ s, secrets s !! id).

(** The versions of [id] the join of [GetVaultSecretSealed] selects. *)
Definition current_versions (s : store) (id : uuid) : list (uuid * version) :=
  match secrets s !! id with
  | None => []
  | Some v => map_to_list (filter (λ kv, v_secret kv.2 = id ∧ v_version kv.2 = sec_version v)
                             (versions s))
  end.

Definition current_sealed (s : store) (id : uuid) : option string :=
  match current_versions s id with kv :: _ => Some (v_sealed kv.2) | [] => None end.

Definition GetVaultSecretSealed (id : uuid) : Z → store → res store_error string * store :=
  get_row (λ s, current_sealed s id).

Definition update_meta (i : secret_input) (v : secret) : secret :=
  Secret (in_name i) (in_folder i) (in_type i) (in_username i) (in_target i)
    (in_description i) (accessPolicy i) (sec_version v) (sec_created_by v)
    (sec_rotation_days v) (sec_last_rotated v) (sec_next_rotation v)
    (sec_ext_provider v) (sec_ext_ref v).

Definition UpdateVaultSecretMeta (id : uuid) (i : secret_input) (now : Z) (s : store)
    : res store_error unit * store :=
  (Ok tt, set_secrets s (alter (update_meta i) id (secrets s))).

(** Versions, grants and check-outs cascade; hosts lose the reference. *)
Definition DeleteVaultSecret (id : uuid) (now : Z) (s : store) : res store_error unit * store :=
  (Ok tt, Store (delete id (secrets s))
     (filter (λ kv, v_secret kv.2 ≠ id) (versions s))
     (filter (λ kv, g_secret kv.2 ≠ id) (vgrants s)) (user_groups s)
     (filter (λ kv, co_secret kv.2 ≠ id) (checkouts s))
     ((λ h, if bool_decide (h_credential h = Some id)
            then Host (h_hostname h) (h_address h) (h_wg_address h) (h_ssh_user h)
                   (h_auth_method h) None else h) <$> hosts s)
     (audits s) (pending_notes s) (used_ids s)).

Definition accessRank (a : string) : Z :=
  if str_eqb a "manage" then 3 else if str_eqb a "use" then 2
  else if str_eqb a "view" then 1 else 0.

(** The WHERE clause shared by the access queries. *)
Definition grant_applies (s : store) (user : uuid) (g : vgrant) : bool :=
  (str_eqb (g_kind g) "user" && bool_decide (g_subject g = user)) ||
  (str_eqb (g_kind g) "group" && bool_decide ((user, g_subject g) ∈ user_groups s)).

Definition better (best a : string) : string :=
  if accessRank best <? accessRank a then a else best.

Definition user_access (s : store) (user id : uuid) : string :=
  foldl better "" ((λ kv, g_access kv.2) <$>
    map_to_list (filter (λ kv, g_secret kv.2 = id ∧ grant_applies s user kv.2 = true) (vgrants s))).

Definition UserSecretAccess (user id : uuid) (now : Z) (s : store)
    : res store_error string * store := (Ok (user_access s user id), s).

Definition ListVaultGrants (id : uuid) (now : Z) (s : store)
    : res store_error (list (uuid * vgrant)) * store :=
  (Ok (map_to_list (filter (λ kv, g_secret kv.2 = id) (vgrants s))), s).

(** Upsert on (secret, kind, subject). *)
Definition CreateVaultGrant (id : uuid) (kind : string) (subject : uuid) (access : string)
    (now : Z) (s : store) : res store_error vgrant * store :=
  let g := VGrant id kind subject access in
  match map_to_list (filter (λ kv : uuid * vgrant,
          g_secret kv.2 = id ∧ g_kind kv.2 = kind ∧ g_subject kv.2 = subject) (vgrants s)) with
  | (k, _) :: _ => (Ok g, set_grants s (<[k := g]> (vgrants s)))
  | [] => (Ok g, set_grants s (<[fresh (dom (vgrants s)) := g]> (vgrants s)))
  end.

Definition DeleteVaultGrant (id grantID : uuid) (now : Z) (s : store)
    : res store_error unit * store :=
  (Ok tt, set_grants s (filter (λ kv, ¬ (kv.1 = grantID ∧ g_secret kv.2 = id)) (vgrants s))).

(** Ordered by host name in the source; the order decides which host is first. *)
Definition HostsUsingCredential (order : list (uuid * host) → list (uuid * host)) (id : uuid)
    (now : Z) (s : store) : res store_error (list (uuid * host)) * store :=
  (Ok (order (map_to_list (filter (λ kv, h_credential kv.2 = Some id) (hosts s)))), s).

Definition ListAllVaultSecrets (now : Z) (s : store)
    : res store_error (list (uuid * secret)) * store := (Ok (map_to_list (secrets s)), s).

(** The columns each query selects and the destinations each row is scanned into. *)
Definition vaultSecretCols : list string :=
  ["id"; "name"; "folder"; "type"; "username"; "target"; "description"; "access_policy";
   "version"; "created_by"; "created_at"; "updated_at"; "rotation_interval_days";
   "last_rotated_at"; "next_rotation_at"; "external_provider"; "external_ref"].
Definition accessible_cols : list string := vaultSecretCols ++ ["access"].
Definition accessible_dests : list string :=
  ["ID"; "Name"; "Folder"; "Type"; "Username"; "Target"; "Description"; "AccessPolicy";
   "Version"; "CreatedBy"; "CreatedAt"; "UpdatedAt"; "access"].

(** The rows of the join, one per secret and grant. *)
Definition accessible_rows (s : store) (user : uuid) : list (uuid * (secret * string)) :=
  omap (λ kv, match secrets s !! g_secret kv.2 with
              | Some v => if grant_applies s user kv.2
                          then Some (g_secret kv.2, (v, g_access kv.2)) else None
              | None => None
              end) (map_to_list (vgrants s)).

(** Scans each row, keeping the highest access per secret; a row whose columns do not
    fit the destinations is an error ([scan_ok] is the driver's check). *)
Fixpoint scan_accessible (scan_ok : nat → nat → bool) (rows : list (uuid * (secret * string)))
    (acc : list (uuid * (secret * string))) : res store_error (list (uuid * (secret * string))) :=
  match rows with
  | [] => Ok acc
  | (id, (v, access)) :: rows' =>
    if scan_ok (length accessible_cols) (length accessible_dests) then
      match list_find (λ e, e.1 = id) acc with
      | Some (i, (_, (v0, a0))) =>
        scan_accessible scan_ok rows' (<[i := (id, (v0, better a0 access))]> acc)
      | None => scan_accessible scan_ok rows' (acc ++ [(id, (v, access))])
      end
    else Err ErrDB
  end.

Definition ListAccessibleVaultSecrets (scan_ok : nat → nat → bool) (user : uuid)
    (now : Z) (s : store) : res store_error (list (uuid * (secret * string))) * store :=
  (scan_accessible scan_ok (accessible_rows s user) [], s).

(** * [store/vault_checkouts.go] *)

Definition CreateVaultCheckout (secretID userID : uuid) (reason : string) (st : co_status)
    (ttl : Z) (now : Z) (s : store) : res store_error (uuid * checkout) * store :=
  let id := fresh (used_ids s ∪ dom (checkouts s)) in
  let c := Checkout secretID userID reason st now (now + ttl) None None None st in
  (Ok (id, c), Store (secrets s) (versions s) (vgrants s) (user_groups s)
     (<[id := c]> (checkouts s)) (hosts s) (audits s) (pending_notes s) ({[id]} ∪ used_ids s)).

(** A check-out that lets [user] use the secret at [now]. *)
Definition checkout_active (now : Z) (secretID userID : uuid) (c : checkout) : Prop :=
  co_secret c = secretID ∧ co_user c = userID ∧ co_state c = CoActive ∧ now < co_expires_at c.
#[export] Instance checkout_active_dec now a b c : Decision (checkout_active now a b c).
Proof. unfold checkout_active. exact _. Defined.

Definition HasActiveCheckout (secretID userID : uuid) (now : Z) (s : store)
    : res store_error bool * store :=
  (Ok (0 <? Z.of_nat (size (filter (λ kc, checkout_active now secretID userID kc.2)
                              (checkouts s)))), s).

Definition GetVaultCheckout (id : uuid) : Z → store → res store_error checkout * store :=
  get_row (λ s, checkouts s !! id).

Definition clamp_limit (limit dflt : Z) : Z :=
  if (limit <=? 0) || (200 <? limit) then dflt else limit.

(** Newest first, at most [limit]; [order] sorts by request time. *)
Definition ListMyVaultCheckouts (order : list (uuid * checkout) → list (uuid * checkout))
    (user : uuid) (limit : Z) (now : Z) (s : store)
    : res store_error (list (uuid * checkout)) * store :=
  (Ok (take (Z.to_nat (clamp_limit limit 50))
         (order (map_to_list (filter (λ kc, co_user kc.2 = user ∧ is_Some (secrets s !! co_secret kc.2))
                                (checkouts s))))), s).

Definition ListPendingVaultCheckouts (order : list (uuid * checkout) → list (uuid * checkout))
    (limit : Z) (now : Z) (s : store) : res store_error (list (uuid * checkout)) * store :=
  (Ok (take (Z.to_nat (clamp_limit limit 100))
         (order (map_to_list (filter (λ kc, co_state kc.2 = CoPending ∧ is_Some (secrets s !! co_secret kc.2))
                                (checkouts s))))), s).

Definition set_co_status (c : checkout) (to : co_status) (by_ : option uuid) (now : Z) : checkout :=
  let deciding := bool_decide (to = CoActive ∨ to = CoDenied) in
  Checkout (co_secret c) (co_user c) (co_reason c) to (co_requested_at c) (co_expires_at c)
    (match by_ with Some u => if deciding then Some u else co_decided_by c
                  | None => co_decided_by c end)
    (if deciding then Some now else co_decided_at c)
    (if bool_decide (to = CoCheckedIn) then Some now else co_checked_in_at c) (co_initial c).

Definition SetVaultCheckoutStatus (id : uuid) (from to : co_status) (by_ : option uuid)
    (now : Z) (s : store) : res store_error bool * store :=
  match checkouts s !! id with
  | Some c =>
    if decide (co_state c = from)
    then (Ok true, set_checkouts s (<[id := set_co_status c to by_ now]> (checkouts s)))
    else (Ok false, s)
  | None => (Ok false, s)
  end.

Definition co_expirable (now : Z) (c : checkout) : bool :=
  bool_decide (co_state c = CoActive ∨ co_state c = CoPending) && (co_expires_at c <? now).

Definition co_expire (c : checkout) : checkout :=
  Checkout (co_secret c) (co_user c) (co_reason c) CoExpired (co_requested_at c)
    (co_expires_at c) (co_decided_by c) (co_decided_at c) (co_checked_in_at c) (co_initial c).

Definition ExpireVaultCheckouts (now : Z) (s : store) : res store_error Z * store :=
  (Ok (Z.of_nat (size (filter (λ kc, co_expirable now kc.2 = true) (checkouts s)))),
   set_checkouts s ((λ c, if co_expirable now c then co_expire c else c) <$> checkouts s)).

(** The audit row of an action on a credential, and the approvers' notification. *)
Definition AppendAudit (e : string * uuid) (now : Z) (s : store) : res store_error unit * store :=
  (Ok tt, Store (secrets s) (versions s) (vgrants s) (user_groups s) (checkouts s) (hosts s)
     (audits s ++ [e]) (pending_notes s) (used_ids s)).

Definition notify_pending (u : uuid) (s : store) : store :=
  Store (secrets s) (versions s) (vgrants s) (user_groups s) (checkouts s) (hosts s)
    (audits s) (pending_notes s ++ [u]) (used_ids s).

(** * The external secrets manager: [extsecret/extsecret.go] *)

Definition ProviderVaultKV : string := "vault-kv".
Definition ProviderAWSSecrets : string := "aws-secrets".
Definition Supported (provider : string) : bool :=
  str_eqb provider ProviderVaultKV || str_eqb provider ProviderAWSSecrets.

(** * The handlers *)

Record secretReq := SecretReq {
  rq_name : string; rq_folder : string; rq_type : string; rq_username : string;
  rq_target : string; rq_description : string; rq_secret : bytes;
  rq_ext_provider : string; rq_ext_ref : string;
}.

(** [secretReq.toInput]: the access policy is left at its zero value. *)
Definition toInput (rq : secretReq) (createdBy : uuid) : secret_input :=
  let t := rq_type rq in
  let t := if str_eqb t "password" || str_eqb t "ssh_key" || str_eqb t "api_key" || str_eqb t "generic"
           then t else "password" in
  SecretInput (TrimSpace (rq_name rq)) (TrimSpace (rq_folder rq)) t (rq_username rq)
    (rq_target rq) (rq_description rq) "" (TrimSpace (rq_ext_provider rq))
    (TrimSpace (rq_ext_ref rq)) createdBy.

Record grantReq := GrantReq { gq_kind : string; gq_subject : option uuid; gq_access : string }.
Record checkoutReq := CheckoutReq { cq_reason : string; cq_minutes : Z }.

Inductive body :=
| BSecret (id : uuid) (v : secret) (access : string)
| BSecrets (l : list (uuid * (secret * string)))
| BPlain (pt : bytes)
| BGrants (l : list (uuid * vgrant))
| BGrant (g : vgrant)
| BCheckout (id : uuid) (c : checkout)
| BCheckouts (l : list (uuid * checkout))
| BStatus (st : string).

Section handlers.
Context `{!Env store, !SecretBox}.
(** [Cfg.VaultKey()]; the salt and nonce drawn at a tick; [h.d.Notify != nil]. *)
Context (VaultKey : res string bytes) (rnd : nat → rand_draw) (has_notify : bool).
(** [Cfg.ExtSecretEnabled()]; the manager's answer for a provider and a reference. *)
Context (ext_configured : bool) (ext_fetch : string → string → res string bytes).
(** The driver's column check and the sort orders of the listings. *)
Context (scan_ok : nat → nat → bool).
Context (by_request : list (uuid * checkout) → list (uuid * checkout)).

Definition audit (action : string) (id : uuid) : M store unit :=
  _ ← db (AppendAudit (action, id)); mret tt.

(** [secretbox.Seal] with the randomness of the moment. *)
Definition seal (key pt : bytes) : M store (res box_err string) := λ w,
  (box_seal (rnd (w_tick w)) key pt, w).

(** [credresolve.Open] *)
Definition resolve_open (id : uuid) (v : secret) (key : bytes) : M store (res string bytes) :=
  if negb (str_eqb (sec_ext_provider v) "") then
    if negb ext_configured then mret (Err "no external secrets manager is configured")
    else if negb (Supported (TrimSpace (sec_ext_provider v))) then mret (Err "unknown provider")
    else mret (ext_fetch (TrimSpace (sec_ext_provider v)) (sec_ext_ref v))
  else
    r ← db (GetVaultSecretSealed id);
    mret (match r with
          | Err _ => Err "no version"
          | Ok sealed => match box_open key sealed with Ok pt => Ok pt | Err _ => Err "decrypt" end
          end).

Definition effectiveAccess (p : principal) (id : uuid) : M store string :=
  if p_has p "Credential.Manage" then mret "manage"
  else
    r ← db (UserSecretAccess (p_user p) id);
    mret (match r with Ok a => a | Err _ => "" end).

Definition list_ (p : principal) : M store (reply body) :=
  r ← (if p_has p "Credential.Manage" then
         r ← db ListAllVaultSecrets;
         mret (match r with
               | Ok l => Ok ((λ kv, (kv.1, (kv.2, ""))) <$> l)
               | Err e => Err e
               end)
       else db (ListAccessibleVaultSecrets scan_ok (p_user p)));
  mret (match r with
        | Err _ => WriteError 500 "could not list credentials"
        | Ok l => WriteJSON 200 (BSecrets l)
        end).

Definition get (p : principal) (idp : option uuid) : M store (reply body) :=
  match idp with
  | None => mret (WriteError 400 "invalid id")
  | Some id =>
    access ← effectiveAccess p id;
    if str_eqb access "" then mret (WriteError 404 "credential not found")
    else
      r ← db (GetVaultSecret id);
      mret (match r with
            | Err _ => WriteError 404 "credential not found"
            | Ok v => WriteJSON 200 (BSecret id v access)
            end)
  end.

(** The check-out gate of [reveal]: a policy that cannot be read is no policy. *)
Definition reveal_gate (p : principal) (id : uuid) : M store bool :=
  pol ← db (GetVaultSecret id);
  match pol with
  | Ok v =>
    if negb (str_eqb (sec_policy v) "open") then
      r ← db (HasActiveCheckout id (p_user p));
      mret (match r with Ok b => b | Err _ => false end)
    else mret true
  | Err _ => mret true
  end.

Definition reveal (p : principal) (idp : option uuid) : M store (reply body) :=
  match idp with
  | None => mret (WriteError 400 "invalid id")
  | Some id =>
    access ← effectiveAccess p id;
    if str_eqb access "" then mret (WriteError 404 "credential not found")
    else if negb (p_has p "Credential.Manage") && negb (p_has p "Credential.View") then
      mret (WriteError 403 "you do not have permission to reveal credentials")
    else
      open ← reveal_gate p id;
      if negb open then mret (WriteError 403 "check out this credential before revealing it")
      else
        r ← db (GetVaultSecret id);
        match r with
        | Err _ => mret (WriteError 404 "credential not found")
        | Ok v =>
          let go key :=
            r ← resolve_open id v key;
            match r with
            | Err _ => mret (WriteError 502 "could not resolve credential")
            | Ok pt => _ ← audit "credential.reveal" id; mret (WriteJSON 200 (BPlain pt))
            end in
          if str_eqb (sec_ext_provider v) "" then
            match VaultKey with
            | Err e => mret (WriteError 503 e)
            | Ok key => go key
            end
          else go []
        end
  end.

Definition CreateVaultSecret (i : secret_input) (sealed : string)
    : M store (res store_error (uuid * secret)) :=
  r ← db (InsertVaultSecret i sealed);
  match r with
  | Err e => mret (Err e)
  | Ok id => v ← db (GetVaultSecret id); mret (match v with Ok v => Ok (id, v) | Err e => Err e end)
  end.

Definition create (p : principal) (rq : option secretReq) : M store (reply body) :=
  match rq with
  | None => mret (WriteError 400 "invalid request body")
  | Some rq =>
    if str_eqb (TrimSpace (rq_name rq)) "" then mret (WriteError 400 "name is required")
    else
      let store_it sealed :=
        r ← CreateVaultSecret (toInput rq (p_user p)) sealed;
        match r with
        | Err _ => mret (WriteError 500 "could not create credential")
        | Ok (id, v) => _ ← audit "credential.create" id; mret (WriteJSON 201 (BSecret id v ""))
        end in
      if negb (str_eqb (TrimSpace (rq_ext_provider rq)) "") then
        if negb (Supported (TrimSpace (rq_ext_provider rq))) then
          mret (WriteError 400 "unsupported external secrets provider")
        else if str_eqb (TrimSpace (rq_ext_ref rq)) "" then
          mret (WriteError 400 "an external reference is required for an external-backed credential")
        else if negb ext_configured then
          mret (WriteError 400 "no external secrets manager is configured (set FLEET_EXTSECRET_*)")
        else store_it ""
      else
        match rq_secret rq with
        | [] => mret (WriteError 400 "a secret value is required")
        | pt =>
          match VaultKey with
          | Err e => mret (WriteError 503 e)
          | Ok key =>
            sealed ← seal key pt;
            match sealed with
            | Err _ => mret (WriteError 500 "could not seal credential")
            | Ok sealed => store_it sealed
            end
          end
        end
  end.

Definition update (p : principal) (idp : option uuid) (rq : option secretReq)
    : M store (reply body) :=
  match idp with
  | None => mret (WriteError 400 "invalid id")
  | Some id =>
  match rq with
  | None => mret (WriteError 400 "invalid request body")
  | Some rq =>
    if str_eqb (TrimSpace (rq_name rq)) "" then mret (WriteError 400 "name is required")
    else
      r ← db (GetVaultSecret id);
      match r with
      | Err _ => mret (WriteError 404 "credential not found")
      | Ok existing =>
        if negb (str_eqb (sec_ext_provider existing) "") && negb (bool_decide (rq_secret rq = []))
        then mret (WriteError 400 "external-backed credentials store no local value; change it in the external secrets manager")
        else
          u ← db (UpdateVaultSecretMeta id (toInput rq (p_user p)));
          match u with
          | Err _ => mret (WriteError 500 "could not update credential")
          | Ok _ =>
            let finish :=
              v ← db (GetVaultSecret id);
              match v with
              | Err _ => mret (WriteError 404 "credential not found")
              | Ok v => _ ← audit "credential.update" id; mret (WriteJSON 200 (BSecret id v ""))
              end in
            if negb (bool_decide (rq_secret rq = [])) && str_eqb (sec_ext_provider existing) "" then
              match VaultKey with
              | Err e => mret (WriteError 503 e)
              | Ok key =>
                sealed ← seal key (rq_secret rq);
                match sealed with
                | Err _ => mret (WriteError 500 "could not seal credential")
                | Ok sealed =>
                  a ← db (AddVaultSecretVersion id sealed (p_user p));
                  match a with
                  | Err _ => mret (WriteError 500 "could not store new version")
                  | Ok _ => _ ← audit "credential.rotate" id; finish
                  end
                end
              end
            else finish
          end
      end
  end end.

Definition del (p : principal) (idp : option uuid) : M store (reply body) :=
  match idp with
  | None => mret (WriteError 400 "invalid id")
  | Some id =>
    _ ← db (GetVaultSecret id);
    r ← db (DeleteVaultSecret id);
    match r with
    | Err _ => mret (WriteError 500 "could not delete credential")
    | Ok _ => _ ← audit "credential.delete" id; mret (WriteJSON 200 (BStatus "deleted"))
    end
  end.

Definition listGrants (idp : option uuid) : M store (reply body) :=
  match idp with
  | None => mret (WriteError 400 "invalid id")
  | Some id =>
    r ← db (ListVaultGrants id);
    mret (match r with
          | Err _ => WriteError 500 "could not list grants"
          | Ok l => WriteJSON 200 (BGrants l)
          end)
  end.

Definition createGrant (idp : option uuid) (rq : option grantReq) : M store (reply body) :=
  match idp with
  | None => mret (WriteError 400 "invalid id")
  | Some id =>
  match rq with
  | None => mret (WriteError 400 "invalid request body")
  | Some rq =>
    if negb (str_eqb (gq_kind rq) "user") && negb (str_eqb (gq_kind rq) "group") then
      mret (WriteError 400 "subjectKind must be user or group")
    else
      let a := gq_access rq in
      let access := if str_eqb a "view" || str_eqb a "use" || str_eqb a "manage" then a else "view" in
      match gq_subject rq with
      | None => mret (WriteError 400 "invalid subjectId")
      | Some subject =>
        r ← db (CreateVaultGrant id (gq_kind rq) subject access);
        match r with
        | Err _ => mret (WriteError 500 "could not create grant")
        | Ok g => _ ← audit "credential.grant" id; mret (WriteJSON 201 (BGrant g))
        end
      end
  end end.

Definition deleteGrant (idp grantp : option uuid) : M store (reply body) :=
  match idp, grantp with
  | Some id, Some grantID =>
    r ← db (DeleteVaultGrant id grantID);
    match r with
    | Err _ => mret (WriteError 500 "could not delete grant")
    | Ok _ => _ ← audit "credential.revoke_grant" id; mret (WriteJSON 200 (BStatus "deleted"))
    end
  | _, _ => mret (WriteError 400 "invalid id")
  end.

(** ** Check-out *)

Definition checkout_minutes (m : Z) : Z :=
  let m := if m <=? 0 then 60 else m in
  if 480 <? m then 480 else m.

(** The responses written, in order: the failure of [decode] is written and then
    ignored, with whatever part of the body was decoded. *)
Definition requestCheckout (p : principal) (idp : option uuid) (decode_ok : bool)
    (rq : checkoutReq) : M store (list (reply body)) :=
  match idp with
  | None => mret [WriteError 400 "invalid id"]
  | Some id =>
    let written := if decode_ok then [] else [WriteError 400 "invalid request body"] in
    access ← effectiveAccess p id;
    if str_eqb access "" then
      mret (written ++ [WriteError 403 "you do not have access to that credential"])
    else
      r ← db (GetVaultSecret id);
      match r with
      | Err _ => mret (written ++ [WriteError 404 "credential not found"])
      | Ok v =>
        if str_eqb (sec_policy v) "open" then
          mret (written ++ [WriteError 400 "this credential does not require check-out"])
        else
          let minutes := checkout_minutes (cq_minutes rq) in
          let status := if str_eqb (sec_policy v) "approval" then CoPending else CoActive in
          c ← db (CreateVaultCheckout id (p_user p) (cq_reason rq) status (minutes * minute));
          match c with
          | Err _ => mret (written ++ [WriteError 500 "could not create check-out"])
          | Ok (cid, co) =>
            _ ← audit "credential.checkout_request" id;
            _ ← (if bool_decide (status = CoPending) && has_notify
                 then effect (notify_pending (p_user p)) else mret tt);
            mret (written ++ [WriteJSON 201 (BCheckout cid co)])
          end
      end
  end.

Definition myCheckouts (p : principal) : M store (reply body) :=
  r ← db (ListMyVaultCheckouts by_request (p_user p) 50);
  mret (match r with
        | Err _ => WriteError 500 "could not list check-outs"
        | Ok l => WriteJSON 200 (BCheckouts l)
        end).

Definition listCheckoutApprovals : M store (reply body) :=
  r ← db (ListPendingVaultCheckouts by_request 100);
  mret (match r with
        | Err _ => WriteError 500 "could not list approvals"
        | Ok l => WriteJSON 200 (BCheckouts l)
        end).

Definition checkin (p : principal) (idp : option uuid) : M store (reply body) :=
  match idp with
  | None => mret (WriteError 400 "invalid id")
  | Some id =>
    r ← db (GetVaultCheckout id);
    match r with
    | Err _ => mret (WriteError 404 "check-out not found")
    | Ok co =>
      if negb (bool_decide (co_user co = p_user p)) then mret (WriteError 404 "check-out not found")
      else if bool_decide (co_state co ≠ CoActive) && bool_decide (co_state co ≠ CoPending) then
        mret (WriteError 409 "this check-out is already closed")
      else
        okd ← db (SetVaultCheckoutStatus id (co_state co) CoCheckedIn None);
        match okd with
        | Ok true =>
          _ ← audit "credential.checkin" (co_secret co); mret (WriteJSON 200 (BStatus "checked_in"))
        | _ => mret (WriteError 409 "could not check in")
        end
    end
  end.

Definition decideCheckout (p : principal) (idp : option uuid) (to : co_status)
    : M store (reply body) :=
  match idp with
  | None => mret (WriteError 400 "invalid id")
  | Some id =>
    r ← db (GetVaultCheckout id);
    match r with
    | Err _ => mret (WriteError 404 "check-out not found")
    | Ok co =>
      if negb (bool_decide (co_state co = CoPending)) then
        mret (WriteError 409 "this check-out is already decided")
      else if bool_decide (co_user co = p_user p) then
        mret (WriteError 403 "you cannot approve your own check-out request")
      else
        okd ← db (SetVaultCheckoutStatus id CoPending to (Some (p_user p)));
        match okd with
        | Ok true =>
          _ ← audit (if bool_decide (to = CoDenied) then "credential.checkout_deny"
                     else "credential.checkout_approve") (co_secret co);
          r ← db (GetVaultCheckout id);
          mret (match r with
                | Ok co' => WriteJSON 200 (BCheckout id co')
                | Err _ => WriteJSON 200 (BStatus "null")
                end)
        | _ => mret (WriteError 409 "could not decide check-out")
        end
    end
  end.

Definition approveCheckout (p : principal) (idp : option uuid) := decideCheckout p idp CoActive.
Definition denyCheckout (p : principal) (idp : option uuid) := decideCheckout p idp CoDenied.

(** * Injection: [credinject] *)

Inductive ssh_auth := Password (pw : bytes) | PublicKeys (key : bytes).
Record Injection := MkInjection { inj_auth : option ssh_auth; inj_login : string; inj_secret : uuid }.

(** [ssh.ParsePrivateKey] accepts the key. *)
Context (ParsePrivateKey : bytes → bool).

(** The common tail of [For] and [ForSystem]. *)
Definition injection_of (h : host) (id : uuid) (v : secret) (pt : bytes)
    : res string (option Injection) :=
  let login := if str_eqb (sec_username v) "" then h_ssh_user h else sec_username v in
  if str_eqb (h_auth_method h) "vault_password" then
    Ok (Some (MkInjection (Some (Password pt)) login id))
  else if ParsePrivateKey pt then Ok (Some (MkInjection (Some (PublicKeys pt)) login id))
  else Err "the attached credential is not a valid SSH private key".

(** [Some true] takes the certificate path, [Some false] the vault path. *)
Definition cert_path (h : host) : option bool :=
  if str_eqb (h_auth_method h) "" || str_eqb (h_auth_method h) "fleet_cert" then Some true
  else if str_eqb (h_auth_method h) "vault_password" || str_eqb (h_auth_method h) "vault_ssh_key"
  then Some false else None.

(** The policy gates: a user must hold an active check-out, the system never does. *)
Definition user_gate (user : uuid) (id : uuid) (v : secret) : M store bool :=
  if negb (str_eqb (sec_policy v) "open") then
    r ← db (HasActiveCheckout id user);
    mret (match r with Ok b => b | Err _ => false end)
  else mret true.

Definition system_gate (id : uuid) (v : secret) : M store bool :=
  mret (str_eqb (sec_policy v) "open").

(** The attached secret, through a gate, resolved: the body every entry shares. *)
Definition attached (gate : uuid → secret → M store bool) (key : bytes) (h : host)
    : M store (res string (uuid * secret * bytes)) :=
  match h_credential h with
  | None => mret (Err "none is attached")
  | Some id =>
    r ← db (GetVaultSecret id);
    match r with
    | Err _ => mret (Err "the attached credential no longer exists")
    | Ok v =>
      ok ← gate id v;
      if negb ok then mret (Err "credential requires check-out")
      else
        pt ← resolve_open id v key;
        mret (match pt with
              | Err _ => Err "could not resolve the attached credential"
              | Ok pt => Ok (id, v, pt)
              end)
    end
  end.

Definition inject (gate : uuid → secret → M store bool) (key : bytes) (h : host)
    : M store (res string (option Injection)) :=
  match cert_path h with
  | None => mret (Err "unknown host auth method")
  | Some true => mret (Ok None)
  | Some false =>
    r ← attached gate key h;
    mret (match r with Err e => Err e | Ok (id, v, pt) => injection_of h id v pt end)
  end.

Definition For (key : bytes) (h : host) (user : uuid) := inject (user_gate user) key h.
Definition ForSystem (key : bytes) (h : host) := inject system_gate key h.

Record SystemMaterial := MkMaterial {
  m_login : string; m_method : string; m_password : bytes; m_key : bytes; m_secret : uuid;
}.

Definition MaterialForSystem (key : bytes) (h : host)
    : M store (res string (option SystemMaterial)) :=
  match cert_path h with
  | None => mret (Err "unknown host auth method")
  | Some true => mret (Ok None)
  | Some false =>
    r ← attached system_gate key h;
    mret (match r with
          | Err e => Err e
          | Ok (id, v, pt) =>
            let login := if str_eqb (sec_username v) "" then h_ssh_user h else sec_username v in
            if str_eqb (h_auth_method h) "vault_password" then
              Ok (Some (MkMaterial login (h_auth_method h) pt [] id))
            else if ParsePrivateKey pt then
              Ok (Some (MkMaterial login (h_auth_method h) [] pt id))
            else Err "the attached credential is not a valid SSH private key"
          end)
  end.

Definition password_for (gate : uuid → secret → M store bool) (key : bytes) (h : host)
    : M store (res string (string * bytes)) :=
  r ← attached gate key h;
  mret (match r with Err e => Err e | Ok (_, v, pt) => Ok (sec_username v, pt) end).

Definition PasswordFor (key : bytes) (h : host) (user : uuid) := password_for (user_gate user) key h.
Definition PasswordForSystem (key : bytes) (h : host) := password_for system_gate key h.
End handlers.

(** * Who may use a credential

    While the other requests only read, audit or notify, what a handler answers is a
    function of the tables it started with. *)
Definition same (s s' : store) : Prop :=
  secrets s' = secrets s ∧ versions s' = versions s ∧ vgrants s' = vgrants s ∧
  user_groups s' = user_groups s ∧ checkouts s' = checkouts s ∧ hosts s' = hosts s.

#[export] Instance same_preorder : PreOrder same.
Proof. split; [done|]. intros s1 s2 s3. unfold same. naive_solver congruence. Qed.
#[export] Instance same_stable s0 : Stable same (same s0).
Proof. intros s s' H1 H2. by etrans. Qed.

Lemma same_audit e now s : same s (AppendAudit e now s).2.
Proof. done. Qed.

(** [user] holds an active check-out of [id] at [now]. *)
Definition holds_checkout (s : store) (now : Z) (id user : uuid) : Prop :=
  ∃ cid c, checkouts s !! cid = Some c ∧ checkout_active now id user c.

(** The plaintext of the current value. *)
Definition secret_value `{!SecretBox} (configured : bool) (fetch : string → string → res string bytes)
    (s : store) (id : uuid) (v : secret) (key pt : bytes) : Prop :=
  if str_eqb (sec_ext_provider v) ""
  then ∃ sealed, current_sealed s id = Some sealed ∧ box_open key sealed = Ok pt
  else configured = true ∧ fetch (TrimSpace (sec_ext_provider v)) (sec_ext_ref v) = Ok pt.

Lemma HasActiveCheckout_spec id user now s :
  (HasActiveCheckout id user now s).1 = Ok true ↔ holds_checkout s now id user.
Proof.
  simpl. unfold holds_checkout.
  set (m := filter _ _). destruct (decide (m = ∅)) as [He|He].
  - rewrite He. split; [done|]. intros (cid & c & Hc & Ha).
    assert (m !! cid = Some c) as Hm by (by apply map_lookup_filter_Some). by rewrite He in Hm.
  - split; [intros _|intros _].
    + apply map_choose in He as (cid & c & [Hc Ha]%map_lookup_filter_Some). eauto.
    + f_equal. apply Z.ltb_lt. pose proof (proj2 (map_size_non_empty_iff m) He). lia.
Qed.

(** What a gate has checked when it lets a caller through. *)
Section reading.
Context `{!Env store, !Relies same, !SecretBox}.
Context (s0 : store).

Abbreviation pre := (same s0).

Lemma same_current_sealed s id : same s0 s → current_sealed s id = current_sealed s0 id.
Proof. intros (He & Hv & _). unfold current_sealed, current_versions. by rewrite He, Hv. Qed.

Lemma guar_get_secret id :
  guar same pre (db (GetVaultSecret id))
    (λ r s, pre s ∧ ∀ v, r = Ok v → secrets s0 !! id = Some v).
Proof.
  eapply guar_conseq; [apply guar_get_row with (P := same s0); exact _|done|].
  intros r s [Hs Hr]. split; [done|]. intros v Hv. rewrite <-(proj1 Hs). by apply Hr.
Qed.

Definition gate_spec (id user : uuid) (v : secret) : Prop :=
  sec_policy v = "open" ∨ ∃ n, holds_checkout s0 (clock n) id user.

Lemma guar_has_active id user :
  guar same pre (db (HasActiveCheckout id user))
    (λ r s, pre s ∧ (r = Ok true → ∃ n, holds_checkout s0 (clock n) id user)).
Proof.
  apply guar_db_at; [exact _..|done|]. intros n s Hs. split; [done|]. split; [done|].
  intros Hr%HasActiveCheckout_spec. exists n. unfold holds_checkout in *.
  destruct Hs as (_ & _ & _ & _ & Hc & _). by rewrite <-Hc.
Qed.

Lemma guar_user_gate user id v :
  guar same pre (user_gate user id v)
    (λ b s, pre s ∧ (b = true → gate_spec id user v)).
Proof.
  unfold user_gate, gate_spec. destruct (str_eqb (sec_policy v) "open") eqn:Ho.
  - apply str_eqb_eq in Ho. apply guar_ret; [exact _|]. eauto.
  - eapply guar_bind; [exact _|apply guar_has_active|].
    intros r. apply guar_ret; [exact _|]. intros s [Hs Hr]. split; [done|].
    destruct r as [[]|]; try done. eauto.
Qed.

Lemma guar_resolve cfg fetch id v key :
  guar same pre (resolve_open cfg fetch id v key)
    (λ r s, pre s ∧ ∀ pt, r = Ok pt → secret_value cfg fetch s0 id v key pt).
Proof.
  unfold resolve_open, secret_value. destruct (str_eqb (sec_ext_provider v) ""); simpl.
  - eapply guar_bind; [exact _|apply guar_get_row; exact _|].
    intros r. apply guar_ret; [exact _|]. intros s [Hs Hr]. split; [done|]. intros pt.
    destruct r as [sealed|]; [|done]. specialize (Hr _ eq_refl).
    destruct (box_open key sealed) eqn:Hb; [|done]. intros [= ->].
    rewrite <-(same_current_sealed s) by done. eauto.
  - destruct cfg; simpl; [|by apply guar_ret; [exact _|]].
    destruct (Supported _); simpl; [|by apply guar_ret; [exact _|]].
    apply guar_ret; [exact _|]. done.
Qed.

(** The shared body of the four injection entries, for any gate. *)
Lemma guar_attached cfg fetch gate (G : uuid → secret → Prop) key h :
  (∀ id v, guar same pre (gate id v) (λ b s, pre s ∧ (b = true → G id v))) →
  guar same pre (attached cfg fetch gate key h)
    (λ r s, ∀ id v pt, r = Ok (id, v, pt) → h_credential h = Some id ∧
       secrets s0 !! id = Some v ∧ G id v ∧ secret_value cfg fetch s0 id v key pt).
Proof.
  intros Hg. unfold attached. destruct (h_credential h) as [id|]; [|by apply guar_ret; [exact _|]].
  eapply guar_bind; [exact _|apply guar_get_secret|].
  intros [v|]; [|by apply guar_ret; [exact _|]]. simpl.
  apply guar_weaken with (P' := λ s, pre s ∧ secrets s0 !! id = Some v);
    [|intros s [Hs Hv]; split; [done|by apply Hv]].
  apply guar_pure. intros Hv.
  eapply guar_bind; [exact _|apply Hg|].
  intros [|]; simpl; [|by apply guar_ret; [exact _|]].
  apply guar_weaken with (P' := λ s, pre s ∧ G id v); [|intros s [Hs HG]; split; [done|by apply HG]].
  apply guar_pure. intros HG.
  eapply guar_bind; [exact _|apply guar_resolve|].
  intros r. apply guar_ret; [exact _|]. intros s [_ Hr] id' v' pt. destruct r as [pt'|]; [|done].
  intros [= <- <- <-]. auto.
Qed.

Lemma guar_attached_user cfg fetch user key h :
  guar same pre (attached cfg fetch (user_gate user) key h)
    (λ r s, ∀ id v pt, r = Ok (id, v, pt) → h_credential h = Some id ∧
       secrets s0 !! id = Some v ∧ gate_spec id user v ∧ secret_value cfg fetch s0 id v key pt).
Proof. apply guar_attached. intros. apply guar_user_gate. Qed.

Lemma guar_attached_system cfg fetch key h :
  guar same pre (attached cfg fetch system_gate key h)
    (λ r s, ∀ id v pt, r = Ok (id, v, pt) → h_credential h = Some id ∧
       secrets s0 !! id = Some v ∧ sec_policy v = "open" ∧ secret_value cfg fetch s0 id v key pt).
Proof.
  apply guar_attached. intros id v. apply guar_ret; [exact _|]. intros s Hs.
  split; [done|]. apply str_eqb_eq.
Qed.

Lemma injection_of_secret ppk h id v pt inj :
  injection_of ppk h id v pt = Ok (Some inj) →
  inj_secret inj = id ∧ (inj_auth inj = Some (Password pt) ∨ inj_auth inj = Some (PublicKeys pt)).
Proof. unfold injection_of. repeat case_match; intros [= <-]; auto. Qed.

(** [inject] through a gate [G] hands out only the attached secret's current value. *)
Lemma guar_inject cfg fetch ppk gate (G : uuid → secret → Prop) key h :
  guar same pre (attached cfg fetch gate key h)
    (λ r s, ∀ id v pt, r = Ok (id, v, pt) → h_credential h = Some id ∧
       secrets s0 !! id = Some v ∧ G id v ∧ secret_value cfg fetch s0 id v key pt) →
  guar same pre (inject cfg fetch ppk gate key h)
    (λ r s, ∀ inj, r = Ok (Some inj) → ∃ v pt,
       h_credential h = Some (inj_secret inj) ∧ secrets s0 !! inj_secret inj = Some v ∧
       G (inj_secret inj) v ∧ secret_value cfg fetch s0 (inj_secret inj) v key pt ∧
       (inj_auth inj = Some (Password pt) ∨ inj_auth inj = Some (PublicKeys pt))).
Proof.
  intros Ha. unfold inject. destruct (cert_path h) as [[]|]; [by apply guar_ret; [exact _|]| |by apply guar_ret; [exact _|]].
  eapply guar_bind; [exact _|exact Ha|]. intros r. apply guar_ret; [exact _|].
  intros s Hr inj. destruct r as [[[id v] pt]|]; [|done]. intros Hinj.
  destruct (Hr id v pt eq_refl) as (?&?&?&?).
  apply injection_of_secret in Hinj as [<- Hauth]. exists v, pt. auto.
Qed.

Lemma guar_effective_access (p : principal) id :
  guar same pre (effectiveAccess p id)
    (λ a s, pre s ∧ (a ≠ "" → p_has p "Credential.Manage" = true ∨ user_access s0 (p_user p) id ≠ "")).
Proof.
  unfold effectiveAccess. destruct (p_has p "Credential.Manage") eqn:Hm.
  - apply guar_ret; [exact _|]. auto.
  - eapply guar_bind with (Q := λ r s, pre s ∧ ∀ a, r = Ok a → a = user_access s0 (p_user p) id); [exact _| |].
    + apply guar_db; [exact _..|done|]. intros now s Hs. split; [done|]. split; [done|].
      simpl. intros a [= <-]. unfold user_access, grant_applies. destruct Hs as (_&_&Hg&Hug&_). by rewrite Hg, Hug.
    + intros r. apply guar_ret; [exact _|]. intros s [Hs Hr]. split; [done|].
      destruct r as [a|]; [|done]. rewrite (Hr a eq_refl). auto.
Qed.

(** The gate of [reveal], when the policy could be read. *)
Lemma guar_reveal_gate p id :
  guar same pre (reveal_gate p id)
    (λ b s, pre s ∧ (b = true → (∃ n, db_err n = true) ∨
       ∀ v, secrets s0 !! id = Some v → gate_spec id (p_user p) v)).
Proof.
  unfold reveal_gate.
  eapply guar_bind with (Q := λ r s, pre s ∧
    match r with Ok v => secrets s0 !! id = Some v
               | Err _ => (∃ n, db_err n = true) ∨ secrets s0 !! id = None end); [exact _| |].
  { apply guar_db_at; [exact _..|eauto|]. intros n s Hs. split; [done|]. split; [done|].
    simpl. rewrite <-(proj1 Hs). destruct (secrets s !! id); [done|by right]. }
  intros [v|e].
  - change (guar same (λ s, pre s ∧ secrets s0 !! id = Some v) (user_gate (p_user p) id v)
      (λ b s, pre s ∧ (b = true → (∃ n, db_err n = true) ∨
         ∀ v, secrets s0 !! id = Some v → gate_spec id (p_user p) v))).
    apply guar_pure. intros Hv. eapply guar_conseq; [apply guar_user_gate|done|].
    intros b s [Hs Hb]. split; [done|]. intros Ht. right. intros v' Hv'. simplify_eq. by apply Hb.
  - apply guar_ret; [exact _|]. intros s [Hs He]. split; [done|]. intros _.
    destruct He as [He|He]; [auto|right]. intros v. by rewrite He.
Qed.

(** What a 200 of [reveal] means. *)
Definition reveal_post (cfg : bool) fetch (vk : res string bytes) (p : principal) (id : uuid)
    (r : reply body) : Prop :=
  ∀ c b, r = WriteJSON c b → ∃ v pt key, b = BPlain pt ∧ secrets s0 !! id = Some v ∧
    (p_has p "Credential.Manage" = true ∨
     user_access s0 (p_user p) id ≠ "" ∧ p_has p "Credential.View" = true) ∧
    ((∃ n, db_err n = true) ∨ gate_spec id (p_user p) v) ∧
    (sec_ext_provider v = "" → vk = Ok key) ∧ secret_value cfg fetch s0 id v key pt.

Lemma guar_reveal cfg fetch vk p id :
  guar same pre (reveal vk cfg fetch p (Some id)) (λ r _, reveal_post cfg fetch vk p id r).
Proof.
  assert (∀ (P : store → Prop) c m, guar same P (mret (WriteError c m))
    (λ r _, reveal_post cfg fetch vk p id r)) as Herr by (intros; by apply guar_ret; [exact _|]).
  unfold reveal. eapply guar_bind; [exact _|apply guar_effective_access|]. intros access.
  destruct (str_eqb access "") eqn:Ha; [apply Herr|].
  destruct (negb _ && negb _) eqn:Hperm; [apply Herr|].
  eapply guar_weaken with (P' := λ s, pre s ∧ (p_has p "Credential.Manage" = true ∨
     user_access s0 (p_user p) id ≠ "" ∧ p_has p "Credential.View" = true)).
  2: { intros s [Hs Hacc]. split; [done|].
       assert (access ≠ "") as Hne by (intros ->; done). specialize (Hacc Hne).
       destruct (p_has p "Credential.Manage"); [auto|right]. destruct Hacc as [|?]; [done|].
       split; [done|]. by destruct (p_has p "Credential.View"). }
  apply guar_pure. intros Hcap.
  eapply guar_bind; [exact _|apply guar_reveal_gate|]. intros []; simpl; [|apply Herr].
  eapply guar_weaken with (P' := λ s, pre s ∧ ((∃ n, db_err n = true) ∨
      ∀ v, secrets s0 !! id = Some v → gate_spec id (p_user p) v));
    [|intros s [Hs Hg]; split; [done|by apply Hg]].
  apply guar_pure. intros Hgate.
  eapply guar_bind; [exact _|apply guar_get_secret|]. intros [v|]; [|apply Herr].
  eapply guar_weaken with (P' := λ s, pre s ∧ secrets s0 !! id = Some v);
    [|intros s [Hs Hv]; split; [done|by apply Hv]].
  apply guar_pure. intros Hv.
  assert (∀ key, (sec_ext_provider v = "" → vk = Ok key) →
    guar same pre (r ← resolve_open cfg fetch id v key;
      match r with
      | Ok pt => _ ← audit "credential.reveal" id; mret (WriteJSON 200 (BPlain pt))
      | Err _ => mret (WriteError 502 "could not resolve credential")
      end) (λ r _, reveal_post cfg fetch vk p id r)) as Hgo.
  { intros key Hkey. eapply guar_bind; [exact _|apply guar_resolve|].
    intros [pt|]; [|apply Herr]. intros w [Hs Hpt]. split.
    - unfold audit. simpl. unfold mbind, M_bind, mret, M_ret, db. pose proof (relies (w_tick w) (w_db w)).
      destruct (db_err _); done.
    - intros c b. unfold audit, mbind, M_bind, mret, M_ret, db.
      destruct (db_err _); simpl; intros [= <- <-]; exists v, pt, key; split_and!;
        (done || auto || (destruct Hgate; auto)). }
  destruct (str_eqb (sec_ext_provider v) "") eqn:Hx.
  - destruct vk as [key|e]; [|apply Herr]. by apply Hgo.
  - apply Hgo. intros He. rewrite He in Hx. done.
Qed.
End reading.

(** * The statements as a transition system *)

Inductive step : relation store :=
| step_insert i sealed now s : step s (InsertVaultSecret i sealed now s).2
| step_update id i now s : step s (UpdateVaultSecretMeta id i now s).2
| step_rotation_policy id d now s : step s (SetVaultRotationPolicy id d now s).2
| step_rotated id at_ now s : step s (MarkVaultRotated id at_ now s).2
| step_defer id now s : step s (DeferVaultRotation id now s).2
| step_version id sealed by_ now s : step s (AddVaultSecretVersion id sealed by_ now s).2
| step_reseal id sealed now s : step s (UpdateVaultVersionSeal id sealed now s).2
| step_delete id now s : step s (DeleteVaultSecret id now s).2
| step_grant id k u a now s : step s (CreateVaultGrant id k u a now s).2
| step_ungrant id gid now s : step s (DeleteVaultGrant id gid now s).2
| step_checkout id u r st ttl now s :
    minute ≤ ttl ≤ 480 * minute → st = CoPending ∨ st = CoActive →
    step s (CreateVaultCheckout id u r st ttl now s).2
| step_decide id to by_ now s :
    to = CoActive ∨ to = CoDenied →
    (∀ c, checkouts s !! id = Some c → co_user c ≠ by_) →
    step s (SetVaultCheckoutStatus id CoPending to (Some by_) now s).2
| step_checkin id from now s :
    from = CoActive ∨ from = CoPending →
    step s (SetVaultCheckoutStatus id from CoCheckedIn None now s).2
| step_expire now s : step s (ExpireVaultCheckouts now s).2
| step_audit e now s : step s (AppendAudit e now s).2
| step_notify u s : step s (notify_pending u s).

Abbreviation steps := (rtc step).

(** A check-out row: its lifetime is between a minute and eight hours; nobody decided
    his own; one that was inserted for approval is active only by somebody else's
    decision, and one that was not was never pending. *)
Definition co_ok (c : checkout) : Prop :=
  minute ≤ co_expires_at c - co_requested_at c ≤ 480 * minute ∧
  (∀ d, co_decided_by c = Some d → d ≠ co_user c) ∧
  (co_state c = CoPending → co_decided_by c = None ∧ co_initial c = CoPending) ∧
  (co_state c = CoActive → co_initial c = CoPending → is_Some (co_decided_by c)).

Record Inv (s : store) : Prop := {
  inv_co : ∀ id c, checkouts s !! id = Some c → co_ok c;
  inv_ids : ∀ id c, checkouts s !! id = Some c → id ∈ used_ids s;
  (** every secret has exactly one current version; no version is ahead of it *)
  inv_cur : ∀ id v, secrets s !! id = Some v →
    ∃ k r, versions s !! k = Some r ∧ v_secret r = id ∧ v_version r = sec_version v;
  inv_le : ∀ k r, versions s !! k = Some r →
    ∃ v, secrets s !! v_secret r = Some v ∧ v_version r ≤ sec_version v;
  inv_uniq : ∀ k k' r r', versions s !! k = Some r → versions s !! k' = Some r' →
    v_secret r = v_secret r' → v_version r = v_version r' → k = k';
}.

Definition empty_store : store := Store ∅ ∅ ∅ ∅ ∅ ∅ [] [] ∅.

Lemma vault_Inv_empty : Inv empty_store.
Proof. split; intros *; simpl; rewrite ?lookup_empty; done. Qed.

(** Statements that leave versions, check-outs and the current versions alone. *)
Lemma Inv_same_rows s s' :
  versions s' = versions s → checkouts s' = checkouts s → used_ids s' = used_ids s →
  (∀ id, sec_version <$> secrets s' !! id = sec_version <$> secrets s !! id) →
  Inv s → Inv s'.
Proof.
  intros Hv Hc Hu Hs [H1 H2 H3 H4 H5]. split; rewrite ?Hv, ?Hc, ?Hu; [done|done| | |done].
  - intros id v Hid. pose proof (Hs id) as He. rewrite Hid in He. simpl in He.
    symmetry in He. apply fmap_Some in He as (v0 & Hv0 & He). rewrite He. eauto.
  - intros k r Hk. destruct (H4 k r Hk) as (v & Hid & Hle). pose proof (Hs (v_secret r)) as He.
    rewrite Hid in He. simpl in He. apply fmap_Some in He as (v0 & Hv0 & He).
    exists v0. split; [done|]. lia.
Qed.

Lemma lookup_alter_version (f : secret → secret) i (m : gmap uuid secret) id :
  (∀ v, sec_version (f v) = sec_version v) →
  sec_version <$> alter f i m !! id = sec_version <$> m !! id.
Proof.
  intros Hf. destruct (decide (i = id)) as [->|].
  - rewrite lookup_alter_eq. destruct (m !! id); simpl; [by rewrite Hf|done].
  - by rewrite lookup_alter_ne.
Qed.

Lemma vault_Inv_insert i sealed now s : Inv s → Inv (InsertVaultSecret i sealed now s).2.
Proof.
  intros [H1 H2 H3 H4 H5]. pose proof (fresh_lookup (secrets s)) as Hf.
  pose proof (fresh_lookup (versions s)) as Hg.
  split; simpl; [done|done|..].
  - intros id v [[<- <-]|[Hne Hid]]%lookup_insert_Some.
    + eexists _, _. by rewrite lookup_insert_eq.
    + destruct (H3 _ _ Hid) as (k & r & Hk & ? & ?). exists k, r.
      rewrite lookup_insert_ne by congruence. done.
  - intros k r [[<- <-]|[Hne Hk]]%lookup_insert_Some; simpl.
    + eexists. by rewrite lookup_insert_eq.
    + destruct (H4 _ _ Hk) as (v & Hv & ?). exists v.
      rewrite lookup_insert_ne by congruence. done.
  - intros k k' r r' [[<- <-]|[Hne Hk]]%lookup_insert_Some
      [[<- <-]|[Hne' Hk']]%lookup_insert_Some; simpl; [done| | |by eauto].
    + intros He. destruct (H4 _ _ Hk') as (v & Hv & _). congruence.
    + intros He. destruct (H4 _ _ Hk) as (v & Hv & _). congruence.
Qed.

Lemma Inv_version id sealed by_ now s : Inv s → Inv (AddVaultSecretVersion id sealed by_ now s).2.
Proof.
  intros Hinv. unfold AddVaultSecretVersion. destruct (secrets s !! id) as [v|] eqn:Hid; [|done].
  destruct Hinv as [H1 H2 H3 H4 H5]. pose proof (fresh_lookup (versions s)) as Hg.
  assert (∀ k r, versions s !! k = Some r → v_secret r = id → v_version r ≤ sec_version v) as Hlt.
  { intros k r Hk He. destruct (H4 _ _ Hk) as (v0 & Hv0 & ?). simplify_eq. done. }
  split; simpl; [done|done|..].
  - intros id' v' [[<- <-]|[Hne Hid']]%lookup_insert_Some.
    + eexists _, _. by rewrite lookup_insert_eq.
    + destruct (H3 _ _ Hid') as (k & r & Hk & ? & ?). exists k, r.
      rewrite lookup_insert_ne by congruence. done.
  - intros k r [[<- <-]|[Hne Hk]]%lookup_insert_Some; simpl.
    + eexists. rewrite lookup_insert_eq. split; [done|]. simpl. lia.
    + destruct (H4 _ _ Hk) as (v0 & Hv0 & Hle). destruct (decide (v_secret r = id)) as [<-|].
      * eexists. rewrite lookup_insert_eq. split; [done|]. simpl. specialize (Hlt _ _ Hk eq_refl). lia.
      * exists v0. by rewrite lookup_insert_ne.
  - intros k k' r r' [[<- <-]|[Hne Hk]]%lookup_insert_Some
      [[<- <-]|[Hne' Hk']]%lookup_insert_Some; simpl; [done| | |by eauto]; intros Hs Hv.
    + specialize (Hlt _ _ Hk' (eq_sym Hs)). lia.
    + specialize (Hlt _ _ Hk Hs). lia.
Qed.

Lemma Inv_reseal id sealed now s : Inv s → Inv (UpdateVaultVersionSeal id sealed now s).2.
Proof.
  intros [H1 H2 H3 H4 H5].
  assert (∀ k r, alter (with_sealed sealed) id (versions s) !! k = Some r →
    ∃ r0, versions s !! k = Some r0 ∧ v_secret r0 = v_secret r ∧ v_version r0 = v_version r) as Hback.
  { intros k r. destruct (decide (id = k)) as [->|].
    - rewrite lookup_alter_eq. intros (r0 & ? & ->)%fmap_Some. eauto.
    - rewrite lookup_alter_ne by done. eauto. }
  split; simpl; [done|done|..].
  - intros i v Hi. destruct (H3 _ _ Hi) as (k & r & Hk & ? & ?). exists k.
    destruct (decide (id = k)) as [->|].
    + rewrite lookup_alter_eq, Hk. simpl. eauto.
    + rewrite lookup_alter_ne by done. eauto.
  - intros k r (r0 & Hk & <- & <-)%Hback. eauto.
  - intros k k' r r' (r0 & Hk & <- & <-)%Hback (r0' & Hk' & <- & <-)%Hback. eauto.
Qed.

Lemma Inv_delete id now s : Inv s → Inv (DeleteVaultSecret id now s).2.
Proof.
  intros [H1 H2 H3 H4 H5]. split; simpl.
  - intros i c [Hc _]%map_lookup_filter_Some. eauto.
  - intros i c [Hc _]%map_lookup_filter_Some. eauto.
  - intros i v [Hne Hi]%lookup_delete_Some. destruct (H3 _ _ Hi) as (k & r & Hk & He & ?).
    exists k, r. split; [|done]. apply map_lookup_filter_Some. split; [done|]. simpl. congruence.
  - intros k r [Hk Hne]%map_lookup_filter_Some. destruct (H4 _ _ Hk) as (v & ? & ?).
    exists v. split; [|done]. apply lookup_delete_Some. split; [|done]. intros ->. by apply Hne.
  - intros k k' r r' [Hk _]%map_lookup_filter_Some [Hk' _]%map_lookup_filter_Some. eauto.
Qed.

Lemma Inv_checkouts s s' :
  versions s' = versions s → secrets s' = secrets s →
  (∀ id c, checkouts s' !! id = Some c → co_ok c ∧ id ∈ used_ids s') → Inv s → Inv s'.
Proof.
  intros Hv Hs Hc [H1 H2 H3 H4 H5].
  split; rewrite ?Hv, ?Hs; [| |done..]; intros id c Hid; by apply (Hc id c).
Qed.

Lemma Inv_set_status id from to by_ now s :
  (∀ c, checkouts s !! id = Some c → co_state c = from → co_ok c →
     co_ok (set_co_status c to by_ now)) →
  Inv s → Inv (SetVaultCheckoutStatus id from to by_ now s).2.
Proof.
  intros Hok Hinv. unfold SetVaultCheckoutStatus.
  destruct (checkouts s !! id) as [c|] eqn:Hid; [|done]. case_decide as Hf; [|done].
  apply (Inv_checkouts s); [done|done| |done]. simpl.
  intros i c' [[<- <-]|[Hne Hi]]%lookup_insert_Some.
  - split; [|by eapply inv_ids]. apply Hok; [done|done|by eapply inv_co].
  - split; [by eapply inv_co|by eapply inv_ids].
Qed.

Lemma vault_Inv_step s s' : step s s' → Inv s → Inv s'.
Proof.
  intros Hs Hinv. destruct Hs as [| | | | | | | | | |id u r st ttl now s Httl Hst
    |id to by_ now s Hto Hby|id from now s Hfrom|now s| |].
  - by apply vault_Inv_insert.
  - eapply Inv_same_rows; [| | | |exact Hinv]; [done..|]. intros. by apply lookup_alter_version.
  - eapply Inv_same_rows; [| | | |exact Hinv]; [done..|]. intros. by apply lookup_alter_version.
  - eapply Inv_same_rows; [| | | |exact Hinv]; [done..|]. intros. by apply lookup_alter_version.
  - eapply Inv_same_rows; [| | | |exact Hinv]; [done..|]. intros. by apply lookup_alter_version.
  - by apply Inv_version.
  - by apply Inv_reseal.
  - by apply Inv_delete.
  - unfold CreateVaultGrant. case_match; [eapply Inv_same_rows; [| | | |exact Hinv]; done|].
    case_match. eapply Inv_same_rows; [| | | |exact Hinv]; done.
  - eapply Inv_same_rows; [| | | |exact Hinv]; done.
  - apply (Inv_checkouts s); [done|done| |done]. simpl.
    intros i c [[<- <-]|[Hne Hi]]%lookup_insert_Some.
    + split; [|set_solver]. unfold co_ok. simpl. split_and!; [lia|lia|done|..]; destruct Hst; naive_solver.
    + split; [by eapply inv_co|]. pose proof (inv_ids _ Hinv _ _ Hi). set_solver.
  - apply Inv_set_status; [|done]. intros c Hc Hp (H1 & H2 & H3 & H4).
    specialize (Hby c Hc). unfold co_ok. simpl. rewrite bool_decide_true by done.
    split_and!; [lia|lia| |..]; [by intros d [= <-]|destruct Hto; congruence|done].
  - apply Inv_set_status; [|done]. intros c Hc Hp (H1 & H2 & H3 & H4).
    unfold co_ok. simpl. split_and!; [lia|lia|done|done|done].
  - apply (Inv_checkouts s); [done|done| |done]. simpl.
    intros i c. rewrite lookup_fmap. intros (c0 & Hc0 & ->)%fmap_Some.
    split; [|by eapply inv_ids]. pose proof (inv_co _ Hinv _ _ Hc0) as (H1 & H2 & H3 & H4).
    destruct (co_expirable now c0); [|done]. unfold co_ok. simpl. split_and!; [lia|lia|done|done|done].
  - eapply Inv_same_rows; [| | | |exact Hinv]; done.
  - eapply Inv_same_rows; [| | | |exact Hinv]; done.
Qed.

Lemma vault_Inv_steps s s' : steps s s' → Inv s → Inv s'.
Proof. induction 1; eauto using vault_Inv_step. Qed.

(** * The handlers stay within the statements *)

(** Whoever the row of [id] belongs to, it is [u]; a deleted id does not come back. *)
Definition owner_is (id u : uuid) (s : store) : Prop :=
  id ∈ used_ids s ∧ ∀ c, checkouts s !! id = Some c → co_user c = u.

Lemma step_owner id u s s' : step s s' → owner_is id u s → owner_is id u s'.
Proof.
  intros Hs [Hid Ho]. destruct Hs as [| | | | |id' sl b now s| |id' now s|id' k v a now s| |id' v r st ttl now s _ _
    |id' to by_ now s Hto Hby|id' from now s Hfrom|now s| |]; try done.
  - unfold AddVaultSecretVersion. by case_match.
  - split; [done|]. simpl. intros c [Hc _]%map_lookup_filter_Some. eauto.
  - unfold CreateVaultGrant. case_match; [done|]. by case_match.
  - split; simpl; [set_solver|]. intros c [[He _]|[_ Hc]]%lookup_insert_Some; [|eauto].
    pose proof (is_fresh (used_ids s ∪ dom (checkouts s))). set_solver.
  - unfold SetVaultCheckoutStatus. destruct (checkouts s !! id') as [c0|] eqn:Hc0; [|done].
    case_decide; [|done]. split; [done|]. simpl.
    intros c [[-> <-]|[_ Hc]]%lookup_insert_Some; simpl; eauto.
  - unfold SetVaultCheckoutStatus. destruct (checkouts s !! id') as [c0|] eqn:Hc0; [|done].
    case_decide; [|done]. split; [done|]. simpl.
    intros c [[-> <-]|[_ Hc]]%lookup_insert_Some; simpl; eauto.
  - split; [done|]. simpl. intros c. rewrite lookup_fmap. intros (c0 & Hc0 & ->)%fmap_Some.
    case_match; simpl; eauto.
Qed.

#[export] Instance stable_owner id u : Stable steps (owner_is id u).
Proof. intros s s' H Hs. induction Hs; eauto using step_owner. Qed.
#[export] Instance stable_vault_Inv : Stable steps Inv.
Proof. intros s s' H Hs. by eapply vault_Inv_steps. Qed.

(** What a relation on states has to allow for the handlers to stay within it: the
    statements they send, with the inputs they send them with. *)
Class Closed (R : relation store) : Prop := {
  c_insert rq u sealed now s : R s (InsertVaultSecret (toInput rq u) sealed now s).2;
  c_update id rq u now s : R s (UpdateVaultSecretMeta id (toInput rq u) now s).2;
  c_version id sealed b now s : R s (AddVaultSecretVersion id sealed b now s).2;
  c_delete id now s : R s (DeleteVaultSecret id now s).2;
  c_grant id k u a now s : R s (CreateVaultGrant id k u a now s).2;
  c_ungrant id g now s : R s (DeleteVaultGrant id g now s).2;
  c_checkout id u r st m now s : st = CoPending ∨ st = CoActive →
    R s (CreateVaultCheckout id u r st (checkout_minutes m * minute) now s).2;
  c_checkin id from now s : from = CoActive ∨ from = CoPending →
    R s (SetVaultCheckoutStatus id from CoCheckedIn None now s).2;
  c_expire now s : R s (ExpireVaultCheckouts now s).2;
  c_audit e now s : R s (AppendAudit e now s).2;
  c_notify u s : R s (notify_pending u s);
}.
Ltac closed_stmt := first [ apply c_insert | apply c_update | apply c_version | apply c_delete
  | apply c_grant | apply c_ungrant | apply c_expire | apply c_audit | apply c_notify ].
#[export] Hint Extern 1 => progress closed_stmt : within.

Lemma checkout_minutes_bounds m : 1 ≤ checkout_minutes m ≤ 480.
Proof.
  unfold checkout_minutes. destruct (m <=? 0) eqn:H1; [done|].
  destruct (480 <? m) eqn:H2; lia.
Qed.

#[export] Instance steps_closed : Closed steps.
Proof.
  split; intros; apply rtc_once; try by constructor.
  apply step_checkout; [|done]. pose proof (checkout_minutes_bounds m). unfold minute, second. lia.
Qed.

Section within.
Context `{!Env store, !SecretBox} (R : relation store) `{!PreOrder R, !Relies R, !Closed R}.
Context (vk : res string bytes) (rnd : nat → rand_draw) (hn cfg : bool).
Context (fetch : string → string → res string bytes) (scan_ok : nat → nat → bool).
Context (order : list (uuid * checkout) → list (uuid * checkout)).

Lemma within_query {A} (f : Z → store → res store_error A) :
  within R (db (λ now s, (f now s, s))).
Proof. apply (within_reading R). Qed.
Hint Resolve within_query : within.

Lemma within_vault_audit a id : within R (audit a id).
Proof. unfold audit. within_tac. Qed.
Lemma within_seal key pt : within R (seal rnd key pt).
Proof. by intros w _. Qed.
Lemma within_effectiveAccess p id : within R (effectiveAccess p id).
Proof. unfold effectiveAccess. within_tac. Qed.
Lemma within_reveal_gate p id : within R (reveal_gate p id).
Proof. unfold reveal_gate, GetVaultSecret. within_tac. Qed.
Lemma within_resolve id v key : within R (resolve_open cfg fetch id v key).
Proof. unfold resolve_open, GetVaultSecretSealed. within_tac. Qed.
Hint Resolve within_vault_audit within_seal within_effectiveAccess within_reveal_gate
  within_resolve : within.

Lemma within_list p : within R (list_ scan_ok p).
Proof. unfold list_. within_tac. Qed.
Lemma within_get p id : within R (get p id).
Proof. unfold get, GetVaultSecret. within_tac. Qed.
Lemma within_reveal p id : within R (reveal vk cfg fetch p id).
Proof. unfold reveal, GetVaultSecret. within_tac. Qed.
Lemma within_vault_create p rq : within R (create vk rnd cfg p rq).
Proof. unfold create, CreateVaultSecret, GetVaultSecret. within_tac. Qed.
Lemma within_update p id rq : within R (update vk rnd p id rq).
Proof. unfold update, GetVaultSecret. within_tac. Qed.
Lemma within_del p id : within R (del p id).
Proof. unfold del, GetVaultSecret. within_tac. Qed.
Lemma within_listGrants id : within R (listGrants id).
Proof. unfold listGrants. within_tac. Qed.
Lemma within_createGrant id rq : within R (createGrant id rq).
Proof. unfold createGrant. within_tac. Qed.
Lemma within_deleteGrant id g : within R (deleteGrant id g).
Proof. unfold deleteGrant. within_tac. Qed.
Lemma within_myCheckouts p : within R (myCheckouts order p).
Proof. unfold myCheckouts. within_tac. Qed.
Lemma within_listApprovals : within R (listCheckoutApprovals order).
Proof. unfold listCheckoutApprovals. within_tac. Qed.
Lemma within_requestCheckout p id ok rq : within R (requestCheckout hn p id ok rq).
Proof.
  unfold requestCheckout, GetVaultSecret. within_tac.
  - apply (within_db R). intros. apply c_checkout. by case_match; auto.
Qed.
Lemma within_checkin p id : within R (checkin p id).
Proof.
  unfold checkin, GetVaultCheckout. within_tac.
  apply (within_db R). intros. apply c_checkin.
  match goal with H : bool_decide _ && bool_decide _ = false |- _ =>
    apply andb_false_iff in H as [H|H]; apply bool_decide_eq_false in H; tauto || idtac end.
  - left. by destruct (decide (co_state a0 = CoActive)).
  - right. by destruct (decide (co_state a0 = CoPending)).
Qed.

End within.

Section serve.
Context `{!Env store, !Relies steps, !SecretBox}.
Context (vk : res string bytes) (rnd : nat → rand_draw) (hn cfg : bool).
Context (fetch : string → string → res string bytes) (scan_ok : nat → nat → bool).
Context (order : list (uuid * checkout) → list (uuid * checkout)).

Lemma guar_decideCheckout p id to :
  to = CoActive ∨ to = CoDenied →
  guar steps Inv (decideCheckout p id to) (λ _, Inv).
Proof.
  intros Hto.
  assert (∀ (r : reply body), guar steps Inv (mret r) (λ _, Inv)) as Hret
    by (intros; by apply guar_ret; [exact _|]).
  unfold decideCheckout. destruct id as [id|]; [|apply Hret].
  eapply guar_bind; [exact _|apply guar_get_row with (P := Inv); exact _|].
  intros [co|].
  2: { eapply guar_weaken; [apply Hret|]. by intros s []. }
  eapply guar_weaken with (P' := λ s, Inv s ∧ owner_is id (co_user co) s).
  2: { intros s [Hinv Hr]. specialize (Hr co eq_refl). split; [done|].
       split; [by eapply inv_ids|]. intros c Hc. congruence. }
  case_bool_decide; simpl; [|eapply guar_weaken; [apply Hret|]; by intros s []].
  case_bool_decide as Hself; [eapply guar_weaken; [apply Hret|]; by intros s []|].
  assert (∀ r : reply body, guar steps (λ s, Inv s ∧ owner_is id (co_user co) s) (mret r) (λ _, Inv)) as Hret'.
  { intros. eapply guar_weaken; [apply Hret|]. by intros s []. }
  eapply guar_bind with (Q := λ _ s, Inv s ∧ owner_is id (co_user co) s); [exact _| |].
  { apply guar_db; [exact _..|done|]. intros now s [Hinv Hown].
    assert (steps s (SetVaultCheckoutStatus id CoPending to (Some (p_user p)) now s).2) as Hst.
    { apply rtc_once, step_decide; [done|]. intros c Hc. rewrite (proj2 Hown _ Hc). done. }
    split; [done|]. split; [by eapply vault_Inv_steps | by eapply (stable_owner id)]. }
  intros [[]|]; [|apply Hret'..].
  eapply guar_bind; [exact _|apply guar_frame; [exact _|apply within_vault_audit; exact _]|]. intros ?.
  eapply guar_bind; [exact _|apply guar_frame; [exact _|apply within_get_row; exact _]|]. intros [?|?]; apply Hret'.
Qed.

(** The requests of the package's routes. *)
Inductive request :=
| RqList (p : principal)
| RqGet (p : principal) (id : option uuid)
| RqReveal (p : principal) (id : option uuid)
| RqCreate (p : principal) (rq : option secretReq)
| RqUpdate (p : principal) (id : option uuid) (rq : option secretReq)
| RqDelete (p : principal) (id : option uuid)
| RqListGrants (id : option uuid)
| RqCreateGrant (id : option uuid) (rq : option grantReq)
| RqDeleteGrant (id grantID : option uuid)
| RqCheckout (p : principal) (id : option uuid) (ok : bool) (rq : checkoutReq)
| RqMyCheckouts (p : principal)
| RqApprovals
| RqCheckin (p : principal) (id : option uuid)
| RqApprove (p : principal) (id : option uuid)
| RqDeny (p : principal) (id : option uuid)
| RqExpireTick.

Definition discard {A} (m : M store A) : M store unit := _ ← m; mret tt.

Definition serve (rq : request) : M store unit :=
  match rq with
  | RqList p => discard (list_ scan_ok p)
  | RqGet p id => discard (get p id)
  | RqReveal p id => discard (reveal vk cfg fetch p id)
  | RqCreate p rq => discard (create vk rnd cfg p rq)
  | RqUpdate p id rq => discard (update vk rnd p id rq)
  | RqDelete p id => discard (del p id)
  | RqListGrants id => discard (listGrants id)
  | RqCreateGrant id rq => discard (createGrant id rq)
  | RqDeleteGrant id g => discard (deleteGrant id g)
  | RqCheckout p id ok rq => discard (requestCheckout hn p id ok rq)
  | RqMyCheckouts p => discard (myCheckouts order p)
  | RqApprovals => discard (listCheckoutApprovals order)
  | RqCheckin p id => discard (checkin p id)
  | RqApprove p id => discard (approveCheckout p id)
  | RqDeny p id => discard (denyCheckout p id)
  | RqExpireTick => discard (db ExpireVaultCheckouts)
  end.

Lemma within_discard {A} (m : M store A) : within steps m → within steps (discard m).
Proof. intros. apply within_bind; [exact _|done|]. intros. apply within_ret. exact _. Qed.

Lemma guar_serve rq : guar steps Inv (serve rq) (λ _, Inv).
Proof.
  assert (∀ A (m : M store A), within steps m → guar steps Inv (discard m) (λ _, Inv)) as Hw
    by (intros; apply guar_frame; [exact _|by apply within_discard]).
  destruct rq; try (apply Hw; first [apply within_list; exact _ | apply within_get; exact _ | apply within_reveal; exact _
    | apply within_vault_create; exact _ | apply within_update; exact _ | apply within_del; exact _ | apply within_listGrants; exact _
    | apply within_createGrant; exact _ | apply within_deleteGrant; exact _ | apply within_requestCheckout; exact _
    | apply within_myCheckouts; exact _ | apply within_listApprovals; exact _ | apply within_checkin; exact _]).
  - eapply guar_bind; [exact _|by apply guar_decideCheckout; left|].
    intros ?. by apply guar_ret; [exact _|].
  - eapply guar_bind; [exact _|by apply guar_decideCheckout; right|].
    intros ?. by apply guar_ret; [exact _|].
  - apply Hw, (within_db steps). intros. apply c_expire.
Qed.
End serve.

(** * The highest grant *)
Lemma foldl_better l best :
  (∀ a, a ∈ l → accessRank a ≤ accessRank (foldl better best l)) ∧
  accessRank best ≤ accessRank (foldl better best l) ∧
  (foldl better best l = best ∨ foldl better best l ∈ l).
Proof.
  revert best. induction l as [|a l IH]; intros best; simpl.
  - split_and!; [by intros a ?%not_elem_of_nil|lia|by left].
  - destruct (IH (better best a)) as (H1 & H2 & H3).
    assert (accessRank best ≤ accessRank (better best a) ∧ accessRank a ≤ accessRank (better best a))
      as [Hb Ha] by (unfold better; destruct (accessRank best <? accessRank a) eqn:?; lia).
    split_and!.
    + intros a' [->|Hin]%elem_of_cons; [lia|by apply H1].
    + lia.
    + destruct H3 as [->|H3]; [|right; by apply elem_of_cons; right].
      unfold better. case_match; [right; apply elem_of_cons; auto|auto].
Qed.

(** * The access policy cannot be set *)
Definition all_open (s : store) : Prop :=
  ∀ id v, secrets s !! id = Some v → sec_policy v = "open".
Definition keeps_open (s s' : store) : Prop := all_open s → all_open s'.

#[export] Instance keeps_open_preorder : PreOrder keeps_open.
Proof. split; unfold keeps_open; [by intros ?|by intros ???; auto]. Qed.
#[export] Instance all_open_stable : Stable keeps_open all_open.
Proof. intros s s' H Hk. by apply Hk. Qed.

Lemma toInput_policy rq u : accessPolicy (toInput rq u) = "open".
Proof. reflexivity. Qed.

#[export] Instance keeps_open_closed : Closed keeps_open.
Proof.
  split; unfold keeps_open; try done.
  - intros rq u sealed now s H id v. simpl.
    intros [[_ <-]|[_ Hid]]%lookup_insert_Some; [done|by eapply H].
  - intros id rq u now s H id' v. simpl. destruct (decide (id = id')) as [->|].
    + rewrite lookup_alter_eq. by intros (v0 & _ & ->)%fmap_Some.
    + rewrite lookup_alter_ne by done. apply H.
  - intros id sealed b now s H. unfold AddVaultSecretVersion.
    destruct (secrets s !! id) as [v|] eqn:Hid; [|done].
    intros id' v'. simpl. intros [[_ <-]|[_ Hid']]%lookup_insert_Some; [|by eapply H].
    simpl. by eapply H.
  - intros id now s H id' v. simpl. intros [_ Hid]%lookup_delete_Some. by eapply H.
  - intros id k u a now s H. unfold CreateVaultGrant. by repeat case_match.
  - intros id from now s _ H. unfold SetVaultCheckoutStatus. by repeat case_match.
Qed.

Section policy.
Context `{!Env store, !Relies keeps_open, !SecretBox}.

Hint Resolve within_vault_audit : within.
Lemma open_decide p id to : within keeps_open (decideCheckout p id to).
Proof.
  unfold decideCheckout, GetVaultCheckout. within_tac.
  apply (within_db keeps_open). intros now s Ho. unfold SetVaultCheckoutStatus. by repeat case_match.
Qed.

Lemma open_serve vk rnd hn cfg fetch scan_ok order rq : within keeps_open (serve vk rnd hn cfg fetch scan_ok order rq).
Proof.
  destruct rq; simpl; apply within_bind; try exact _; try (intros; apply within_ret; exact _);
  first [apply within_list | apply within_get | apply within_reveal
    | apply within_vault_create | apply within_update | apply within_del | apply within_listGrants
    | apply within_createGrant | apply within_deleteGrant | apply within_requestCheckout
    | apply within_myCheckouts | apply within_listApprovals | apply within_checkin
    | apply open_decide | apply (within_db keeps_open); intros; apply c_expire]; exact _.
Qed.

Lemma open_no_checkout hn p id ok rq :
  guar keeps_open all_open (requestCheckout hn p id ok rq)
    (λ rs _, ∀ r, r ∈ rs → ∃ c m, r = WriteError c m).
Proof.
  assert (∀ (P : store → Prop) ok c m, guar keeps_open P
    (mret ((if ok : bool then [] else [WriteError 400 "invalid request body"]) ++ [WriteError c m]))
    (λ (rs : list (reply body)) _, ∀ r, r ∈ rs → ∃ c m, r = WriteError c m)) as Herr.
  { intros. apply guar_ret; [exact _|]. intros s _ r Hr. destruct ok0; simpl in Hr; set_solver. }
  unfold requestCheckout. destruct id as [id|].
  2: { apply guar_ret; [exact _|]. set_solver. }
  eapply guar_bind; [exact _|apply guar_frame; [exact _|apply within_effectiveAccess; exact _]|].
  intros access. case_match; [apply Herr|].
  eapply guar_bind; [exact _|apply guar_get_row with (P := all_open); exact _|].
  intros [v|]; [|apply Herr].
  eapply guar_weaken with (P' := λ s, True ∧ sec_policy v = "open");
    [|intros s [Ho Hv]; split; [done|by eapply Ho, Hv]].
  apply guar_pure. intros ->. apply Herr.
Qed.
End policy.

(** * Properties *)


(** C1: revealing. While the other requests leave the vault's tables alone, a reveal
    answers with a plaintext only if the caller has Credential.Manage, or
    Credential.View and a grant on this credential; if the credential is open or the
    caller holds an active check-out (unless a statement of the store failed); and
    the plaintext is the current value under the vault key. *)
Theorem reveal_authorized `{!Env store, !Relies same, !SecretBox} s0 cfg fetch vk p id :
  guar same (same s0) (reveal vk cfg fetch p (Some id)) (λ r _, reveal_post s0 cfg fetch vk p id r).
Proof. apply guar_reveal. Qed.

(** injection. A connection gets an attached credential only when its policy is
    open or the connecting user holds an active check-out, whatever fails on the way;
    a system context only when the policy is open. What is injected is the current
    value of the attached credential. *)
Theorem injection_gated `{!Env store, !Relies same, !SecretBox} s0 cfg fetch ppk key h :
  (∀ user, guar same (same s0) (For cfg fetch ppk key h user)
    (λ r _, ∀ inj, r = Ok (Some inj) → ∃ v pt,
       h_credential h = Some (inj_secret inj) ∧ secrets s0 !! inj_secret inj = Some v ∧
       gate_spec s0 (inj_secret inj) user v ∧ secret_value cfg fetch s0 (inj_secret inj) v key pt ∧
       (inj_auth inj = Some (Password pt) ∨ inj_auth inj = Some (PublicKeys pt)))) ∧
  guar same (same s0) (ForSystem cfg fetch ppk key h)
    (λ r _, ∀ inj, r = Ok (Some inj) → ∃ v pt,
       h_credential h = Some (inj_secret inj) ∧ secrets s0 !! inj_secret inj = Some v ∧
       sec_policy v = "open" ∧ secret_value cfg fetch s0 (inj_secret inj) v key pt ∧
       (inj_auth inj = Some (Password pt) ∨ inj_auth inj = Some (PublicKeys pt))) ∧
  (∀ user, guar same (same s0) (PasswordFor cfg fetch key h user)
    (λ r _, ∀ u pt, r = Ok (u, pt) → ∃ id v, h_credential h = Some id ∧
       secrets s0 !! id = Some v ∧ gate_spec s0 id user v ∧ u = sec_username v ∧
       secret_value cfg fetch s0 id v key pt)).
Proof.
  split_and!.
  - intros user. apply guar_inject with (G := λ id v, gate_spec s0 id user v).
    by apply guar_attached_user.
  - apply guar_inject with (G := λ id v, sec_policy v = "open").
    by apply guar_attached_system.
  - intros user. eapply guar_bind; [exact _|by apply guar_attached_user|].
    intros r. apply guar_ret; [exact _|]. intros s Hr u pt.
    destruct r as [[[id v] pt']|]; [|done]. intros [= <- <-].
    destruct (Hr id v pt' eq_refl) as (?&?&?&?). eauto 10.
Qed.

(** the access level of a user on a credential is the highest of the grants that
    apply, direct or through a group, and is empty exactly when none has a known
    level. *)
Theorem user_access_highest s user id :
  (∀ k g, vgrants s !! k = Some g → g_secret g = id → grant_applies s user g = true →
     accessRank (g_access g) ≤ accessRank (user_access s user id)) ∧
  (user_access s user id ≠ "" → ∃ k g, vgrants s !! k = Some g ∧ g_secret g = id ∧
     grant_applies s user g = true ∧ user_access s user id = g_access g).
Proof.
  unfold user_access. set (m := filter _ _).
  destruct (foldl_better ((λ kv, g_access kv.2) <$> map_to_list m) "") as (H1 & _ & H3). split.
  - intros k g Hk Hg Ha. apply H1, list_elem_of_fmap. exists (k, g). split; [done|].
    by apply elem_of_map_to_list, map_lookup_filter_Some.
  - intros Hne. destruct H3 as [|H3]; [done|].
    apply list_elem_of_fmap in H3 as ([k g] & He & Hin%elem_of_map_to_list).
    apply map_lookup_filter_Some in Hin as [Hk [Hg Ha]]. simpl in *. exists k, g. auto.
Qed.

(** through the API every credential is always open. No request can make a policy
    other than open (the request body carries none and [toInput] leaves it empty), so
    in a vault filled through the API no check-out can ever be requested. *)
Theorem policy_never_set `{!Env store, !Relies keeps_open, !SecretBox} vk rnd hn cfg fetch scan order :
  (∀ rq (w : world store), all_open (w_db w) →
     all_open (w_db (serve vk rnd hn cfg fetch scan order rq w).2)) ∧
  (∀ p id ok crq (w : world store) r, all_open (w_db w) →
     r ∈ (requestCheckout hn p id ok crq w).1 → ∃ c m, r = WriteError c m).
Proof.
  split.
  - intros rq w Ho. by apply (open_serve vk rnd hn cfg fetch scan order rq w I).
  - intros p id ok crq w r Ho. by apply (open_no_checkout hn p id ok crq w Ho).
Qed.

(** the listing of a user without Credential.Manage. With a driver that refuses a
    row whose columns do not match the scan destinations, the request answers 500 as
    soon as one grant applies to the user: the query selects eighteen columns and the
    scan has thirteen destinations. *)
Theorem list_accessible_fails `{!Env store, !Relies same} (s0 : store) scan_ok (p : principal) k g v :
  (∀ a b, scan_ok a b = true → a = b) →
  p_has p "Credential.Manage" = false →
  vgrants s0 !! k = Some g → grant_applies s0 (p_user p) g = true →
  secrets s0 !! g_secret g = Some v →
  guar same (same s0) (list_ scan_ok p) (λ r _, r = WriteError 500 "could not list credentials").
Proof.
  intros Hscan Hp Hk Ha Hv. unfold list_. rewrite Hp.
  eapply guar_bind with (Q := λ r _, r = Err ErrDB); [exact _| |].
  - apply guar_db; [exact _..|done|]. intros now s (Hs & _ & Hg & Hug & _). split; [done|].
    simpl. assert ((g_secret g, (v, g_access g)) ∈ accessible_rows s (p_user p)) as Hin.
    { unfold accessible_rows. apply list_elem_of_omap. exists (k, g). simpl.
      rewrite Hs, Hg, Hv. unfold grant_applies in *. rewrite Hug, Ha.
      split; [by apply elem_of_map_to_list|done]. }
    destruct (accessible_rows s (p_user p)) as [|[id [v' a]] rows]; [set_solver|].
    simpl. destruct (scan_ok _ _) eqn:Hok; [|done]. by apply Hscan in Hok.
  - intros r. apply guar_ret; [exact _|]. by intros s ->.
Qed.

(** ** Runs *)
Definition ex_p (u : uuid) (perms : list string) : principal :=
  Principal u (λ perm, bool_decide (perm ∈ perms)).
Definition ex_mgr : principal := ex_p 1 ["Credential.Manage"].
Definition ex_user : principal := ex_p 7 ["Credential.View"].

Definition ex_secret (policy : string) : secret :=
  Secret "db" "" "password" "root" "" "" policy 1 1 0 None None "" "".
(** A credential with a policy, a version holding "pw", and a grant to user 7. *)
Definition ex_store (policy : string) : store :=
  Store {[ 5%N := ex_secret policy ]} {[ 6%N := Version 5 1 "ppw" None ]}
    {[ 9%N := VGrant 5 "user" 7 "view" ]} ∅ ∅ ∅ [] [] ∅.
Definition pw : bytes := String.list_byte_of_string "pw".
Definition no_fetch : string → string → res string bytes := λ _ _, Err "none".

(** An environment whose store fails at one tick. *)
Definition failing_at (k : nat) : Env store := MkEnv _ (λ n, Nat.eqb n k) Z.of_nat (λ _ s, s).
#[export] Instance failing_at_relies k (R : relation store) : Reflexive R → @Relies _ (failing_at k) R.
Proof. intros HR n s. apply HR. Qed.

(** revealing fails open. A credential under the approval policy, nobody holding a
    check-out: when the read of the policy fails once, the reveal of a user with a
    view grant answers with the plaintext; with no failure it is refused. *)
Theorem reveal_fails_open :
  let run env p := @reveal env plain_box (Ok []) false no_fetch p (Some 5%N)
                     (World 0 (ex_store "approval")) in
  (∀ now id u, ¬ holds_checkout (ex_store "approval") now id u) ∧
  (run (failing_at 1) ex_user).1 = WriteJSON 200 (BPlain pw) ∧
  (run quiet_env ex_user).1 = WriteError 403 "check out this credential before revealing it".
Proof.
  intros run. split_and!; [|by vm_compute..].
  by intros now id u (cid & c & Hc & _).
Qed.

Lemma reveal_authorized_witness :
  (guar same (same (ex_store "open"))
    (@reveal quiet_env plain_box (Ok []) false no_fetch ex_user (Some 5%N))
    (λ r _, @reveal_post quiet_env plain_box (ex_store "open") false no_fetch (Ok []) ex_user 5 r)) ∧
  (@reveal quiet_env plain_box (Ok []) false no_fetch ex_user (Some 5%N) (World 0 (ex_store "open"))).1
    = WriteJSON 200 (BPlain pw).
Proof.
  split; [|by vm_compute].
  apply (@reveal_authorized quiet_env _ plain_box).
Defined.

Definition ex_host : host := Host "h1" "10.0.0.1" "" "ubuntu" "vault_password" (Some 5%N).

Lemma injection_gated_witness :
  (guar same (same (ex_store "open"))
    (@PasswordFor quiet_env plain_box false no_fetch [] ex_host 7)
    (λ r _, ∀ u pt, r = Ok (u, pt) → ∃ id v, h_credential ex_host = Some id ∧
       secrets (ex_store "open") !! id = Some v ∧
       @gate_spec quiet_env (ex_store "open") id 7 v ∧ u = sec_username v ∧
       @secret_value plain_box false no_fetch (ex_store "open") id v [] pt)) ∧
  (@PasswordFor quiet_env plain_box false no_fetch [] ex_host 7 (World 0 (ex_store "open"))).1
    = Ok ("root", pw) ∧
  (@PasswordFor quiet_env plain_box false no_fetch [] ex_host 7 (World 0 (ex_store "checkout"))).1
    = Err "credential requires check-out".
Proof.
  split; [|by vm_compute].
  apply (@injection_gated quiet_env _ plain_box (ex_store "open") false no_fetch (λ _, true)).
Defined.

Lemma user_access_highest_witness :
  accessRank "view" ≤ accessRank (user_access (ex_store "open") 7 5).
Proof.
  eapply (proj1 (user_access_highest (ex_store "open") 7 5) 9%N (VGrant 5 "user" 7 "view"));
    by vm_compute.
Defined.

Definition ex_serve (rq : request) (s : store) : store :=
  w_db (@serve quiet_env plain_box (Ok []) (λ _, Rand None None) true false no_fetch
          (λ _ _, true) id rq (World 0 s)).2.
Definition ex_create : request :=
  RqCreate ex_mgr (Some (SecretReq "db" "" "password" "root" "" "" pw "" "")).


(** An update through the API turns an approval policy into an open one. *)
Lemma policy_never_set_witness :
  all_open (ex_serve ex_create empty_store) ∧
  sec_policy <$> secrets (ex_serve (RqUpdate ex_mgr (Some 5%N)
    (Some (SecretReq "db" "" "password" "root" "" "" [] "" ""))) (ex_store "approval")) !! 5%N
    = Some "open".
Proof.
  split; [|by vm_compute].
  apply (proj1 (@policy_never_set quiet_env _ plain_box (Ok []) (λ _, Rand None None) true false
    no_fetch (λ _ _, true) id) ex_create (World 0 empty_store)).
  by intros id v Hid.
Defined.

Lemma list_accessible_fails_witness :
  (@list_ quiet_env Nat.eqb ex_user (World 0 (ex_store "open"))).1
    = WriteError 500 "could not list credentials".
Proof.
  apply (@list_accessible_fails quiet_env _ (ex_store "open") Nat.eqb ex_user 9%N
    (VGrant 5 "user" 7 "view") (ex_secret "open"));
    [by intros a b ?%Nat.eqb_eq | by vm_compute..|done].
Defined.

(** A body that does not decode answers 400 and still creates the check-out. *)
Lemma bad_body_still_checks_out :
  let r := @requestCheckout quiet_env true ex_user (Some 5%N) false (CheckoutReq "" 0)
             (World 0 (ex_store "checkout")) in
  head r.1 = Some (WriteError 400 "invalid request body") ∧
  size (checkouts (w_db r.2)) = 1%nat.
Proof. by vm_compute. Qed.
