(* ===== verification/VaultRotation.v ===== *)
(** Rotation of vaulted credentials: [vault/rotate.go] (on demand), [vault/rotator.go]
    (scheduled), [vault/rekey.go] (the master key) and [vault/reseal.go] (the KDF
    profile).

    The managed host is outside the program: its password table is part of the state,
    and each connection attempt asks an oracle what the network and the remote command
    did. *)
From S2P Require Import Prelude SecretBox Vault.

(** * Changing a password on a host *)

(** The vault's tables and the passwords of the hosts' accounts. *)
Record rstore := RStore { vlt : Vault.store; host_pw : gmap (uuid * string) bytes }.

Section rotation.
Context `{!Env rstore, !SecretBox}.

(** A statement of the vault's store. *)
Definition vdb {A} (f : Z → Vault.store → res store_error A * Vault.store)
    : M rstore (res store_error A) :=
  db (λ now s, let '(r, v) := f now (vlt s) in (r, RStore v (host_pw s))).

Definition set_pw (hid : uuid) (user : string) (pw : bytes) (s : rstore) : rstore :=
  RStore (vlt s) (<[(hid, user) := pw]> (host_pw s)).

(** What a remote [sudo chpasswd] did: it succeeded, or it reported an error and did
    ([true]) or did not ([false]) change the password. *)
Inductive cmd_result := CmdOk | CmdErr (changed : bool).

(** The outcome of one attempt, by tick and address. *)
Record net := MkNet {
  n_reach : nat → string → bool;
  n_session : nat → bool;
  n_cmd : nat → cmd_result;
}.
Context (network : net).

Definition tick : M rstore nat := λ w, (w_tick w, World (S (w_tick w)) (w_db w)).

(** [dial]: reaches the address and authenticates with the password. *)
Definition dial (hid : uuid) (user addr : string) (pw : bytes) : M rstore bool :=
  t ← tick;
  cur ← peek (λ s, host_pw s !! (hid, user));
  mret (n_reach network t addr && bool_decide (cur = Some pw)).

(** [dedupeAddrs] *)
Fixpoint dedupe (seen : list string) (l : list string) : list string :=
  match l with
  | [] => []
  | a :: l' =>
    if negb (str_eqb a "") && negb (bool_decide (a ∈ seen)) then a :: dedupe (a :: seen) l'
    else dedupe seen l'
  end.
Definition dedupeAddrs (l : list string) : list string := dedupe [] l.

(** [changePasswordOnHost] (and [rotatePasswordOnHost]): [(verified, err)]. *)
Fixpoint change_loop (hid : uuid) (user : string) (oldPw newPw : bytes) (addrs : list string)
    : M rstore (bool * option string) :=
  match addrs with
  | [] => mret (false, Some "no reachable address for host")
  | addr :: rest =>
    ok ← dial hid user addr oldPw;
    if negb ok then change_loop hid user oldPw newPw rest
    else
      t ← tick;
      if negb (n_session network t) then change_loop hid user oldPw newPw rest
      else
        match n_cmd network t with
        | CmdErr changed =>
          _ ← (if changed then effect (set_pw hid user newPw) else mret tt);
          mret (false, Some "chpasswd")
        | CmdOk =>
          _ ← effect (set_pw hid user newPw);
          v ← dial hid user addr newPw;
          mret (v, None)
        end
  end.

Definition changePasswordOnHost (hid : uuid) (h : host) (user : string) (oldPw newPw : bytes) :=
  change_loop hid user oldPw newPw (dedupeAddrs [h_wg_address h; h_address h; h_hostname h]).

(** * Rotating a credential *)
Context (VaultKey : res string bytes) (rnd : nat → rand_draw).
(** [randomPassword()] at a tick; the order of the credential's hosts. *)
Context (randomPassword : nat → bytes).
Context (by_hostname : list (uuid * host) → list (uuid * host)).

Definition seal_at (key pt : bytes) : M rstore (res box_err string) := λ w,
  (box_seal (rnd (w_tick w)) key pt, w).
Definition random_at : M rstore bytes := λ w, (randomPassword (w_tick w), w).

Definition raudit (action : string) (id : uuid) : M rstore unit :=
  _ ← vdb (AppendAudit (action, id)); mret tt.

(** Both paths: store the new value, change it on the host with the old one, and put
    the old value back when the host reports an error. *)
Inductive rot_result := RotSealErr | RotStoreErr | RotHostErr (e : string) | RotOk (verified : bool).

Definition change_and_record (id hid : uuid) (h : host) (login : string) (key oldPw : bytes)
    (by_ : uuid) : M rstore rot_result :=
  newPw ← random_at;
  sealedNew ← seal_at key newPw;
  match sealedNew with
  | Err _ => mret RotSealErr
  | Ok sealedNew =>
    r ← vdb (AddVaultSecretVersion id sealedNew by_);
    match r with
    | Err _ => mret RotStoreErr
    | Ok _ =>
      res ← changePasswordOnHost hid h login oldPw newPw;
      match res with
      | (_, Some e) =>
        sealedOld ← seal_at key oldPw;
        _ ← match sealedOld with
            | Ok sealedOld => _ ← vdb (AddVaultSecretVersion id sealedOld by_); mret tt
            | Err _ => mret tt
            end;
        mret (RotHostErr e)
      | (verified, None) => mret (RotOk verified)
      end
    end
  end.

Definition login_user (v : secret) (h : host) : string :=
  if str_eqb (sec_username v) "" then h_ssh_user h else sec_username v.

(** [POST /vault/secrets/{id}/rotate] *)
Definition rotate (p : principal) (idp : option uuid) : M rstore (reply bool) :=
  match idp with
  | None => mret (WriteError 400 "invalid id")
  | Some id =>
    r ← vdb (GetVaultSecret id);
    match r with
    | Err _ => mret (WriteError 404 "credential not found")
    | Ok v =>
      if negb (str_eqb (sec_type v) "password") then
        mret (WriteError 400 "only password credentials can be rotated automatically")
      else if negb (str_eqb (sec_ext_provider v) "") then
        mret (WriteError 400 "external-backed credentials are rotated in the external secrets manager, not by Fleet")
      else
        hs ← vdb (HostsUsingCredential by_hostname id);
        match hs with
        | Ok ((hid, h) :: _) =>
          match VaultKey with
          | Err e => mret (WriteError 503 e)
          | Ok key =>
            sealed ← vdb (GetVaultSecretSealed id);
            match sealed with
            | Err _ => mret (WriteError 500 "could not load the credential")
            | Ok sealed =>
              match box_open key sealed with
              | Err _ => mret (WriteError 500 "could not decrypt the credential")
              | Ok oldPw =>
                c ← change_and_record id hid h (login_user v h) key oldPw (p_user p);
                match c with
                | RotSealErr => mret (WriteError 500 "could not seal the new credential")
                | RotStoreErr => mret (WriteError 500 "could not store the new credential")
                | RotHostErr e =>
                  _ ← raudit "credential.rotate_failed" id;
                  mret (WriteError 502 "rotation failed on host (credential reverted)")
                | RotOk verified =>
                  _ ← raudit "credential.rotate" id; mret (WriteJSON 200 verified)
                end
              end
            end
          end
        | _ => mret (WriteError 400 "attach this credential to a host before rotating it")
        end
    end
  end.

(** [PUT /vault/secrets/{id}/rotation-policy] *)
Definition setRotationPolicy (idp : option uuid) (intervalDays : option Z) : M rstore (reply (option secret)) :=
  match idp with
  | None => mret (WriteError 400 "invalid id")
  | Some id =>
  match intervalDays with
  | None => mret (WriteError 400 "invalid body")
  | Some days =>
    if (days <? 0) || (3650 <? days) then
      mret (WriteError 400 "intervalDays must be between 0 and 3650")
    else
      r ← vdb (GetVaultSecret id);
      match r with
      | Err _ => mret (WriteError 404 "credential not found")
      | Ok v =>
        if (0 <? days) && negb (str_eqb (sec_type v) "password") then
          mret (WriteError 400 "only password credentials can be rotated automatically")
        else
          r ← vdb (SetVaultRotationPolicy id days);
          match r with
          | Err _ => mret (WriteError 500 "could not set the rotation policy")
          | Ok _ =>
            _ ← raudit "credential.rotation_policy" id;
            u ← vdb (GetVaultSecret id);
            mret (WriteJSON 200 (match u with Ok v => Some v | Err _ => None end))
          end
      end
  end end.

(** [Rotator.rotateOne]: [None] is success. *)
Definition rotateOne (id : uuid) (v : secret) : M rstore (option string) :=
  if negb (str_eqb (sec_type v) "password") then mret (Some "not a password credential")
  else
    hs ← vdb (HostsUsingCredential by_hostname id);
    match hs with
    | Err _ => mret (Some "db")
    | Ok [] =>
      now ← time_now;
      _ ← vdb (MarkVaultRotated id now);
      _ ← raudit "credential.rotate_skipped" id;
      mret (Some "no host attached")
    | Ok ((hid, h) :: _) =>
      match VaultKey with
      | Err e => mret (Some e)
      | Ok key =>
        sealed ← vdb (GetVaultSecretSealed id);
        match sealed with
        | Err _ => mret (Some "db")
        | Ok sealed =>
          match box_open key sealed with
          | Err _ => mret (Some "decrypt")
          | Ok oldPw =>
            c ← change_and_record id hid h (login_user v h) key oldPw uuid_nil;
            match c with
            | RotSealErr => mret (Some "seal")
            | RotStoreErr => mret (Some "db")
            | RotHostErr e =>
              _ ← vdb (DeferVaultRotation id);
              _ ← raudit "credential.rotate_failed" id;
              mret (Some e)
            | RotOk verified =>
              now ← time_now;
              _ ← vdb (MarkVaultRotated id now);
              _ ← raudit "credential.rotate" id;
              mret None
            end
          end
        end
      end
    end.

(** [Rotator.RunDue]: a failure on one credential never aborts the rest. *)
Fixpoint run_due (due : list (uuid * secret)) (rotated : Z) : M rstore Z :=
  match due with
  | [] => mret rotated
  | (id, v) :: due' =>
    r ← rotateOne id v;
    run_due due' (match r with Some _ => rotated | None => rotated + 1 end)
  end.

Definition RunDue : M rstore (Z * option store_error) :=
  now ← time_now;
  due ← vdb (DueVaultRotations now);
  match due with
  | Err e => mret (0, Some e)
  | Ok due => n ← run_due due 0; mret (n, None)
  end.
End rotation.

(** * Rekeying: [vault/rekey.go] *)

Record RekeyResult := MkRekey { Rekeyed : Z; AlreadyNew : Z; External : Z }.
Inductive rekey_err := SameKeys | RkStore | RkDecrypt | RkSeal | RkVerify | RkWrite.

Section sweep.
Context `{!Env Vault.store, !SecretBox}.
Context (rnd : nat → rand_draw).

Definition sweep_seal (key pt : bytes) : M Vault.store (res box_err string) := λ w,
  (box_seal (rnd (w_tick w)) key pt, w).

Fixpoint rekey_loop (oldKey newKey : bytes) (versions : list (uuid * string)) (r : RekeyResult)
    : M Vault.store (RekeyResult * option rekey_err) :=
  match versions with
  | [] => mret (r, None)
  | (id, sealed) :: rest =>
    if str_eqb sealed "" then
      rekey_loop oldKey newKey rest (MkRekey (Rekeyed r) (AlreadyNew r) (External r + 1))
    else if is_ok (box_open newKey sealed) then
      rekey_loop oldKey newKey rest (MkRekey (Rekeyed r) (AlreadyNew r + 1) (External r))
    else
      match box_open oldKey sealed with
      | Err _ => mret (r, Some RkDecrypt)
      | Ok plain =>
        s ← sweep_seal newKey plain;
        match s with
        | Err _ => mret (r, Some RkSeal)
        | Ok sealed' =>
          let ok := match box_open newKey sealed' with
                    | Ok check => bool_decide (check = plain) | Err _ => false end in
          if negb ok then mret (r, Some RkVerify)
          else
            u ← db (UpdateVaultVersionSeal id sealed');
            match u with
            | Err _ => mret (r, Some RkWrite)
            | Ok _ =>
              rekey_loop oldKey newKey rest (MkRekey (Rekeyed r + 1) (AlreadyNew r) (External r))
            end
        end
      end
  end.

Definition RekeySecrets (oldKey newKey : bytes) : M Vault.store (RekeyResult * option rekey_err) :=
  if bool_decide (oldKey = newKey) then mret (MkRekey 0 0 0, Some SameKeys)
  else
    l ← db AllVaultVersionSeals;
    match l with
    | Err _ => mret (MkRekey 0 0 0, Some RkStore)
    | Ok l => rekey_loop oldKey newKey l (MkRekey 0 0 0)
    end.

(** * Re-sealing: [vault/reseal.go] *)
Definition sweep_reseal (key : bytes) (s : string) : M Vault.store (string * bool * option box_err) :=
  λ w, (box_reseal (rnd (w_tick w)) key s, w).

Fixpoint reseal_loop (key : bytes) (versions : list (uuid * string)) (n : Z)
    : M Vault.store (Z * bool) :=
  match versions with
  | [] => mret (n, true)
  | (id, sealed) :: rest =>
    if str_eqb sealed "" then reseal_loop key rest n
    else
      r ← sweep_reseal key sealed;
      match r with
      | (_, _, Some _) => mret (n, false)
      | (_, false, None) => reseal_loop key rest n
      | (out, true, None) =>
        u ← db (UpdateVaultVersionSeal id out);
        match u with
        | Err _ => mret (n, false)
        | Ok _ => reseal_loop key rest (n + 1)
        end
      end
  end.

Definition ResealSecrets (key : bytes) : M Vault.store (Z * bool) :=
  l ← db AllVaultVersionSeals;
  match l with
  | Err _ => mret (0, false)
  | Ok l => reseal_loop key l 0
  end.
End sweep.

(** * The sweeps preserve every value *)
Section sweeps.
Context `{!Env Vault.store, !SecretBox, !SecretBoxLaws}.
Context (rnd : nat → rand_draw).
(** The plaintext of a sealed value, and whether the sweep is through with it. *)
Context (val : string → option bytes) (through : string → bool).

Definition row_kept (x y : string) : Prop :=
  x ≠ "" → y ≠ "" ∧ val y = val x ∧ (through x = true → through y = true).

(** What a sweep, and everything that may run beside it, does to the versions. *)
Definition kept (s s' : Vault.store) : Prop :=
  ∀ k v, versions s !! k = Some v →
    ∃ v', versions s' !! k = Some v' ∧ row_kept (v_sealed v) (v_sealed v').

#[export] Instance kept_preorder : PreOrder kept.
Proof.
  split.
  - intros s k v Hk. exists v. by split.
  - intros s1 s2 s3 H1 H2 k v Hk. destruct (H1 k v Hk) as (v2 & Hk2 & Hr2).
    destruct (H2 k v2 Hk2) as (v3 & Hk3 & Hr3). exists v3. split; [done|].
    intros Hne. destruct (Hr2 Hne) as (Hne2 & Hv2 & Ht2). destruct (Hr3 Hne2) as (? & Hv3 & Ht3).
    split_and!; [done|congruence|auto].
Qed.

(** The versions listed at the start are still there, with their values. *)
Definition listed (l : list (uuid * string)) (s : Vault.store) : Prop :=
  ∀ k x, (k, x) ∈ l → ∃ v, versions s !! k = Some v ∧ row_kept x (v_sealed v).
Definition finished (l : list (uuid * string)) (s : Vault.store) : Prop :=
  ∀ k x, (k, x) ∈ l → x ≠ "" → ∃ v, versions s !! k = Some v ∧ v_sealed v ≠ "" ∧
    val (v_sealed v) = val x ∧ through (v_sealed v) = true.

#[export] Instance listed_stable l : Stable kept (listed l).
Proof.
  intros s s' Hl Hk k x Hin. destruct (Hl k x Hin) as (v & Hv & Hr).
  destruct (Hk k v Hv) as (v' & Hv' & Hr'). exists v'. split; [done|].
  intros Hne. destruct (Hr Hne) as (Hne1 & He1 & Ht1). destruct (Hr' Hne1) as (? & He2 & Ht2).
  split_and!; [done|congruence|auto].
Qed.
#[export] Instance finished_stable l : Stable kept (finished l).
Proof.
  intros s s' Hl Hk k x Hin Hne. destruct (Hl k x Hin Hne) as (v & Hv & Hne1 & He1 & Ht1).
  destruct (Hk k v Hv) as (v' & Hv' & Hr'). destruct (Hr' Hne1) as (? & He2 & Ht2).
  exists v'. split_and!; [done|done|congruence|auto].
Qed.

Lemma guar_list_seals `{!Relies kept} :
  guar kept (λ _, True) (db AllVaultVersionSeals)
    (λ r s, ∀ l, r = Ok l → listed l s).
Proof.
  apply guar_db; [exact _..|done|]. intros now s _. split; [simpl; reflexivity|].
  simpl. intros l [= <-] k x Hin. apply list_elem_of_fmap in Hin as ([k' v] & [= -> ->] & Hin).
  apply elem_of_map_to_list in Hin. exists v. by split.
Qed.

(** One verified replacement. *)
Lemma guar_replace `{!Relies kept} id x rest y :
  x ≠ "" → y ≠ "" → val y = val x → through y = true →
  guar kept (listed ((id, x) :: rest)) (db (UpdateVaultVersionSeal id y))
    (λ r s, listed rest s ∧ (r = Ok tt → finished [(id, x)] s)).
Proof.
  intros Hx Hy Hval Hth. apply guar_db; [exact _..| |].
  - intros s Hl. split; [|done]. intros k z Hin. apply Hl. by apply elem_of_cons; right.
  - intros now s Hl. simpl.
    destruct (Hl id x) as (v & Hv & Hr); [by apply elem_of_cons; left|].
    destruct (Hr Hx) as (Hne & He & Ht).
    assert (kept s (UpdateVaultVersionSeal id y now s).2) as Hkept.
    { intros k v0 Hk. simpl. destruct (decide (id = k)) as [->|].
      - rewrite lookup_alter_eq, Hk. simpl. eexists. split; [done|]. simplify_eq. simpl.
        intros _. split_and!; [done|congruence|done].
      - rewrite lookup_alter_ne by done. exists v0. by split. }
    split; [exact Hkept|]. split.
    + eapply (listed_stable rest); [|exact Hkept]. intros k z Hin. apply Hl.
      by apply elem_of_cons; right.
    + intros _ k z [[= -> ->]|[]%not_elem_of_nil]%elem_of_cons _. simpl.
      exists (with_sealed y v). by rewrite lookup_alter_eq, Hv.
Qed.

Lemma listed_tail a l s : listed (a :: l) s → listed l s.
Proof. intros Hl k x Hin. apply Hl. by apply elem_of_cons; right. Qed.

Lemma finished_skip id x l s :
  listed [(id, x)] s → (x ≠ "" → through x = true) → finished l s → finished ((id, x) :: l) s.
Proof.
  intros Hl Hx Hf k y [[= -> ->]|Hin]%elem_of_cons Hne; [|by eapply Hf].
  destruct (Hl id x) as (v & Hv & Hr); [by apply elem_of_cons; left|].
  destruct (Hr Hne) as (?&?&Ht). eauto 10.
Qed.

Lemma finished_cons a l s : finished [a] s → finished l s → finished (a :: l) s.
Proof.
  intros H1 H2 k x [Heq|Hin]%elem_of_cons; [|by apply H2]. apply H1. rewrite Heq.
  by apply elem_of_cons; left.
Qed.

(** Carrying on with the rest, the head being through. *)
Lemma guar_rest {A} (m : M Vault.store A) (Q : A → Prop) id x l :
  (x ≠ "" → through x = true) →
  guar kept (listed l) m (λ r s, Q r → finished l s) →
  guar kept (listed ((id, x) :: l)) m (λ r s, Q r → finished ((id, x) :: l) s).
Proof.
  intros Hx Hm. eapply guar_conseq;
    [apply (guar_and_frame _ (listed l) (listed [(id, x)])); [exact _|exact Hm]| |].
  - intros s Hl. split; [by eapply listed_tail|]. intros k y [Heq|[]%not_elem_of_nil]%elem_of_cons.
    apply Hl. rewrite Heq. by apply elem_of_cons; left.
  - intros r s [Hf Hh] Hr. apply finished_skip; auto.
Qed.
End sweeps.

(** The value of a version while the keys change: under the new key, else the old. *)
Definition rekey_value `{!SecretBox} (oldKey newKey : bytes) (s : string) : option bytes :=
  match box_open newKey s with
  | Ok p => Some p
  | Err _ => match box_open oldKey s with Ok p => Some p | Err _ => None end
  end.
Definition opens `{!SecretBox} (key : bytes) (s : string) : bool := is_ok (box_open key s).
Definition value `{!SecretBox} (key : bytes) (s : string) : option bytes :=
  match box_open key s with Ok p => Some p | Err _ => None end.

Section rekey.
Context `{!Env Vault.store, !SecretBox, !SecretBoxLaws}.
Context (rnd : nat → rand_draw) (oldKey newKey : bytes).
Abbreviation rkept := (kept (rekey_value oldKey newKey) (opens newKey)).
Abbreviation rfinished := (finished (rekey_value oldKey newKey) (opens newKey)).
Abbreviation rlisted := (listed (rekey_value oldKey newKey) (opens newKey)).
Context `{!Relies rkept}.

Definition rekey_total (r : RekeyResult) : Z := Rekeyed r + AlreadyNew r + External r.

Lemma rekey_loop_count l r w :
  (rekey_loop rnd oldKey newKey l r w).1.2 = None →
  rekey_total (rekey_loop rnd oldKey newKey l r w).1.1 = rekey_total r + Z.of_nat (length l).
Proof.
  revert r w. induction l as [|[id x] l IH]; intros r w; simpl; [unfold rekey_total; intros; lia|].
  destruct (str_eqb x "").
  { intros Hn. rewrite IH by done. unfold rekey_total. simpl. lia. }
  destruct (is_ok (box_open newKey x)).
  { intros Hn. rewrite IH by done. unfold rekey_total. simpl. lia. }
  destruct (box_open oldKey x) as [plain|]; [|done].
  unfold mbind, M_bind, sweep_seal. destruct (box_seal _ _ _) as [y|]; [|done].
  destruct (negb _); [done|]. destruct (db _ w) as [[[]|] w']; [|done].
  intros Hn. rewrite IH by done. unfold rekey_total. simpl. lia.
Qed.

Lemma guar_rekey_loop l r :
  guar rkept (rlisted l) (rekey_loop rnd oldKey newKey l r)
    (λ o s, o.2 = None → rfinished l s).
Proof.
  revert r. induction l as [|[id x] l IH]; intros r; simpl.
  { apply guar_ret; [exact _|]. by intros s _ _ k y ?%not_elem_of_nil. }
  assert (∀ r e (P : Vault.store → Prop), guar rkept P (mret (r, Some e))
    (λ (o : RekeyResult * option rekey_err) s, o.2 = None → rfinished ((id, x) :: l) s)) as Hret
    by (intros; by apply guar_ret; [exact _|]).
  destruct (str_eqb x "") eqn:Hx.
  { apply str_eqb_eq in Hx. apply (guar_rest _ _ _ (λ o, o.2 = None)); [done|apply IH]. }
  destruct (is_ok (box_open newKey x)) eqn:Hn.
  { apply (guar_rest _ _ _ (λ o, o.2 = None)); [done|apply IH]. }
  destruct (box_open oldKey x) as [plain|] eqn:Ho; [|apply Hret].
  assert (x ≠ "") as Hne by (intros ->; done).
  eapply guar_bind with (Q := λ y s, rlisted ((id, x) :: l) s ∧ ∀ y', y = Ok y' → y' ≠ ""); [exact _| |].
  { intros w Hl. unfold sweep_seal. simpl. split; [reflexivity|]. split; [done|].
    intros y' Hy. by eapply box_seal_nonempty. }
  intros [y|]; [|apply Hret].
  destruct (box_open newKey y) as [check|] eqn:Hy; simpl; [|apply Hret].
  case_bool_decide as Hc; simpl; [|apply Hret]. subst check.
  apply guar_pure. intros Hyne. specialize (Hyne _ eq_refl).
  eapply guar_bind; [exact _|apply (guar_replace (rekey_value oldKey newKey) (opens newKey) id x l y)|].
  - done.
  - done.
  - unfold rekey_value. rewrite Hy, Ho. by destruct (box_open newKey x).
  - unfold opens. by rewrite Hy.
  - intros [[]|]; [|apply Hret].
    eapply guar_conseq; [apply (guar_and_frame _ (rlisted l) (rfinished [(id, x)])); [exact _|apply IH]| |].
    + intros s [? Hf]. split; [done|by apply Hf].
    + intros o s [H1 H2] Hnone. apply finished_cons; auto.
Qed.
End rekey.

Section reseal.
Context `{!Env Vault.store, !SecretBox, !SecretBoxLaws}.
Context (rnd : nat → rand_draw) (key : bytes).
Abbreviation skept := (kept (value key) (λ _, true)).
Context `{!Relies skept}.

Lemma guar_reseal_loop l n :
  guar skept (listed (value key) (λ _, true) l) (reseal_loop rnd key l n) (λ _ _, True).
Proof.
  revert n. induction l as [|[id x] l IH]; intros n; simpl; [by apply guar_ret; [exact _|]|].
  assert (∀ n (P : Vault.store → Prop), guar skept P (mret (n, false)) (λ (_ : Z * bool) _, True)) as Hret
    by (intros; by apply guar_ret; [exact _|]).
  assert (∀ n, guar skept (listed (value key) (λ _, true) ((id, x) :: l)) (reseal_loop rnd key l n)
    (λ _ _, True)) as Hskip.
  { intros m. eapply guar_weaken; [apply IH|]. intros s. apply listed_tail. }
  destruct (str_eqb x "") eqn:Hx; [apply Hskip|].
  assert (x ≠ "") as Hne by (intros ->; done).
  eapply guar_bind with (Q := λ r s, listed (value key) (λ _, true) ((id, x) :: l) s ∧
    (r.1.2 = true → r.1.1 ≠ "" ∧ value key r.1.1 = value key x)); [exact _| |].
  { intros w Hl. unfold sweep_reseal. simpl. split; [reflexivity|]. split; [done|].
    destruct (box_reseal _ key x) as [[out ch] err] eqn:Hr. simpl. intros ->.
    split; [by eapply box_reseal_nonempty|].
    pose proof (box_reseal_changed _ _ _ _ _ Hr) as Hok. unfold value.
    destruct (box_open key x) as [p|] eqn:Hp; [|done].
    by rewrite (box_reseal_open _ _ _ _ _ _ _ Hr Hp). }
  intros [[out ch] err]. apply guar_pure. intros Hch.
  destruct ch, err; [apply Hret| |apply Hret|apply Hskip].
  destruct (Hch eq_refl) as [Hone Hv]. simpl in *.
  eapply guar_bind; [exact _|by apply (guar_replace (value key) (λ _, true) id x l out)|].
  intros [[]|]; [|apply Hret]. eapply guar_weaken; [apply IH|]. by intros s [].
Qed.
End reseal.

(** * The vault and the host agree *)

(** The current version of a secret is what was last added. *)
Lemma current_sealed_add id sealed b now s v :
  Inv s → secrets s !! id = Some v →
  current_sealed (AddVaultSecretVersion id sealed b now s).2 id = Some sealed.
Proof.
  intros Hinv Hid. unfold current_sealed, current_versions, AddVaultSecretVersion. rewrite Hid.
  cbn -[fresh]. rewrite lookup_insert_eq. cbn -[fresh].
  set (r := Version id _ sealed _). set (k := fresh _). set (m := filter _ _).
  assert (m !! k = Some r) as Hk.
  { apply map_lookup_filter_Some. split; [apply lookup_insert_eq|done]. }
  assert (∀ kv, kv ∈ map_to_list m → v_sealed kv.2 = sealed) as Hall.
  { intros [k' r'] Hin%elem_of_map_to_list. apply map_lookup_filter_Some in Hin as [Hin [Hs Hv]].
    simpl in *. apply lookup_insert_Some in Hin as [[_ <-]|[_ Hin]]; [done|].
    destruct (inv_le _ Hinv _ _ Hin) as (v0 & Hv0 & Hle). rewrite Hs, Hid in Hv0.
    injection Hv0 as <-. lia. }
  assert ((k, r) ∈ map_to_list m) as Hin by by apply elem_of_map_to_list.
  destruct (map_to_list m) as [|kv l]; [set_solver|]. f_equal. apply Hall. set_solver.
Qed.

Lemma current_sealed_same s s' id :
  versions s' = versions s → (∀ i, sec_version <$> secrets s' !! i = sec_version <$> secrets s !! i) →
  current_sealed s' id = current_sealed s id.
Proof.
  intros Hv Hs. unfold current_sealed, current_versions. specialize (Hs id).
  destruct (secrets s !! id) as [v|], (secrets s' !! id) as [v'|]; try done.
  simpl in Hs. injection Hs as Hs. by rewrite Hv, Hs.
Qed.

(** The current value of [id] opens to the password of the account on the host. *)
Definition agrees `{!SecretBox} (key : bytes) (id hid : uuid) (login : string) (pw : bytes)
    (s : rstore) : Prop :=
  Inv (vlt s) ∧ is_Some (secrets (vlt s) !! id) ∧
  (∃ sealed, current_sealed (vlt s) id = Some sealed ∧ box_open key sealed = Ok pw) ∧
  host_pw s !! (hid, login) = Some pw.

Section agree.
Context `{!Env rstore, !Quiet Env0, !SecretBox, !SecretBoxLaws}.
Context (network : net) (rnd : nat → rand_draw) (randomPassword : nat → bytes).
(** A command that reports an error did not change the password. *)
Context (Hhonest : ∀ t, n_cmd network t ≠ CmdErr true).

Abbreviation hoare P m Q := (guar anything P m Q).

Lemma hoare_net {A} P (m : M rstore A) :
  (∀ w, w_db (m w).2 = w_db w) → hoare P m (λ _, P).
Proof. intros Hm w HP. split; [done|]. by rewrite Hm. Qed.

Lemma dial_db hid user addr pw w : w_db (dial network hid user addr pw w).2 = w_db w.
Proof. done. Qed.

Definition host_is (V : Vault.store) (hp : gmap (uuid * string) bytes) (s : rstore) : Prop :=
  vlt s = V ∧ host_pw s = hp.

Lemma hoare_change V hp hid user old new addrs :
  hoare (host_is V hp) (change_loop network hid user old new addrs)
    (λ r, host_is V (match r.2 with Some _ => hp | None => <[(hid, user) := new]> hp end)).
Proof.
  induction addrs as [|addr rest IH]; simpl; [by apply guar_ret; [exact _|]|].
  eapply guar_bind; [exact _|by apply hoare_net, dial_db|]. intros [|]; simpl; [|exact IH].
  eapply guar_bind; [exact _|by apply (hoare_net (host_is V hp))|]. intros t.
  destruct (n_session network t); simpl; [|exact IH].
  destruct (n_cmd network t) as [|changed] eqn:Hc.
  - eapply guar_bind with (Q := λ _, host_is V (<[(hid, user) := new]> hp)); [exact _| |].
    { intros w [<- <-]. by split. }
    intros ?. eapply guar_bind; [exact _|by apply hoare_net, dial_db|].
    intros v. by apply guar_ret; [exact _|].
  - destruct changed; [by destruct (Hhonest t)|].
    eapply guar_bind with (Q := λ _, host_is V hp); [exact _|by apply guar_ret; [exact _|]|].
    intros ?. by apply guar_ret; [exact _|].
Qed.

Context (Hdraw : ∀ t, good_draw (rnd t)) (Hdb : ∀ n, db_err n = false).
Context (Hseal : ∀ t k p, is_ok (box_seal (rnd t) k p) = true).

Lemma hoare_seal P key pt :
  hoare P (seal_at rnd key pt) (λ r s, P s ∧ ∃ y, r = Ok y ∧ box_open key y = Ok pt).
Proof.
  intros w HP. split; [done|]. split; [done|]. unfold seal_at. simpl.
  pose proof (Hseal (w_tick w) key pt). destruct (box_seal _ key pt) as [y|] eqn:He; [|done].
  exists y. split; [done|]. by eapply box_open_seal.
Qed.

(** A statement that succeeds: there is no store failure. *)
Lemma hoare_vdb {A} P (Q : res store_error A → rstore → Prop) f :
  (∀ now s, P s → Q (f now (vlt s)).1 (RStore (f now (vlt s)).2 (host_pw s))) →
  hoare P (vdb f) Q.
Proof.
  intros Hf. apply guar_db_quiet; [exact _..| |].
  - intros n s He. by rewrite Hdb in He.
  - intros n s HP. split; [done|]. specialize (Hf (clock n) s HP). by destruct (f _ _).
Qed.

Lemma agrees_add key id hid login b sealed now s pw pw' :
  agrees key id hid login pw s → box_open key sealed = Ok pw' →
  let s' := RStore (AddVaultSecretVersion id sealed b now (vlt s)).2 (<[(hid, login) := pw']> (host_pw s)) in
  agrees key id hid login pw' s'.
Proof.
  intros (Hinv & [v Hid] & _ & Hpw) Ho. simpl. split_and!; simpl.
  - by apply Inv_version.
  - unfold AddVaultSecretVersion. rewrite Hid. simpl. by rewrite lookup_insert_eq.
  - exists sealed. split; [by eapply current_sealed_add|done].
  - apply lookup_insert_eq.
Qed.

(** What [change_and_record] leaves: agreement, on the new password exactly when the
    host took it. *)
Definition agree_post key id hid login (old : bytes) (r : rot_result) (s : rstore) : Prop :=
  match r with
  | RotOk _ => ∃ new, agrees key id hid login new s
  | _ => agrees key id hid login old s
  end.

Lemma hoare_change_and_record key id hid h login old b :
  hoare (agrees key id hid login old)
    (change_and_record network rnd randomPassword id hid h login key old b)
    (agree_post key id hid login old).
Proof.
  unfold change_and_record.
  eapply guar_bind; [exact _|by apply (hoare_net (agrees key id hid login old))|]. intros new.
  eapply guar_bind; [exact _|apply hoare_seal|].
  intros [y|e]; [|intros w (_ & y & [=] & _)].
  intros w0 (Hag & y' & [= <-] & Hy). revert w0 Hag.
  change (hoare (agrees key id hid login old) (r ← vdb (AddVaultSecretVersion id y b);
    match r with
    | Ok _ => res ← changePasswordOnHost network hid h login old new;
      match res with
      | (_, Some e) => sealedOld ← seal_at rnd key old;
        _ ← match sealedOld with
            | Ok sealedOld => _ ← vdb (AddVaultSecretVersion id sealedOld b); mret tt
            | Err _ => mret tt end;
        mret (RotHostErr e)
      | (verified, None) => mret (RotOk verified) end
    | Err _ => mret RotStoreErr end) (agree_post key id hid login old)).
  eapply guar_bind with (Q := λ r s, is_ok r = true ∧
    agrees key id hid login new (RStore (vlt s) (<[(hid, login) := new]> (host_pw s))) ∧
    host_pw s !! (hid, login) = Some old); [exact _| |].
  { apply hoare_vdb. intros now s Hag. split_and!.
    - destruct Hag as (_ & [v Hid] & _). unfold AddVaultSecretVersion. by rewrite Hid.
    - simpl. by apply (agrees_add key id hid login b y now s old new Hag).
    - by destruct Hag as (_ & _ & _ & ?). }
  intros [n|e]; [|by intros w [[=] _]].
  intros w (_ & Hag & Hold). revert w Hag Hold.
  cut (∀ V hp, agrees key id hid login new (RStore V (<[(hid, login) := new]> hp)) →
    hp !! (hid, login) = Some old →
    hoare (host_is V hp) (res ← changePasswordOnHost network hid h login old new;
      match res with
      | (_, Some e) => sealedOld ← seal_at rnd key old;
        _ ← match sealedOld with
            | Ok sealedOld => _ ← vdb (AddVaultSecretVersion id sealedOld b); mret tt
            | Err _ => mret tt end;
        mret (RotHostErr e)
      | (verified, None) => mret (RotOk verified) end) (agree_post key id hid login old)).
  { intros Hcut w Hag Hold. by apply (Hcut (vlt (w_db w)) (host_pw (w_db w))). }
  intros V hp Hag Hold. eapply guar_bind; [exact _|apply hoare_change|].
  intros [verified [e|]]; simpl.
  - eapply guar_bind; [exact _|apply hoare_seal|].
    intros [z|ez]; [|intros w (_ & z & [=] & _)].
    eapply guar_bind with (Q := λ _, agrees key id hid login old); [exact _| |].
    + intros w (Hs & z' & [= <-] & Hz). revert w Hs.
      change (hoare (host_is V hp) (_ ← vdb (AddVaultSecretVersion id z b); mret tt)
        (λ _, agrees key id hid login old)).
      eapply guar_bind with (Q := λ _, agrees key id hid login old);
        [exact _| |intros ?; by apply guar_ret; [exact _|]].
      apply hoare_vdb. intros now s [<- <-].
      pose proof (agrees_add key id hid login b z now _ new old Hag Hz) as Hfinal. simpl in Hfinal.
      by rewrite insert_insert_eq, insert_id in Hfinal.
    + intros ?. by apply guar_ret; [exact _|].
  - apply guar_ret; [exact _|]. intros s [<- Hs]. exists new. destruct s as [V' H']. simpl in *. by subst.
Qed.

Lemma hoare_keeps_agree key id hid login pw f :
  (∀ now s, Inv s → Inv (f now s).2 ∧ versions (f now s).2 = versions s ∧
     ∀ i, sec_version <$> secrets (f now s).2 !! i = sec_version <$> secrets s !! i) →
  hoare (agrees key id hid login pw) (vdb (A:=unit) f) (λ _, agrees key id hid login pw).
Proof.
  intros Hf. apply hoare_vdb. intros now s (Hinv & [v Hid] & (y & Hc & Ho) & Hpw).
  destruct (Hf now _ Hinv) as (Hinv' & Hv & Hs). split_and!; simpl; [done| | |done].
  - specialize (Hs id). rewrite Hid in Hs.
    by apply fmap_Some in Hs as (v' & ? & _).
  - exists y. split; [|done]. by rewrite (current_sealed_same _ _ id Hv Hs).
Qed.

Lemma hoare_raudit key id hid login pw a i :
  hoare (agrees key id hid login pw) (raudit a i) (λ _, agrees key id hid login pw).
Proof.
  unfold raudit. eapply guar_bind; [exact _|apply hoare_keeps_agree|].
  - intros now s Hinv. split; [|done]. by eapply vault_Inv_step; [apply step_audit|].
  - intros ?. by apply guar_ret; [exact _|].
Qed.

Lemma hoare_mark key id hid login pw i at_ :
  hoare (agrees key id hid login pw) (vdb (MarkVaultRotated i at_)) (λ _, agrees key id hid login pw).
Proof.
  apply hoare_keeps_agree. intros now s Hinv. split_and!; [|done|].
  - by eapply vault_Inv_step; [apply step_rotated|].
  - intros j. by apply lookup_alter_version.
Qed.

Lemma hoare_defer key id hid login pw i :
  hoare (agrees key id hid login pw) (vdb (DeferVaultRotation i)) (λ _, agrees key id hid login pw).
Proof.
  apply hoare_keeps_agree. intros now s Hinv. split_and!; [|done|].
  - by eapply vault_Inv_step; [apply step_defer|].
  - intros j. by apply lookup_alter_version.
Qed.

Lemma hoare_get_id {A} s0 (f : Z → Vault.store → res store_error A) :
  hoare (λ s, s = s0) (vdb (λ now s, (f now s, s)))
    (λ r s, s = s0 ∧ ∃ now, r = f now (vlt s0)).
Proof.
  apply hoare_vdb. intros now s ->. simpl. split; [by destruct s0|]. eauto.
Qed.

Context (by_hostname : list (uuid * host) → list (uuid * host)) (key : bytes).

(** The host [rotate] picks for a credential. *)
Definition first_host (s : rstore) (id : uuid) : option (uuid * host) :=
  head (by_hostname (map_to_list (filter (λ kv, h_credential kv.2 = Some id) (hosts (vlt s))))).

Lemma agree_error id hid login old : ∀ r s, (∀ ver, r ≠ RotOk ver) →
  agree_post key id hid login old r s → agrees key id hid login old s.
Proof. intros [| |e|ver] s Hr; simpl; try done. by destruct (Hr ver). Qed.

(** the vault stays consistent with the host. When nobody else runs, the store
    answers, sealing works, and a remote command that reports an error did not change
    the password, then after a rotation on demand, whatever the network did and
    whatever the answer, the current value of the credential opens to the password
    the account has on the host; and when the answer is not 200 it is the old one. *)
Theorem rotate_keeps_agreement p id v hid h s0 old (w : world rstore) :
  w_db w = s0 → secrets (vlt s0) !! id = Some v → first_host s0 id = Some (hid, h) →
  agrees key id hid (login_user v h) old s0 →
  let r := rotate network (Ok key) rnd randomPassword by_hostname p (Some id) w in
  match r.1 with
  | WriteJSON c _ => c = 200 ∧ ∃ new, agrees key id hid (login_user v h) new (w_db r.2)
  | WriteError _ _ => agrees key id hid (login_user v h) old (w_db r.2)
  end.
Proof.
  intros Hw Hv Hh Hag.
  set (post := λ (r : reply bool) s, match r with
    | WriteJSON c _ => c = 200 ∧ ∃ new, agrees key id hid (login_user v h) new s
    | WriteError _ _ => agrees key id hid (login_user v h) old s end).
  cut (hoare (λ s, s = s0) (rotate network (Ok key) rnd randomPassword by_hostname p (Some id)) post).
  { intros Hc. by destruct (Hc w Hw). }
  assert (∀ c m, hoare (λ s, s = s0) (mret (WriteError c m)) post) as Herr.
  { intros c m. apply guar_ret; [exact _|]. by intros s ->. }
  unfold rotate. eapply guar_bind; [exact _|apply hoare_get_id|]. intros r.
  apply guar_pure. intros [_ ->]. rewrite Hv.
  destruct (str_eqb (sec_type v) "password"); [|apply Herr]. simpl negb. cbv iota.
  destruct (str_eqb (sec_ext_provider v) ""); [|apply Herr]. simpl negb. cbv iota.
  eapply guar_bind; [exact _|apply hoare_get_id|]. intros r.
  apply guar_pure. intros [_ ->]. unfold first_host in Hh.
  destruct (by_hostname _) as [|[hid' h'] rest]; [done|]. injection Hh as -> ->.
  eapply guar_bind; [exact _|apply hoare_get_id|]. intros r.
  apply guar_pure. intros [_ ->].
  pose proof Hag as (_ & _ & (sealed & Hs & Ho) & _). rewrite Hs. cbv iota beta. rewrite Ho.
  eapply guar_bind; [exact _|eapply guar_weaken; [apply hoare_change_and_record|by intros s ->]|].
  intros [| |e|ver]; simpl.
  - by apply guar_ret; [exact _|].
  - by apply guar_ret; [exact _|].
  - eapply guar_bind; [exact _|apply hoare_raudit|]. intros ?. by apply guar_ret; [exact _|].
  - apply guar_weaken with (P' := λ s, ∃ new, agrees key id hid (login_user v h) new s); [|done].
    intros w' [new Hnew].
    assert (hoare (agrees key id hid (login_user v h) new)
      (_ ← raudit "credential.rotate" id; mret (WriteJSON 200 ver)) post) as Hlast.
    { eapply guar_bind; [exact _|apply hoare_raudit|]. intros ?.
      apply guar_ret; [exact _|]. intros s Hs'. simpl. eauto. }
    by apply Hlast.
Qed.

(** the unattended rotation keeps the vault consistent with the host too: on
    success the current value is the password the host has now, and after any reported
    error it is the old one, which the host still has. *)
Theorem rotateOne_keeps_agreement id v hid h s0 old (w : world rstore) :
  w_db w = s0 → secrets (vlt s0) !! id = Some v → first_host s0 id = Some (hid, h) →
  agrees key id hid (login_user v h) old s0 →
  let r := rotateOne network (Ok key) rnd randomPassword by_hostname id v w in
  match r.1 with
  | None => ∃ new, agrees key id hid (login_user v h) new (w_db r.2)
  | Some _ => agrees key id hid (login_user v h) old (w_db r.2)
  end.
Proof.
  intros Hw Hv Hh Hag.
  set (post := λ (r : option string) s, match r with
    | None => ∃ new, agrees key id hid (login_user v h) new s
    | Some _ => agrees key id hid (login_user v h) old s end).
  cut (hoare (λ s, s = s0) (rotateOne network (Ok key) rnd randomPassword by_hostname id v) post).
  { intros Hc. by destruct (Hc w Hw). }
  assert (∀ e, hoare (λ s, s = s0) (mret (Some e)) post) as Herr.
  { intros e. apply guar_ret; [exact _|]. by intros s ->. }
  unfold rotateOne. destruct (str_eqb (sec_type v) "password"); [|apply Herr]. simpl negb. cbv iota.
  eapply guar_bind; [exact _|apply hoare_get_id|]. intros r.
  apply guar_pure. intros [_ ->]. unfold first_host in Hh.
  destruct (by_hostname _) as [|[hid' h'] rest]; [done|]. injection Hh as -> ->.
  eapply guar_bind; [exact _|apply hoare_get_id|]. intros r.
  apply guar_pure. intros [_ ->].
  pose proof Hag as (_ & _ & (sealed & Hs & Ho) & _). rewrite Hs. cbv iota beta. rewrite Ho.
  eapply guar_bind; [exact _|eapply guar_weaken; [apply hoare_change_and_record|by intros s ->]|].
  intros [| |e|ver]; simpl.
  - by apply guar_ret; [exact _|].
  - by apply guar_ret; [exact _|].
  - eapply guar_bind; [exact _|apply hoare_defer|]. intros ?. eapply guar_bind; [exact _|apply hoare_raudit|]. intros ?. by apply guar_ret; [exact _|].
  - apply guar_weaken with (P' := λ s, ∃ new, agrees key id hid (login_user v h) new s); [|done].
    intros w' [new Hnew].
    assert (hoare (agrees key id hid (login_user v h) new)
      (now ← time_now; _ ← vdb (MarkVaultRotated id now);
       _ ← raudit "credential.rotate" id; mret None) post) as Hlast.
    { eapply guar_bind; [exact _|by apply hoare_net|]. intros now.
      eapply guar_bind; [exact _|apply hoare_mark|]. intros ?.
      eapply guar_bind; [exact _|apply hoare_raudit|]. intros ?.
      apply guar_ret; [exact _|]. intros s Hs'. simpl. eauto. }
    by apply Hlast.
Qed.
End agree.

(** * Properties *)

(** rotating the master key never loses a credential. Whatever fails and wherever
    the run stops, every version keeps its plaintext, readable under the new key or
    still under the old one, so the run can be resumed; a run without an error leaves
    every sealed version it listed readable under the new key with the same
    plaintext; and its counts add up to the versions it listed. *)
Theorem rekey_preserves `{!Env Vault.store, !SecretBox, !SecretBoxLaws} rnd oldKey newKey
    `{!Relies (kept (rekey_value oldKey newKey) (opens newKey))} :
  guar (kept (rekey_value oldKey newKey) (opens newKey)) (λ _, True)
    (RekeySecrets rnd oldKey newKey)
    (λ o s, o.2 = None → ∃ l, finished (rekey_value oldKey newKey) (opens newKey) l s ∧
       rekey_total o.1 = Z.of_nat (length l)).
Proof.
  unfold RekeySecrets. case_bool_decide; [by apply guar_ret; [exact _|]|].
  eapply guar_bind; [exact _|apply guar_list_seals; exact _|].
  intros [l|]; [|by apply guar_ret; [exact _|]].
  intros w Hl. specialize (Hl l eq_refl).
  destruct (guar_rekey_loop rnd oldKey newKey l (MkRekey 0 0 0) w Hl) as [HR Hf].
  split; [done|]. intros Hnone. exists l. split; [by apply Hf|].
  by rewrite (rekey_loop_count rnd oldKey newKey l (MkRekey 0 0 0) w Hnone).
Qed.

(** the KDF sweep changes no value: whatever happens, every sealed version still
    has the plaintext it had, or is untouched. *)
Theorem reseal_sweep_preserves `{!Env Vault.store, !SecretBox, !SecretBoxLaws} rnd key
    `{!Relies (kept (value key) (λ _, true))} :
  within (kept (value key) (λ _, true)) (ResealSecrets rnd key).
Proof.
  unfold ResealSecrets. eapply guar_bind; [exact _|apply guar_list_seals; exact _|].
  intros [l|]; [|by apply guar_ret; [exact _|]].
  eapply guar_weaken; [apply guar_reseal_loop; exact _|]. intros s Hl. by apply Hl.
Qed.

(** A keyed box, and a vault with one version under the old key and one under the new. *)
Definition keyed_box : SecretBox := @secretbox_impl toy_crypto false.
Lemma keyed_laws : @SecretBoxLaws keyed_box.
Proof. apply (@secretbox_laws toy_crypto toy_laws). Qed.
Definition sealed_under (key : string) : string :=
  match @box_seal keyed_box toy_draw (String.list_byte_of_string key) (String.list_byte_of_string "pw")
  with Ok s => s | Err _ => "" end.
Definition ex_versions : Vault.store :=
  set_versions empty_store
    {[ 1%N := Version 5 1 (sealed_under "old") None; 2%N := Version 5 2 (sealed_under "new") None;
       3%N := Version 6 1 "" None ]}.
Definition okey := String.list_byte_of_string "old".
Definition nkey := String.list_byte_of_string "new".

Lemma rekey_preserves_witness :
  guar (@kept (@rekey_value keyed_box okey nkey) (@opens keyed_box nkey)) (λ _, True)
    (@RekeySecrets quiet_env keyed_box (λ _, toy_draw) okey nkey)
    (λ o s, o.2 = None → ∃ l, @finished (@rekey_value keyed_box okey nkey) (@opens keyed_box nkey) l s ∧
       rekey_total o.1 = Z.of_nat (length l)) ∧
  (let '(r, w) := @RekeySecrets quiet_env keyed_box (λ _, toy_draw) okey nkey (World 0 ex_versions) in
   r = (MkRekey 1 1 1, None) ∧
   (@value keyed_box nkey ∘ v_sealed) <$> versions (w_db w) !! 1%N = Some (Some (String.list_byte_of_string "pw"))).
Proof.
  split; [apply (@rekey_preserves quiet_env keyed_box keyed_laws); apply quiet_relies, _|]. vm_compute. done.
Defined.

Lemma reseal_sweep_preserves_witness :
  within (@kept (@value keyed_box nkey) (λ _, true))
    (@ResealSecrets quiet_env keyed_box (λ _, toy_draw) nkey).
Proof. apply (@reseal_sweep_preserves quiet_env keyed_box keyed_laws); apply quiet_relies, _. Defined.

(** ** Runs *)
Definition ex_h (n : string) : host := Host n n "" "ubuntu" "vault_password" (Some 5%N).
Definition ex_vault : Vault.store :=
  Store (secrets (ex_store "open")) (versions (ex_store "open")) (vgrants (ex_store "open"))
    ∅ ∅ {[ 8%N := ex_h "h1" ]} [] [] ∅.
Definition ex_rstore : rstore := RStore ex_vault {[ (8%N, "root") := Vault.pw ]}.
Definition newpw : bytes := String.list_byte_of_string "new".
Definition good_net : net := MkNet (λ _ _, true) (λ _, true) (λ _, CmdOk).
Definition bad_net : net := MkNet (λ _ _, true) (λ _, true) (λ _, CmdErr false).

Lemma ex_Inv : Inv ex_vault.
Proof.
  split; simpl.
  - intros id c Hc. by rewrite lookup_empty in Hc.
  - intros id c Hc. by rewrite lookup_empty in Hc.
  - intros id v [<- <-]%lookup_singleton_Some. eexists 6%N, _. by split.
  - intros k r [<- <-]%lookup_singleton_Some. eexists. by split.
  - by intros k k' r r' [<- _]%lookup_singleton_Some [<- _]%lookup_singleton_Some.
Qed.

Lemma ex_agrees : @agrees plain_box [] 5 8 "root" Vault.pw ex_rstore.
Proof.
  split_and!; [apply ex_Inv|by eexists| |done]. exists "ppw". by split; vm_compute.
Qed.

Lemma plain_seals t k p : is_ok (@box_seal plain_box ((λ _ : nat, toy_draw) t) k p) = true.
Proof. done. Qed.

Lemma rotate_keeps_agreement_witness :
  let r := @rotate quiet_env plain_box bad_net (Ok []) (λ _, toy_draw) (λ _, newpw) id ex_mgr (Some 5%N)
             (World 0 ex_rstore) in
  r.1 = WriteError 502 "rotation failed on host (credential reverted)" ∧
  @agrees plain_box [] 5 8 "root" Vault.pw (w_db r.2).
Proof.
  split; [by vm_compute|].
  apply (@rotate_keeps_agreement quiet_env _ plain_box plain_box_laws bad_net (λ _, toy_draw)
    (λ _, newpw) ltac:(done) (λ _, toy_draw_good) ltac:(done) plain_seals id [] ex_mgr 5%N
    (ex_secret "open") 8%N (ex_h "h1") ex_rstore Vault.pw (World 0 ex_rstore));
    [done|by vm_compute..|apply ex_agrees].
Defined.

Lemma rotateOne_keeps_agreement_witness :
  let r := @rotateOne quiet_env plain_box good_net (Ok []) (λ _, toy_draw) (λ _, newpw) id 5%N
             (ex_secret "open") (World 0 ex_rstore) in
  r.1 = None ∧ ∃ new, @agrees plain_box [] 5 8 "root" new (w_db r.2).
Proof.
  split; [by vm_compute|].
  apply (@rotateOne_keeps_agreement quiet_env _ plain_box plain_box_laws good_net (λ _, toy_draw)
    (λ _, newpw) ltac:(done) (λ _, toy_draw_good) ltac:(done) plain_seals id [] 5%N
    (ex_secret "open") 8%N (ex_h "h1") ex_rstore Vault.pw (World 0 ex_rstore));
    [done|by vm_compute..|apply ex_agrees].
Defined.

(** The credential of two hosts: the rotation answers 200 and changes the first; the
    second keeps the old password, which the vault no longer holds. *)
Definition ex_two : rstore :=
  RStore (Store (secrets ex_vault) (versions ex_vault) (vgrants ex_vault) ∅ ∅
      {[ 8%N := ex_h "h1"; 10%N := ex_h "h2" ]} [] [] ∅)
    {[ (8%N, "root") := Vault.pw; (10%N, "root") := Vault.pw ]}.

Lemma rotate_leaves_other_hosts :
  let r := @rotate quiet_env plain_box good_net (Ok []) (λ _, toy_draw) (λ _, newpw) id ex_mgr (Some 5%N)
             (World 0 ex_two) in
  r.1 = WriteJSON 200 true ∧ current_sealed (vlt (w_db r.2)) 5 = Some "pnew" ∧
  size (filter (λ kp, kp.2 = newpw) (host_pw (w_db r.2))) = 1%nat ∧
  size (filter (λ kp, kp.2 = Vault.pw) (host_pw (w_db r.2))) = 1%nat.
Proof. by vm_compute. Qed.

(** The host refused the change and the store fails when the old value is put back:
    the vault keeps the password the host never took, and the answer says reverted. *)
Lemma rotate_revert_failure :
  let env : Env rstore := MkEnv _ (λ n, Nat.leb 6 n) Z.of_nat (λ _ s, s) in
  let r := @rotate env plain_box bad_net (Ok []) (λ _, toy_draw) (λ _, newpw) id ex_mgr (Some 5%N)
             (World 0 ex_rstore) in
  r.1 = WriteError 502 "rotation failed on host (credential reverted)" ∧
  current_sealed (vlt (w_db r.2)) 5 = Some "pnew" ∧
  host_pw (w_db r.2) !! (8%N, "root") = Some Vault.pw.
Proof. by vm_compute. Qed.
