(* ===== verification/AuditChain.v ===== *)
(** The tamper-evident audit log: [store/audit.go].

    The table is the list of its rows in [seq] order. An append runs in one transaction
    under an advisory lock, so it is one function on the table; the two hashes, the time
    and uuid formats and the database's normalisation of an address are parameters. *)
From S2P Require Import Prelude.
From stdpp Require Import pretty.
From Stdlib Require Import Strings.Ascii.
#[local] Open Scope Z_scope.

(** * Data *)
Definition auditAlgLegacy : Z := 1.
Definition auditAlgHMAC : Z := 2.
Definition providerTenantID : string := "00000000-0000-0000-0000-000000000001".

(** [models.AuditEvent] as the caller fills it; [e_detail] is the JSON of the detail. *)
Record event := Event {
  e_actor : option uuid; e_actor_name : string; e_action : string;
  e_target_kind : string; e_target_id : string; e_ip : string; e_detail : string;
}.

(** A row of [audit_events]. *)
Record row := Row {
  r_seq : Z; r_created : Z; r_tenant : string; r_event : event;
  r_prev : string; r_hash : string; r_alg : Z;
}.

(** [next_seq] is the identity column's generator. *)
Record table := Table { rows : list row; next_seq : Z }.

Class Format := {
  (** HMAC-SHA256 and SHA-256, in hex *)
  hmac_hex : string → string → string;
  sha256_hex : string → string;
  (** [createdAt.UTC().Format(time.RFC3339Nano)]; [uuid.UUID.String] *)
  fmt_time : Z → string;
  uuid_string : uuid → string;
  (** what [host($7::inet)] reads back; what [detail] re-marshals to after JSONB *)
  norm_ip : string → string;
  norm_detail : string → string;
}.

Section chain.
Context `{!Format}.

Definition nilUUID (u : option uuid) : string :=
  match u with None => "" | Some u => uuid_string u end.

(** [auditRowTenant]: the context's tenant when it is one. *)
Definition auditRowTenant (guc bypass : string) (is_uuid : string → bool) : string :=
  if negb (str_eqb guc "") && negb (str_eqb guc bypass) && is_uuid guc then guc
  else providerTenantID.

Definition auditCanonicalLegacy (e : event) : string :=
  nilUUID (e_actor e) +:+ "|" +:+ e_actor_name e +:+ "|" +:+ e_action e +:+ "|" +:+
  e_target_kind e +:+ "|" +:+ e_target_id e +:+ "|" +:+ e_ip e +:+ "|" +:+ e_detail e.

Definition auditCanonicalHMAC (seq created : Z) (tenant : string) (e : event) : string :=
  pretty seq +:+ "|" +:+ fmt_time created +:+ "|" +:+ tenant +:+ "|" +:+ auditCanonicalLegacy e.

Definition auditMAC (alg : Z) (key prev canonical : string) : string :=
  let data := prev +:+ "|" +:+ canonical in
  if alg =? auditAlgHMAC then hmac_hex key data else sha256_hex data.

Definition canonical (alg seq created : Z) (tenant : string) (e : event) : string :=
  if alg =? auditAlgHMAC then auditCanonicalHMAC seq created tenant e else auditCanonicalLegacy e.

Definition last_hash (t : table) : string :=
  match last (rows t) with Some r => r_hash r | None => "" end.

(** What the row holds after the INSERT normalised it. *)
Definition read_back (e : event) : event :=
  Event (e_actor e) (e_actor_name e) (e_action e) (e_target_kind e) (e_target_id e)
    (if str_eqb (e_ip e) "" then "" else norm_ip (e_ip e)) (norm_detail (e_detail e)).

(** [AppendAudit] with the configured key, in the tenant of the context. *)
Definition AppendAudit (key tenant : string) (e : event) (now : Z) (t : table) : row * table :=
  let alg := if str_eqb key "" then auditAlgLegacy else auditAlgHMAC in
  let prev := last_hash t in
  let seq := next_seq t in
  let e' := read_back e in
  let hash := auditMAC alg key prev (canonical alg seq now tenant e') in
  let r := Row seq now tenant e' prev hash alg in
  (r, Table (rows t ++ [r]) (seq + 1)).

(** [VerifyAuditChain]: [(intact, brokenAtSeq)]. *)
Fixpoint verify (key prev : string) (rs : list row) : bool * Z :=
  match rs with
  | [] => (true, 0)
  | r :: rs' =>
    let want := auditMAC (r_alg r) key prev
      (canonical (r_alg r) (r_seq r) (r_created r) (r_tenant r) (r_event r)) in
    if negb (str_eqb (r_prev r) prev) || negb (str_eqb (r_hash r) want)
    then (false, r_seq r)
    else verify key (r_hash r) rs'
  end.
Definition VerifyAuditChain (key : string) (t : table) : bool * Z := verify key "" (rows t).

(** [ListAudit]; [ilike] is the database's case-insensitive substring match. *)
Record AuditFilter := MkFilter {
  f_action : string; f_actor : option uuid; f_actor_name : string;
  f_from : option Z; f_to : option Z; f_limit : Z; f_offset : Z;
}.
Definition matches (ilike : string → string → bool) (f : AuditFilter) (r : row) : bool :=
  (str_eqb (f_action f) "" || str_eqb (e_action (r_event r)) (f_action f)) &&
  (match f_actor f with None => true | Some u => bool_decide (e_actor (r_event r) = Some u) end) &&
  (str_eqb (f_actor_name f) "" || ilike (e_actor_name (r_event r)) (f_actor_name f)) &&
  (match f_from f with None => true | Some a => a <=? r_created r end) &&
  (match f_to f with None => true | Some b => r_created r <=? b end).
Definition ListAudit (ilike : string → string → bool) (f : AuditFilter) (t : table) : list row :=
  let limit := if (f_limit f <=? 0) || (1000 <? f_limit f) then 100 else f_limit f in
  let offset := if f_offset f <? 0 then 0 else f_offset f in
  take (Z.to_nat limit) (drop (Z.to_nat offset)
    (rev (filter (λ r, matches ilike f r = true) (rows t)))).

(** [DeleteUser]: the foreign key of [actor_id] sets it to NULL. *)
Definition forget_actor (u : uuid) (r : row) : row :=
  if bool_decide (e_actor (r_event r) = Some u) then
    let e := r_event r in
    Row (r_seq r) (r_created r) (r_tenant r)
      (Event None (e_actor_name e) (e_action e) (e_target_kind e) (e_target_id e) (e_ip e)
         (e_detail e)) (r_prev r) (r_hash r) (r_alg r)
  else r.
Definition DeleteUser_audit (u : uuid) (t : table) : table :=
  Table (forget_actor u <$> rows t) (next_seq t).

(** [PruneAuditEventsBefore]: the rows deleted, and what is left. *)
Definition PruneAuditEventsBefore (cutoff : Z) (t : table) : Z * table :=
  (Z.of_nat (length (filter (λ r, r_created r < cutoff) (rows t))),
   Table (filter (λ r, ¬ r_created r < cutoff) (rows t)) (next_seq t)).

(** The data a row's hash is over. *)
Definition data_of (r : row) : string :=
  r_prev r +:+ "|" +:+ canonical (r_alg r) (r_seq r) (r_created r) (r_tenant r) (r_event r).

(** * Lemmas *)
Definition row_valid (key prev : string) (r : row) : Prop :=
  r_prev r = prev ∧ r_hash r = auditMAC (r_alg r) key prev
    (canonical (r_alg r) (r_seq r) (r_created r) (r_tenant r) (r_event r)).

Fixpoint valid (key prev : string) (rs : list row) : Prop :=
  match rs with [] => True | r :: rs' => row_valid key prev r ∧ valid key (r_hash r) rs' end.

Lemma verify_valid key prev rs : (verify key prev rs).1 = true ↔ valid key prev rs.
Proof.
  revert prev. induction rs as [|r rs IH]; intros prev; simpl; [done|].
  unfold row_valid. rewrite <-(IH (r_hash r)).
  destruct (str_eqb (r_prev r) prev) eqn:Hp; simpl.
  - apply str_eqb_eq in Hp. set (w := auditMAC _ _ _ _).
    destruct (str_eqb (r_hash r) w) eqn:Hh; simpl.
    + apply str_eqb_eq in Hh. naive_solver.
    + split; [done|]. intros [[_ He] _]. rewrite He in Hh. unfold str_eqb in Hh.
      by rewrite bool_decide_true in Hh.
  - split; [done|]. intros [[He _] _]. rewrite He in Hp. unfold str_eqb in Hp.
    by rewrite bool_decide_true in Hp.
Qed.

Definition end_hash (prev : string) (rs : list row) : string :=
  match last rs with Some r => r_hash r | None => prev end.

Lemma valid_app key prev rs rs' :
  valid key prev (rs ++ rs') ↔ valid key prev rs ∧ valid key (end_hash prev rs) rs'.
Proof.
  revert prev. induction rs as [|r rs IH]; intros prev; simpl; [naive_solver|].
  rewrite IH. assert (end_hash (r_hash r) rs = end_hash prev (r :: rs)) as ->;
    [|naive_solver].
  unfold end_hash. rewrite last_cons. by destruct (last rs).
Qed.

Lemma verify_true key prev rs : valid key prev rs → verify key prev rs = (true, 0).
Proof.
  revert prev. induction rs as [|r rs IH]; intros prev; simpl; [done|].
  intros [[-> Hh] Hv]. unfold str_eqb. rewrite !bool_decide_true by done. simpl. by apply IH.
Qed.

Lemma valid_append key key' tenant e now t :
  key' = key ∨ key' = "" → valid key "" (rows t) →
  valid key "" (rows (AppendAudit key' tenant e now t).2).
Proof.
  intros Hk Hv. simpl. apply valid_app. split; [done|]. split; [|done]. split; [done|].
  simpl. unfold auditMAC, end_hash, last_hash. destruct Hk as [->| ->]; [|done]. done.
Qed.

(** The first row that fails is the one reported. *)
Lemma verify_broken key prev rs r rs' :
  valid key prev rs → ¬ row_valid key (end_hash prev rs) r →
  verify key prev (rs ++ r :: rs') = (false, r_seq r).
Proof.
  revert prev. induction rs as [|r0 rs IH]; intros prev; simpl.
  - intros _ Hn. unfold end_hash in Hn. simpl in Hn.
    destruct (str_eqb (r_prev r) prev) eqn:Hp; simpl; [|done].
    destruct (str_eqb (r_hash r) _) eqn:Hh; simpl; [|done].
    apply str_eqb_eq in Hp, Hh. by destruct Hn.
  - intros [[-> Hh] Hv] Hn. unfold str_eqb at 1 2. rewrite !bool_decide_true by done. simpl.
    apply IH; [done|]. unfold end_hash in *. rewrite last_cons in Hn. by destruct (last rs).
Qed.

(** The hash before position [i]. *)
Definition prev_at (prev : string) (rs : list row) (i : nat) : string :=
  match i with O => prev | S k => default "" (r_hash <$> rs !! k) end.

Lemma valid_lookup key prev rs i r :
  valid key prev rs → rs !! i = Some r → row_valid key (prev_at prev rs i) r.
Proof.
  revert prev i. induction rs as [|r0 rs IH]; intros prev i; [done|].
  intros [H0 Hv]. destruct i as [|i]; simpl; [by intros [= <-]|].
  intros Hi. specialize (IH _ _ Hv Hi). by destruct i.
Qed.

Lemma valid_keyed key prev r :
  row_valid key prev r → r_alg r = auditAlgHMAC → r_hash r = hmac_hex key (data_of r).
Proof.
  intros [Hp Hh] Ha. rewrite Hh. unfold auditMAC, data_of. by rewrite Ha, Hp.
Qed.
End chain.

(** ** Separators *)
Fixpoint no_bar (s : string) : bool :=
  match s with
  | EmptyString => true
  | String c s' => negb (Ascii.eqb c "|"%char) && no_bar s'
  end.

Lemma split_bar a b x y :
  no_bar a = true → no_bar b = true → a +:+ "|" +:+ x = b +:+ "|" +:+ y → a = b ∧ x = y.
Proof.
  revert b. induction a as [|c a IH]; intros [|d b]; simpl; intros Ha Hb Heq.
  - split; [done|]. by injection Heq.
  - injection Heq as <- _. done.
  - injection Heq as -> _. done.
  - injection Heq as <- Heq. apply andb_true_iff in Ha as [_ Ha]. apply andb_true_iff in Hb as [_ Hb].
    destruct (IH b Ha Hb Heq) as [-> ->]. done.
Qed.

Lemma no_bar_app a b : no_bar (a +:+ b) = no_bar a && no_bar b.
Proof.
  induction a as [|c a IH]; [done|].
  change (negb (Ascii.eqb c "|"%char) && no_bar (a +:+ b) =
    (negb (Ascii.eqb c "|"%char) && no_bar a) && no_bar b). by rewrite IH, andb_assoc.
Qed.

Lemma pretty_N_go_no_bar x s : no_bar s = true → no_bar (pretty_N_go x s) = true.
Proof.
  revert s. induction (N.lt_wf_0 x) as [x _ IH]; intros s Hs.
  destruct (decide (x = 0)%N) as [->|Hx]; [done|]. rewrite pretty_N_go_step by lia.
  apply IH; [apply N.div_lt; lia|]. simpl. rewrite Hs, andb_true_r. unfold pretty_N_char. by repeat case_match.
Qed.

Lemma pretty_no_bar (z : Z) : no_bar (pretty z) = true.
Proof.
  assert (∀ x : N, no_bar (pretty x) = true) as Hn.
  { intros x. unfold pretty, pretty_N. case_decide; [done|by apply pretty_N_go_no_bar]. }
  destruct z as [|x|x]; [done|apply (Hn (Npos x))|]. unfold pretty, pretty_Z. rewrite no_bar_app. apply (Hn (Npos x)).
Qed.

(** Hex digests are not empty; digests, times and ids hold no separator; an id is not empty and
    read back from its text. *)
Class FormatLaws `{!Format} : Prop := {
  hmac_nonempty : ∀ k d, hmac_hex k d ≠ "";
  hmac_no_bar : ∀ k d, no_bar (hmac_hex k d) = true;
  sha_nonempty : ∀ d, sha256_hex d ≠ "";
  sha_no_bar : ∀ d, no_bar (sha256_hex d) = true;
  time_no_bar : ∀ t, no_bar (fmt_time t) = true;
  uuid_no_bar : ∀ u, no_bar (uuid_string u) = true;
  uuid_nonempty : ∀ u, uuid_string u ≠ "";
  uuid_inj : ∀ u u', uuid_string u = uuid_string u' → u = u';
}.

(** ** Which fields the record fixes *)
Definition content `{!Format} (r : row) : string :=
  auditCanonicalHMAC (r_seq r) (r_created r) (r_tenant r) (r_event r).

(** No field before the detail holds the separator. *)
Definition plain (r : row) : Prop :=
  let e := r_event r in
  no_bar (r_tenant r) = true ∧ no_bar (e_actor_name e) = true ∧ no_bar (e_action e) = true ∧
  no_bar (e_target_kind e) = true ∧ no_bar (e_target_id e) = true ∧ no_bar (e_ip e) = true.

Lemma nilUUID_no_bar `{!Format, !FormatLaws} u : no_bar (nilUUID u) = true.
Proof. destruct u; [apply uuid_no_bar|done]. Qed.

Lemma nilUUID_inj `{!Format, !FormatLaws} u u' : nilUUID u = nilUUID u' → u = u'.
Proof.
  destruct u as [u|], u' as [u'|]; simpl; intros He; [by rewrite (uuid_inj u u')| | |done].
  - by destruct (uuid_nonempty u).
  - by destruct (uuid_nonempty u').
Qed.

Lemma content_fields `{!Format, !FormatLaws} r r' :
  plain r → plain r' → content r = content r' →
  r_seq r = r_seq r' ∧ fmt_time (r_created r) = fmt_time (r_created r') ∧ r_tenant r = r_tenant r' ∧
  r_event r = r_event r'.
Proof.
  intros (H1 & H2 & H3 & H4 & H5 & H6) (H1' & H2' & H3' & H4' & H5' & H6') He.
  unfold content, auditCanonicalHMAC, auditCanonicalLegacy in He.
  apply split_bar in He as [Hs%(inj pretty) He]; [|apply pretty_no_bar..].
  apply split_bar in He as [Ht He]; [|apply time_no_bar..].
  apply split_bar in He as [Hn He]; [|done..].
  apply split_bar in He as [Ha%nilUUID_inj He]; [|apply nilUUID_no_bar..].
  do 5 (apply split_bar in He as [? He]; [|done..]).
  split_and!; [done..|]. destruct (r_event r), (r_event r'); simpl in *. by subst.
Qed.

(** ** A keyed chain can only be truncated *)
Section tamper.
Context `{!Format, !FormatLaws}.
Context (key : string) (rs : list row).
Context (Hvalid : valid key "" rs) (Hkeyed : ∀ r, r ∈ rs → r_alg r = auditAlgHMAC).
Context (Hcr : ∀ r r', r ∈ rs → r' ∈ rs →
  hmac_hex key (data_of r) = hmac_hex key (data_of r') → data_of r = data_of r').

Lemma hash_is i r : rs !! i = Some r → r_hash r = hmac_hex key (data_of r) ∧ r_prev r = prev_at "" rs i.
Proof.
  intros Hi. pose proof (valid_lookup _ _ _ _ _ Hvalid Hi) as Hr.
  split; [|by destruct Hr]. eapply valid_keyed; [exact Hr|].
  apply Hkeyed. by eapply list_elem_of_lookup_2.
Qed.

Lemma prev_at_no_bar i : no_bar (prev_at "" rs i) = true.
Proof.
  destruct i as [|i]; [done|]. simpl. destruct (rs !! i) as [r|] eqn:Hi; [|done]. simpl.
  rewrite (proj1 (hash_is _ _ Hi)). apply hmac_no_bar.
Qed.

Lemma data_prev i r r' :
  rs !! i = Some r → no_bar (r_prev r') = true → data_of r' = data_of r →
  r_prev r' = prev_at "" rs i.
Proof.
  intros Hi Hb He. pose proof (proj2 (hash_is _ _ Hi)) as Hp.
  unfold data_of in He. apply split_bar in He as [He _]; [congruence|done|].
  rewrite Hp. apply prev_at_no_bar.
Qed.

Lemma prev_at_inj i j :
  (i ≤ length rs)%nat → (j ≤ length rs)%nat → prev_at "" rs i = prev_at "" rs j → i = j.
Proof.
  assert (∀ k, (S k ≤ length rs)%nat → ∃ r, rs !! k = Some r ∧
    prev_at "" rs (S k) = hmac_hex key (data_of r)) as Hs.
  { intros k Hk. destruct (lookup_lt_is_Some_2 rs k) as [r Hr]; [lia|].
    exists r. split; [done|]. simpl. rewrite Hr. simpl. apply (hash_is _ _ Hr). }
  revert j. induction i as [|i IH]; intros [|j] Hi Hj He; [done|..].
  - destruct (Hs j Hj) as (r & _ & Hr). rewrite Hr in He. by destruct (hmac_nonempty key (data_of r)).
  - destruct (Hs i Hi) as (r & _ & Hr). rewrite Hr in He. by destruct (hmac_nonempty key (data_of r)).
  - destruct (Hs i Hi) as (r & Hir & Hr). destruct (Hs j Hj) as (r' & Hjr & Hr').
    rewrite Hr, Hr' in He. apply Hcr in He; [|by eapply list_elem_of_lookup_2..].
    f_equal. apply IH; [lia..|]. rewrite <-(proj2 (hash_is _ _ Hir)).
    eapply data_prev; [exact Hjr| |exact He].
    rewrite (proj2 (hash_is _ _ Hir)). apply prev_at_no_bar.
Qed.

(** What follows a keyless row whose hash is none of the log's is keyless. *)
Lemma keyless_tail rs' h :
  no_bar h = true → h ≠ "" → (∀ r0, r0 ∈ rs → h ≠ r_hash r0) → valid key h rs' →
  (∀ r, r ∈ rs' → r_alg r = auditAlgHMAC → ∃ r0, r0 ∈ rs ∧ data_of r = data_of r0) →
  (∀ r r0, r ∈ rs' → r0 ∈ rs → sha256_hex (data_of r) ≠ hmac_hex key (data_of r0)) →
  ∀ r, r ∈ rs' → r_alg r ≠ auditAlgHMAC.
Proof.
  revert h. induction rs' as [|r rs' IH]; intros h Hb Hne Hh Hv Hf Hx; [by intros ? ?%elem_of_nil|].
  destruct Hv as [[Hp Hr] Hv].
  assert (r_alg r ≠ auditAlgHMAC) as Ha.
  { intros Ha. destruct (Hf r) as (r0 & Hin & Hd); [by apply elem_of_cons; left|done|].
    apply list_elem_of_lookup in Hin as [j Hj].
    assert (r_prev r = prev_at "" rs j) as Hpj by (eapply data_prev; [done|by rewrite Hp|done]).
    rewrite Hp in Hpj. destruct j as [|j]; [done|]. simpl in Hpj.
    destruct (rs !! j) as [r1|] eqn:Hj1; [|done]. eapply (Hh r1); [by eapply list_elem_of_lookup_2|exact Hpj]. }
  assert (r_hash r = sha256_hex (data_of r)) as Hrh.
  { rewrite Hr. unfold auditMAC, data_of. by rewrite Hp, (proj2 (Z.eqb_neq _ _) Ha). }
  intros r1 [->|Hin]%elem_of_cons; [done|].
  apply (IH (r_hash r)); rewrite ?Hrh; [apply sha_no_bar|apply sha_nonempty| | | | |done].
  - intros r0 Hr0. apply list_elem_of_lookup in Hr0 as [j Hj]. rewrite (proj1 (hash_is _ _ Hj)).
    apply Hx; [by apply elem_of_cons; left|by eapply list_elem_of_lookup_2].
  - by rewrite <-Hrh.
  - intros r2 ?. apply Hf. by apply elem_of_cons; right.
  - intros r2 r0 ? ?. apply Hx; [by apply elem_of_cons; right|done].
Qed.

Lemma keyed_suffix rs' i :
  (i ≤ length rs)%nat → valid key (prev_at "" rs i) rs' →
  (∀ r, r ∈ rs' → r_alg r = auditAlgHMAC → ∃ r0, r0 ∈ rs ∧ data_of r = data_of r0) →
  (∀ r r0, r ∈ rs' → r0 ∈ rs → sha256_hex (data_of r) ≠ hmac_hex key (data_of r0)) →
  ∃ old new, rs' = old ++ new ∧ (content <$> old) `prefix_of` (content <$> drop i rs) ∧
    ∀ r, r ∈ new → r_alg r ≠ auditAlgHMAC.
Proof.
  revert i. induction rs' as [|r rs' IH]; intros i Hi Hv Hf Hx.
  { exists [], []. split; [done|]. split; [apply prefix_nil|]. by intros ? ?%elem_of_nil. }
  destruct (decide (r_alg r = auditAlgHMAC)) as [Ha|Ha].
  2: { exists [], (r :: rs'). split; [done|]. split; [apply prefix_nil|]. destruct Hv as [[Hp Hr] Hv].
    assert (r_hash r = sha256_hex (data_of r)) as Hrh.
    { rewrite Hr. unfold auditMAC, data_of. by rewrite Hp, (proj2 (Z.eqb_neq _ _) Ha). }
    intros r1 [->|Hin]%elem_of_cons; [done|].
    apply (keyless_tail rs' (r_hash r)); rewrite ?Hrh; [apply sha_no_bar|apply sha_nonempty| | | | |done].
    - intros r0 Hr0. apply list_elem_of_lookup in Hr0 as [j Hj]. rewrite (proj1 (hash_is _ _ Hj)).
      apply Hx; [by apply elem_of_cons; left|by eapply list_elem_of_lookup_2].
    - by rewrite <-Hrh.
    - intros r2 ?. apply Hf. by apply elem_of_cons; right.
    - intros r2 r0 ? ?. apply Hx; [by apply elem_of_cons; right|done]. }
  destruct Hv as [[Hp Hh] Hv]. destruct (Hf r) as (r0 & Hin & Hd); [by apply elem_of_cons; left|done|].
  apply list_elem_of_lookup in Hin as [j Hj].
  assert (j < length rs)%nat as Hlt by by eapply lookup_lt_Some.
  assert (no_bar (r_prev r) = true) as Hb by (rewrite Hp; apply prev_at_no_bar).
  pose proof (data_prev _ _ _ Hj Hb Hd) as Hpj. rewrite Hp in Hpj.
  apply prev_at_inj in Hpj; [|lia..]. subst j.
  assert (content r = content r0) as Hc.
  { unfold data_of in Hd. apply split_bar in Hd as [_ Hd]; [|done|].
    - unfold canonical in Hd. rewrite Ha, (Hkeyed r0) in Hd; [done|]. by eapply list_elem_of_lookup_2.
    - rewrite (proj2 (hash_is _ _ Hj)). apply prev_at_no_bar. }
  destruct (IH (S i)) as (old & new & -> & Hpre & Hnew); [lia| | | |].
  - assert (prev_at "" rs (S i) = r_hash r) as ->; [|done].
    simpl. rewrite Hj. simpl. rewrite (proj1 (hash_is _ _ Hj)), <-Hd, Hh.
    unfold auditMAC, data_of. by rewrite Ha, Hp.
  - intros r1 Hr1. apply Hf. by apply elem_of_cons; right.
  - intros r1 r2 ? ?. apply Hx; [by apply elem_of_cons; right|done].
  - exists (r :: old), new. split_and!; [done| |done]. rewrite (drop_S _ _ _ Hj). simpl. rewrite Hc. by apply prefix_cons.
Qed.
End tamper.

(** * What the verifier accepts without the key *)

(** A chain of legacy rows with any content: no key is used. *)
Fixpoint forge `{!Format} (prev : string) (l : list (Z * Z * string * event)) : list row :=
  match l with
  | [] => []
  | (seq, created, tenant, e) :: l' =>
    let h := auditMAC auditAlgLegacy "" prev (auditCanonicalLegacy e) in
    Row seq created tenant e prev h auditAlgLegacy :: forge h l'
  end.

Lemma forge_valid `{!Format} key prev l : valid key prev (forge prev l).
Proof.
  revert prev. induction l as [|[[[seq created] tenant] e] l IH]; intros prev; simpl; [done|].
  split; [|apply IH]. done.
Qed.

(** * Properties *)

(** appending keeps the chain intact. From an intact table, any sequence of
    appends, some made before the key was configured and some after, in any tenants,
    leaves a table the verifier reports intact under the key. *)
Theorem appends_stay_intact `{!Format} key (ops : list (bool * string * event * Z)) t :
  VerifyAuditChain key t = (true, 0) →
  VerifyAuditChain key (foldl (λ t '(keyed, tenant, e, now),
     (AppendAudit (if keyed : bool then key else "") tenant e now t).2) t ops) = (true, 0).
Proof.
  intros Hv. assert (valid key "" (rows t)) as Hval.
  { apply verify_valid. unfold VerifyAuditChain in Hv. by rewrite Hv. }
  clear Hv. apply verify_true. revert t Hval.
  induction ops as [|[[[keyed tenant] e] now] ops IH]; intros t Hval; simpl; [done|].
  apply IH, valid_append; [destruct keyed; auto|done].
Qed.

(** C12: tampering with a keyed chain is detected, as far as it can be. Let [rs] be an intact log all
    of whose rows are keyed (one written with the key configured from the start). Someone without the
    key rewrites the table: a row they mark as keyed reuses the data of a row the server hashed, since
    they cannot make a MAC of their own, and rows they mark as legacy are theirs to write. If the
    server's MACs do not collide, with each other or with a legacy digest, and the verifier accepts
    the result, then it is an initial part of the old log, followed only by rows marked legacy. The
    rows of that part have the old rows' canonical record; where no field before the detail holds
    the separator '|', that is the old sequence number, time as printed, tenant and event. (Legacy
    rows and the removal of the newest rows are not detected.) *)
Theorem keyed_chain_tamper_evident `{!Format, !FormatLaws} key rs rs' :
  verify key "" rs = (true, 0) → (∀ r, r ∈ rs → r_alg r = auditAlgHMAC) →
  (∀ r r', r ∈ rs → r' ∈ rs → hmac_hex key (data_of r) = hmac_hex key (data_of r') →
     data_of r = data_of r') →
  (∀ r r0, r ∈ rs' → r0 ∈ rs → sha256_hex (data_of r) ≠ hmac_hex key (data_of r0)) →
  (∀ r, r ∈ rs' → r_alg r = auditAlgHMAC → ∃ r0, r0 ∈ rs ∧ data_of r = data_of r0) →
  verify key "" rs' = (true, 0) →
  ∃ old new, rs' = old ++ new ∧ (content <$> old) `prefix_of` (content <$> rs) ∧
    (∀ i r r0, old !! i = Some r → rs !! i = Some r0 → plain r → plain r0 →
       r_seq r = r_seq r0 ∧ fmt_time (r_created r) = fmt_time (r_created r0) ∧ r_tenant r = r_tenant r0 ∧
       r_event r = r_event r0) ∧
    ∀ r, r ∈ new → r_alg r ≠ auditAlgHMAC.
Proof.
  intros Hv Hk Hcr Hx Hf Hv'.
  assert (valid key "" rs) as Hval by (apply verify_valid; by rewrite Hv).
  assert (valid key "" rs') as Hval' by (apply verify_valid; by rewrite Hv').
  destruct (keyed_suffix key rs Hval Hk Hcr rs' 0) as (old & new & -> & Hp & Hn); [lia|done..|].
  exists old, new. split_and!; [done..| |done]. intros i r r0 Hi Hi0 Hpl Hpl0.
  apply content_fields; [done..|]. destruct Hp as [l Hl]. rewrite drop_0 in Hl.
  assert ((content <$> rs) !! i = Some (content r)) as Hc.
  { rewrite Hl, lookup_app_l by (rewrite length_fmap; by eapply lookup_lt_Some). by rewrite list_lookup_fmap, Hi. }
  rewrite list_lookup_fmap, Hi0 in Hc. by injection Hc.
Qed.

(** what the verifier does not detect. The algorithm is read from the row itself,
    so a log of any content, written as legacy rows without the key, is reported
    intact under every key; and so is an intact log whose newest rows are removed. *)
Theorem forged_and_truncated_accepted `{!Format} key :
  (∀ l, verify key "" (forge "" l) = (true, 0)) ∧
  (∀ rs tail, verify key "" (rs ++ tail) = (true, 0) → verify key "" rs = (true, 0)).
Proof.
  split; [intros l; apply verify_true, forge_valid|].
  intros rs tail Hv. apply verify_true.
  eapply (proj1 (valid_app key "" rs tail)), verify_valid. by rewrite Hv.
Qed.

(** Forgetting the actor changes what a row's hash is over. *)
Lemma nilUUID_app `{!Format} u (p a : string) :
  uuid_string u ≠ "" → p +:+ nilUUID (Some u) +:+ a ≠ p +:+ nilUUID None +:+ a.
Proof.
  intros Hu. simpl. induction p as [|c p IH]; simpl.
  - intros He. assert (String.length (uuid_string u +:+ a) = String.length a) as Hl
      by (f_equal; exact He).
    assert (∀ x : string, String.length (x +:+ a) = (String.length x + String.length a)%nat) as Hlen
      by (induction x; simpl; auto).
    rewrite Hlen in Hl. destruct (uuid_string u); [done|]. simpl in Hl. lia.
  - intros He. by injection He.
Qed.

Lemma forget_data `{!Format} u r :
  uuid_string u ≠ "" → e_actor (r_event r) = Some u → data_of (forget_actor u r) ≠ data_of r.
Proof.
  intros Hu He.
  assert (∃ p s, data_of r = p +:+ nilUUID (Some u) +:+ s ∧
    data_of (forget_actor u r) = p +:+ nilUUID None +:+ s) as (p & s & -> & ->).
  { unfold forget_actor. rewrite bool_decide_true by done.
    unfold data_of, canonical, auditCanonicalHMAC, auditCanonicalLegacy.
    cbn [r_prev r_alg r_seq r_created r_tenant r_event e_actor e_actor_name e_action
         e_target_kind e_target_id e_ip e_detail]. rewrite He.
    destruct (r_alg r =? auditAlgHMAC).
    - exists (r_prev r +:+ "|" +:+ pretty (r_seq r) +:+ "|" +:+ fmt_time (r_created r) +:+ "|" +:+
              r_tenant r +:+ "|").
      eexists. split; rewrite <-!str_app_assoc; reflexivity.
    - exists (r_prev r +:+ "|"). eexists. split; rewrite <-!str_app_assoc; reflexivity. }
  intros Heq. by eapply (nilUUID_app u p s Hu).
Qed.

Lemma forget_other u r : e_actor (r_event r) ≠ Some u → forget_actor u r = r.
Proof. intros Hne. unfold forget_actor. by rewrite bool_decide_false. Qed.

(** deleting a user breaks the chain. In an intact log, let [r] be the first row
    whose actor is [u], and let the row's data with and without
    the actor not collide. After [u]'s account
    is deleted (the foreign key empties the actor of their rows) the verifier reports
    the log as broken at that row, although nobody tampered with it. *)
Theorem delete_user_breaks_chain `{!Format} key u rs r rs' n :
  verify key "" (rs ++ r :: rs') = (true, 0) →
  (∀ r0, r0 ∈ rs → e_actor (r_event r0) ≠ Some u) → e_actor (r_event r) = Some u →
  uuid_string u ≠ "" →
  (let mac := if r_alg r =? auditAlgHMAC then hmac_hex key else sha256_hex in
   mac (data_of (forget_actor u r)) = mac (data_of r) → data_of (forget_actor u r) = data_of r) →
  VerifyAuditChain key (DeleteUser_audit u (Table (rs ++ r :: rs') n)) = (false, r_seq r).
Proof.
  intros Hv Hrs Hr Hu Hpre.
  assert (valid key "" (rs ++ r :: rs')) as Hval by (apply verify_valid; by rewrite Hv).
  apply valid_app in Hval as [Hval [Hrow _]].
  unfold VerifyAuditChain, DeleteUser_audit. simpl. rewrite fmap_app. simpl.
  assert (forget_actor u <$> rs = rs) as ->.
  { clear -Hrs. induction rs as [|r0 rs IH]; [done|]. rewrite fmap_cons, forget_other, IH; [done|..].
    - intros r1 Hr1. apply Hrs. by apply elem_of_cons; right.
    - apply Hrs. by apply elem_of_cons; left. }
  assert (r_seq r = r_seq (forget_actor u r)) as ->
    by (unfold forget_actor; by case_bool_decide).
  apply verify_broken; [done|]. intros [Hp Hh]. apply (forget_data u r Hu Hr), Hpre.
  destruct Hrow as [Hp0 Hh0].
  assert (r_hash (forget_actor u r) = r_hash r ∧ r_alg (forget_actor u r) = r_alg r) as [He Ha]
    by (unfold forget_actor; by case_bool_decide).
  rewrite He, Hh0 in Hh. unfold auditMAC in Hh. rewrite Ha in Hh. unfold data_of.
  rewrite Hp, Hp0, Ha. destruct (r_alg r =? auditAlgHMAC); congruence.
Qed.

(** ** Runs *)

(** Stand-ins for the digests: an injective spelling of the data in letters. *)
Fixpoint spell (s : string) : string :=
  match s with
  | EmptyString => EmptyString
  | String c s' =>
    let n := nat_of_ascii c in
    String (ascii_of_nat (97 + n / 16)) (String (ascii_of_nat (97 + n mod 16)) (spell s'))
  end.
Definition toy_format : Format := {|
  hmac_hex := λ k d, "h" +:+ spell k +:+ "z" +:+ spell d;
  sha256_hex := λ d, "s" +:+ spell d;
  fmt_time := λ t, pretty t; uuid_string := λ u, "u" +:+ pretty u;
  norm_ip := λ s, s; norm_detail := λ s, s;
|}.

Lemma spell_no_bar s : no_bar (spell s) = true.
Proof.
  induction s as [|c s IH]; [done|].
  assert (∀ c, negb (Ascii.eqb (ascii_of_nat (97 + nat_of_ascii c / 16)) "|"%char) &&
    negb (Ascii.eqb (ascii_of_nat (97 + nat_of_ascii c mod 16)) "|"%char) = true) as Hc.
  { clear. intros [[] [] [] [] [] [] [] []]; vm_compute; reflexivity. }
  specialize (Hc c). apply andb_true_iff in Hc as [H1 H2].
  cbn [spell no_bar]. by rewrite H1, H2, IH.
Qed.
Lemma toy_format_laws : @FormatLaws toy_format.
Proof.
  split; cbn [hmac_hex sha256_hex fmt_time uuid_string toy_format]; try done.
  - intros k d. by rewrite !no_bar_app, !spell_no_bar.
  - intros d. by rewrite !no_bar_app, !spell_no_bar.
  - apply pretty_no_bar.
  - intros u. rewrite no_bar_app. apply (pretty_no_bar (Z.of_N u)) || destruct u; [done|apply (pretty_no_bar (Zpos p))].
  - intros u u' He. apply (inj pretty). by injection He.
Qed.

Definition ex_event (u : uuid) (a : string) : event := Event (Some u) "ann" a "host" "h1" "" "{}".
Definition ex_ops : list (bool * string * event * Z) :=
  [(true, "t1", ex_event 7 "session.start", 5); (true, "t2", ex_event 8 "host.edit", 6)].
Definition ex_table : table :=
  foldl (λ t '(keyed, tenant, e, now),
    (@AppendAudit toy_format (if keyed : bool then "k" else "") tenant e now t).2) (Table [] 1) ex_ops.

Lemma appends_stay_intact_witness : @VerifyAuditChain toy_format "k" ex_table = (true, 0).
Proof. apply (@appends_stay_intact toy_format "k" ex_ops (Table [] 1)). reflexivity. Defined.

Definition ex_rows : list row := rows ex_table.

Definition ex_forged : list row :=
  take 1 ex_rows ++ @forge toy_format (r_hash (default (Row 0 0 "" (ex_event 0 "") "" "" 0) (ex_rows !! 0%nat)))
    [(2, 6, "t2", ex_event 8 "nothing.happened")].

Lemma keyed_chain_tamper_evident_witness :
  ∃ old new, ex_forged = old ++ new ∧ (@content toy_format <$> old) `prefix_of` (@content toy_format <$> ex_rows).
Proof.
  destruct (@keyed_chain_tamper_evident toy_format toy_format_laws "k" ex_rows ex_forged) as (old & new & H1 & H2 & _).
  - by vm_compute.
  - intros r Hr. repeat (apply elem_of_cons in Hr as [->|Hr]; [by vm_compute|]). set_solver.
  - intros r r' Hr Hr'.
    repeat (apply elem_of_cons in Hr as [->|Hr];
      [repeat (apply elem_of_cons in Hr' as [->|Hr']; [by vm_compute|]); set_solver|]). set_solver.
  - done.
  - intros r Hr Ha. apply elem_of_cons in Hr as [->|Hr];
      [eexists; split; [by apply elem_of_cons; left|done]|].
    apply elem_of_cons in Hr as [->|Hr]; [by vm_compute in Ha|by apply elem_of_nil in Hr].
  - by vm_compute.
  - by exists old, new.
Defined.

Lemma forged_and_truncated_accepted_witness :
  @verify toy_format "k" "" (@forge toy_format "" [(1, 5, "t1", ex_event 9 "nothing.happened")])
    = (true, 0) ∧
  @verify toy_format "k" "" (take 1 ex_rows) = (true, 0).
Proof.
  destruct (@forged_and_truncated_accepted toy_format "k") as [Hf Ht].
  split; [apply Hf|]. apply (Ht (take 1 ex_rows) (drop 1 ex_rows)). by vm_compute.
Defined.

Definition ex_r2 : row := default (Row 0 0 "" (ex_event 0 "") "" "" 0) (ex_rows !! 1%nat).

Lemma delete_user_breaks_chain_witness :
  @VerifyAuditChain toy_format "k" (DeleteUser_audit 8 (Table (take 1 ex_rows ++ [ex_r2]) 3))
    = (false, r_seq ex_r2).
Proof.
  apply (@delete_user_breaks_chain toy_format "k" 8 (take 1 ex_rows) ex_r2 [] 3).
  - by vm_compute.
  - intros r Hr. apply elem_of_cons in Hr as [->|Hr]; [by vm_compute|by apply elem_of_nil in Hr].
  - by vm_compute.
  - by vm_compute.
  - by vm_compute.
Defined.

(** Pruning the oldest rows of an intact log, in which rows are stored in time order, leaves a log
    the verifier reports as broken at its oldest row: verification starts from the empty hash, and
    the row still names the hash of its pruned predecessor. (Digests are never empty.) *)
Theorem prune_breaks_chain `{!Format} key cutoff rs r rs' n :
  (∀ d, hmac_hex key d ≠ "") → (∀ d, sha256_hex d ≠ "") →
  verify key "" (rs ++ r :: rs') = (true, 0) → rs ≠ [] →
  (∀ r0, r0 ∈ rs → r_created r0 < cutoff) → (∀ r0, r0 ∈ r :: rs' → cutoff ≤ r_created r0) →
  let q := PruneAuditEventsBefore cutoff (Table (rs ++ r :: rs') n) in
  q = (Z.of_nat (length rs), Table (r :: rs') n) ∧ VerifyAuditChain key q.2 = (false, r_seq r).
Proof.
  intros Hh Hs Hv Hne Hold Hnew q.
  assert (∀ l, (∀ r0, r0 ∈ l → cutoff ≤ r_created r0) →
    filter (λ r, r_created r < cutoff) l = [] ∧ filter (λ r, ¬ r_created r < cutoff) l = l) as Hkept.
  { induction l as [|x l IH]; intros Hl; [done|]. destruct IH as [IH1 IH2]; [intros; apply Hl; by apply elem_of_cons; right|].
    pose proof (Hl x (proj2 (elem_of_cons _ _ _) (or_introl eq_refl))).
    rewrite filter_cons_False, filter_cons_True by lia. by rewrite IH1, IH2. }
  assert (∀ l, (∀ r0, r0 ∈ l → r_created r0 < cutoff) →
    filter (λ r, r_created r < cutoff) l = l ∧ filter (λ r, ¬ r_created r < cutoff) l = []) as Hgone.
  { induction l as [|x l IH]; intros Hl; [done|]. destruct IH as [IH1 IH2]; [intros; apply Hl; by apply elem_of_cons; right|].
    pose proof (Hl x (proj2 (elem_of_cons _ _ _) (or_introl eq_refl))).
    rewrite filter_cons_True, filter_cons_False by lia. by rewrite IH1, IH2. }
  destruct (Hkept _ Hnew) as [K1 K2], (Hgone _ Hold) as [G1 G2].
  assert (q = (Z.of_nat (length rs), Table (r :: rs') n)) as Hq.
  { unfold q, PruneAuditEventsBefore. cbn [rows next_seq]. rewrite !filter_app, K1, K2, G1, G2. by rewrite app_nil_r. }
  split; [done|]. rewrite Hq. unfold VerifyAuditChain. cbn [snd rows].
  assert (valid key "" (rs ++ r :: rs')) as Hval by (apply verify_valid; by rewrite Hv).
  apply valid_app in Hval as [Hval [[Hp _] _]]. apply (verify_broken key "" [] r rs'); [done|].
  intros [Hp' _]. unfold end_hash in *. cbn [last] in Hp'. destruct (last rs) as [x|] eqn:Hl; [|by apply last_None in Hl].
  apply last_Some in Hl as [l ->]. apply valid_app in Hval as [_ [[_ Hx] _]].
  rewrite Hp' in Hp. rewrite <- Hp in Hx. unfold auditMAC in Hx. destruct (_ =? _); [by eapply Hh|by eapply Hs].
Qed.

Lemma prune_breaks_chain_witness :
  @VerifyAuditChain toy_format "k" (Table ex_rows 3) = (true, 0) ∧
  @VerifyAuditChain toy_format "k" (PruneAuditEventsBefore (r_created ex_r2) (Table ex_rows 3)).2 = (false, r_seq ex_r2).
Proof.
  split; [by vm_compute|].
  refine (proj2 (@prune_breaks_chain toy_format "k" (r_created ex_r2) (take 1 ex_rows) ex_r2 (drop 2 ex_rows) 3 _ _ _ _ _ _));
    [done|done|by vm_compute|done| |]; intros r0 [->|Hr]%elem_of_cons;
    first [by apply elem_of_nil in Hr | by vm_compute].
Defined.

(** The separator is not escaped: bytes moved across two fields keep the row's hash. *)
Lemma canonical_ambiguous `{!Format} seq created tenant :
  canonical auditAlgHMAC seq created tenant (Event None "a|b" "c" "" "" "" "{}") =
  canonical auditAlgHMAC seq created tenant (Event None "a" "b|c" "" "" "" "{}").
Proof. reflexivity. Qed.
