(* ===== verification/AuthSession.v ===== *)
(** Sign-in and sessions: [auth/service.go], [auth/middleware.go], [auth/context.go]
    over [store/sessions.go], [store/sessionpolicy.go] and the login columns of
    [store/users.go].

    Password hashing, the JWT library, the token digest and address parsing are
    parameters. The ephemeral SSH credential of a session, minted and destroyed by the
    session hooks, is a set of session ids in the state. *)
From stdpp Require Import pretty.
From S2P Require Import Prelude.

(** * Data *)

(** The columns of [users] (with the credential); the empty email stands for NULL. *)
Record user := User {
  u_name : string; u_disabled : bool; u_source : string; u_super : bool;
  u_must_change : bool; u_tenant : uuid; u_service : bool;
  u_failed : Z; u_locked_until : option Z; u_hash : option string;
  u_email : string; u_display : string; u_require_mfa : bool;
}.

(** [roles], [permissions], [role_permissions] and [user_roles]. *)
Record role := Role { r_name : string; r_description : string; r_builtin : bool }.
Record rbac := Rbac {
  roles : gmap uuid role; catalog : gset string;
  role_perms : gset (uuid * string); user_roles : gset (uuid * uuid);
}.

(** A row of [sessions]. *)
Record session := Session {
  s_user : uuid; s_refresh : string; s_ip : string; s_ua : string; s_mfa : bool;
  s_created : Z; s_last_seen : Z; s_expires : Z; s_revoked : option Z;
}.

(** A row of [api_tokens]. *)
Record api_token := ApiToken { t_account : uuid; t_hash : string; t_expires : option Z; t_revoked : option Z }.

Record SessionPolicy := MkPolicy { IPAllowlist : list string; MaxConcurrentSessions : Z }.
Record UserSessionPolicy := MkUserPolicy {
  up_allow : option (list string); up_max : option Z;
}.

(** [auth/password.go] *)
Record PasswordPolicy := MkPwPolicy {
  MinLength : Z; RequireUpper : bool; RequireLower : bool; RequireDigit : bool; RequireSymbol : bool;
  History : Z;
}.
Definition DefaultPolicy : PasswordPolicy := MkPwPolicy 12 true true true true 5.

(** A row of [mfa_methods] ([kind] is ['totp'] or ['webauthn']) and of [mfa_recovery_codes]. *)
Inductive factor_kind := Totp | Webauthn.
#[export] Instance factor_kind_eq_dec : EqDecision factor_kind.
Proof. solve_decision. Defined.
Record factor := Factor {
  f_user : uuid; f_kind : factor_kind; f_label : string; f_secret : list Byte.byte;
  f_confirmed : bool; f_created : Z;
}.
Record recovery_code := RecoveryCode { rc_user : uuid; rc_hash : string; rc_used : option Z }.

(** The tables of the second factor. [totp_steps]: the column [users.last_totp_step], 0 where it
    was not set; [require_mfa]: the setting, when there is one that can be read; [events]: what was
    recorded in [auth_events]. *)
Record mfa_tables := MfaTables {
  factors : gmap uuid factor; recovery : gmap uuid recovery_code; totp_steps : gmap uuid Z;
  require_mfa : option bool; events : list (string * option uuid);
}.

(** [live]: the sessions with an ephemeral credential in the vault; [audits]: what was appended to
    the audit log. *)
Record store := Store {
  users : gmap uuid user;
  sessions : gmap uuid session;
  api_tokens : gmap uuid api_token;
  lockout : option (Z * Z);
  global_policy : option SessionPolicy;
  user_policies : gmap uuid UserSessionPolicy;
  live : gset uuid;
  rb : rbac;
  mfa : mfa_tables;
  pw_policy : option PasswordPolicy;
  audits : list (string * option uuid);
}.

Definition set_users (s : store) m := Store m (sessions s) (api_tokens s) (lockout s)
  (global_policy s) (user_policies s) (live s) (rb s) (mfa s) (pw_policy s) (audits s).
Definition set_sessions (s : store) m := Store (users s) m (api_tokens s) (lockout s)
  (global_policy s) (user_policies s) (live s) (rb s) (mfa s) (pw_policy s) (audits s).
Definition set_policies (s : store) m := Store (users s) (sessions s) (api_tokens s) (lockout s)
  (global_policy s) m (live s) (rb s) (mfa s) (pw_policy s) (audits s).
Definition set_live (s : store) l := Store (users s) (sessions s) (api_tokens s) (lockout s)
  (global_policy s) (user_policies s) l (rb s) (mfa s) (pw_policy s) (audits s).
Definition set_rb (s : store) r := Store (users s) (sessions s) (api_tokens s) (lockout s)
  (global_policy s) (user_policies s) (live s) r (mfa s) (pw_policy s) (audits s).
Definition set_mfa (s : store) m := Store (users s) (sessions s) (api_tokens s) (lockout s)
  (global_policy s) (user_policies s) (live s) (rb s) m (pw_policy s) (audits s).
Definition set_audits (s : store) l := Store (users s) (sessions s) (api_tokens s) (lockout s)
  (global_policy s) (user_policies s) (live s) (rb s) (mfa s) (pw_policy s) l.

Definition set_factors (s : store) m := set_mfa s (MfaTables m (recovery (mfa s)) (totp_steps (mfa s))
  (require_mfa (mfa s)) (events (mfa s))).
Definition set_recovery (s : store) m := set_mfa s (MfaTables (factors (mfa s)) m (totp_steps (mfa s))
  (require_mfa (mfa s)) (events (mfa s))).
Definition set_totp_steps (s : store) m := set_mfa s (MfaTables (factors (mfa s)) (recovery (mfa s)) m
  (require_mfa (mfa s)) (events (mfa s))).
Definition set_events (s : store) l := set_mfa s (MfaTables (factors (mfa s)) (recovery (mfa s))
  (totp_steps (mfa s)) (require_mfa (mfa s)) l).

Record Claims := MkClaims { c_user : uuid; c_session : uuid; c_username : string }.

Record Principal := MkPrincipal {
  UserID : uuid; SessionID : uuid; Username : string; IsSuperAdmin : bool;
  Permissions : gset string; MustChangePw : bool; TenantID : uuid;
}.

Definition ProviderTenantID : uuid := 1%N.

(** [Has] and [IsProviderAdmin]; a nil principal holds nothing. *)
Definition Has (p : Principal) (perm : string) : bool :=
  IsSuperAdmin p || bool_decide ("Admin.All" ∈ Permissions p) || bool_decide (perm ∈ Permissions p).
Definition IsProviderAdmin (p : Principal) : bool :=
  bool_decide (TenantID p = ProviderTenantID) && (IsSuperAdmin p || Has p "Tenant.Manage").

(** * The store *)

Definition user_by_name (eq : string → string → bool) (s : store) (name : string)
    : option (uuid * user) :=
  head (map_to_list (filter (λ ku, eq (u_name ku.2) name = true) (users s))).

Definition GetUserByID (id : uuid) : Z → store → res store_error user * store :=
  get_row (λ s, users s !! id).
(** The permissions of a role, and of all the roles of a user. *)
Definition perms_of_role (r : rbac) (role : uuid) : gset string :=
  set_map snd (filter (λ rp : uuid * string, rp.1 = role) (role_perms r)).
Definition perms_of (s : store) (id : uuid) : gset string :=
  set_map snd (filter (λ rp : uuid * string, (id, rp.1) ∈ user_roles (rb s)) (role_perms (rb s))).
Definition UserPermissions (id : uuid) (now : Z) (s : store) : res store_error (gset string) * store :=
  (Ok (perms_of s id), s).
Definition GetPasswordHash (id : uuid) : Z → store → res store_error string * store :=
  get_row (λ s, users s !! id ≫= u_hash).

(** Also clears the force-change flag. *)
Definition with_hash (h : string) (u : user) : user :=
  User (u_name u) (u_disabled u) (u_source u) (u_super u) false (u_tenant u) (u_service u)
    (u_failed u) (u_locked_until u) (match u_hash u with Some _ => Some h | None => None end)
    (u_email u) (u_display u) (u_require_mfa u).
Definition SetPasswordHash (id : uuid) (h : string) (now : Z) (s : store) : res store_error unit * store :=
  (Ok tt, set_users s (alter (with_hash h) id (users s))).

Definition with_login (failed : Z) (locked : option Z) (u : user) : user :=
  User (u_name u) (u_disabled u) (u_source u) (u_super u) (u_must_change u) (u_tenant u)
    (u_service u) failed locked (u_hash u)
    (u_email u) (u_display u) (u_require_mfa u).
Definition RecordLoginSuccess (id : uuid) (now : Z) (s : store) : res store_error unit * store :=
  (Ok tt, set_users s (alter (with_login 0 None) id (users s))).
Definition login_failure (max lockFor now : Z) (u : user) : user :=
  with_login (u_failed u + 1)
    (if max <=? u_failed u + 1 then Some (now + lockFor) else u_locked_until u) u.
Definition RecordLoginFailure (id : uuid) (max lockFor now : Z) (s : store)
    : res store_error Z * store :=
  match users s !! id with
  | None => (Err ErrNotFound, s)
  | Some u => (Ok (u_failed u + 1), set_users s (<[id := login_failure max lockFor now u]> (users s)))
  end.
Definition Unlock (id : uuid) (now : Z) (s : store) : res store_error unit * store :=
  (Ok tt, set_users s (alter (with_login 0 None) id (users s))).

Definition CreateSession_row (user : uuid) (refreshHash ip ua : string) (mfa : bool) (expires : Z)
    (now : Z) (s : store) : res store_error (uuid * session) * store :=
  let id := fresh (dom (sessions s) ∪ live s) in
  let r := Session user refreshHash ip ua mfa now now expires None in
  (Ok (id, r), set_sessions s (<[id := r]> (sessions s))).
Definition GetSession (id : uuid) : Z → store → res store_error session * store :=
  get_row (λ s, sessions s !! id).
Definition GetSessionRefreshHash (id : uuid) : Z → store → res store_error string * store :=
  get_row (λ s, s_refresh <$> sessions s !! id).
Definition rotated (h : string) (expires now : Z) (r : session) : session :=
  Session (s_user r) h (s_ip r) (s_ua r) (s_mfa r) (s_created r) now expires (s_revoked r).
Definition RotateRefresh (id : uuid) (h : string) (expires now : Z) (s : store)
    : res store_error unit * store :=
  (Ok tt, set_sessions s (alter (rotated h expires now) id (sessions s))).
Definition touched (now : Z) (r : session) : session :=
  Session (s_user r) (s_refresh r) (s_ip r) (s_ua r) (s_mfa r) (s_created r) now (s_expires r)
    (s_revoked r).
Definition TouchSession (id : uuid) (now : Z) (s : store) : res store_error unit * store :=
  (Ok tt, set_sessions s (alter (touched now) id (sessions s))).
Definition revoked (now : Z) (r : session) : session :=
  Session (s_user r) (s_refresh r) (s_ip r) (s_ua r) (s_mfa r) (s_created r) (s_last_seen r)
    (s_expires r) (match s_revoked r with None => Some now | Some t => Some t end).
Definition RevokeSession (id : uuid) (now : Z) (s : store) : res store_error unit * store :=
  (Ok tt, set_sessions s (alter (revoked now) id (sessions s))).
Definition RevokeUserSessions (user : uuid) (now : Z) (s : store) : res store_error unit * store :=
  (Ok tt, set_sessions s ((λ r, if bool_decide (s_user r = user) then revoked now r else r) <$> sessions s)).
Definition ListUserSessions (user : uuid) (now : Z) (s : store)
    : res store_error (list (uuid * session)) * store :=
  (Ok (map_to_list (filter (λ kr, s_user kr.2 = user ∧ s_revoked kr.2 = None) (sessions s))), s).

(** The WHERE clause of [ListStaleSessions]. *)
Definition stale (idle absolute now : Z) (r : session) : bool :=
  bool_decide (s_revoked r = None) && (now <? s_expires r) &&
  (((0 <? idle) && (s_last_seen r <? now - idle)) ||
   ((0 <? absolute) && (s_created r <? now - absolute))).
Definition ListStaleSessions (idle absolute now : Z) (s : store)
    : res store_error (list (uuid * session)) * store :=
  (Ok (map_to_list (filter (λ kr, stale idle absolute now kr.2 = true) (sessions s))), s).

Definition CountActiveSessions (user : uuid) (now : Z) (s : store) : res store_error Z * store :=
  (Ok (Z.of_nat (size (filter (λ kr, s_user kr.2 = user ∧ s_revoked kr.2 = None ∧ now < s_expires kr.2)
                         (sessions s)))), s).
Definition GetUserSessionPolicy (user : uuid) (now : Z) (s : store)
    : res store_error (option UserSessionPolicy) * store := (Ok (user_policies s !! user), s).
Definition SetUserSessionPolicy (user : uuid) (p : UserSessionPolicy) (now : Z) (s : store)
    : res store_error unit * store :=
  (Ok tt, set_policies s (<[user := p]> (user_policies s))).
Definition DeleteUserSessionPolicy (user : uuid) (now : Z) (s : store)
    : res store_error unit * store :=
  (Ok tt, set_policies s (delete user (user_policies s))).

(** [GetAPITokenByHash]: the token and its service account. *)
Definition GetAPITokenByHash (hash : string) (now : Z) (s : store)
    : res store_error (api_token * user) * store :=
  (match head (omap (λ kt : uuid * api_token,
            match users s !! t_account kt.2 with
            | Some u => if str_eqb (t_hash kt.2) hash && u_service u then Some (kt.2, u) else None
            | None => None
            end) (map_to_list (api_tokens s))) with
   | Some a => Ok a
   | None => Err ErrNotFound
   end, s).

(** * The service *)

Inductive auth_err :=
| ErrInvalidCredentials | ErrAccountLocked | ErrSessionInvalid | ErrIPNotAllowed | ErrSessionLimit
| ErrInternal.
#[export] Instance auth_err_eq_dec : EqDecision auth_err.
Proof. solve_decision. Defined.

Record config := Config { RefreshTokenTTL : Z; SessionIdleTTL : Z; SessionAbsoluteTTL : Z }.

(** What the package uses of other code. *)
Class AuthLib := {
  VerifyPassword : string → string → res string bool;
  PasswordNeedsRehash : string → bool;
  HashPassword : string → option string;
  (** a refresh token drawn at a tick; its digest; the database's name comparison *)
  new_token : nat → string;
  HashToken : string → string;
  citext_eq : string → string → bool;
  (** [jwt.ParseWithClaims] with the server's secret, at an instant *)
  parse_jwt : string → Z → option Claims;
  (** [net.ParseIP], equality, and membership in a CIDR *)
  parse_ip : string → option N;
  cidr_contains : string → N → bool;
}.

Record Tokens := MkTokens { tk_refresh : string; tk_session : uuid; tk_user : uuid }.

Section service.
Context `{!Env store, !AuthLib}.
Context (cfg : config).

(** [lockoutPolicy]: an unset or non-positive field keeps the default. *)
Definition lockoutPolicy : M store (Z * Z) :=
  r ← db (get_row lockout);
  mret (match r with
        | Ok (m, l) => (if 0 <? m then m else 5, if 0 <? l then l else 15)
        | Err _ => (5, 15)
        end).

Definition applyFailure (user : uuid) : M store unit :=
  p ← lockoutPolicy;
  _ ← db (RecordLoginFailure user p.1 (p.2 * minute));
  mret tt.

Definition Authenticate (username password : string) : M store (res auth_err (uuid * user)) :=
  r ← db (get_row (λ s, user_by_name citext_eq s username));
  match r with
  | Err _ => mret (Err ErrInvalidCredentials)
  | Ok (id, u) =>
    if u_disabled u then mret (Err ErrInvalidCredentials)
    else if negb (str_eqb (u_source u) "") && negb (str_eqb (u_source u) "local") then
      mret (Err ErrInvalidCredentials)
    else
      now ← time_now;
      if (match u_locked_until u with Some t => now <? t | None => false end) then
        mret (Err ErrAccountLocked)
      else
        h ← db (GetPasswordHash id);
        match h with
        | Err _ => mret (Err ErrInvalidCredentials)
        | Ok hash =>
          match VerifyPassword password hash with
          | Ok true =>
            _ ← (if PasswordNeedsRehash hash then
                   match HashPassword password with
                   | Some h' => _ ← db (SetPasswordHash id h'); mret tt
                   | None => mret tt
                   end
                 else mret tt);
            mret (Ok (id, u))
          | _ => _ ← applyFailure id; mret (Err ErrInvalidCredentials)
          end
        end
  end.

(** [ipAllowed] *)
Definition ip_entry (addr : N) (c : string) : bool :=
  let c := TrimSpace c in
  if str_eqb c "" then false
  else if contains_sub "/" c then cidr_contains c addr
  else match parse_ip c with Some a => bool_decide (a = addr) | None => false end.
Definition ipAllowed (ip : string) (cidrs : list string) : bool :=
  match parse_ip ip with None => false | Some addr => existsb (ip_entry addr) cidrs end.

Definition SessionPolicy_read : M store SessionPolicy :=
  r ← db (get_row global_policy);
  mret (match r with Ok p => p | Err _ => MkPolicy [] 0 end).

Definition enforceSessionPolicy (user : uuid) (ip : string) : M store (option auth_err) :=
  global ← SessionPolicy_read;
  o ← db (GetUserSessionPolicy user);
  let override := match o with Ok o => o | Err _ => None end in
  let allow := default (IPAllowlist global) (override ≫= up_allow) in
  if negb (bool_decide (allow = [])) && negb (ipAllowed ip allow) then mret (Some ErrIPNotAllowed)
  else
    let max := default (MaxConcurrentSessions global) (override ≫= up_max) in
    if 0 <? max then
      n ← db (CountActiveSessions user);
      mret (match n with Ok n => if max <=? n then Some ErrSessionLimit else None | Err _ => None end)
    else mret None.

(** The hooks the SSH identity layer registers. *)
Definition onSessionCreated (id : uuid) : M store unit := effect (λ s, set_live s ({[id]} ∪ live s)).
Definition onSessionDestroyed (id : uuid) : M store unit := effect (λ s, set_live s (live s ∖ {[id]})).
Definition ensureCredential (id : uuid) : M store unit := effect (λ s, set_live s ({[id]} ∪ live s)).

Definition NewRefreshToken : M store (string * string) := λ w,
  ((new_token (w_tick w), HashToken (new_token (w_tick w))), w).

Definition CreateSession (user : uuid) (ip ua : string) (mfaPassed : bool)
    : M store (res auth_err Tokens) :=
  d ← enforceSessionPolicy user ip;
  match d with
  | Some e => mret (Err e)
  | None =>
    t ← NewRefreshToken;
    now ← time_now;
    r ← db (CreateSession_row user t.2 ip ua mfaPassed (now + RefreshTokenTTL cfg));
    match r with
    | Err _ => mret (Err ErrInternal)
    | Ok (id, _) =>
      _ ← db (RecordLoginSuccess user);
      _ ← onSessionCreated id;
      mret (Ok (MkTokens t.1 id user))
    end
  end.

Definition endSession (id : uuid) : M store (res store_error unit) :=
  _ ← onSessionDestroyed id;
  db (RevokeSession id).

Definition Logout (id : uuid) := endSession id.

Definition Refresh (id : uuid) (presented : string) : M store (res auth_err Tokens) :=
  r ← db (GetSession id);
  match r with
  | Err _ => mret (Err ErrSessionInvalid)
  | Ok sess =>
    now ← time_now;
    if negb (bool_decide (s_revoked sess = None)) || (s_expires sess <? now) then
      mret (Err ErrSessionInvalid)
    else
      h ← db (GetSessionRefreshHash id);
      if (match h with Ok h => negb (str_eqb h (HashToken presented)) | Err _ => true end) then
        _ ← db (RevokeSession id);
        mret (Err ErrSessionInvalid)
      else
        u ← db (GetUserByID (s_user sess));
        match u with
        | Err _ => mret (Err ErrSessionInvalid)
        | Ok u =>
          if u_disabled u then mret (Err ErrSessionInvalid)
          else
            t ← NewRefreshToken;
            now ← time_now;
            r ← db (RotateRefresh id t.2 (now + RefreshTokenTTL cfg));
            match r with
            | Err _ => mret (Err ErrInternal)
            | Ok _ => mret (Ok (MkTokens t.1 id (s_user sess)))
            end
        end
  end.

Fixpoint end_all (keep : option uuid) (l : list (uuid * session)) : M store unit :=
  match l with
  | [] => mret tt
  | (id, _) :: l' =>
    if bool_decide (keep = Some id) then end_all keep l'
    else _ ← endSession id; end_all keep l'
  end.

(** [destroyUserSessions]; [keep = uuid.Nil] keeps none. *)
Definition destroyUserSessions (user keep : uuid) : M store unit :=
  r ← db (ListUserSessions user);
  match r with
  | Err _ => mret tt
  | Ok l => end_all (if bool_decide (keep = uuid_nil) then None else Some keep) l
  end.
Definition DestroyUserSessions (user : uuid) := destroyUserSessions user uuid_nil.
Definition DestroyUserSessionsExcept (user keep : uuid) := destroyUserSessions user keep.

Definition ReapStaleSessions : M store Z :=
  if (SessionIdleTTL cfg <=? 0) && (SessionAbsoluteTTL cfg <=? 0) then mret 0
  else
    r ← db (ListStaleSessions (SessionIdleTTL cfg) (SessionAbsoluteTTL cfg));
    match r with
    | Err _ => mret 0
    | Ok l => _ ← end_all None l; mret (Z.of_nat (length l))
    end.

Definition authenticateAPIToken (tok : string) : M store (res auth_err Principal) :=
  r ← db (GetAPITokenByHash (HashToken tok));
  match r with
  | Err _ => mret (Err ErrSessionInvalid)
  | Ok (t, u) =>
    now ← time_now;
    if negb (bool_decide (t_revoked t = None)) || u_disabled u ||
       (match t_expires t with Some e => e <=? now | None => false end)
    then mret (Err ErrSessionInvalid)
    else
      p ← db (UserPermissions (t_account t));
      mret (match p with
            | Err _ => Err ErrInternal
            | Ok perms => Ok (MkPrincipal (t_account t) uuid_nil (u_name u) false perms false (u_tenant u))
            end)
  end.

(** The two bounds [loadPrincipal] checks, in its order. *)
Definition over_idle (sess : session) (now : Z) : bool :=
  (0 <? SessionIdleTTL cfg) && (SessionIdleTTL cfg <? now - s_last_seen sess).
Definition over_absolute (sess : session) (now : Z) : bool :=
  (0 <? SessionAbsoluteTTL cfg) && (SessionAbsoluteTTL cfg <? now - s_created sess).

Definition loadPrincipal (c : Claims) : M store (res auth_err Principal) :=
  let id := c_session c in
  r ← db (GetSession id);
  match r with
  | Err _ => mret (Err ErrSessionInvalid)
  | Ok sess =>
    now ← time_now;
    if negb (bool_decide (s_revoked sess = None)) || (s_expires sess <? now) then
      mret (Err ErrSessionInvalid)
    else
      now ← time_now;
      if over_idle sess now then _ ← endSession id; mret (Err ErrSessionInvalid)
      else
        now ← time_now;
        if over_absolute sess now then _ ← endSession id; mret (Err ErrSessionInvalid)
        else
          u ← db (GetUserByID (c_user c));
          match u with
          | Err _ => _ ← endSession id; mret (Err ErrSessionInvalid)
          | Ok u =>
            if u_disabled u then _ ← endSession id; mret (Err ErrSessionInvalid)
            else
              p ← db (UserPermissions (c_user c));
              match p with
              | Err _ => mret (Err ErrInternal)
              | Ok perms =>
                _ ← db (TouchSession id);
                _ ← ensureCredential id;
                mret (Ok (MkPrincipal (c_user c) id (u_name u) (u_super u) perms
                           (u_must_change u) (u_tenant u)))
              end
          end
  end.

(** * The middleware *)

Definition APITokenPrefix : string := "flt_".

(** The parts of a request the middleware reads. *)
Record http_req := HttpReq {
  hr_path : string; hr_authorization : string; hr_tenant_header : string;
  hr_federated : option Principal;
}.

Definition bearerToken (r : http_req) : string :=
  if has_prefix "Bearer " (hr_authorization r) then str_drop 7 (hr_authorization r) else "".

(** What the middleware does: refuse, or serve the request for a principal in the
    scope of a tenant ([None]: the federated principal keeps the incoming scope). *)
Inductive verdict :=
| Refuse (code : Z) (msg : string)
| Serve (p : Principal) (tenant : option uuid).

(** [uuid.Parse] of the tenant header. *)
Context (parse_uuid : string → option uuid).

Definition effective_tenant (p : Principal) (sel : string) : uuid :=
  let home := if bool_decide (TenantID p = uuid_nil) then ProviderTenantID else TenantID p in
  if negb (str_eqb sel "") && IsProviderAdmin p
  then match parse_uuid sel with Some t => t | None => home end
  else home.

Definition RequireAuth (r : http_req) : M store verdict :=
  match hr_federated r with
  | Some fp => mret (Serve fp None)
  | None =>
    let tok := bearerToken r in
    if str_eqb tok "" then mret (Refuse 401 "missing access token")
    else
      p ← (if has_prefix APITokenPrefix tok then
             p ← authenticateAPIToken tok;
             mret (match p with Ok p => Ok p | Err _ => Err "invalid api token" end)
           else
             now ← time_now;
             match parse_jwt tok now with
             | None => mret (Err "invalid access token")
             | Some c =>
               p ← loadPrincipal c;
               mret (match p with Ok p => Ok p | Err _ => Err "session invalid" end)
             end);
      mret (match p with
            | Err m => Refuse 401 m
            | Ok p =>
              if MustChangePw p && negb (contains_sub "/api/v1/auth/" (hr_path r))
              then Refuse 403 "password change required"
              else Serve p (Some (effective_tenant p (hr_tenant_header r)))
            end)
  end.

(** [RequirePermission] and [RequirePrivilegedPermission], after [RequireAuth]. *)
Definition RequirePermission (perm : string) (p : option Principal) : option (Z * string) :=
  match p with
  | None => Some (401, "authentication required")
  | Some p => if Has p perm then None else Some (403, "missing permission: " +:+ perm)
  end.
Definition RequirePrivilegedPermission (perm : string) (p : option Principal) : option (Z * string) :=
  match p with
  | None => Some (401, "authentication required")
  | Some p =>
    if negb (Has p perm) then Some (403, "missing permission: " +:+ perm)
    else if negb (Has p "Host.Sudo") then
      Some (403, perm +:+ " runs as root on the target host and also requires Host.Sudo")
    else None
  end.

(** The entry of the WebSocket endpoints. *)
Definition AuthenticateToken (tok : string) : M store (res auth_err Principal) :=
  now ← time_now;
  match parse_jwt tok now with
  | None => mret (Err ErrInternal)
  | Some c => loadPrincipal c
  end.

Definition TenantScopeID (t : uuid) : uuid := if bool_decide (t = uuid_nil) then ProviderTenantID else t.
Definition TenantScope (p : Principal) : uuid := TenantScopeID (TenantID p).
End service.

(** The password policy: the [password_policy] setting, already laid over the default. *)
Definition PasswordPolicy_read `{!Env store} : M store PasswordPolicy :=
  r ← db (get_row pw_policy);
  mret (match r with Ok p => p | Err _ => DefaultPolicy end).

(** Runes of a string and the classes of package [unicode]. *)
Class Unicode := {
  runes : string → list N;
  IsUpper : N → bool; IsLower : N → bool; IsDigit : N → bool; IsPunctOrSymbol : N → bool;
}.

(** The scan of [Validate]: what it has seen, and the rune at hand. *)
Definition scan_rune `{!Unicode} (acc : bool * bool * bool * bool) (r : N) : bool * bool * bool * bool :=
  let '(u, l, d, y) := acc in
  if IsUpper r then (true, l, d, y) else if IsLower r then (u, true, d, y)
  else if IsDigit r then (u, l, true, y) else if IsPunctOrSymbol r then (u, l, d, true) else acc.
Definition Validate `{!Unicode} (p : PasswordPolicy) (pw : string) : option string :=
  if Z.of_nat (String.length pw) <? MinLength p
  then Some ("password must be at least " +:+ pretty (MinLength p) +:+ " characters")
  else
    let '(u, l, d, y) := foldl scan_rune (false, false, false, false) (runes pw) in
    if RequireUpper p && negb u then Some "password must contain an uppercase letter"
    else if RequireLower p && negb l then Some "password must contain a lowercase letter"
    else if RequireDigit p && negb d then Some "password must contain a digit"
    else if RequireSymbol p && negb y then Some "password must contain a symbol"
    else None.

(** * Proofs *)
Lemma over_bounds_stale cfg r now :
  stale (SessionIdleTTL cfg) (SessionAbsoluteTTL cfg) now r = true ↔
  s_revoked r = None ∧ now < s_expires r ∧ (over_idle cfg r now = true ∨ over_absolute cfg r now = true).
Proof.
  unfold stale, over_idle, over_absolute.
  rewrite !andb_true_iff, orb_true_iff, !andb_true_iff, bool_decide_eq_true, !Z.ltb_lt.
  intuition lia.
Qed.

Section sessions.
Context `{!Env store, !Quiet Env0, !AuthLib}.
Context (cfg : config).

Lemma endSession_run id n s :
  db_err n = false →
  (endSession id (World n s)).2 =
    World (S n) (set_sessions (set_live s (live s ∖ {[id]})) (alter (revoked (clock n)) id (sessions s))).
Proof. intros Hn. unfold endSession, onSessionDestroyed. run_step. by rewrite Hn. Qed.

(** A session that was torn down: revoked, its credential destroyed. *)
Definition torn_down (id : uuid) (s : store) : Prop :=
  (∀ r, sessions s !! id = Some r → is_Some (s_revoked r)) ∧ id ∉ live s.

Lemma endSession_torn id n s : db_err n = false → torn_down id (w_db (endSession id (World n s)).2).
Proof.
  intros Hn. rewrite endSession_run by done. split; simpl; [|set_solver].
  intros r. rewrite lookup_alter_eq. intros (r0 & _ & ->)%fmap_Some. simpl. by destruct (s_revoked r0).
Qed.

Definition fresh_at (sess : session) (c : Claims) (lo hi : nat) : Prop :=
  s_revoked sess = None ∧
  ∃ t1 t2 t3, (lo ≤ t1 ∧ t1 < t2 ∧ t2 < t3 ∧ t3 < hi)%nat ∧ clock t1 ≤ s_expires sess ∧
    over_idle cfg sess (clock t2) = false ∧ over_absolute cfg sess (clock t3) = false.

Lemma loadPrincipal_ok c n s p w' :
  loadPrincipal cfg c (World n s) = (Ok p, w') →
  ∃ sess u, sessions s !! c_session c = Some sess ∧ users s !! c_user c = Some u ∧
    fresh_at sess c n (w_tick w') ∧ u_disabled u = false ∧
    p = MkPrincipal (c_user c) (c_session c) (u_name u) (u_super u) (perms_of s (c_user c))
          (u_must_change u) (u_tenant u).
Proof.
  unfold loadPrincipal. run_step. destruct (db_err n); [done|]. run_step. simpl.
  destruct (sessions s !! c_session c) as [sess|] eqn:Hs; [|done]. run_step.
  destruct (negb _ || _) eqn:H1; [done|].
  apply orb_false_iff in H1 as [Hr He]. apply negb_false_iff, bool_decide_eq_true in Hr.
  run_step. destruct (over_idle cfg sess _) eqn:Hi; [by run_step|].
  run_step. destruct (over_absolute cfg sess _) eqn:Ha; [by run_step|].
  run_step. destruct (db_err _); [by run_step|]. run_step. simpl.
  destruct (users s !! c_user c) as [u|] eqn:Hu; [|by run_step].
  destruct (u_disabled u) eqn:Hd; [by run_step|].
  run_step. destruct (db_err _); [done|]. run_step. unfold UserPermissions. cbn [fst snd].
  run_step. unfold ensureCredential. run_step.
  assert (∀ x, w_tick (db (TouchSession (c_session c)) (World x s)).2 = S x) as Ht.
  { intros x. run_step. by destruct (db_err x). }
  intros Heq. injection Heq as <- <-. exists sess, u. split_and!; try done.
  split; [done|]. exists (S n), (S (S n)), (S (S (S n))). split_and!; try lia; [|done..].
  destruct (db_err _); simpl; lia.
Qed.

Lemma authenticateAPIToken_ok tok n s p :
  (authenticateAPIToken tok (World n s)).1 = Ok p →
  IsSuperAdmin p = false ∧ SessionID p = uuid_nil ∧
  ∃ k a u m, api_tokens s !! k = Some a ∧ t_hash a = HashToken tok ∧
    t_account a = UserID p ∧ t_revoked a = None ∧ users s !! t_account a = Some u ∧
    u_service u = true ∧ u_disabled u = false ∧ (∀ e, t_expires a = Some e → clock m < e) ∧
    m = S n ∧ p = MkPrincipal (t_account a) uuid_nil (u_name u) false (perms_of s (t_account a)) false (u_tenant u).
Proof.
  unfold authenticateAPIToken. run_step. destruct (db_err n); [done|]. unfold GetAPITokenByHash.
  destruct (head _) as [[a u]|] eqn:Hh; simpl; [|done].
  apply head_Some_elem_of, list_elem_of_omap in Hh as ([k a'] & Hin%elem_of_map_to_list & Hm).
  simpl in Hm. destruct (users s !! t_account a') as [u'|] eqn:Hu; [|done].
  destruct (str_eqb _ _ && u_service u') eqn:Hb; [|done]. injection Hm as -> ->.
  apply andb_true_iff in Hb as [Hb Hsv]. apply str_eqb_eq in Hb.
  run_step. destruct (_ || _ || _) eqn:Hc; [done|].
  apply orb_false_iff in Hc as [[Hr Hd]%orb_false_iff He].
  apply negb_false_iff, bool_decide_eq_true in Hr.
  run_step. destruct (db_err _); [done|]. unfold UserPermissions. simpl. intros [= <-]. simpl.
  split_and!; [done..|]. exists k, a, u, (S n). split_and!; try done.
  intros e Hee. rewrite Hee in He. by apply Z.leb_gt in He.
Qed.

Context (Hdb : ∀ n, db_err n = false).

Lemma loadPrincipal_tears_down c n s e sess :
  (loadPrincipal cfg c (World n s)).1 = Err e → sessions s !! c_session c = Some sess →
  s_revoked sess = None → clock (S n) ≤ s_expires sess →
  torn_down (c_session c) (w_db (loadPrincipal cfg c (World n s)).2).
Proof.
  intros Herr Hs Hr He. revert Herr. unfold loadPrincipal. run_step. rewrite Hdb. run_step.
  simpl. rewrite Hs. run_step. rewrite bool_decide_true by done. simpl.
  rewrite (proj2 (Z.ltb_ge _ _)) by apply He.
  run_step. destruct (over_idle cfg sess _); [run_step; intros _; by apply endSession_torn|].
  run_step. destruct (over_absolute cfg sess _); [run_step; intros _; by apply endSession_torn|].
  run_step. rewrite Hdb. run_step. simpl.
  destruct (users s !! c_user c) as [u|] eqn:Hu; [|run_step; intros _; by apply endSession_torn].
  destruct (u_disabled u) eqn:Hd; [run_step; intros _; by apply endSession_torn|].
  run_step. rewrite Hdb. unfold UserPermissions. simpl. run_step. unfold ensureCredential.
  by run_step.
Qed.

(** ** Ending sessions *)
Lemma end_all_spec keep l n s :
  let s' := w_db (end_all keep l (World n s)).2 in
  users s' = users s ∧
  (∀ id, id ∉ l.*1 ∨ keep = Some id → sessions s' !! id = sessions s !! id ∧ (id ∈ live s' ↔ id ∈ live s)) ∧
  (∀ id, id ∈ l.*1 → keep ≠ Some id → torn_down id s').
Proof.
  revert n s. induction l as [|[id0 r0] l IH]; intros n s; simpl.
  { split_and!; [done|done|]. by intros id ?%not_elem_of_nil. }
  case_bool_decide as Hk.
  - destruct (IH n s) as (Hu & Hs & Ht). split_and!; [done|..].
    + intros id [Hid|Hid]; [|by apply Hs; right].
      apply Hs. left. intros Hin. apply Hid. by apply elem_of_cons; right.
    + intros id [->|Hid]%elem_of_cons Hne; [done|by apply Ht].
  - rewrite run_bind, endSession_run by done.
    set (s1 := set_sessions _ _). destruct (IH (S n) s1) as (Hu & Hs & Ht).
    assert (∀ id, id ≠ id0 → sessions s1 !! id = sessions s !! id ∧ (id ∈ live s1 ↔ id ∈ live s)) as H1.
    { intros id Hne. split; [by apply lookup_alter_ne|]. simpl. set_solver. }
    split_and!; [done|..].
    + intros id Hid.
      assert (id ≠ id0) as Hne.
      { intros ->. destruct Hid as [Hid|]; [|done]. apply Hid. by apply elem_of_cons; left. }
      destruct (H1 id Hne) as [<- <-]. apply Hs. destruct Hid as [Hid|]; [left|by right].
      intros Hin. apply Hid. by apply elem_of_cons; right.
    + intros id [->|Hid]%elem_of_cons Hne; [|by apply Ht].
      destruct (decide (id0 ∈ l.*1)) as [Hin|Hni]; [by apply Ht|].
      destruct (Hs id0 (or_introl Hni)) as [He Hl]. split.
      * intros r. rewrite He. simpl. rewrite lookup_alter_eq. intros (r1 & _ & ->)%fmap_Some.
        simpl. by destruct (s_revoked r1).
      * rewrite Hl. simpl. set_solver.
Qed.

Lemma fst_filter_elem (P : uuid * session → Prop) `{∀ x, Decision (P x)} (m : gmap uuid session) id :
  id ∈ (map_to_list (filter P m)).*1 ↔ ∃ r, m !! id = Some r ∧ P (id, r).
Proof.
  split.
  - intros ([i r] & -> & Hin)%list_elem_of_fmap. apply elem_of_map_to_list in Hin.
    apply map_lookup_filter_Some in Hin. eauto.
  - intros (r & Hr & HP). apply list_elem_of_fmap. exists (id, r). split; [done|].
    by apply elem_of_map_to_list, map_lookup_filter_Some.
Qed.

(** ** Refreshing *)
Lemma Refresh_cases id tok n s t w1 :
  Refresh cfg id tok (World n s) = (Ok t, w1) →
  ∃ sess u m now, sessions s !! id = Some sess ∧ users s !! s_user sess = Some u ∧
    u_disabled u = false ∧ s_revoked sess = None ∧ s_refresh sess = HashToken tok ∧
    t = MkTokens (new_token m) id (s_user sess) ∧ (n < w_tick w1)%nat ∧
    w_db w1 = set_sessions s (alter (rotated (HashToken (new_token m)) (now + RefreshTokenTTL cfg)
                (clock (w_tick w1 - 1))) id (sessions s)).
Proof.
  unfold Refresh. run_step. rewrite Hdb. run_step. simpl.
  destruct (sessions s !! id) as [sess|] eqn:Hs; [|done]. run_step.
  destruct (negb _ || _) eqn:H1; [done|].
  apply orb_false_iff in H1 as [Hr _]. apply negb_false_iff, bool_decide_eq_true in Hr.
  run_step. rewrite Hdb. run_step. simpl. rewrite Hs. simpl.
  destruct (str_eqb (s_refresh sess) (HashToken tok)) eqn:Hh; [|simpl; by run_step].
  apply str_eqb_eq in Hh. simpl. run_step. rewrite Hdb. run_step. simpl.
  destruct (users s !! s_user sess) as [u|] eqn:Hu; [|done].
  destruct (u_disabled u) eqn:Hd; [done|]. run_step. unfold NewRefreshToken. run_step. rewrite Hdb.
  run_step. simpl. intros Heq. injection Heq as <- <-. simpl.
  eexists sess, u, _, _. split_and!; try done. lia.
Qed.

(** A session nobody can refresh at or after an instant. *)
Definition dead_at (id : uuid) (now : Z) (s : store) : Prop :=
  ∀ sess, sessions s !! id = Some sess → is_Some (s_revoked sess) ∨ s_expires sess < now.

Lemma Refresh_dead id tok n s :
  (∀ a b, (a ≤ b)%nat → clock a ≤ clock b) → dead_at id (clock n) s →
  (Refresh cfg id tok (World n s)).1 = Err ErrSessionInvalid.
Proof.
  intros Hmono Hd. unfold Refresh. run_step. rewrite Hdb. run_step. simpl.
  destruct (sessions s !! id) as [sess|] eqn:Hs; [|done]. run_step.
  destruct (Hd sess Hs) as [[t Hr]|He].
  - rewrite bool_decide_false by (rewrite Hr; done). done.
  - assert (clock n ≤ clock (S n)) by (apply Hmono; lia).
    rewrite (proj2 (Z.ltb_lt _ _)) by lia. by rewrite orb_true_r.
Qed.

(** A token that is not the current one ends the session. *)
Lemma Refresh_replay id tok n s sess :
  (∀ a b, (a ≤ b)%nat → clock a ≤ clock b) →
  sessions s !! id = Some sess → s_refresh sess ≠ HashToken tok →
  let r := Refresh cfg id tok (World n s) in
  r.1 = Err ErrSessionInvalid ∧ dead_at id (clock (w_tick r.2)) (w_db r.2) ∧ (n ≤ w_tick r.2)%nat ∧
  live (w_db r.2) = live s.
Proof.
  intros Hmono Hs Hne. unfold Refresh. run_step. rewrite Hdb. run_step. simpl. rewrite Hs. run_step.
  destruct (negb _ || _) eqn:H1.
  - simpl. split_and!; [done| |lia|done]. intros sess' Hs'. assert (sess' = sess) as -> by congruence.
    apply orb_true_iff in H1 as [H1|H1%Z.ltb_lt].
    + left. apply negb_true_iff, bool_decide_eq_false in H1. by destruct (s_revoked sess); [eexists|].
    + right. assert (clock (S n) ≤ clock (S (S n))) by (apply Hmono; lia). lia.
  - run_step. rewrite Hdb. run_step. simpl. rewrite Hs. simpl.
    destruct (str_eqb (s_refresh sess) (HashToken tok)) eqn:Hh; [by apply str_eqb_eq in Hh|].
    simpl. run_step. rewrite Hdb. run_step. split_and!; [done| |lia|done].
    intros sess'. simpl. rewrite lookup_alter_eq. intros (r0 & _ & ->)%fmap_Some.
    left. simpl. by destruct (s_revoked r0).
Qed.

(** ** Signing in *)
Definition names_only (s : store) (name : string) (id : uuid) (u : user) : Prop :=
  users s !! id = Some u ∧
  ∀ id' u', users s !! id' = Some u' → citext_eq (u_name u') name = true ↔ id' = id.

Lemma user_by_name_unique s name id u :
  names_only s name id u → user_by_name citext_eq s name = Some (id, u).
Proof.
  intros [Hu Honly]. unfold user_by_name.
  replace (filter _ (users s)) with ({[id := u]} : gmap uuid user); [by rewrite map_to_list_singleton|].
  apply map_eq. intros i. destruct (decide (i = id)) as [->|Hne].
  - rewrite lookup_singleton_eq. symmetry. apply map_lookup_filter_Some. split; [done|].
    by apply (Honly _ _ Hu).
  - rewrite lookup_singleton_ne by done. symmetry. apply map_lookup_filter_None. right.
    intros u' Hu' Heq. by apply (Honly _ _ Hu') in Heq.
Qed.

(** An account a password can sign in to, and its password hash. *)
Definition signs_in (u : user) (h : string) : Prop :=
  u_disabled u = false ∧ (u_source u = "" ∨ u_source u = "local") ∧ u_hash u = Some h.

Definition locked_at (u : user) (now : Z) : bool :=
  match u_locked_until u with Some t => now <? t | None => false end.

Lemma signs_in_source u h :
  signs_in u h → negb (str_eqb (u_source u) "") && negb (str_eqb (u_source u) "local") = false.
Proof. by intros (_ & [->| ->] & _). Qed.

Definition lock_policy (s : store) : Z * Z :=
  match lockout s with
  | Some (m, l) => (if 0 <? m then m else 5, if 0 <? l then l else 15)
  | None => (5, 15)
  end.

Lemma applyFailure_run id u n s :
  users s !! id = Some u →
  (applyFailure id (World n s)).2 = World (S (S n)) (set_users s (<[id := login_failure
    (lock_policy s).1 ((lock_policy s).2 * minute) (clock (S n)) u]> (users s))).
Proof.
  intros Hu. unfold applyFailure, lockoutPolicy. run_step. rewrite Hdb. run_step. rewrite Hdb.
  unfold lock_policy, get_row, reading. simpl.
  destruct (lockout s) as [[m l]|]; simpl; unfold RecordLoginFailure; by rewrite Hu.
Qed.

Lemma Authenticate_locked name pw id u h n s :
  names_only s name id u → signs_in u h → locked_at u (clock (S n)) = true →
  Authenticate name pw (World n s) = (Err ErrAccountLocked, World (S (S n)) s).
Proof.
  intros Hn Hin Hl. pose proof (signs_in_source u h Hin) as Hs. destruct Hin as (Hd & _ & Hh).
  unfold Authenticate. run_step. rewrite Hdb. simpl.
  rewrite (user_by_name_unique _ _ _ _ Hn), Hd, Hs. run_step.
  unfold locked_at in Hl. by rewrite Hl.
Qed.

Lemma Authenticate_wrong name pw id u h n s :
  names_only s name id u → signs_in u h → locked_at u (clock (S n)) = false →
  VerifyPassword pw h ≠ Ok true →
  Authenticate name pw (World n s) = (Err ErrInvalidCredentials, World (S (S (S (S (S n)))))
    (set_users s (<[id := login_failure (lock_policy s).1 ((lock_policy s).2 * minute)
       (clock (S (S (S (S n))))) u]> (users s)))).
Proof.
  intros Hn Hin Hl Hv. pose proof (signs_in_source u h Hin) as Hs. destruct Hin as (Hd & _ & Hh).
  unfold Authenticate. run_step. rewrite Hdb. simpl.
  rewrite (user_by_name_unique _ _ _ _ Hn), Hd, Hs. run_step.
  unfold locked_at in Hl. rewrite Hl. run_step. rewrite Hdb. simpl.
  destruct Hn as [Hu _]. rewrite Hu. simpl. rewrite Hh.
  destruct (VerifyPassword pw h) as [[]|]; [done|..];
    rewrite run_bind; f_equal; by apply applyFailure_run.
Qed.

Lemma names_only_update s name id u u' :
  u_name u' = u_name u → names_only s name id u →
  names_only (set_users s (<[id := u']> (users s))) name id u'.
Proof.
  intros Hn [Hu Honly]. split; simpl; [by rewrite lookup_insert_eq|].
  intros i v. destruct (decide (i = id)) as [->|Hne].
  - rewrite lookup_insert_eq. intros [= <-]. rewrite Hn. by apply Honly.
  - rewrite lookup_insert_ne by done. apply Honly.
Qed.

(** Repeated wrong passwords, before the limit is reached and up to it. *)
Lemma wrong_attempts name id h pws n s u :
  (∀ pw, pw ∈ pws → VerifyPassword pw h ≠ Ok true) →
  names_only s name id u → signs_in u h → u_locked_until u = None →
  pws ≠ [] → u_failed u + Z.of_nat (length pws) = (lock_policy s).1 →
  ∃ k u', let r := mapM (Authenticate name) pws (World n s) in
    (∀ a, a ∈ r.1 → a = Err ErrInvalidCredentials) ∧
    names_only (w_db r.2) name id u' ∧ signs_in u' h ∧
    u_locked_until u' = Some (clock k + (lock_policy s).2 * minute) ∧ (n ≤ k)%nat ∧
    w_tick r.2 = S k.
Proof.
  revert n s u. induction pws as [|pw pws IH]; intros n s u Hpw Hn Hin Hl Hne Hlen; [done|].
  change (mapM (Authenticate name) (pw :: pws)) with
    (b ← Authenticate name pw; bs ← mapM (Authenticate name) pws; mret (b :: bs)).
  set (u1 := login_failure (lock_policy s).1 ((lock_policy s).2 * minute)
               (clock (S (S (S (S n))))) u).
  set (s1 := set_users s (<[id := u1]> (users s))).
  assert (Authenticate name pw (World n s) =
    (Err ErrInvalidCredentials, World (S (S (S (S (S n))))) s1)) as Hrun.
  { apply Authenticate_wrong with (u := u) (h := h); try done; [by unfold locked_at; rewrite Hl|].
    apply Hpw. by apply elem_of_cons; left. }
  assert (names_only s1 name id u1) as Hn1 by (by apply names_only_update with (u := u)).
  assert (signs_in u1 h) as Hin1 by done.
  cbv zeta. rewrite run_bind, Hrun. run_step.
  assert (lock_policy s1 = lock_policy s) as Hp by done.
  destruct pws as [|pw' pws].
  - exists (S (S (S (S n)))), u1. simpl in Hlen. cbn [mapM mret M_ret fst snd w_db w_tick].
    split_and!; try done; try lia.
    + by intros a ->%list_elem_of_singleton.
    + unfold u1, login_failure. simpl. by rewrite (proj2 (Z.leb_le _ _)) by lia.
  - simpl in Hlen. assert (u_locked_until u1 = None) as Hl1.
    { unfold u1, login_failure. simpl. by rewrite (proj2 (Z.leb_gt _ _)) by lia. }
    destruct (IH (S (S (S (S (S n))))) s1 u1) as (k & u' & Hr & Hn' & Hin' & Hl' & Hk & Ht); try done.
    { intros q Hq. apply Hpw. by apply elem_of_cons; right. }
    { rewrite Hp. unfold u1, login_failure. simpl. lia. }
    exists k, u'. rewrite Hp in Hl'. split_and!; try done; [|lia].
    intros a [->|Ha]%elem_of_cons; [done|by apply Hr].
Qed.
End sessions.

(** ** Concrete instances for the witnesses *)
#[local] Instance toy_auth : AuthLib := {|
  VerifyPassword pw h := Ok (str_eqb pw h);
  PasswordNeedsRehash _ := false;
  HashPassword pw := Some pw;
  new_token n := Nat.iter n (λ t, "r" +:+ t) "";
  HashToken t := "#" +:+ t;
  citext_eq := str_eqb;
  parse_jwt t _ := if str_eqb t "jwt" then Some (MkClaims 1 7 "ada") else None;
  parse_ip t := if str_eqb t "10.0.0.1" then Some 1%N else None;
  cidr_contains _ _ := false;
|}.
Definition toy_cfg : config := Config 100 20 50.
Definition toy_user : user :=
  User "ada" false "local" false true 1%N false 0 None (Some "pw") "" "Ada" false.
Definition toy_session : session := Session 1%N "#t" "10.0.0.1" "ua" false 0 0 40 None.
Definition toy_store : store :=
  Store {[1%N := toy_user]} {[7%N := toy_session]} ∅ None None ∅ {[7%N]}
    (Rbac {[3%N := Role "Viewer" "" true]} {["Host.View"]} {[(3%N, "Host.View")]} {[(1%N, 3%N)]})
    (MfaTables ∅ ∅ ∅ None []) None [].

Section properties.
Context `{!Env store, !Quiet Env0, !AuthLib}.
Context (cfg : config).

(** [loadPrincipal] accepts a token's claims only for a session that is neither revoked,
    expired, idle nor past its absolute lifetime, whose account still exists and is enabled, and
    the principal it returns carries exactly that account's current rights. When it refuses a
    session that was not yet revoked or expired (idle, too old, account disabled or deleted), the
    session is revoked and its ephemeral SSH credential destroyed. *)
Theorem loadPrincipal_lifecycle c n s :
  (∀ m, db_err m = false) →
  let r := loadPrincipal cfg c (World n s) in
  (∀ p, r.1 = Ok p →
    ∃ sess u, sessions s !! c_session c = Some sess ∧ users s !! c_user c = Some u ∧
      fresh_at cfg sess c n (w_tick r.2) ∧ u_disabled u = false ∧
      p = MkPrincipal (c_user c) (c_session c) (u_name u) (u_super u) (perms_of s (c_user c))
            (u_must_change u) (u_tenant u)) ∧
  (∀ e sess, r.1 = Err e → sessions s !! c_session c = Some sess →
    s_revoked sess = None → clock (S n) ≤ s_expires sess →
    torn_down (c_session c) (w_db r.2)).
Proof.
  intros Hdb r. split.
  - intros p Hp. apply loadPrincipal_ok. subst r. by destruct (loadPrincipal _ _ _); simpl in *; subst.
  - intros e sess. by apply loadPrincipal_tears_down.
Qed.

(** A session that may be used: not revoked, and at instants between two ticks not expired, not
    idle for longer than the idle limit and not older than the absolute one, where these are set. *)
Definition usable (sess : session) (lo hi : nat) : Prop :=
  s_revoked sess = None ∧
  ∃ t1 t2 t3, (lo ≤ t1 ∧ t1 < t2 ∧ t2 < t3 ∧ t3 < hi)%nat ∧ clock t1 ≤ s_expires sess ∧
    (0 < SessionIdleTTL cfg → clock t2 ≤ s_last_seen sess + SessionIdleTTL cfg) ∧
    (0 < SessionAbsoluteTTL cfg → clock t3 ≤ s_created sess + SessionAbsoluteTTL cfg).
Lemma fresh_usable sess c lo hi : fresh_at cfg sess c lo hi → usable sess lo hi.
Proof.
  intros (Hr & t1 & t2 & t3 & Ht & He & Hi & Ha). split; [done|]. exists t1, t2, t3.
  unfold over_idle, over_absolute in *. split_and!; [lia..|done| |].
  - intros Hp. apply Z.ltb_lt in Hp. rewrite Hp in Hi. cbn in Hi. apply Z.ltb_ge in Hi. lia.
  - intros Hp. apply Z.ltb_lt in Hp. rewrite Hp in Ha. cbn in Ha. apply Z.ltb_ge in Ha. lia.
Qed.

(** C3: while nobody else changes the tables, and whichever statements fail: whatever request
    [RequireAuth] lets through, it is served for a principal that stands for a live credential. That
    is a federated principal the hub injected (whose tenant scope is kept); or the account of an
    unrevoked and unexpired API token, an enabled service account - never as a super admin, never
    bound to a browser session - with its permissions; or the account of a token's claims, enabled,
    with its permissions and standing, in a session that is neither revoked, expired, idle nor past its
    absolute lifetime. An account that has to change its password reaches only paths containing
    [/api/v1/auth/]. The tenant scope is the account's own tenant unless a provider admin selected
    another one. *)
Theorem RequireAuth_serves parse_uuid r n s p t :
  let run := RequireAuth cfg parse_uuid r (World n s) in
  run.1 = Serve p t →
  (hr_federated r = Some p ∧ t = None) ∨
  (hr_federated r = None ∧
   (MustChangePw p = true → contains_sub "/api/v1/auth/" (hr_path r) = true) ∧
   (∃ tid, t = Some tid ∧
     ((tid = if bool_decide (TenantID p = uuid_nil) then ProviderTenantID else TenantID p) ∨
      (IsProviderAdmin p = true ∧ parse_uuid (hr_tenant_header r) = Some tid))) ∧
   ((∃ k a u, api_tokens s !! k = Some a ∧ t_hash a = HashToken (bearerToken r) ∧
       t_revoked a = None ∧ (∀ e, t_expires a = Some e → clock (S n) < e) ∧
       users s !! t_account a = Some u ∧ u_service u = true ∧ u_disabled u = false ∧
       p = MkPrincipal (t_account a) uuid_nil (u_name u) false (perms_of s (t_account a)) false (u_tenant u)) ∨
    (∃ c sess u, parse_jwt (bearerToken r) (clock n) = Some c ∧
       sessions s !! c_session c = Some sess ∧ usable sess n (w_tick run.2) ∧
       users s !! c_user c = Some u ∧ u_disabled u = false ∧
       p = MkPrincipal (c_user c) (c_session c) (u_name u) (u_super u) (perms_of s (c_user c))
             (u_must_change u) (u_tenant u)))).
Proof.
  intros run. subst run. unfold RequireAuth. destruct (hr_federated r) as [fp|]; [intros [= -> <-]; by left|].
  case_match; [done|]. rewrite run_bind. intros Hv. right. split; [done|].
  set (m := if has_prefix APITokenPrefix _ then _ else _) in *.
  destruct ((m (World n s)).1) as [q|msg] eqn:Hq; [|done]. simpl in Hv.
  destruct (MustChangePw q && _) eqn:Hm; [done|]. injection Hv as <- <-.
  split; [|split].
  - intros Hc. rewrite Hc in Hm. by apply negb_false_iff in Hm.
  - eexists. split; [done|]. unfold effective_tenant.
    destruct (negb _ && IsProviderAdmin q) eqn:Ha; [|by left].
    apply andb_true_iff in Ha as [_ Ha]. destruct (parse_uuid _) eqn:Hp; [by right|by left].
  - subst m. destruct (has_prefix APITokenPrefix _).
    + left. rewrite run_bind in Hq.
      destruct ((authenticateAPIToken _ _).1) eqn:Ht; [|done]. simpl in Hq. injection Hq as ->.
      apply authenticateAPIToken_ok in Ht as (_ & _ & k & a & u & x & ? & ? & _ & ? & ? & ? & ? & He & -> & ->).
      by exists k, a, u.
    + right. rewrite run_bind in Hq. simpl in Hq. destruct (parse_jwt _ _) as [c|] eqn:Hj; [|done].
      rewrite run_bind in Hq.
      destruct (loadPrincipal _ _ _) as [[q'|] w'] eqn:Hl; [|done].
      injection Hq as ->. pose proof Hl as Hl'. apply loadPrincipal_ok in Hl' as (sess & u & ? & ? & Hfr & ? & ->).
      exists c, sess, u. split_and!; try done. apply fresh_usable in Hfr as [Hrev (t1 & t2 & t3 & Ht & Hx)].
      split; [done|]. exists t1, t2, t3. split; [|done]. cbn [w_tick snd mret M_ret].
      rewrite run_bind. cbn [time_now fst snd w_tick w_db]. rewrite Hj, run_bind, Hl. cbn [snd mret M_ret]. lia.
Qed.

(** Refresh tokens rotate: a refresh succeeds only for the current token of a live session
    of an enabled account, and replaying the consumed token afterwards fails and ends the session,
    after which no token at all refreshes it - provided the clock does not run backwards and the
    digest of the new token differs from the old one's. The replay leaves the session's ephemeral
    SSH credential as it was. *)
Theorem refresh_replay_revokes id tok tok' n s t w1 k :
  (∀ m, db_err m = false) → (∀ a b, (a ≤ b)%nat → clock a ≤ clock b) →
  Refresh cfg id tok (World n s) = (Ok t, w1) →
  HashToken (tk_refresh t) ≠ HashToken tok →
  (∃ sess, sessions s !! id = Some sess ∧ s_revoked sess = None ∧ s_refresh sess = HashToken tok) ∧
  let r := Refresh cfg id tok w1 in
  r.1 = Err ErrSessionInvalid ∧
  live (w_db r.2) = live s ∧
  ((w_tick r.2 ≤ k)%nat → (Refresh cfg id tok' (World k (w_db r.2))).1 = Err ErrSessionInvalid).
Proof.
  intros Hdb Hmono H1 Hne.
  destruct (Refresh_cases cfg Hdb _ _ _ _ _ _ H1) as (sess & u & m & now & Hs & _ & _ & Hr & Hh & -> & Hn & Hw).
  split; [eauto|]. destruct w1 as [n1 s1].
  cbn [tk_refresh w_tick w_db] in Hn, Hw, Hne. intros r.
  assert (sessions s1 !! id = Some (rotated (HashToken (new_token m)) (now + RefreshTokenTTL cfg)
            (clock (n1 - 1)) sess)) as Hs1.
  { subst s1. simpl. by rewrite lookup_alter_eq, Hs. }
  destruct (Refresh_replay cfg Hdb id tok n1 s1 _ Hmono Hs1 Hne) as (Hr1 & Hd & Hle & Hl).
  subst r. split_and!; [done|by rewrite Hl; subst s1|]. intros Hk.
  apply Refresh_dead; [done..|]. intros sess' Hs'. destruct (Hd sess' Hs') as [?|He]; [by left|right].
  by eapply Z.lt_le_trans, Hmono.
Qed.

(** The lockout policy. For an enabled local account that is found under its name: a locked
    account is refused whatever the password and nothing changes; a wrong password counts as one
    failure and, when the count reaches the policy's maximum, locks the account; and once as many
    wrong passwords in a row as the policy allows were tried, even the right password is refused
    until the lock runs out. *)
Theorem authenticate_lockout name id u h pws n s :
  (∀ m, db_err m = false) →
  names_only s name id u → signs_in u h → u_locked_until u = None →
  (∀ pw, pw ∈ pws → VerifyPassword pw h ≠ Ok true) →
  pws ≠ [] → u_failed u + Z.of_nat (length pws) = (lock_policy s).1 →
  let r := mapM (Authenticate name) pws (World n s) in
  (∀ a, a ∈ r.1 → a = Err ErrInvalidCredentials) ∧
  ∃ k, (n ≤ k)%nat ∧
    ∀ pw m, clock (S m) < clock k + (lock_policy s).2 * minute →
      Authenticate name pw (World m (w_db r.2)) = (Err ErrAccountLocked, World (S (S m)) (w_db r.2)).
Proof.
  intros Hdb Hn Hin Hl Hpw Hne Hlen r.
  destruct (wrong_attempts Hdb name id h pws n s u) as (k & u' & Ha & Hn' & Hin' & Hl' & Hk & _); try done.
  split; [done|]. exists k. split; [done|]. intros pw m Hm.
  apply Authenticate_locked with (id := id) (u := u') (h := h); try done.
  unfold locked_at. rewrite Hl'. by apply Z.ltb_lt.
Qed.

(** Ending a user's sessions tears down every active session of that user - revoked, its
    credential destroyed - except the one to keep, if any, and touches no other session. *)
Theorem destroyUserSessions_spec user keep n s :
  (∀ m, db_err m = false) →
  let s' := w_db (destroyUserSessions user keep (World n s)).2 in
  (∀ id r, sessions s !! id = Some r → s_user r = user → s_revoked r = None →
     keep = uuid_nil ∨ id ≠ keep → torn_down id s') ∧
  (∀ id, (keep ≠ uuid_nil ∧ id = keep) ∨ (∀ r, sessions s !! id = Some r → s_user r ≠ user) →
     sessions s' !! id = sessions s !! id ∧ (id ∈ live s' ↔ id ∈ live s)) ∧
  users s' = users s.
Proof.
  intros Hdb. unfold destroyUserSessions. rewrite run_bind, run_db, Hdb. cbn [fst snd ListUserSessions].
  set (l := map_to_list _). set (kp := if bool_decide _ then None else Some keep).
  destruct (end_all_spec Hdb kp l (S n) s) as (Hu & Hs & Ht). split_and!; [| |done].
  - intros id r Hr Hus Hrev Hk. apply Ht; [by apply fst_filter_elem; eauto|].
    unfold kp. case_bool_decide; [done|]. intros [= ->]. naive_solver.
  - intros id [[Hk ->]|Hid]; apply Hs; [right|left].
    + unfold kp. by rewrite bool_decide_false.
    + intros (r & Hr & Hus & _)%fst_filter_elem. simpl in Hus. by eapply Hid.
Qed.

(** The reaper applies the bounds of the request path: with at least one bound set, it tears
    down exactly the unrevoked, unexpired sessions that [loadPrincipal] would find idle or past
    their absolute lifetime at the instant of the sweep, and returns how many there were. *)
Theorem ReapStaleSessions_spec n s :
  (∀ m, db_err m = false) →
  (0 < SessionIdleTTL cfg ∨ 0 < SessionAbsoluteTTL cfg) →
  let r := ReapStaleSessions cfg (World n s) in
  let due sess := s_revoked sess = None ∧ clock n < s_expires sess ∧
    (over_idle cfg sess (clock n) = true ∨ over_absolute cfg sess (clock n) = true) in
  (∀ id sess, sessions s !! id = Some sess → due sess → torn_down id (w_db r.2)) ∧
  (∀ id sess, sessions s !! id = Some sess → ¬ due sess →
    sessions (w_db r.2) !! id = Some sess ∧ (id ∈ live (w_db r.2) ↔ id ∈ live s)) ∧
  ∃ l : gset uuid, r.1 = Z.of_nat (size l) ∧
    ∀ id, id ∈ l ↔ ∃ sess, sessions s !! id = Some sess ∧ due sess.
Proof.
  intros Hdb Hcfg. cbv zeta. unfold ReapStaleSessions.
  destruct (_ && _) eqn:Hz; [apply andb_true_iff in Hz as [?%Z.leb_le ?%Z.leb_le]; lia|].
  rewrite run_bind, run_db, Hdb. cbn [fst snd ListStaleSessions]. rewrite run_bind. simpl.
  set (mm := filter _ (sessions s)).
  destruct (end_all_spec Hdb None (map_to_list mm) (S n) s) as (Hu & Hs & Ht). split_and!.
  - intros id sess Hr Hdue. apply Ht; [|done]. apply fst_filter_elem. exists sess. split; [done|].
    by apply over_bounds_stale.
  - intros id sess Hr Hdue. rewrite <-Hr. apply Hs. left.
    intros (sess' & Hr' & Hst)%fst_filter_elem. simplify_eq. by apply over_bounds_stale in Hst.
  - exists (dom mm). split; [by rewrite length_map_to_list, size_dom|].
    intros id. rewrite elem_of_dom. split.
    + intros [sess [Hr Hst]%map_lookup_filter_Some]. exists sess. split; [done|].
      by apply over_bounds_stale in Hst.
    + intros (sess & Hr & Hdue). exists sess. apply map_lookup_filter_Some. split; [done|].
      by apply over_bounds_stale.
Qed.
End properties.

(** ** Two refreshes of one token *)
Section race.
Context `{!Env store, !AuthLib}.
Context (cfg : config).

(** The check of the presented token and the rotation are two statements: another refresh of
    the same token can commit in between. *)
Definition rival_between (id : uuid) (tok : string) (q n : nat) : Prop :=
  ∀ k x, interfere k x =
    if bool_decide (k = n + 3)%nat
    then w_db (@Refresh quiet_env _ cfg id tok (World q x)).2 else x.

Lemma run_db_undisturbed {A} id tok q n k (f : Z → store → res store_error A * store) s :
  (∀ m, db_err m = false) → rival_between id tok q n → k ≠ (n + 3)%nat →
  db f (World k s) = ((f (clock k) s).1, World (S k) (f (clock k) s).2).
Proof.
  intros Hdb Hr Hk. unfold db. simpl. rewrite Hr, Hdb, bool_decide_false by done. by destruct (f _ _).
Qed.

Lemma run_db_rival {A} id tok q n (f : Z → store → res store_error A * store) s :
  (∀ m, db_err m = false) → rival_between id tok q n →
  let s' := w_db (@Refresh quiet_env _ cfg id tok (World q s)).2 in
  db f (World (S (S (S n))) s) =
    ((f (clock (S (S (S n)))) s').1, World (S (S (S (S n)))) (f (clock (S (S (S n)))) s').2).
Proof.
  intros Hdb Hr. unfold db. cbn [w_tick w_db].
  rewrite Hr, Hdb, bool_decide_true by lia. by destruct (f _ _).
Qed.

(** Rotation does not make a refresh token single-use: a second refresh of the same token
    that runs between the first one's check and its rotation succeeds as well, so both requests
    get a token; the first request's rotation overwrites the second's, whose new token is then no
    longer the stored one. *)
Theorem refresh_race id tok q n s t' w' :
  (∀ m, db_err m = false) → rival_between id tok q n →
  @Refresh quiet_env _ cfg id tok (World q s) = (Ok t', w') →
  (∀ sess, sessions s !! id = Some sess → clock (S n) ≤ s_expires sess) →
  ∃ t w, Refresh cfg id tok (World n s) = (Ok t, w) ∧
    s_refresh <$> sessions (w_db w) !! id = Some (HashToken (tk_refresh t)).
Proof.
  intros Hdb Hrace Hr Hexp.
  destruct (@Refresh_cases quiet_env _ _ cfg (λ _, eq_refl) _ _ _ _ _ _ Hr)
    as (sess & u & m & now & Hs & Hu & Hd & Hrev & Hh & -> & _ & Hw).
  unfold Refresh. rewrite run_bind, (run_db_undisturbed id tok q n) by (done || lia).
  cbn [fst snd w_db GetSession GetSessionRefreshHash get_row reading]. rewrite Hs. run_step.
  rewrite bool_decide_true by done. simpl.
  rewrite (proj2 (Z.ltb_ge _ _)) by by apply Hexp.
  rewrite run_bind, (run_db_undisturbed id tok q n) by (done || lia).
  cbn [fst snd w_db GetSession GetSessionRefreshHash get_row reading]. rewrite Hs. simpl.
  rewrite Hh, (proj2 (str_eqb_eq _ _)) by done. simpl. rewrite run_bind.
  rewrite (run_db_rival id tok q n), Hr by done.
  cbn [snd w_db fst GetUserByID get_row reading].
  rewrite Hw. simpl. rewrite Hu. simpl. rewrite Hd. run_step. unfold NewRefreshToken. run_step.
  rewrite (run_db_undisturbed id tok q n) by (done || lia). simpl.
  eexists _, _. split; [done|]. simpl. by rewrite !lookup_alter_eq, Hs.
Qed.
End race.

(** ** Witnesses *)

Lemma loadPrincipal_lifecycle_witness :
  let run n := @loadPrincipal quiet_env toy_cfg (MkClaims 1 7 "ada") (World n toy_store) in
  is_ok (run 0%nat).1 = true ∧ torn_down 7%N (w_db (run 25%nat).2).
Proof.
  split; [by vm_compute|].
  refine (proj2 (@loadPrincipal_lifecycle quiet_env _ toy_cfg (MkClaims 1 7 "ada") 25%nat toy_store _)
    ErrSessionInvalid toy_session _ _ _ _); by vm_compute.
Defined.

Definition toy_req (path : string) : http_req := HttpReq path "Bearer jwt" "" None.

Lemma RequireAuth_serves_witness :
  let run path := (@RequireAuth quiet_env toy_auth toy_cfg (λ _, None) (toy_req path)
                     (World 0 toy_store)).1 in
  run "/api/v1/hosts" = Refuse 403 "password change required" ∧
  ∃ p, run "/api/v1/auth/password" = Serve p (Some 1%N) ∧ UserID p = 1%N.
Proof.
  split; [by vm_compute|]. eexists. split; [by vm_compute|].
  destruct (@RequireAuth_serves quiet_env _ toy_auth toy_cfg (λ _, None)
    (toy_req "/api/v1/auth/password") 0 toy_store _ _ eq_refl)
    as [[? _]|(_ & _ & _ & [(? & ? & ? & ? & ? & ? & ? & ? & ? & ? & Hp)|(c & ? & ? & Hc & ? & ? & ? & ? & Hp)])]; [done| |].
  all: by vm_compute.
Defined.

Lemma refresh_replay_revokes_witness :
  let r1 := @Refresh quiet_env toy_auth toy_cfg 7%N "t" (World 0 toy_store) in
  is_ok r1.1 = true ∧ (@Refresh quiet_env toy_auth toy_cfg 7%N "t" r1.2).1 = Err ErrSessionInvalid.
Proof.
  split; [by vm_compute|].
  refine (proj1 (proj2 (@refresh_replay_revokes quiet_env _ toy_auth toy_cfg 7%N "t" "t" 0 toy_store
    (MkTokens (new_token 4) 7 1) _ 0 _ _ _ _))).
  - done.
  - intros a b Hab. simpl. lia.
  - by vm_compute.
  - by vm_compute.
Defined.

Lemma authenticate_lockout_witness :
  let r := @mapM _ _ _ _ _ (@Authenticate quiet_env toy_auth "ada") ["a"; "b"; "c"; "d"; "e"] (World 0 toy_store) in
  (@Authenticate quiet_env toy_auth "ada" "pw" (World 0 toy_store)).1 = Ok (1%N, toy_user) ∧
  (@Authenticate quiet_env toy_auth "ada" "pw" (World 30 (w_db r.2))).1 = Err ErrAccountLocked.
Proof.
  split; [by vm_compute|].
  destruct (@authenticate_lockout quiet_env _ toy_auth "ada" 1%N toy_user "pw"
    ["a"; "b"; "c"; "d"; "e"] 0 toy_store) as [_ (k & _ & Hk)].
  - done.
  - split; [done|]. intros id' u'. simpl. intros [<- <-]%lookup_singleton_Some. by vm_compute.
  - split_and!; [done|by right|done].
  - done.
  - intros pw. rewrite !elem_of_cons, elem_of_nil. intros [->|[->|[->|[->|[->|[]]]]]]; by vm_compute.
  - done.
  - done.
  - rewrite Hk; [done|]. unfold lock_policy. simpl. unfold minute, second. lia.
Defined.

Lemma destroyUserSessions_spec_witness :
  torn_down 7%N (w_db (@destroyUserSessions quiet_env 1%N uuid_nil (World 0 toy_store)).2).
Proof.
  refine (proj1 (@destroyUserSessions_spec quiet_env _ 1%N uuid_nil 0 toy_store _) 7%N toy_session
    _ _ _ _); [done..|by left].
Defined.

Lemma ReapStaleSessions_spec_witness :
  torn_down 7%N (w_db (@ReapStaleSessions quiet_env toy_cfg (World 25 toy_store)).2).
Proof.
  refine (proj1 (@ReapStaleSessions_spec quiet_env _ toy_cfg 25 toy_store _ _) 7%N toy_session _ _);
    [done|by left|done|]. split_and!; [done|by vm_compute|by left].
Defined.

#[local] Instance racing : Env store := MkEnv _ (λ _, false) Z.of_nat (λ k x,
  if bool_decide (k = 3)%nat
  then w_db (@Refresh quiet_env toy_auth toy_cfg 7%N "t" (World 10 x)).2 else x).

Lemma refresh_race_witness :
  is_ok (@Refresh quiet_env toy_auth toy_cfg 7%N "t" (World 10 toy_store)).1 = true ∧
  ∃ t w, @Refresh racing toy_auth toy_cfg 7%N "t" (World 0 toy_store) = (Ok t, w).
Proof.
  split; [by vm_compute|].
  destruct (@refresh_race racing toy_auth toy_cfg 7%N "t" 10 0 toy_store (MkTokens (new_token 14) 7 1)
    (@Refresh quiet_env toy_auth toy_cfg 7%N "t" (World 10 toy_store)).2) as (t & w & Hr & _).
  - done.
  - by intros k x.
  - by vm_compute.
  - intros sess. simpl. intros [= <-]. by vm_compute.
  - by exists t, w.
Defined.
