(* ===== verification/Accounts.v ===== *)
(** Account administration: the user, role and session-policy handlers of [admin], the password
    change of [auth/handlers.go], the first-run wizard of [bootstrap], over [store/users.go] and
    [store/rbac.go]. It runs on the tables of [AuthSession], whose programs it calls. *)
From stdpp Require Import pretty.
From S2P Require Import Prelude AuthSession.

(** * The statements of [store/users.go] *)
Record CreateUserParams := MkCreateUser {
  cu_name : string; cu_email : string; cu_display : string; cu_hash : string;
  cu_super : bool; cu_must : bool; cu_source : string;
}.

Definition new_user (p : CreateUserParams) : user :=
  User (cu_name p) false (if str_eqb (cu_source p) "" then "local" else cu_source p) (cu_super p)
    (cu_must p) ProviderTenantID false 0 None (Some (cu_hash p)) (cu_email p) (cu_display p) false.

Section statements.
Context `{!AuthLib}.

(** The unique columns [username] and [email] (NULL when empty). *)
Definition email_clash (email : string) (u : user) : bool :=
  negb (str_eqb email "") && negb (str_eqb (u_email u) "") && citext_eq (u_email u) email.
Definition clash (p : CreateUserParams) (u : user) : bool :=
  citext_eq (u_name u) (cu_name p) || email_clash (cu_email p) u.

Definition CountUsers (now : Z) (s : store) : res store_error nat * store := (Ok (size (users s)), s).

Definition insertUser (p : CreateUserParams) (s : store) : res store_error (uuid * user) * store :=
  if existsb (λ ku, clash p ku.2) (map_to_list (users s)) then (Err ErrDB, s)
  else
    let id := fresh (dom (users s)) in
    (Ok (id, new_user p), set_users s (<[id := new_user p]> (users s))).
Definition CreateUser (p : CreateUserParams) (now : Z) (s : store)
    : res store_error (uuid * user) * store := insertUser p s.

(** The count and the insert are one transaction under a lock; [None] is [ErrUsersExist]. *)
Definition CreateInitialSuperAdmin (p : CreateUserParams) (now : Z) (s : store)
    : res store_error (option (uuid * user)) * store :=
  if bool_decide (size (users s) ≠ 0%nat) then (Ok None, s)
  else
    let q := MkCreateUser (cu_name p) (cu_email p) (cu_display p) (cu_hash p) true (cu_must p) (cu_source p) in
    let '(r, s') := insertUser q s in
    (match r with Ok a => Ok (Some a) | Err e => Err e end, s').

Definition with_profile (email display : string) (disabled : bool) (u : user) : user :=
  User (u_name u) disabled (u_source u) (u_super u) (u_must_change u) (u_tenant u) (u_service u)
    (u_failed u) (u_locked_until u) (u_hash u) email display (u_require_mfa u).
Definition UpdateUser (id : uuid) (email display : string) (disabled : bool) (now : Z) (s : store)
    : res store_error unit * store :=
  if bool_decide (is_Some (users s !! id)) &&
     existsb (λ ku, email_clash email ku.2) (map_to_list (delete id (users s)))
  then (Err ErrDB, s)
  else (Ok tt, set_users s (alter (with_profile email display disabled) id (users s))).
End statements.

(** The row and what refers to it with ON DELETE CASCADE. *)
Definition DeleteUser (id : uuid) (now : Z) (s : store) : res store_error unit * store :=
  (Ok tt, Store (delete id (users s)) (filter (λ kr, s_user kr.2 ≠ id) (sessions s))
     (filter (λ kt, t_account kt.2 ≠ id) (api_tokens s)) (lockout s) (global_policy s)
     (delete id (user_policies s)) (live s)
     (Rbac (roles (rb s)) (catalog (rb s)) (role_perms (rb s))
        (filter (λ ur : uuid * uuid, ur.1 ≠ id) (user_roles (rb s))))
     (MfaTables (filter (λ kf, f_user kf.2 ≠ id) (factors (mfa s)))
        (filter (λ kc, rc_user kc.2 ≠ id) (recovery (mfa s))) (delete id (totp_steps (mfa s)))
        (require_mfa (mfa s)) (events (mfa s))) (pw_policy s) (audits s)).

(** [UPDATE users SET ... WHERE id=$1]. *)
Definition update_row (f : user → user) (id : uuid) (now : Z) (s : store) : res store_error unit * store :=
  (Ok tt, set_users s (alter f id (users s))).

Definition with_disabled (b : bool) (u : user) : user :=
  User (u_name u) b (u_source u) (u_super u) (u_must_change u) (u_tenant u) (u_service u)
    (u_failed u) (u_locked_until u) (u_hash u) (u_email u) (u_display u) (u_require_mfa u).
Definition SetDisabled (id : uuid) (disabled : bool) := update_row (with_disabled disabled) id.
Definition with_super (b : bool) (u : user) : user :=
  User (u_name u) (u_disabled u) (u_source u) b (u_must_change u) (u_tenant u) (u_service u)
    (u_failed u) (u_locked_until u) (u_hash u) (u_email u) (u_display u) (u_require_mfa u).
Definition SetSuperAdmin (id : uuid) (super : bool) := update_row (with_super super) id.
Definition with_must_change (b : bool) (u : user) : user :=
  User (u_name u) (u_disabled u) (u_source u) (u_super u) b (u_tenant u) (u_service u)
    (u_failed u) (u_locked_until u) (u_hash u) (u_email u) (u_display u) (u_require_mfa u).
Definition SetMustChangePassword (id : uuid) (must : bool) := update_row (with_must_change must) id.
Definition with_require_mfa (b : bool) (u : user) : user :=
  User (u_name u) (u_disabled u) (u_source u) (u_super u) (u_must_change u) (u_tenant u) (u_service u)
    (u_failed u) (u_locked_until u) (u_hash u) (u_email u) (u_display u) b.
Definition SetUserRequireMFA (id : uuid) (require : bool) := update_row (with_require_mfa require) id.

Definition active_super (u : user) : bool := u_super u && negb (u_disabled u).
Definition active_supers (s : store) : gmap uuid user := filter (λ ku, active_super ku.2 = true) (users s).
Definition CountActiveSuperAdmins (now : Z) (s : store) : res store_error nat * store :=
  (Ok (size (active_supers s)), s).

(** [store/mfa.go] *)
Definition ResetUserMFA (id : uuid) (now : Z) (s : store) : res store_error unit * store :=
  (Ok tt, set_factors s (filter (λ kf, f_user kf.2 ≠ id) (factors (mfa s)))).

Definition AppendAudit (action : string) (actor : option uuid) (now : Z) (s : store)
    : res store_error unit * store := (Ok tt, set_audits s ((action, actor) :: audits s)).

(** * The statements of [store/rbac.go] *)
Definition set_roles (s : store) m := set_rb s (Rbac m (catalog (rb s)) (role_perms (rb s)) (user_roles (rb s))).
Definition set_role_perms (s : store) m := set_rb s (Rbac (roles (rb s)) (catalog (rb s)) m (user_roles (rb s))).
Definition set_user_roles (s : store) m := set_rb s (Rbac (roles (rb s)) (catalog (rb s)) (role_perms (rb s)) m).

Definition ListPermissions (now : Z) (s : store) : res store_error (gset string) * store :=
  (Ok (catalog (rb s)), s).
Definition role_ids (name : string) (s : store) : list uuid :=
  (map_to_list (filter (λ kr, r_name kr.2 = name) (roles (rb s)))).*1.
Definition GetRoleByName (name : string) : Z → store → res store_error (uuid * role) * store :=
  get_row (λ s, head (map_to_list (filter (λ kr, r_name kr.2 = name) (roles (rb s))))).
Definition CreateRole (name description : string) (now : Z) (s : store)
    : res store_error (uuid * role) * store :=
  if bool_decide (role_ids name s = []) then
    let id := fresh (dom (roles (rb s))) in
    (Ok (id, Role name description false), set_roles s (<[id := Role name description false]> (roles (rb s))))
  else (Err ErrDB, s).
Definition DeleteRole (id : uuid) (now : Z) (s : store) : res store_error unit * store :=
  match roles (rb s) !! id with
  | Some r =>
    if r_builtin r then (Ok tt, s)
    else (Ok tt, set_rb s (Rbac (delete id (roles (rb s))) (catalog (rb s))
                    (filter (λ rp : uuid * string, rp.1 ≠ id) (role_perms (rb s)))
                    (filter (λ ur : uuid * uuid, ur.2 ≠ id) (user_roles (rb s)))))
  | None => (Ok tt, s)
  end.
Definition RolePermissions (id : uuid) (now : Z) (s : store) : res store_error (gset string) * store :=
  (Ok (perms_of_role (rb s) id), s).
Definition SetRolePermissions (id : uuid) (keys : list string) (now : Z) (s : store)
    : res store_error unit * store :=
  if bool_decide (keys = []) || (bool_decide (is_Some (roles (rb s) !! id)) &&
       forallb (λ k, bool_decide (k ∈ catalog (rb s))) keys)
  then (Ok tt, set_role_perms s (filter (λ rp : uuid * string, rp.1 ≠ id) (role_perms (rb s)) ∪
                  set_map (pair id) (list_to_set keys : gset string)))
  else (Err ErrDB, s).
Definition AssignRole (user role : uuid) (now : Z) (s : store) : res store_error unit * store :=
  if bool_decide (is_Some (users s !! user)) && bool_decide (is_Some (roles (rb s) !! role))
  then (Ok tt, set_user_roles s ({[(user, role)]} ∪ user_roles (rb s)))
  else (Err ErrDB, s).
Definition AssignRoleByName (user : uuid) (name : string) (now : Z) (s : store)
    : res store_error unit * store :=
  match role_ids name s with
  | [] => (Ok tt, s)
  | ids => if bool_decide (is_Some (users s !! user))
           then (Ok tt, set_user_roles s (list_to_set (pair user <$> ids) ∪ user_roles (rb s)))
           else (Err ErrDB, s)
  end.
(** The empty name when there is no such role. *)
Definition RoleName (id : uuid) (now : Z) (s : store) : res store_error string * store :=
  (Ok (match roles (rb s) !! id with Some r => r_name r | None => "" end), s).
Definition RemoveRole (user role : uuid) (now : Z) (s : store) : res store_error unit * store :=
  (Ok tt, set_user_roles s (user_roles (rb s) ∖ {[(user, role)]})).
Definition RemoveRoleByName (user : uuid) (name : string) (now : Z) (s : store)
    : res store_error unit * store :=
  (Ok tt, set_user_roles s (user_roles (rb s) ∖ list_to_set (pair user <$> role_ids name s))).
Definition UserRoleNames (user : uuid) (now : Z) (s : store) : res store_error (list string) * store :=
  (Ok ((r_name ∘ snd) <$> map_to_list (filter (λ kr, (user, kr.1) ∈ user_roles (rb s)) (roles (rb s)))), s).

(** * Validation ([admin/admin.go])

    The checks range over runes; a byte below 128 is its own rune in UTF-8, and every other rune is
    above 127. *)
Definition byte_ok (f : nat → bool) (s : string) : bool :=
  forallb (λ c, f (Ascii.nat_of_ascii c)) (String.list_ascii_of_string s).

Definition between (lo hi n : nat) : bool := Nat.leb lo n && Nat.leb n hi.
(** [a-z A-Z 0-9 . _ - @ +] *)
Definition username_byte (n : nat) : bool :=
  between 97 122 n || between 65 90 n || between 48 57 n ||
  bool_decide (n ∈ [46; 95; 45; 64; 43]%nat).
Definition validUsername (s : string) : bool :=
  negb (str_eqb s "" || Nat.ltb 64 (String.length s)) && byte_ok username_byte s.

(** Control bytes, space, DEL, comma and semicolon are refused. *)
Definition email_byte (n : nat) : bool :=
  negb (Nat.leb n 32 || bool_decide (n ∈ [127; 44; 59]%nat)).
Definition validEmail (s : string) : bool :=
  if str_eqb s "" then true
  else if Nat.ltb 320 (String.length s) then false
  else if negb (byte_ok email_byte s) then false
  else match String.index 0 "@" s with
       | Some at_ => Nat.ltb 0 at_ && Nat.ltb at_ (String.length s - 1)
       | None => false
       end.

(** * Handlers *)

(** The early returns of a handler: an id that does not parse, a guard that wrote its refusal, a
    statement that failed. *)
Section flow.
Context {T A : Type} `{!Env T}.
Definition with_id (idp : option uuid) (msg : string) (k : uuid → M T (reply A)) : M T (reply A) :=
  match idp with None => mret (WriteError 400 msg) | Some id => k id end.
Definition guarded (g : M T (option (Z * string))) (k : M T (reply A)) : M T (reply A) :=
  r ← g; match r with Some (c, m) => mret (WriteError c m) | None => k end.
Definition checked {B} (f : Z → T → res store_error B * T) (code : Z) (msg : string)
    (k : B → M T (reply A)) : M T (reply A) :=
  r ← db f; match r with Err _ => mret (WriteError code msg) | Ok b => k b end.
Definition refuse_if (b : bool) (code : Z) (msg : string) (k : M T (reply A)) : M T (reply A) :=
  if b then mret (WriteError code msg) else k.

Lemma guarded_ret (r : option (Z * string)) (k : M T (reply A)) :
  guarded (mret r) k = match r with Some (c, m) => mret (WriteError c m) | None => k end.
Proof. by destruct r as [[c m]|]. Qed.
End flow.

Definition superAdminRoleName : string := "Super Administrator".

Record createUserReq := MkCreateReq {
  rq_name : string; rq_email : string; rq_display : string; rq_password : string;
  rq_super : bool; rq_must : bool;
}.

Section handlers.
Context `{!Env store, !AuthLib, !Unicode}.
(** The principal [MustPrincipal] returns behind [RequireAuth]. *)
Context (p : Principal).

Definition audit (action : string) : M store unit := _ ← db (AppendAudit action (Some (UserID p))); mret tt.

(** ** Guards *)
Definition guardGrantable (perms : list string) : option (Z * string) :=
  match List.find (λ k, negb (Has p k)) perms with
  | Some k => Some (403, "you cannot grant a permission you do not hold: " +:+ k)
  | None => None
  end.

Definition guardSuperTarget (target : uuid) : M store (option (Z * string)) :=
  if IsSuperAdmin p then mret None
  else
    t ← db (GetUserByID target);
    mret (match t with
          | Ok t => if u_super t then
                      Some (403, "only a super administrator may modify a super-administrator account")
                    else None
          | Err _ => None
          end).

Definition guardLastSuper (target : uuid) (verb : string) : M store (option (Z * string)) :=
  t ← db (GetUserByID target);
  match t with
  | Err _ => mret None
  | Ok t =>
    if negb (u_super t) || u_disabled t then mret None
    else
      n ← db CountActiveSuperAdmins;
      mret (match n with
            | Ok n => if bool_decide (n ≤ 1)%nat then
                        Some (400, "cannot " +:+ verb +:+ " the last active super administrator")
                      else None
            | Err _ => None
            end)
  end.

(** ** Accounts ([admin/users.go]) *)
Definition getUser (idp : option uuid) : M store (reply (user * list string)) :=
  with_id idp "invalid user id" (λ id,
  checked (GetUserByID id) 404 "user not found" (λ u,
  r ← db (UserRoleNames id);
  mret (WriteJSON 200 (u, match r with Ok l => l | Err _ => [] end)))).

Definition createUser (rq : option createUserReq) : M store (reply (uuid * user)) :=
  match rq with
  | None => mret (WriteError 400 "username is required")
  | Some rq =>
    refuse_if (str_eqb (rq_name rq) "") 400 "username is required" (
    refuse_if (negb (validUsername (rq_name rq))) 400 "username contains invalid characters or is too long" (
    refuse_if (str_eqb (rq_password rq) "") 400 "password is required" (
    refuse_if (rq_super rq && negb (IsSuperAdmin p)) 403
      "only a super administrator may create a super administrator" (
    refuse_if (negb (validEmail (rq_email rq))) 400 "invalid email address" (
    pol ← PasswordPolicy_read;
    match Validate pol (rq_password rq) with
    | Some msg => mret (WriteError 400 msg)
    | None =>
      match HashPassword (rq_password rq) with
      | None => mret (WriteError 500 "hash failed")
      | Some hash =>
        checked (CreateUser (MkCreateUser (rq_name rq) (rq_email rq) (rq_display rq) hash
                   (rq_super rq) (rq_must rq) "")) 500 "could not create user" (λ u,
        _ ← (if rq_super rq then _ ← db (AssignRoleByName u.1 superAdminRoleName); mret tt else mret tt);
        _ ← audit "user.create";
        mret (WriteJSON 201 u))
      end
    end)))))
  end.

(** The body is [email], [displayName] and [isDisabled]. *)
Definition updateUser (idp : option uuid) (rq : option (string * string * bool)) : M store (reply unit) :=
  with_id idp "invalid user id" (λ id,
  guarded (guardSuperTarget id) (
  match rq with
  | None => mret (WriteError 400 "invalid request body")
  | Some (email, display, disabled) =>
    guarded (if disabled then guardLastSuper id "disable" else mret None) (
    checked (UpdateUser id email display disabled) 500 "could not update user" (λ _,
    _ ← audit "user.update";
    mret (WriteJSON 200 tt)))
  end)).

Definition deleteUser (idp : option uuid) : M store (reply unit) :=
  with_id idp "invalid user id" (λ id,
  guarded (guardSuperTarget id) (
  guarded (guardLastSuper id "delete") (
  _ ← DestroyUserSessions id;
  checked (DeleteUser id) 500 "could not delete user" (λ _,
  _ ← audit "user.delete";
  mret (WriteJSON 200 tt))))).

(** A body that does not decode leaves the default, which disables. *)
Definition disableUser (idp : option uuid) (rq : option bool) : M store (reply bool) :=
  with_id idp "invalid user id" (λ id,
  guarded (guardSuperTarget id) (
  let disabled := default true rq in
  guarded (if disabled then guardLastSuper id "disable" else mret None) (
  checked (SetDisabled id disabled) 500 "could not update user" (λ _,
  _ ← (if disabled then DestroyUserSessions id else mret tt);
  _ ← audit "user.set_disabled";
  mret (WriteJSON 200 disabled))))).

Definition setSuperAdmin (idp : option uuid) (rq : option bool) : M store (reply bool) :=
  with_id idp "invalid user id" (λ id,
  refuse_if (negb (IsSuperAdmin p)) 403
    "only a super administrator may grant or revoke super-administrator status" (
  match rq with
  | None => mret (WriteError 400 "invalid request body")
  | Some super =>
    guarded (if super then mret None else guardLastSuper id "demote") (
    checked (SetSuperAdmin id super) 500 "could not update user" (λ _,
    _ ← db (if super then AssignRoleByName id superAdminRoleName
            else RemoveRoleByName id superAdminRoleName);
    _ ← audit "user.set_super_admin";
    mret (WriteJSON 200 super)))
  end)).

(** A guarded statement about one user, audited. *)
Definition unlockUser (idp : option uuid) : M store (reply unit) :=
  with_id idp "invalid user id" (λ id,
  guarded (guardSuperTarget id) (
  checked (Unlock id) 500 "could not unlock user" (λ _,
  _ ← audit "user.unlock"; mret (WriteJSON 200 tt)))).

Definition resetPassword (idp : option uuid) (rq : option (string * bool)) : M store (reply unit) :=
  with_id idp "invalid user id" (λ id,
  guarded (guardSuperTarget id) (
  match rq with
  | None => mret (WriteError 400 "newPassword is required")
  | Some (pw, must) =>
    refuse_if (str_eqb pw "") 400 "newPassword is required" (
    pol ← PasswordPolicy_read;
    match Validate pol pw with
    | Some msg => mret (WriteError 400 msg)
    | None =>
      match HashPassword pw with
      | None => mret (WriteError 500 "hash failed")
      | Some hash =>
        checked (SetPasswordHash id hash) 500 "could not reset password" (λ _,
        guarded (if must then
                   r ← db (SetMustChangePassword id true);
                   mret (match r with Ok _ => None | Err _ => Some (500, "could not flag password change") end)
                 else mret None) (
        _ ← DestroyUserSessions id;
        _ ← audit "user.reset_password";
        mret (WriteJSON 200 tt)))
      end
    end)
  end)).

Definition resetMFA (idp : option uuid) : M store (reply unit) :=
  with_id idp "invalid user id" (λ id,
  guarded (guardSuperTarget id) (
  checked (ResetUserMFA id) 500 "could not reset mfa" (λ _,
  _ ← audit "user.reset_mfa"; mret (WriteJSON 200 tt)))).

Definition terminateSessions (idp : option uuid) : M store (reply unit) :=
  with_id idp "invalid user id" (λ id,
  guarded (guardSuperTarget id) (
  _ ← DestroyUserSessions id;
  _ ← audit "user.terminate_sessions"; mret (WriteJSON 200 tt))).

Definition setRequireMFA (idp : option uuid) (rq : option bool) : M store (reply bool) :=
  with_id idp "invalid user id" (λ id,
  guarded (guardSuperTarget id) (
  match rq with
  | None => mret (WriteError 400 "invalid request body")
  | Some require =>
    checked (SetUserRequireMFA id require) 500 "could not update user" (λ _,
    _ ← audit "user.require_mfa"; mret (WriteJSON 200 require))
  end)).

(** ** Roles of a user *)
Definition with_ids (u r : option uuid) (k : uuid → uuid → M store (reply unit)) : M store (reply unit) :=
  match u, r with Some u, Some r => k u r | _, _ => mret (WriteError 400 "invalid id") end.

(** The promotion or demotion that goes with the built-in role; the reads' errors are dropped. *)
Definition super_role_rules (user role : uuid) (super : bool) (msg : string)
    (k : M store (reply unit)) : M store (reply unit) :=
  name ← db (RoleName role);
  if str_eqb (match name with Ok n => n | Err _ => "" end) superAdminRoleName then
    refuse_if (negb (IsSuperAdmin p)) 403
      "only a super administrator may grant or revoke super-administrator status" (
    guarded (if super then mret None else guardLastSuper user "demote") (
    checked (SetSuperAdmin user super) 500 msg (λ _, k)))
  else k.

Definition assignRole (userp rolep : option uuid) : M store (reply unit) :=
  with_ids userp rolep (λ user role,
  perms ← db (RolePermissions role);
  guarded (mret (guardGrantable (elements (match perms with Ok l => l | Err _ => ∅ end)))) (
  super_role_rules user role true "could not assign role" (
  checked (AssignRole user role) 500 "could not assign role" (λ _,
  _ ← audit "user.role_assign"; mret (WriteJSON 200 tt))))).

Definition removeRole (userp rolep : option uuid) : M store (reply unit) :=
  with_ids userp rolep (λ user role,
  super_role_rules user role false "could not remove role" (
  checked (RemoveRole user role) 500 "could not remove role" (λ _,
  _ ← audit "user.role_remove"; mret (WriteJSON 200 tt)))).

(** ** Roles ([admin/roles.go]) *)
Definition createRole (rq : option (string * string)) : M store (reply (uuid * role)) :=
  match rq with
  | None => mret (WriteError 400 "name is required")
  | Some (name, description) =>
    refuse_if (str_eqb name "") 400 "name is required" (
    checked (CreateRole name description) 500 "could not create role" (λ r,
    _ ← audit "role.create"; mret (WriteJSON 201 r)))
  end.

Definition deleteRole (idp : option uuid) : M store (reply unit) :=
  with_id idp "invalid role id" (λ id,
  checked (DeleteRole id) 500 "could not delete role" (λ _,
  _ ← audit "role.delete"; mret (WriteJSON 200 tt))).

Definition setRolePermissions (idp : option uuid) (rq : option (list string)) : M store (reply unit) :=
  with_id idp "invalid role id" (λ id,
  match rq with
  | None => mret (WriteError 400 "invalid request body")
  | Some perms =>
    guarded (mret (guardGrantable perms)) (
    checked (SetRolePermissions id perms) 500 "could not set permissions" (λ _,
    _ ← audit "role.set_permissions"; mret (WriteJSON 200 tt)))
  end).

Definition listPermissions : M store (reply (gset string)) :=
  checked ListPermissions 500 "could not list permissions" (λ l, mret (WriteJSON 200 l)).

(** ** Session policies ([admin/sessionpolicy.go]) *)
Context (parse_cidr : string → bool).

Fixpoint validateAllowlist (entries : list string) : string :=
  match entries with
  | [] => ""
  | c :: l =>
    let c := TrimSpace c in
    if str_eqb c "" then validateAllowlist l
    else if contains_sub "/" c then
      if parse_cidr c then validateAllowlist l else "invalid CIDR in allowlist: " +:+ c
    else match parse_ip c with
         | None => "invalid IP in allowlist: " +:+ c
         | Some _ => validateAllowlist l
         end
  end.

(** The guard on the global policy; [ipInAllowlist] is the service's [ipAllowed]. *)
Definition validateSessionPolicy (pol : option SessionPolicy) (saverIP : string) : string :=
  match pol with
  | None => "invalid session policy"
  | Some pol =>
    if MaxConcurrentSessions pol <? 0 then "maximum concurrent sessions cannot be negative"
    else
      let msg := validateAllowlist (IPAllowlist pol) in
      if negb (str_eqb msg "") then msg
      else if negb (bool_decide (IPAllowlist pol = [])) && negb (ipAllowed saverIP (IPAllowlist pol))
      then "this allowlist does not include your current IP address"
      else ""
  end.

Definition getUserSessionPolicy (idp : option uuid)
    : M store (reply (option UserSessionPolicy * SessionPolicy)) :=
  with_id idp "invalid user id" (λ id,
  checked (GetUserSessionPolicy id) 500 "could not load policy" (λ o,
  g ← SessionPolicy_read; mret (WriteJSON 200 (o, g)))).

Definition setUserSessionPolicy (clientIP : string) (idp : option uuid) (rq : option UserSessionPolicy)
    : M store (reply unit) :=
  with_id idp "invalid user id" (λ id,
  match rq with
  | None => mret (WriteError 400 "invalid request body")
  | Some rq =>
    refuse_if (match up_max rq with Some m => m <? 0 | None => false end) 400
      "maximum concurrent sessions cannot be negative" (
    let refusal := match up_allow rq with
                   | None => ""
                   | Some l =>
                     let msg := validateAllowlist l in
                     if negb (str_eqb msg "") then msg
                     else if bool_decide (UserID p = id) && negb (bool_decide (l = [])) &&
                             negb (ipAllowed clientIP l)
                     then "this allowlist does not include your current IP address" else ""
                   end in
    refuse_if (negb (str_eqb refusal "")) 400 refusal (
    checked (SetUserSessionPolicy id rq) 500 "could not save policy" (λ _,
    _ ← audit "user.session_policy_set"; mret (WriteJSON 200 tt))))
  end).

Definition clearUserSessionPolicy (idp : option uuid) : M store (reply unit) :=
  with_id idp "invalid user id" (λ id,
  checked (DeleteUserSessionPolicy id) 500 "could not clear policy" (λ _,
  _ ← audit "user.session_policy_clear"; mret (WriteJSON 200 tt))).

(** [changePassword] of [auth/handlers.go], for the caller's own account. *)
Definition changePassword (rq : option (string * string)) : M store (reply unit) :=
  match rq with
  | None => mret (WriteError 400 "invalid request body")
  | Some (current, new) =>
    checked (GetPasswordHash (UserID p)) 500 "lookup failed" (λ hash,
    refuse_if (negb (match VerifyPassword current hash with Ok b => b | Err _ => false end)) 401
      "current password is incorrect" (
    pol ← PasswordPolicy_read;
    match Validate pol new with
    | Some msg => mret (WriteError 400 msg)
    | None =>
      match HashPassword new with
      | None => mret (WriteError 500 "hash failed")
      | Some h =>
        checked (SetPasswordHash (UserID p) h) 500 "update failed" (λ _,
        _ ← DestroyUserSessionsExcept (UserID p) (SessionID p);
        _ ← audit "auth.password_change"; mret (WriteJSON 200 tt))
      end
    end))
  end.
End handlers.

(** * The first-run wizard ([bootstrap/bootstrap.go]) *)
Section bootstrap.
Context `{!Env store, !AuthLib, !Unicode}.
Context (AllowBootstrap : bool).

Definition available : M store (res store_error bool) :=
  if negb AllowBootstrap then mret (Ok false)
  else n ← db CountUsers;
       mret (match n with Ok n => Ok (bool_decide (n = 0%nat)) | Err e => Err e end).

Definition status : M store (reply bool) :=
  ok ← available;
  mret (match ok with Ok b => WriteJSON 200 b | Err _ => WriteError 500 "status check failed" end).

Definition init (rq : option createUserReq) : M store (reply (uuid * user)) :=
  ok ← available;
  match ok with
  | Err _ => mret (WriteError 500 "status check failed")
  | Ok false => mret (WriteError 409 "bootstrap is no longer available")
  | Ok true =>
    match rq with
    | None => mret (WriteError 400 "invalid request body")
    | Some rq =>
      refuse_if (str_eqb (rq_name rq) "") 400 "username is required" (
      match Validate DefaultPolicy (rq_password rq) with
      | Some msg => mret (WriteError 400 msg)
      | None =>
        match HashPassword (rq_password rq) with
        | None => mret (WriteError 500 "hash failed")
        | Some hash =>
          checked (CreateInitialSuperAdmin (MkCreateUser (rq_name rq) (rq_email rq) (rq_display rq)
                     hash false false "")) 500 "could not create administrator" (λ r,
          match r with
          | None => mret (WriteError 409 "bootstrap is no longer available")
          | Some u =>
            _ ← db (AssignRoleByName u.1 superAdminRoleName);
            _ ← db (AppendAudit "bootstrap.init" (Some u.1));
            mret (WriteJSON 201 u)
          end)
        end
      end)
    end
  end.
End bootstrap.

(** * The routes behind their permissions ([admin.Mount]) *)
Inductive op :=
| OpCreateUser (rq : option createUserReq) | OpUpdateUser (id : option uuid) (rq : option (string * string * bool))
| OpDeleteUser (id : option uuid) | OpDisableUser (id : option uuid) (rq : option bool)
| OpSetSuperAdmin (id : option uuid) (rq : option bool) | OpUnlockUser (id : option uuid)
| OpResetPassword (id : option uuid) (rq : option (string * bool)) | OpResetMFA (id : option uuid)
| OpTerminateSessions (id : option uuid) | OpSetRequireMFA (id : option uuid) (rq : option bool)
| OpAssignRole (u r : option uuid) | OpRemoveRole (u r : option uuid)
| OpCreateRole (rq : option (string * string)) | OpDeleteRole (id : option uuid)
| OpSetRolePermissions (id : option uuid) (rq : option (list string))
| OpSetUserSessionPolicy (ip : string) (id : option uuid) (rq : option UserSessionPolicy)
| OpClearUserSessionPolicy (id : option uuid).

Section serve.
Context `{!Env store, !AuthLib, !Unicode} (parse_cidr : string → bool) (p : Principal).
Definition gate {A} (perm : string) (k : M store A) : M store unit :=
  if Has p perm then _ ← k; mret tt else mret tt.
Definition serve (o : op) : M store unit :=
  match o with
  | OpCreateUser rq => gate "User.Create" (createUser p rq)
  | OpUpdateUser id rq => gate "User.Edit" (updateUser p id rq)
  | OpDeleteUser id => gate "User.Delete" (deleteUser p id)
  | OpDisableUser id rq => gate "User.Edit" (disableUser p id rq)
  | OpSetSuperAdmin id rq => gate "User.Edit" (setSuperAdmin p id rq)
  | OpUnlockUser id => gate "User.Edit" (unlockUser p id)
  | OpResetPassword id rq => gate "User.ResetPassword" (resetPassword p id rq)
  | OpResetMFA id => gate "User.ResetPassword" (resetMFA p id)
  | OpTerminateSessions id => gate "Session.Terminate" (terminateSessions p id)
  | OpSetRequireMFA id rq => gate "User.Edit" (setRequireMFA p id rq)
  | OpAssignRole u r => gate "Role.Edit" (assignRole p u r)
  | OpRemoveRole u r => gate "Role.Edit" (removeRole p u r)
  | OpCreateRole rq => gate "Role.Create" (createRole p rq)
  | OpDeleteRole id => gate "Role.Delete" (deleteRole p id)
  | OpSetRolePermissions id rq => gate "Role.Edit" (setRolePermissions p id rq)
  | OpSetUserSessionPolicy ip id rq => gate "User.Edit" (setUserSessionPolicy p parse_cidr ip id rq)
  | OpClearUserSessionPolicy id => gate "User.Edit" (clearUserSessionPolicy p id)
  end.
End serve.

#[local] Ltac open_serve :=
  unfold serve, gate, createUser, updateUser, deleteUser, disableUser, setSuperAdmin, unlockUser,
    resetPassword, resetMFA, terminateSessions, setRequireMFA, assignRole, removeRole, createRole,
    deleteRole, setRolePermissions, setUserSessionPolicy, clearUserSessionPolicy, with_ids,
    super_role_rules, PasswordPolicy_read, guardLastSuper, guardSuperTarget, audit,
    with_id, guarded, checked, refuse_if.

(** * Proofs: the tables stay well formed *)
Section well_formed.
Context `{!AuthLib}.

Record WF (s : store) : Prop := {
  wf_user_roles u r : (u, r) ∈ user_roles (rb s) → is_Some (users s !! u) ∧ is_Some (roles (rb s) !! r);
  wf_role_perms r k : (r, k) ∈ role_perms (rb s) → is_Some (roles (rb s) !! r) ∧ k ∈ catalog (rb s);
  wf_sessions id r : sessions s !! id = Some r → is_Some (users s !! s_user r);
  wf_factors f r : factors (mfa s) !! f = Some r → is_Some (users s !! f_user r);
  wf_roles r r' a b : roles (rb s) !! r = Some a → roles (rb s) !! r' = Some b → r_name a = r_name b → r = r';
  wf_names u u' a b : users s !! u = Some a → users s !! u' = Some b →
    citext_eq (u_name a) (u_name b) = true → u = u';
}.

(** The names that are given to accounts. *)
Context (ok : string → bool).
(** Only such names appear, the seeded roles and the catalog never change. *)
Definition keeps_names (s s' : store) : Prop := ∀ u a, users s' !! u = Some a →
  (∃ b, users s !! u = Some b ∧ u_name b = u_name a) ∨ ok (u_name a) = true.
Definition keeps_builtin (s s' : store) : Prop := catalog (rb s') = catalog (rb s) ∧
  ∀ r a, roles (rb s) !! r = Some a → r_builtin a = true → roles (rb s') !! r = Some a.
Definition Rwf (s s' : store) : Prop := (WF s → WF s') ∧ keeps_names s s' ∧ keeps_builtin s s'.

#[export] Instance Rwf_preorder : PreOrder Rwf.
Proof.
  split.
  - intros s. split; [done|]. split; [intros u a; left; eauto|by split].
  - intros s1 s2 s3 (H1 & N1 & C1 & B1) (H2 & N2 & C2 & B2). split; [by eauto|]. split.
    + intros u a Ha. destruct (N2 u a Ha) as [(b & Hb & <-)|]; [|by right]. by apply N1.
    + split; [congruence|eauto].
Qed.

(** A step that leaves users, roles, sessions and factors alone, up to rows altered in place. *)
Lemma Rwf_users s f id :
  (∀ u, u_name (f u) = u_name u) → Rwf s (set_users s (alter f id (users s))).
Proof.
  intros Hf.
  assert (∀ u a, alter f id (users s) !! u = Some a → ∃ b, users s !! u = Some b ∧ u_name b = u_name a) as Hn.
  { intros u a. destruct (decide (u = id)) as [->|]; [|rewrite lookup_alter_ne by done; eauto].
    rewrite lookup_alter_eq. intros (b & Hb & ->)%fmap_Some. exists b. by rewrite Hf. }
  assert (∀ u, is_Some (users s !! u) → is_Some (alter f id (users s) !! u)) as Hs.
  { intros u. destruct (decide (u = id)) as [->|]; [|by rewrite lookup_alter_ne].
    rewrite lookup_alter_eq. by intros [b ->]. }
  split; [|split; [intros u a Ha; left; by apply Hn|by split]].
  intros [A B C D E F]. split; simpl; eauto.
  - intros u r Hur. destruct (A u r Hur). eauto.
  - intros u u' a b Ha Hb Heq. destruct (Hn _ _ Ha) as (a' & ? & Ea), (Hn _ _ Hb) as (b' & ? & Eb).
    rewrite <- Ea, <- Eb in Heq. eauto.
Qed.

Lemma Rwf_insert s id u :
  (∀ a b, citext_eq a b = citext_eq b a) → (∀ a, citext_eq a a = true) →
  users s !! id = None → ok (u_name u) = true →
  (∀ u' b, users s !! u' = Some b → citext_eq (u_name b) (u_name u) = false) →
  Rwf s (set_users s (<[id := u]> (users s))).
Proof.
  intros Hsym Hrefl Hid Hv Hno. split; [|split].
  - intros [A B C D E F].
    assert (∀ i, is_Some (users s !! i) → is_Some (<[id := u]> (users s) !! i)) as Hs.
    { intros i Hi. apply lookup_insert_is_Some. destruct (decide (id = i)); auto. }
    split; simpl; eauto.
    + intros i r Hur. destruct (A i r Hur). eauto.
    + intros i j a b Ha Hb Heq.
      apply lookup_insert_Some in Ha as [[-> <-]|[? Ha]]; apply lookup_insert_Some in Hb as [[-> <-]|[? Hb]];
        [done| | |by eauto]; exfalso.
      * rewrite Hsym, (Hno _ _ Hb) in Heq. done.
      * rewrite (Hno _ _ Ha) in Heq. done.
  - intros i a. simpl. intros [[-> <-]|[_ Ha]]%lookup_insert_Some; [by right|left; eauto].
  - by split.
Qed.

(** The other tables. *)
Lemma Rwf_sessions s f : (∀ r, s_user (f r) = s_user r) →
  ∀ id, Rwf s (set_sessions s (alter f id (sessions s))).
Proof.
  intros Hf id. split; [|split; [intros u a; simpl; eauto|by split]].
  intros [A B C D E F]. split; simpl; eauto.
  intros i r. destruct (decide (i = id)) as [->|]; [|rewrite lookup_alter_ne by done; eauto].
  rewrite lookup_alter_eq. intros (r0 & Hr & ->)%fmap_Some. rewrite Hf. eauto.
Qed.

Lemma Rwf_same s s' : users s' = users s → rb s' = rb s → sessions s' = sessions s →
  (∀ f r, factors (mfa s') !! f = Some r → factors (mfa s) !! f = Some r) → Rwf s s'.
Proof.
  intros Hu Hr Hs Hf. split; [|split; [intros u a; rewrite Hu; eauto|by split; rewrite Hr]].
  intros [A B C D E F]. split; rewrite ?Hu, ?Hr, ?Hs; eauto.
Qed.

(** A step of the rbac tables that adds no dangling pair. *)
Lemma Rwf_pairs s rp ur :
  (∀ r k, (r, k) ∈ rp → (r, k) ∈ role_perms (rb s) ∨ (is_Some (roles (rb s) !! r) ∧ k ∈ catalog (rb s))) →
  (∀ u r, (u, r) ∈ ur → (u, r) ∈ user_roles (rb s) ∨ (is_Some (users s !! u) ∧ is_Some (roles (rb s) !! r))) →
  Rwf s (set_rb s (Rbac (roles (rb s)) (catalog (rb s)) rp ur)).
Proof.
  intros Hrp Hur. split; [|split; [intros u a; simpl; eauto|by split]].
  intros [A B C D E F]. split; simpl; eauto.
  - intros u r Hx. destruct (Hur u r Hx); eauto.
  - intros r k Hx. destruct (Hrp r k Hx); eauto.
Qed.
End well_formed.

(** The database compares names up to case: an equivalence. *)
Class CitextLaws `{!AuthLib} := { citext_refl a : citext_eq a a = true; citext_sym a b : citext_eq a b = citext_eq b a }.

Section statements_wf.
Context `{!AuthLib, !CitextLaws} (ok : string → bool).
#[local] Abbreviation Rwf := (Rwf ok).

Lemma existsb_false {A} (f : A → bool) (m : gmap uuid A) :
  existsb (λ ku, f ku.2) (map_to_list m) = false → ∀ i a, m !! i = Some a → f a = false.
Proof.
  intros He i a Ha. apply not_true_is_false. intros Hf. apply (not_true_iff_false _) in He. apply He.
  apply existsb_exists. exists (i, a). split; [|done]. by apply elem_of_map_to_list, list_elem_of_In in Ha.
Qed.

Lemma Rwf_CreateUser p now s : ok (cu_name p) = true → Rwf s (CreateUser p now s).2.
Proof.
  intros Hv. unfold CreateUser, insertUser. destruct (existsb _ _) eqn:He; [reflexivity|]. simpl.
  apply Rwf_insert; [apply citext_sym|apply citext_refl|apply fresh_lookup|done|].
  intros u' b Hb. pose proof (existsb_false _ _ He _ _ Hb) as Hc. by apply orb_false_iff in Hc as [? _].
Qed.

Lemma Rwf_UpdateUser id e d b now s : Rwf s (UpdateUser id e d b now s).2.
Proof. unfold UpdateUser. case_match; [reflexivity|]. by apply Rwf_users. Qed.

Lemma Rwf_DeleteUser id now s : Rwf s (DeleteUser id now s).2.
Proof.
  split; [|split; [|by split]].
  - intros [A B C D E F].
    assert (∀ i, i ≠ id → is_Some (users s !! i) → is_Some (delete id (users s) !! i)) as Hs.
    { intros i Hi. by rewrite lookup_delete_ne. }
    split; simpl; eauto.
    + intros u r [Hne Hur]%elem_of_filter. destruct (A u r Hur). eauto.
    + intros i r [Hr Hne]%map_lookup_filter_Some. eauto.
    + intros i u [Hr Hne]%map_lookup_filter_Some. eauto.
    + intros u u' a b [_ Ha]%lookup_delete_Some [_ Hb]%lookup_delete_Some. eauto.
  - intros u a. simpl. intros [_ Ha]%lookup_delete_Some. left. eauto.
Qed.

Lemma Rwf_CreateRole n d now s : Rwf s (CreateRole n d now s).2.
Proof.
  unfold CreateRole. case_bool_decide as Hn; [|reflexivity]. simpl.
  set (id := fresh _). assert (roles (rb s) !! id = None) as Hid by apply fresh_lookup.
  assert (∀ i a, roles (rb s) !! i = Some a → r_name a ≠ n) as Hno.
  { intros i a Ha Heq. apply (f_equal (list_to_set (C := gset uuid))) in Hn.
    assert (i ∈ role_ids n s) as Hin; [|set_solver].
    apply list_elem_of_fmap. exists (i, a). split; [done|]. by apply elem_of_map_to_list, map_lookup_filter_Some. }
  split; [|split; [intros u a; simpl; eauto|split; [done|]]].
  - intros [A B C D E F].
    assert (∀ i, is_Some (roles (rb s) !! i) → is_Some (<[id := Role n d false]> (roles (rb s)) !! i)) as Hs.
    { intros i Hi. apply lookup_insert_is_Some. destruct (decide (id = i)); auto. }
    split; simpl; eauto.
    + intros u r Hur. destruct (A u r Hur). eauto.
    + intros r k Hrk. destruct (B r k Hrk). eauto.
    + intros i j a b Ha Hb Heq.
      apply lookup_insert_Some in Ha as [[-> <-]|[? Ha]]; apply lookup_insert_Some in Hb as [[-> <-]|[? Hb]];
        simpl in *; [done| | |by eauto].
      * by destruct (Hno _ _ Hb).
      * by destruct (Hno _ _ Ha).
  - intros i a Ha _. simpl. apply lookup_insert_Some. right. split; [|done]. intros ->. congruence.
Qed.

Lemma Rwf_DeleteRole id now s : Rwf s (DeleteRole id now s).2.
Proof.
  unfold DeleteRole. destruct (roles (rb s) !! id) as [r0|] eqn:Hrow; [|reflexivity].
  destruct (r_builtin r0) eqn:Hb0; [reflexivity|]. simpl.
  assert (∀ i, i ≠ id → is_Some (roles (rb s) !! i) → is_Some (delete id (roles (rb s)) !! i)) as Hs.
  { intros i Hi. by rewrite lookup_delete_ne. }
  split; [|split; [intros u a; simpl; eauto|split; [done|]]].
  - intros [A B C D E F]. split; simpl; eauto.
    + intros u r [Hne Hur]%elem_of_filter. destruct (A u r Hur). eauto.
    + intros r k [Hne Hrk]%elem_of_filter. destruct (B r k Hrk). eauto.
    + intros r r' a b [_ Ha]%lookup_delete_Some [_ Hb]%lookup_delete_Some. eauto.
  - intros i a Ha Hb. simpl. apply lookup_delete_Some. split; [|done]. intros ->. congruence.
Qed.

Lemma Rwf_SetRolePermissions id keys now s : Rwf s (SetRolePermissions id keys now s).2.
Proof.
  unfold SetRolePermissions. destruct (_ || _) eqn:Hc; [|reflexivity]. apply Rwf_pairs; [|by left].
  intros r k [[_ Hin]%elem_of_filter|(k' & [= -> ->] & Hk%elem_of_list_to_set)%elem_of_map]%elem_of_union;
    [by left|right].
  apply orb_true_iff in Hc as [->%bool_decide_eq_true|[Hr Hall]%andb_true_iff]; [by apply elem_of_nil in Hk|].
  split; [by apply bool_decide_eq_true in Hr|].
  rewrite forallb_forall in Hall. specialize (Hall k' (proj1 (list_elem_of_In _ _) Hk)).
  by apply bool_decide_eq_true in Hall.
Qed.

Lemma Rwf_AssignRole u r now s : Rwf s (AssignRole u r now s).2.
Proof.
  unfold AssignRole. destruct (_ && _) eqn:Hc; [|reflexivity].
  apply andb_true_iff in Hc as [Hu%bool_decide_eq_true Hr%bool_decide_eq_true].
  apply Rwf_pairs; [by left|]. intros u' r' [[= -> ->]%elem_of_singleton|?]%elem_of_union; [by right|by left].
Qed.

Lemma role_ids_spec n s r : r ∈ role_ids n s ↔ ∃ a, roles (rb s) !! r = Some a ∧ r_name a = n.
Proof.
  unfold role_ids. rewrite list_elem_of_fmap. split.
  - intros ([i a] & -> & Ha%elem_of_map_to_list). apply map_lookup_filter_Some in Ha. eauto.
  - intros (a & Ha & Hn). exists (r, a). split; [done|]. by apply elem_of_map_to_list, map_lookup_filter_Some.
Qed.

Lemma Rwf_AssignRoleByName u n now s : Rwf s (AssignRoleByName u n now s).2.
Proof.
  unfold AssignRoleByName. destruct (role_ids n s) as [|r0 l] eqn:Hl; [reflexivity|].
  case_bool_decide as Hu; [|reflexivity]. apply Rwf_pairs; [by left|].
  intros u' r' [Hin%elem_of_list_to_set|?]%elem_of_union; [right|by left].
  rewrite <- Hl in Hin. apply list_elem_of_fmap in Hin as (r & [= -> ->] & (a & Ha & _)%role_ids_spec). eauto.
Qed.

Lemma Rwf_RemoveRole u r now s : Rwf s (RemoveRole u r now s).2.
Proof. apply Rwf_pairs; [by left|]. intros u' r' [? _]%elem_of_difference. by left. Qed.
Lemma Rwf_RemoveRoleByName u n now s : Rwf s (RemoveRoleByName u n now s).2.
Proof. apply Rwf_pairs; [by left|]. intros u' r' [? _]%elem_of_difference. by left. Qed.
Lemma Rwf_ResetUserMFA id now s : Rwf s (ResetUserMFA id now s).2.
Proof. apply Rwf_same; [done..|]. by intros f u [? _]%map_lookup_filter_Some. Qed.
Lemma Rwf_new_session id r s : is_Some (users s !! s_user r) → Rwf s (set_sessions s (<[id := r]> (sessions s))).
Proof.
  intros Hu. split; [|split; [intros u a; simpl; eauto|by split]]. intros [A B C D E F]. split; simpl; eauto.
  intros i x [[-> <-]|[_ Hx]]%lookup_insert_Some; eauto.
Qed.
Lemma Rwf_new_factor id f s s' : is_Some (users s !! f_user f) → users s' = users s → rb s' = rb s → sessions s' = sessions s →
  factors (mfa s') = <[id := f]> (factors (mfa s)) → Rwf s s'.
Proof.
  intros Hf Hu Hr Hs Hx. split; [|split; [intros u a; rewrite Hu; eauto|by split; rewrite Hr]].
  intros [A B C D E F]. split; rewrite ?Hu, ?Hr, ?Hs; eauto.
  intros i x. rewrite Hx. intros [[-> <-]|[_ Hi]]%lookup_insert_Some; eauto.
Qed.
End statements_wf.

(** ** What everybody else does to these tables
    Provisioning, sign-ins, the first run and other requests create accounts under names of their
    own and delete them, change rows but for the name, open and change sessions of existing accounts,
    add factors to them and hand out roles, each with the statements of this file; and they may do
    anything to the other tables. *)
Inductive stmt `{!AuthLib} (ok : string → bool) : relation store :=
| st_create p now s : ok (cu_name p) = true → stmt ok s (CreateUser p now s).2
| st_row f id s : (∀ u, u_name (f u) = u_name u) → stmt ok s (set_users s (alter f id (users s)))
| st_delete id now s : stmt ok s (DeleteUser id now s).2
| st_create_role n d now s : stmt ok s (CreateRole n d now s).2
| st_delete_role id now s : stmt ok s (DeleteRole id now s).2
| st_permissions id keys now s : stmt ok s (SetRolePermissions id keys now s).2
| st_assign u r now s : stmt ok s (AssignRole u r now s).2
| st_assign_name u n now s : stmt ok s (AssignRoleByName u n now s).2
| st_remove u r now s : stmt ok s (RemoveRole u r now s).2
| st_remove_name u n now s : stmt ok s (RemoveRoleByName u n now s).2
| st_new_session id r s : is_Some (users s !! s_user r) → stmt ok s (set_sessions s (<[id := r]> (sessions s)))
| st_session f id s : (∀ r, s_user (f r) = s_user r) → stmt ok s (set_sessions s (alter f id (sessions s)))
| st_new_factor id f s s' : is_Some (users s !! f_user f) → users s' = users s → rb s' = rb s → sessions s' = sessions s →
    factors (mfa s') = <[id := f]> (factors (mfa s)) → stmt ok s s'
| st_elsewhere s s' : users s' = users s → rb s' = rb s → sessions s' = sessions s →
    (∀ f r, factors (mfa s') !! f = Some r → factors (mfa s) !! f = Some r) → stmt ok s s'.
Lemma stmts_wf `{!AuthLib, !CitextLaws} ok s s' : rtc (stmt ok) s s' → Rwf ok s s'.
Proof.
  induction 1 as [|s1 s2 s3 H12 _ IH]; [reflexivity|]. etrans; [|exact IH].
  destruct H12; eauto using Rwf_CreateUser, Rwf_users, Rwf_DeleteUser, Rwf_CreateRole, Rwf_DeleteRole, Rwf_SetRolePermissions,
    Rwf_AssignRole, Rwf_AssignRoleByName, Rwf_RemoveRole, Rwf_RemoveRoleByName, Rwf_new_session, Rwf_sessions, Rwf_new_factor, Rwf_same.
Qed.

(** Programs that run while a fact nobody falsifies holds. *)
Section under.
Context {T : Type} `{!Env T} (R : relation T) `{!PreOrder R, !Relies R} (P : T → Prop) `{!Stable R P}.

Lemma under_db {A} (f : Z → T → res store_error A * T) :
  (∀ now s, P s → R s (f now s).2) → guar R P (db f) (λ _, P).
Proof.
  intros Hf. apply guar_db; [done..|]. intros now s HP. split; [auto|]. eapply stable; eauto.
Qed.

Lemma under_bind {A B} (m : M T A) (k : A → M T B) :
  guar R P m (λ _, P) → (∀ a, guar R P (k a) (λ _, P)) → guar R P (m ≫= k) (λ _, P).
Proof. intros Hm Hk. eapply guar_bind; [done|exact Hm|exact Hk]. Qed.

Lemma under_ret {A} (a : A) : guar R P (mret a) (λ _, P).
Proof. by apply guar_ret. Qed.

(** A guard that establishes the fact when it lets the request pass. *)
Lemma within_guarded {A} (g : M T (option (Z * string))) (k : M T (reply A)) :
  guar R (λ _, True) g (λ r s, r = None → P s) → guar R P k (λ _, P) → within R (guarded g k).
Proof.
  intros Hg Hk. unfold guarded. eapply guar_bind; [done|exact Hg|]. intros [[c m]|]; [by apply guar_ret|].
  eapply guar_conseq; [exact Hk|by auto|done].
Qed.
End under.

Ltac under_step :=
  match goal with
  | |- forall _, _ => intros ?
  | |- guar _ _ (match ?x with _ => _ end) _ => destruct x eqn:?
  | |- guar _ _ (mret _) _ => apply under_ret; exact _
  | |- guar _ _ (db _) _ => apply under_db; [exact _..|]
  | |- guar _ _ (_ ≫= _) _ => apply under_bind; [exact _| |]
  | |- guar _ _ _ _ => solve [eauto with within typeclass_instances]
  end.
Ltac under_tac := repeat under_step.

(** What a relation must allow for the session programs of [AuthSession] to stay within it. *)
Class SessionFree (R : relation store) : Prop := {
  free_live l s : R s (set_live s l);
  free_revoke id t s : R s (set_sessions s (alter (revoked t) id (sessions s)));
}.

Lemma within_DestroyUserSessions `{!Env store} R `{!PreOrder R, !Relies R, !SessionFree R} id keep :
  within R (destroyUserSessions id keep).
Proof.
  unfold destroyUserSessions. apply within_bind; [done|apply within_db; [done..|]; reflexivity|].
  intros [l|]; [|within_tac].
  generalize (if bool_decide (keep = uuid_nil) then None else Some keep). intros k.
  induction l as [|[i r] l IH]; simpl; [within_tac|]. case_bool_decide; [done|].
  apply within_bind; [done| |done]. unfold endSession, onSessionDestroyed.
  apply within_bind; [done|by apply within_effect; intros; apply free_live|].
  intros. apply within_db; [done..|]. intros; apply free_revoke.
Qed.

Section well_formed_serve.
Context `{!Env store, !AuthLib, !Unicode, !CitextLaws} (ok : string → bool) (Hok : ∀ n, validUsername n = true → ok n = true).
#[local] Abbreviation Rwf := (Rwf ok).
Context `{!Relies Rwf}.

#[local] Instance Rwf_free : SessionFree Rwf.
Proof. split; intros; [by apply Rwf_same|by apply Rwf_sessions]. Qed.

Lemma Rwf_row f id now s : (∀ u, u_name (f u) = u_name u) → Rwf s (update_row f id now s).2.
Proof. apply Rwf_users. Qed.

#[local] Ltac wf_stmt :=
  apply within_db; [exact _..|]; intros;
  try match goal with |- context [if ?b then _ else _] => is_var b; destruct b end;
  first [ by apply Rwf_CreateUser, Hok, negb_false_iff | apply Rwf_UpdateUser | apply Rwf_DeleteUser | apply Rwf_CreateRole
        | apply Rwf_DeleteRole | apply Rwf_SetRolePermissions | apply Rwf_AssignRole | apply Rwf_AssignRoleByName
        | apply Rwf_RemoveRole | apply Rwf_RemoveRoleByName | apply Rwf_ResetUserMFA
        | by apply Rwf_row | by apply Rwf_users | reflexivity | by apply Rwf_same ].
#[local] Hint Extern 1 (within Rwf (db _)) => wf_stmt : within.
#[local] Hint Extern 1 (within Rwf (DestroyUserSessions _)) => apply within_DestroyUserSessions; exact _ : within.

Lemma within_accounts_wf parse_cidr p o : within Rwf (serve parse_cidr p o).
Proof.
  destruct o; open_serve; within_tac.
Qed.
End well_formed_serve.

(** * Proofs: nobody grants what they do not hold *)
Section escalation.
Context `{!AuthLib} (p : Principal).

(** No role gains a permission [p] lacks, no user a role with such a permission; super
    administrators are neither made nor touched. *)
Record Resc (s s' : store) : Prop := {
  esc_roles r k : (r, k) ∈ role_perms (rb s') → (r, k) ∈ role_perms (rb s) ∨ Has p k = true;
  esc_users u r : (u, r) ∈ user_roles (rb s') →
    (u, r) ∈ user_roles (rb s) ∨ ∀ k, (r, k) ∈ role_perms (rb s') → Has p k = true;
  esc_super u a : users s' !! u = Some a → u_super a = true → users s !! u = Some a;
  esc_kept u a : users s !! u = Some a → u_super a = true → users s' !! u = Some a;
}.

#[export] Instance Resc_preorder : PreOrder Resc.
Proof.
  split.
  - intros s. split; auto.
  - intros s1 s2 s3 [R1 U1 S1 K1] [R2 U2 S2 K2]. split; eauto.
    + intros r k Hk. destruct (R2 r k Hk); auto.
    + intros u r Hur. destruct (U2 u r Hur) as [Hur2|]; [|by right].
      destruct (U1 u r Hur2) as [|Hall]; [by left|right]. intros k Hk. destruct (R2 r k Hk); auto.
Qed.

#[local] Instance Resc_free : SessionFree Resc.
Proof. split; intros; split; auto. Qed.

(** Steps that only remove role permissions and memberships, and keep the users. *)
Lemma Resc_less s s' : users s' = users s → role_perms (rb s') ⊆ role_perms (rb s) →
  user_roles (rb s') ⊆ user_roles (rb s) → Resc s s'.
Proof. intros Hu Hr Hm. split; rewrite ?Hu; auto. Qed.

(** A row that is not a super administrator's, before and after. *)
Definition plain (id : uuid) (s : store) : Prop := ∀ a, users s !! id = Some a → u_super a = false.
#[export] Instance plain_stable id : Stable Resc (plain id).
Proof.
  intros s s' Hp [_ _ S _] a Ha. destruct (u_super a) eqn:Hs; [|done]. rewrite <- Hs. eauto.
Qed.

Lemma Resc_row id f s s' : users s' = alter f id (users s) → rb s' = rb s →
  plain id s → (∀ a, u_super (f a) = u_super a) → Resc s s'.
Proof.
  intros Hu Hrb Hp Hf. split; rewrite ?Hrb, ?Hu; auto.
  - intros u a. destruct (decide (u = id)) as [->|]; [|by rewrite lookup_alter_ne].
    rewrite lookup_alter_eq. intros (b & Hb & ->)%fmap_Some Hs. rewrite Hf, (Hp b Hb) in Hs. done.
  - intros u a Ha Hs. destruct (decide (u = id)) as [->|]; [|by rewrite lookup_alter_ne].
    rewrite (Hp a Ha) in Hs. done.
Qed.

Lemma Resc_CreateUser q now s : cu_super q = false → Resc s (CreateUser q now s).2.
Proof.
  intros Hq. unfold CreateUser, insertUser. destruct (existsb _ _); [reflexivity|]. simpl. split; auto; simpl.
  - intros u a [[_ <-]|[_ Ha]]%lookup_insert_Some; simpl; [by rewrite Hq|done].
  - intros u a Ha _. apply lookup_insert_Some. right. split; [|done].
    intros <-. by rewrite fresh_lookup in Ha.
Qed.

Lemma Resc_DeleteUser id now s : plain id s → Resc s (DeleteUser id now s).2.
Proof.
  intros Hp. split; simpl; auto.
  - intros u r [_ ?]%elem_of_filter. by left.
  - intros u a [_ Ha]%lookup_delete_Some. done.
  - intros u a Ha Hs. apply lookup_delete_Some. split; [|done]. intros ->. rewrite (Hp a Ha) in Hs. done.
Qed.

Lemma Resc_SetRolePermissions id keys now s :
  (∀ k, k ∈ keys → Has p k = true) → Resc s (SetRolePermissions id keys now s).2.
Proof.
  intros Hk. unfold SetRolePermissions. case_match; [|reflexivity]. split; simpl; auto.
  intros r k [[_ ?]%elem_of_filter|(k' & [= -> ->] & Hin%elem_of_list_to_set)%elem_of_map]%elem_of_union; auto.
Qed.

(** All that a role grants is held by [p]: nobody falsifies it. *)
Definition grantable (r : uuid) (s : store) : Prop := ∀ k, (r, k) ∈ role_perms (rb s) → Has p k = true.
#[export] Instance grantable_stable r : Stable Resc (grantable r).
Proof. intros s s' Hg [R _ _ _] k Hk. destruct (R r k Hk); auto. Qed.

Lemma Resc_AssignRole u r now s : grantable r s → Resc s (AssignRole u r now s).2.
Proof.
  intros Hg. unfold AssignRole. case_match; [|reflexivity]. split; simpl; auto.
  intros u' r' [[= -> ->]%elem_of_singleton|?]%elem_of_union; auto.
Qed.

Lemma Resc_DeleteRole id now s : Resc s (DeleteRole id now s).2.
Proof.
  unfold DeleteRole. case_match; [|reflexivity]. case_match; [reflexivity|].
  apply Resc_less; [done| |]; intros x [_ ?]%elem_of_filter; done.
Qed.

Lemma elem_perms_of_role rb r k : k ∈ perms_of_role rb r ↔ (r, k) ∈ role_perms rb.
Proof.
  unfold perms_of_role. rewrite elem_of_map. split.
  - by intros ([r' k'] & -> & [[= ->] ?]%elem_of_filter).
  - intros Hk. exists (r, k). split; [done|]. by apply elem_of_filter.
Qed.
Lemma elem_perms_of s u k : k ∈ perms_of s u ↔ ∃ r, (u, r) ∈ user_roles (rb s) ∧ (r, k) ∈ role_perms (rb s).
Proof.
  unfold perms_of. rewrite elem_of_map. split.
  - intros ([r k'] & -> & [? ?]%elem_of_filter). eauto.
  - intros (r & ? & ?). exists (r, k). split; [done|]. by apply elem_of_filter.
Qed.

Lemma guardGrantable_ok perms : guardGrantable p perms = None → ∀ k, k ∈ perms → Has p k = true.
Proof.
  unfold guardGrantable. destruct (List.find _ _) eqn:Hf; [done|]. intros _ k Hk.
  pose proof (List.find_none _ _ Hf k (proj1 (list_elem_of_In _ _) Hk)) as Hn. by apply negb_false_iff in Hn.
Qed.
End escalation.

Section escalation_serve.
Context `{!Env store, !AuthLib, !Unicode} (p : Principal) `{!Relies (Resc p)}.
Context (Hdb : ∀ n, db_err n = false) (Hplain : IsSuperAdmin p = false).

#[local] Existing Instance Resc_free.

Lemma guar_guardSuperTarget id :
  guar (Resc p) (λ _, True) (guardSuperTarget p id) (λ r s, r = None → plain id s).
Proof.
  unfold guardSuperTarget. rewrite Hplain.
  eapply guar_bind with (Q := λ r s, match r with Ok t => u_super t = false → plain id s | Err _ => plain id s end);
    [exact _| |].
  - apply guar_db_at; [exact _..| |]; [intros n s Hn; by rewrite Hdb in Hn|].
    intros n s _. unfold GetUserByID, get_row, reading. simpl. split; [reflexivity|].
    destruct (users s !! id) as [t|] eqn:Ht; intros; intros a Ha; congruence.
  - intros [t|e]; apply guar_ret; [exact _| |exact _|by auto]. intros s Ht Hn. apply Ht.
    by destruct (u_super t).
Qed.

#[local] Ltac row_stmt := intros; first [ reflexivity | (eapply Resc_row; [reflexivity|done..]) | by apply Resc_DeleteUser | by apply Resc_less
        | unfold UpdateUser; case_match; [reflexivity|eapply Resc_row; [reflexivity|done..]] ].
#[local] Hint Extern 1 (guar (Resc p) _ (DestroyUserSessions _) _) =>
  apply guar_frame; [exact _|apply within_DestroyUserSessions; exact _] : within.

Lemma within_target id (A : Type) (k : M store (reply A)) :
  guar (Resc p) (plain id) k (λ _, plain id) → within (Resc p) (guarded (guardSuperTarget p id) k).
Proof. intros Hk. eapply within_guarded; [exact _|apply guar_guardSuperTarget|exact Hk]. Qed.

(** The handlers guarded by [guardSuperTarget], whose statements touch only the target's rows. *)
#[local] Ltac target_handler :=
  match goal with |- within _ (with_id ?idp _ _) =>
    unfold with_id; destruct idp as [id|]; [|solve [apply within_ret; exact _]]
  end;
  apply within_target; unfold guarded, checked, refuse_if, guardLastSuper, audit, PasswordPolicy_read;
  under_tac; row_stmt.

Lemma within_updateUser idp rq : within (Resc p) (updateUser p idp rq).
Proof. unfold updateUser; target_handler. Qed.
Lemma within_deleteUser idp : within (Resc p) (deleteUser p idp).
Proof. unfold deleteUser; target_handler. Qed.
Lemma within_disableUser idp rq : within (Resc p) (disableUser p idp rq).
Proof. unfold disableUser; target_handler. Qed.
Lemma within_unlockUser idp : within (Resc p) (unlockUser p idp).
Proof. unfold unlockUser; target_handler. Qed.
Lemma within_resetPassword idp rq : within (Resc p) (resetPassword p idp rq).
Proof. unfold resetPassword; target_handler. Qed.
Lemma within_resetMFA idp : within (Resc p) (resetMFA p idp).
Proof. unfold resetMFA; target_handler. Qed.
Lemma within_terminateSessions idp : within (Resc p) (terminateSessions p idp).
Proof. unfold terminateSessions; target_handler. Qed.
Lemma within_setRequireMFA idp rq : within (Resc p) (setRequireMFA p idp rq).
Proof. unfold setRequireMFA; target_handler. Qed.
#[local] Hint Resolve within_updateUser within_deleteUser within_disableUser within_unlockUser
  within_resetPassword within_resetMFA within_terminateSessions within_setRequireMFA : within.

(** The other statements. *)
#[local] Hint Extern 1 (within (Resc p) (db _)) =>
  apply within_db; [exact _..|]; intros; first
    [ reflexivity | by apply Resc_less | apply Resc_DeleteRole
    | by apply Resc_CreateUser | (unfold CreateRole; case_match; by apply Resc_less) ] : within.

Lemma within_setRolePermissions idp rq : within (Resc p) (setRolePermissions p idp rq).
Proof.
  unfold setRolePermissions, with_id, checked, audit. destruct idp as [id|]; [|within_tac].
  destruct rq as [l|]; [|within_tac]. rewrite guarded_ret.
  destruct (guardGrantable p l) as [[c m]|] eqn:Hg; [within_tac|].
  apply within_bind; [exact _| |intros; within_tac]. apply within_db; [exact _..|].
  intros. apply Resc_SetRolePermissions. by apply guardGrantable_ok.
Qed.

(** The name read decides the rules; a super administrator's rules refuse [p]. *)
Lemma guar_super_role (P : store → Prop) `{!Stable (Resc p) P} user role b msg k :
  guar (Resc p) P k (λ _, P) → guar (Resc p) P (super_role_rules p user role b msg k) (λ _, P).
Proof.
  intros Hk. unfold super_role_rules, refuse_if. rewrite Hplain. apply under_bind; [exact _| |].
  - apply under_db; [exact _..|]. intros. reflexivity.
  - intros r. destruct (str_eqb _ _); [|done]. simpl. apply under_ret; exact _.
Qed.

Lemma within_assignRole up rp : within (Resc p) (assignRole p up rp).
Proof.
  unfold assignRole, with_ids. destruct up as [u|]; [|within_tac]. destruct rp as [r|]; [|within_tac].
  eapply guar_bind with (Q := λ a s, match a with
    | Ok l => (∀ k, k ∈ l → Has p k = true) → grantable p r s | Err _ => False end); [exact _| |].
  - apply guar_db_at; [exact _..| |]; [intros n s Hn; by rewrite Hdb in Hn|].
    intros n s _. simpl. split; [reflexivity|]. intros Hl k Hk. by apply Hl, elem_perms_of_role.
  - intros [l|e]; [|intros w []].
    rewrite guarded_ret.
    destruct (guardGrantable p (elements l)) as [[c m]|] eqn:Hg; [by apply guar_ret; [exact _|]|].
    eapply guar_conseq with (P' := grantable p r) (Q' := λ _, grantable p r); [|auto|done].
    + apply guar_super_role; [exact _|]. unfold checked, audit. under_tac; intros;
        first [reflexivity | by apply Resc_less | by apply Resc_AssignRole].
    + intros s Hs. apply Hs. intros k Hk. eapply guardGrantable_ok; [done|]. by apply elem_of_elements.
Qed.

Lemma within_removeRole up rp : within (Resc p) (removeRole p up rp).
Proof.
  unfold removeRole, with_ids. destruct up as [u|]; [|within_tac]. destruct rp as [r|]; [|within_tac].
  apply (guar_super_role (λ _, True)). unfold checked, audit. under_tac; intros;
    first [reflexivity | by apply Resc_less | by apply Resc_less; [done..|]; simpl; set_solver].
Qed.

Lemma within_accounts_esc parse_cidr o : within (Resc p) (serve parse_cidr p o).
Proof.
  assert (∀ idp rq, within (Resc p) (setSuperAdmin p idp rq)) as Hsa.
  { intros idp rq. unfold setSuperAdmin, with_id, refuse_if. rewrite Hplain. cbn [negb]. within_tac. }
  assert (∀ rq, within (Resc p) (createUser p rq)) as Hcu.
  { intros [rq|]; unfold createUser, refuse_if, checked, audit, PasswordPolicy_read; [|within_tac].
    rewrite Hplain. destruct (rq_super rq) eqn:Hs; cbn [negb andb]; within_tac. }
  destruct o; unfold serve, gate; destruct (Has p _); try (apply within_ret; exact _);
    (apply within_bind; [exact _| |intros; apply within_ret; exact _]);
    auto using within_assignRole, within_removeRole, within_setRolePermissions with within;
    unfold createRole, deleteRole, setUserSessionPolicy, clearUserSessionPolicy, with_id, refuse_if, checked, audit;
    within_tac.
Qed.
End escalation_serve.

(** * Proofs: the last super administrator *)
Definition has_super (s : store) : Prop := ∃ u a, users s !! u = Some a ∧ active_super a = true.
Definition Rlast (s s' : store) : Prop := has_super s → has_super s'.
#[export] Instance Rlast_preorder : PreOrder Rlast.
Proof. split; [by intros s Hs|]. intros s1 s2 s3 R1 R2 Hs. auto. Qed.

(** Another account is an active super administrator whenever this one is. *)
Definition spare (id : uuid) (s : store) : Prop :=
  ∀ a, users s !! id = Some a → active_super a = true →
  ∃ i b, i ≠ id ∧ users s !! i = Some b ∧ active_super b = true.

Lemma Rlast_target id s s' : spare id s → (∀ i, i ≠ id → users s' !! i = users s !! i) → Rlast s s'.
Proof.
  intros Hsp Hs (u & a & Ha & Hact). destruct (decide (u = id)) as [->|Hne].
  - destruct (Hsp a Ha Hact) as (i & b & Hi & Hb & ?). exists i, b. by rewrite Hs.
  - exists u, a. by rewrite Hs.
Qed.

Lemma Rlast_more s s' :
  (∀ u a, users s !! u = Some a → active_super a = true → ∃ b, users s' !! u = Some b ∧ active_super b = true) →
  Rlast s s'.
Proof. intros Hm (u & a & Ha & Hact). destruct (Hm u a Ha Hact) as (b & ? & ?). by exists u, b. Qed.

Lemma Rlast_row f id s s' : users s' = alter f id (users s) →
  (∀ a, active_super a = true → active_super (f a) = true) → Rlast s s'.
Proof.
  intros Hu Hf. apply Rlast_more. intros u a Ha Hact. rewrite Hu.
  destruct (decide (u = id)) as [->|]; [rewrite lookup_alter_eq, Ha; eauto|rewrite lookup_alter_ne by done; eauto].
Qed.

Lemma Rlast_same s s' : users s' = users s → Rlast s s'.
Proof. intros Hu. apply Rlast_more. rewrite Hu. eauto. Qed.

(** Two active super administrators are counted. *)
Lemma count_spare id s : (1 < size (active_supers s))%nat → spare id s.
Proof.
  intros Hn a Ha Hact.
  assert (size (delete id (active_supers s)) ≠ 0%nat) as Hne.
  { rewrite map_size_delete_Some; [lia|]. exists a. by apply map_lookup_filter_Some. }
  apply map_size_ne_0_lookup in Hne as (i & b & [Hi Hb]%lookup_delete_Some).
  apply map_lookup_filter_Some in Hb as [Hb Hact']. exists i, b. auto.
Qed.

(** Steps that leave the accounts alone. *)
Definition same_users (s s' : store) : Prop := users s' = users s.
#[export] Instance same_users_preorder : PreOrder same_users.
Proof. split; [done|]. intros s1 s2 s3 R1 R2. by etrans. Qed.
#[export] Instance same_users_free : SessionFree same_users.
Proof. by split. Qed.

Lemma guar_same_users {A} `{!Env store} (m : M store A) (P : gmap uuid user → Prop) :
  within same_users m → guar Rlast (λ s, P (users s)) m (λ _ s, P (users s)).
Proof.
  intros Hm w HP. destruct (Hm w I) as [Hu _]. split; [by apply Rlast_same|]. by rewrite Hu.
Qed.

Section last_super.
Context `{!Env store, !Quiet Env0, !AuthLib, !Unicode} (p : Principal).
Context (Hdb : ∀ n, db_err n = false).

#[local] Instance quiet_relies_R (R : relation store) `{!PreOrder R} : Relies R.
Proof. intros n s. rewrite quiet. reflexivity. Qed.

Lemma guardLastSuper_run id verb n s :
  ∃ r k, guardLastSuper id verb (World n s) = (r, World k s) ∧ (r = None → spare id s).
Proof.
  unfold guardLastSuper. run_step. rewrite Hdb. run_step. unfold GetUserByID, get_row, reading. simpl.
  destruct (users s !! id) as [t|] eqn:Ht.
  - destruct (negb (u_super t) || u_disabled t) eqn:Hn.
    + eexists _, _. split; [done|]. intros _ a Ha Hact. rewrite Ht in Ha. injection Ha as <-.
      unfold active_super in Hact. destruct (u_super t), (u_disabled t); simpl in *; done.
    + run_step. rewrite Hdb. run_step. eexists _, _. split; [done|]. unfold CountActiveSuperAdmins. simpl.
      case_bool_decide; [done|]. intros _. apply count_spare. lia.
  - eexists _, _. split; [done|]. intros _ a Ha. congruence.
Qed.

Lemma guar_guardLastSuper id verb :
  guar Rlast (λ _, True) (guardLastSuper id verb) (λ r s, r = None → spare id s).
Proof.
  intros [n s] _. destruct (guardLastSuper_run id verb n s) as (r & k & -> & Hr). simpl. by split.
Qed.

(** What comes after a guard, when it is asked for. *)
Lemma within_last_guard {A} (b : bool) id verb (k : M store (reply A)) :
  guar Rlast (spare id) k (λ _ _, True) → (b = false → within Rlast k) →
  within Rlast (guarded (if b then guardLastSuper id verb else mret None) k).
Proof.
  intros Hk Hk'. destruct b; [|rewrite guarded_ret; auto]. unfold guarded.
  eapply guar_bind; [exact _|apply guar_guardLastSuper|]. intros [[c m]|]; [by apply guar_ret; [exact _|]|].
  eapply guar_conseq; [exact Hk|by auto|done].
Qed.

(** A statement about the guarded row, then programs of no interest. *)
Lemma guar_spare_checked {A B} id (f : Z → store → res store_error B * store) c m (k : B → M store (reply A)) :
  (∀ now s i, i ≠ id → users (f now s).2 !! i = users s !! i) → (∀ b, within Rlast (k b)) →
  guar Rlast (spare id) (checked f c m k) (λ _ _, True).
Proof.
  intros Hf Hk. unfold checked. eapply guar_bind with (Q := λ _ _, True); [exact _| |].
  - apply guar_db_quiet; [exact _..|done|]. intros n s Hs. split; [|done]. eapply Rlast_target; [done|apply Hf].
  - intros [b|e]; [apply Hk|by apply within_ret; exact _].
Qed.

#[local] Ltac last_stmt :=
  apply within_db; [exact _..|]; intros;
  try match goal with |- context [if ?b then _ else _] => is_var b; destruct b end;
  first [ reflexivity | by apply Rlast_same
        | (eapply Rlast_row; [reflexivity|]; let a := fresh in intros a; unfold active_super; simpl; by destruct (u_super a), (u_disabled a)) ].
#[local] Hint Extern 2 (within Rlast (db _)) => last_stmt : within.
#[local] Hint Extern 1 (within Rlast (DestroyUserSessions _)) =>
  apply within_DestroyUserSessions; [exact _..|]; split; intros; by apply Rlast_same : within.
#[local] Hint Extern 1 (within same_users (DestroyUserSessions _)) =>
  apply within_DestroyUserSessions; exact _ : within.

(** The accounts grow, or a guarded row changes. *)
Lemma Rlast_CreateUser q now s : Rlast s (CreateUser q now s).2.
Proof.
  unfold CreateUser, insertUser. destruct (existsb _ _); [reflexivity|]. apply Rlast_more. simpl.
  intros u a Ha Hact. exists a. split; [|done]. apply lookup_insert_Some. right. split; [|done].
  intros <-. by rewrite fresh_lookup in Ha.
Qed.
#[local] Hint Extern 1 (within Rlast (db (CreateUser _))) =>
  apply within_db; [exact _..|]; intros; apply Rlast_CreateUser : within.
#[local] Hint Extern 1 (within Rlast (db ?f)) => (* the other tables *)
  apply within_db; [exact _..|]; intros; apply Rlast_same;
  unfold AssignRoleByName, AssignRole, SetRolePermissions, CreateRole, DeleteRole; repeat case_match; done : within.

Lemma within_super_role user role b msg (k : M store (reply unit)) :
  within Rlast k → within Rlast (super_role_rules p user role b msg k).
Proof.
  intros Hk. unfold super_role_rules. within_step; [within_tac|]. intros r. within_step; [|done].
  unfold refuse_if. within_step; [within_tac|]. destruct b.
  - rewrite guarded_ret. unfold checked. within_tac.
  - apply (within_last_guard true); [|done]. apply guar_spare_checked; [|done].
    intros now s i Hi. by apply lookup_alter_ne.
Qed.

Lemma within_guarded_last {A} id (k : M store (reply A)) :
  within Rlast k → within Rlast (guarded (guardSuperTarget p id) k).
Proof. intros Hk. unfold guarded, guardSuperTarget. within_tac. Qed.

Lemma within_updateUser_last idp rq : within Rlast (updateUser p idp rq).
Proof.
  unfold updateUser, with_id. destruct idp as [id|]; [|within_tac]. apply within_guarded_last.
  destruct rq as [[[e d] b]|]; [|within_tac]. apply within_last_guard.
  - apply guar_spare_checked; [|unfold audit; within_tac]. intros now s i Hi. unfold UpdateUser.
    case_match; [done|by apply lookup_alter_ne].
  - intros ->. unfold checked, audit. within_tac. apply within_db; [exact _..|]. intros now s.
    unfold UpdateUser. case_match; [reflexivity|]. eapply Rlast_row; [reflexivity|].
    intros a. unfold active_super. simpl. by destruct (u_super a), (u_disabled a).
Qed.

Lemma within_deleteUser_last idp : within Rlast (deleteUser p idp).
Proof.
  unfold deleteUser, with_id. destruct idp as [id|]; [|within_tac]. apply within_guarded_last.
  apply (within_last_guard true); [|done].
  eapply guar_bind with (Q := λ _, spare id); [exact _| |].
  - change (spare id) with (λ s, (λ us : gmap uuid user, ∀ a, us !! id = Some a → active_super a = true →
      ∃ i b, i ≠ id ∧ us !! i = Some b ∧ active_super b = true) (users s)).
    apply guar_same_users. within_tac.
  - intros []. apply guar_spare_checked; [|unfold audit; within_tac]. intros now s i Hi. by apply lookup_delete_ne.
Qed.

Lemma within_disableUser_last idp rq : within Rlast (disableUser p idp rq).
Proof.
  unfold disableUser, with_id. destruct idp as [id|]; [|within_tac]. apply within_guarded_last.
  apply within_last_guard.
  - apply guar_spare_checked; [|unfold audit; within_tac]. intros now s i Hi. by apply lookup_alter_ne.
  - intros ->. unfold checked, audit. within_tac.
Qed.

Lemma within_setSuperAdmin_last idp rq : within Rlast (setSuperAdmin p idp rq).
Proof.
  unfold setSuperAdmin, with_id, refuse_if. destruct idp as [id|]; [|within_tac].
  within_step; [within_tac|]. destruct rq as [b|]; [|within_tac].
  destruct b; [rewrite guarded_ret; unfold checked, audit; within_tac|].
  apply (within_last_guard true); [|done].
  apply guar_spare_checked; [|unfold audit; within_tac]. intros now s i Hi. by apply lookup_alter_ne.
Qed.

Lemma within_accounts_last parse_cidr o : within Rlast (serve parse_cidr p o).
Proof.
  destruct o; unfold serve, gate; (within_step; [|within_tac]);
    (apply within_bind; [exact _| |intros; within_tac]);
    eauto using within_updateUser_last, within_deleteUser_last, within_disableUser_last, within_setSuperAdmin_last;
    unfold createUser, unlockUser, resetPassword, resetMFA, terminateSessions, setRequireMFA, assignRole,
      removeRole, createRole, deleteRole, setRolePermissions, setUserSessionPolicy, clearUserSessionPolicy,
      with_ids, PasswordPolicy_read, with_id, refuse_if.
  all: try (unfold checked, guarded, guardSuperTarget, audit; within_tac; fail).
  - destruct u as [u|]; [|within_tac]. destruct r as [r|]; [|within_tac]. within_step; [within_tac|].
    intros l. rewrite guarded_ret. within_step; [within_tac|]. apply within_super_role.
    unfold checked, audit. within_tac.
  - destruct u as [u|]; [|within_tac]. destruct r as [r|]; [|within_tac]. apply within_super_role.
    unfold checked, audit. within_tac.
Qed.
End last_super.

(** * Properties *)

(** C17: A request to the accounts routes, whatever everybody else does meanwhile with the statements of
    these tables - under whatever names [ok] they create accounts, as provisioning, single sign-on and
    the first run do without checking them - and whichever statements fail, leaves the tables well
    formed: every membership points to an account and a role, every role permission to a role and a
    permission of the catalog, every session and factor to an account; role names and (up to case)
    usernames are unique. A username that appears is one of those or one [validUsername] accepts, the
    catalog never changes, and the seeded roles are neither renamed nor deleted. *)
Theorem accounts_well_formed `{!Env store, !AuthLib, !Unicode, !CitextLaws} ok `{!Relies (rtc (stmt ok))}
    parse_cidr p o (w : world store) :
  let s := w_db w in
  let s' := w_db (serve parse_cidr p o w).2 in
  WF s →
  WF s' ∧
  (∀ u a, users s' !! u = Some a →
    (∃ b, users s !! u = Some b ∧ u_name b = u_name a) ∨ ok (u_name a) = true ∨ validUsername (u_name a) = true) ∧
  catalog (rb s') = catalog (rb s) ∧
  (∀ r a, roles (rb s) !! r = Some a → r_builtin a = true → roles (rb s') !! r = Some a).
Proof.
  intros s s' Hwf. set (both := λ n, ok n || validUsername n).
  assert (Relies (Rwf both)) as Hrel.
  { intros n x. apply stmts_wf. apply (rtc_subrel (stmt ok)); [|apply relies]. intros y z Hyz.
    destruct Hyz; try (by econstructor). constructor. unfold both. by apply orb_true_iff; left. }
  assert (∀ n, validUsername n = true → both n = true) as Hboth by (intros n Hv; unfold both; by rewrite Hv, orb_true_r).
  destruct (within_accounts_wf both Hboth parse_cidr p o w I) as [(Hkeep & Hn & Hc & Hb) _].
  split; [by apply Hkeep|]. split; [|done]. intros u a Ha. destruct (Hn u a Ha) as [|[?|?]%orb_true_iff]; auto.
Qed.

(** C6: Nobody grants what they do not hold. When the store answers, a request to the accounts routes
    of an administrator who is not a super administrator, however it interleaves with requests that
    respect the same bound, leaves every account with permissions it had or that the administrator
    holds, makes nobody a super administrator, and leaves the account row of every super administrator
    (name, password, standing, flags) as it is. Of the roles and the session policy of a super
    administrator it only says what it says of everybody. *)
Theorem no_escalation `{!Env store, !AuthLib, !Unicode} parse_cidr p `{!Relies (Resc p)} o (w : world store) :
  (∀ n, db_err n = false) → IsSuperAdmin p = false →
  let s := w_db w in
  let s' := w_db (serve parse_cidr p o w).2 in
  (∀ u k, k ∈ perms_of s' u → k ∈ perms_of s u ∨ Has p k = true) ∧
  (∀ u a, users s' !! u = Some a → u_super a = true → users s !! u = Some a) ∧
  (∀ u a, users s !! u = Some a → u_super a = true → users s' !! u = Some a).
Proof.
  intros Hdb Hp s s'. destruct (within_accounts_esc p Hdb Hp parse_cidr o w I) as [[R U S K] _].
  split; [|by split]. intros u k (r & Hur & Hrk)%elem_perms_of.
  destruct (U u r Hur) as [Hur'|]; [|by right; auto].
  destruct (R r k Hrk); [left; apply elem_perms_of; eauto|by right].
Qed.

(** One request at a time never removes the last active super administrator. *)
Theorem last_super_kept `{!Env store, !Quiet Env0, !AuthLib, !Unicode} parse_cidr p o (w : world store) :
  (∀ n, db_err n = false) → has_super (w_db w) → has_super (w_db (serve parse_cidr p o w).2).
Proof. intros Hdb Hs. destruct (within_accounts_last p Hdb parse_cidr o w I) as [Hk _]. by apply Hk. Qed.

(** A demotion that the others leave alone but for the moment before its update. *)
Lemma demote_run `{!Env store, !AuthLib, !Unicode} p a n s ra :
  (∀ k, db_err k = false) → (∀ k s, k ≠ S (S n) → interfere k s = s) → IsSuperAdmin p = true →
  users s !! a = Some ra → active_super ra = true → (1 < size (active_supers s))%nat →
  let r := setSuperAdmin p (Some a) (Some false) (World n s) in
  r.1 = WriteJSON 200 false ∧ users (w_db r.2) = alter (with_super false) a (users (interfere (S (S n)) s)).
Proof.
  intros Hdb Hi Hp Ha Hact Hn. unfold setSuperAdmin, with_id, refuse_if. rewrite Hp. cbn [negb].
  assert (guardLastSuper a "demote" (World n s) = (None, World (S (S n)) s)) as Hg.
  { unfold guardLastSuper. rewrite run_bind, db_eq. cbn [w_tick w_db]. rewrite Hdb, Hi by lia.
    unfold GetUserByID, get_row, reading. cbn [fst snd]. rewrite Ha. unfold active_super in Hact.
    destruct (u_super ra), (u_disabled ra); try done. cbn [negb orb].
    rewrite run_bind, db_eq. cbn [w_tick w_db]. rewrite Hdb, Hi by lia. cbn [fst snd CountActiveSuperAdmins].
    rewrite bool_decide_false by lia. done. }
  unfold guarded, checked, audit. rewrite run_bind, Hg. cbn [fst snd].
  rewrite run_bind, db_eq. cbn [w_tick w_db]. rewrite Hdb. cbn [fst snd SetSuperAdmin update_row].
  rewrite run_bind, db_eq. cbn [w_tick w_db]. rewrite Hdb, Hi by lia. cbn [fst snd RemoveRoleByName].
  rewrite run_bind, run_bind, db_eq. cbn [w_tick w_db]. rewrite Hdb, Hi by lia. done.
Qed.

Lemma two_supers s a b ra rb' : a ≠ b →
  users s !! a = Some ra → users s !! b = Some rb' → active_super ra = true → active_super rb' = true →
  (1 < size (active_supers s))%nat.
Proof.
  intros Hne Ha Hb Hra Hrb.
  assert (active_supers s !! a = Some ra) as Ha' by by apply map_lookup_filter_Some.
  assert (size (delete a (active_supers s)) ≠ 0%nat) as Hnz.
  { apply map_size_ne_0_lookup. exists b, rb'. rewrite lookup_delete_ne by done. by apply map_lookup_filter_Some. }
  rewrite map_size_delete_Some in Hnz by eauto. lia.
Qed.

(** Two super administrators can remove each other. When one's demotion of the other runs between
    the count and the update of the other's demotion of the one, both requests are answered 200
    and no active super administrator is left. *)
Theorem last_super_race `{!AuthLib, !Unicode} p p' a b s ra rb' :
  IsSuperAdmin p = true → IsSuperAdmin p' = true → a ≠ b →
  users s !! a = Some ra → users s !! b = Some rb' → active_super ra = true → active_super rb' = true →
  (∀ i r, users s !! i = Some r → i ≠ a → i ≠ b → active_super r = false) →
  let other := setSuperAdmin (Env0 := quiet_env) p' (Some b) (Some false) (World 0 s) in
  let E := interposed 2 (λ s, w_db (setSuperAdmin (Env0 := quiet_env) p' (Some b) (Some false) (World 0 s)).2) in
  let mine := setSuperAdmin (Env0 := E) p (Some a) (Some false) (World 0 s) in
  other.1 = WriteJSON 200 false ∧ mine.1 = WriteJSON 200 false ∧ ¬ has_super (w_db mine.2).
Proof.
  intros Hp Hp' Hne Ha Hb Hra Hrb Hothers other E mine.
  pose proof (two_supers s a b ra rb' Hne Ha Hb Hra Hrb) as Hn.
  destruct (demote_run (Env0 := quiet_env) p' b 0 s rb') as [Ho Hus]; [done..|].
  destruct (demote_run (Env0 := E) p a 0 s ra) as [Hm Hum]; [done| |done..|].
  { intros k x Hk. simpl. by rewrite bool_decide_false. }
  split_and!; [done..|]. intros (i & r & Hi & Hact). fold mine in Hum. rewrite Hum in Hi. simpl in Hi.
  change (w_db _) with (w_db other.2) in Hi. fold other in Hus. rewrite Hus in Hi. simpl in Hi.
  destruct (decide (i = a)) as [->|Hia].
  - rewrite lookup_alter_eq in Hi. apply fmap_Some in Hi as (r0 & _ & ->). done.
  - rewrite lookup_alter_ne in Hi by done. destruct (decide (i = b)) as [->|Hib].
    + rewrite lookup_alter_eq in Hi. apply fmap_Some in Hi as (r0 & _ & ->). done.
    + rewrite lookup_alter_ne in Hi by done. by rewrite (Hothers i r Hi Hia Hib) in Hact.
Qed.

Lemma guardSuperTarget_run `{!Env store, !Quiet Env0} p id n s :
  (∀ k, db_err k = false) → ∃ r k, guardSuperTarget p id (World n s) = (r, World k s).
Proof.
  intros Hdb. unfold guardSuperTarget. destruct (IsSuperAdmin p); [by eexists _, _|].
  run_step. rewrite Hdb. run_step. by eexists _, _.
Qed.

(** A request that disables an account and is answered 200. *)
Lemma disableUser_run `{!Env store, !Quiet Env0, !AuthLib, !Unicode} p id n s w :
  (∀ k, db_err k = false) →
  disableUser p (Some id) (Some true) (World n s) = (WriteJSON 200 true, w) →
  ∃ k, let s1 := set_users s (alter (with_disabled true) id (users s)) in
    let s2 := w_db (destroyUserSessions id uuid_nil (World k s1)).2 in
    users (w_db w) = users s2 ∧ sessions (w_db w) = sessions s2 ∧ live (w_db w) = live s2.
Proof.
  intros Hdb. unfold disableUser, with_id, guarded, checked, audit. change (default true (Some true)) with true. cbn iota.
  destruct (guardSuperTarget_run p id n s Hdb) as (r & k & Hg).
  rewrite run_bind, Hg. cbn [fst snd]. destruct r as [[? ?]|]; [done|].
  destruct (guardLastSuper_run Hdb id "disable" k s) as (r & k' & Hg' & _).
  rewrite run_bind, Hg'. cbn [fst snd]. destruct r as [[? ?]|]; [done|].
  rewrite run_bind, run_db, Hdb. cbn [fst snd SetDisabled update_row].
  rewrite run_bind. fold (DestroyUserSessions id).
  destruct (DestroyUserSessions id (World (S k') _)) as [[] [k2 s2]] eqn:Hd. cbn [fst snd].
  rewrite run_bind, run_bind, run_db, Hdb. cbn [fst snd AppendAudit mret M_ret]. intros [= <-].
  exists (S k'). cbn zeta. by rewrite Hd.
Qed.

(** Disabling an account ends its access. When the request is answered 200, the account is
    disabled, every session it had open is revoked with its SSH credential destroyed, no token of a
    session is accepted for it any more, and the other accounts and sessions are untouched. *)
Theorem disable_ends_access `{!Env store, !Quiet Env0, !AuthLib, !Unicode} cfg p id n s w :
  (∀ k, db_err k = false) →
  disableUser p (Some id) (Some true) (World n s) = (WriteJSON 200 true, w) →
  (∀ a, users (w_db w) !! id = Some a → u_disabled a = true) ∧
  (∀ sid r, sessions s !! sid = Some r → s_user r = id → s_revoked r = None → torn_down sid (w_db w)) ∧
  (∀ c k, c_user c = id → ¬ is_ok (loadPrincipal cfg c (World k (w_db w))).1) ∧
  (∀ i, i ≠ id → users (w_db w) !! i = users s !! i) ∧
  (∀ sid, (∀ r, sessions s !! sid = Some r → s_user r ≠ id) →
    sessions (w_db w) !! sid = sessions s !! sid ∧ (sid ∈ live (w_db w) ↔ sid ∈ live s)).
Proof.
  intros Hdb Hrun. destruct (disableUser_run p id n s w Hdb Hrun) as (k & Hu & Hs & Hl). clear Hrun.
  set (s1 := set_users s (alter (with_disabled true) id (users s))) in *.
  destruct (destroyUserSessions_spec id uuid_nil k s1 Hdb) as (Ht & Ho & Hus).
  assert (∀ a, users (w_db w) !! id = Some a → u_disabled a = true) as Hdis.
  { intros a. rewrite Hu, Hus. simpl. rewrite lookup_alter_eq. by intros (b & _ & ->)%fmap_Some. }
  split_and!; [done| | | |].
  - intros sid r Hr Hus' Hrev. destruct (Ht sid r Hr Hus' Hrev (or_introl eq_refl)) as [Hts Htl].
    split; [by rewrite Hs|by rewrite Hl].
  - intros c j Hc Hok. destruct (loadPrincipal cfg c (World j (w_db w))) as [[q|] w'] eqn:Hq; [|done].
    apply loadPrincipal_ok in Hq as (sess & u & _ & Husr & _ & Hd & _). rewrite Hc in Husr.
    by rewrite (Hdis u Husr) in Hd.
  - intros i Hi. rewrite Hu, Hus. by apply lookup_alter_ne.
  - intros sid Hsid. rewrite Hs, Hl. apply (Ho sid). right. exact Hsid.
Qed.

(** Disabling an account through its edit form does not: the sessions it had open keep their SSH
    credentials, and stay unrevoked, until one of them makes its next request. *)
Theorem update_disables_without_teardown `{!Env store, !Quiet Env0, !AuthLib, !Unicode} p id email display n s w :
  (∀ k, db_err k = false) →
  updateUser p (Some id) (Some (email, display, true)) (World n s) = (WriteJSON 200 tt, w) →
  (∀ a, users (w_db w) !! id = Some a → u_disabled a = true ∧ u_email a = email) ∧
  sessions (w_db w) = sessions s ∧ live (w_db w) = live s.
Proof.
  intros Hdb. unfold updateUser, with_id, guarded, checked, audit. cbn iota beta.
  destruct (guardSuperTarget_run p id n s Hdb) as (r & k & Hg).
  rewrite run_bind, Hg. cbn [fst snd]. destruct r as [[? ?]|]; [done|].
  destruct (guardLastSuper_run Hdb id "disable" k s) as (r & k' & Hg' & _).
  rewrite run_bind, Hg'. cbn [fst snd]. destruct r as [[? ?]|]; [done|].
  rewrite run_bind, run_db, Hdb. unfold UpdateUser. destruct (_ && _); [done|]. cbn [fst snd].
  rewrite run_bind, run_bind, run_db, Hdb. cbn [fst snd AppendAudit mret M_ret]. intros [= <-]. simpl.
  split_and!; [|done..]. intros a. rewrite lookup_alter_eq. by intros (b & _ & ->)%fmap_Some.
Qed.

(** A failed read lets a role be handed out. When the store does not answer the one statement that
    reads a role's permissions, any holder of Role.Edit assigns the role, whatever it grants, to
    whoever they like, themselves included, and is answered 200. *)
Theorem assign_role_fails_open `{E : Env store, !Quiet E, !AuthLib, !Unicode} parse_cidr p user role row n s :
  db_err n = true → (∀ k, (n < k)%nat → db_err k = false) → Has p "Role.Edit" = true →
  is_Some (users s !! user) → roles (rb s) !! role = Some row → r_name row ≠ superAdminRoleName →
  (assignRole p (Some user) (Some role) (World n s)).1 = WriteJSON 200 tt ∧
  perms_of_role (rb s) role ⊆
    perms_of (w_db (serve parse_cidr p (OpAssignRole (Some user) (Some role)) (World n s)).2) user.
Proof.
  intros Hn Hdb Hp Hu Hr Hname.
  assert (assignRole p (Some user) (Some role) (World n s) = (WriteJSON 200 tt, World (S (S (S (S n))))
    (set_audits (set_user_roles s ({[(user, role)]} ∪ user_roles (rb s)))
       (("user.role_assign", Some (UserID p)) :: audits s)))) as Hrun.
  { unfold assignRole, with_ids. rewrite run_bind, run_db, Hn. cbn [fst snd].
    rewrite guarded_ret. replace (guardGrantable p (elements ∅)) with (@None (Z * string)) by done.
    unfold super_role_rules. rewrite run_bind, run_db, Hdb by lia. unfold RoleName. rewrite Hr. cbn [fst snd].
    unfold str_eqb. rewrite bool_decide_false by done. unfold checked. rewrite run_bind, run_db, Hdb by lia.
    unfold AssignRole. rewrite !bool_decide_true by eauto. cbn [fst snd andb].
    unfold audit. rewrite run_bind, run_bind, run_db, Hdb by lia. done. }
  rewrite Hrun. split; [done|]. unfold serve, gate. rewrite Hp, run_bind, Hrun. cbn [snd fst mret M_ret w_db].
  intros k Hk%elem_perms_of_role. apply elem_perms_of. exists role. simpl. set_solver.
Qed.

(** While accounts exist the first-run wizard stays closed: whatever runs beside it, as long as some
    account is left, it creates none and refuses the request. *)
Definition occupied (s : store) : Prop := users s ≠ ∅.
Definition Rocc (s s' : store) : Prop := occupied s → occupied s'.
#[export] Instance Rocc_preorder : PreOrder Rocc.
Proof. split; [by intros s Hs|]. intros s1 s2 s3 R1 R2 Hs. auto. Qed.
#[export] Instance occupied_stable : Stable Rocc occupied.
Proof. intros s s' Hs HR. by apply HR. Qed.

Theorem bootstrap_closed `{!Env store, !AuthLib, !Unicode, !Relies Rocc} allow rq (w : world store) :
  users (w_db w) ≠ ∅ → ∃ code msg, (init allow rq w).1 = WriteError code msg.
Proof.
  intros Hocc.
  enough (guar Rocc occupied (init allow rq) (λ r _, ∃ code msg, r = WriteError code msg)) as Hg
    by apply (Hg w Hocc). clear w Hocc.
  unfold init, refuse_if, checked. eapply guar_bind with (Q := λ _, occupied); [exact _| |].
  { unfold available. under_tac. reflexivity. }
  intros [[]|]; [|apply guar_ret; [exact _|]; eauto..].
  destruct rq as [rq|]; [|apply guar_ret; [exact _|]; eauto].
  destruct (str_eqb _ _); [apply guar_ret; [exact _|]; eauto|].
  destruct (Validate _ _); [apply guar_ret; [exact _|]; eauto|].
  destruct (HashPassword _); [|apply guar_ret; [exact _|]; eauto].
  eapply guar_bind with (Q := λ r s, occupied s ∧ ∀ a, r ≠ Ok (Some a)); [exact _| |].
  - apply guar_db; [exact _..|by intros|]. intros now s' Hs. unfold CreateInitialSuperAdmin.
    rewrite bool_decide_true by (by rewrite map_size_empty_iff). simpl. split; [reflexivity|]. by split.
  - intros [[a|]|e].
    + intros w [_ Hw]. by destruct (Hw a).
    + apply guar_ret; [exact _|]. eauto.
    + apply guar_ret; [exact _|]. eauto.
Qed.

(** * Witnesses *)
#[local] Existing Instances toy_auth quiet_env.
#[local] Instance toy_unicode : Unicode := {|
  runes s := Ascii.N_of_ascii <$> String.list_ascii_of_string s;
  IsUpper r := bool_decide (65 ≤ r ≤ 90)%N; IsLower r := bool_decide (97 ≤ r ≤ 122)%N;
  IsDigit r := bool_decide (48 ≤ r ≤ 57)%N; IsPunctOrSymbol r := bool_decide (33 ≤ r ≤ 47)%N;
|}.
#[local] Instance toy_citext : CitextLaws.
Proof. split; intros; unfold citext_eq; simpl; unfold str_eqb; [by apply bool_decide_true|]. by apply bool_decide_ext. Defined.

Definition root (name : string) : user :=
  User name false "local" true false 1 false 0 None (Some "pw") (name +:+ "@x") name false.
(** Account 1 of [AuthSession.toy_store] with session 7 and a role, super administrators 4 and 5. *)
Definition admins : store :=
  let s := set_users toy_store (<[4%N := root "root"]> (<[5%N := root "boss"]> (users toy_store))) in
  set_rb s (Rbac (<[8%N := Role "Ops" "" false]> (roles (rb s))) ({["Admin.All"; "Host.View"; "Role.Edit"]})
    ({[(8%N, "Admin.All")]} ∪ role_perms (rb s)) (user_roles (rb s))).
Definition root_principal : Principal := MkPrincipal 4 40 "root" true ∅ false 1.
Definition clerk : Principal := MkPrincipal 1 7 "ada" false {["Role.Edit"; "Host.View"; "User.Create"; "User.ResetPassword"]} false 1.

#[local] Ltac toy_rows :=
  repeat match goal with
  | Hx : <[_ := _]> _ !! _ = Some _ |- _ => apply lookup_insert_Some in Hx as [[<- <-]|[_ Hx]]
  | Hx : {[_ := _]} !! _ = Some _ |- _ => apply lookup_singleton_Some in Hx as [<- <-]
  end; done.
Lemma admins_wf : WF admins.
Proof.
  split; simpl.
  - intros u r [= -> ->]%elem_of_singleton. by split; eexists.
  - intros r k [[= -> ->]%elem_of_singleton|[= -> ->]%elem_of_singleton]%elem_of_union; split;
      [by eexists|set_solver|by eexists|set_solver].
  - intros id r [_ <-]%lookup_singleton_Some. by eexists.
  - done.
  - intros r r' a b Ha Hb Heq. toy_rows.
  - intros u u' a b Ha Hb Heq. apply str_eqb_eq in Heq. toy_rows.
Qed.

Definition hire : op := OpCreateUser (Some (MkCreateReq "bob" "bob@x" "Bob" "Passw0rd!long" false true)).
Lemma accounts_well_formed_witness :
  let s' := w_db (serve (λ _, true) clerk hire (World 0 admins)).2 in
  WF s' ∧ size (users s') = 4%nat.
Proof.
  split; [|by vm_compute]. apply (accounts_well_formed (λ _, false) (λ _, true) clerk hire (World 0 admins) admins_wf).
Defined.

#[local] Instance toy_relies_esc : Relies (Resc clerk).
Proof. apply quiet_relies. exact _. Defined.
Lemma no_escalation_witness :
  users (w_db (serve (λ _, true) clerk (OpResetMFA (Some 4%N)) (World 0 admins)).2) !! 4%N = Some (root "root").
Proof.
  refine (proj2 (proj2 (no_escalation (λ _, true) clerk (OpResetMFA (Some 4%N)) (World 0 admins) _ _)) 4%N _ _ _);
    by vm_compute.
Defined.

Lemma last_super_kept_witness :
  has_super (w_db (serve (λ _, true) root_principal (OpDeleteUser (Some 5%N)) (World 0 admins)).2).
Proof.
  apply (last_super_kept (λ _, true) root_principal (OpDeleteUser (Some 5%N)) (World 0 admins)); [done|].
  by exists 4%N, (root "root").
Defined.

Definition boss_principal : Principal := MkPrincipal 5 50 "boss" true ∅ false 1.
Lemma last_super_race_witness :
  ¬ has_super (w_db (setSuperAdmin
      (Env0 := interposed 2 (λ s, w_db (setSuperAdmin boss_principal (Some 4%N) (Some false) (World 0 s)).2))
      root_principal (Some 5%N) (Some false) (World 0 admins)).2).
Proof.
  refine (proj2 (proj2 (last_super_race root_principal boss_principal 5 4 admins (root "boss") (root "root")
    _ _ _ _ _ _ _ _))); try done.
  intros i r Hi Hi5 Hi4. simpl in Hi. rewrite !lookup_insert_ne in Hi by done.
  by apply lookup_singleton_Some in Hi as [_ <-].
Defined.

Definition disabled_run := disableUser root_principal (Some 1%N) (Some true) (World 0 admins).
Lemma disable_ends_access_witness :
  torn_down 7%N (w_db disabled_run.2) ∧
  ¬ is_ok (loadPrincipal toy_cfg (MkClaims 1 7 "ada") (World 9 (w_db disabled_run.2))).1.
Proof.
  assert (disabled_run = (WriteJSON 200 true, disabled_run.2)) as Hrun by by vm_compute.
  destruct (disable_ends_access toy_cfg root_principal 1%N 0 admins disabled_run.2) as (_ & Ht & Hl & _);
    [done|exact Hrun|]. split; [|by apply Hl]. by apply (Ht 7%N toy_session).
Defined.

Definition edited_run := updateUser root_principal (Some 1%N) (Some ("a@x,b@y", "Ada", true)) (World 0 admins).
Lemma update_disables_without_teardown_witness : 7%N ∈ live (w_db edited_run.2).
Proof.
  assert (edited_run = (WriteJSON 200 tt, edited_run.2)) as Hrun by by vm_compute.
  destruct (update_disables_without_teardown root_principal 1%N "a@x,b@y" "Ada" 0 admins edited_run.2)
    as (_ & _ & ->); [done|exact Hrun|]. by vm_compute.
Defined.

Definition first_fails : Env store := MkEnv store (λ n, bool_decide (n = 0%nat)) Z.of_nat (λ _ s, s).
#[local] Instance first_fails_quiet : @Quiet store first_fails.
Proof. done. Defined.
Lemma assign_role_fails_open_witness :
  "Admin.All" ∈ perms_of (w_db (serve (Env0 := first_fails) (λ _, true) clerk
    (OpAssignRole (Some 1%N) (Some 8%N)) (World 0 admins)).2) 1%N.
Proof.
  refine (proj2 (assign_role_fails_open (E := first_fails) (λ _, true) clerk 1 8 (Role "Ops" "" false) 0 admins
    _ _ _ _ _ _) "Admin.All" _); try done.
  - intros k Hk. simpl. apply bool_decide_false. lia.
Defined.

Lemma bootstrap_closed_witness :
  ∃ code msg, (init true (Some (MkCreateReq "eve" "" "Eve" "Passw0rd!long" false false)) (World 0 admins)).1
    = WriteError code msg.
Proof. by apply bootstrap_closed. Defined.
