(* ===== verification/Scim.v ===== *)
(** Provisioning by an identity provider: [scim/handlers.go], [scim/users.go].

    The protocol endpoints over the account tables of [AuthSession], with the statements and the
    session teardown of [Accounts]; the settings row of the integration and its token. JSON
    decoding, case folding and base64 text are parameters. *)
From S2P Require Import Prelude GoStrings AuthSession Accounts.
From Stdlib Require Import Strings.Ascii Strings.Byte.

#[export] Instance byte_eq_decision : EqDecision Byte.byte := Byte.byte_eq_dec.

(** * Data *)
Record scimName := MkName { Formatted : string; GivenName : string; FamilyName : string }.
Record scimEmail := MkEmail { Value : string; Primary : bool }.
Record scimUser := MkScimUser {
  UserName : string; Name : option scimName; DisplayName : string; Emails : list scimEmail; Active : bool;
}.

(** The settings row; the zero value when there is none or it cannot be read. *)
Record scimConfig := MkScimConfig { Enabled : bool; TokenHash : string; DefaultRole : string; AuthSource : string }.
Definition no_config : scimConfig := MkScimConfig false "" "" "".

Definition authSource (c : scimConfig) : string :=
  if bool_decide (AuthSource c ∈ ["oidc"; "ldap"; "saml"]) then AuthSource c else "saml".
Definition defaultRole (c : scimConfig) : string :=
  if str_eqb (DefaultRole c) "" then "Read-Only" else DefaultRole c.

(** [primaryEmail]: the first primary address that is not blank, or else the first such address. *)
Definition primaryEmail (u : scimUser) : string :=
  let filled e := negb (str_eqb (TrimSpace (Value e)) "") in
  match List.find (λ e, Primary e && filled e) (Emails u) with
  | Some e => TrimSpace (Value e)
  | None => match List.find filled (Emails u) with Some e => TrimSpace (Value e) | None => "" end
  end.

Definition displayName (u : scimUser) : string :=
  if negb (str_eqb (DisplayName u) "") then DisplayName u
  else match Name u with
       | Some n => if negb (str_eqb (Formatted n) "") then Formatted n
                   else TrimSpace (GivenName n +:+ " " +:+ FamilyName n)
       | None => ""
       end.

(** JSON values of a patch and what they decode to ([null] decodes to the zero value); the [active]
    member of an object, when it is there. *)
Class ScimLib := {
  json : Type;
  as_bool : json → option bool;
  as_string : json → option string;
  as_user : json → option scimUser;
  active_member : json → option json;
  ToLower : string → string;
  EqualFold : string → string → bool;
}.

Section scim.
Context `{!ScimLib}.

Definition decodeBool (raw : json) : option bool :=
  match as_bool raw with
  | Some b => Some b
  | None => match as_string raw with
            | Some s => Some (EqualFold (TrimSpace s) "true")
            | None => None
            end
  end.
Definition decodeString (raw : json) : string :=
  match as_string raw with Some s => TrimSpace s | None => "" end.

(** [strings.Trim(rest, quote)] *)
Fixpoint trim_quotes_left (s : string) : string :=
  match s with
  | EmptyString => ""
  | String c s' => if Ascii.eqb c "034"%char then trim_quotes_left s' else s
  end.
Definition trim_quotes (s : string) : string :=
  rev_string (trim_quotes_left (rev_string (trim_quotes_left s) "")) "".

Definition parseUserNameEq (filter : string) : option string :=
  let f := TrimSpace filter in
  if negb (has_prefix "username eq " (ToLower f)) then None
  else
    let rest := trim_quotes (TrimSpace (str_drop (String.length "userName eq ") f)) in
    if str_eqb rest "" then None else Some rest.

(** ** The operations of a patch *)
Record patch_op := MkOp { op_op : string; op_path : string; op_value : json }.

(** The values being built: e-mail, display name, disabled, and whether [active] was set. *)
Record draft := MkDraft { dr_email : string; dr_display : string; dr_disabled : bool; dr_changed : bool }.

Definition set_active (v : json) (d : draft) : draft :=
  match decodeBool v with
  | Some b => MkDraft (dr_email d) (dr_display d) (negb b) true
  | None => d
  end.

Definition apply_op (d : draft) (o : patch_op) : draft :=
  if EqualFold (op_op o) "remove" && EqualFold (op_path o) "active"
  then MkDraft (dr_email d) (dr_display d) true true
  else
    let path := ToLower (TrimSpace (op_path o)) in
    if str_eqb path "active" then set_active (op_value o) d
    else if str_eqb path "displayname" then
      MkDraft (dr_email d) (decodeString (op_value o)) (dr_disabled d) (dr_changed d)
    else if bool_decide (path ∈ ["emails"; "emails[type eq " +:+ String "034"%char "work" +:+ String "034"%char "].value"]) then
      let s := decodeString (op_value o) in
      if str_eqb s "" then d else MkDraft s (dr_display d) (dr_disabled d) (dr_changed d)
    else if str_eqb path "" then
      match as_user (op_value o) with
      | None => d
      | Some u =>
        let display := if str_eqb (DisplayName u) "" then dr_display d else DisplayName u in
        let email := if str_eqb (primaryEmail u) "" then dr_email d else primaryEmail u in
        let d := MkDraft email display (dr_disabled d) (dr_changed d) in
        match active_member (op_value o) with Some v => set_active v d | None => d end
      end
    else d.

Definition apply_ops (u : user) (ops : list patch_op) : draft :=
  foldl apply_op (MkDraft (u_email u) (u_display u) (u_disabled u) false) ops.

(** * The protocol endpoints *)
Context `{!Env store, !AuthLib}.
(** The settings row as a statement at a tick reads it, and the unusable password of a new account. *)
Context (config : nat → scimConfig) (randPassword : nat → string).

Definition scim_audit (action : string) : M store unit := _ ← db (AppendAudit action None); mret tt.

(** [lookup] *)
Definition with_user {A} (idp : option uuid) (k : uuid → user → M store (reply A)) : M store (reply A) :=
  match idp with
  | None => mret (WriteError 404 "user not found")
  | Some id =>
    r ← db (GetUserByID id);
    match r with Err _ => mret (WriteError 404 "user not found") | Ok u => k id u end
  end.

Definition applyDeprovisionSideEffects (id : uuid) (disabled : bool) : M store unit :=
  if disabled then DestroyUserSessions id else mret tt.

Definition listUsers (filter : string) : M store (reply (list (uuid * user))) :=
  r ← db (λ _ s, (Ok (map_to_list (users s)) : res store_error (list (uuid * user)), s));
  match r with
  | Err _ => mret (WriteError 500 "could not list users")
  | Ok l =>
    if str_eqb filter "" then mret (WriteJSON 200 l)
    else match parseUserNameEq filter with
         | None => mret (WriteError 400 "unsupported filter (only 'userName eq' is supported)")
         | Some want => mret (WriteJSON 200 (base.filter (λ ku, EqualFold (u_name ku.2) want = true) l))
         end
  end.

Definition getUser (idp : option uuid) : M store (reply (uuid * user)) :=
  with_user idp (λ id u, mret (WriteJSON 200 (id, u))).

Definition createUser (body : option scimUser) : M store (reply (uuid * user)) :=
  match body with
  | None => mret (WriteError 400 "invalid request body")
  | Some inp =>
    let name := TrimSpace (UserName inp) in
    if str_eqb name "" then mret (WriteError 400 "userName is required")
    else
      existing ← db (get_row (λ s, user_by_name citext_eq s name));
      match existing with
      | Ok _ => mret (WriteError 409 "user already exists")
      | Err _ =>
        c ← draw config;
        pw ← draw randPassword;
        r ← db (CreateUser (MkCreateUser name (primaryEmail inp) (displayName inp) pw false false (authSource c)));
        match r with
        | Err _ => mret (WriteError 400 "could not create user")
        | Ok (id, u) =>
          _ ← db (AssignRoleByName id (defaultRole c));
          u ← (if Active inp then mret u
               else _ ← db (SetDisabled id true); mret (with_disabled true u));
          _ ← scim_audit "scim.user_provision";
          mret (WriteJSON 201 (id, u))
        end
      end
  end.

(** The reply shows the row as it is then, or as it was read. *)
Definition reply_user (id : uuid) (u : user) : M store (reply (uuid * user)) :=
  r ← db (GetUserByID id);
  mret (WriteJSON 200 (id, match r with Ok u' => u' | Err _ => u end)).

Definition replaceUser (idp : option uuid) (body : option scimUser) : M store (reply (uuid * user)) :=
  with_user idp (λ id u,
    match body with
    | None => mret (WriteError 400 "invalid request body")
    | Some inp =>
      r ← db (UpdateUser id (primaryEmail inp) (displayName inp) (negb (Active inp)));
      match r with
      | Err _ => mret (WriteError 500 "could not update user")
      | Ok _ =>
        _ ← applyDeprovisionSideEffects id (negb (Active inp));
        _ ← scim_audit "scim.user_update";
        reply_user id u
      end
    end).

Definition patchUser (idp : option uuid) (body : option (list patch_op)) : M store (reply (uuid * user)) :=
  with_user idp (λ id u,
    match body with
    | None => mret (WriteError 400 "invalid request body")
    | Some ops =>
      let d := apply_ops u ops in
      r ← db (UpdateUser id (dr_email d) (dr_display d) (dr_disabled d));
      match r with
      | Err _ => mret (WriteError 500 "could not update user")
      | Ok _ =>
        _ ← (if dr_changed d then
               _ ← applyDeprovisionSideEffects id (dr_disabled d); scim_audit "scim.user_update"
             else mret tt);
        reply_user id u
      end
    end).

Definition deleteUser (idp : option uuid) : M store (reply unit) :=
  with_user idp (λ id u,
    r ← db (SetDisabled id true);
    match r with
    | Err _ => mret (WriteError 500 "could not deprovision user")
    | Ok _ =>
      _ ← applyDeprovisionSideEffects id true;
      _ ← scim_audit "scim.user_deprovision";
      mret (WriteJSON 204 tt)
    end).

(** * The bearer token *)
Context (Sum256 : string → list Byte.byte).

Definition nibble (c : ascii) : option N :=
  let n := N_of_ascii c in
  if ((48 <=? n) && (n <=? 57))%N then Some (n - 48)%N
  else if ((97 <=? n) && (n <=? 102))%N then Some (n - 87)%N
  else if ((65 <=? n) && (n <=? 70))%N then Some (n - 55)%N else None.
(** [hex.DecodeString], its error dropped: what was decoded before it. *)
Fixpoint unhex (s : string) : list Byte.byte :=
  match s with
  | String a (String b s') =>
    match nibble a, nibble b with
    | Some x, Some y => default Byte.x00 (Byte.of_N (16 * x + y)) :: unhex s'
    | _, _ => []
    end
  | _ => []
  end.

Definition bearerToken (authorization : string) : string :=
  if has_prefix "Bearer " authorization then TrimSpace (TrimPrefix "Bearer " authorization) else "".

Definition token_ok (c : scimConfig) (tok : string) : bool := bool_decide (unhex (TokenHash c) = Sum256 tok).

Definition requireSCIMToken {A} (authorization : string) (next : M store (reply A)) : M store (reply A) :=
  c ← draw config;
  if negb (Enabled c) || str_eqb (TokenHash c) "" then mret (WriteError 401 "SCIM provisioning is not enabled")
  else
    let tok := bearerToken authorization in
    if str_eqb tok "" then mret (WriteError 401 "missing bearer token")
    else if negb (token_ok c tok) then mret (WriteError 401 "invalid bearer token")
    else next.

Inductive request :=
| ListUsers (filter : string)
| GetUser (id : option uuid)
| PostUser (body : option scimUser)
| PutUser (id : option uuid) (body : option scimUser)
| PatchUser (id : option uuid) (ops : option (list patch_op))
| RemoveUser (id : option uuid).

Definition void {A} (m : M store (reply A)) : M store (reply unit) :=
  r ← m; mret (match r with WriteError c e => WriteError c e | WriteJSON c _ => WriteJSON c tt end).

(** The routes of the protocol. *)
Definition serve (authorization : string) (rq : request) : M store (reply unit) :=
  requireSCIMToken authorization
    match rq with
    | ListUsers f => void (listUsers f)
    | GetUser id => void (getUser id)
    | PostUser b => void (createUser b)
    | PutUser id b => void (replaceUser id b)
    | PatchUser id ops => void (patchUser id ops)
    | RemoveUser id => void (deleteUser id)
    end.
End scim.

(** * The settings of the integration *)
Section settings.
Context (Sum256 : string → list Byte.byte).
Context `{!Env (option scimConfig)}.
(** What the administrator's request leaves in the audit log is left out. *)
Definition settings : Type := option scimConfig.

(** [config]: a read that fails gives the zero value. *)
Definition read_config : M settings scimConfig :=
  r ← db (get_row (λ s : settings, s)); mret (match r with Ok c => c | Err _ => no_config end).
Definition SetSetting (c : scimConfig) (now : Z) (s : settings) : res store_error unit * settings :=
  (Ok tt, Some c).

Definition configPut (body : option (bool * string * string)) : M settings (reply unit) :=
  match body with
  | None => mret (WriteError 400 "invalid request body")
  | Some (enabled, role, source) =>
    c ← read_config;
    r ← db (SetSetting (MkScimConfig enabled (TokenHash c) role source));
    mret (match r with Ok _ => WriteJSON 200 tt | Err _ => WriteError 500 "could not save settings" end)
  end.

(** [token] is the draw, of the form [scim_...]. *)
Definition issueToken (token : option string) : M settings (reply string) :=
  match token with
  | None => mret (WriteError 500 "could not generate token")
  | Some token =>
    c ← read_config;
    r ← db (SetSetting (MkScimConfig true (hex (Sum256 token)) (DefaultRole c) (AuthSource c)));
    mret (match r with Ok _ => WriteJSON 201 token | Err _ => WriteError 500 "could not save token" end)
  end.

Definition revokeToken : M settings (reply unit) :=
  c ← read_config;
  r ← db (SetSetting (MkScimConfig false "" (DefaultRole c) (AuthSource c)));
  mret (match r with Ok _ => WriteJSON 200 tt | Err _ => WriteError 500 "could not revoke token" end).
End settings.

(** * What a provisioning request can change *)

(** The accounts there were keep all but e-mail, display name and whether they are disabled; new
    ones are ordinary accounts of a single sign-on source; a role that is handed out is one the
    settings name; nothing else changes but sessions ending and the audit log. *)
Record provisioned `{!AuthLib} (config : nat → scimConfig) (randPassword : nat → string) (s s' : store) : Prop := {
  pv_old : ∀ i a, users s !! i = Some a → ∃ e d b, users s' !! i = Some (with_profile e d b a);
  pv_new : ∀ i a, users s !! i = None → users s' !! i = Some a →
    u_super a = false ∧ u_service a = false ∧ u_must_change a = false ∧
    u_source a ∈ ["saml"; "oidc"; "ldap"] ∧ ∃ n, u_hash a = Some (randPassword n);
  pv_roles : ∀ i r, (i, r) ∈ user_roles (rb s') → (i, r) ∈ user_roles (rb s) ∨
    ∃ n row, roles (rb s) !! r = Some row ∧ r_name row = defaultRole (config n);
  pv_rbac : roles (rb s') = roles (rb s) ∧ role_perms (rb s') = role_perms (rb s);
  pv_tokens : api_tokens s' = api_tokens s ∧ mfa s' = mfa s ∧
    global_policy s' = global_policy s ∧ user_policies s' = user_policies s;
}.

Section provisioned.
Context `{!AuthLib} (config : nat → scimConfig) (randPassword : nat → string).
Let R := provisioned config randPassword.

Lemma profile_again e d b e' d' b' a : with_profile e d b (with_profile e' d' b' a) = with_profile e d b a.
Proof. done. Qed.

#[local] Instance provisioned_preorder : PreOrder R.
Proof.
  split.
  - intros s. split; [|by intros i a ->|by left|done|done].
    intros i a Ha. exists (u_email a), (u_display a), (u_disabled a). rewrite Ha. by destruct a.
  - intros s1 s2 s3 [A1 A2 A3 A4 A5] [B1 B2 B3 B4 B5]. split.
    + intros i a Ha. destruct (A1 i a Ha) as (e & d & b & Ha').
      destruct (B1 i _ Ha') as (e' & d' & b' & Ha''). rewrite profile_again in Ha''. by exists e', d', b'.
    + intros i a Hn Ha. destruct (users s2 !! i) as [a2|] eqn:E; [|by apply B2 with i].
      destruct (B1 i a2 E) as (e & d & b & Ha'). rewrite Ha in Ha'. injection Ha' as ->.
      destruct (A2 i a2 Hn E) as (? & ? & ? & ? & ?). by split_and!.
    + intros i r Hr. destruct (B3 i r Hr) as [Hr'|(n & row & Hrow & Hname)]; [by apply A3|right].
      destruct A4 as [A4 _]. rewrite A4 in Hrow. by eauto.
    + destruct A4, B4. split; congruence.
    + destruct A5 as (?&?&?&?), B5 as (?&?&?&?). split_and!; congruence.
Qed.

(** A statement on the sessions, the vault or the audit log. *)
Lemma provisioned_other s s' : users s' = users s → rb s' = rb s → api_tokens s' = api_tokens s →
  mfa s' = mfa s → global_policy s' = global_policy s → user_policies s' = user_policies s → R s s'.
Proof.
  intros E1 E2 E3 E4 E5 E6.
  assert (R s s) as [A1 A2 A3 A4 A5] by reflexivity. by split; rewrite ?E1, ?E2.
Qed.

#[local] Instance provisioned_free : SessionFree R.
Proof. split; intros; by apply provisioned_other. Qed.

(** A change of the row of one account within its profile. *)
Lemma provisioned_row s f id : (∀ a, ∃ e d b, f a = with_profile e d b a) →
  R s (set_users s (alter f id (users s))).
Proof.
  intros Hf. assert (R s s) as [A1 A2 A3 A4 A5] by reflexivity. split; [| |done..]; simpl.
  - intros i a Ha. destruct (decide (i = id)) as [->|Hi].
    + rewrite lookup_alter_eq, Ha. simpl. destruct (Hf a) as (e & d & b & ->). by eauto.
    + rewrite lookup_alter_ne by done. by apply A1.
  - intros i a Hn.
    destruct (decide (i = id)) as [->|Hi]; [by rewrite lookup_alter_eq, Hn|].
    by rewrite lookup_alter_ne, Hn by done.
Qed.

Lemma provisioned_update id e d b now s : R s (UpdateUser id e d b now s).2.
Proof. unfold UpdateUser. destruct (_ && _); [reflexivity|]. apply provisioned_row. by eauto. Qed.
Lemma provisioned_disable id b now s : R s (SetDisabled id b now s).2.
Proof. apply provisioned_row. intros a. exists (u_email a), (u_display a), b. by destruct a. Qed.

Lemma provisioned_create name email display n c now s :
  R s (CreateUser (MkCreateUser name email display (randPassword n) false false (authSource c)) now s).2.
Proof.
  unfold CreateUser, insertUser. destruct (existsb _ _); [reflexivity|]. simpl.
  assert (R s s) as [A1 A2 A3 A4 A5] by reflexivity. split; [| |done..]; simpl.
  - intros i a Ha. rewrite lookup_insert_ne; [by apply A1|]. intros <-. by rewrite fresh_lookup in Ha.
  - intros i a Hn [[<- <-]|[_ Ha]]%lookup_insert_Some; [|by rewrite Hn in Ha].
    simpl. split_and!; try done; [|by eexists]. unfold authSource.
    case_bool_decide as Hin; simpl.
    + unfold str_eqb. rewrite bool_decide_false by (intros He; rewrite He in Hin; set_solver). set_solver.
    + set_solver.
Qed.

Lemma provisioned_role id n now s : R s (AssignRoleByName id (defaultRole (config n)) now s).2.
Proof.
  unfold AssignRoleByName. destruct (role_ids _ s) as [|r0 l] eqn:Hl; [reflexivity|].
  case_bool_decide; [|reflexivity]. rewrite <- Hl. cbn [snd].
  assert (R s s) as [A1 A2 A3 A4 A5] by reflexivity. split; [done|done| |done|done].
  intros i r [Hin|Hin]%elem_of_union; [right|by left]. exists n.
  apply elem_of_list_to_set in Hin.
  apply list_elem_of_fmap in Hin as (r' & [= -> ->] & (a & Ha & Hname)%role_ids_spec). eauto.
Qed.

Context `{!Env store, !ScimLib, !Relies R}.

#[local] Ltac pv_stmt :=
  apply within_db; [exact _..|]; intros;
  first [ apply provisioned_create | apply provisioned_role | apply provisioned_update
        | apply provisioned_disable | by apply provisioned_other | reflexivity ].
#[local] Hint Extern 1 (within _ (db _)) => pv_stmt : within.
#[local] Hint Extern 1 (within _ (DestroyUserSessions _)) =>
  apply within_DestroyUserSessions; exact _ : within.

Lemma within_draw_then {A B} (f : nat → A) (k : A → M store B) :
  (∀ n, within R (k (f n))) → within R (x ← draw f; k x).
Proof. intros Hk w _. rewrite run_bind. exact (Hk (w_tick w) _ I). Qed.

Lemma within_scim Sum256 authorization rq :
  within R (serve config randPassword Sum256 authorization rq).
Proof.
  unfold serve, requireSCIMToken, void, listUsers, getUser, createUser, replaceUser, patchUser, deleteUser,
    with_user, reply_user, applyDeprovisionSideEffects, scim_audit.
  apply within_draw_then. intros n.
  destruct (_ || _); [apply within_ret, _|]. destruct (str_eqb _ _); [apply within_ret, _|].
  destruct (negb _); [apply within_ret, _|].
  destruct rq as [f|id|b|id b|id ops|id].
  3: { apply within_bind; [exact _| |intros; within_tac].
       destruct b as [inp|]; [|within_tac]. destruct (str_eqb _ _); [within_tac|].
       apply within_bind; [exact _|within_tac|]. intros [?|]; [within_tac|].
       apply within_draw_then. intros m. apply within_draw_then. intros j. within_tac. }
  all: within_tac.
Qed.
End provisioned.

(** * Deprovisioning *)
Section teardown.
Context `{!Env store, !Quiet Env0, !AuthLib, !ScimLib} (Hdb : ∀ n, db_err n = false).
Context (config : nat → scimConfig) (randPassword : nat → string).

(** What the end of an account's access is. *)
Record access_ended cfg (id : uuid) (s s' : store) : Prop := {
  ae_disabled : ∀ a, users s' !! id = Some a → u_disabled a = true;
  ae_torn : ∀ sid r, sessions s !! sid = Some r → s_user r = id → s_revoked r = None → torn_down sid s';
  ae_tokens : ∀ c k, c_user c = id → ¬ is_ok (loadPrincipal cfg c (World k s')).1;
  ae_others : ∀ i, i ≠ id → users s' !! i = users s !! i;
}.

Lemma teardown_ends cfg id k s s1 s' :
  (∀ a, users s1 !! id = Some a → u_disabled a = true) → (∀ i, i ≠ id → users s1 !! i = users s !! i) →
  sessions s1 = sessions s →
  let s2 := w_db (DestroyUserSessions id (World k s1)).2 in
  users s' = users s2 → sessions s' = sessions s2 → live s' = live s2 → access_ended cfg id s s'.
Proof.
  intros Hd Ho Hs s2 E1 E2 E3.
  destruct (destroyUserSessions_spec id uuid_nil k s1 Hdb) as (Ht & _ & Hus).
  fold (DestroyUserSessions id) in Ht, Hus. fold s2 in Ht, Hus.
  assert (∀ a, users s' !! id = Some a → u_disabled a = true) as Hdis by (intros a; rewrite E1, Hus; apply Hd).
  split; [done| | |].
  - intros sid r Hr Hid Hrev. rewrite <- Hs in Hr.
    destruct (Ht sid r Hr Hid Hrev (or_introl eq_refl)) as [H1' H2']. split; [by rewrite E2|by rewrite E3].
  - intros c j Hc Hok. destruct (loadPrincipal cfg c (World j s')) as [[q|] w'] eqn:Hq; [|done].
    apply loadPrincipal_ok in Hq as (sess & u & _ & Hu & _ & Hnd & _). rewrite Hc in Hu.
    by rewrite (Hdis u Hu) in Hnd.
  - intros i Hi. rewrite E1, Hus. by apply Ho.
Qed.

(** Running past the statements that only log or read. *)
Lemma run_audit action n s : scim_audit action (World n s) =
  (tt, World (S n) (set_audits s ((action, None) :: audits s))).
Proof. unfold scim_audit. by rewrite run_bind, run_db, Hdb. Qed.

Lemma reply_user_state id u w : w_db (reply_user id u w).2 = w_db w.
Proof.
  unfold reply_user. destruct w as [n s]. rewrite run_bind, run_db, Hdb. done.
Qed.

Lemma deleteUser_ends cfg id n s :
  (deleteUser (Some id) (World n s)).1 = WriteJSON 204 tt →
  access_ended cfg id s (w_db (deleteUser (Some id) (World n s)).2).
Proof.
  unfold deleteUser, with_user. rewrite run_bind, run_db, Hdb. cbn [fst snd GetUserByID get_row reading].
  destruct (users s !! id) as [u|]; [|done]. rewrite run_bind, run_db, Hdb. cbn [fst snd SetDisabled update_row].
  unfold applyDeprovisionSideEffects. rewrite run_bind. intros _.
  set (s1 := set_users s _). destruct (DestroyUserSessions id (World (S (S n)) s1)) as [[] [k2 s2]] eqn:Hd.
  cbn [fst snd]. rewrite run_bind, run_audit. cbn [snd w_db mret M_ret].
  apply (teardown_ends cfg id (S (S n)) s s1); [| |done|by rewrite Hd..].
  - intros a. simpl. rewrite lookup_alter_eq. by intros (b & _ & ->)%fmap_Some.
  - intros i Hi. by apply lookup_alter_ne.
Qed.

Lemma update_then_ends cfg id email display k s s1 s' :
  UpdateUser id email display true k s = (Ok tt, s1) →
  ∀ j, let s2 := w_db (DestroyUserSessions id (World j s1)).2 in
  users s' = users s2 → sessions s' = sessions s2 → live s' = live s2 → access_ended cfg id s s'.
Proof.
  unfold UpdateUser. destruct (_ && _); [done|]. intros [= <-] j. apply teardown_ends; [| |done].
  - intros a. simpl. rewrite lookup_alter_eq. by intros (b & _ & ->)%fmap_Some.
  - intros i Hi. by apply lookup_alter_ne.
Qed.

Lemma replaceUser_ends cfg id inp n s body :
  Active inp = false → (replaceUser (Some id) (Some inp) (World n s)).1 = WriteJSON 200 body →
  access_ended cfg id s (w_db (replaceUser (Some id) (Some inp) (World n s)).2).
Proof.
  intros Ha. unfold replaceUser, with_user. rewrite run_bind, run_db, Hdb. cbn [fst snd GetUserByID get_row reading].
  destruct (users s !! id) as [u|]; [|done]. rewrite Ha. cbn [negb]. rewrite run_bind, run_db, Hdb.
  destruct (UpdateUser id _ _ true _ s) as [[[]|e] s1] eqn:Hu; [|done]. cbn [fst snd].
  unfold applyDeprovisionSideEffects. rewrite run_bind. intros _.
  destruct (DestroyUserSessions id (World (S (S n)) s1)) as [[] [k2 s2]] eqn:Hd. cbn [fst snd].
  rewrite run_bind, run_audit. cbn [fst snd]. rewrite reply_user_state.
  apply (update_then_ends cfg id _ _ _ s s1 _ Hu (S (S n))); by rewrite Hd.
Qed.

Lemma patchUser_ends cfg id ops n s u body :
  users s !! id = Some u → dr_disabled (apply_ops u ops) = true → dr_changed (apply_ops u ops) = true →
  (patchUser (Some id) (Some ops) (World n s)).1 = WriteJSON 200 body →
  access_ended cfg id s (w_db (patchUser (Some id) (Some ops) (World n s)).2).
Proof.
  intros Hus Hd Hc. unfold patchUser, with_user. rewrite run_bind, run_db, Hdb. cbn [fst snd GetUserByID get_row reading].
  rewrite Hus. rewrite Hd, Hc. rewrite run_bind, run_db, Hdb.
  destruct (UpdateUser id _ _ true _ s) as [[[]|e] s1] eqn:Hu; [|done]. cbn [fst snd].
  unfold applyDeprovisionSideEffects. rewrite run_bind, run_bind. intros _.
  destruct (DestroyUserSessions id (World (S (S n)) s1)) as [[] [k2 s2]] eqn:Hds. cbn [fst snd].
  rewrite run_audit. cbn [fst snd]. rewrite reply_user_state.
  apply (update_then_ends cfg id _ _ _ s s1 _ Hu (S (S n))); by rewrite Hds.
Qed.

(** A patch's last word on [active] decides. *)
Lemma apply_ops_deactivates u ops v o :
  decodeBool v = Some false → op_value o = v → EqualFold (op_op o) "remove" = false →
  ToLower (TrimSpace (op_path o)) = "active" →
  dr_disabled (apply_ops u (ops ++ [o])) = true ∧ dr_changed (apply_ops u (ops ++ [o])) = true.
Proof.
  intros Hv <- Hr Hp. unfold apply_ops. rewrite foldl_app. simpl. unfold apply_op at 1 3.
  rewrite Hr, Hp. simpl. unfold set_active. by rewrite Hv.
Qed.
End teardown.

(** * The properties *)

(** C20: the provisioning endpoint is confined: a request without the current token changes nothing at
    all; with it, and whatever statements fail and whoever else provisions meanwhile, the accounts
    there were keep their name, password, source and super-administrator status, new accounts are
    ordinary single sign-on accounts, and a role is only handed out when the settings name it. *)
Theorem provisioning_confined `{!Env store, !AuthLib, !ScimLib} config randPassword
    `{!Relies (provisioned config randPassword)} Sum256 authorization rq (w : world store) :
  let res := serve config randPassword Sum256 authorization rq w in
  provisioned config randPassword (w_db w) (w_db res.2) ∧
  (res.2 = w ∨
   let c := config (w_tick w) in
   Enabled c = true ∧ TokenHash c ≠ "" ∧ bearerToken authorization ≠ "" ∧
   unhex (TokenHash c) = Sum256 (bearerToken authorization)).
Proof.
  intros res. split; [exact (proj1 (within_scim config randPassword Sum256 authorization rq w I))|].
  unfold res, serve, requireSCIMToken. rewrite run_bind. cbn [draw fst snd].
  destruct (Enabled (config (w_tick w))) eqn:He; [|by left].
  destruct (str_eqb (TokenHash _) "") eqn:Ht; [by left|]. cbn [negb orb].
  destruct (str_eqb (bearerToken authorization) "") eqn:Hb; [by left|].
  destruct (token_ok _ _ _) eqn:Hk; [|by left]. right.
  unfold str_eqb in *. apply bool_decide_eq_false in Ht, Hb. apply bool_decide_eq_true in Hk. done.
Qed.

(** deprovisioning ends access: once a delete is answered 204, or a replace or a patch that clears
    [active] is answered 200, the account is disabled, every session it had open is revoked with
    its SSH credential, none of its tokens is accepted, and no other account has changed. *)
Theorem deprovision_ends_access `{!Env store, !Quiet Env0, !AuthLib, !ScimLib} cfg id n s :
  (∀ n, db_err n = false) →
  ((deleteUser (Some id) (World n s)).1 = WriteJSON 204 tt →
   access_ended cfg id s (w_db (deleteUser (Some id) (World n s)).2)) ∧
  (∀ inp body, Active inp = false →
   (replaceUser (Some id) (Some inp) (World n s)).1 = WriteJSON 200 body →
   access_ended cfg id s (w_db (replaceUser (Some id) (Some inp) (World n s)).2)) ∧
  (∀ u ops o body, users s !! id = Some u → decodeBool (op_value o) = Some false →
   EqualFold (op_op o) "remove" = false → ToLower (TrimSpace (op_path o)) = "active" →
   (patchUser (Some id) (Some (ops ++ [o])) (World n s)).1 = WriteJSON 200 body →
   access_ended cfg id s (w_db (patchUser (Some id) (Some (ops ++ [o])) (World n s)).2)).
Proof.
  intros Hdb. split_and!.
  - by apply deleteUser_ends.
  - intros inp body Ha. by apply replaceUser_ends.
  - intros u ops o body Hu Hv Hr Hp.
    destruct (apply_ops_deactivates u ops _ o Hv eq_refl Hr Hp) as [H1' H2'].
    by apply (patchUser_ends Hdb cfg id (ops ++ [o]) n s u body Hu H1' H2').
Qed.

(** a patch of the display name alone writes [is_disabled] as it read it: when an administrator
    disables the account between the read and the write, both requests are answered 200 and the
    account is enabled. *)
Theorem patch_undoes_disable `{!AuthLib, !Unicode, !ScimLib} p id u ops n s e d :
  let disable s := disableUser (Env0 := quiet_env) p (Some id) (Some true) (World 0 s) in
  (disable s).1 = WriteJSON 200 true →
  users s !! id = Some u → u_disabled u = false →
  apply_ops u ops = MkDraft e d false false →
  existsb (λ ku, email_clash e ku.2) (map_to_list (delete id (users (w_db (disable s).2)))) = false →
  let env := interposed (S n) (λ s, w_db (disable s).2) in
  let res := patchUser (Env0 := env) (Some id) (Some ops) (World n s) in
  (∃ body, res.1 = WriteJSON 200 body) ∧ ∃ a, users (w_db res.2) !! id = Some a ∧ u_disabled a = false.
Proof.
  intros disable Hok Hu Hen Hops Hclash env res.
  destruct (disable s) as [r w1] eqn:Hdis. simpl in Hok. subst r.
  destruct (disableUser_run (Env0 := quiet_env) p id 0 s w1 ltac:(done) Hdis) as (k & Hus & _ & _).
  destruct (destroyUserSessions_spec (Env0 := quiet_env) id uuid_nil k
    (set_users s (alter (with_disabled true) id (users s))) ltac:(done)) as (_ & _ & Hus').
  rewrite Hus' in Hus. simpl in Hus.
  assert (users (w_db w1) !! id = Some (with_disabled true u)) as Hu1 by (by rewrite Hus, lookup_alter_eq, Hu).
  subst res. unfold patchUser, with_user. rewrite run_bind, db_eq.
  cbn [env interposed db_err interfere clock w_tick w_db]. rewrite (bool_decide_false (n = S n)) by lia.
  cbn [GetUserByID get_row reading fst snd]. rewrite Hu, Hops. cbn [dr_email dr_display dr_disabled dr_changed].
  rewrite run_bind, db_eq. cbn [env interposed db_err interfere clock w_tick w_db].
  rewrite bool_decide_true, Hdis by done. cbn [fst snd]. unfold UpdateUser. simpl in Hclash. rewrite Hclash, andb_false_r.
  cbn [fst snd]. rewrite run_bind. cbn [fst snd mret M_ret]. unfold reply_user. rewrite run_bind, db_eq.
  cbn [env interposed db_err interfere clock w_tick w_db]. rewrite (bool_decide_false (S (S n) = S n)) by lia.
  cbn [GetUserByID get_row reading fst snd set_users users]. rewrite lookup_alter_eq, Hu1.
  cbn [fmap option_fmap option_map mret M_ret fst snd w_db users]. split; [by eexists|].
  cbn [set_users users]. rewrite lookup_alter_eq, Hu1. by eexists.
Qed.

(** the protection of the last super administrator does not cover provisioning: deleting it is
    answered 204 and leaves none. *)
Theorem scim_removes_last_super `{!Env store, !Quiet Env0, !AuthLib, !ScimLib} id n s :
  (∀ n, db_err n = false) → is_Some (users s !! id) →
  (∀ i a, i ≠ id → users s !! i = Some a → active_super a = false) →
  let res := deleteUser (Some id) (World n s) in
  res.1 = WriteJSON 204 tt ∧ ¬ has_super (w_db res.2).
Proof.
  intros Hdb [u Hu] Ho res.
  assert (res.1 = WriteJSON 204 tt) as Hr.
  { subst res. unfold deleteUser, with_user. rewrite run_bind, run_db, Hdb. cbn [fst snd GetUserByID get_row reading].
    rewrite Hu, run_bind, run_db, Hdb. cbn [fst snd SetDisabled update_row]. rewrite run_bind, run_bind. done. }
  split; [done|]. destruct (deleteUser_ends Hdb (Config 0 0 0) id n s Hr) as [Hd _ _ Hoth].
  intros (i & a & Ha & Hact). destruct (decide (i = id)) as [->|Hi].
  - revert Hact. unfold active_super. rewrite (Hd a Ha). by rewrite andb_false_r.
  - fold res in Hoth. rewrite Hoth in Ha by done. by rewrite (Ho i a Hi Ha) in Hact.
Qed.

(** An account deprovisioned by a delete is not taken up again: creating it anew is refused. *)
Lemma recreate_conflicts `{!Env store, !Quiet Env0, !AuthLib, !ScimLib, !CitextLaws}
    config randPassword id u inp n s :
  (∀ n, db_err n = false) → users s !! id = Some u → TrimSpace (UserName inp) = u_name u → u_name u ≠ "" →
  (createUser config randPassword (Some inp) (World n s)).1 = WriteError 409 "user already exists".
Proof.
  intros Hdb Hu Hn Hne. unfold createUser. rewrite Hn. unfold str_eqb. rewrite bool_decide_false by done.
  rewrite run_bind, run_db, Hdb. cbn [fst snd get_row reading].
  assert (is_Some (user_by_name citext_eq s (u_name u))) as [ku ->]; [|done].
  unfold user_by_name. destruct (map_to_list _) as [|x l] eqn:E; [|by eexists].
  apply map_to_list_empty_iff in E.
  assert (filter (λ ku, citext_eq (u_name ku.2) (u_name u) = true) (users s) !! id = Some u) as Hf.
  { apply map_lookup_filter_Some. split; [done|]. apply citext_refl. }
  by rewrite E, lookup_empty in Hf.
Qed.

(** * Witnesses *)
#[local] Existing Instance AuthSession.toy_auth.
#[local] Existing Instance Accounts.toy_unicode.

(** A toy JSON: a value is a Boolean or a text. *)
#[local] Instance toy_json : ScimLib := {|
  json := bool + string;
  as_bool := λ v, match v with inl b => Some b | inr _ => None end;
  as_string := λ v, match v with inr s => Some s | inl _ => None end;
  as_user := λ _, None; active_member := λ _, None;
  ToLower := λ s, s; EqualFold := str_eqb |}.

Definition off : patch_op := MkOp "replace" "active" (inl false).
Definition rename : patch_op := MkOp "replace" "displayname" (inr "Ada L").
Definition toy_config (n : nat) : scimConfig := MkScimConfig true "6f6b" "" "".
Definition toy_sum (s : string) : list Byte.byte := if str_eqb s "tok" then [Byte.x6f; Byte.x6b] else [].

Lemma provisioning_confined_witness :
  let res := serve (Env0 := quiet_env) toy_config (λ _, "pw") toy_sum "Bearer tok" (RemoveUser (Some 1%N)) (World 0 admins) in
  let bad := serve (Env0 := quiet_env) toy_config (λ _, "pw") toy_sum "Bearer bad" (RemoveUser (Some 1%N)) (World 0 admins) in
  res.1 = WriteJSON 204 tt ∧ bad.2 = World 0 admins ∧
  provisioned toy_config (λ _, "pw") admins (w_db res.2).
Proof.
  assert (Relies (Env0 := quiet_env) (provisioned toy_config (λ _, "pw"))) as Hr.
  { intros k s. apply provisioned_other; done. }
  split; [by vm_compute|]. split.
  - destruct (@provisioning_confined quiet_env _ _ toy_config (λ _, "pw") Hr toy_sum "Bearer bad"
      (RemoveUser (Some 1%N)) (World 0 admins)) as [_ [He|(_ & _ & _ & He)]]; [exact He|by vm_compute in He].
  - exact (proj1 (@provisioning_confined quiet_env _ _ toy_config (λ _, "pw") Hr toy_sum "Bearer tok"
      (RemoveUser (Some 1%N)) (World 0 admins))).
Defined.

Lemma deprovision_ends_access_witness :
  let res := patchUser (Env0 := quiet_env) (Some 1%N) (Some [rename; off]) (World 0 admins) in
  torn_down 7%N (w_db res.2) ∧
  ¬ is_ok (loadPrincipal (Env0 := quiet_env) toy_cfg (MkClaims 1 7 "ada") (World 9 (w_db res.2))).1.
Proof.
  intros res.
  destruct (@deprovision_ends_access quiet_env _ _ _ toy_cfg 1%N 0 admins ltac:(done)) as (_ & _ & Hp).
  destruct (Hp _ [rename] off _ eq_refl eq_refl eq_refl ltac:(by vm_compute) ltac:(vm_compute; reflexivity)) as [_ Ht Hl _].
  split; [by eapply Ht|by apply Hl].
Defined.

Lemma patch_undoes_disable_witness :
  let disable s := disableUser (Env0 := quiet_env) root_principal (Some 1%N) (Some true) (World 0 s) in
  ∃ a, users (w_db (patchUser (Env0 := interposed 1 (λ s, w_db (disable s).2)) (Some 1%N) (Some [rename])
    (World 0 admins)).2) !! 1%N = Some a ∧ u_disabled a = false.
Proof.
  intros disable.
  refine (proj2 (patch_undoes_disable root_principal 1%N _ [rename] 0 admins _ _ _ _ _ _ _)).
  all: by vm_compute.
Defined.

Definition one_root : store := set_users admins {[4%N := root "root"]}.
Lemma scim_removes_last_super_witness :
  ¬ has_super (w_db (deleteUser (Env0 := quiet_env) (Some 4%N) (World 0 one_root)).2).
Proof.
  apply (scim_removes_last_super (Env0 := quiet_env) 4%N 0 one_root); [done|by eexists|].
  intros i a Hi Ha. cbn [one_root set_users users] in Ha. apply lookup_singleton_Some in Ha as [<- _]. done.
Defined.

(** The name of a provisioned account is not checked, where an administrator's request is refused. *)
Lemma provisioned_name_unchecked :
  let name := "eve,root" +:+ String "010"%char "x" in
  let s' := w_db (createUser (Env0 := quiet_env) toy_config (λ _, "pw")
    (Some (MkScimUser name None "" [] true)) (World 0 admins)).2 in
  validUsername name = false ∧ u_name <$> users s' !! fresh (dom (users admins)) = Some name.
Proof. by vm_compute. Qed.
