(* ===== verification/Sso.v ===== *)
(** Sign-in through a directory or an identity provider: [auth/ldap.go], [auth/oidc.go] and
    [auth/saml.go], with their settings and the reseal sweep of [auth/reseal.go].

    The LDAP, OpenID Connect and SAML libraries are parameters, read at the tick they are called
    at. The redirect that starts a flow, discovery with its cache, the cookies, single logout at
    the provider and the metadata document are left out. *)
From S2P Require Import Prelude GoStrings SecretBox AuthSession Accounts.
From Stdlib Require Import Strings.Ascii Strings.Byte.

(** * Statements *)
Section statements.
Context `{!AuthLib}.

Definition user_by_email (s : store) (email : string) : option (uuid * user) :=
  head (map_to_list (filter (λ ku, negb (str_eqb (u_email ku.2) "") && citext_eq (u_email ku.2) email = true) (users s))).
Definition GetUserByUsername (name : string) : Z → store → res store_error (uuid * user) * store :=
  get_row (λ s, user_by_name citext_eq s name).
Definition GetUserByEmail (email : string) : Z → store → res store_error (uuid * user) * store :=
  get_row (λ s, user_by_email s email).
End statements.

Definition RecordAuthEvent (event : string) (user : option uuid) (now : Z) (s : store)
    : res store_error unit * store := (Ok tt, set_events s ((event, user) :: events (mfa s))).

(** * From an identity to an account *)

(** [idpAccountConflict] *)
Definition idpAccountConflict (u : user) (source : string) : bool :=
  u_super u || negb (str_eqb (u_source u) source).

(** [reconcileGroupRoleActions]: what to assign and what to revoke; the order of the two lists,
    which is that of a Go map, is the model's own. *)
Definition managed_roles (groupRoleMap : gmap string string) : gset string :=
  list_to_set (filter (λ r, r ≠ "") (map_to_list groupRoleMap).*2).
Definition desired_roles (groupRoleMap : gmap string string) (groups : list string) : gset string :=
  list_to_set (filter (λ r, r ≠ "") (omap (λ g, groupRoleMap !! g) groups)).
Definition reconcileGroupRoleActions (groupRoleMap : gmap string string) (groups : list string)
    : list string * list string :=
  if bool_decide (groupRoleMap = ∅) then ([], [])
  else
    let all := elements (managed_roles groupRoleMap) in
    let desired := desired_roles groupRoleMap groups in
    (filter (λ r, r ∈ desired) all, filter (λ r, r ∉ desired) all).

(** What the provider asserted. *)
Record identity := Identity {
  i_name : string; i_email : string; i_display : string; i_groups : list string;
}.
(** What differs between the three providers: the name of the source, whether the address may
    match an account, the settings, the password hash of a new account, and what each refusal is
    called. *)
Record provider_rules (E : Type) := Rules {
  p_source : string; p_by_email : bool; p_auto : bool; p_role : string;
  p_map : gmap string string; p_hash : nat → string;
  account_conflict : E; not_provisioned : E; provision_failed : E; is_disabled : E;
}.
Arguments Rules {E}.
Arguments p_source {E}. Arguments p_by_email {E}. Arguments p_auto {E}. Arguments p_role {E}.
Arguments p_map {E}. Arguments p_hash {E}. Arguments account_conflict {E}.
Arguments not_provisioned {E}. Arguments provision_failed {E}. Arguments is_disabled {E}.

Section provision.
Context `{!Env store, !AuthLib}.

Definition for_each (f : string → Z → store → res store_error unit * store) (l : list string) : M store unit :=
  foldr (λ r k, _ ← db (f r); k) (mret tt) l.

Definition reconcileGroupRoles (id : uuid) (groupRoleMap : gmap string string) (groups : list string) : M store unit :=
  let actions := reconcileGroupRoleActions groupRoleMap groups in
  _ ← for_each (AssignRoleByName id) actions.1;
  for_each (RemoveRoleByName id) actions.2.

Definition or_read_only (role : string) : string := if str_eqb role "" then "Read-Only" else role.

Definition settle {E} (p : provider_rules E) (i : identity) (u : uuid * user) : M store (res E (uuid * user)) :=
  if u_disabled u.2 then mret (Err (is_disabled p))
  else _ ← reconcileGroupRoles u.1 (p_map p) (i_groups i); mret (Ok u).

(** The account by its name, or else by its address. *)
Definition find_account {E} (p : provider_rules E) (i : identity) : M store (res store_error (uuid * user)) :=
  r ← db (GetUserByUsername (i_name i));
  match r with
  | Ok u => mret (Ok u)
  | Err e => if negb (str_eqb (i_email i) "") && p_by_email p then db (GetUserByEmail (i_email i))
             else mret (Err e)
  end.

Definition provision {E} (p : provider_rules E) (i : identity) : M store (res E (uuid * user)) :=
  r ← find_account p i;
  match r with
  | Ok u => if idpAccountConflict u.2 (p_source p) then mret (Err (account_conflict p)) else settle p i u
  | Err _ =>
    if negb (p_auto p) then mret (Err (not_provisioned p))
    else
      hash ← draw (p_hash p);
      c ← db (CreateUser (MkCreateUser (i_name i) (i_email i) (i_display i) hash false false (p_source p)));
      match c with
      | Err _ => mret (Err (provision_failed p))
      | Ok u =>
        _ ← db (AssignRoleByName u.1 (or_read_only (p_role p)));
        settle p i u
      end
  end.
End provision.

(** * LDAP and Active Directory ([auth/ldap.go]) *)
Record ldapConfig := MkLdap {
  ldap_on : bool; ldap_url : string; ldap_starttls : bool; ldap_bind_dn : string;
  ldap_bind_enc : string; ldap_base : string; ldap_filter : string;
  ldap_user_attr : string; ldap_mail_attr : string; ldap_name_attr : string; ldap_groups_attr : string;
  ldap_role : string; ldap_auto : bool; ldap_map : gmap string string;
}.
Definition userFilter (c : ldapConfig) : string :=
  if str_eqb (ldap_filter c) "" then "(uid=%s)" else ldap_filter c.
Definition attrOr (v def : string) : string := if str_eqb v "" then def else v.

(** An entry of a search: its name and the values of its attributes. *)
Record ldap_entry := Entry { e_dn : string; e_attrs : gmap string (list string) }.
Definition GetAttributeValues (e : ldap_entry) (attr : string) : list string := default [] (e_attrs e !! attr).
Definition GetAttributeValue (e : ldap_entry) (attr : string) : string := default "" (head (GetAttributeValues e attr)).

(** [go-ldap], at a tick: dialling, TLS on the connection, binding as a name with a password, and
    a search below a base with a filter. [Sprintf] is [fmt.Sprintf] of a format and one string. *)
Class LdapLib := {
  ldap_conn : Type;
  DialURL : string → nat → option ldap_conn;
  StartTLS : ldap_conn → nat → bool;
  Bind : ldap_conn → string → string → nat → bool;
  Search : ldap_conn → string → string → nat → option (list ldap_entry);
  EscapeFilter : string → string;
  Sprintf : string → string → string;
}.

(** [SplitN(s, "=", 2)] when it gives two parts. *)
Fixpoint cut (c : ascii) (s : string) : option (string * string) :=
  match s with
  | EmptyString => None
  | String d s' =>
    if Ascii.eqb c d then Some ("", s')
    else match cut c s' with Some (a, b) => Some (String d a, b) | None => None end
  end.
(** [EqualFold(s, "cn")]: no other rune folds to either letter. *)
Definition is_cn (s : string) : bool := bool_decide (s ∈ ["cn"; "CN"; "Cn"; "cN"]).
Definition cn_part (part : string) : option string :=
  match cut "="%char (TrimSpace part) with
  | Some (k, v) => if is_cn k then Some v else None
  | None => None
  end.
Definition ldapCN (dn : string) : string := default dn (head (omap cn_part (Split ","%char dn))).

Inductive sign_in_err := LdapInvalid | LdapDisabled.

Section ldap.
Context `{!Env store, !AuthLib, !LdapLib, !SecretBox}.
(** The settings row as a statement at a tick reads it; the passphrase of the CA key. *)
Context (config : nat → ldapConfig) (CAKeyPassphrase : list byte).

Definition ldap_usable (c : ldapConfig) : bool :=
  ldap_on c && negb (str_eqb (ldap_url c) "") && negb (str_eqb (ldap_base c) "").
Definition ldapEnabled : M store bool := c ← draw config; mret (ldap_usable c).

Definition ldapBindPassword (c : ldapConfig) : string :=
  if str_eqb (ldap_bind_enc c) "" then ""
  else match box_open CAKeyPassphrase (ldap_bind_enc c) with
       | Ok p => String.string_of_list_byte p
       | Err _ => ""
       end.

Definition ldap_rules (c : ldapConfig) : provider_rules sign_in_err :=
  Rules "ldap" true (ldap_auto c) (ldap_role c) (ldap_map c) (λ _, "ldap")
    LdapInvalid LdapInvalid LdapInvalid LdapDisabled.

(** The entry the directory has for the name, once it accepted the password for it. *)
Definition ldap_verify (c : ldapConfig) (username password : string) (n : nat) : option ldap_entry :=
  conn ← DialURL (ldap_url c) n;
  if ldap_starttls c && negb (StartTLS conn n) then None
  else if negb (str_eqb (ldap_bind_dn c) "") && negb (Bind conn (ldap_bind_dn c) (ldapBindPassword c) n) then None
  else
    found ← Search conn (ldap_base c) (Sprintf (userFilter c) (EscapeFilter username)) n;
    match found with
    | [e] => if Bind conn (e_dn e) password n then Some e else None
    | _ => None
    end.

Definition ldap_identity (c : ldapConfig) (username : string) (e : ldap_entry) : identity :=
  let uname := GetAttributeValue e (attrOr (ldap_user_attr c) "uid") in
  Identity (if str_eqb uname "" then username else uname)
    (GetAttributeValue e (attrOr (ldap_mail_attr c) "mail"))
    (GetAttributeValue e (attrOr (ldap_name_attr c) "cn"))
    (ldapCN <$> GetAttributeValues e (attrOr (ldap_groups_attr c) "memberOf")).

Definition authenticateLDAP (username password : string) : M store (res sign_in_err (uuid * user)) :=
  c ← draw config;
  if negb (ldap_usable c) || str_eqb password "" then mret (Err LdapInvalid)
  else
    v ← draw (ldap_verify c username password);
    match v with
    | None => mret (Err LdapInvalid)
    | Some e => provision (ldap_rules c) (ldap_identity c username e)
    end.
End ldap.

(** * OpenID Connect ([auth/oidc.go]) *)
Record oidcConfig := MkOidc {
  oidc_on : bool; oidc_issuer : string; oidc_client : string; oidc_secret_enc : string;
  oidc_user_claim : string; oidc_mail_claim : string; oidc_groups_claim : string;
  oidc_role : string; oidc_auto : bool; oidc_map : gmap string string;
}.
Definition usernameClaim (c : oidcConfig) : string :=
  if str_eqb (oidc_user_claim c) "" then "preferred_username" else oidc_user_claim c.
Definition emailClaim (c : oidcConfig) : string :=
  if str_eqb (oidc_mail_claim c) "" then "email" else oidc_mail_claim c.

(** A JSON value of a claim ([None] for an element of an array that is no string), and the claims
    of a token. *)
Inductive claim := CString (s : string) | CBool (b : bool) | CList (l : list (option string)) | COther.
Definition claims := gmap string claim.

Definition claimString (m : claims) (key : string) : string :=
  match m !! key with Some (CString v) => TrimSpace v | _ => "" end.

(** [EqualFold(s, "true")]: every letter of it folds to its two cases only. *)
Definition fold_ascii (c : ascii) : ascii :=
  if code_between 65 90 c then ascii_of_N (N_of_ascii c + 32) else c.
Fixpoint lower_ascii (s : string) : string :=
  match s with EmptyString => "" | String c s' => String (fold_ascii c) (lower_ascii s') end.
Definition claimBool (m : claims) (key : string) : bool :=
  match m !! key with
  | Some (CBool b) => b
  | Some (CString v) => str_eqb (lower_ascii (TrimSpace v)) "true"
  | _ => false
  end.
Definition claimStrings (m : claims) (key : string) : list string :=
  if str_eqb key "" then []
  else match m !! key with
       | Some (CList l) => omap id l
       | Some (CString v) => [v]
       | _ => []
       end.

(** Where the browser is sent, and the session it then has. *)
Inductive sso_reply :=
| SsoSession (user : uuid) (t : Tokens) (location : string)
| SsoRedirect (location : string).

(** A discovered provider exchanges the code for a raw ID token (or a response without one), whose
    signature, issuer and audience it verifies; what a verified token holds. *)
Record id_token := IdToken { it_nonce : string; it_claims : option claims }.
Class OidcLib := {
  oidc_provider : Type;
  oidcProvider : string → nat → option oidc_provider;
  Exchange : oidc_provider → string → string → nat → option (option string);
  Verify : oidc_provider → string → string → nat → option id_token;
}.

(** The request: the [state] and [code] of the query, the three cookies. *)
Record callback := Callback {
  cb_state : string; cb_code : string; cb_ip : string; cb_ua : string;
  ck_state : option string; ck_nonce : option string; ck_verifier : option string;
}.

(** [PolicyDenied] *)
Definition PolicyDenied (e : auth_err) : bool :=
  match e with ErrIPNotAllowed | ErrSessionLimit => true | _ => false end.

(** [randPassword]: two random tokens in a row. *)
Section sso.
Context `{!Env store, !AuthLib, !OidcLib}.
Context (cfg : AuthSession.config) (config : nat → oidcConfig) (randPassword : nat → string).

Definition oidc_rules (c : oidcConfig) (m : claims) : provider_rules string :=
  Rules "oidc" (claimBool m "email_verified") (oidc_auto c) (oidc_role c) (oidc_map c)
    randPassword "account_conflict" "not_provisioned" "provision_failed" "disabled".

Definition oidc_identity (c : oidcConfig) (m : claims) : option identity :=
  let username := claimString m (usernameClaim c) in
  let email := claimString m (emailClaim c) in
  let username := if str_eqb username "" then email else username in
  if str_eqb username "" then None
  else Some (Identity username email (claimString m "name") (claimStrings m (oidc_groups_claim c))).

Definition provisionOIDCUser (c : oidcConfig) (m : claims) : M store (res string (uuid * user)) :=
  match oidc_identity c m with
  | None => mret (Err "no_username")
  | Some i => provision (oidc_rules c m) i
  end.

(** A session for the account the provider vouched for. [fail]: what the handler does when the
    session cannot be written. *)
Definition sso_session (u : uuid * user) (ip ua location : string) (fail : M store sso_reply) : M store sso_reply :=
  t ← CreateSession cfg u.1 ip ua true;
  match t with
  | Err e =>
    if PolicyDenied e then
      _ ← db (RecordAuthEvent "login_blocked" (Some u.1)); mret (SsoRedirect "/login?sso=blocked")
    else fail
  | Ok t =>
    _ ← db (RecordAuthEvent "login_success" (Some u.1));
    _ ← db (AppendAudit "auth.login" (Some u.1));
    mret (SsoSession u.1 t location)
  end.

(** The claims of the ID token, once the state, the token and the nonce were checked. *)
Definition verified_claims (c : oidcConfig) (rq : callback) (n : nat) : option claims :=
  let state := default "" (ck_state rq) in
  if str_eqb state "" || negb (str_eqb (cb_state rq) state) then None
  else
    nonce ← ck_nonce rq;
    verifier ← ck_verifier rq;
    p ← oidcProvider (oidc_issuer c) n;
    tok ← Exchange p (cb_code rq) verifier n;
    raw ← tok;
    idt ← Verify p (oidc_client c) raw n;
    if negb (str_eqb (it_nonce idt) nonce) then None else it_claims idt.

Definition oidcCallback (rq : callback) : M store sso_reply :=
  c ← draw config;
  let fail := mret (SsoRedirect "/login?sso=error") in
  if negb (oidc_on c) then fail
  else
    v ← draw (verified_claims c rq);
    match v with
    | None => fail
    | Some m =>
      u ← provisionOIDCUser c m;
      match u with
      | Err reason => mret (SsoRedirect ("/login?sso=" +:+ reason))
      | Ok u => sso_session u (cb_ip rq) (cb_ua rq) "/" fail
      end
    end.
End sso.

(** * SAML ([auth/saml.go]) *)

(** ** Assertions are used once *)
Definition samlAssertionTTL : Z := 10 * minute.
(** [observe] on the cache of when each id is forgotten: true for a replay. *)
Definition observe (ttl : Z) (id : string) (now : Z) (c : gmap string Z) : bool * gmap string Z :=
  let c := filter (λ kv, ¬ kv.2 < now) c in
  match c !! id with
  | Some exp => if now <? exp then (true, c) else (false, <[id := now + ttl]> c)
  | None => (false, <[id := now + ttl]> c)
  end.
(** The loop of the ACS: true when an assertion has no id or was seen. *)
Fixpoint observe_all (ids : list string) (now : Z) (c : gmap string Z) : bool * gmap string Z :=
  match ids with
  | [] => (false, c)
  | id :: ids' =>
    if str_eqb id "" then (true, c)
    else let r := observe samlAssertionTTL id now c in
         if r.1 then (true, r.2) else observe_all ids' now r.2
  end.

Record samlConfig := MkSaml {
  saml_on : bool; saml_idp : string; saml_sso : string; saml_cert : string; saml_sp_cert : string;
  saml_key_enc : string; saml_user_attr : string; saml_mail_attr : string; saml_name_attr : string;
  saml_groups_attr : string; saml_role : string; saml_auto : bool; saml_map : gmap string string;
}.
Definition saml_enabled (c : samlConfig) : bool :=
  saml_on c && negb (str_eqb (saml_sso c) "") && negb (str_eqb (saml_idp c) "") && negb (str_eqb (saml_cert c) "").

(** What a response asserts. *)
Record assertion_info := Assertion {
  a_name_id : string; a_values : gmap string (list string);
  a_invalid_time : bool; a_not_in_audience : bool; a_ids : list string;
}.
Class SamlLib := {
  (** a service provider can be built from the settings *)
  samlSP : samlConfig → bool;
  (** the signature, audience and time checks of the library *)
  RetrieveAssertionInfo : samlConfig → string → nat → option assertion_info;
}.

Definition samlAttrValues (vals : gmap string (list string)) (name : string) : list string :=
  if str_eqb name "" then []
  else filter (λ s, s ≠ "") (TrimSpace <$> default [] (vals !! name)).
Definition samlAttrFirst (vals : gmap string (list string)) (name : string) : string :=
  default "" (head (samlAttrValues vals name)).

Definition samlRelay (s : string) : string :=
  let s := TrimSpace s in
  if str_eqb s "" || negb (has_prefix "/" s) || has_prefix "//" s then "/" else s.

Section saml.
Context `{!Env store, !AuthLib, !SamlLib}.
Context (cfg : AuthSession.config) (config : nat → samlConfig) (randPassword : nat → string).

Definition saml_rules (c : samlConfig) : provider_rules string :=
  Rules "saml" true (saml_auto c) (saml_role c) (saml_map c)
    randPassword "account_conflict" "not_provisioned" "provision_failed" "disabled".

Definition saml_identity (c : samlConfig) (info : assertion_info) : option identity :=
  let username := if str_eqb (saml_user_attr c) "" then "" else samlAttrFirst (a_values info) (saml_user_attr c) in
  let username := if str_eqb username "" then TrimSpace (a_name_id info) else username in
  if str_eqb username "" then None
  else Some (Identity username (samlAttrFirst (a_values info) (saml_mail_attr c))
              (samlAttrFirst (a_values info) (saml_name_attr c)) (samlAttrValues (a_values info) (saml_groups_attr c))).

Definition provisionSAMLUser (c : samlConfig) (info : assertion_info) : M store (res string (uuid * user)) :=
  match saml_identity c info with
  | None => mret (Err "no_username")
  | Some i => provision (saml_rules c) i
  end.

(** The form of the request: the response and the relay state, when it parses. *)
Definition samlACS (form : option (string * string)) (ip ua : string) (cache : gmap string Z)
    : M store (sso_reply * gmap string Z) :=
  c ← draw config;
  let fail := _ ← db (RecordAuthEvent "login_failure" None); mret (SsoRedirect "/login?sso=error") in
  let fails cache := r ← fail; mret (r, cache) in
  if negb (saml_enabled c) then mret (SsoRedirect "/login?sso=disabled", cache)
  else if negb (samlSP c) then fails cache
  else match form with
  | None => fails cache
  | Some (response, relay) =>
    v ← draw (RetrieveAssertionInfo c response);
    match v with
    | None => fails cache
    | Some info =>
      if a_invalid_time info || a_not_in_audience info then fails cache
      else
        now ← time_now;
        let seen := observe_all (a_ids info) now cache in
        if seen.1 then fails seen.2
        else
          u ← provisionSAMLUser c info;
          match u with
          | Err reason => mret (SsoRedirect ("/login?sso=" +:+ reason), seen.2)
          | Ok u => r ← sso_session cfg u ip ua (samlRelay relay) fail; mret (r, seen.2)
          end
    end
  end.

(** [revokeLocalSession]: the session the cookie names, when it names one. *)
Definition revokeLocalSession (sid : option uuid) : M store unit :=
  match sid with Some id => _ ← Logout id; mret tt | None => mret tt end.
End saml.

(** * The settings of the three providers

    The rows as they are stored, each with the sealed secret of its provider; what the
    administrator's request leaves in the audit log is left out. *)
Record idp_settings := IdpSettings {
  st_ldap : option ldapConfig; st_oidc : option oidcConfig; st_saml : option samlConfig;
}.
Definition no_ldap : ldapConfig := MkLdap false "" false "" "" "" "" "" "" "" "" "" false ∅.
Definition no_oidc : oidcConfig := MkOidc false "" "" "" "" "" "" "" false ∅.
Definition no_saml : samlConfig := MkSaml false "" "" "" "" "" "" "" "" "" "" false ∅.
Definition with_ldap_secret (enc : string) (c : ldapConfig) : ldapConfig :=
  MkLdap (ldap_on c) (ldap_url c) (ldap_starttls c) (ldap_bind_dn c) enc (ldap_base c) (ldap_filter c)
    (ldap_user_attr c) (ldap_mail_attr c) (ldap_name_attr c) (ldap_groups_attr c) (ldap_role c) (ldap_auto c) (ldap_map c).
Definition with_oidc_secret (enc : string) (c : oidcConfig) : oidcConfig :=
  MkOidc (oidc_on c) (oidc_issuer c) (oidc_client c) enc (oidc_user_claim c) (oidc_mail_claim c)
    (oidc_groups_claim c) (oidc_role c) (oidc_auto c) (oidc_map c).
Definition with_saml_key (enc : string) (c : samlConfig) : samlConfig :=
  MkSaml (saml_on c) (saml_idp c) (saml_sso c) (saml_cert c) (saml_sp_cert c) enc (saml_user_attr c)
    (saml_mail_attr c) (saml_name_attr c) (saml_groups_attr c) (saml_role c) (saml_auto c) (saml_map c).

Section settings.
Context `{!Env idp_settings, !SecretBox}.
Context (rnd : nat → rand_draw) (CAKeyPassphrase : list byte).
(** [parseIDPCert] and [parseSPKeyPair]: X.509 and PEM decoding. *)
Context (parseIDPCert : string → bool) (parseSPKeyPair : string → string → bool).

Definition SetLdap (c : ldapConfig) (now : Z) (s : idp_settings) : res store_error unit * idp_settings :=
  (Ok tt, IdpSettings (Some c) (st_oidc s) (st_saml s)).
Definition SetOidc (c : oidcConfig) (now : Z) (s : idp_settings) : res store_error unit * idp_settings :=
  (Ok tt, IdpSettings (st_ldap s) (Some c) (st_saml s)).
Definition SetSaml (c : samlConfig) (now : Z) (s : idp_settings) : res store_error unit * idp_settings :=
  (Ok tt, IdpSettings (st_ldap s) (st_oidc s) (Some c)).

Definition read_row {A} (row : idp_settings → option A) (zero : A) : M idp_settings A :=
  r ← db (get_row row); mret (match r with Ok c => c | Err _ => zero end).

(** A secret that was supplied is sealed, an empty one keeps what is stored. *)
Definition new_secret (supplied stored : string) : M idp_settings (option string) :=
  if str_eqb supplied "" then mret (Some stored)
  else
    r ← draw rnd;
    mret (match box_seal r CAKeyPassphrase (String.list_byte_of_string supplied) with
          | Ok enc => Some enc | Err _ => None
          end).

Definition saved (r : res store_error unit) : reply unit :=
  match r with Ok _ => WriteJSON 200 tt | Err _ => WriteError 500 "could not save settings" end.

(** The settings with the secret left out, and whether there is one. *)
Definition ldapConfigGet : M idp_settings (reply (ldapConfig * bool)) :=
  c ← read_row st_ldap no_ldap;
  mret (WriteJSON 200 (with_ldap_secret "" c, negb (str_eqb (ldap_bind_enc c) ""))).
(** The body is the settings and the new password. *)
Definition ldapConfigPut (body : option (ldapConfig * string)) : M idp_settings (reply unit) :=
  match body with
  | None => mret (WriteError 400 "invalid request body")
  | Some (c, password) =>
    cur ← read_row st_ldap no_ldap;
    enc ← new_secret password (ldap_bind_enc cur);
    match enc with
    | None => mret (WriteError 500 "could not seal secret")
    | Some enc => r ← db (SetLdap (with_ldap_secret enc c)); mret (saved r)
    end
  end.

Definition oidcConfigGet : M idp_settings (reply (oidcConfig * bool)) :=
  c ← read_row st_oidc no_oidc;
  mret (WriteJSON 200 (with_oidc_secret "" c, negb (str_eqb (oidc_secret_enc c) ""))).
Definition oidcConfigPut (body : option (oidcConfig * string)) : M idp_settings (reply unit) :=
  match body with
  | None => mret (WriteError 400 "invalid request body")
  | Some (c, secret) =>
    cur ← read_row st_oidc no_oidc;
    enc ← new_secret secret (oidc_secret_enc cur);
    match enc with
    | None => mret (WriteError 500 "could not seal secret")
    | Some enc => r ← db (SetOidc (with_oidc_secret enc c)); mret (saved r)
    end
  end.

Definition samlConfigGet : M idp_settings (reply (samlConfig * bool)) :=
  c ← read_row st_saml no_saml;
  mret (WriteJSON 200 (with_saml_key "" c, negb (str_eqb (saml_key_enc c) ""))).
Definition samlConfigPut (body : option (samlConfig * string)) : M idp_settings (reply unit) :=
  match body with
  | None => mret (WriteError 400 "invalid request body")
  | Some (c, key) =>
    if negb (str_eqb (saml_cert c) "") && negb (parseIDPCert (saml_cert c)) then
      mret (WriteError 400 "IdP certificate is not valid PEM or base64 DER")
    else
      cur ← read_row st_saml no_saml;
      if negb (str_eqb key "") && negb (parseSPKeyPair key (saml_sp_cert c)) then
        mret (WriteError 400 "SP signing key/certificate invalid")
      else
        enc ← new_secret key (saml_key_enc cur);
        match enc with
        | None => mret (WriteError 500 "could not seal SP key")
        | Some enc => r ← db (SetSaml (with_saml_key enc c)); mret (saved r)
        end
  end.

(** [ResealSecrets]: one setting of it. A row that is missing or cannot be read is passed over. *)
Definition reseal_row {A} (row : idp_settings → option A) (secret : A → string) (with_secret : string → A → A)
    (put : A → Z → idp_settings → res store_error unit * idp_settings) (n : Z) : M idp_settings (Z * bool) :=
  r ← db (get_row row);
  match r with
  | Err _ => mret (n, true)
  | Ok c =>
    d ← draw rnd;
    match box_reseal d CAKeyPassphrase (secret c) with
    | (_, _, Some _) => mret (n, false)
    | (_, false, None) => mret (n, true)
    | (out, true, None) =>
      w ← db (put (with_secret out c));
      mret (match w with Ok _ => (n + 1, true) | Err _ => (n, false) end)
    end
  end.
(** How many were rewritten, and whether the sweep came to its end. *)
Definition ResealSecrets : M idp_settings (Z * bool) :=
  l ← reseal_row st_ldap ldap_bind_enc with_ldap_secret SetLdap 0;
  if (l.2 : bool) then reseal_row st_oidc oidc_secret_enc with_oidc_secret SetOidc l.1 else mret l.
End settings.

(** * What a sign-in through a provider can change *)

(** The requests that can sign someone in, and the account they signed in. *)
Inductive sso_op :=
| OpLdap (username password : string)
| OpOidc (rq : callback)
| OpSaml (form : option (string * string)) (ip ua : string) (cache : gmap string Z).

Definition signed_in (r : sso_reply) : option uuid :=
  match r with SsoSession u _ _ => Some u | SsoRedirect _ => None end.

Record providers := Providers { pr_ldap : nat → ldapConfig; pr_oidc : nat → oidcConfig; pr_saml : nat → samlConfig }.

Definition serve `{!Env store, !AuthLib, !LdapLib, !SecretBox, !OidcLib, !SamlLib}
    (cfg : AuthSession.config) (key : list byte) (randPassword : nat → string) (pr : providers)
    (o : sso_op) : M store (option uuid) :=
  match o with
  | OpLdap u p => r ← authenticateLDAP (pr_ldap pr) key u p; mret (match r with Ok a => Some a.1 | Err _ => None end)
  | OpOidc rq => r ← oidcCallback cfg (pr_oidc pr) randPassword rq; mret (signed_in r)
  | OpSaml form ip ua cache => r ← samlACS cfg (pr_saml pr) randPassword form ip ua cache; mret (signed_in r.1)
  end.

Definition sources : list string := ["ldap"; "oidc"; "saml"].

(** The role names the settings of a source manage, and what new accounts of it get. *)
Definition manages (pr : providers) (source name : string) : Prop :=
  (source = "ldap" ∧ ∃ n, name ∈ managed_roles (ldap_map (pr_ldap pr n))) ∨
  (source = "oidc" ∧ ∃ n, name ∈ managed_roles (oidc_map (pr_oidc pr n))) ∨
  (source = "saml" ∧ ∃ n, name ∈ managed_roles (saml_map (pr_saml pr n))).
Definition starts_with (pr : providers) (source name : string) : Prop :=
  (source = "ldap" ∧ ∃ n, name = or_read_only (ldap_role (pr_ldap pr n))) ∨
  (source = "oidc" ∧ ∃ n, name = or_read_only (oidc_role (pr_oidc pr n))) ∨
  (source = "saml" ∧ ∃ n, name = or_read_only (saml_role (pr_saml pr n))).

(** An ordinary account of a provider; [x] says which. *)
Definition of_provider (x : string) (i : uuid) (s : store) : Prop :=
  x ∈ sources ∧ ∃ a, users s !! i = Some a ∧ u_super a = false ∧ u_source a = x.

(** Accounts keep their rows, up to the login counters of a provider's account; new ones are
    ordinary accounts of a provider; roles are handed out and taken back within what the settings
    of the account's own source say; sessions are only added, for accounts of a provider. *)
Record signed_on (pr : providers) (s s' : store) : Prop := {
  so_old : ∀ i a, users s !! i = Some a → users s' !! i = Some a ∨
    (users s' !! i = Some (with_login 0 None a) ∧ u_super a = false ∧ u_source a ∈ sources);
  so_new : ∀ i a, users s !! i = None → users s' !! i = Some a →
    u_super a = false ∧ u_service a = false ∧ u_source a ∈ sources;
  so_added : ∀ i r, (i, r) ∈ user_roles (rb s') → (i, r) ∉ user_roles (rb s) →
    ∃ x row, of_provider x i s' ∧ roles (rb s) !! r = Some row ∧ (manages pr x (r_name row) ∨ starts_with pr x (r_name row));
  so_removed : ∀ i r, (i, r) ∈ user_roles (rb s) → (i, r) ∉ user_roles (rb s') →
    ∃ x row, of_provider x i s' ∧ roles (rb s) !! r = Some row ∧ manages pr x (r_name row);
  so_sessions : ∀ k x, sessions s' !! k = Some x → sessions s !! k = Some x ∨ ∃ src, of_provider src (s_user x) s';
  so_kept : ∀ k x, sessions s !! k = Some x → sessions s' !! k = Some x;
  so_rbac : roles (rb s') = roles (rb s) ∧ role_perms (rb s') = role_perms (rb s);
  so_rest : api_tokens s' = api_tokens s ∧ factors (mfa s') = factors (mfa s) ∧
    recovery (mfa s') = recovery (mfa s) ∧ user_policies s' = user_policies s;
}.

(** A row found by its name or its address. *)
Lemma found_row (f : uuid * user → bool) s u :
  head (map_to_list (filter (λ ku, f ku = true) (users s))) = Some u → users s !! u.1 = Some u.2.
Proof.
  intros Hh%head_Some_elem_of. destruct u as [i u]. apply elem_of_map_to_list in Hh.
  by apply map_lookup_filter_Some in Hh as [? _].
Qed.

Section confined.
Context `{!AuthLib} (pr : providers).
#[local] Abbreviation R := (signed_on pr).

Lemma of_provider_mono x i s s' : R s s' → of_provider x i s → of_provider x i s'.
Proof.
  intros HR (Hx & a & Ha & Hs & Hsrc). split; [done|].
  destruct (so_old _ _ _ HR i a Ha) as [?|(? & _ & _)]; eauto.
Qed.

#[local] Instance signed_on_preorder : PreOrder R.
Proof.
  split.
  - intros s. split; try done; eauto. intros i a ->. done.
  - intros s1 s2 s3 H1 H2. pose proof H1 as [A1 A2 A3 A4 A5 A6 [A7 A8] A9].
    pose proof H2 as [B1 B2 B3 B4 B5 B6 [B7 B8] B9].
    split; [| | | | |by eauto|by split; congruence|by intuition congruence].
    + intros i a Ha. destruct (A1 i a Ha) as [E|(E & Hs & Hsrc)]; [by apply B1|].
      destruct (B1 i _ E) as [E'|(E' & _ & _)]; by right.
    + intros i a Hn Ha. destruct (users s2 !! i) as [b|] eqn:E; [|by apply (B2 i)].
      destruct (A2 i b Hn E) as (? & ? & ?). destruct (B1 i b E) as [E'|(E' & _ & _)]; by simplify_eq.
    + intros i r Hin Hn. rewrite A7 in B3. destruct (decide ((i, r) ∈ user_roles (rb s2))) as [Hin2|]; [|by apply B3].
      destruct (A3 i r Hin2 Hn) as (x & row & Ho & ?). exists x, row. split; [by eapply of_provider_mono|done].
    + intros i r Hin Hn. rewrite A7 in B4. destruct (decide ((i, r) ∈ user_roles (rb s2))) as [Hin2|Hn2]; [by apply B4|].
      destruct (A4 i r Hin Hn2) as (x & row & Ho & ?). exists x, row. split; [by eapply of_provider_mono|done].
    + intros k x Hk. destruct (B5 k x Hk) as [Hk'|]; [|by right].
      destruct (A5 k x Hk') as [|[src Ho]]; [by left|right]. exists src. by eapply of_provider_mono.
Qed.

#[local] Instance of_provider_stable x i : Stable R (of_provider x i).
Proof. intros s s' Ho HR. by eapply of_provider_mono. Qed.

(** A statement on the vault, the audit log or the login events. *)
Lemma signed_on_other s s' : users s' = users s → rb s' = rb s → sessions s' = sessions s →
  api_tokens s' = api_tokens s → factors (mfa s') = factors (mfa s) → recovery (mfa s') = recovery (mfa s) →
  user_policies s' = user_policies s → R s s'.
Proof.
  intros E1 E2 E3 E4 E5 E6 E7.
  split; rewrite ?E1, ?E2, ?E3; try done; eauto. intros i a ->. done.
Qed.

(** A change of the roles of an account of a provider. *)
Lemma signed_on_roles s ur i x : of_provider x i s →
  (∀ j r, (j, r) ∈ ur → (j, r) ∉ user_roles (rb s) → j = i ∧ ∃ row, roles (rb s) !! r = Some row ∧
    (manages pr x (r_name row) ∨ starts_with pr x (r_name row))) →
  (∀ j r, (j, r) ∈ user_roles (rb s) → (j, r) ∉ ur → j = i ∧ ∃ row, roles (rb s) !! r = Some row ∧
    manages pr x (r_name row)) →
  R s (set_user_roles s ur).
Proof.
  intros Ho Ha Hr. split; try done; eauto.
  - intros j a E1 E2. simpl in E2. by rewrite E1 in E2.
  - intros j r Hin Hn. destruct (Ha j r Hin Hn) as (-> & row & ?). by exists x, row.
  - intros j r Hin Hn. destruct (Hr j r Hin Hn) as (-> & row & ?). by exists x, row.
Qed.

Lemma signed_on_assign s i x name now : of_provider x i s → manages pr x name ∨ starts_with pr x name →
  R s (AssignRoleByName i name now s).2.
Proof.
  intros Ho Hname. unfold AssignRoleByName. destruct (role_ids _ s) as [|r0 l] eqn:Hl; [reflexivity|].
  case_bool_decide; [|reflexivity]. rewrite <- Hl. apply signed_on_roles with i x; [done| |].
  - intros j r [Hin|Hin]%elem_of_union Hn; [|done].
    apply elem_of_list_to_set, list_elem_of_fmap in Hin as (r' & [= -> ->] & (a & Ha & <-)%role_ids_spec). eauto.
  - intros j r Hin Hn. exfalso. apply Hn, elem_of_union. by right.
Qed.

Lemma signed_on_remove s i x name now : of_provider x i s → manages pr x name →
  R s (RemoveRoleByName i name now s).2.
Proof.
  intros Ho Hname. apply signed_on_roles with i x; [done| |].
  - intros j r [Hin _]%elem_of_difference Hn. done.
  - intros j r Hin Hn. apply not_elem_of_difference in Hn as [Hn|Hin']; [done|].
    apply elem_of_list_to_set, list_elem_of_fmap in Hin' as (r' & [= -> ->] & (a & Ha & <-)%role_ids_spec). eauto.
Qed.

Lemma signed_on_create s now p : cu_super p = false → cu_source p ∈ sources →
  let r := CreateUser p now s in
  R s r.2 ∧ ∀ u, r.1 = Ok u → of_provider (cu_source p) u.1 r.2.
Proof.
  intros Hsup Hsrc. unfold CreateUser, insertUser. destruct (existsb _ _); [by split|].
  set (i := fresh (dom (users s))). assert (users s !! i = None) as Hi by apply fresh_lookup.
  assert (u_source (new_user p) = cu_source p) as Es.
  { unfold new_user, str_eqb. simpl. rewrite bool_decide_false; [done|].
    intros E0. rewrite E0 in Hsrc. unfold sources in Hsrc. set_solver. }
  simpl. split.
  - split; try done; eauto; simpl.
    + intros j a Ha. left. rewrite lookup_insert_ne; [done|]. intros <-. by rewrite Hi in Ha.
    + intros j a Hn [[<- <-]|[_ Ha]]%lookup_insert_Some; [|by rewrite Hn in Ha].
      split_and!; [done|done|]. change (u_source (new_user p) ∈ sources). by rewrite Es.
  - intros u [= <-]. split; [done|]. exists (new_user p). simpl. by rewrite lookup_insert_eq.
Qed.

Context `{!Env store, !Relies R}.

#[local] Ltac ret := apply guar_ret; [exact _|done || idtac].
Lemma within_for_each P `{!Stable R P} f l :
  (∀ a now s, a ∈ l → P s → R s (f a now s).2) → guar R P (for_each f l) (λ _, P).
Proof.
  intros Hf. induction l as [|a l IH]; simpl; [by apply under_ret, _|].
  apply under_bind; [exact _|..].
  - apply under_db; [exact _..|]. intros. apply Hf; [by left|done].
  - intros _. apply IH. intros b now s Hb. apply Hf. by right.
Qed.

Lemma within_reconcile i x m groups : (∀ name, name ∈ managed_roles m → manages pr x name) →
  guar R (of_provider x i) (reconcileGroupRoles i m groups) (λ _, of_provider x i).
Proof.
  intros Hm. unfold reconcileGroupRoles.
  assert (∀ name, name ∈ (reconcileGroupRoleActions m groups).1 ∨ name ∈ (reconcileGroupRoleActions m groups).2 →
    name ∈ managed_roles m) as Hin.
  { intros name. unfold reconcileGroupRoleActions. case_bool_decide; simpl; [set_solver|].
    rewrite !list_elem_of_filter, !elem_of_elements. tauto. }
  apply under_bind; [exact _|..].
  - apply within_for_each; [exact _|]. intros a now s Ha Ho. apply signed_on_assign with x; eauto.
  - intros _. apply within_for_each; [exact _|]. intros a now s Ha Ho. apply signed_on_remove with x; eauto.
Qed.

Definition rules_within {E} (p : provider_rules E) : Prop :=
  p_source p ∈ sources ∧ (∀ name, name ∈ managed_roles (p_map p) → manages pr (p_source p) name) ∧
  starts_with pr (p_source p) (or_read_only (p_role p)).

Lemma guar_settle {E} (p : provider_rules E) i u : rules_within p →
  guar R (of_provider (p_source p) u.1) (settle p i u) (λ r s, ∀ v, r = Ok v → of_provider (p_source p) v.1 s).
Proof.
  intros (Hsrc & Hm & _). unfold settle. destruct (u_disabled u.2); [ret|].
  eapply guar_bind; [exact _|by apply within_reconcile|].
  intros []. ret; by intros s Ho v [= <-].
Qed.

Lemma guar_find {E} (p : provider_rules E) i :
  guar R (λ _, True) (find_account p i) (λ r s, ∀ u, r = Ok u → users s !! u.1 = Some u.2).
Proof.
  unfold find_account. eapply guar_bind; [exact _|apply guar_get_row; exact _|].
  intros [u|e]; [ret; intros s [_ Hu] v [= <-]; by apply (found_row (λ ku, citext_eq (u_name ku.2) (i_name i))), Hu|].
  destruct (negb _ && _); [|ret].
  eapply guar_conseq; [apply guar_get_row with (P := λ _, True); exact _|done|].
  intros r s [_ Hu] v ->.
  by apply (found_row (λ ku, negb (str_eqb (u_email ku.2) "") && citext_eq (u_email ku.2) (i_email i))), Hu.
Qed.

Lemma guar_provision {E} (p : provider_rules E) i : rules_within p →
  guar R (λ _, True) (provision p i) (λ r s, ∀ v, r = Ok v → of_provider (p_source p) v.1 s).
Proof.
  intros Hp. unfold provision. eapply guar_bind; [exact _|apply guar_find|].
  intros [u|e].
  - destruct (idpAccountConflict u.2 (p_source p)) eqn:Hc; [ret|].
    apply orb_false_iff in Hc as [Hsup Hsrc]. apply negb_false_iff, str_eqb_eq in Hsrc.
    eapply guar_weaken; [by apply guar_settle|].
    intros s Hu. split; [apply Hp|]. exists u.2. by rewrite (Hu u).
  - destruct (negb (p_auto p)); [ret|].
    apply (guar_weaken _ _ (λ _, True)); [|done].
    eapply guar_bind; [exact _|by apply (guar_draw _ _ _ (λ _ _, True))|]. intros h.
    eapply guar_bind with (Q := λ c s, ∀ u, c = Ok u → of_provider (p_source p) u.1 s); [exact _| |].
    { apply guar_db; [exact _..|done|]. intros now s _. by apply signed_on_create, Hp. }
    intros [u|]; [|ret].
    apply (guar_weaken _ _ (of_provider (p_source p) u.1)); [|intros s Hu; by apply Hu].
    eapply guar_bind with (Q := λ _, of_provider (p_source p) u.1); [exact _| |intros []; by apply guar_settle].
    apply under_db; [exact _..|]. intros now s Ho. apply signed_on_assign with (p_source p); [done|right; apply Hp].
Qed.

(** ** The session of an account of a provider *)
Lemma signed_on_session user rh ip ua m e x now s : of_provider x user s →
  R s (CreateSession_row user rh ip ua m e now s).2.
Proof.
  intros Ho. unfold CreateSession_row. set (k := fresh _).
  assert (sessions s !! k = None) as Hk.
  { apply not_elem_of_dom. intros Hin. apply (is_fresh (dom (sessions s) ∪ live s)). apply elem_of_union. by left. }
  split; simpl; try done; eauto.
  - intros i a E1 E2. by rewrite E1 in E2.
  - intros j r [[<- <-]|[_ Hj]]%lookup_insert_Some; [right; by exists x|by left].
  - intros j r Hj. rewrite lookup_insert_ne; [done|]. intros <-. by rewrite Hk in Hj.
Qed.

Lemma signed_on_login i x now s : of_provider x i s → R s (RecordLoginSuccess i now s).2.
Proof.
  intros (Hx & a & Ha & Hsup & <-). split; simpl; try done; eauto.
  - intros j b Hb. destruct (decide (j = i)) as [->|]; [|rewrite lookup_alter_ne by done; by left].
    right. assert (b = a) as -> by congruence. by rewrite lookup_alter_eq, Ha.
  - intros j b Hn. destruct (decide (j = i)) as [->|]; [by rewrite Ha in Hn|].
    rewrite lookup_alter_ne by done. by rewrite Hn.
Qed.

Lemma within_policy user ip : within R (enforceSessionPolicy user ip).
Proof. unfold enforceSessionPolicy, SessionPolicy_read. within_tac. Qed.

Lemma under_create cfg user ip ua m x :
  guar R (of_provider x user) (CreateSession cfg user ip ua m) (λ _, of_provider x user).
Proof.
  unfold CreateSession, onSessionCreated. apply under_bind; [exact _|apply guar_frame; [exact _|apply within_policy]|].
  intros [e|]; [apply under_ret, _|].
  apply under_bind; [exact _|intros w Hw; by split|]. intros t.
  apply under_bind; [exact _|intros w Hw; by split|]. intros now.
  apply under_bind; [exact _| |intros [[k y]|e]; [|apply under_ret, _]].
  { apply under_db; [exact _..|]. intros. by apply signed_on_session with x. }
  apply under_bind; [exact _| |intros _].
  { apply under_db; [exact _..|]. intros. by apply signed_on_login with x. }
  apply under_bind; [exact _| |intros _; apply under_ret, _].
  apply guar_frame; [exact _|]. apply within_effect. intros. by apply signed_on_other.
Qed.

Definition in_as (r : option uuid) (s : store) : Prop := ∀ v, r = Some v → ∃ x, of_provider x v s.

Lemma guar_sso_session cfg u ip ua loc fail x :
  guar R (λ _, True) fail (λ r _, signed_in r = None) →
  guar R (of_provider x u.1) (sso_session cfg u ip ua loc fail) (λ r s, in_as (signed_in r) s).
Proof.
  intros Hf. unfold sso_session. eapply guar_bind; [exact _|apply under_create|]. intros [t|e].
  - eapply guar_bind with (Q := λ _, of_provider x u.1); [exact _| |intros _].
    { apply under_db; [exact _..|]. intros. by apply signed_on_other. }
    eapply guar_bind with (Q := λ _, of_provider x u.1); [exact _| |intros _].
    { apply under_db; [exact _..|]. intros. by apply signed_on_other. }
    ret. intros s Ho v [= <-]. by exists x.
  - destruct (PolicyDenied e).
    + eapply guar_bind with (Q := λ _, of_provider x u.1); [exact _| |intros _; ret].
      apply under_db; [exact _..|]. intros. by apply signed_on_other.
    + eapply guar_conseq; [exact Hf|done|]. intros r s Hr v Hv. simpl in Hr. by rewrite Hr in Hv.
Qed.

Lemma guar_login_failure :
  guar R (λ _, True) (_ ← db (RecordAuthEvent "login_failure" None); mret (SsoRedirect "/login?sso=error"))
    (λ r _, signed_in r = None).
Proof.
  eapply guar_bind with (Q := λ _ _, True); [exact _| |intros _; ret].
  apply guar_within, within_db; [exact _..|]. intros. by apply signed_on_other.
Qed.

Lemma rules_ldap c n : c = pr_ldap pr n → rules_within (ldap_rules c).
Proof.
  intros ->. split; [|split].
  - unfold sources. simpl. set_solver.
  - intros name Hn. left. split; [done|by exists n].
  - left. split; [done|by exists n].
Qed.
Lemma rules_oidc c rp m n : c = pr_oidc pr n → rules_within (oidc_rules rp c m).
Proof.
  intros ->. split; [|split].
  - unfold sources. simpl. set_solver.
  - intros name Hn. right; left. split; [done|by exists n].
  - right; left. split; [done|by exists n].
Qed.
Lemma rules_saml c rp n : c = pr_saml pr n → rules_within (saml_rules rp c).
Proof.
  intros ->. split; [|split].
  - unfold sources. simpl. set_solver.
  - intros name Hn. right; right. split; [done|by exists n].
  - right; right. split; [done|by exists n].
Qed.

Lemma guar_draw_then {A B} P (f : nat → A) (k : A → M store B) Q :
  (∀ n, guar R P (k (f n)) Q) → guar R P (x ← draw f; k x) Q.
Proof. intros Hk w Hw. rewrite run_bind. exact (Hk (w_tick w) _ Hw). Qed.

Context `{!LdapLib, !SecretBox, !OidcLib, !SamlLib}.

Lemma guar_ldap key u p :
  guar R (λ _, True) (authenticateLDAP (pr_ldap pr) key u p) (λ r s, ∀ v, r = Ok v → of_provider "ldap" v.1 s).
Proof.
  unfold authenticateLDAP. apply guar_draw_then. intros n. destruct (_ || _); [ret|].
  apply guar_draw_then. intros n'. destruct (ldap_verify _ _ _ _ _); [|ret].
  eapply guar_provision, rules_ldap; reflexivity.
Qed.

Lemma guar_oidc cfg rp rq :
  guar R (λ _, True) (oidcCallback cfg (pr_oidc pr) rp rq) (λ r s, in_as (signed_in r) s).
Proof.
  unfold oidcCallback. apply guar_draw_then. intros n. destruct (negb _); [ret|].
  apply guar_draw_then. intros n'. destruct (verified_claims _ _ _) as [m|]; [|ret].
  eapply guar_bind with (Q := λ r s, ∀ v, r = Ok v → of_provider "oidc" v.1 s); [exact _| |].
  - unfold provisionOIDCUser. destruct (oidc_identity _ _) as [i|]; [|ret].
    eapply guar_provision, rules_oidc; reflexivity.
  - intros [u|e]; [|ret].
    eapply guar_weaken; [apply guar_sso_session with (x := "oidc"); ret|]. intros s Hu. by apply Hu.
Qed.

Lemma guar_saml cfg rp form ip ua cache :
  guar R (λ _, True) (samlACS cfg (pr_saml pr) rp form ip ua cache) (λ r s, in_as (signed_in r.1) s).
Proof.
  unfold samlACS. apply guar_draw_then. intros n. destruct (negb _); [ret|].
  assert (∀ c : gmap string Z, guar R (λ _, True)
    (r ← (_ ← db (RecordAuthEvent "login_failure" None); mret (SsoRedirect "/login?sso=error")); mret (r, c))
    (λ r s, in_as (signed_in r.1) s)) as Hfails.
  { intros c. eapply guar_bind; [exact _|apply guar_login_failure|]. intros r. ret. intros s Hr v Hv.
    simpl in Hv. by rewrite Hr in Hv. }
  destruct (negb _); [apply Hfails|]. destruct form as [[response relay]|]; [|apply Hfails].
  apply guar_draw_then. intros n'. destruct (RetrieveAssertionInfo _ _ _) as [info|]; [|apply Hfails].
  destruct (_ || _); [apply Hfails|]. eapply guar_bind with (Q := λ _ _, True); [exact _|intros w _; by split|].
  intros now. destruct (observe_all _ _ _).1; [apply Hfails|].
  eapply guar_bind with (Q := λ r s, ∀ v, r = Ok v → of_provider "saml" v.1 s); [exact _| |].
  - unfold provisionSAMLUser. destruct (saml_identity _ _) as [i|]; [|ret].
    eapply guar_provision, rules_saml; reflexivity.
  - intros [u|e]; [|ret].
    eapply guar_bind; [exact _| |intros r; ret; intros s Hr; exact Hr].
    eapply guar_weaken; [apply guar_sso_session with (x := "saml"), guar_login_failure|].
    intros s Hu. by apply Hu.
Qed.
End confined.

(** * The group mapping *)
Section groups.
Context `{!Env store, !Quiet Env0, !AuthLib} (Hdb : ∀ n, db_err n = false).

Lemma same_roles s : s = set_user_roles s (user_roles (rb s)).
Proof. by destruct s as [? ? ? ? ? ? ? [? ? ? ?] ? ? ?]. Qed.

Lemma run_assign_all id l n s : is_Some (users s !! id) →
  ∃ ur, for_each (AssignRoleByName id) l (World n s) = (tt, World (n + length l) (set_user_roles s ur)) ∧
    ∀ j r, (j, r) ∈ ur ↔ (j, r) ∈ user_roles (rb s) ∨
      (j = id ∧ ∃ row, roles (rb s) !! r = Some row ∧ r_name row ∈ l).
Proof.
  intros Hid. revert n s Hid. induction l as [|a l IH]; intros n s Hid; simpl.
  { exists (user_roles (rb s)). rewrite <- same_roles, Nat.add_0_r. split; [done|].
    intros j r. split; [by left|]. by intros [?|(_ & row & _ & ?%not_elem_of_nil)]. }
  assert (∃ ur, AssignRoleByName id a (clock n) s = (Ok tt, set_user_roles s ur) ∧
    ∀ j r, (j, r) ∈ ur ↔ (j, r) ∈ user_roles (rb s) ∨
      (j = id ∧ ∃ row, roles (rb s) !! r = Some row ∧ r_name row = a)) as (ur & Hrun & Hur).
  { unfold AssignRoleByName. pose proof (role_ids_spec a s) as Hids. destruct (role_ids a s) as [|r0 rs] eqn:E.
    - exists (user_roles (rb s)). rewrite <- same_roles. split; [done|]. intros j r. split; [by left|].
      intros [?|(_ & Hrow)]; [done|]. by apply Hids, not_elem_of_nil in Hrow.
    - rewrite bool_decide_true by done. eexists. split; [done|]. intros j r.
      rewrite elem_of_union, elem_of_list_to_set, list_elem_of_fmap.
      rewrite (or_comm (_ ∈ user_roles _)), <- (Hids r). apply or_iff_compat_r. split.
      + by intros (r' & [= -> ->] & ?).
      + intros [-> ?]. by exists r. }
  rewrite run_bind, run_db, Hdb, Hrun. cbn [fst snd].
  destruct (IH (S n) (set_user_roles s ur)) as (ur' & Hrun' & Hur'); [done|].
  exists ur'. split; [by rewrite Hrun', Nat.add_succ_r|]. intros j r.
  rewrite Hur'. simpl. rewrite Hur. setoid_rewrite elem_of_cons. naive_solver.
Qed.

Lemma run_remove_all id l n s :
  ∃ ur, for_each (RemoveRoleByName id) l (World n s) = (tt, World (n + length l) (set_user_roles s ur)) ∧
    ∀ j r, (j, r) ∈ ur ↔ (j, r) ∈ user_roles (rb s) ∧
      ¬ (j = id ∧ ∃ row, roles (rb s) !! r = Some row ∧ r_name row ∈ l).
Proof.
  revert n s. induction l as [|a l IH]; intros n s; simpl.
  { exists (user_roles (rb s)). rewrite <- same_roles, Nat.add_0_r. split; [done|].
    intros j r. split; [|by intros [? _]]. split; [done|]. by intros (_ & row & _ & ?%not_elem_of_nil). }
  rewrite run_bind, run_db, Hdb. unfold RemoveRoleByName at 1. cbn [fst snd].
  edestruct (IH (S n)) as (ur & Hrun & Hur). rewrite Hrun.
  exists ur. split; [by rewrite Nat.add_succ_r|]. intros j r.
  rewrite Hur. simpl. rewrite elem_of_difference, elem_of_list_to_set, list_elem_of_fmap.
  setoid_rewrite elem_of_cons. split.
  - intros [[Hin Hno] Hl]. split; [done|]. intros (-> & row & Hrow & [Ha|Hin']); [|by eauto 8].
    apply Hno. exists r. split; [done|]. apply role_ids_spec. eauto.
  - intros [Hin Hno]. split_and!; [done| |].
    + intros (r' & [= -> ->] & (row & Hrow & Ha)%role_ids_spec). apply Hno. eauto 8.
    + intros (-> & row & Hrow & Hl). apply Hno. eauto 8.
Qed.

Lemma desired_managed m groups name : name ∈ desired_roles m groups → name ∈ managed_roles m.
Proof.
  unfold desired_roles, managed_roles. rewrite !elem_of_list_to_set, !list_elem_of_filter.
  intros [Hne (g & _ & Hg)%list_elem_of_omap]. split; [done|].
  apply list_elem_of_fmap. exists (g, name). split; [done|]. by apply elem_of_map_to_list.
Qed.

(** The roles after the mapping was applied. *)
Lemma run_reconcile id m groups n s : is_Some (users s !! id) →
  ∃ ur k, reconcileGroupRoles id m groups (World n s) = (tt, World k (set_user_roles s ur)) ∧
    (∀ j r, j ≠ id → (j, r) ∈ ur ↔ (j, r) ∈ user_roles (rb s)) ∧
    ∀ r row, roles (rb s) !! r = Some row →
      (m ≠ ∅ → r_name row ∈ managed_roles m → (id, r) ∈ ur ↔ r_name row ∈ desired_roles m groups) ∧
      (m = ∅ ∨ r_name row ∉ managed_roles m → (id, r) ∈ ur ↔ (id, r) ∈ user_roles (rb s)).
Proof.
  intros Hid. unfold reconcileGroupRoles. set (a := reconcileGroupRoleActions m groups).
  assert (∀ x, x ∈ a.1 ↔ m ≠ ∅ ∧ x ∈ desired_roles m groups) as Ha.
  { intros x. unfold a, reconcileGroupRoleActions. case_bool_decide; simpl.
    - split; [by intros ?%not_elem_of_nil|by intros [? _]].
    - rewrite list_elem_of_filter, elem_of_elements. split; [by intros [? _]|].
      intros [_ Hd]. split; [done|]. by eapply desired_managed. }
  assert (∀ x, x ∈ a.2 ↔ m ≠ ∅ ∧ x ∈ managed_roles m ∧ x ∉ desired_roles m groups) as Hb.
  { intros x. unfold a, reconcileGroupRoleActions. case_bool_decide; simpl.
    - split; [by intros ?%not_elem_of_nil|by intros [? _]].
    - rewrite list_elem_of_filter, elem_of_elements. tauto. }
  clearbody a. rewrite run_bind. destruct (run_assign_all id a.1 n s Hid) as (ur1 & -> & H1). cbn [snd].
  destruct (run_remove_all id a.2 (n + length a.1) (set_user_roles s ur1)) as (ur2 & -> & H2).
  cbn in H2. exists ur2. eexists. split; [reflexivity|]. split.
  - intros j r Hj. rewrite H2, H1. tauto.
  - intros r row Hrow. rewrite H2, H1. split.
    + intros Hm Hin. split.
      * intros [_ Hno]. destruct (decide (r_name row ∈ desired_roles m groups)); [done|].
        exfalso. apply Hno. split; [done|]. exists row. rewrite Hb. tauto.
      * intros Hd. split; [right; split; [done|]; exists row; by rewrite Ha|].
        intros (_ & row' & Hrow' & Hin'). simplify_eq. rewrite Hb in Hin'. tauto.
    + intros Hno. split.
      * intros [[?|(_ & row' & Hrow' & Hin')] _]; [done|]. simplify_eq.
        rewrite Ha in Hin'. destruct Hin' as [? ?%desired_managed]. tauto.
      * intros Hin. split; [by left|]. intros (_ & row' & Hrow' & Hin'). simplify_eq. rewrite Hb in Hin'. tauto.
Qed.

Definition mapped {E} (p : provider_rules E) (i : identity) (id : uuid) (s s' : store) : Prop :=
  (∀ j r, j ≠ id → (j, r) ∈ user_roles (rb s') ↔ (j, r) ∈ user_roles (rb s)) ∧
  ∀ r row, roles (rb s) !! r = Some row →
    (p_map p ≠ ∅ → r_name row ∈ managed_roles (p_map p) →
       (id, r) ∈ user_roles (rb s') ↔ r_name row ∈ desired_roles (p_map p) (i_groups i)) ∧
    (p_map p = ∅ ∨ r_name row ∉ managed_roles (p_map p) →
       (id, r) ∈ user_roles (rb s') ↔ (id, r) ∈ user_roles (rb s) ∨
         (users s !! id = None ∧ r_name row = or_read_only (p_role p))).

Lemma run_settle {E} (p : provider_rules E) i u n s v w : is_Some (users s !! u.1) →
  settle p i u (World n s) = (Ok v, w) → v = u ∧ u_disabled u.2 = false ∧
    ∃ ur, w_db w = set_user_roles s ur ∧
    (∀ j r, j ≠ u.1 → (j, r) ∈ ur ↔ (j, r) ∈ user_roles (rb s)) ∧
    ∀ r row, roles (rb s) !! r = Some row →
      (p_map p ≠ ∅ → r_name row ∈ managed_roles (p_map p) →
         (u.1, r) ∈ ur ↔ r_name row ∈ desired_roles (p_map p) (i_groups i)) ∧
      (p_map p = ∅ ∨ r_name row ∉ managed_roles (p_map p) → (u.1, r) ∈ ur ↔ (u.1, r) ∈ user_roles (rb s)).
Proof.
  intros Hid. unfold settle. destruct (u_disabled u.2); [done|]. rewrite run_bind.
  destruct (run_reconcile u.1 (p_map p) (i_groups i) n s Hid) as (ur & k & -> & H1 & H2).
  intros [= <- <-]. split_and!; [done..|]. by exists ur.
Qed.

Lemma run_find {E} (p : provider_rules E) i n s :
  ∃ k, (find_account p i (World n s)).2 = World k s ∧
    ∀ u, (find_account p i (World n s)).1 = Ok u → users s !! u.1 = Some u.2.
Proof.
  unfold find_account. rewrite run_bind, run_db, Hdb. cbn [fst snd GetUserByUsername get_row reading].
  destruct (user_by_name _ _ _) as [v|] eqn:Hv.
  - eexists. split; [done|]. intros u [= <-]. by apply (found_row (λ ku, citext_eq (u_name ku.2) (i_name i))).
  - destruct (_ && _); [|by eexists]. rewrite run_db, Hdb. eexists. split; [done|].
    cbn [fst snd GetUserByEmail get_row reading]. destruct (user_by_email _ _) as [v|] eqn:Hw; [|done].
    intros u [= <-].
    by apply (found_row (λ ku, negb (str_eqb (u_email ku.2) "") && citext_eq (u_email ku.2) (i_email i))).
Qed.
End groups.

(** * Properties *)

(** C21: a sign-in through a directory, an OpenID provider or a SAML provider, interleaved with any
    number of other such sign-ins (nobody else changes the tables) and whatever fails in between,
    ends for an ordinary account of a provider or for none: never for a local account - one an
    administrator created is refused - or a super administrator, whatever names and addresses the
    provider asserts. It changes nothing else: accounts keep their rows up to the login counters, new ones
    are ordinary accounts of their source, roles are handed out and taken back only on accounts of
    a provider and only within what the settings of that source name, and sessions are only added,
    for accounts of a provider. *)
Theorem provider_sign_in_confined `{!Env store, !AuthLib, !LdapLib, !SecretBox, !OidcLib, !SamlLib}
    cfg key randPassword pr o :
  Relies (signed_on pr) →
  guar (signed_on pr) (λ _, True) (serve cfg key randPassword pr o)
    (λ r s, ∀ v, r = Some v → ∃ x, of_provider x v s).
Proof.
  intros Hrel. pose proof (signed_on_preorder pr). destruct o as [u p|rq|form ip ua cache]; simpl.
  - eapply guar_bind; [exact _|by apply guar_ldap|]. intros [a|e]; apply guar_ret; try exact _; [|done].
    intros s Ho v [= <-]. exists "ldap". by apply Ho.
  - eapply guar_bind; [exact _|by apply guar_oidc|]. intros r. apply guar_ret; [exact _|]. auto.
  - eapply guar_bind; [exact _|by apply guar_saml|]. intros r. apply guar_ret; [exact _|]. auto.
Qed.

(** the group mapping is authoritative. After a sign-in through a provider the account holds, of
    the roles the mapping names, exactly those its current groups grant; every other role, and all
    of them when there is no mapping, it holds if it held it before, a new account also the default
    role; and no other account's roles change. The account is the one that was found, unchanged,
    or a new one, and it is not disabled. *)
Theorem group_roles_authoritative {E} `{!Env store, !Quiet Env0, !AuthLib} (p : provider_rules E) i n s u w' :
  (∀ n, db_err n = false) → provision p i (World n s) = (Ok u, w') →
  ((users s !! u.1 = Some u.2 ∧ users (w_db w') = users s ∧ idpAccountConflict u.2 (p_source p) = false) ∨
   (users s !! u.1 = None ∧ users (w_db w') = <[u.1 := u.2]> (users s) ∧ p_auto p = true)) ∧
  u_disabled u.2 = false ∧ mapped p i u.1 s (w_db w').
Proof.
  intros Hdb. unfold provision. rewrite run_bind. destruct (run_find Hdb p i n s) as (k & Hw & Hfound).
  rewrite Hw. destruct (find_account p i (World n s)).1 as [v|e]; [specialize (Hfound v eq_refl)|clear Hfound].
  - destruct (idpAccountConflict v.2 _) eqn:Hc; [done|]. intros Hrun.
    apply (run_settle Hdb) in Hrun as (-> & Hd & ur & -> & H1 & H2); [|by eexists].
    split; [by left|]. split; [done|]. split; [done|]. intros r row Hrow.
    destruct (H2 r row Hrow) as [Ha Hb]. split; [done|]. intros Hno. rewrite (Hb Hno). rewrite Hfound. naive_solver.
  - destruct (p_auto p) eqn:Hauto; [|done]. cbn [negb]. rewrite run_bind. cbn [fst snd draw w_tick].
    rewrite run_bind, run_db, Hdb. cbn [fst snd]. set (q := MkCreateUser _ _ _ _ _ _ _).
    unfold CreateUser, insertUser. destruct (existsb _ _); [done|]. set (id := fresh (dom (users s))).
    assert (users s !! id = None) as Hid by apply fresh_lookup.
    set (s1 := set_users s (<[id := new_user q]> (users s))). cbn [fst snd].
    assert (is_Some (users s1 !! id)) as Hid1 by (simpl; rewrite lookup_insert_eq; by eexists).
    destruct (run_assign_all Hdb id [or_read_only (p_role p)] (S k) s1 Hid1) as (ur0 & Hr0 & Hur0).
    cbn [for_each foldr] in Hr0. rewrite run_bind in Hr0. injection Hr0 as Hr0. rewrite run_bind, Hr0.
    intros Hrun. apply (run_settle Hdb) in Hrun as (-> & Hd & ur & -> & H1 & H2); [|done].
    cbn in H1, H2, Hur0. split; [right; by cbn|]. split; [done|]. split.
    + intros j r Hj. cbn. rewrite H1, Hur0 by done. naive_solver.
    + intros r row Hrow. destruct (H2 r row Hrow) as [Ha Hb]. split; [done|]. intros Hno. cbn.
      rewrite (Hb Hno), Hur0. setoid_rewrite list_elem_of_singleton. split.
      * intros [?|(_ & row' & Hrow' & Hn)]; [by left|right]. simplify_eq. done.
      * intros [?|[_ Hn]]; [by left|right]. split; [done|]. by exists row.
Qed.

(** ** What the provider has to have checked *)
Section proof.
Context `{!Env store, !AuthLib, !LdapLib, !SecretBox, !OidcLib, !SamlLib}.

(** The directory found one entry for the name and accepted the password, not an empty one, for
    it. *)
Definition ldap_proved (c : ldapConfig) (username password : string) (n : nat) : Prop :=
  ldap_usable c = true ∧ password ≠ "" ∧
  ∃ conn e, DialURL (ldap_url c) n = Some conn ∧
    Search conn (ldap_base c) (Sprintf (userFilter c) (EscapeFilter username)) n = Some [e] ∧
    Bind conn (e_dn e) password n = true.
(** The state and the nonce are those of the browser that started the flow, and the provider
    verified the token it exchanged the code for. *)
Definition oidc_proved (c : oidcConfig) (rq : callback) (n : nat) : Prop :=
  oidc_on c = true ∧ ck_state rq = Some (cb_state rq) ∧ cb_state rq ≠ "" ∧
  ∃ p verifier raw t, oidcProvider (oidc_issuer c) n = Some p ∧ ck_verifier rq = Some verifier ∧
    Exchange p (cb_code rq) verifier n = Some (Some raw) ∧ Verify p (oidc_client c) raw n = Some t ∧
    ck_nonce rq = Some (it_nonce t).
(** The library accepted the response, its times and audience, and no assertion of it was seen. *)
Definition saml_proved (c : samlConfig) (form : option (string * string)) (cache : gmap string Z) (n : nat)
    (info : assertion_info) : Prop :=
  saml_enabled c = true ∧ (∃ response relay, form = Some (response, relay) ∧ RetrieveAssertionInfo c response n = Some info) ∧
  a_invalid_time info = false ∧ a_not_in_audience info = false ∧
  (observe_all (a_ids info) (clock n) cache).1 = false.

Lemma ldap_needs_bind lc key u p w a :
  (authenticateLDAP lc key u p w).1 = Ok a → ldap_proved (lc (w_tick w)) u p (w_tick w).
Proof.
  unfold authenticateLDAP. rewrite run_bind. cbn [draw fst snd].
  destruct (negb (ldap_usable _)) eqn:Hu; [done|]. apply negb_false_iff in Hu. simpl.
  destruct (str_eqb p "") eqn:Hp; [done|]. apply bool_decide_eq_false in Hp. rewrite run_bind. cbn [draw fst snd].
  unfold ldap_verify. destruct (DialURL _ _) as [conn|] eqn:Hd; [|done]. simpl.
  destruct (_ && _); [done|]. destruct (_ && _); [done|].
  destruct (Search _ _ _ _) as [[|e [|e' l]]|] eqn:Hs; [done| |done..].
  simpl. destruct (Bind conn (e_dn e) p _) eqn:Hb; [|done]. intros _. split_and!; [done..|]. by exists conn, e.
Qed.

Lemma oidc_needs_token cfg oc rp rq w v :
  signed_in (oidcCallback cfg oc rp rq w).1 = Some v → oidc_proved (oc (w_tick w)) rq (w_tick w).
Proof.
  unfold oidcCallback. rewrite run_bind. cbn [draw fst snd].
  destruct (oidc_on _) eqn:Hon; [|done]. cbn [negb]. rewrite run_bind. cbn [draw fst snd].
  unfold verified_claims. destruct (str_eqb _ _) eqn:Hne; [done|]. apply bool_decide_eq_false in Hne.
  destruct (str_eqb (cb_state rq) _) eqn:Heq; [|done]. apply str_eqb_eq in Heq. cbn [negb orb].
  destruct (ck_nonce rq) as [nonce|] eqn:Hn; [|done]. simpl.
  destruct (ck_verifier rq) as [ver|] eqn:Hv; [|done]. simpl.
  destruct (oidcProvider _ _) as [p|] eqn:Hp; [|done]. simpl.
  destruct (Exchange _ _ _ _) as [[raw|]|] eqn:Hx; [|done..]. simpl.
  destruct (Verify _ _ _ _) as [t|] eqn:Ht; [|done]. simpl.
  destruct (str_eqb (it_nonce t) nonce) eqn:Hnonce; [|done]. apply str_eqb_eq in Hnonce. intros _.
  split; [done|]. destruct (ck_state rq) as [st|]; [simpl in Hne, Heq|done]. subst st.
  split_and!; [done..|]. exists p, ver, raw, t. by subst.
Qed.

Lemma saml_needs_assertion cfg sc rp form ip ua cache w v :
  signed_in (samlACS cfg sc rp form ip ua cache w).1.1 = Some v →
  ∃ info, saml_proved (sc (w_tick w)) form cache (w_tick w) info ∧
    (samlACS cfg sc rp form ip ua cache w).1.2 = (observe_all (a_ids info) (clock (w_tick w)) cache).2.
Proof.
  unfold samlACS. rewrite run_bind. cbn [draw fst snd].
  destruct (saml_enabled _) eqn:Hon; [|done]. cbn [negb].
  assert (∀ c : gmap string Z, signed_in ((r ← (_ ← db (RecordAuthEvent "login_failure" None);
    mret (SsoRedirect "/login?sso=error")); mret (r, c)) w).1.1 = Some v → False) as Hfail.
  { intros c. by rewrite !run_bind. }
  destruct (samlSP _); [|by intros ?%Hfail]. cbn [negb].
  destruct form as [[response relay]|]; [|by intros ?%Hfail].
  rewrite run_bind. cbn [draw fst snd].
  destruct (RetrieveAssertionInfo _ _ _) as [info|] eqn:Hr; [|by intros ?%Hfail].
  destruct (a_invalid_time info) eqn:Ht; [by intros ?%Hfail|].
  destruct (a_not_in_audience info) eqn:Ha; [by intros ?%Hfail|].
  cbn [orb]. rewrite run_bind. cbn [time_now fst snd].
  destruct (observe_all (a_ids info) (clock (w_tick w)) cache) as [seen c1] eqn:Ho. cbn [fst snd].
  destruct seen; [by rewrite !run_bind|]. intros Hs. exists info. split.
  - split; [done|]. split; [by exists response, relay|]. by rewrite Ho.
  - rewrite Ho, run_bind. rewrite run_bind in Hs. destruct (provisionSAMLUser _ _ _ _).1 as [x|e]; [|done].
    by rewrite run_bind.
Qed.
End proof.

(** ** Assertions are used once *)
Lemma observe_keeps ttl id exp j now c : c !! id = Some exp → now < exp →
  (observe ttl j now c).2 !! id = Some exp ∧ (j = id → (observe ttl j now c).1 = true).
Proof.
  intros Hc Hnow. unfold observe. set (c' := filter _ c).
  assert (c' !! id = Some exp) as Hc' by (apply map_lookup_filter_Some; split; [done|simpl; lia]).
  destruct (decide (j = id)) as [->|Hne].
  - rewrite Hc', (proj2 (Z.ltb_lt _ _)) by done. done.
  - split; [|done]. destruct (c' !! j) as [e|]; [destruct (now <? e)|]; cbn [snd]; [done|..]; by rewrite lookup_insert_ne.
Qed.

Lemma observe_all_keeps id exp ids now c : c !! id = Some exp → now < exp →
  (observe_all ids now c).2 !! id = Some exp ∧ (id ∈ ids → (observe_all ids now c).1 = true).
Proof.
  revert c. induction ids as [|j ids IH]; intros c Hc Hnow; simpl; [split; [done|by intros ?%not_elem_of_nil]|].
  destruct (str_eqb j ""); [done|].
  destruct (observe_keeps samlAssertionTTL id exp j now c Hc Hnow) as [Hk Hs].
  destruct (observe samlAssertionTTL j now c) as [[] c1]; cbn [fst snd] in *; [done|].
  destruct (IH c1 Hk Hnow) as [H1 H2]. split; [done|]. intros [->|Hin]%elem_of_cons; [|by apply H2].
  by discriminate Hs.
Qed.

Lemma observe_all_accepted ids now c : (observe_all ids now c).1 = false →
  ∀ id, id ∈ ids → id ≠ "" ∧ (observe_all ids now c).2 !! id = Some (now + samlAssertionTTL).
Proof.
  revert c. induction ids as [|j ids IH]; intros c Hf id; simpl in *; [by intros ?%not_elem_of_nil|].
  destruct (str_eqb j "") eqn:Hj; [done|]. apply bool_decide_eq_false in Hj.
  destruct (observe samlAssertionTTL j now c) as [[] c1] eqn:Ho; cbn [fst snd] in *; [done|].
  intros [->|Hin]%elem_of_cons; [|by apply IH]. split; [done|].
  apply observe_all_keeps; [|unfold samlAssertionTTL, minute, second; lia].
  unfold observe in Ho. destruct (filter _ c !! j) as [e|]; [destruct (now <? e)|];
    simplify_eq; by rewrite lookup_insert_eq.
Qed.

(** What later responses, each at its own time, leave of the cache. *)
Definition later (rs : list (list string * Z)) (c : gmap string Z) : gmap string Z :=
  foldl (λ c r, (observe_all r.1 r.2 c).2) c rs.

Lemma later_keeps id exp rs c : c !! id = Some exp → (∀ r, r ∈ rs → r.2 < exp) → later rs c !! id = Some exp.
Proof.
  unfold later. revert c. induction rs as [|r rs IH]; intros c Hc Hrs; simpl; [done|]. apply IH.
  - apply observe_all_keeps; [done|]. apply Hrs. by left.
  - intros r' Hr'. apply Hrs. by right.
Qed.

(** an assertion signs in once. When a SAML response signed someone in, no assertion of it lacks an
    id, and for the ten minutes the server remembers it no response that carries one of its
    assertions signs anybody in, whatever other responses arrived in between and however each of
    them ended. *)
Theorem assertion_signs_in_once `{!Env store, !AuthLib, !SamlLib} cfg sc rp form ip ua cache w v :
  signed_in (samlACS cfg sc rp form ip ua cache w).1.1 = Some v →
  let t := clock (w_tick w) in
  ∃ info, saml_proved (sc (w_tick w)) form cache (w_tick w) info ∧ ("" ∉ a_ids info) ∧
  ∀ rs form' ip' ua' w' info' id,
    (∀ r, r ∈ rs → r.2 < t + samlAssertionTTL) → clock (w_tick w') < t + samlAssertionTTL →
    (∀ response relay, form' = Some (response, relay) →
       RetrieveAssertionInfo (sc (w_tick w')) response (w_tick w') = Some info') →
    id ∈ a_ids info → id ∈ a_ids info' →
    signed_in (samlACS cfg sc rp form' ip' ua' (later rs (samlACS cfg sc rp form ip ua cache w).1.2) w').1.1 = None.
Proof.
  intros Hs t. destruct (saml_needs_assertion _ _ _ _ _ _ _ _ _ Hs) as (info & Hp & Hc).
  exists info. split; [done|]. destruct Hp as (_ & _ & _ & _ & Hseen).
  pose proof (observe_all_accepted _ _ _ Hseen) as Hacc.
  split; [by intros Hin%Hacc; destruct Hin|].
  intros rs form' ip' ua' w' info' id Hrs Hw' Hinfo Hin Hin'. rewrite Hc.
  destruct (signed_in (samlACS _ _ _ form' _ _ _ _).1.1) as [v'|] eqn:Hs'; [exfalso|done].
  apply saml_needs_assertion in Hs' as (i2 & (_ & (response & relay & Hf & Hr) & _ & _ & Hno) & _).
  rewrite (Hinfo _ _ Hf) in Hr. injection Hr as ->.
  destruct (observe_all_keeps id (t + samlAssertionTTL) (a_ids i2) (clock (w_tick w'))
    (later rs (observe_all (a_ids info) (clock (w_tick w)) cache).2)) as [_ Hyes]; [|done|].
  - apply later_keeps; [by apply Hacc|done].
  - by rewrite Hyes in Hno.
Qed.

(** nobody is signed in through a provider without its word: for a directory a single entry for the
    name that accepts the password, which is not empty; for OpenID the state and nonce of the
    browser's own flow and a token the provider verified; for SAML a response the library accepted
    in time and audience, with no assertion that was seen or cannot be told apart. *)
Theorem sign_in_needs_proof `{!Env store, !AuthLib, !LdapLib, !SecretBox, !OidcLib, !SamlLib}
    cfg key randPassword pr o w v :
  (serve cfg key randPassword pr o w).1 = Some v →
  match o with
  | OpLdap u p => ldap_proved (pr_ldap pr (w_tick w)) u p (w_tick w)
  | OpOidc rq => oidc_proved (pr_oidc pr (w_tick w)) rq (w_tick w)
  | OpSaml form _ _ cache => ∃ info, saml_proved (pr_saml pr (w_tick w)) form cache (w_tick w) info
  end.
Proof.
  destruct o as [u p|rq|form ip ua cache]; simpl; rewrite run_bind; cbn [fst mret M_ret].
  - destruct (authenticateLDAP _ _ _ _ _).1 as [a|e] eqn:Ha; [|done]. intros _. by eapply ldap_needs_bind.
  - apply oidc_needs_token.
  - intros Hs. apply saml_needs_assertion in Hs as (info & ? & _). by exists info.
Qed.

(** ** Settings *)
Section settings_lemmas.
Context `{!Env idp_settings, !SecretBox, !SecretBoxLaws}.
Context (rnd : nat → rand_draw) (key : list byte) (Hrnd : ∀ n, good_draw (rnd n)).

(** A saved secret opens to what was supplied; an omitted one is what was stored. *)
Lemma new_secret_opens supplied stored w enc w' :
  new_secret rnd key supplied stored w = (Some enc, w') →
  w' = w ∧ (supplied = "" → enc = stored) ∧
  (supplied ≠ "" → box_open key enc = Ok (String.list_byte_of_string supplied)).
Proof.
  unfold new_secret, str_eqb. case_bool_decide as Hs; [by intros [= <- <-]|]. rewrite run_bind.
  cbn [draw fst snd]. destruct (box_seal _ _ _) as [e|] eqn:He; [|done]. intros [= <- <-].
  split_and!; [done..|]. intros _. by eapply box_open_seal.
Qed.

(** The sweep rewrites secrets so that they open to what they did, and leaves the key of the SAML
    service provider as it is. *)
Lemma reseal_row_opens {A} row (secret : A → string) with_secret put n w :
  Quiet Env0 → (∀ c now s, row (put c now s).2 = Some c) → (∀ e c, secret (with_secret e c) = e) →
  (∀ c now s, st_saml (put c now s).2 = st_saml s) →
  let s' := w_db (reseal_row rnd key row secret with_secret put n w).2 in
  st_saml s' = st_saml (w_db w) ∧
  ∀ c p, row (w_db w) = Some c → box_open key (secret c) = Ok p →
    ∃ c', row s' = Some c' ∧ box_open key (secret c') = Ok p.
Proof.
  intros HQ Hput Hsec Hsaml. destruct w as [k s]. unfold reseal_row. rewrite run_bind, run_db.
  destruct (db_err k); [by eauto|]. cbn [fst snd get_row reading].
  destruct (row s) as [c|] eqn:Hc; [|split; [done|intros c p Hcp; cbn in Hcp; congruence]]. rewrite run_bind. cbn [draw fst snd].
  destruct (box_reseal _ _ _) as [[out []] [e|]] eqn:Hr;
    [cbn; rewrite Hc; split; [done|]; intros c' p [= <-]; by eauto| |cbn; rewrite Hc; split; [done|]; intros c' p [= <-]; by eauto..].
  rewrite run_bind, run_db. destruct (db_err _); cbn [fst snd w_db mret M_ret].
  - rewrite Hc. split; [done|]. intros c' p [= <-]. by eauto.
  - rewrite Hc. split; [by rewrite Hsaml|]. intros c' p [= <-] Hp. eexists. split; [apply Hput|].
    rewrite Hsec. by eapply box_reseal_open.
Qed.

Lemma reseal_misses_saml w : Quiet Env0 →
  st_saml (w_db (ResealSecrets rnd key w).2) = st_saml (w_db w).
Proof.
  intros HQ. unfold ResealSecrets. rewrite run_bind.
  destruct (reseal_row_opens st_ldap ldap_bind_enc with_ldap_secret SetLdap 0 w) as [H1 _]; [done..|].
  destruct (reseal_row rnd key st_ldap _ _ _ _ w) as [[m []] w1]; cbn [fst snd] in *; [|done].
  destruct (reseal_row_opens st_oidc oidc_secret_enc with_oidc_secret SetOidc m w1) as [H2 _]; [done..|].
  by rewrite H2.
Qed.
End settings_lemmas.

(** A relay state that starts with a slash and a backslash, which browsers take for two slashes,
    is passed on. *)
Lemma relay_backslash : samlRelay "/\evil.example/" = "/\evil.example/".
Proof. by vm_compute. Qed.
Lemma relay_stays_on_site s : let r := samlRelay s in has_prefix "/" r = true ∧ has_prefix "//" r = false.
Proof.
  unfold samlRelay. destruct (str_eqb _ _); [by split|].
  destruct (has_prefix "/" (TrimSpace s)) eqn:H1; [|by split].
  destruct (has_prefix "//" (TrimSpace s)) eqn:H2; [by split|]. split; [exact H1|exact H2].
Qed.

(** ** Concrete instances for the witnesses *)
#[local] Existing Instance AuthSession.toy_auth.
#[local] Instance toy_ldap : LdapLib := {|
  ldap_conn := unit;
  DialURL _ _ := Some tt; StartTLS _ _ := true;
  Bind _ dn pw _ := str_eqb pw ("pw:" +:+ dn);
  Search _ _ filter _ := Some [Entry filter {["uid" := [filter]; "memberOf" := ["CN=ops,OU=x"]]}];
  EscapeFilter s := s; Sprintf f s := s;
|}.
#[local] Instance toy_box : SecretBox := {|
  box_seal _ _ _ := Err ErrRand; box_open _ _ := Err ErrAuth; box_reseal _ _ s := (s, false, None);
|}.
#[local] Instance toy_oidc : OidcLib := {|
  oidc_provider := unit; oidcProvider _ _ := Some tt;
  Exchange _ code _ _ := Some (Some code);
  Verify _ _ raw _ := Some (IdToken "nonce" (Some {["preferred_username" := CString raw]}));
|}.
#[local] Instance toy_saml : SamlLib := {|
  samlSP _ := true;
  RetrieveAssertionInfo _ r _ := if str_eqb r "" then None else Some (Assertion r ∅ false false [r]);
|}.
Definition toy_providers : providers := Providers
  (λ _, MkLdap true "ldaps://d" false "" "" "dc=x" "" "" "" "" "" "" true {["ops" := "Viewer"]})
  (λ _, MkOidc true "https://idp" "fleet" "" "" "" "" "" true ∅)
  (λ _, MkSaml true "idp" "https://idp" "cert" "" "" "" "" "" "" "" true ∅).
Definition toy_cfg : AuthSession.config := AuthSession.toy_cfg.
Definition toy_serve := @serve quiet_env toy_auth toy_ldap toy_box toy_oidc toy_saml toy_cfg [] (λ _, "r") toy_providers.

Lemma provider_sign_in_confined_witness :
  (* a new account is made for eve; the local account ada is not taken over *)
  (∃ v x, (toy_serve (OpLdap "eve" "pw:eve") (World 0 toy_store)).1 = Some v ∧
     of_provider x v (w_db (toy_serve (OpLdap "eve" "pw:eve") (World 0 toy_store)).2)) ∧
  (toy_serve (OpLdap "ada" "pw:ada") (World 0 toy_store)).1 = None.
Proof.
  split; [|by vm_compute]. eexists _.
  assert (@Relies store quiet_env (signed_on toy_providers)) as Hrel.
  { apply quiet_relies. intros s. apply signed_on_preorder. }
  destruct (@provider_sign_in_confined quiet_env toy_auth toy_ldap toy_box toy_oidc toy_saml toy_cfg []
    (λ _, "r") toy_providers (OpLdap "eve" "pw:eve") Hrel (World 0 toy_store) I) as [_ Hx].
  edestruct Hx as [x Ho]; [by vm_compute|]. exists x. split; [by vm_compute|exact Ho].
Defined.

Lemma group_roles_authoritative_witness :
  let p := ldap_rules (pr_ldap toy_providers 0) in
  let i := Identity "eve" "" "" ["ops"] in
  ∃ u w', @provision quiet_env toy_auth _ p i (World 0 toy_store) = (Ok u, w') ∧
    (u.1, 3%N) ∈ user_roles (rb (w_db w')) ∧ mapped p i u.1 toy_store (w_db w').
Proof.
  eexists _, _. split; [by vm_compute|].
  destruct (@group_roles_authoritative _ quiet_env _ toy_auth (ldap_rules (pr_ldap toy_providers 0))
    (Identity "eve" "" "" ["ops"]) 0 toy_store _ _ (λ _, eq_refl) ltac:(by vm_compute)) as (_ & _ & Hm).
  split; [|exact Hm]. apply (proj1 (proj2 Hm 3%N (Role "Viewer" "" true) eq_refl)).
  - by apply insert_non_empty.
  - apply (bool_decide_unpack ("Viewer" ∈ managed_roles {["ops" := "Viewer"]})). by vm_compute.
  - apply (bool_decide_unpack ("Viewer" ∈ desired_roles {["ops" := "Viewer"]} ["ops"])). by vm_compute.
Defined.

Lemma assertion_signs_in_once_witness :
  let acs := @samlACS quiet_env toy_auth toy_saml toy_cfg (pr_saml toy_providers) (λ _, "r") in
  let r := acs (Some ("eve", "")) "" "" ∅ (World 0 toy_store) in
  is_Some (signed_in r.1.1) ∧ signed_in (acs (Some ("eve", "")) "" "" r.1.2 r.2).1.1 = None.
Proof.
  split; [by vm_compute; eexists|].
  destruct (@assertion_signs_in_once quiet_env toy_auth toy_saml toy_cfg (pr_saml toy_providers)
    (λ _, "r") (Some ("eve", "")) "" "" ∅ (World 0 toy_store) 2%N) as (info & Hp & _ & H); [by vm_compute|].
  destruct Hp as (_ & (resp & rel & [= <- <-] & [= <-]) & _).
  refine (H [] (Some ("eve", "")) "" "" _ (Assertion "eve" ∅ false false ["eve"]) "eve" _ _ _ _ _).
  - by intros r ?%not_elem_of_nil.
  - by vm_compute.
  - by intros ? ? [= <- <-].
  - by left.
  - by left.
Defined.

Lemma sign_in_needs_proof_witness :
  let rq := Callback "s" "eve" "" "" (Some "s") (Some "nonce") (Some "v") in
  is_Some (toy_serve (OpOidc rq) (World 0 toy_store)).1 ∧ oidc_proved (pr_oidc toy_providers 0) rq 0.
Proof.
  set (rq := Callback _ _ _ _ _ _ _).
  assert (is_Some (toy_serve (OpOidc rq) (World 0 toy_store)).1) as [v Hv] by (vm_compute; by eexists).
  split; [by eexists|].
  exact (@sign_in_needs_proof quiet_env toy_auth toy_ldap toy_box toy_oidc toy_saml toy_cfg []
    (λ _, "r") toy_providers (OpOidc rq) (World 0 toy_store) v Hv).
Defined.
