(* ===== verification/Mfa.v ===== *)
(** Second factors: [auth/mfa.go], [auth/recovery.go], [store/mfa.go], [store/recovery.go] and
    [store/webauthn.go].

    The statements on the tables of factors and recovery codes, the encryption of TOTP secrets with
    its key migration, the check of a code with its replay guard, recovery codes, and the tokens of
    the second step. The TOTP and JWT libraries, HKDF and AES-GCM are parameters. *)
From stdpp Require Import sorting pretty.
From S2P Require Import Prelude GoStrings SecretBox AuthSession.
From Stdlib Require Import Strings.Ascii Strings.Byte.

(** * Statements *)

Definition of_user (user : uuid) (kind : option factor_kind) (confirmed : bool) (f : factor) : bool :=
  bool_decide (f_user f = user) && Bool.eqb (f_confirmed f) confirmed &&
  match kind with Some k => bool_decide (f_kind f = k) | None => true end.
Definition factors_of (user : uuid) (kind : option factor_kind) (confirmed : bool) (s : store) : list (uuid * factor) :=
  map_to_list (filter (λ kf, of_user user kind confirmed kf.2 = true) (factors (mfa s))).

(** The pending factor of the user is replaced; the row refers to the user. *)
Definition CreateTOTPPending (user : uuid) (label : string) (enc : list byte) (now : Z) (s : store)
    : res store_error uuid * store :=
  if bool_decide (is_Some (users s !! user)) then
    let m := filter (λ kf, of_user user (Some Totp) false kf.2 = false) (factors (mfa s)) in
    let id := fresh (dom (factors (mfa s))) in
    (Ok id, set_factors s (<[id := Factor user Totp label enc false now]> m))
  else (Err ErrDB, s).

(** [ORDER BY created_at DESC LIMIT 1] *)
Definition latest (l : list (uuid * factor)) : option (uuid * factor) :=
  foldr (λ x best, match best with
                   | None => Some x
                   | Some b => if f_created b.2 <=? f_created x.2 then Some x else Some b
                   end) None l.
Definition PendingTOTPSecret (user : uuid) : Z → store → res store_error (list byte * uuid) * store :=
  get_row (λ s, (λ kf, (f_secret kf.2, kf.1)) <$> latest (factors_of user (Some Totp) false s)).

Definition with_confirmed (user : uuid) (f : factor) : factor :=
  if bool_decide (f_user f = user) then Factor (f_user f) (f_kind f) (f_label f) (f_secret f) true (f_created f) else f.
Definition ConfirmMFA (user id : uuid) (now : Z) (s : store) : res store_error unit * store :=
  (Ok tt, set_factors s (alter (with_confirmed user) id (factors (mfa s)))).

Definition ConfirmedTOTPSecrets (user : uuid) : Z → store → res store_error (list (list byte)) * store :=
  reading (λ _ s, Ok ((f_secret ∘ snd) <$> factors_of user (Some Totp) true s)).
Definition has_factor (user : uuid) (s : store) : bool := negb (bool_decide (factors_of user None true s = [])).
Definition HasConfirmedMFA (user : uuid) : Z → store → res store_error bool * store :=
  reading (λ _ s, Ok (has_factor user s)).
(** The rows without their secrets, the oldest first. *)
Definition older (a b : uuid * (factor_kind * string * bool * Z)) : Prop := a.2.2 ≤ b.2.2.
#[export] Instance older_dec a b : Decision (older a b).
Proof. unfold older. apply _. Defined.
Definition ListMFA (user : uuid) : Z → store → res store_error (list (uuid * (factor_kind * string * bool * Z))) * store :=
  reading (λ _ s, Ok (merge_sort older
    ((λ kf, (kf.1, (f_kind kf.2, f_label kf.2, f_confirmed kf.2, f_created kf.2))) <$>
       map_to_list (filter (λ kf, f_user kf.2 = user) (factors (mfa s)))))).
Definition DeleteMFA (user id : uuid) (now : Z) (s : store) : res store_error unit * store :=
  (Ok tt, set_factors s (filter (λ kf, ¬ (kf.1 = id ∧ f_user kf.2 = user)) (factors (mfa s)))).

(** The column [last_totp_step] of a row of [users]. *)
Definition last_step (user : uuid) (s : store) : Z := default 0 (totp_steps (mfa s) !! user).
Definition TOTPLastStep (user : uuid) : Z → store → res store_error Z * store :=
  get_row (λ s, if bool_decide (is_Some (users s !! user)) then Some (last_step user s) else None).
Definition SetTOTPLastStep (user : uuid) (step : Z) (now : Z) (s : store) : res store_error unit * store :=
  (Ok tt, if bool_decide (is_Some (users s !! user)) && (last_step user s <? step)
          then set_totp_steps s (<[user := step]> (totp_steps (mfa s))) else s).

Definition AddWebAuthnCredential (user : uuid) (label : string) (cred : list byte) (now : Z) (s : store)
    : res store_error uuid * store :=
  if bool_decide (is_Some (users s !! user)) then
    let id := fresh (dom (factors (mfa s))) in
    (Ok id, set_factors s (<[id := Factor user Webauthn label cred true now]> (factors (mfa s))))
  else (Err ErrDB, s).
Definition WebAuthnCredentials (user : uuid) : Z → store → res store_error (list (uuid * list byte)) * store :=
  reading (λ _ s, Ok ((λ kf, (kf.1, f_secret kf.2)) <$> factors_of user (Some Webauthn) true s)).
Definition with_secret (cred : list byte) (f : factor) : factor :=
  Factor (f_user f) (f_kind f) (f_label f) cred (f_confirmed f) (f_created f).
Definition UpdateWebAuthnCredential (id : uuid) (cred : list byte) (now : Z) (s : store) : res store_error unit * store :=
  (Ok tt, set_factors s (alter (with_secret cred) id (factors (mfa s)))).

(** The setting, off when it cannot be read. *)
Definition MFAGloballyRequired `{!Env store} : M store bool :=
  r ← db (get_row (λ s, require_mfa (mfa s))); mret (match r with Ok b => b | Err _ => false end).

(** ** Recovery codes: the hash is a unique column of the table *)
Fixpoint insert_codes (user : uuid) (hashes : list string) (m : gmap uuid recovery_code)
    : option (gmap uuid recovery_code) :=
  match hashes with
  | [] => Some m
  | h :: hs =>
    if existsb (λ kc, str_eqb (rc_hash kc.2) h) (map_to_list m) then None
    else insert_codes user hs (<[fresh (dom m) := RecoveryCode user h None]> m)
  end.
Definition ReplaceRecoveryCodes (user : uuid) (hashes : list string) (now : Z) (s : store)
    : res store_error unit * store :=
  if bool_decide (is_Some (users s !! user)) || bool_decide (hashes = []) then
    match insert_codes user hashes (filter (λ kc, rc_user kc.2 ≠ user) (recovery (mfa s))) with
    | Some m => (Ok tt, set_recovery s m)
    | None => (Err ErrDB, s)
    end
  else (Err ErrDB, s).

Definition unspent (user : uuid) (hash : string) (c : recovery_code) : bool :=
  bool_decide (rc_user c = user) && str_eqb (rc_hash c) hash && bool_decide (rc_used c = None).
Definition spend (user : uuid) (hash : string) (now : Z) (c : recovery_code) : recovery_code :=
  if unspent user hash c then RecoveryCode (rc_user c) (rc_hash c) (Some now) else c.
(** One UPDATE; whether it found a row. *)
Definition ConsumeRecoveryCode_row (user : uuid) (hash : string) (now : Z) (s : store) : res store_error bool * store :=
  (Ok (existsb (λ kc, unspent user hash kc.2) (map_to_list (recovery (mfa s)))),
   set_recovery s (spend user hash now <$> recovery (mfa s))).
Definition RemainingRecoveryCodes (user : uuid) : Z → store → res store_error nat * store :=
  reading (λ _ s, Ok (size (filter (λ kc, rc_user kc.2 = user ∧ rc_used kc.2 = None) (recovery (mfa s))))).

(** * What the package uses of other code

    The code of a secret at a timestep, the check of a code at an instant, and the generation of a
    secret with its URL; a signed token of a purpose and what parsing one at an instant gives; the
    key derivation; [strings.ToUpper]. *)
Class MfaLib := {
  GenerateCodeCustom : string → Z → option string;
  ValidateCustom : string → string → Z → option bool;
  GenerateTOTP : string → nat → option (string * string);
  sign_mfa : uuid → string → Z → option string;
  parse_mfa : string → Z → option (uuid * string);
  hkdf_Key : list byte → string → option (list byte);
  ToUpper : string → string;
}.

(** [ValidateOpts]: six digits, thirty seconds, one step of skew on either side. The library trims
    the code before it compares. *)
Definition period : Z := 30.
Definition unix (now : Z) : Z := now / second.
Class TotpLaws `{!MfaLib} : Prop := {
  validate_window : ∀ code secret now, ValidateCustom code secret now = Some true ↔
    ∃ d, -1 ≤ d ≤ 1 ∧ GenerateCodeCustom secret (unix now / period + d) = Some (TrimSpace code);
}.

(** * Secrets at rest *)
Record mfa_config := MfaConfig { MFAEncryptionKey : list byte; JWTSecret : list byte }.

Section secrets.
Context `{!MfaLib, !Crypto}.

Definition mfaKeys (c : mfa_config) : list (list byte) :=
  (if bool_decide (MFAEncryptionKey c = []) then []
   else match hkdf_Key (MFAEncryptionKey c) "totp-at-rest-v2" with Some k => [k] | None => [] end) ++
  match hkdf_Key (JWTSecret c) "totp-at-rest-v1" with Some k => [k] | None => [] end ++
  [Sum256 (String.list_byte_of_string "mfa:" ++ JWTSecret c)].

(** [nonce]: what [rand.Read] gave. *)
Definition EncryptSecret (c : mfa_config) (nonce : option (list byte)) (plain : string) : option (list byte) :=
  match mfaKeys c, nonce with
  | key :: _, Some nonce => Some (nonce ++ gcm_Seal key nonce (String.list_byte_of_string plain))
  | _, _ => None
  end.

Fixpoint try_keys (keys : list (list byte)) (enc : list byte) : option string :=
  match keys with
  | [] => None
  | key :: keys' =>
    if Nat.ltb (length enc) NonceSize then None
    else match gcm_Open key (take NonceSize enc) (drop NonceSize enc) with
         | Some plain => Some (String.string_of_list_byte plain)
         | None => try_keys keys' enc
         end
  end.
Definition DecryptSecret (c : mfa_config) (enc : list byte) : option string := try_keys (mfaKeys c) enc.
End secrets.

(** * Codes *)
Section codes.
Context `{!Env store, !AuthLib, !MfaLib, !Crypto} (cfg : mfa_config).

Definition ValidateTOTP_at (secret code : string) (now : Z) : bool :=
  match ValidateCustom code secret now with Some b => b | None => false end.
Definition ValidateTOTP (secret code : string) : M store bool :=
  now ← time_now; mret (ValidateTOTP_at secret code now).

(** [matchTOTPStep]: the first step of the window, from the oldest, that gives the code. *)
Definition matches (secret code : string) (step : Z) : bool :=
  match GenerateCodeCustom secret step with Some g => str_eqb g code | None => false end.
Definition matchTOTPStep_at (secret code : string) (now : Z) : option Z :=
  let cur := Z.quot (unix now) period in
  List.find (matches secret code) [cur - 1; cur; cur + 1].
Definition matchTOTPStep (secret code : string) : M store (option Z) :=
  now ← time_now; mret (matchTOTPStep_at secret code now).

Fixpoint VerifyUserTOTPNoReplay (user : uuid) (secrets : list (list byte)) (code : string) : M store bool :=
  match secrets with
  | [] => mret false
  | enc :: secrets' =>
    match DecryptSecret cfg enc with
    | None => VerifyUserTOTPNoReplay user secrets' code
    | Some sec =>
      ok ← ValidateTOTP sec code;
      if negb ok then VerifyUserTOTPNoReplay user secrets' code
      else
        step ← matchTOTPStep sec code;
        match step with
        | None => mret true
        | Some step =>
          last ← db (TOTPLastStep user);
          match last with
          | Err _ => mret true
          | Ok last =>
            if step <=? last then mret false
            else _ ← db (SetTOTPLastStep user step); mret true
          end
        end
    end
  end.

(** * Recovery codes *)
Definition recoveryCodeCount : nat := 10.
Definition recoveryAlphabet : string := "ABCDEFGHJKMNPQRSTUVWXYZ23456789".

Definition symbol (b : byte) : ascii :=
  default zero (String.get (N.to_nat (Byte.to_N b) mod String.length recoveryAlphabet) recoveryAlphabet).
(** A character [normalizeRecoveryCode] keeps. *)
Definition code_char (c : ascii) : bool := code_between 65 90 c || code_between 48 57 c.
Definition keep_chars (f : ascii → bool) (s : string) : string :=
  String.string_of_list_ascii (filter (λ c, f c = true) (String.list_ascii_of_string s)).
Definition normalizeRecoveryCode (s : string) : string := keep_chars code_char (ToUpper s).

(** [buf]: the twelve bytes [rand.Read] gave. *)
Definition format_code (b : list ascii) : string :=
  String.string_of_list_ascii (take 4 b) +:+ "-" +:+ String.string_of_list_ascii (take 4 (drop 4 b)) +:+ "-" +:+
  String.string_of_list_ascii (take 4 (drop 8 b)).
Definition newRecoveryCode (buf : option (list byte)) : option (string * string) :=
  match buf with
  | None => None
  | Some buf =>
    let code := format_code (symbol <$> buf) in
    Some (code, HashToken (normalizeRecoveryCode code))
  end.

(** [draws]: what the ten reads of one call give. *)
Definition GenerateRecoveryCodes (draws : nat → list (option (list byte))) (user : uuid) : M store (option (list string)) :=
  ds ← draw draws;
  match mapM newRecoveryCode (take recoveryCodeCount ds) with
  | None => mret None
  | Some codes =>
    r ← db (ReplaceRecoveryCodes user (codes.*2));
    mret (match r with Ok _ => Some codes.*1 | Err _ => None end)
  end.

Definition ConsumeRecoveryCode (user : uuid) (input : string) : M store bool :=
  let norm := normalizeRecoveryCode input in
  if str_eqb norm "" then mret false
  else
    r ← db (ConsumeRecoveryCode_row user (HashToken norm));
    mret (match r with Ok ok => ok | Err _ => false end).

(** * The tokens of the second step *)
Definition issue (purpose : string) (ttl : Z) (user : uuid) : M store (option string) :=
  now ← time_now; mret (sign_mfa user purpose (now + ttl)).
Definition IssueMFAChallenge := issue "mfa" (5 * minute).
Definition IssueMFASetupToken := issue "mfa_setup" (10 * minute).
Definition parse_purpose (purpose token : string) : M store (option uuid) :=
  now ← time_now;
  mret (match parse_mfa token now with
        | Some (u, p) => if str_eqb p purpose then Some u else None
        | None => None
        end).
Definition ParseMFAChallenge := parse_purpose "mfa".
Definition ParseMFASetupToken := parse_purpose "mfa_setup".

Definition MFARequiredFor (u : user) : M store bool :=
  if u_require_mfa u then mret true else MFAGloballyRequired.
End codes.

(** * Proofs: secrets *)
Section secret_lemmas.
Context `{!MfaLib, !Crypto, !CryptoLaws}.
(** AES-GCM refuses what was sealed under another key. *)
Definition gcm_authentic : Prop := ∀ k k' n p, k ≠ k' → gcm_Open k' n (gcm_Seal k n p) = None.

Lemma try_keys_finds key keys nonce plain : length nonce = NonceSize → gcm_authentic → key ∈ keys →
  try_keys keys (nonce ++ gcm_Seal key nonce (String.list_byte_of_string plain)) = Some plain.
Proof.
  intros Hn Ha. induction keys as [|k keys IH]; [by intros ?%not_elem_of_nil|]. intros Hin. simpl.
  rewrite length_app, (proj2 (Nat.ltb_ge _ _)) by lia.
  rewrite <- Hn, take_app_length, drop_app_length. destruct (decide (k = key)) as [->|Hne].
  - rewrite gcm_open_seal. f_equal. apply String.string_of_list_byte_of_string.
  - rewrite Ha by done. apply IH. set_solver.
Qed.

Lemma encrypt_first c nonce plain enc : EncryptSecret c (Some nonce) plain = Some enc →
  ∃ key keys, mfaKeys c = key :: keys ∧ enc = nonce ++ gcm_Seal key nonce (String.list_byte_of_string plain).
Proof. unfold EncryptSecret. destruct (mfaKeys c) as [|k ks]; [done|]. intros [= <-]. by exists k, ks. Qed.

Lemma decrypt_own c nonce plain enc : length nonce = NonceSize →
  EncryptSecret c (Some nonce) plain = Some enc → DecryptSecret c enc = Some plain.
Proof.
  intros Hn (key & keys & Hk & ->)%encrypt_first. unfold DecryptSecret. rewrite Hk. simpl.
  rewrite length_app, (proj2 (Nat.ltb_ge _ _)) by lia.
  rewrite <- Hn, take_app_length, drop_app_length, gcm_open_seal. f_equal.
  apply String.string_of_list_byte_of_string.
Qed.

(** the second factor's secrets survive key changes: what was encrypted under the keys of one
    configuration opens under every configuration that still has its first key - a dedicated key is
    adopted on top of the JWT secret, the HKDF derivation on top of the bare hash, and with a
    dedicated key in place the JWT secret may be changed. *)
Theorem mfa_secrets_survive_keys c c' nonce plain enc :
  gcm_authentic → length nonce = NonceSize →
  EncryptSecret c (Some nonce) plain = Some enc →
  (MFAEncryptionKey c = [] ∧ JWTSecret c' = JWTSecret c) ∨
  (MFAEncryptionKey c ≠ [] ∧ MFAEncryptionKey c' = MFAEncryptionKey c ∧
     is_Some (hkdf_Key (MFAEncryptionKey c) "totp-at-rest-v2")) →
  DecryptSecret c' enc = Some plain.
Proof.
  intros Ha Hn (key & keys & Hk & ->)%encrypt_first Hcase. unfold DecryptSecret.
  apply try_keys_finds; [done..|]. unfold mfaKeys in *. destruct Hcase as [[E1 E2]|(E1 & E2 & [k Hkd])].
  - rewrite E1 in Hk. simpl in Hk. rewrite E2.
    destruct (hkdf_Key (JWTSecret c) _) as [k|]; injection Hk as <- _; set_solver.
  - rewrite E2. rewrite bool_decide_false in * by done. rewrite Hkd in *.
    injection Hk as <- _. set_solver.
Qed.
End secret_lemmas.

(** * Proofs: codes *)
Section code_lemmas.
Context `{!Env store, !Quiet Env0, !AuthLib, !MfaLib, !Crypto} (cfg : mfa_config) (Hdb : ∀ n, db_err n = false).

(** A secret of the list that accepts the code at a tick. *)
Definition accepts (secrets : list (list byte)) (code : string) (m : nat) (sec : string) : Prop :=
  ∃ enc, enc ∈ secrets ∧ DecryptSecret cfg enc = Some sec ∧ ValidateTOTP_at sec code (clock m) = true.

Lemma accepts_cons enc secrets code m sec : accepts secrets code m sec → accepts (enc :: secrets) code m sec.
Proof. intros (e & ? & ?). exists e. split; [by right|done]. Qed.

Lemma set_last_step id step n s : is_Some (users s !! id) → last_step id s < step →
  last_step id (SetTOTPLastStep id step n s).2 = step.
Proof.
  intros Hu Hlt. unfold SetTOTPLastStep. cbn [snd]. rewrite bool_decide_true by done.
  rewrite (proj2 (Z.ltb_lt _ _)) by done. unfold last_step. simpl. by rewrite lookup_insert_eq.
Qed.

Lemma verify_accepts id secrets code n s w : VerifyUserTOTPNoReplay cfg id secrets code (World n s) = (true, w) →
  ∃ sec m, (n ≤ m < n + length secrets)%nat ∧ accepts secrets code m sec ∧
    match matchTOTPStep_at sec code (clock (S m)) with
    | Some step => users s !! id = None ∧ w_db w = s ∨
                   last_step id s < step ∧ w_db w = (SetTOTPLastStep id step (clock (S (S (S m)))) s).2
    | None => w_db w = s
    end.
Proof.
  revert n. induction secrets as [|enc secrets IH]; intros n; simpl; [done|].
  assert (∀ k, (n ≤ k ≤ S n)%nat → VerifyUserTOTPNoReplay cfg id secrets code (World k s) = (true, w) →
    ∃ sec m, (n ≤ m < n + S (length secrets))%nat ∧
    accepts (enc :: secrets) code m sec ∧
    match matchTOTPStep_at sec code (clock (S m)) with
    | Some step => users s !! id = None ∧ w_db w = s ∨
                   last_step id s < step ∧ w_db w = (SetTOTPLastStep id step (clock (S (S (S m)))) s).2
    | None => w_db w = s
    end) as Hrest.
  { intros k Hk (sec & m & ? & Ha & ?)%IH. exists sec, m. split; [simpl; lia|]. split; [by apply accepts_cons|done]. }
  destruct (DecryptSecret cfg enc) as [sec|] eqn:Hd; [|apply Hrest; lia].
  unfold ValidateTOTP, matchTOTPStep. run_step. destruct (ValidateTOTP_at sec code (clock n)) eqn:Hv; cbn [negb].
  2: { apply Hrest. lia. }
  intros Hrun. exists sec, n. split; [lia|]. split; [exists enc; split; [by left|done]|].
  revert Hrun. run_step. destruct (matchTOTPStep_at sec code (clock (S n))) as [step|]; [|by intros [= <-]].
  run_step. rewrite Hdb. cbn [fst snd TOTPLastStep get_row reading].
  case_bool_decide as Hu; [|intros [= <-]; left; split; [by apply eq_None_not_Some|done]].
  destruct (Z.leb_spec step (last_step id s)); [done|]. run_step. rewrite Hdb. run_step.
  intros [= <-]. right. split; [done|]. cbn [w_db]. by rewrite bool_decide_true by done.
Qed.

End code_lemmas.

(** a code is accepted for a timestep above every one accepted before, which then is the floor: no
    code of that step or an earlier one is accepted any more. It is accepted without moving the
    floor only where the code is valid but none of the three steps of the window gives it as it was
    typed, or the account's row is gone. (Codes that are refused leave the floor alone.) *)
Theorem totp_steps_increase `{!Env store, !Quiet Env0, !AuthLib, !MfaLib, !Crypto} cfg id secrets code n s w :
  (∀ m, db_err m = false) →
  VerifyUserTOTPNoReplay cfg id secrets code (World n s) = (true, w) →
  (∃ sec m, accepts cfg secrets code m sec ∧
     match matchTOTPStep_at sec code (clock (S m)) with
     | Some step => users s !! id = None ∨ (last_step id s < step ∧ last_step id (w_db w) = step)
     | None => w_db w = s
     end) ∧
  ∀ secrets' code' k, is_Some (users s !! id) →
    (∀ sec m, (k ≤ m < k + length secrets')%nat → accepts cfg secrets' code' m sec → ∃ step, matchTOTPStep_at sec code' (clock (S m)) = Some step ∧
       step ≤ last_step id (w_db w)) →
    (VerifyUserTOTPNoReplay cfg id secrets' code' (World k (w_db w))).1 = false.
Proof.
  intros Hdb Hrun. destruct (verify_accepts cfg Hdb _ _ _ _ _ _ Hrun) as (sec & m & _ & Ha & Hm). split.
  - exists sec, m. split; [done|]. destruct (matchTOTPStep_at _ _ _) as [step|]; [|done].
    destruct Hm as [[? _]|[Hlt ->]]; [by left|]. destruct (users s !! id) eqn:Hu; [right|by left].
    split; [done|]. apply set_last_step; [by rewrite Hu|done].
  - intros secrets' code' k Hu Hno.
    assert (is_Some (users (w_db w) !! id)) as Hu'.
    { destruct (matchTOTPStep_at _ _ _) as [step|]; [|by rewrite Hm].
      destruct Hm as [[_ ->]|[_ ->]]; [done|]. unfold SetTOTPLastStep. cbn [snd]. by destruct (_ && _). }
    destruct (VerifyUserTOTPNoReplay cfg id secrets' code' (World k (w_db w))) as [[] w'] eqn:E; [exfalso|done].
    apply (verify_accepts cfg Hdb) in E as (sec' & m' & Hk & Ha' & Hm'). destruct (Hno _ _ Hk Ha') as (step & Hs & Hle).
    rewrite Hs in Hm'. destruct Hm' as [[Hn _]|[Hlt _]]; [by rewrite Hn in Hu'; destruct Hu'|lia].
Qed.

(** * Proofs: recovery codes *)
Section recovery_lemmas.
Context `{!AuthLib, !MfaLib} (user : uuid) (hash : string).

Definition usable (s : store) : Prop := ∃ k c, recovery (mfa s) !! k = Some c ∧ unspent user hash c = true.
(** Nobody brings a spent code back. *)
Definition no_revival (s s' : store) : Prop := usable s' → usable s.

#[export] Instance no_revival_preorder : PreOrder no_revival.
Proof. split; [intros s Hs; exact Hs|intros s1 s2 s3 H1 H2 Hs; by apply H1, H2]. Qed.

Lemma spend_unspent u h now c : unspent user hash (spend u h now c) = true → unspent user hash c = true.
Proof.
  unfold spend. destruct (unspent u h c) eqn:E; [|done]. unfold unspent at 1. simpl.
  by rewrite andb_false_r.
Qed.

Lemma consume_no_revival u h now s : no_revival s (ConsumeRecoveryCode_row u h now s).2.
Proof.
  intros (k & c & Hc & Hu). cbn in Hc. rewrite lookup_fmap in Hc.
  apply fmap_Some in Hc as (c0 & Hc0 & ->). exists k, c0. split; [done|]. by eapply spend_unspent.
Qed.

Lemma consume_usable now s : (ConsumeRecoveryCode_row user hash now s).1 = Ok true ↔ usable s.
Proof.
  unfold ConsumeRecoveryCode_row, usable. cbn [fst]. split.
  - intros [= He]. apply existsb_exists in He as ([k c] & Hin & Hu). exists k, c. split; [|done].
    apply elem_of_map_to_list. by apply list_elem_of_In.
  - intros (k & c & Hc & Hu). f_equal. apply existsb_exists. exists (k, c). split; [|done].
    apply list_elem_of_In. by apply elem_of_map_to_list.
Qed.

Lemma consumed_unusable now s : ¬ usable (ConsumeRecoveryCode_row user hash now s).2.
Proof.
  intros (k & c & Hc & Hu). cbn in Hc. rewrite lookup_fmap in Hc.
  apply fmap_Some in Hc as (c0 & Hc0 & ->). pose proof (spend_unspent _ _ _ _ Hu) as Hu0.
  unfold spend in Hu. rewrite Hu0 in Hu. unfold unspent in Hu. simpl in Hu. by rewrite andb_false_r in Hu.
Qed.
End recovery_lemmas.

(** a recovery code signs in once, also when the same code is sent in several requests at the same
    time: whatever runs in between, as long as it does not create the code anew, after one request
    spent it every later one with it, however it is typed, is refused. And no request for any code
    of any user brings a spent one back. *)
Theorem recovery_code_spent_once `{!Env store, !AuthLib, !MfaLib} user input input' w w1 k s :
  let hash := HashToken (normalizeRecoveryCode input) in
  Relies (no_revival user hash) →
  ConsumeRecoveryCode user input w = (true, w1) →
  no_revival user hash (w_db w1) s → normalizeRecoveryCode input' = normalizeRecoveryCode input →
  (ConsumeRecoveryCode user input' (World k s)).1 = false ∧
  ∀ user' other, within (no_revival user hash) (ConsumeRecoveryCode user' other).
Proof.
  intros hash Hrel Hrun Hs Heq. split.
  - assert (¬ usable user hash s) as Hno.
    { intros Hu%Hs. revert Hu. revert Hrun. unfold ConsumeRecoveryCode. destruct (str_eqb _ _); [done|].
      rewrite run_bind, db_eq. destruct (db_err _); [done|]. intros [= _ <-]. apply consumed_unusable. }
    unfold ConsumeRecoveryCode. rewrite Heq. destruct (str_eqb _ _); [done|].
    rewrite run_bind, db_eq. destruct (db_err _); [done|]. cbn [w_tick w_db]. cbv zeta.
    set (s2 := interfere k s). assert (¬ usable user hash s2) as Hno2.
    { intros Hu. apply Hno. exact (Hrel k s Hu). }
    destruct (ConsumeRecoveryCode_row user (HashToken (normalizeRecoveryCode input)) (clock k) s2).1 as [[]|e] eqn:E;
      [|done..]. by apply consume_usable in E.
  - intros user' other. unfold ConsumeRecoveryCode. destruct (str_eqb _ _); [by apply within_ret, _|].
    apply within_bind; [exact _| |intros; apply within_ret, _].
    apply within_db; [exact _..|]. intros. apply consume_no_revival.
Qed.

(** The alphabet of recovery codes has 31 symbols, so eight of them come up for nine bytes out of
    256 and the others for eight. *)
Lemma recovery_code_bias :
  let bytes := omap Byte.of_N (N.of_nat <$> seq 0 256) in
  let hits c := length (filter (λ b, symbol b = c) bytes) in
  String.length recoveryAlphabet = 31%nat ∧ hits "A"%char = 9%nat ∧ hits "9"%char = 8%nat.
Proof. split_and!; by vm_compute. Qed.

(** ** Concrete instances for the witnesses *)
(** Codes are one character typed for a timestep: the secret repeated; keys are written out in
    front of what they seal. *)
Definition delimited (k : list byte) : list byte := concat ((λ b, [x01; b]) <$> k) ++ [x00].
Definition strip (k c : list byte) : option (list byte) :=
  if bool_decide (take (length (delimited k)) c = delimited k) then Some (drop (length (delimited k)) c) else None.
Definition toy_mfa_crypto : Crypto := {|
  argonKey p s := p ++ s; pbkdf2_Key p s := Some (s ++ p); Sum256 p := p;
  gcm_Seal k n p := delimited k ++ p; gcm_Open k n c := strip k c;
|}.
Definition toy_mfa_lib : MfaLib := {|
  GenerateCodeCustom s step := Some (s +:+ pretty step);
  ValidateCustom code s now := Some (existsb (λ d, str_eqb (TrimSpace code) (s +:+ pretty (unix now / period + d))) [-1; 0; 1]);
  GenerateTOTP name n := Some ("S", "otpauth://" +:+ name);
  sign_mfa u p e := Some (p +:+ ":" +:+ pretty u);
  parse_mfa t now := if str_eqb t "mfa:1" then Some (1%N, "mfa") else if str_eqb t "mfa_setup:1" then Some (1%N, "mfa_setup") else None;
  hkdf_Key k info := Some (k ++ String.list_byte_of_string info);
  ToUpper s := s;
|}.

Lemma delimited_prefix k k' x y : delimited k ++ x = delimited k' ++ y → k = k'.
Proof.
  unfold delimited. revert k'. induction k as [|b k IH]; intros [|b' k']; try done.
  simpl. intros [= -> Heq]. f_equal. by apply IH.
Qed.
Lemma toy_mfa_laws : @CryptoLaws toy_mfa_crypto.
Proof.
  split. intros k n p. simpl. unfold strip. by rewrite take_app_length, bool_decide_true, drop_app_length.
Qed.
Lemma toy_mfa_authentic : @gcm_authentic toy_mfa_crypto.
Proof.
  intros k k' n p Hne. simpl. unfold strip. rewrite bool_decide_false; [done|]. intros He. apply Hne.
  apply (delimited_prefix k k' p (drop (length (delimited k')) (delimited k ++ p))).
  rewrite <- He at 1. symmetry. apply take_drop.
Qed.

#[local] Existing Instances toy_mfa_crypto toy_mfa_lib toy_mfa_laws.

Definition toy_nonce : list byte := replicate 12 x09.
Definition toy_jwt : mfa_config := MfaConfig [] [x41].
Definition toy_dedicated : mfa_config := MfaConfig [x42] [x43].

Lemma mfa_secrets_survive_keys_witness :
  ∃ enc, EncryptSecret toy_jwt (Some toy_nonce) "S" = Some enc ∧
    DecryptSecret (MfaConfig [x42] [x41]) enc = Some "S".
Proof.
  eexists. split; [by vm_compute|].
  refine (mfa_secrets_survive_keys toy_jwt (MfaConfig [x42] [x41]) toy_nonce "S" _ toy_mfa_authentic _ _ _).
  - done.
  - by vm_compute.
  - by left.
Defined.

#[local] Existing Instance AuthSession.toy_auth.
Definition toy_enc : list byte := default [] (EncryptSecret toy_jwt (Some toy_nonce) "S").
(** The code of the clock's step is accepted, and refused when it is sent again. *)
Lemma totp_steps_increase_witness :
  let verify code w := @VerifyUserTOTPNoReplay quiet_env _ _ toy_jwt 1%N [toy_enc] code w in
  let r := verify "S1" (World 0 toy_store) in
  r.1 = true ∧ last_step 1%N (w_db r.2) = 1 ∧ (verify "S1" (World 7 (w_db r.2))).1 = false.
Proof.
  set (w := (@VerifyUserTOTPNoReplay quiet_env _ _ toy_jwt 1%N [toy_enc] "S1" (World 0 toy_store)).2).
  split; [by vm_compute|]. split; [by vm_compute|].
  refine (proj2 (@totp_steps_increase quiet_env _ _ _ _ toy_jwt 1%N [toy_enc] "S1" 0 toy_store w (λ _, eq_refl) _)
    [toy_enc] "S1" 7%nat _ _).
  - by vm_compute.
  - by eexists.
  - intros sec m Hm (enc & ->%list_elem_of_singleton & Hd & Hv). assert (m = 7%nat) as -> by (simpl in Hm; lia). assert (sec = "S") as ->.
    { assert (DecryptSecret toy_jwt toy_enc = Some "S") as E by (by vm_compute). congruence. }
    exists 1. split; by vm_compute.
Defined.

Lemma recovery_code_spent_once_witness :
  let s := set_recovery toy_store {[5%N := RecoveryCode 1%N "#ABCD" None]} in
  let r := @ConsumeRecoveryCode quiet_env _ _ 1%N "AB-CD" (World 0 s) in
  r.1 = true ∧ (@ConsumeRecoveryCode quiet_env _ _ 1%N "ABCD" (World 3 (w_db r.2))).1 = false.
Proof.
  set (s := set_recovery _ _). split; [by vm_compute|].
  refine (proj1 (@recovery_code_spent_once quiet_env _ _ 1%N "AB-CD" "ABCD" (World 0 s) _ 3%nat _ _ _ _ _)).
  - by vm_compute.
  - intros Hs'. exact Hs'.
  - by vm_compute.
Defined.

(** A code typed with spaces around it is valid, the library trims it, but equals none of the codes
    it is compared with to find its timestep: it is accepted each time it is sent, for as long as
    the window lasts, and leaves no trace. *)
Lemma padded_code_replays `{!Env store, !AuthLib, L : !MfaLib, !TotpLaws, !Crypto} cfg id enc sec typed n d s :
  DecryptSecret cfg enc = Some sec →
  (∀ step g, GenerateCodeCustom sec step = Some g → TrimSpace g = g) → TrimSpace typed ≠ typed →
  -1 ≤ d ≤ 1 → GenerateCodeCustom sec (unix (clock n) / period + d) = Some (TrimSpace typed) →
  VerifyUserTOTPNoReplay cfg id [enc] typed (World n s) = (true, World (S (S n)) s).
Proof.
  intros Hd Hg Hne Hr Hw. simpl. rewrite Hd. unfold ValidateTOTP, matchTOTPStep. rewrite !run_bind.
  cbn [time_now fst snd mret M_ret w_tick w_db]. unfold ValidateTOTP_at.
  rewrite (proj2 (validate_window typed sec (clock n))) by eauto. cbn [negb]. rewrite !run_bind.
  cbn [time_now fst snd mret M_ret w_tick w_db].
  replace (matchTOTPStep_at sec typed (clock (S n))) with (@None Z); [done|].
  symmetry. unfold matchTOTPStep_at.
  assert (∀ step, matches sec typed step = false) as Hno.
  { intros step. unfold matches. destruct (GenerateCodeCustom sec step) as [g|] eqn:E; [|done].
    apply bool_decide_false. intros <-. by apply Hne, (Hg step). }
  cbn [List.find]. by rewrite !Hno.
Qed.
