(* ===== verification/SignIn.v ===== *)
(** Signing in: the handlers of [auth/handlers.go] and [auth/webauthn.go] over the password check
    and the sessions of [AuthSession], the directories of [Sso] and the factors of [Mfa].

    The WebAuthn library is a parameter; JSON decoding has happened (a body that does not decode is
    [None]). Cookies are the tokens a reply carries; the rendering of the caller's own account is
    left out. *)
From S2P Require Import Prelude GoStrings SecretBox AuthSession Accounts Sso Mfa.
From Stdlib Require Import Strings.Ascii Strings.Byte.

Inductive login_reply :=
| LoggedIn (user : uuid) (t : Tokens) (mustChange : bool)
| MfaRequired (challenge : string)
| EnrollmentRequired (setupToken : string).

Definition auth_err_text (e : auth_err) : string :=
  match e with
  | ErrInvalidCredentials => "invalid username or password"
  | ErrAccountLocked => "account is locked"
  | ErrSessionInvalid => "session invalid or expired"
  | ErrIPNotAllowed => "sign-in from your network is not permitted"
  | ErrSessionLimit => "maximum concurrent sessions reached"
  | ErrInternal => "internal error"
  end.

Section handlers.
Context `{!Env store, !AuthLib, !LdapLib, !SecretBox, !MfaLib, !Crypto}.
Context (cfg : AuthSession.config) (mcfg : mfa_config).
Context (ldap : nat → ldapConfig) (CAKeyPassphrase : list byte) (nonce : nat → option (list byte)).

Definition event (name : string) (user : option uuid) : M store unit := _ ← db (RecordAuthEvent name user); mret tt.

Definition completeLogin (id : uuid) (u : user) (ip ua : string) : M store (reply login_reply) :=
  t ← CreateSession cfg id ip ua true;
  match t with
  | Err e =>
    if PolicyDenied e then _ ← event "login_blocked" (Some id); mret (WriteError 403 (auth_err_text e))
    else mret (WriteError 500 "could not create session")
  | Ok t =>
    _ ← event "login_success" (Some id);
    _ ← db (AppendAudit "auth.login" (Some id));
    _ ← db (UserRoleNames id);
    mret (WriteJSON 200 (LoggedIn id t (u_must_change u)))
  end.

(** The password, checked here or by the directory. *)
Definition password_step (username password : string) : M store (res auth_err (uuid * user)) :=
  u ← Authenticate username password;
  match u with
  | Ok u => mret (Ok u)
  | Err e =>
    enabled ← ldapEnabled ldap;
    if (enabled : bool) then
      lu ← authenticateLDAP ldap CAKeyPassphrase username password;
      mret (match lu with Ok lu => Ok lu | Err _ => Err e end)
    else mret (Err e)
  end.

Definition login (rq : option (string * string)) (ip ua : string) : M store (reply login_reply) :=
  match rq with
  | None => mret (WriteError 400 "invalid request body")
  | Some (username, password) =>
    u ← password_step username password;
    match u with
    | Err e => _ ← event "login_failure" None; mret (WriteError 401 (auth_err_text e))
    | Ok (id, u) =>
      has ← db (HasConfirmedMFA id);
      if (match has with Ok b => b | Err _ => false end) then
        c ← IssueMFAChallenge id;
        match c with
        | None => mret (WriteError 500 "could not start mfa")
        | Some c => _ ← event "mfa_challenge" (Some id); mret (WriteJSON 200 (MfaRequired c))
        end
      else
        required ← MFARequiredFor u;
        if (required : bool) then
          t ← IssueMFASetupToken id;
          match t with
          | None => mret (WriteError 500 "could not start mfa enrollment")
          | Some t => _ ← event "mfa_enrollment_required" (Some id); mret (WriteJSON 200 (EnrollmentRequired t))
          end
        else completeLogin id u ip ua
    end
  end.

(** A fresh secret, stored as pending; [None] is the refusal already written. *)
Definition new_pending (id : uuid) (name : string) : M store (reply (string * string)) :=
  g ← draw (GenerateTOTP name);
  match g with
  | None => mret (WriteError 500 "could not generate secret")
  | Some (secret, url) =>
    n ← draw nonce;
    match EncryptSecret mcfg n secret with
    | None => mret (WriteError 500 "could not protect secret")
    | Some enc =>
      r ← db (CreateTOTPPending id "Authenticator app" enc);
      mret (match r with
            | Ok _ => WriteJSON 200 (secret, url)
            | Err _ => WriteError 500 "could not store method"
            end)
    end
  end.

(** An enabled account. *)
Definition available (id : uuid) (k : user → M store (reply login_reply)) : M store (reply login_reply) :=
  u ← db (GetUserByID id);
  match u with
  | Err _ => mret (WriteError 401 "account unavailable")
  | Ok u => if u_disabled u then mret (WriteError 401 "account unavailable") else k u
  end.

Definition mfaSetupBegin (rq : option string) : M store (reply (string * string)) :=
  match rq with
  | None => mret (WriteError 400 "invalid request body")
  | Some token =>
    id ← ParseMFASetupToken token;
    match id with
    | None => mret (WriteError 401 "enrollment session expired; sign in again")
    | Some id =>
      u ← db (GetUserByID id);
      match u with
      | Err _ => mret (WriteError 401 "account unavailable")
      | Ok u => if u_disabled u then mret (WriteError 401 "account unavailable") else new_pending id (u_name u)
      end
    end
  end.

(** The pending factor becomes a confirmed one when the code is its own. *)
Definition confirm_pending {A} (id : uuid) (code : string) (k : M store (reply A)) : M store (reply A) :=
  p ← db (PendingTOTPSecret id);
  match p with
  | Err _ => mret (WriteError 400 "no pending enrollment; start again")
  | Ok (enc, fid) =>
    match DecryptSecret mcfg enc with
    | None => mret (WriteError 400 "invalid verification code")
    | Some secret =>
      ok ← ValidateTOTP secret code;
      if negb ok then mret (WriteError 400 "invalid verification code")
      else
        r ← db (ConfirmMFA id fid);
        match r with Err _ => mret (WriteError 500 "could not confirm") | Ok _ => k end
    end
  end.

Definition mfaSetupConfirm (rq : option (string * string)) (ip ua : string) : M store (reply login_reply) :=
  match rq with
  | None => mret (WriteError 400 "invalid request body")
  | Some (token, code) =>
    id ← ParseMFASetupToken token;
    match id with
    | None => mret (WriteError 401 "enrollment session expired; sign in again")
    | Some id =>
      confirm_pending id code (
      available id (λ u,
        _ ← db (AppendAudit "auth.mfa_enroll" (Some id));
        completeLogin id u ip ua))
    end
  end.

Definition mfaVerify (rq : option (string * string)) (ip ua : string) : M store (reply login_reply) :=
  match rq with
  | None => mret (WriteError 400 "invalid request body")
  | Some (challenge, code) =>
    id ← ParseMFAChallenge challenge;
    match id with
    | None => mret (WriteError 401 "mfa challenge expired; sign in again")
    | Some id =>
      available id (λ u,
        now ← (match u_locked_until u with Some _ => time_now | None => mret 0 end);
        if (match u_locked_until u with Some t => now <? t | None => false end) then
          mret (WriteError 401 "account is locked")
        else
          secrets ← db (ConfirmedTOTPSecrets id);
          ok ← (match secrets with
                | Ok secrets => VerifyUserTOTPNoReplay mcfg id secrets code
                | Err _ => mret false
                end);
          ok ← (if (ok : bool) then mret true else ConsumeRecoveryCode id code);
          if (ok : bool) then completeLogin id u ip ua
          else
            _ ← applyFailure id;
            _ ← event "mfa_failure" (Some id);
            mret (WriteError 401 "invalid verification code"))
    end
  end.

(** ** The caller's own factors *)
Context (p : Principal) (draws : nat → list (option (list byte))).

Definition mfaRecoveryStatus : M store (reply nat) :=
  n ← db (RemainingRecoveryCodes (UserID p));
  mret (match n with Ok n => WriteJSON 200 n | Err _ => WriteError 500 "could not load recovery codes" end).

Definition mfaRecoveryGenerate : M store (reply (list string)) :=
  has ← db (HasConfirmedMFA (UserID p));
  match has with
  | Err _ => mret (WriteError 500 "could not check MFA status")
  | Ok false => mret (WriteError 400 "enroll a second factor before generating recovery codes")
  | Ok true =>
    codes ← GenerateRecoveryCodes draws (UserID p);
    match codes with
    | None => mret (WriteError 500 "could not generate recovery codes")
    | Some codes => _ ← event "mfa_recovery_generated" (Some (UserID p)); mret (WriteJSON 200 codes)
    end
  end.

Definition mfaList : M store (reply (list (uuid * (factor_kind * string * bool * Z)))) :=
  r ← db (ListMFA (UserID p));
  mret (match r with Ok l => WriteJSON 200 l | Err _ => WriteError 500 "could not list mfa" end).

Definition mfaEnroll : M store (reply (string * string)) := new_pending (UserID p) (Username p).

Definition mfaConfirm (rq : option string) : M store (reply unit) :=
  match rq with
  | None => mret (WriteError 400 "invalid request body")
  | Some code =>
    confirm_pending (UserID p) code (
      _ ← db (AppendAudit "auth.mfa_enroll" (Some (UserID p))); mret (WriteJSON 200 tt))
  end.

Definition mfaDelete (idp : option uuid) : M store (reply unit) :=
  match idp with
  | None => mret (WriteError 400 "invalid id")
  | Some id =>
    r ← db (DeleteMFA (UserID p) id);
    match r with
    | Err _ => mret (WriteError 500 "could not remove")
    | Ok _ => _ ← db (AppendAudit "auth.mfa_remove" (Some (UserID p))); mret (WriteJSON 200 tt)
    end
  end.

(** ** Sessions: the two cookies, and the caller's session *)
Definition refresh (token : option string) (sid : option (option uuid)) : M store (reply Tokens) :=
  match token, sid with
  | None, _ => mret (WriteError 401 "no refresh token")
  | Some _, None => mret (WriteError 401 "no session")
  | Some _, Some None => mret (WriteError 401 "bad session")
  | Some token, Some (Some sid) =>
    t ← Refresh cfg sid token;
    mret (match t with Ok t => WriteJSON 200 t | Err e => WriteError 401 (auth_err_text e) end)
  end.
Definition logout : M store (reply unit) :=
  _ ← Logout (SessionID p);
  _ ← db (AppendAudit "auth.logout" (Some (UserID p)));
  mret (WriteJSON 200 tt).
End handlers.

(** * Passkeys ([auth/webauthn.go]) *)

(** The relying party, when it could be built; a stored credential; the state of a ceremony and the
    browser's answer to it. *)
Class PasskeyLib := {
  wa_ready : bool;
  wa_cred : Type; wa_data : Type; wa_answer : Type;
  unmarshal_cred : list byte → option wa_cred;
  marshal_cred : wa_cred → list byte;
  cred_id : wa_cred → list byte;
  CloneWarning : wa_cred → bool;
  BeginRegistration : uuid → list wa_cred → nat → option wa_data;
  CreateCredential : uuid → list wa_cred → wa_data → wa_answer → option wa_cred;
  BeginLogin : uuid → list wa_cred → nat → option wa_data;
  ValidateLogin : uuid → list wa_cred → wa_data → wa_answer → option wa_cred;
}.

Section passkeys.
Context `{!Env store, !AuthLib, !MfaLib, !PasskeyLib}.
Context (cfg : AuthSession.config) (randKey : nat → string).

Record wa_session := WaSession { ws_data : wa_data; ws_user : uuid; ws_expires : Z }.
(** The store of ceremonies, in memory: expired ones are dropped when one is added. *)
Definition put (key : string) (user : uuid) (data : wa_data) (now : Z) (c : gmap string wa_session) : gmap string wa_session :=
  <[key := WaSession data user (now + 5 * minute)]> (filter (λ kv, ¬ ws_expires kv.2 < now) c).
Definition take_session (key : string) (now : Z) (c : gmap string wa_session)
    : option wa_session * gmap string wa_session :=
  match c !! key with
  | None => (None, c)
  | Some v => (if ws_expires v <? now then None else Some v, delete key c)
  end.

(** The stored credentials that decode, and the row each was read from. *)
Definition loadWAUser (id : uuid) : M store (option (list (uuid * wa_cred))) :=
  u ← db (GetUserByID id);
  match u with
  | Err _ => mret None
  | Ok _ =>
    r ← db (WebAuthnCredentials id);
    mret (match r with
          | Err _ => None
          | Ok l => Some (omap (λ x, pair x.1 <$> unmarshal_cred x.2) l)
          end)
  end.
(** [idToRow]: the last row of an id counts. *)
Definition row_of (l : list (uuid * wa_cred)) (id : list byte) : option uuid :=
  fst <$> List.find (λ x, bool_decide (cred_id x.2 = id)) (reverse l).

Definition start (key : string) (user : uuid) (data : wa_data) (c : gmap string wa_session)
    : M store (reply string * gmap string wa_session) :=
  now ← time_now; mret (WriteJSON 200 key, put key user data now c).

Definition webauthnRegisterBegin (p : Principal) (c : gmap string wa_session) : M store (reply string * gmap string wa_session) :=
  if negb wa_ready then mret (WriteError 500 "webauthn not configured", c)
  else
    wu ← loadWAUser (UserID p);
    match wu with
    | None => mret (WriteError 500 "could not load user", c)
    | Some l =>
      d ← draw (BeginRegistration (UserID p) l.*2);
      match d with
      | None => mret (WriteError 500 "registration", c)
      | Some d => key ← draw randKey; start key (UserID p) d c
      end
    end.

Definition webauthnRegisterFinish (p : Principal) (key : string) (answer : option wa_answer) (c : gmap string wa_session)
    : M store (reply unit * gmap string wa_session) :=
  if negb wa_ready then mret (WriteError 500 "webauthn not configured", c)
  else
    now ← time_now;
    let '(sess, c) := take_session key now c in
    match sess with
    | None => mret (WriteError 400 "registration session expired", c)
    | Some sess =>
      if negb (bool_decide (ws_user sess = UserID p)) then mret (WriteError 400 "registration session expired", c)
      else
        match answer with
        | None => mret (WriteError 400 "invalid attestation", c)
        | Some answer =>
          wu ← loadWAUser (UserID p);
          match wu with
          | None => mret (WriteError 500 "could not load user", c)
          | Some l =>
            match CreateCredential (UserID p) l.*2 (ws_data sess) answer with
            | None => mret (WriteError 400 "registration failed", c)
            | Some cred =>
              r ← db (AddWebAuthnCredential (UserID p) "Passkey" (marshal_cred cred));
              match r with
              | Err _ => mret (WriteError 500 "could not store passkey", c)
              | Ok _ => _ ← db (AppendAudit "auth.mfa_enroll" (Some (UserID p))); mret (WriteJSON 200 tt, c)
              end
            end
          end
        end
    end.

Definition webauthnLoginBegin (rq : option string) (c : gmap string wa_session) : M store (reply string * gmap string wa_session) :=
  match rq with
  | None => mret (WriteError 400 "invalid request body", c)
  | Some challenge =>
    id ← ParseMFAChallenge challenge;
    match id with
    | None => mret (WriteError 401 "challenge expired; sign in again", c)
    | Some id =>
      if negb wa_ready then mret (WriteError 500 "webauthn not configured", c)
      else
        wu ← loadWAUser id;
        match wu with
        | None | Some [] => mret (WriteError 400 "no passkeys registered", c)
        | Some l =>
          d ← draw (BeginLogin id l.*2);
          match d with
          | None => mret (WriteError 500 "login", c)
          | Some d => key ← draw randKey; start key id d c
          end
        end
    end
  end.

Definition passkey_failure {A} (user : uuid) (msg : string) : M store (reply A) :=
  _ ← db (RecordAuthEvent "mfa_failure" (Some user)); mret (WriteError 401 msg).

Definition webauthnLoginFinish (key : string) (answer : option wa_answer) (ip ua : string) (c : gmap string wa_session)
    : M store (reply login_reply * gmap string wa_session) :=
  if negb wa_ready then mret (WriteError 500 "webauthn not configured", c)
  else
    now ← time_now;
    let '(sess, c) := take_session key now c in
    match sess with
    | None => mret (WriteError 400 "login session expired", c)
    | Some sess =>
      match answer with
      | None => mret (WriteError 400 "invalid assertion", c)
      | Some answer =>
        wu ← loadWAUser (ws_user sess);
        match wu with
        | None => mret (WriteError 500 "could not load user", c)
        | Some l =>
          match ValidateLogin (ws_user sess) l.*2 (ws_data sess) answer with
          | None => r ← passkey_failure (ws_user sess) "passkey verification failed"; mret (r, c)
          | Some cred =>
            if CloneWarning cred then
              r ← passkey_failure (ws_user sess) "passkey verification failed (authenticator may be cloned)"; mret (r, c)
            else
              _ ← (match row_of l (cred_id cred) with
                   | Some row => _ ← db (UpdateWebAuthnCredential row (marshal_cred cred)); mret tt
                   | None => mret tt
                   end);
              r ← available (ws_user sess) (λ u, completeLogin cfg (ws_user sess) u ip ua);
              mret (r, c)
          end
        end
      end
    end.
End passkeys.

(** * Proofs *)

(** The password step leaves the factors and the settings alone. *)
Definition keeps_mfa (s s' : store) : Prop := mfa s' = mfa s.
#[export] Instance keeps_mfa_preorder : PreOrder keeps_mfa.
Proof. split; [by intros s|intros s1 s2 s3; unfold keeps_mfa; congruence]. Qed.

Section keeps.
Context `{!Env store, !AuthLib, !LdapLib, !SecretBox, !Relies keeps_mfa}.

#[local] Ltac keeps_stmt :=
  apply within_db; [exact _..|]; intros;
  first [ reflexivity
        | unfold CreateUser, insertUser, AssignRoleByName, RecordLoginFailure, keeps_mfa; by repeat case_match ].
#[local] Hint Extern 1 (within keeps_mfa (db _)) => keeps_stmt : within.

Lemma keeps_for_each f l : (∀ a now s, keeps_mfa s (f a now s).2) → within keeps_mfa (for_each f l).
Proof.
  intros Hf. induction l as [|a l IH]; simpl; [apply within_ret, _|].
  apply within_bind; [exact _|by apply within_db; [exact _..|]|done].
Qed.

Lemma keeps_provision {E} (p : provider_rules E) i : within keeps_mfa (provision p i).
Proof.
  assert (∀ id m g, within keeps_mfa (reconcileGroupRoles id m g)) as Hr.
  { intros id m g. unfold reconcileGroupRoles. apply within_bind; [exact _|apply keeps_for_each|intros _; apply keeps_for_each].
    - intros. unfold AssignRoleByName, keeps_mfa. by repeat case_match.
    - done. }
  unfold provision, find_account, settle. within_tac.
Qed.

Lemma keeps_password ldap key username password : within keeps_mfa (password_step ldap key username password).
Proof.
  unfold password_step, Authenticate, applyFailure, lockoutPolicy, ldapEnabled, authenticateLDAP.
  pose proof @keeps_provision. within_tac.
Qed.
End keeps.

(** ** The requests that can end in a session *)
Section shown.
Context `{!Env store, !Quiet Env0, !AuthLib, !LdapLib, !SecretBox, !MfaLib, !Crypto, !PasskeyLib}.
Context (cfg : AuthSession.config) (mcfg : mfa_config) (ldap : nat → ldapConfig) (key : list byte).
Context (Hdb : ∀ n, db_err n = false).

Inductive sign_in_request :=
| RqLogin (username password : string)
| RqVerify (challenge code : string)
| RqEnroll (setupToken code : string)
| RqPasskey (ceremony : string) (answer : option wa_answer).

Definition serve (rq : sign_in_request) (ip ua : string) (c : gmap string wa_session)
    : M store (reply login_reply * gmap string wa_session) :=
  match rq with
  | RqLogin u p => r ← login cfg ldap key (Some (u, p)) ip ua; mret (r, c)
  | RqVerify t code => r ← mfaVerify cfg mcfg (Some (t, code)) ip ua; mret (r, c)
  | RqEnroll t code => r ← mfaSetupConfirm cfg mcfg (Some (t, code)) ip ua; mret (r, c)
  | RqPasskey k a => webauthnLoginFinish cfg k a ip ua c
  end.
Definition signed_in (r : reply login_reply) : option uuid :=
  match r with WriteJSON _ (LoggedIn id _ _) => Some id | _ => None end.

(** The password was right, the account has no second factor and needs none. *)
Definition password_sufficed (username password : string) (n : nat) (s : store) (id : uuid) : Prop :=
  ∃ u w, password_step ldap key username password (World n s) = (Ok (id, u), w) ∧
    has_factor id s = false ∧ u_require_mfa u = false ∧ require_mfa (mfa s) ≠ Some true.
(** A challenge of the account and a code: of a confirmed authenticator, or an unspent recovery
    code; the account is enabled and not locked. *)
Definition code_shown (challenge code : string) (n : nat) (s : store) (id : uuid) : Prop :=
  parse_mfa challenge (clock n) = Some (id, "mfa") ∧
  (∃ u, users s !! id = Some u ∧ u_disabled u = false ∧ locked_at u (clock (S (S n))) = false) ∧
  ((∃ sec m, accepts mcfg ((f_secret ∘ snd) <$> factors_of id (Some Totp) true s) code m sec) ∨
   usable id (HashToken (normalizeRecoveryCode code)) s).
(** A setup token of the account and a code of its pending authenticator, which is confirmed. *)
Definition factor_enrolled (token code : string) (n : nat) (s s' : store) (id : uuid) : Prop :=
  parse_mfa token (clock n) = Some (id, "mfa_setup") ∧
  ∃ fid f secret m, factors (mfa s) !! fid = Some f ∧ f_user f = id ∧ f_confirmed f = false ∧
    DecryptSecret mcfg (f_secret f) = Some secret ∧ ValidateTOTP_at secret code (clock m) = true ∧
    factors (mfa s') !! fid = Some (Factor id (f_kind f) (f_label f) (f_secret f) true (f_created f)).
(** A ceremony of the account, not expired, that one of its stored passkeys answered; the ceremony
    is gone afterwards. *)
Definition passkey_shown (k : string) (answer : option wa_answer) (n : nat) (s : store)
    (c c' : gmap string wa_session) (id : uuid) : Prop :=
  ∃ sess a cred l, c !! k = Some sess ∧ ws_user sess = id ∧ clock n ≤ ws_expires sess ∧ answer = Some a ∧
    (∀ row x, (row, x) ∈ l → ∃ f, factors (mfa s) !! row = Some f ∧ f_user f = id ∧ f_kind f = Webauthn ∧
       f_confirmed f = true ∧ unmarshal_cred (f_secret f) = Some x) ∧
    ValidateLogin id l.*2 (ws_data sess) a = Some cred ∧ CloneWarning cred = false ∧ c' !! k = None.

Definition justified (rq : sign_in_request) (n : nat) (s s' : store) (c c' : gmap string wa_session) (id : uuid) : Prop :=
  match rq with
  | RqLogin u p => password_sufficed u p n s id
  | RqVerify t code => code_shown t code n s id
  | RqEnroll t code => factor_enrolled t code n s s' id
  | RqPasskey k a => passkey_shown k a n s c c' id
  end.

Lemma complete_signed id u ip ua w v : signed_in (completeLogin cfg id u ip ua w).1 = Some v → v = id.
Proof.
  unfold completeLogin, event. rewrite run_bind. destruct (CreateSession _ _ _ _ _ _).1 as [t|e].
  - rewrite !run_bind. by intros [= <-].
  - destruct (PolicyDenied e); rewrite ?run_bind; done.
Qed.

Lemma available_signed id k w v : signed_in (available id k w).1 = Some v →
  ∃ u, users (w_db w) !! id = Some u ∧ u_disabled u = false ∧
    available id k w = k u (World (S (w_tick w)) (w_db w)).
Proof.
  destruct w as [n s]. unfold available. rewrite run_bind, run_db, Hdb. cbn [fst snd GetUserByID get_row reading].
  destruct (users s !! id) as [u|] eqn:Hu; [|done]. destruct (u_disabled u) eqn:Hd; [done|]. intros _. exists u. by split_and!.
Qed.

Lemma factors_of_spec user kind conf s fid f : (fid, f) ∈ factors_of user kind conf s ↔
  factors (mfa s) !! fid = Some f ∧ of_user user kind conf f = true.
Proof. unfold factors_of. rewrite elem_of_map_to_list, map_lookup_filter_Some. done. Qed.

Lemma has_factor_same id s s' : keeps_mfa s s' → has_factor id s' = has_factor id s.
Proof. unfold keeps_mfa, has_factor, factors_of. by intros ->. Qed.

Lemma login_justified u p ip ua n s v :
  signed_in (login cfg ldap key (Some (u, p)) ip ua (World n s)).1 = Some v → password_sufficed u p n s v.
Proof.
  unfold login. rewrite run_bind.
  assert (Relies keeps_mfa) as Hrel by (intros k x; by rewrite (quiet k x)).
  destruct (keeps_password ldap key u p (World n s) I) as [Hk _].
  destruct (password_step ldap key u p (World n s)) as [r [m s1]] eqn:Hp. cbn [fst snd w_db] in *.
  destruct r as [[id a]|e]; [|unfold event; rewrite !run_bind; done].
  rewrite run_bind, run_db, Hdb. cbn [fst snd HasConfirmedMFA reading].
  destruct (has_factor id s1) eqn:Hf.
  { unfold IssueMFAChallenge, issue, event. rewrite !run_bind. cbn [fst snd mret M_ret time_now].
    destruct (sign_mfa _ _ _); [|done]. rewrite !run_bind. done. }
  rewrite run_bind. destruct (MFARequiredFor a (World (S m) s1)) as [req w2] eqn:Hreq. cbn [fst snd].
  destruct req.
  { unfold IssueMFASetupToken, issue, event. rewrite !run_bind. cbn [fst snd mret M_ret time_now].
    destruct (sign_mfa _ _ _); [|done]. rewrite !run_bind. done. }
  intros ->%complete_signed. exists a, (World m s1). split; [done|].
  rewrite <- (has_factor_same id s s1 Hk). split; [done|].
  unfold MFARequiredFor in Hreq. destruct (u_require_mfa a); [done|]. split; [done|].
  rewrite <- Hk. revert Hreq. unfold MFAGloballyRequired. rewrite run_bind, run_db, Hdb.
  cbn [fst snd get_row reading]. by destruct (require_mfa (mfa s1)) as [[]|].
Qed.

Lemma verify_refused id secrets code n s :
  let r := VerifyUserTOTPNoReplay mcfg id secrets code (World n s) in r.1 = false → w_db r.2 = s.
Proof.
  cbv zeta. revert n. induction secrets as [|enc secrets IH]; intros n; simpl; [done|].
  destruct (DecryptSecret mcfg enc) as [sec|]; [|by apply IH].
  unfold ValidateTOTP, matchTOTPStep. run_step. destruct (ValidateTOTP_at sec code (clock n)); cbn [negb]; [|apply IH].
  run_step. destruct (matchTOTPStep_at sec code (clock (S n))) as [step|]; [|done].
  run_step. rewrite Hdb. cbn [fst snd TOTPLastStep get_row reading].
  case_bool_decide; [|done]. destruct (step <=? last_step id s); [done|]. run_step. by rewrite Hdb.
Qed.

Lemma verify_justified t code ip ua n s v :
  signed_in (mfaVerify cfg mcfg (Some (t, code)) ip ua (World n s)).1 = Some v → code_shown t code n s v.
Proof.
  unfold mfaVerify, ParseMFAChallenge, parse_purpose. rewrite !run_bind. cbn [time_now fst snd mret M_ret w_tick w_db].
  destruct (parse_mfa t (clock n)) as [[id pur]|] eqn:Hp; [|done].
  destruct (str_eqb pur "mfa") eqn:He; [apply str_eqb_eq in He as ->|done].
  intros Hs. destruct (available_signed _ _ _ _ Hs) as (u & Hu & Hd & Hrun).
  rewrite Hrun in Hs. clear Hrun. cbn [w_tick w_db] in *. revert Hs. rewrite run_bind.
  set (x := match u_locked_until u with Some _ => time_now | None => mret 0 end (World (S (S n)) s)).
  assert (w_db x.2 = s) as Hx by (unfold x; by destruct (u_locked_until u)).
  assert ((match u_locked_until u with Some t => x.1 <? t | None => false end) = locked_at u (clock (S (S n)))) as Hl.
  { unfold x, locked_at. by destruct (u_locked_until u). }
  rewrite Hl. destruct x as [x1 [k s1]]. cbn [fst snd w_db] in *. subst s1. clear Hl.
  destruct (locked_at u (clock (S (S n)))) eqn:Hlock; [done|].
  rewrite run_bind, run_db, Hdb. cbn [fst snd ConfirmedTOTPSecrets reading]. rewrite run_bind.
  set (secrets := (f_secret ∘ snd) <$> factors_of id (Some Totp) true s).
  destruct (VerifyUserTOTPNoReplay mcfg id secrets code (World (S k) s)) as [ok [k2 s2]] eqn:Hv.
  cbn [fst snd]. rewrite run_bind. intros Hs.
  assert (((∃ sec m, accepts mcfg secrets code m sec) ∨ usable id (HashToken (normalizeRecoveryCode code)) s) ∧ v = id) as [Hok ->].
  { destruct ok; cbn [fst snd mret M_ret] in Hs.
    - split; [left|by eapply complete_signed]. apply (verify_accepts mcfg Hdb) in Hv as (sec & m & _ & ? & _). eauto.
    - pose proof (verify_refused id secrets code (S k) s) as Hsame. rewrite Hv in Hsame.
      cbn [fst snd w_db] in Hsame. rewrite (Hsame eq_refl) in Hs. clear Hsame Hv s2.
      unfold ConsumeRecoveryCode in Hs. destruct (str_eqb _ _); [cbn in Hs; by rewrite !run_bind in Hs|].
      rewrite run_bind, run_db, Hdb in Hs. cbn [fst snd mret M_ret] in Hs.
      destruct (ConsumeRecoveryCode_row id (HashToken (normalizeRecoveryCode code)) (clock k2) s).1 as [[]|e] eqn:Hc;
        [|unfold event in Hs; by rewrite !run_bind in Hs..].
      split; [right; by apply consume_usable in Hc|by eapply complete_signed]. }
  split; [done|]. split; [by exists u|done].
Qed.

(** Completing a sign-in leaves the factors alone. *)
Lemma complete_factors id u ip ua w : factors (mfa (w_db (completeLogin cfg id u ip ua w).2)) = factors (mfa (w_db w)).
Proof.
  pose (R := λ s s' : store, factors (mfa s') = factors (mfa s)).
  assert (PreOrder R) by (unfold R; split; [by intros x|intros ???; congruence]).
  assert (Relies R) by (intros k x; unfold R; by rewrite (quiet k x)).
  assert (within R (completeLogin cfg id u ip ua)) as Hw.
  { unfold completeLogin, event, CreateSession, onSessionCreated, enforceSessionPolicy, SessionPolicy_read.
    assert (∀ A (f : Z → store → res store_error A * store), (∀ now x, R x (f now x).2) → within R (db f)) as Hst.
    { intros A f Hf. by apply within_db; [exact _..|]. }
    assert (∀ l, within R (effect (λ x, set_live x (l ∪ live x)))) as Hef.
    { intros l. apply within_effect. done. }
    assert (within R NewRefreshToken) as Hnew by (intros ? ?; by split).
    repeat first [ within_step | apply Hst; intros; done | apply Hef | exact Hnew ]. }
  by destruct (Hw w I) as [HR _].
Qed.

Lemma latest_elem l x : latest l = Some x → x ∈ l.
Proof.
  revert x. induction l as [|y l IH]; intros x; simpl; [done|]. destruct (latest l) as [b|].
  - destruct (_ <=? _); intros [= <-]; [by left|right; by apply IH].
  - intros [= <-]. by left.
Qed.

Lemma enroll_justified t code ip ua n s v :
  let r := mfaSetupConfirm cfg mcfg (Some (t, code)) ip ua (World n s) in
  signed_in r.1 = Some v → factor_enrolled t code n s (w_db r.2) v.
Proof.
  cbv zeta. unfold mfaSetupConfirm, ParseMFASetupToken, parse_purpose. rewrite !run_bind.
  cbn [time_now fst snd mret M_ret w_tick w_db].
  destruct (parse_mfa t (clock n)) as [[id pur]|] eqn:Hp; [|done].
  destruct (str_eqb pur "mfa_setup") eqn:He; [apply str_eqb_eq in He as ->|done].
  unfold confirm_pending. rewrite run_bind, run_db, Hdb. cbn [fst snd PendingTOTPSecret get_row reading].
  destruct (latest _) as [[fid f]|] eqn:Hl; [|done]. cbn [fmap option_fmap option_map fst snd].
  apply latest_elem, factors_of_spec in Hl as [Hf Hof]. unfold of_user in Hof.
  apply andb_true_iff in Hof as [[Hfu Hconf]%andb_true_iff Hk].
  apply bool_decide_eq_true in Hfu. apply Bool.eqb_prop in Hconf. apply bool_decide_eq_true in Hk.
  destruct (DecryptSecret mcfg (f_secret f)) as [sec|] eqn:Hdec; [|done].
  unfold ValidateTOTP. rewrite !run_bind. cbn [time_now fst snd mret M_ret w_tick w_db].
  destruct (ValidateTOTP_at sec code (clock (S (S n)))) eqn:Hv; [|done]. cbn [negb].
  rewrite run_bind, run_db, Hdb. cbn [fst snd ConfirmMFA].
  set (s1 := set_factors s _). intros Hs. destruct (available_signed _ _ _ _ Hs) as (u & Hu & Hd & Hrun).
  rewrite Hrun in *. clear Hrun. rewrite run_bind, run_db, Hdb in *. cbn [fst snd w_tick w_db] in *.
  pose proof (complete_signed _ _ _ _ _ _ Hs) as ->. split; [done|].
  exists fid, f, sec, (S (S n)). split_and!; try done. rewrite complete_factors. unfold s1. simpl.
  rewrite lookup_alter_eq, Hf. simpl. unfold with_confirmed. rewrite bool_decide_true by done. by rewrite Hfu.
Qed.

Lemma load_spec id n s l : (loadWAUser id (World n s)).1 = Some l →
  ∀ row x, (row, x) ∈ l → ∃ f, factors (mfa s) !! row = Some f ∧ f_user f = id ∧ f_kind f = Webauthn ∧
    f_confirmed f = true ∧ unmarshal_cred (f_secret f) = Some x.
Proof.
  unfold loadWAUser. rewrite run_bind, run_db, Hdb. cbn [fst snd GetUserByID get_row reading].
  destruct (users s !! id); [|done]. rewrite run_bind, run_db, Hdb. cbn [fst snd WebAuthnCredentials reading mret M_ret].
  intros [= <-] row x Hin. apply list_elem_of_omap in Hin as ([fid b] & Hin & Hx). simpl in Hx.
  apply list_elem_of_fmap in Hin as ([fid' f] & [= -> ->] & [Hf Hof]%factors_of_spec).
  unfold of_user in Hof. apply andb_true_iff in Hof as [[Hfu Hconf]%andb_true_iff Hk].
  apply bool_decide_eq_true in Hfu, Hk. apply Bool.eqb_prop in Hconf.
  apply fmap_Some in Hx as (y & Hy & [= -> <-]). by exists f.
Qed.

Lemma passkey_justified k a ip ua c n s v :
  let r := webauthnLoginFinish cfg k a ip ua c (World n s) in
  signed_in r.1.1 = Some v → passkey_shown k a n s c r.1.2 v.
Proof.
  cbv zeta. unfold webauthnLoginFinish. destruct wa_ready; [cbn [negb]|done].
  rewrite run_bind. cbn [time_now fst snd w_tick w_db]. unfold take_session.
  destruct (c !! k) as [sess|] eqn:Hc; [|done].
  destruct (Z.ltb_spec (ws_expires sess) (clock n)) as [|Hexp]; [done|]. destruct a as [a|]; [|done].
  rewrite run_bind. pose proof (load_spec (ws_user sess) (S n) s) as Hload.
  destruct (loadWAUser (ws_user sess) (World (S n) s)) as [[l|] w1]; cbn [fst snd] in *; [|done].
  specialize (Hload l eq_refl). unfold passkey_failure. destruct (ValidateLogin _ _ _ _) as [cred|] eqn:Hval.
  2: { by rewrite !run_bind. }
  destruct (CloneWarning cred) eqn:Hclone; [by rewrite !run_bind|].
  rewrite run_bind. destruct (row_of l (cred_id cred)); rewrite !run_bind.
  all: cbn [fst snd mret M_ret]; intros Hs; destruct (available_signed _ _ _ _ Hs) as (u & _ & _ & Hrun).
  all: rewrite Hrun in Hs; apply complete_signed in Hs as ->.
  all: exists sess, a, cred, l; split_and!; try done; by rewrite lookup_delete_eq.
Qed.
End shown.


(** ** Lockout of the second step *)
Section lockout.
Context `{!Env store, !Quiet Env0, !AuthLib, !MfaLib, !Crypto}.
Context (cfg : AuthSession.config) (mcfg : mfa_config) (Hdb : ∀ n, db_err n = false).

Definition confirmed_secrets (id : uuid) (s : store) : list (list byte) :=
  (f_secret ∘ snd) <$> factors_of id (Some Totp) true s.
(** A code no authenticator of the account accepts at any time, and no recovery code. *)
Definition wrong_code (id : uuid) (s : store) (code : string) : Prop :=
  (∀ sec m, ¬ accepts mcfg (confirmed_secrets id s) code m sec) ∧
  ¬ usable id (HashToken (normalizeRecoveryCode code)) s.

Lemma verify_wrong id secrets code n s : (∀ sec m, ¬ accepts mcfg secrets code m sec) →
  ∃ k, VerifyUserTOTPNoReplay mcfg id secrets code (World n s) = (false, World k s) ∧ (n ≤ k)%nat.
Proof.
  revert n. induction secrets as [|enc secrets IH]; intros n Hno; simpl; [by exists n|].
  assert (∀ sec m, ¬ accepts mcfg secrets code m sec) as Hno'.
  { intros sec m Ha. by eapply Hno, accepts_cons. }
  destruct (DecryptSecret mcfg enc) as [sec|] eqn:Hd; [|by apply IH].
  unfold ValidateTOTP. run_step. destruct (ValidateTOTP_at sec code (clock n)) eqn:Hv; cbn [negb].
  - exfalso. apply (Hno sec n). exists enc. split; [by left|done].
  - destruct (IH (S n) Hno') as (k & Hk & ?). exists k. split; [done|lia].
Qed.

Lemma mfaVerify_wrong t code ip ua id u n s :
  parse_mfa t (clock n) = Some (id, "mfa") →
  users s !! id = Some u → u_disabled u = false → u_locked_until u = None → wrong_code id s code →
  ∃ k m l, mfaVerify cfg mcfg (Some (t, code)) ip ua (World n s) =
    (WriteError 401 "invalid verification code", World m
       (set_events (set_users s (<[id := login_failure (lock_policy s).1 ((lock_policy s).2 * minute) (clock k) u]> (users s))) l)) ∧
    (n ≤ k ≤ m)%nat.
Proof.
  intros Ht Hu Hd Hl [Hno Hrec]. unfold mfaVerify, ParseMFAChallenge, parse_purpose.
  rewrite !run_bind. cbn [time_now fst snd mret M_ret w_tick w_db]. rewrite Ht. cbn [str_eqb].
  rewrite (proj2 (str_eqb_eq "mfa" "mfa") eq_refl).
  unfold available. rewrite run_bind, run_db, Hdb. cbn [fst snd GetUserByID get_row reading].
  rewrite Hu, Hd, Hl, run_bind. cbn [fst snd mret M_ret].
  rewrite run_bind, run_db, Hdb. cbn [fst snd ConfirmedTOTPSecrets reading]. rewrite run_bind.
  destruct (verify_wrong id (confirmed_secrets id s) code (S (S (S n))) s Hno) as (k & Hv & Hk).
  unfold confirmed_secrets in Hv. rewrite Hv. cbn [fst snd]. rewrite run_bind.
  assert (∃ k', ConsumeRecoveryCode id code (World k s) = (false, World k' s) ∧ (k ≤ k')%nat) as (k' & Hc & Hk').
  { unfold ConsumeRecoveryCode. destruct (str_eqb _ _); [by exists k|].
    rewrite run_bind, run_db, Hdb. cbn [fst snd mret M_ret]. eexists. split; [|by apply Nat.le_succ_diag_r].
    destruct (ConsumeRecoveryCode_row id (HashToken (normalizeRecoveryCode code)) (clock k) s) as [r s'] eqn:E.
    assert (s' = s) as ->.
    { injection E as _ <-. destruct s as [? ? ? ? ? ? ? ? [F R T Q V] ? ?]. unfold set_recovery, set_mfa. cbn.
      do 2 f_equal. apply map_eq. intros i. rewrite lookup_fmap. destruct (R !! i) as [c|] eqn:Hi; [|done].
      simpl. f_equal. unfold spend. destruct (unspent _ _ c) eqn:Hun; [|done]. exfalso. apply Hrec. by exists i, c. }
    f_equal. injection E as <- _.
    destruct (ConsumeRecoveryCode_row id (HashToken (normalizeRecoveryCode code)) (clock k) s).1 as [[]|e] eqn:Hr;
      [by apply consume_usable in Hr|by injection Hr as ->|done]. }
  rewrite Hc. cbn [fst snd]. rewrite run_bind, (applyFailure_run Hdb id u k' s Hu). cbn [fst snd].
  unfold event. rewrite !run_bind, run_db, Hdb. cbn [fst snd mret M_ret RecordAuthEvent].
  eexists (S k'), _, _. split; [reflexivity|lia].
Qed.

Lemma mfaVerify_expired t code ip ua n s : parse_mfa t (clock n) = None →
  (mfaVerify cfg mcfg (Some (t, code)) ip ua (World n s)).1 = WriteError 401 "mfa challenge expired; sign in again".
Proof.
  intros Ht. unfold mfaVerify, ParseMFAChallenge, parse_purpose. rewrite !run_bind.
  cbn [time_now fst snd mret M_ret w_tick w_db]. by rewrite Ht.
Qed.

Lemma mfaVerify_locked t code ip ua id u n s :
  parse_mfa t (clock n) = Some (id, "mfa") → users s !! id = Some u → u_disabled u = false →
  locked_at u (clock (S (S n))) = true →
  (mfaVerify cfg mcfg (Some (t, code)) ip ua (World n s)).1 = WriteError 401 "account is locked".
Proof.
  intros Ht Hu Hd Hl. unfold mfaVerify, ParseMFAChallenge, parse_purpose. rewrite !run_bind.
  cbn [time_now fst snd mret M_ret w_tick w_db]. rewrite Ht, (proj2 (str_eqb_eq "mfa" "mfa") eq_refl).
  unfold available. rewrite run_bind, run_db, Hdb. cbn [fst snd GetUserByID get_row reading].
  rewrite Hu, Hd, run_bind. unfold locked_at in Hl. destruct (u_locked_until u) as [x|]; [|done].
  cbn [time_now fst snd w_tick w_db]. by rewrite Hl.
Qed.

Lemma wrong_code_same id s s' code : factors (mfa s') = factors (mfa s) → recovery (mfa s') = recovery (mfa s) →
  wrong_code id s code → wrong_code id s' code.
Proof. unfold wrong_code, confirmed_secrets, factors_of, usable. by intros -> ->. Qed.

Definition attempt ip ua (tc : string * string) : M store (reply login_reply) :=
  mfaVerify cfg mcfg (Some tc) ip ua.

Lemma wrong_attempts_lock id ip ua tcs n s u :
  (∀ tc, tc ∈ tcs → ∀ now, parse_mfa tc.1 now = None ∨ parse_mfa tc.1 now = Some (id, "mfa")) →
  WriteError 401 "mfa challenge expired; sign in again" ∉ (mapM (attempt ip ua) tcs (World n s)).1 →
  users s !! id = Some u → u_disabled u = false → u_locked_until u = None →
  (∀ tc, tc ∈ tcs → wrong_code id s tc.2) →
  tcs ≠ [] → u_failed u + Z.of_nat (length tcs) = (lock_policy s).1 →
  let r := mapM (attempt ip ua) tcs (World n s) in
  (∀ a, a ∈ r.1 → a = WriteError 401 "invalid verification code") ∧
  ∃ k u', (n ≤ k)%nat ∧ users (w_db r.2) !! id = Some u' ∧ u_disabled u' = false ∧
    u_locked_until u' = Some (clock k + (lock_policy s).2 * minute).
Proof.
  revert n s u. induction tcs as [|[t code] tcs IH]; intros n s u Ht Hexp Hu Hd Hl Hw Hne Hlen; [done|].
  change (mapM (attempt ip ua) ((t, code) :: tcs)) with
    (b ← attempt ip ua (t, code); bs ← mapM (attempt ip ua) tcs; mret (b :: bs)) in *.
  cbv zeta. rewrite !run_bind in *.
  destruct (Ht (t, code) (list_elem_of_here _ _) (clock n)) as [He|Hp]; cbn [fst] in *.
  { exfalso. apply Hexp. cbn [fst mret M_ret]. unfold attempt at 1. rewrite mfaVerify_expired by done. by left. }
  destruct (mfaVerify_wrong t code ip ua id u n s Hp Hu Hd Hl) as (k & m & l & Hrun & Hk).
  { apply (Hw (t, code)), list_elem_of_here. }
  change (mfaVerify cfg mcfg (Some (t, code)) ip ua) with (attempt ip ua (t, code)) in Hrun.
  rewrite !Hrun in *. cbn [fst snd mret M_ret] in *.
  set (u1 := login_failure _ _ _ u) in *. set (s1 := set_events _ l) in *.
  assert (users s1 !! id = Some u1) as Hu1 by (simpl; by rewrite lookup_insert_eq).
  simpl in Hlen. destruct tcs as [|tc tcs].
  - cbn [mapM mret M_ret fst snd w_db]. split; [by intros a ->%list_elem_of_singleton|].
    exists k, u1. split_and!; try done; [lia|]. unfold u1, login_failure. simpl.
    by rewrite (proj2 (Z.leb_le _ _)) by (simpl in Hlen; lia).
  - assert (u_locked_until u1 = None) as Hl1.
    { unfold u1, login_failure. simpl. by rewrite (proj2 (Z.leb_gt _ _)) by (simpl in Hlen; lia). }
    assert (∀ x, x ∈ tc :: tcs → x ∈ (t, code) :: tc :: tcs) as Hsub by (intros x; by right).
    destruct (IH m s1 u1) as (Hall & k' & u' & Hk' & Hu' & Hd' & Hlock); try done.
    + intros x Hx. by apply Ht, Hsub.
    + intros Hin. apply Hexp. by right.
    + intros x Hx. apply (wrong_code_same id s); [done..|]. by apply Hw, Hsub.
    + change (lock_policy s1) with (lock_policy s). simpl in *. lia.
    + split; [intros a [->|Ha]%elem_of_cons; [done|by apply Hall]|].
      exists k', u'. split_and!; try done. lia.
Qed.
End lockout.

(** the second step counts toward the same lockout as passwords. Wrong codes in a row, each against
    a challenge that has not expired, are refused one by one; when as many were sent as the policy
    leaves, the account is locked, and until the lock runs out every code is refused, a right one
    too, and with whatever challenge. *)
Theorem wrong_codes_lock `{!Env store, !Quiet Env0, !AuthLib, !MfaLib, !Crypto} cfg mcfg id ip ua tcs n s u :
  (∀ m, db_err m = false) →
  (∀ tc, tc ∈ tcs → ∀ now, parse_mfa tc.1 now = None ∨ parse_mfa tc.1 now = Some (id, "mfa")) →
  let r := mapM (attempt cfg mcfg ip ua) tcs (World n s) in
  WriteError 401 "mfa challenge expired; sign in again" ∉ r.1 →
  users s !! id = Some u → u_disabled u = false → u_locked_until u = None →
  (∀ tc, tc ∈ tcs → wrong_code mcfg id s tc.2) →
  tcs ≠ [] → u_failed u + Z.of_nat (length tcs) = (lock_policy s).1 →
  (∀ a, a ∈ r.1 → a = WriteError 401 "invalid verification code") ∧
  ∃ k, (n ≤ k)%nat ∧ ∀ t code m, parse_mfa t (clock m) = Some (id, "mfa") →
    clock (S (S m)) < clock k + (lock_policy s).2 * minute →
    (mfaVerify cfg mcfg (Some (t, code)) ip ua (World m (w_db r.2))).1 = WriteError 401 "account is locked".
Proof.
  intros Hdb Ht r Hexp Hu Hd Hl Hw Hne Hlen.
  destruct (wrong_attempts_lock cfg mcfg Hdb id ip ua tcs n s u) as (Hall & k & u' & Hk & Hu' & Hd' & Hl'); try done.
  split; [done|]. exists k. split; [done|]. intros t code m Hp Hm.
  eapply mfaVerify_locked; [done..|]. unfold locked_at. rewrite Hl'. by apply Z.ltb_lt.
Qed.

(** ** Where the second step is not asked for *)
Section without.
Context `{!Env store, !Quiet Env0, !AuthLib}.
Context (cfg : AuthSession.config).

(** No session policy stands in the way, and every statement from a tick on goes through. *)
Definition unrestricted (id : uuid) (s : store) : Prop := global_policy s = None ∧ user_policies s !! id = None.
Definition fine_from (n : nat) : Prop := ∀ m, (n ≤ m)%nat → db_err m = false.

Lemma fine_at n m : fine_from n → (n ≤ m)%nat → db_err m = false.
Proof. intros Hf. apply Hf. Qed.

Lemma policy_ok id ip n s : unrestricted id s → fine_from n →
  enforceSessionPolicy id ip (World n s) = (None, World (S (S n)) s).
Proof.
  intros [Hg Hu] Hf.
  assert (SessionPolicy_read (World n s) = (MkPolicy [] 0, World (S n) s)) as Hp.
  { unfold SessionPolicy_read. rewrite run_bind, run_db, (fine_at _ _ Hf) by lia.
    cbn [fst snd get_row reading]. by rewrite Hg. }
  unfold enforceSessionPolicy. rewrite run_bind, Hp. cbn [fst snd]. rewrite run_bind, run_db, (fine_at _ _ Hf) by lia.
  cbn [fst snd GetUserSessionPolicy]. by rewrite Hu.
Qed.

Lemma create_ok id ip ua m n s : unrestricted id s → fine_from n →
  ∃ t k s', CreateSession cfg id ip ua m (World n s) = (Ok t, World k s').
Proof.
  intros Hu Hf. unfold CreateSession. rewrite run_bind, (policy_ok _ _ _ _ Hu Hf). cbn [fst snd].
  rewrite run_bind. cbn [NewRefreshToken fst snd w_tick]. rewrite run_bind. cbn [time_now fst snd w_tick w_db].
  rewrite run_bind, run_db, (fine_at _ _ Hf) by lia. cbn [fst snd CreateSession_row].
  rewrite run_bind. cbn [snd]. rewrite run_bind. cbn [fst snd mret M_ret].
  destruct (onSessionCreated _ _) as [[] [k s']]. eauto.
Qed.

Lemma complete_ok id u ip ua n s : unrestricted id s → fine_from n →
  ∃ t w, completeLogin cfg id u ip ua (World n s) = (WriteJSON 200 (LoggedIn id t (u_must_change u)), w).
Proof.
  intros Hu Hf. unfold completeLogin, event. rewrite run_bind.
  destruct (create_ok id ip ua true n s Hu Hf) as (t & k & s' & ->). cbn [fst snd].
  rewrite !run_bind. cbn [fst snd mret M_ret]. eauto.
Qed.
End without.

Lemma Authenticate_right `{!Env store, !Quiet Env0, !AuthLib} name pw id u h n s :
  db_err n = false → db_err (S (S n)) = false → names_only s name id u → signs_in u h →
  u_locked_until u = None → VerifyPassword pw h = Ok true → PasswordNeedsRehash h = false →
  Authenticate name pw (World n s) = (Ok (id, u), World (S (S (S n))) s).
Proof.
  intros H1' H2' Hn Hin Hl Hv Hr. pose proof (signs_in_source u h Hin) as Hs. destruct Hin as (Hd & _ & Hh).
  unfold Authenticate. run_step. rewrite H1'. simpl. rewrite (user_by_name_unique _ _ _ _ Hn), Hd, Hs. run_step.
  rewrite Hl. run_step. rewrite H2'. simpl. destruct Hn as [Hu _]. rewrite Hu. simpl. rewrite Hh, Hv, Hr. done.
Qed.

(** a failing statement lifts the second factor. When the check for a confirmed factor cannot be
    made - the database fails at that one statement - the error is dropped and the right password
    alone is answered with a session, whatever factors the account has, unless the account or the
    settings require one. *)
Theorem factor_check_fails_open `{!Env store, !Quiet Env0, !AuthLib, !LdapLib, !SecretBox, !MfaLib}
    cfg ldap key name pw ip ua id u h n s :
  (∀ m, db_err m = bool_decide (m = S (S (S n)))) →
  names_only s name id u → signs_in u h → u_locked_until u = None →
  VerifyPassword pw h = Ok true → PasswordNeedsRehash h = false →
  u_require_mfa u = false → require_mfa (mfa s) ≠ Some true → unrestricted id s →
  ∃ t w, login cfg ldap key (Some (name, pw)) ip ua (World n s) = (WriteJSON 200 (LoggedIn id t (u_must_change u)), w).
Proof.
  intros Hdb Hn Hin Hl Hv Hr Hreq Hset Hu.
  assert (∀ m, m ≠ S (S (S n)) → db_err m = false) as Hok by (intros m Hm; rewrite Hdb; by apply bool_decide_false).
  unfold login, password_step. rewrite run_bind, run_bind.
  rewrite (Authenticate_right name pw id u h n s) by (try done; apply Hok; lia). cbn [fst snd mret M_ret].
  rewrite run_bind, run_db, Hdb, bool_decide_true by done. cbn [fst snd]. rewrite run_bind.
  unfold MFARequiredFor, MFAGloballyRequired. rewrite Hreq, run_bind, run_db, (Hok (S (S (S (S n))))) by lia.
  cbn [fst snd get_row reading].
  assert (fine_from (S (S (S (S (S n)))))) as Hf by (intros m Hm; apply Hok; lia).
  destruct (require_mfa (mfa s)) as [[]|]; [done|..]; cbn [fst snd mret M_ret]; by apply complete_ok.
Qed.

(** The pending factor just stored is the one to confirm. *)
Lemma pending_is_new id label enc now s : is_Some (users s !! id) →
  let s' := (CreateTOTPPending id label enc now s).2 in
  ∃ fid, latest (factors_of id (Some Totp) false s') = Some (fid, Factor id Totp label enc false now).
Proof.
  intros Hu. unfold CreateTOTPPending. rewrite bool_decide_true by done. cbn [snd].
  set (fid := fresh _). set (f := Factor _ _ _ _ _ _). set (s' := set_factors s _). exists fid.
  assert (∀ x, x ∈ factors_of id (Some Totp) false s' ↔ x = (fid, f)) as Hall.
  { intros [i g]. rewrite factors_of_spec. simpl. split.
    - intros [[[<- <-]|[_ Hg]]%lookup_insert_Some Hof]; [done|].
      apply map_lookup_filter_Some in Hg as [_ Hno]. simpl in Hno. by rewrite Hof in Hno.
    - intros [= -> ->]. rewrite lookup_insert_eq. split; [done|]. unfold of_user. simpl. by rewrite !bool_decide_true. }
  destruct (latest _) as [x|] eqn:E; [by apply latest_elem, Hall in E as ->|].
  destruct (factors_of id (Some Totp) false s') as [|y l] eqn:El.
  - exfalso. eapply not_elem_of_nil. by apply Hall.
  - simpl in E. destruct (latest l); [by destruct (_ <=? _)|done].
Qed.

(** a setup token outlives the need for it. While the token a login without a factor gave out is
    valid, it enrols another authenticator and signs in with it, also when the account has a
    confirmed factor by now, which is not asked for, and also when the account is locked. *)
Theorem setup_token_outlives_enrollment
    `{!Env store, !Quiet Env0, !AuthLib, !MfaLib, !Crypto, !CryptoLaws} cfg mcfg nonce token ip ua id u secret url nc n s :
  (∀ m, db_err m = false) → (∀ m, (n ≤ m ≤ n + 5)%nat → parse_mfa token (clock m) = Some (id, "mfa_setup")) →
  users s !! id = Some u → u_disabled u = false → unrestricted id s →
  GenerateTOTP (u_name u) (S (S n)) = Some (secret, url) → nonce (S (S n)) = Some nc → length nc = NonceSize →
  ∃ w, mfaSetupBegin mcfg nonce (Some token) (World n s) = (WriteJSON 200 (secret, url), w) ∧
    ∀ code, ValidateTOTP_at secret code (clock (S (S (S (S (S n)))))) = true →
    ∃ t w', mfaSetupConfirm cfg mcfg (Some (token, code)) ip ua w = (WriteJSON 200 (LoggedIn id t (u_must_change u)), w').
Proof.
  intros Hdb Ht Hu Hd Hun Hg Hn Hlen.
  destruct (EncryptSecret mcfg (Some nc) secret) as [enc|] eqn:He.
  2: { unfold EncryptSecret in He. destruct (mfaKeys mcfg) as [|k ks] eqn:Hk; [|done].
       unfold mfaKeys in Hk. by apply app_eq_nil in Hk as [_ [_ ?]%app_eq_nil]. }
  pose proof (decrypt_own _ _ _ _ Hlen He) as Hdec.
  unfold mfaSetupBegin, ParseMFASetupToken, parse_purpose. rewrite !run_bind.
  cbn [time_now fst snd mret M_ret w_tick w_db]. rewrite Ht, (proj2 (str_eqb_eq "mfa_setup" "mfa_setup") eq_refl) by lia.
  rewrite run_bind, run_db, Hdb. cbn [fst snd GetUserByID get_row reading]. rewrite Hu, Hd.
  unfold new_pending. rewrite run_bind. cbn [draw fst snd w_tick]. rewrite Hg, run_bind. cbn [draw fst snd w_tick].
  rewrite Hn, He, run_bind, run_db, Hdb.
  assert (is_Some (users s !! id)) as Hsome by (by eexists).
  destruct (pending_is_new id "Authenticator app" enc (clock (S (S n))) s Hsome) as [fid Hlatest].
  unfold CreateTOTPPending in *. rewrite bool_decide_true in * by done. cbn [fst snd mret M_ret] in *.
  set (s1 := set_factors s _) in *. eexists. split; [reflexivity|]. intros code Hcode.
  unfold mfaSetupConfirm, ParseMFASetupToken, parse_purpose. rewrite !run_bind.
  cbn [time_now fst snd mret M_ret w_tick w_db]. rewrite Ht, (proj2 (str_eqb_eq "mfa_setup" "mfa_setup") eq_refl) by lia.
  unfold confirm_pending. rewrite run_bind, run_db, Hdb. cbn [fst snd PendingTOTPSecret get_row reading].
  rewrite Hlatest. cbn [fmap option_fmap option_map fst snd f_secret]. rewrite Hdec.
  unfold ValidateTOTP. rewrite !run_bind. cbn [time_now fst snd mret M_ret w_tick w_db]. rewrite Hcode. cbn [negb].
  rewrite run_bind, run_db, Hdb. cbn [fst snd ConfirmMFA]. unfold available.
  rewrite run_bind, run_db, Hdb. cbn [fst snd GetUserByID get_row reading]. change (users (set_factors s1 _)) with (users s). rewrite Hu, Hd.
  rewrite run_bind, run_db, Hdb. cbn [fst snd]. by apply complete_ok; [|intros m _].
Qed.

(** An account of the directory has no password here, so a wrong one is not counted: no number of
    them locks it. *)
Lemma directory_passwords_uncounted `{!Env store, !Quiet Env0, !AuthLib, !LdapLib, !SecretBox, !MfaLib}
    cfg ldap key name pw ip ua id u n s :
  (∀ m, db_err m = false) → names_only s name id u → u_source u = "ldap" →
  (∀ m, ldap_verify key (ldap m) name pw m = None) →
  let r := login cfg ldap key (Some (name, pw)) ip ua (World n s) in
  r.1 = WriteError 401 (auth_err_text ErrInvalidCredentials) ∧ users (w_db r.2) = users s.
Proof.
  intros Hdb Hn Hsrc Hno.
  assert (Authenticate name pw (World n s) = (Err ErrInvalidCredentials, World (S n) s)) as Ha.
  { unfold Authenticate. run_step. rewrite Hdb. simpl. rewrite (user_by_name_unique _ _ _ _ Hn), Hsrc.
    by destruct (u_disabled u). }
  assert (password_step ldap key name pw (World n s) = (Err ErrInvalidCredentials, World (S n) s)) as Hp.
  { unfold password_step. rewrite run_bind, Ha. cbn [fst snd]. unfold ldapEnabled. rewrite !run_bind.
    cbn [draw fst snd mret M_ret w_tick]. destruct (ldap_usable _); [|done]. rewrite run_bind.
    unfold authenticateLDAP. rewrite run_bind. cbn [draw fst snd w_tick].
    destruct (_ || _); [done|]. rewrite run_bind. cbn [draw fst snd w_tick]. by rewrite Hno. }
  cbv zeta. unfold login, event. rewrite run_bind, Hp. cbn [fst snd]. by rewrite !run_bind, run_db, Hdb.
Qed.

(** A passkey is not asked whether the account is locked. *)
Lemma passkey_ignores_lock `{!Env store, !Quiet Env0, !AuthLib, !PasskeyLib} cfg k a ip ua c n s sess cred u :
  (∀ m, db_err m = false) → wa_ready = true → c !! k = Some sess → clock n ≤ ws_expires sess →
  users s !! ws_user sess = Some u → u_disabled u = false → unrestricted (ws_user sess) s →
  (∀ l, ValidateLogin (ws_user sess) l (ws_data sess) a = Some cred) → CloneWarning cred = false →
  ∃ t, (webauthnLoginFinish cfg k (Some a) ip ua c (World n s)).1.1 =
    WriteJSON 200 (LoggedIn (ws_user sess) t (u_must_change u)).
Proof.
  intros Hdb Hready Hc Hexp Hu Hd Hun Hval Hclone. unfold webauthnLoginFinish. rewrite Hready. cbn [negb].
  rewrite run_bind. cbn [time_now fst snd w_tick w_db]. unfold take_session. rewrite Hc.
  rewrite (proj2 (Z.ltb_ge _ _)) by done. rewrite run_bind.
  assert (∃ l, loadWAUser (ws_user sess) (World (S n) s) = (Some l, World (S (S (S n))) s)) as [l ->].
  { unfold loadWAUser. rewrite run_bind, run_db, Hdb. cbn [fst snd GetUserByID get_row reading]. rewrite Hu.
    rewrite run_bind, run_db, Hdb. eexists. reflexivity. }
  cbn [fst snd]. rewrite Hval, Hclone.
  assert (∀ w, users (w_db w) = users s → unrestricted (ws_user sess) (w_db w) →
    ∃ t, (available (ws_user sess) (λ u, completeLogin cfg (ws_user sess) u ip ua) w).1 =
      WriteJSON 200 (LoggedIn (ws_user sess) t (u_must_change u))) as Hav.
  { intros [m s1] E1 E2. cbn [w_db] in *. unfold available. rewrite run_bind, run_db, Hdb.
    cbn [fst snd GetUserByID get_row reading]. rewrite E1, Hu, Hd.
    destruct (complete_ok cfg (ws_user sess) u ip ua (S m) s1 E2 (λ m _, Hdb m)) as (t & w & ->). by exists t. }
  rewrite run_bind, run_bind. cbn [fst mret M_ret]. apply Hav.
  - destruct (row_of l _); [|done]. by rewrite run_bind, run_db, Hdb.
  - destruct (row_of l _); [|done]. by rewrite run_bind, run_db, Hdb.
Qed.

(** ** Concrete instances for the witnesses *)
#[local] Existing Instances AuthSession.toy_auth Mfa.toy_mfa_lib Mfa.toy_mfa_crypto Mfa.toy_mfa_laws.
#[local] Existing Instances Sso.toy_ldap Sso.toy_box quiet_env.
#[local] Instance toy_passkey : PasskeyLib := {|
  wa_ready := true; wa_cred := unit; wa_data := unit; wa_answer := unit;
  unmarshal_cred _ := Some tt; marshal_cred _ := []; cred_id _ := []; CloneWarning _ := false;
  BeginRegistration _ _ _ := Some tt; CreateCredential _ _ _ _ := Some tt;
  BeginLogin _ _ _ := Some tt; ValidateLogin _ _ _ _ := Some tt;
|}.
(** Ada with a confirmed authenticator. *)
Definition guarded_store : store := set_factors toy_store {[9%N := Factor 1%N Totp "" toy_enc true 0]}.
Definition no_ceremonies : gmap string wa_session := ∅.
Definition no_directory (n : nat) : ldapConfig := no_ldap.


Lemma x_is_wrong : wrong_code toy_jwt 1%N guarded_store "x".
Proof.
  split.
  - intros sec m (enc & Hin & Hd & Hv).
    assert (enc = toy_enc) as -> by (by apply list_elem_of_singleton in Hin).
    assert (DecryptSecret toy_jwt toy_enc = Some "S") as E by (by vm_compute).
    assert (sec = "S") as -> by congruence. unfold ValidateTOTP_at in Hv. cbn [ValidateCustom toy_mfa_lib] in Hv.
    apply existsb_exists in Hv as (d & _ & He%str_eqb_eq).
    assert (TrimSpace "x" = "x") as Et by (by vm_compute). rewrite Et in He. discriminate He.
  - intros (k & c & Hc & _). discriminate Hc.
Qed.

Lemma wrong_codes_lock_witness :
  let tries := replicate 5 ("mfa:1", "x") in
  let r := mapM (attempt AuthSession.toy_cfg toy_jwt "" "") tries (World 0 guarded_store) in
  ∀ m, (m < 1000)%nat →
    (mfaVerify AuthSession.toy_cfg toy_jwt (Some ("mfa:1", "S1")) "" "" (World m (w_db r.2))).1 =
      WriteError 401 "account is locked".
Proof.
  cbv zeta. intros m Hm.
  destruct (wrong_codes_lock (Env0 := quiet_env) AuthSession.toy_cfg toy_jwt 1%N "" "" (replicate 5 ("mfa:1", "x")) 0
    guarded_store toy_user (λ _, eq_refl)) as (_ & k & _ & Hlock).
  - intros tc Htc now. apply elem_of_replicate in Htc as [-> _]. by right.
  - intros Hin. assert ((mapM (attempt (Env0 := quiet_env) AuthSession.toy_cfg toy_jwt "" "") (replicate 5 ("mfa:1", "x"))
      (World 0 guarded_store)).1 = replicate 5 (WriteError 401 "invalid verification code")) as E by (by vm_compute).
    rewrite E in Hin. apply elem_of_replicate in Hin as [Hin _]. discriminate Hin.
  - done.
  - done.
  - done.
  - intros tc Htc. apply elem_of_replicate in Htc as [-> _]. apply x_is_wrong.
  - done.
  - by vm_compute.
  - apply Hlock; [done|]. change (lock_policy guarded_store).2 with 15. unfold clock, quiet_env, minute, second. lia.
Defined.

(** The database fails at the one statement that looks for factors. *)
Definition failing_env : Env store := MkEnv store (λ m, bool_decide (m = 3%nat)) Z.of_nat (λ _ s, s).
Lemma factor_check_fails_open_witness :
  has_factor 1%N guarded_store = true ∧
  ∃ t w, @login failing_env _ _ _ _ AuthSession.toy_cfg no_directory [] (Some ("ada", "pw")) "" "" (World 0 guarded_store) =
    (WriteJSON 200 (LoggedIn 1%N t true), w).
Proof.
  split; [by vm_compute|].
  refine (@factor_check_fails_open failing_env _ _ _ _ _ AuthSession.toy_cfg no_directory [] "ada" "pw" "" "" 1%N toy_user "pw" 0
    guarded_store (λ _, eq_refl) _ _ _ _ _ _ _ _); try done.
  - split; [done|]. intros i v Hv. apply (lookup_singleton_Some (M:=gmap uuid) 1%N i toy_user v) in Hv as [<- <-]. done.
  - split_and!; [done|by right|done].
Defined.

Lemma setup_token_outlives_enrollment_witness :
  has_factor 1%N guarded_store = true ∧
  ∃ w, mfaSetupBegin (Env0 := quiet_env) toy_jwt (λ _, Some toy_nonce) (Some "mfa_setup:1") (World 0 guarded_store) =
    (WriteJSON 200 ("S", "otpauth://ada"), w) ∧
  ∀ code, ValidateTOTP_at "S" code 5 = true →
  ∃ t w', mfaSetupConfirm (Env0 := quiet_env) AuthSession.toy_cfg toy_jwt (Some ("mfa_setup:1", code)) "" "" w =
    (WriteJSON 200 (LoggedIn 1%N t true), w').
Proof.
  split; [by vm_compute|].
  refine (setup_token_outlives_enrollment (Env0 := quiet_env) AuthSession.toy_cfg toy_jwt (λ _, Some toy_nonce)
    "mfa_setup:1" "" "" 1%N toy_user "S" "otpauth://ada" toy_nonce 0 guarded_store (λ _, eq_refl) _ _ _ _ _ _ _); done.
Defined.
