(* ===== verification/Tunnel.v ===== *)
(** The channel between a hub and its sites: [federation/wsframe.go], [federation/streamproto.go],
    [federation/streamrw.go] and the registry of [federation/link/link.go].

    The framing of terminal messages, of requests and of responses over a byte stream, the
    response writer of a site, and the hub's table of live links with the handlers that put links
    into it and take them out. JSON text is a parameter; the multiplexer under the streams is
    third-party code. *)
From S2P Require Import Prelude GoStrings SecretBox Recordings.
From Stdlib Require Import Strings.Byte.

(** [io.Writer] over a state: whether the write succeeded. *)
Class Writer (S : Type) := Write : bytes → S → bool * S.
(** A stream that takes everything. *)
#[export] Instance open_stream : Writer bytes := λ p s, (true, s ++ p).

(** * Terminal messages: [federation/wsframe.go] *)
Definition msgText : Z := 1.
Definition msgBinary : Z := 2.
Definition maxWSMsg : Z := 2 ^ 20.

Definition writeWSMessage {S} `{!Writer S} (mt : Z) (data : bytes) (s : S) : bool * S :=
  let r := Write (Z_byte mt :: PutUint32 (Z.of_nat (length data))) s in
  if negb r.1 then r
  else if (0 <? length data)%nat then Write data r.2 else (true, r.2).

Inductive ws_err := ErrShortRead | ErrTooLarge.

(** The message, and what is left of the stream. *)
Definition readWSMessage (r : bytes) : res ws_err (Z * bytes) * bytes :=
  match ReadFull 5 r with
  | (None, rest) => (Err ErrShortRead, rest)
  | (Some hdr, rest) =>
    let n := Uint32 (drop 1 hdr) in
    if maxWSMsg <? n then (Err ErrTooLarge, rest)
    else match ReadFull (Z.to_nat n) rest with
         | (None, rest) => (Err ErrShortRead, rest)
         | (Some buf, rest) => (Ok (byte_Z (hd x00 hdr), buf), rest)
         end
  end.

(** The two directions of a relay: messages are written until a write fails, and read until a
    read does. *)
Fixpoint relay_out {S} `{!Writer S} (msgs : list (Z * bytes)) (s : S) : S :=
  match msgs with
  | [] => s
  | m :: msgs => let r := writeWSMessage m.1 m.2 s in if (r.1 : bool) then relay_out msgs r.2 else r.2
  end.
Fixpoint relay_in (fuel : nat) (r : bytes) : list (Z * bytes) * option ws_err :=
  match fuel with
  | O => ([], None)
  | S fuel =>
    match readWSMessage r with
    | (Err e, _) => ([], Some e)
    | (Ok m, rest) => let q := relay_in fuel rest in (m :: q.1, q.2)
    end
  end.

(** * Requests and responses: [federation/streamproto.go] *)
Record Frame := MkFrame {
  Kind : string; Method : string; Path : string; Query : string; Header : gmap string string;
  BodyLen : Z; ServiceToken : string; ActorAssertion : string;
}.
Record RespHeader := MkResp { Status : Z; RespHeaders : gmap string string; RespError : string }.

Class FrameJson := {
  marshal_frame : Frame → bytes; unmarshal_frame : bytes → option Frame;
  marshal_resp : RespHeader → bytes; unmarshal_resp : bytes → option RespHeader;
}.
Class FrameJsonLaws `{!FrameJson} : Prop := {
  frame_decodes f : unmarshal_frame (marshal_frame f ++ [newline]) = Some f;
  frame_one_line f : newline ∉ marshal_frame f;
  resp_decodes h : unmarshal_resp (marshal_resp h ++ [newline]) = Some h;
  resp_one_line h : newline ∉ marshal_resp h;
}.

(** [ReadBytes] of a line: what was read with its newline, the rest, and whether there was one. *)
Fixpoint read_line (r : bytes) : bytes * bytes * bool :=
  match r with
  | [] => ([], [], false)
  | b :: r => if bool_decide (b = newline) then ([b], r, true)
              else let q := read_line r in (b :: q.1.1, q.1.2, q.2)
  end.

(** The response writer of a site: [federation/streamrw.go]. *)
Record streamResponseWriter (S : Type) := StreamRW {
  rw_w : S; rw_header : gmap string (list string); wroteHeader : bool; rw_status : Z;
}.
Arguments StreamRW {S} _ _ _ _.
Arguments rw_w {S} _. Arguments rw_header {S} _. Arguments wroteHeader {S} _. Arguments rw_status {S} _.

Section frames.
Context `{!FrameJson}.

Definition WriteFrame {S} `{!Writer S} (f : Frame) (s : S) : bool * S := Write (marshal_frame f ++ [newline]) s.
Definition ReadFrame (r : bytes) : option (Frame * bytes) :=
  let q := read_line r in
  if negb q.2 && (length q.1.1 =? 0)%nat then None
  else f ← unmarshal_frame q.1.1; Some (f, q.1.2).

Definition WriteRespHeader {S} `{!Writer S} (h : RespHeader) (s : S) : bool * S :=
  Write (marshal_resp h ++ [newline]) s.
Definition ReadRespHeader (r : bytes) : option (RespHeader * bytes) :=
  let q := read_line r in
  if negb q.2 && (length q.1.1 =? 0)%nat then None
  else h ← unmarshal_resp q.1.1; Some (h, q.1.2).

(** ** The response writer of a site: [federation/streamrw.go] *)
Definition newStreamRW {S} (w : S) : streamResponseWriter S := StreamRW w ∅ false 200.

(** A header with several values keeps its first. *)
Definition first_values (h : gmap string (list string)) : gmap string string := (λ vs, hd "" vs) <$> h.

Definition WriteHeader {S} `{!Writer S} (status : Z) (s : streamResponseWriter S) : streamResponseWriter S :=
  if wroteHeader s then s
  else StreamRW (WriteRespHeader (MkResp status (first_values (rw_header s)) "") (rw_w s)).2
         (rw_header s) true status.
Definition rw_Write {S} `{!Writer S} (p : bytes) (s : streamResponseWriter S) : streamResponseWriter S :=
  let s := if wroteHeader s then s else WriteHeader 200 s in
  StreamRW (Write p (rw_w s)).2 (rw_header s) (wroteHeader s) (rw_status s).
Definition finish {S} `{!Writer S} (s : streamResponseWriter S) : streamResponseWriter S :=
  if wroteHeader s then s else WriteHeader 200 s.

(** What a handler does to its response writer. *)
Inductive rw_call := SetHeader (k : string) (vs : list string) | CallWriteHeader (status : Z) | CallWrite (p : bytes).
Definition do_call {S} `{!Writer S} (c : rw_call) (s : streamResponseWriter S) : streamResponseWriter S :=
  match c with
  | SetHeader k vs => StreamRW (rw_w s) (<[k := vs]> (rw_header s)) (wroteHeader s) (rw_status s)
  | CallWriteHeader st => WriteHeader st s
  | CallWrite p => rw_Write p s
  end.
(** The site's side of a response: the handler's calls, then [finish]. *)
Definition respond {S} `{!Writer S} (cs : list rw_call) (w : S) : S :=
  rw_w (finish (foldl (λ s c, do_call c s) (newStreamRW w) cs)).
End frames.

(** * The hub's live links: [federation/link/link.go] *)
Record Session := MkSession { SiteID : uuid; conn : N }.
#[export] Instance Session_eq_dec : EqDecision Session.
Proof. solve_decision. Defined.

(** The sessions by site, and the connections that are closed, by either end. *)
Record Registry := MkRegistry { sessions : gmap uuid Session; closed : gset N }.
Definition NewRegistry : Registry := MkRegistry ∅ ∅.
Definition IsClosed (r : Registry) (s : Session) : bool := bool_decide (conn s ∈ closed r).
Definition close_session (s : option Session) (r : Registry) : Registry :=
  match s with None => r | Some s => MkRegistry (sessions r) ({[conn s]} ∪ closed r) end.

Definition Put (s : Session) (r : Registry) : Registry :=
  let r := close_session (sessions r !! SiteID s) r in
  MkRegistry (<[SiteID s := s]> (sessions r)) (closed r).
Definition Get (site : uuid) (r : Registry) : option Session :=
  match sessions r !! site with
  | Some s => if IsClosed r s then None else Some s
  | None => None
  end.
Definition Remove (site : uuid) (r : Registry) : Registry :=
  match sessions r !! site with
  | Some s => MkRegistry (delete site (sessions r)) (closed (close_session (Some s) r))
  | None => r
  end.
Definition SiteIDs (r : Registry) : list uuid :=
  (filter (λ ks, IsClosed r ks.2 = false) (map_to_list (sessions r))).*1.

(** ** The handlers that share it

    Each accepted link has a handler that serves it ([serveSite]) until the link drops, and then
    removes the link of its site. *)
Record links := Links { registry : Registry; serving : gmap N Session }.

Inductive link_step : links → links → Prop :=
| accepted s l : conn s ∉ closed (registry l) → serving l !! conn s = None →
    (∀ i t, sessions (registry l) !! i = Some t → conn t ≠ conn s) →
    link_step l (Links (Put s (registry l)) (<[conn s := s]> (serving l)))
| dropped c l :
    link_step l (Links (MkRegistry (sessions (registry l)) ({[c]} ∪ closed (registry l))) (serving l))
| ended s l : serving l !! conn s = Some s → conn s ∈ closed (registry l) →
    link_step l (Links (Remove (SiteID s) (registry l)) (delete (conn s) (serving l)))
| revoked site l :
    link_step l (Links (Remove site (registry l)) (serving l)).

Definition no_links : links := Links NewRegistry ∅.
Definition links_reachable (l : links) : Prop := rtc link_step no_links l.

(** * Lemmas: terminal messages *)
Definition sendable (m : Z * bytes) : Prop := 0 ≤ m.1 < 256 ∧ Z.of_nat (length m.2) ≤ maxWSMsg.
Definition message (m : Z * bytes) : bytes := Z_byte m.1 :: PutUint32 (Z.of_nat (length m.2)) ++ m.2.

Lemma write_message m s : writeWSMessage m.1 m.2 s = (true, s ++ message m).
Proof.
  unfold writeWSMessage, message, Write, open_stream. cbn [fst snd negb].
  destruct m as [t [|b d]]; simpl; rewrite <- ?app_assoc; reflexivity.
Qed.

Lemma relay_out_messages msgs s : relay_out msgs s = s ++ (msgs ≫= message).
Proof.
  revert s. induction msgs as [|m msgs IH]; intros s; [by rewrite app_nil_r|].
  cbn [relay_out]. rewrite write_message. cbn [fst snd]. rewrite IH, bind_cons. by rewrite app_assoc.
Qed.

Lemma ReadFull_app n a b : length a = n → ReadFull n (a ++ b) = (Some a, b).
Proof.
  intros <-. unfold ReadFull. rewrite length_app, take_app_length, drop_app_length.
  by destruct (Nat.ltb_spec (length a + length b) (length a)); [lia|].
Qed.

Lemma read_message m rest : sendable m → readWSMessage (message m ++ rest) = (Ok m, rest).
Proof.
  intros [Ht Hl]. unfold readWSMessage, message.
  change ((Z_byte m.1 :: PutUint32 (Z.of_nat (length m.2)) ++ m.2) ++ rest)
    with ((Z_byte m.1 :: PutUint32 (Z.of_nat (length m.2))) ++ m.2 ++ rest).
  rewrite ReadFull_app by done. cbn [drop hd].
  rewrite drop_0, Uint32_Put, Z.mod_small by (unfold maxWSMsg in Hl; lia).
  destruct (Z.ltb_spec maxWSMsg (Z.of_nat (length m.2))); [lia|].
  rewrite Nat2Z.id, ReadFull_app by done. rewrite byte_Z_byte, Z.mod_small by lia. by destruct m.
Qed.

(** A reader of a stream that broke off inside a message says so. *)
Lemma read_cut m k rest : sendable m → (k < length (message m))%nat →
  (readWSMessage (take k (message m ++ rest))).1 = Err ErrShortRead.
Proof.
  intros Hm Hk. rewrite take_app_le by lia. destruct Hm as [_ Hl].
  unfold readWSMessage, ReadFull. rewrite length_take, Nat.min_l by lia.
  destruct (Nat.ltb_spec k 5) as [|H5]; [done|].
  assert (take 5 (take k (message m)) = Z_byte m.1 :: PutUint32 (Z.of_nat (length m.2))) as ->.
  { rewrite take_take, Nat.min_l by lia. done. }
  cbn [drop]. rewrite drop_0, Uint32_Put, Z.mod_small by (unfold maxWSMsg in Hl; lia).
  destruct (Z.ltb_spec maxWSMsg (Z.of_nat (length m.2))); [lia|].
  rewrite Nat2Z.id, length_drop, length_take, Nat.min_l by lia.
  destruct (Nat.ltb_spec (k - 5) (length m.2)) as [|Hc]; [done|].
  unfold message in Hk. simpl in Hk. lia.
Qed.

Lemma message_nonempty m : (0 < length (message m))%nat.
Proof. unfold message. simpl. lia. Qed.

Lemma relay_in_nil fuel : relay_in (S fuel) [] = ([], Some ErrShortRead).
Proof. done. Qed.

(** terminal messages cross the channel unchanged and in order: what the reader of a relay gets
    is, wherever the stream breaks off, an initial part of what was written, and all of it when
    the stream is whole; a message that is not whole is never delivered. *)
Theorem relay_delivers_in_order msgs k fuel : Forall sendable msgs →
  let sent := relay_out msgs [] in
  (length msgs < fuel)%nat →
  relay_in fuel sent = (msgs, Some ErrShortRead) ∧
  ∃ n, relay_in fuel (take k sent) = (take n msgs, Some ErrShortRead).
Proof.
  intros Hs sent Hf. unfold sent. rewrite relay_out_messages, app_nil_l. clear sent. revert k fuel Hf.
  induction Hs as [|m msgs Hm Hs IH]; intros k fuel Hf; (destruct fuel as [|fuel]; [simpl in Hf; lia|]).
  { change ([] ≫= message) with (@nil Byte.byte). rewrite take_nil. split; [done|by exists 0%nat]. }
  rewrite bind_cons. split.
  - cbn [relay_in]. rewrite read_message by done. cbn [fst snd].
    destruct (IH 0%nat fuel ltac:(simpl in Hf; lia)) as [-> _]. done.
  - destruct (decide (k < length (message m))%nat) as [Hk|Hk].
    + exists 0%nat. cbn [relay_in]. pose proof (read_cut m k (msgs ≫= message) Hm Hk) as Hr.
      destruct (readWSMessage _) as [q rest]; cbn [fst] in Hr; by subst q.
    + rewrite take_app_ge by lia. cbn [relay_in]. rewrite read_message by done. cbn [fst snd].
      destruct (IH (k - length (message m))%nat fuel ltac:(simpl in Hf; lia)) as [_ [n ->]].
      by exists (S n).
Qed.

Lemma relay_delivers_in_order_witness :
  let msgs := [(1, [x61; x62]); (2, []); (2, [x63])] in
  relay_in 4 (relay_out msgs []) = (msgs, Some ErrShortRead) ∧
  ∃ n, relay_in 4 (take 9 (relay_out msgs [])) = (take n msgs, Some ErrShortRead).
Proof.
  apply (relay_delivers_in_order [(1, [x61; x62]); (2, []); (2, [x63])] 9 4); [|simpl; lia].
  rewrite !Forall_cons. split_and!; [..|constructor]; (split; [simpl; lia|by vm_compute]).
Defined.

(** A message over the limit is written whole, and ends the relay at the reader. *)
Lemma oversize_ends_relay mt d rest : maxWSMsg < Z.of_nat (length d) < 2 ^ 32 →
  (readWSMessage (message (mt, d) ++ rest)).1 = Err ErrTooLarge.
Proof.
  intros Hl. unfold readWSMessage, message. cbn [fst snd].
  change ((Z_byte mt :: PutUint32 (Z.of_nat (length d)) ++ d) ++ rest)
    with ((Z_byte mt :: PutUint32 (Z.of_nat (length d))) ++ d ++ rest).
  rewrite ReadFull_app by done. cbn [drop]. rewrite drop_0, Uint32_Put, Z.mod_small by lia.
  by destruct (Z.ltb_spec maxWSMsg (Z.of_nat (length d))); [|lia].
Qed.

(** * Lemmas: requests and responses *)
Lemma read_line_app l rest : newline ∉ l → read_line (l ++ newline :: rest) = (l ++ [newline], rest, true).
Proof.
  induction l as [|b l IH]; intros Hn; [done|]. apply not_elem_of_cons in Hn as [Hb Hn].
  cbn [app read_line]. rewrite bool_decide_false by congruence. by rewrite IH.
Qed.

Section frame_laws.
Context `{!FrameJson, !FrameJsonLaws}.

Lemma frame_crosses f body : ReadFrame ((WriteFrame f []).2 ++ body) = Some (f, body).
Proof.
  unfold WriteFrame, Write, open_stream, ReadFrame. cbn [snd app]. rewrite <- app_assoc. cbn [app].
  rewrite read_line_app by apply frame_one_line. cbn [fst snd negb andb]. by rewrite frame_decodes.
Qed.

Lemma read_resp h body : ReadRespHeader (marshal_resp h ++ [newline] ++ body) = Some (h, body).
Proof.
  unfold ReadRespHeader. cbn [app]. rewrite read_line_app by apply resp_one_line.
  cbn [fst snd negb andb]. by rewrite resp_decodes.
Qed.

(** What the calls of a handler come to: the headers set before the first write, the status of the
    first [WriteHeader] when nothing was written before it, and all that was written. *)
Fixpoint response_head (cs : list rw_call) (h : gmap string (list string)) : RespHeader :=
  match cs with
  | [] => MkResp 200 (first_values h) ""
  | SetHeader k vs :: cs => response_head cs (<[k := vs]> h)
  | CallWriteHeader st :: _ => MkResp st (first_values h) ""
  | CallWrite _ :: _ => MkResp 200 (first_values h) ""
  end.
Definition response_body (cs : list rw_call) : bytes :=
  cs ≫= λ c, match c with CallWrite p => p | _ => [] end.

Lemma calls_after_head cs h (w : bytes) st :
  wroteHeader (foldl (λ s c, do_call c s) (StreamRW w h true st) cs) = true ∧
  rw_w (foldl (λ s c, do_call c s) (StreamRW w h true st) cs) = w ++ response_body cs.
Proof.
  revert h w st. induction cs as [|[k vs|st'|p] cs IH]; intros h w st; cbn [foldl do_call WriteHeader rw_Write wroteHeader rw_w rw_header rw_status].
  - by rewrite app_nil_r.
  - apply IH.
  - apply IH.
  - destruct (IH h (w ++ p) st) as [H1 H2]. split; [exact H1|].
    etrans; [exact H2|]. unfold response_body. rewrite bind_cons. by rewrite app_assoc.
Qed.

Lemma respond_from cs h :
  rw_w (finish (foldl (λ s c, do_call c s) (StreamRW ([] : bytes) h false 200) cs)) =
  marshal_resp (response_head cs h) ++ [newline] ++ response_body cs.
Proof.
  assert (∀ s : streamResponseWriter bytes, wroteHeader s = true → rw_w (finish s) = rw_w s) as Hf.
  { intros s Hs. unfold finish. by rewrite Hs. }
  revert h. induction cs as [|[k vs|st'|p] cs IH]; intros h; cbn [foldl do_call response_head];
    [| |unfold WriteHeader|unfold rw_Write, WriteHeader];
    cbn [wroteHeader rw_w rw_header rw_status].
  - by rewrite app_nil_r.
  - apply IH.
  - destruct (calls_after_head cs h (marshal_resp (MkResp st' (first_values h) "") ++ [newline]) st') as [H1 H2].
    etrans; [exact (Hf _ H1)|]. etrans; [exact H2|]. by rewrite <- app_assoc.
  - destruct (calls_after_head cs h ((marshal_resp (MkResp 200 (first_values h) "") ++ [newline]) ++ p) 200) as [H1 H2].
    etrans; [exact (Hf _ H1)|]. etrans; [exact H2|]. unfold response_body. rewrite bind_cons. by rewrite <- !app_assoc.
Qed.
End frame_laws.

(** a response crosses the channel: whatever the site's handler does to its response writer, in
    whatever order, the hub reads exactly one header, with the status and the headers that were in
    force when it was sent (200 for a handler that set none, or wrote nothing), and then the bytes
    the handler wrote. *)
Theorem response_crosses `{!FrameJson, !FrameJsonLaws} cs :
  ReadRespHeader (respond cs []) = Some (response_head cs ∅, response_body cs).
Proof. unfold respond, newStreamRW. rewrite respond_from. apply read_resp. Qed.

(** A concrete text for the two headers. *)
Definition frame_tuple (f : Frame) :=
  (Kind f, Method f, Path f, Query f, map_to_list (Header f), BodyLen f, ServiceToken f, ActorAssertion f).
Definition toy_headers : FrameJson := {|
  marshal_frame := λ f, pos_bytes (encode (frame_tuple f));
  unmarshal_frame := λ l,
    '(k, m, p, q, h, n, t, a) ← decode (bytes_pos l);
    Some (MkFrame k m p q (list_to_map h) n t a);
  marshal_resp := λ h, pos_bytes (encode (Status h, map_to_list (RespHeaders h), RespError h));
  unmarshal_resp := λ l, '(c, h, e) ← decode (bytes_pos l); Some (MkResp c (list_to_map h) e) |}.
Lemma toy_headers_laws : @FrameJsonLaws toy_headers.
Proof.
  split; cbn [toy_headers marshal_frame unmarshal_frame marshal_resp unmarshal_resp].
  - intros f. rewrite bytes_pos_app, decode_encode by done. destruct f. cbn. by rewrite list_to_map_to_list.
  - intros f. apply pos_bytes_line.
  - intros h. rewrite bytes_pos_app, decode_encode by done. destruct h. cbn. by rewrite list_to_map_to_list.
  - intros h. apply pos_bytes_line.
Qed.
Lemma response_crosses_witness :
  @ReadRespHeader toy_headers (@respond toy_headers bytes _ [SetHeader "a" ["b"; "c"]; CallWrite [x61]; CallWriteHeader 500; CallWrite [x62]] []) =
  Some (MkResp 200 {["a" := "b"]} "", [x61; x62]).
Proof. exact (@response_crosses toy_headers toy_headers_laws [SetHeader "a" ["b"; "c"]; CallWrite [x61]; CallWriteHeader 500; CallWrite [x62]]). Defined.

(** * Lemmas: the live links *)
Section live.
Definition live_site (l : links) (s : Session) : Prop :=
  serving l !! conn s = Some s ∧ conn s ∉ closed (registry l).

(** What holds of every reachable state: the table is keyed by site, its entries are served, and a
    link that is served and open is the one in the table. *)
Definition links_ok (l : links) : Prop :=
  (∀ c s, serving l !! c = Some s → conn s = c) ∧
  (∀ i s, sessions (registry l) !! i = Some s → SiteID s = i) ∧
  (∀ s, live_site l s → sessions (registry l) !! SiteID s = Some s).

Lemma closed_close s r : closed r ⊆ closed (close_session s r).
Proof. destruct s; set_solver. Qed.

Lemma links_ok_step l l' : links_ok l → link_step l l' → links_ok l'.
Proof.
  intros (Hc & Hk & Hl) Hstep. destruct Hstep as [s l Hn Hs Hf|c l|s l Hs Hcl|site l].
  - split_and!; simpl.
    + intros c t [[<- <-]|[_ Ht]]%lookup_insert_Some; [done|by apply Hc].
    + unfold Put. simpl. intros i t [[<- <-]|[_ Ht]]%lookup_insert_Some; [done|]. apply Hk.
      by destruct (sessions (registry l) !! SiteID s).
    + intros t [Ht Hop]. cbn [serving registry Put sessions closed] in *.
      apply lookup_insert_Some in Ht as [[Hct <-]|[Hct Ht]]; [by rewrite lookup_insert_eq|].
      assert (conn t ∉ closed (registry l)) as Hop' by (pose proof (closed_close (sessions (registry l) !! SiteID s) (registry l)); set_solver).
      pose proof (Hl t (conj Ht Hop')) as Ht'.
      destruct (decide (SiteID s = SiteID t)) as [He|He].
      * rewrite He, Ht' in Hop. set_solver.
      * rewrite lookup_insert_ne by done. by destruct (sessions (registry l) !! SiteID s).
  - split_and!; simpl; [done..|]. intros t [Ht Hop]. apply Hl. split; [done|]. set_solver.
  - assert (∀ i t, sessions (Remove (SiteID s) (registry l)) !! i = Some t → sessions (registry l) !! i = Some t) as Hsub.
    { unfold Remove. intros i t. destruct (sessions (registry l) !! SiteID s); [|done]. simpl.
      by intros [_ Ht]%lookup_delete_Some. }
    split_and!; simpl.
    + intros c t [_ Ht]%lookup_delete_Some. by apply Hc.
    + intros i t Ht. by apply Hk, Hsub.
    + intros t [Ht Hop]. cbn [serving registry] in *. apply lookup_delete_Some in Ht as [_ Ht].
      revert Hop. unfold Remove. destruct (sessions (registry l) !! SiteID s) as [u|] eqn:Hu; simpl; intros Hop.
      * assert (conn t ∉ closed (registry l)) as Hop1 by set_solver. pose proof (Hl t (conj Ht Hop1)) as Ht'. apply lookup_delete_Some. split; [|done].
        intros He. rewrite He, Ht' in Hu. injection Hu as <-. set_solver.
      * by apply Hl.
  - split_and!; simpl; [done|..].
    + unfold Remove. intros i t. destruct (sessions (registry l) !! site); [|by apply Hk]. simpl.
      intros [_ Ht]%lookup_delete_Some. by apply Hk.
    + intros t [Ht Hop]. cbn [serving registry] in *. revert Hop. unfold Remove.
      destruct (sessions (registry l) !! site) as [u|] eqn:Hu; simpl; intros Hop; [|by apply Hl].
      assert (conn t ∉ closed (registry l)) as Hop1 by set_solver. pose proof (Hl t (conj Ht Hop1)) as Ht'. apply lookup_delete_Some. split; [|done].
      intros ->. rewrite Ht' in Hu. injection Hu as <-. set_solver.
Qed.

Lemma links_reachable_ok l : links_reachable l → links_ok l.
Proof.
  unfold links_reachable. intros Hr. assert (links_ok no_links) as H0.
  { split_and!; simpl; [intros c s Hs|intros i s Hs|intros s [Hs _]]; simpl in *; simplify_map_eq. }
  induction Hr as [l|l l' l'' Hs _ IH]; [done|]. by apply IH, (links_ok_step l).
Qed.
End live.

(** the table of live links is right whatever links, drops and revocations interleave: a link that is
    open and served is the one the table has for its site, so a site has at most one; and taking
    the site out leaves none open. *)
Theorem live_links_registered l : links_reachable l →
  (∀ s, live_site l s → Get (SiteID s) (registry l) = Some s) ∧
  (∀ s t, live_site l s → live_site l t → SiteID s = SiteID t → s = t) ∧
  (∀ site s, SiteID s = site → ¬ live_site (Links (Remove site (registry l)) (serving l)) s).
Proof.
  intros (_ & _ & Hl)%links_reachable_ok. split_and!.
  - intros s Hs. unfold Get. rewrite Hl by done. unfold IsClosed.
    by rewrite bool_decide_false by apply Hs.
  - intros s t Hs Ht He. apply Hl in Hs, Ht. congruence.
  - intros site s <- [Hs Hop]. cbn [serving registry] in *. revert Hop. unfold Remove.
    destruct (sessions (registry l) !! SiteID s) as [u|] eqn:Hu; simpl; intros Hop.
    + assert (conn s ∉ closed (registry l)) as Hop' by set_solver.
      pose proof (Hl s (conj Hs Hop')) as Hs'. rewrite Hs' in Hu. injection Hu as <-. set_solver.
    + pose proof (Hl s (conj Hs Hop)). congruence.
Qed.

Lemma live_links_registered_witness :
  let s := MkSession 7 1 in let l := Links (Put s NewRegistry) {[1%N := s]} in
  live_site l s ∧ Get 7 (registry l) = Some s.
Proof.
  intros s l. assert (live_site l s) as Hs by (split; [by vm_compute|vm_compute; set_solver]).
  split; [done|]. destruct (live_links_registered l) as [H _]; [|by apply (H s)].
  apply rtc_once. apply (accepted s no_links); [set_solver|done|]. intros i t Ht. change ((∅ : gmap uuid Session) !! i = Some t) in Ht. by rewrite lookup_empty in Ht.
Defined.

(** A site that links again while the hub still holds its old link loses the new one: the handler
    of the old link, woken because [Put] closed it, removes whatever link the site has by then. *)
Lemma relink_closes_new_link l s s' : links_reachable l →
  live_site l s → SiteID s' = SiteID s → conn s' ∉ closed (registry l) → serving l !! conn s' = None →
  (∀ i t, sessions (registry l) !! i = Some t → conn t ≠ conn s') →
  ∃ l', rtc link_step l l' ∧ serving l' !! conn s' = Some s' ∧
    Get (SiteID s') (registry l') = None ∧ conn s' ∈ closed (registry l').
Proof.
  intros Hr Hs Hsite Hc Hn Hf. destruct (links_reachable_ok l Hr) as (_ & _ & Hl).
  pose proof (Hl s Hs) as Hreg. destruct Hs as [Hserv Hop].
  assert (conn s ≠ conn s') as Hne by (intros He; rewrite He in Hserv; congruence).
  exists (Links (Remove (SiteID s) (Put s' (registry l))) (delete (conn s) (<[conn s' := s']> (serving l)))).
  split; [|split_and!; simpl].
  - eapply rtc_l; [by apply accepted|]. apply rtc_once. apply ended; simpl.
    + by rewrite lookup_insert_ne.
    + rewrite Hsite, Hreg. simpl. set_solver.
  - by rewrite lookup_delete_ne, lookup_insert_eq.
  - unfold Get, Remove, Put. simpl. rewrite Hsite, Hreg. simpl. rewrite lookup_insert_eq. simpl.
    by rewrite lookup_delete_eq.
  - unfold Remove, Put. simpl. rewrite Hsite, Hreg. simpl. rewrite lookup_insert_eq. simpl. set_solver.
Qed.
