(* ===== verification/Federation.v ===== *)
(** Federation: [federation] (hub.go, proxy.go, site.go, siteingress.go, ingest.go, federation.go,
    util.go), [federation/fedauth], [federation/keys] and [store/federation.go].

    A hub and its sites: pairing by a join token, the site's link and its key rotation, the read
    model sites push, the operators' handlers of a hub, the requests a hub forwards with an
    assertion of who acts, and what a site checks before it serves them. Both roles run on the same
    schema, so one [store] serves both. The tables of a hub that belong to a tenant are scoped by
    row-level security, which every statement's [scope] stands for. EdDSA, JWTs, JSON, uuid text,
    WebSockets and the multiplexer are parameters. *)
From S2P Require Import Prelude GoStrings SecretBox AuthSession Recordings Tunnel.
From Stdlib Require Import Strings.Byte Strings.Ascii.

(** * Tenancy: the row-level security of the hub's tables *)
Inductive scope := Bypass | Tenant (t : uuid) | Unscoped.
(** [fleet_rls_visible] and [fleet_current_tenant]. *)
Definition visible (sc : scope) (t : uuid) : bool :=
  match sc with Bypass => true | Tenant u => bool_decide (t = u) | Unscoped => false end.
Definition current_tenant (sc : scope) : uuid :=
  match sc with Tenant t => t | _ => ProviderTenantID end.

(** * Data *)
Record FederationSite := MkSite {
  fs_name : string; fs_public : bytes; fs_pending : option bytes; fs_status : string;
  fs_hub_key : option uuid; fs_api : string; fs_build : string; fs_proto : Z;
  fs_seen : option Z; fs_link : string; fs_lag : Z; fs_tenant : uuid; fs_created : Z;
}.
Record FederationJoinToken := MkJoin {
  jt_hash : bytes; jt_site : string; jt_expires : Z; jt_used : option Z; jt_by : option uuid;
  jt_creator : option uuid; jt_tenant : uuid;
}.
Record FederationHubKey := MkHubKey {
  hk_public : bytes; hk_private : bytes; hk_finger : string; hk_active : bool; hk_created : Z;
}.
Record FederationHub := MkHub {
  fh_url : string; fh_public : bytes; fh_finger : string; fh_site : uuid; fh_site_public : bytes;
  fh_site_private : bytes; fh_managed : bool;
}.
Record FedCacheHost := MkCache { ch_status : option string; ch_data : bytes; ch_updated : Z; ch_tenant : uuid }.
Record sync_state := MkSync { sy_cursor : string; sy_at : Z; sy_lag : Z; sy_tenant : uuid }.
Record generic_row := MkGeneric { gr_data : bytes; gr_updated : Z; gr_tenant : uuid }.
(** A key pair of [keys.Identity]. *)
Record Identity := MkIdentity { id_public : bytes; id_private : bytes; id_finger : string }.
Record fed_audit := MkAudit { au_actor : option uuid; au_name : string; au_action : string; au_target : string }.

Record hub_tables := HubTables {
  sites : gmap uuid FederationSite; tokens : gmap uuid FederationJoinToken; hub_keys : gmap uuid FederationHubKey;
}.
Record caches := Caches {
  hosts_cache : gmap (uuid * uuid) FedCacheHost; generic_cache : gmap (string * (uuid * uuid)) generic_row;
  sync : gmap (uuid * string) sync_state;
}.
(** The site's own record of its hub, and its local ids for the hub's users. *)
Record site_tables := SiteTables { hub : option FederationHub; shadows : gmap uuid (uuid * string) }.
(** What a process holds: the hub's active key with the id of its row, the live links, and the key
    announcements handed to them. *)
Record memory := Memory { active_key : option (uuid * Identity); live : Registry; announced : list (N * (bytes * string)) }.
Record store := Store {
  ht : hub_tables; cs : caches; st : site_tables; nonces : gmap string Z; mem : memory; audits : list fed_audit;
}.

Definition set_ht (s : store) h := Store h (cs s) (st s) (nonces s) (mem s) (audits s).
Definition set_cs (s : store) c := Store (ht s) c (st s) (nonces s) (mem s) (audits s).
Definition set_st (s : store) t := Store (ht s) (cs s) t (nonces s) (mem s) (audits s).
Definition set_nonces (s : store) n := Store (ht s) (cs s) (st s) n (mem s) (audits s).
Definition set_mem (s : store) m := Store (ht s) (cs s) (st s) (nonces s) m (audits s).
Definition set_sites (s : store) m := set_ht s (HubTables m (tokens (ht s)) (hub_keys (ht s))).
Definition set_tokens (s : store) m := set_ht s (HubTables (sites (ht s)) m (hub_keys (ht s))).
Definition set_hub_keys (s : store) m := set_ht s (HubTables (sites (ht s)) (tokens (ht s)) m).
Definition set_hosts_cache (s : store) m := set_cs s (Caches m (generic_cache (cs s)) (sync (cs s))).
Definition set_generic (s : store) m := set_cs s (Caches (hosts_cache (cs s)) m (sync (cs s))).
Definition set_sync (s : store) m := set_cs s (Caches (hosts_cache (cs s)) (generic_cache (cs s)) m).
Definition set_live (s : store) r := set_mem s (Memory (active_key (mem s)) r (announced (mem s))).

(** * The statements of [store/federation.go] *)

(** A row of a site that the scope does not see is not there. *)
Definition seen_site (sc : scope) (s : store) (id : uuid) : option FederationSite :=
  x ← sites (ht s) !! id; if visible sc (fs_tenant x) then Some x else None.
Definition update_site (sc : scope) (id : uuid) (f : FederationSite → FederationSite) (s : store) : store :=
  match seen_site sc s id with
  | Some x => set_sites s (<[id := f x]> (sites (ht s)))
  | None => s
  end.
Definition nz (v def : string) : string := if str_eqb v "" then def else v.

Definition CreateSite (sc : scope) (id : uuid) (name : string) (public : bytes) (status : string)
    (hub_key : option uuid) (api build : string) (proto : Z) (tenant : uuid) (now : Z) (s : store)
    : res store_error unit * store :=
  match sites (ht s) !! id with
  | Some _ => (Err ErrDB, s)
  | None =>
    if visible sc tenant then
      (Ok tt, set_sites s (<[id := MkSite name public None (nz status "pending") hub_key api build proto
                                     None "down" 0 tenant now]> (sites (ht s))))
    else (Err ErrDB, s)
  end.
Definition SetSiteVersion (sc : scope) (id : uuid) (build : string) (now : Z) (s : store) : res store_error unit * store :=
  (Ok tt, update_site sc id (λ x, MkSite (fs_name x) (fs_public x) (fs_pending x) (fs_status x) (fs_hub_key x)
    (fs_api x) build (fs_proto x) (fs_seen x) (fs_link x) (fs_lag x) (fs_tenant x) (fs_created x)) s).
Definition GetSite (sc : scope) (id : uuid) : Z → store → res store_error FederationSite * store :=
  get_row (λ s, seen_site sc s id).
Definition ListSites (sc : scope) (now : Z) (s : store) : res store_error (list (uuid * FederationSite)) * store :=
  (Ok (filter (λ kx, visible sc (fs_tenant kx.2) = true) (map_to_list (sites (ht s)))), s).
Definition SetSiteStatus (sc : scope) (id : uuid) (status : string) (now : Z) (s : store) : res store_error unit * store :=
  (Ok tt, update_site sc id (λ x, MkSite (fs_name x) (fs_public x) (fs_pending x) status (fs_hub_key x)
    (fs_api x) (fs_build x) (fs_proto x) (fs_seen x) (fs_link x) (fs_lag x) (fs_tenant x) (fs_created x)) s).
Definition SetSiteLink (sc : scope) (id : uuid) (state : string) (lag at_ : Z) (now : Z) (s : store)
    : res store_error unit * store :=
  (Ok tt, update_site sc id (λ x, MkSite (fs_name x) (fs_public x) (fs_pending x) (fs_status x) (fs_hub_key x)
    (fs_api x) (fs_build x) (fs_proto x) (Some at_) state lag (fs_tenant x) (fs_created x)) s).
Definition SetSitePendingKey (sc : scope) (id : uuid) (pending : bytes) (now : Z) (s : store)
    : res store_error unit * store :=
  (Ok tt, update_site sc id (λ x, MkSite (fs_name x) (fs_public x) (Some pending) (fs_status x) (fs_hub_key x)
    (fs_api x) (fs_build x) (fs_proto x) (fs_seen x) (fs_link x) (fs_lag x) (fs_tenant x) (fs_created x)) s).
Definition PromoteSitePendingKey (sc : scope) (id : uuid) (now : Z) (s : store) : res store_error unit * store :=
  (Ok tt, update_site sc id (λ x, match fs_pending x with
    | None => x
    | Some k => MkSite (fs_name x) k None (fs_status x) (fs_hub_key x)
        (fs_api x) (fs_build x) (fs_proto x) (fs_seen x) (fs_link x) (fs_lag x) (fs_tenant x) (fs_created x) end) s).

(** ** Join tokens *)
Definition CreateJoinToken (sc : scope) (hash : bytes) (site : string) (expires : Z) (creator : option uuid)
    (now : Z) (s : store) : res store_error uuid * store :=
  let t := current_tenant sc in let id := fresh (dom (tokens (ht s))) in
  if visible sc t then
    (Ok id, set_tokens s (<[id := MkJoin hash site expires None None creator t]> (tokens (ht s))))
  else (Err ErrDB, s).
Definition open_token (sc : scope) (hash : bytes) (at_ : Z) (t : FederationJoinToken) : bool :=
  visible sc (jt_tenant t) && bool_decide (jt_hash t = hash) && bool_decide (jt_used t = None) && (at_ <? jt_expires t).
Definition used_token (at_ : Z) (by_ : uuid) (t : FederationJoinToken) : FederationJoinToken :=
  MkJoin (jt_hash t) (jt_site t) (jt_expires t) (Some at_) (Some by_) (jt_creator t) (jt_tenant t).
(** One [UPDATE ... RETURNING]; the first row it returns. *)
Definition ConsumeJoinToken (sc : scope) (hash : bytes) (by_ : uuid) (at_ : Z) (now : Z) (s : store)
    : res store_error FederationJoinToken * store :=
  let hit := filter (λ kt, open_token sc hash at_ kt.2 = true) (tokens (ht s)) in
  match map_to_list hit with
  | [] => (Err ErrNotFound, s)
  | (_, t) :: _ => (Ok (used_token at_ by_ t), set_tokens s ((used_token at_ by_ <$> hit) ∪ tokens (ht s)))
  end.

(** ** Hub keys *)
Definition CreateHubKey (public enc : bytes) (finger : string) (now : Z) (s : store) : res store_error uuid * store :=
  let id := fresh (dom (hub_keys (ht s))) in
  (Ok id, set_hub_keys s (<[id := MkHubKey public enc finger true now]> (hub_keys (ht s)))).
Definition RetireHubKeysExcept (keep : uuid) (now : Z) (s : store) : res store_error unit * store :=
  (Ok tt, set_hub_keys s (map_imap (λ id k,
    Some (if bool_decide (id = keep) then k
          else MkHubKey (hk_public k) (hk_private k) (hk_finger k) false (hk_created k))) (hub_keys (ht s)))).
(** [ORDER BY created_at DESC LIMIT 1]. *)
Fixpoint newest_key (l : list (uuid * FederationHubKey)) : option (uuid * FederationHubKey) :=
  match l with
  | [] => None
  | x :: l =>
    match newest_key l with
    | Some y => Some (if hk_created y.2 <? hk_created x.2 then x else y)
    | None => Some x
    end
  end.
Definition ActiveHubKey : Z → store → res store_error (uuid * FederationHubKey) * store :=
  get_row (λ s, newest_key (filter (λ kk, hk_active kk.2 = true) (map_to_list (hub_keys (ht s))))).

(** ** The site's record of its hub, shadow users, nonces *)
Definition set_hub (h : option FederationHub) (s : store) : store := set_st s (SiteTables h (shadows (st s))).
Definition SaveFederationHub (h : FederationHub) (now : Z) (s : store) : res store_error unit * store :=
  (Ok tt, set_hub (Some h) s).
Definition GetFederationHub : Z → store → res store_error FederationHub * store := get_row (λ s, hub (st s)).
Definition DeleteFederationHub (now : Z) (s : store) : res store_error unit * store := (Ok tt, set_hub None s).
Definition UpdateFederationHubKey (public : bytes) (finger : string) (now : Z) (s : store)
    : res store_error unit * store :=
  (Ok tt, set_hub ((λ h, MkHub (fh_url h) public finger (fh_site h) (fh_site_public h) (fh_site_private h)
                           (fh_managed h)) <$> hub (st s)) s).
Definition UpsertShadowUser (hub_user : uuid) (name : string) (now : Z) (s : store) : res store_error uuid * store :=
  let id := match shadows (st s) !! hub_user with
            | Some x => x.1
            | None => fresh (list_to_set (map_to_list (shadows (st s))).*2.*1 : gset uuid) end in
  (Ok id, set_st s (SiteTables (hub (st s)) (<[hub_user := (id, name)]> (shadows (st s))))).
(** False when the nonce is there already. *)
Definition UseNonce (nonce : string) (expires : Z) (now : Z) (s : store) : res store_error bool * store :=
  match nonces s !! nonce with
  | Some _ => (Ok false, s)
  | None => (Ok true, set_nonces s (<[nonce := expires]> (nonces s)))
  end.
Definition PruneNonces (at_ : Z) (now : Z) (s : store) : res store_error unit * store :=
  (Ok tt, set_nonces s (filter (λ kv, ¬ kv.2 < at_) (nonces s))).

(** ** The read model *)
Definition nzp (v : string) : option string := if str_eqb v "" then None else Some v.
Definition UpsertCacheHost (sc : scope) (site host : uuid) (status : string) (data : bytes) (tenant : uuid)
    (now : Z) (s : store) : res store_error unit * store :=
  let t := match hosts_cache (cs s) !! (site, host) with Some x => ch_tenant x | None => tenant end in
  if visible sc tenant && visible sc t then
    (Ok tt, set_hosts_cache s (<[(site, host) := MkCache (nzp status) data now t]> (hosts_cache (cs s))))
  else (Err ErrDB, s).
Definition ListCacheHosts (sc : scope) (site : option uuid) (now : Z) (s : store)
    : res store_error (list ((uuid * uuid) * FedCacheHost)) * store :=
  (Ok (filter (λ kx, visible sc (ch_tenant kx.2) && match site with Some i => bool_decide (kx.1.1 = i) | None => true end = true)
         (map_to_list (hosts_cache (cs s)))), s).
Definition UpsertGenericCache (sc : scope) (table : string) (site item : uuid) (data : bytes) (tenant : uuid)
    (now : Z) (s : store) : res store_error unit * store :=
  let t := match generic_cache (cs s) !! (table, (site, item)) with Some x => gr_tenant x | None => tenant end in
  if visible sc tenant && visible sc t then
    (Ok tt, set_generic s (<[(table, (site, item)) := MkGeneric data now t]> (generic_cache (cs s))))
  else (Err ErrDB, s).
Definition SetSyncState (sc : scope) (site : uuid) (stream cursor : string) (lag at_ : Z) (tenant : uuid)
    (now : Z) (s : store) : res store_error unit * store :=
  let t := match sync (cs s) !! (site, stream) with Some x => sy_tenant x | None => tenant end in
  if visible sc tenant && visible sc t then
    (Ok tt, set_sync s (<[(site, stream) := MkSync cursor at_ lag t]> (sync (cs s))))
  else (Err ErrDB, s).

Definition cache_tables : list string :=
  ["fed_cache_hosts"; "fed_cache_host_status_stats"; "fed_cache_sessions"; "fed_cache_audit_summary";
   "fed_cache_scans"; "fed_cache_schedules"; "fed_cache_playbook_runs"; "fed_cache_sftp_transfers";
   "fed_site_sync_state"].
(** [DELETE FROM t WHERE site_id=$1]. *)
Definition delete_cached (sc : scope) (site : uuid) (table : string) (now : Z) (s : store) : res store_error unit * store :=
  (Ok tt,
   if str_eqb table "fed_cache_hosts" then
     set_hosts_cache s (filter (λ kx, ¬ (kx.1.1 = site ∧ visible sc (ch_tenant kx.2) = true)) (hosts_cache (cs s)))
   else if str_eqb table "fed_site_sync_state" then
     set_sync s (filter (λ kx, ¬ (kx.1.1 = site ∧ visible sc (sy_tenant kx.2) = true)) (sync (cs s)))
   else
     set_generic s (filter (λ kx, ¬ (kx.1.1 = table ∧ kx.1.2.1 = site ∧ visible sc (gr_tenant kx.2) = true))
       (generic_cache (cs s)))).
Definition delete_site_row (sc : scope) (id : uuid) (now : Z) (s : store) : res store_error unit * store :=
  (Ok tt, match seen_site sc s id with Some _ => set_sites s (delete id (sites (ht s))) | None => s end).
Definition AppendAudit (a : fed_audit) (now : Z) (s : store) : res store_error unit * store :=
  (Ok tt, Store (ht s) (cs s) (st s) (nonces s) (mem s) (audits s ++ [a])).

(** * Tokens between instances: [federation/fedauth], [federation/keys] *)
Record LinkClaims := MkLink { lc_site : string; lc_nonce : string }.
Record ServiceClaims := MkService { sv_hub : string; sv_site : string }.
Record AssertionClaims := MkAssertion {
  ac_site : string; ac_user : string; ac_name : string; ac_perms : list string; ac_super : bool;
  ac_action : string; ac_digest : string; ac_nonce : string;
}.
Record RegisteredClaims := MkRegistered { reg_aud : string; reg_iat : Z; reg_exp : Z }.
Definition audLink : string := "fleet-federation-link".
Definition audService : string := "fleet-federation-service".
Definition audAssertion : string := "fleet-federation-assertion".

(** EdDSA, the JWT library (a token is parsed under a key, for an audience, at an instant), uuid
    text, and randomness by tick. *)
Class FedLib := {
  ed_public : bytes → bytes; ed_sign : bytes → bytes → bytes; ed_verify : bytes → bytes → bytes → bool;
  sign_link : LinkClaims → RegisteredClaims → bytes → option string;
  sign_service : ServiceClaims → RegisteredClaims → bytes → option string;
  sign_assertion : AssertionClaims → RegisteredClaims → bytes → option string;
  jwt_link : string → bytes → string → Z → option LinkClaims;
  jwt_service : string → bytes → string → Z → option ServiceClaims;
  jwt_assertion : string → bytes → string → Z → option AssertionClaims;
  uuid_text : uuid → string; uuid_parse : string → option uuid;
  new_uuid : nat → uuid; rand_bytes : nat → nat → option bytes;
  generate_key : nat → option (bytes * bytes); seal_rand : nat → rand_draw;
}.
(** What the code relies on. An expiry is rounded down to the second ([jwt.NewNumericDate]). *)
Definition unexpired (r : RegisteredClaims) (now : Z) : Prop := now < reg_exp r / second * second.
Class FedLaws `{!FedLib} : Prop := {
  signature_verifies k m : ed_verify (ed_public k) m (ed_sign k m) = true;
  (** A signature is good under no key but its own. *)
  signature_binds p k m : ed_verify p m (ed_sign k m) = true → ed_public k = p;
  link_parses c r k tok now : sign_link c r k = Some tok → unexpired r now →
    jwt_link tok (ed_public k) (reg_aud r) now = Some c;
  service_parses c r k tok now : sign_service c r k = Some tok → unexpired r now →
    jwt_service tok (ed_public k) (reg_aud r) now = Some c;
  assertion_parses c r k tok now : sign_assertion c r k = Some tok → unexpired r now →
    jwt_assertion tok (ed_public k) (reg_aud r) now = Some c;
  (** The claims are in the token: parsing it again gives the same, or fails. *)
  assertion_claims tok k k' now now' c c' : jwt_assertion tok k audAssertion now = Some c →
    jwt_assertion tok k' audAssertion now' = Some c' → c = c';
  uuid_parses u : uuid_parse (uuid_text u) = Some u;
  uuid_text_nonempty u : uuid_text u ≠ "";
  generated_keys n p k : generate_key n = Some (p, k) → p = ed_public k ∧ length p = 32%nat ∧ length k = 64%nat;
  seal_draws n : good_draw (seal_rand n);
}.

Definition PublicKeySize : nat := 32.
Definition PrivateKeySize : nat := 64.

Section fedauth.
Context `{!FedLib, !Crypto}.

(** [base64.RawStdEncoding] and [base64.RawURLEncoding]: without padding, the latter with its own
    two last letters. *)
Definition raw_std (b : bytes) : string :=
  String.string_of_list_ascii (filter (λ c, c ≠ Base64.pad) (String.list_ascii_of_string (Base64.encode b))).
Definition url_letter (c : ascii) : ascii :=
  if Ascii.eqb c "+" then "-"%char else if Ascii.eqb c "/" then "_"%char else c.
Definition raw_url (b : bytes) : string :=
  String.string_of_list_ascii (url_letter <$> String.list_ascii_of_string (raw_std b)).
Definition string_bytes (s : string) : bytes := String.list_byte_of_string s.

Definition Fingerprint (public : bytes) : string := "SHA256:" +:+ raw_std (Sum256 public).
Definition Generate : M store (option Identity) :=
  k ← draw generate_key;
  mret ((λ pk, MkIdentity pk.1 pk.2 (Fingerprint pk.1)) <$> k).
Definition SealPrivate (fips : bool) (passphrase private : bytes) : M store (option bytes) :=
  r ← draw seal_rand;
  mret (match SealBytes fips r passphrase private with Ok b => Some b | Err _ => None end).
Definition OpenPrivate (passphrase sealed : bytes) : option bytes :=
  match OpenBytes passphrase sealed with
  | Ok raw => if bool_decide (length raw = PrivateKeySize) then Some raw else None
  | Err _ => None
  end.
Definition PublicFromBytes (b : bytes) : option bytes :=
  if bool_decide (length b = PublicKeySize) then Some b else None.

Definition RequestDigest (method path : string) (body : bytes) : string :=
  raw_std (Sum256 (string_bytes method ++ [newline] ++ string_bytes path ++ [newline] ++ body)).

Definition IssueLinkToken (site nonce : string) (private : bytes) (ttl now : Z) : option string :=
  sign_link (MkLink site nonce) (MkRegistered audLink now (now + ttl)) private.
Definition ParseLinkToken (token : string) (public : bytes) (now : Z) : option LinkClaims :=
  c ← jwt_link token public audLink now;
  if str_eqb (lc_site c) "" then None else Some c.
Definition IssueServiceToken (hub site : string) (private : bytes) (ttl now : Z) : option string :=
  sign_service (MkService hub site) (MkRegistered audService now (now + ttl)) private.
Definition ParseServiceToken (token : string) (public : bytes) (now : Z) : option ServiceClaims :=
  jwt_service token public audService now.
Definition IssueAssertion (c : AssertionClaims) (private : bytes) (ttl now : Z) : option string :=
  sign_assertion c (MkRegistered audAssertion now (now + ttl)) private.
Definition ParseAssertion (token : string) (public : bytes) (now : Z) : option AssertionClaims :=
  c ← jwt_assertion token public audAssertion now;
  if str_eqb (ac_user c) "" || str_eqb (ac_nonce c) "" then None else Some c.

(** ** [federation/util.go] *)
Definition randToken (n : nat) : M store (option string) :=
  b ← draw (rand_bytes n); mret (raw_url <$> b).
Definition hashToken (tok : string) : bytes := Sum256 (string_bytes tok).
Definition siteRotateMessage (site : string) (new_public : bytes) (nonce : string) : bytes :=
  Sum256 (string_bytes "fleet-fed-site-rotate" ++ [x00] ++ string_bytes site ++ [x00] ++ new_public ++ [x00] ++
          string_bytes nonce).
End fedauth.

(** * The hub: [federation/hub.go], [federation/ingest.go] *)
Record joinReq := MkJoinReq {
  jq_token : string; jq_public : string; jq_name : string; jq_api : string; jq_proto : Z; jq_build : string;
}.
Record joinResp := MkJoinResp { jr_site : string; jr_public : string; jr_finger : string; jr_proto : Z }.
Record rotate_msg := MkRotate { rm_public : string; rm_nonce : string; rm_sig : string }.
(** What [json.NewDecoder] and [json.Unmarshal] make of a body. *)
Class FedJson := {
  decode_push : bytes → list (string * bytes);
  unmarshal_host : bytes → option (uuid * string * bytes); unmarshal_heartbeat : bytes → option string;
  decode_rotate : bytes → option rotate_msg; decode_hubkey : bytes → option (string * string);
}.
(** The deployment's settings. *)
Record fed_config := MkConfig {
  CAKeyPassphrase : bytes; fips : bool; HubJoinToken : string; PublicURL : string; HubURL : string;
  HubKeyFingerprint : string; Version : string;
}.
Definition ProtocolVersion : Z := 1.
Definition MinSupportedProtocol : Z := 1.

Definition effectiveProtocol (rq : joinReq) : Z :=
  if 0 <? jq_proto rq then jq_proto rq
  else if str_eqb (jq_api rq) "v1" || str_eqb (jq_api rq) "" then 1 else 0.

Section hub.
Context `{!Env store, !FedLib, !Crypto, !FrameJson, !FedJson} (cfg : fed_config).

Definition audit (actor : option uuid) (name action target : string) : M store unit :=
  _ ← db (AppendAudit (MkAudit actor name action target)); mret tt.
Definition set_key (id : uuid) (k : Identity) (s : store) : store :=
  set_mem s (Memory (Some (id, k)) (live (mem s)) (announced (mem s))).

(** [None] is success. *)
Definition ensureHubKey : M store (option string) :=
  r ← db ActiveHubKey;
  match r with
  | Ok (id, k) =>
    match OpenPrivate (CAKeyPassphrase cfg) (hk_private k), PublicFromBytes (hk_public k) with
    | None, _ => mret (Some "open hub key")
    | _, None => mret (Some "hub public key")
    | Some priv, Some pub => _ ← effect (set_key id (MkIdentity pub priv (hk_finger k))); mret None
    end
  | Err ErrDB => mret (Some "read hub key")
  | Err ErrNotFound =>
    k ← Generate;
    match k with
    | None => mret (Some "generate")
    | Some k =>
      e ← SealPrivate (fips cfg) (CAKeyPassphrase cfg) (id_private k);
      match e with
      | None => mret (Some "seal")
      | Some e =>
        r ← db (CreateHubKey (id_public k) e (id_finger k));
        match r with
        | Err _ => mret (Some "store hub key")
        | Ok id => _ ← effect (set_key id k); mret None
        end
      end
    end
  end.

(** The identity in use; before [ensureHubKey] all of it is empty. *)
Definition current_key : M store (uuid * Identity) :=
  peek (λ s, default (uuid_nil, MkIdentity [] [] "") (active_key (mem s))).

(** ** Pairing *)
Definition handleJoin (rq : option joinReq) : M store (reply joinResp) :=
  match rq with
  | None => mret (WriteError 400 "bad request")
  | Some rq =>
    match Base64.decode (jq_public rq) with
    | None | Some [] => mret (WriteError 400 "bad site public key")
    | Some pub =>
      let proto := effectiveProtocol rq in
      if proto <? MinSupportedProtocol then mret (WriteError 409 "site federation protocol is too old for this hub")
      else
        id ← draw new_uuid;
        now ← time_now;
        tok ← db (ConsumeJoinToken Bypass (hashToken (jq_token rq)) id now);
        match tok with
        | Err _ => mret (WriteError 403 "invalid or expired join token")
        | Ok tok =>
          let name := if str_eqb (jt_site tok) "" then jq_name rq else jt_site tok in
          k ← current_key;
          r ← db (CreateSite Bypass id name pub "pending" (Some k.1) (jq_api rq) (jq_build rq) proto (jt_tenant tok));
          match r with
          | Err _ => mret (WriteError 500 "could not register site")
          | Ok _ =>
            _ ← audit None ("site:" +:+ name) "federation.site_joined" (uuid_text id);
            mret (WriteJSON 200 (MkJoinResp (uuid_text id) (Base64.encode (id_public k.2)) (id_finger k.2) ProtocolVersion))
          end
        end
    end
  end.

(** ** The link *)
(** The announcement of the hub's key on one link; opening the stream or writing may fail. *)
Context (delivered : nat → bool).
Definition pushHubKey (s : Session) : M store bool :=
  k ← current_key;
  ok ← draw delivered;
  if (ok : bool) then
    _ ← effect (λ w, set_mem w (Memory (active_key (mem w)) (live (mem w))
                                  (announced (mem w) ++ [(conn s, (id_public k.2, id_finger k.2))])));
    mret true
  else mret false.

(** [handleLink] up to the upgrade: the site that may link. *)
Definition link_admit (site : option uuid) (token : string) : M store (reply FederationSite) :=
  match site with
  | None => mret (WriteError 400 "bad site id")
  | Some id =>
    r ← db (GetSite Bypass id);
    match r with
    | Err _ => mret (WriteError 403 "unknown or revoked site")
    | Ok x =>
      if str_eqb (fs_status x) "revoked" then mret (WriteError 403 "unknown or revoked site")
      else
        match PublicFromBytes (fs_public x) with
        | None => mret (WriteError 403 "bad site key")
        | Some pub =>
          now ← time_now;
          match ParseLinkToken token pub now with
          | Some _ => mret (WriteJSON 101 x)
          | None =>
            match fs_pending x ≫= PublicFromBytes with
            | None => mret (WriteError 401 "bad link token")
            | Some pend =>
              now ← time_now;
              match ParseLinkToken token pend now with
              | None => mret (WriteError 401 "bad link token")
              | Some _ =>
                r ← db (PromoteSitePendingKey Bypass id);
                match r with
                | Err _ => mret (WriteError 401 "bad link token")
                | Ok _ =>
                  _ ← audit None ("site:" +:+ fs_name x) "federation.site_key_rotated" (uuid_text id);
                  mret (WriteJSON 101 x)
                end
              end
            end
          end
        end
    end
  end.

(** [ingestPush]: the messages of one push stream. *)
Definition ingest_host (site tenant : uuid) (data : bytes) : M store bool :=
  match unmarshal_host data with
  | None => mret false
  | Some (host, status, d) => r ← db (UpsertCacheHost Bypass site host status d tenant); mret (is_ok r)
  end.
Definition ingest_heartbeat (site : uuid) (data : bytes) : M store unit :=
  now ← time_now;
  _ ← db (SetSiteLink Bypass site "up" 0 now);
  match unmarshal_heartbeat data with
  | Some v => if str_eqb v "" then mret tt else _ ← db (SetSiteVersion Bypass site v); mret tt
  | None => mret tt
  end.
Fixpoint ingest (site tenant : uuid) (msgs : list (string * bytes)) : M store unit :=
  match msgs with
  | [] => mret tt
  | (ty, data) :: msgs =>
    go ← (if str_eqb ty "host" then ingest_host site tenant data
          else if str_eqb ty "heartbeat" then _ ← ingest_heartbeat site data; mret true
          else mret true);
    _ ← (if (go : bool) then
           now ← time_now;
           _ ← db (SetSyncState Bypass site ty "" 0 now tenant); mret tt
         else mret tt);
    ingest site tenant msgs
  end.
Definition ingestPush (site tenant : uuid) (body : bytes) : M store unit := ingest site tenant (decode_push body).

(** The acknowledgement: the fingerprint of the staged key, or why it was refused. *)
Definition handleSiteKeyRotate (site : uuid) (msg : option rotate_msg) : M store (res string string) :=
  match msg with
  | None => mret (Err "bad request")
  | Some m =>
    match Base64.decode (rm_public m), Base64.decode (rm_sig m) with
    | None, _ => mret (Err "bad new key")
    | Some new_pub, sig =>
      if negb (bool_decide (length new_pub = PublicKeySize)) then mret (Err "bad new key")
      else
        match sig with
        | None => mret (Err "bad signature")
        | Some sig =>
          r ← db (GetSite Bypass site);
          match r with
          | Err _ => mret (Err "unknown site")
          | Ok x =>
            match PublicFromBytes (fs_public x) with
            | None => mret (Err "bad current key")
            | Some cur =>
              now ← time_now;
              fresh ← db (UseNonce ("siterot:" +:+ rm_nonce m) (now + 5 * minute));
              match fresh with
              | Ok true =>
                if ed_verify cur (siteRotateMessage (uuid_text site) new_pub (rm_nonce m)) sig then
                  r ← db (SetSitePendingKey Bypass site new_pub);
                  match r with
                  | Err _ => mret (Err "could not stage key")
                  | Ok _ => mret (Ok (Fingerprint new_pub))
                  end
                else mret (Err "signature verification failed")
              | _ => mret (Err "stale nonce")
              end
            end
          end
        end
    end
  end.

(** [handleSiteStream]: one stream of a linked site, as it is read. *)
Definition handleSiteStream (site tenant : uuid) (raw : bytes) : M store unit :=
  match ReadFrame raw with
  | None => mret tt
  | Some (f, body) =>
    if str_eqb (Kind f) "push" then ingestPush site tenant body
    else if str_eqb (Kind f) "ping" then now ← time_now; _ ← db (SetSiteLink Bypass site "up" 0 now); mret tt
    else if str_eqb (Kind f) "sitekey-rotate" then _ ← handleSiteKeyRotate site (decode_rotate body); mret tt
    else mret tt
  end.
Fixpoint serveSite (site tenant : uuid) (streams : list bytes) : M store unit :=
  match streams with
  | [] => mret tt
  | raw :: streams => _ ← handleSiteStream site tenant raw; serveSite site tenant streams
  end.

(** The whole link: [connection] is the upgraded connection, [streams] what the site opens on it
    until it drops. *)
Definition handleLink (site : option uuid) (token : string) (connection : N) (streams : list bytes)
    : M store (reply unit) :=
  a ← link_admit site token;
  match a, site with
  | WriteJSON _ x, Some id =>
    _ ← effect (λ s, set_live s (Put (MkSession id connection) (live (mem s))));
    _ ← db (SetSiteStatus Bypass id "active");
    now ← time_now;
    _ ← db (SetSiteLink Bypass id "up" 0 now);
    _ ← pushHubKey (MkSession id connection);
    _ ← serveSite id (fs_tenant x) streams;
    _ ← effect (λ s, set_live s (Remove id (live (mem s))));
    now ← time_now;
    _ ← db (SetSiteLink Bypass id "down" 0 now);
    mret (WriteJSON 101 tt)
  | WriteError c m, _ => mret (WriteError c m)
  | WriteJSON _ _, None => mret (WriteError 400 "bad site id")
  end.

(** ** The operators' handlers *)
(** A nil principal has no id and no name. *)
Definition actor_id (p : option Principal) : option uuid := UserID <$> p.
Definition actorName (p : option Principal) : string := match p with Some p => Username p | None => "" end.

Fixpoint push_all (ids : list uuid) (pushed : nat) : M store nat :=
  match ids with
  | [] => mret pushed
  | id :: ids =>
    s ← peek (λ w, Get id (live (mem w)));
    ok ← match s with Some s => pushHubKey s | None => mret false end;
    push_all ids (if (ok : bool) then S pushed else pushed)
  end.
Definition handleRotateKey (p : option Principal) : M store (reply (string * nat)) :=
  k ← Generate;
  match k with
  | None => mret (WriteError 500 "keygen failed")
  | Some k =>
    e ← SealPrivate (fips cfg) (CAKeyPassphrase cfg) (id_private k);
    match e with
    | None => mret (WriteError 500 "seal failed")
    | Some e =>
      r ← db (CreateHubKey (id_public k) e (id_finger k));
      match r with
      | Err _ => mret (WriteError 500 "store key failed")
      | Ok id =>
        r ← db (RetireHubKeysExcept id);
        match r with
        | Err _ => mret (WriteError 500 "retire failed")
        | Ok _ =>
          _ ← effect (set_key id k);
          ids ← peek (λ w, SiteIDs (live (mem w)));
          pushed ← push_all ids 0;
          _ ← audit (actor_id p) (actorName p) "federation.hub_key_rotated" "";
          mret (WriteJSON 200 (id_finger k, pushed))
        end
      end
    end
  end.

Context (sc : scope).
Definition shown_state (live_ids : list uuid) (kx : uuid * FederationSite) : uuid * string :=
  (kx.1, if bool_decide (kx.1 ∈ live_ids) then "up"
         else if str_eqb (fs_link kx.2) "up" then "down" else fs_link kx.2).
Definition handleListSites : M store (reply (list (uuid * FederationSite * string))) :=
  r ← db (ListSites sc);
  match r with
  | Err _ => mret (WriteError 500 "could not list sites")
  | Ok l =>
    ids ← peek (λ w, SiteIDs (live (mem w)));
    mret (WriteJSON 200 ((λ kx, (kx, (shown_state ids kx).2)) <$> l))
  end.

Definition handleCreateToken (p : option Principal) (siteName : string) (ttlHours : Z) : M store (reply (string * string)) :=
  if str_eqb siteName "" then mret (WriteError 400 "siteName is required")
  else
    let ttl := wrap64 (ttlHours * hour) in
    let ttl := if ttl <=? 0 then hour else ttl in
    tok ← randToken 32;
    match tok with
    | None => mret (WriteError 500 "token error")
    | Some tok =>
      now ← time_now;
      r ← db (CreateJoinToken sc (hashToken tok) siteName (now + ttl) (actor_id p));
      match r with
      | Err _ => mret (WriteError 500 "could not create token")
      | Ok _ =>
        _ ← audit (actor_id p) (actorName p) "federation.token_created" "";
        k ← current_key;
        mret (WriteJSON 201 (tok, id_finger k.2))
      end
    end.

Fixpoint delete_tables (id : uuid) (tables : list string) : M store (res store_error unit) :=
  match tables with
  | [] => mret (Ok tt)
  | t :: tables =>
    r ← db (delete_cached sc id t);
    match r with Err e => mret (Err e) | Ok _ => delete_tables id tables end
  end.
Definition DeleteSiteCache (id : uuid) : M store (res store_error unit) := delete_tables id cache_tables.
Definition DeleteSite (id : uuid) : M store (res store_error unit) :=
  r ← DeleteSiteCache id;
  match r with Err e => mret (Err e) | Ok _ => db (delete_site_row sc id) end.
Definition handleRevokeSite (p : option Principal) (id : option uuid) : M store (reply unit) :=
  match id with
  | None => mret (WriteError 400 "bad site id")
  | Some id =>
    _ ← db (SetSiteStatus sc id "revoked");
    _ ← effect (λ s, set_live s (Remove id (live (mem s))));
    r ← DeleteSite id;
    match r with
    | Err _ => mret (WriteError 500 "could not remove site")
    | Ok _ =>
      _ ← audit (actor_id p) (actorName p) "federation.site_revoked" (uuid_text id);
      mret (WriteJSON 200 tt)
    end
  end.

Definition handleCacheHosts (q : string) : M store (reply (list ((uuid * uuid) * FedCacheHost))) :=
  r ← db (ListCacheHosts sc (if str_eqb q "" then None else uuid_parse q));
  mret (match r with Ok l => WriteJSON 200 l | Err _ => WriteError 500 "could not read cache" end).

(** The router of the management API: [MountHub]. *)
Inductive operator_rq :=
| RqListSites | RqCreateToken (siteName : string) (ttlHours : Z) | RqRevokeSite (id : option uuid)
| RqRotateKey | RqCacheHosts (site : string).
Inductive operator_reply :=
| RpRefused (code : Z) (msg : string) | RpSites (l : list (uuid * FederationSite * string))
| RpToken (tok finger : string) | RpRevoked | RpRotated (finger : string) (pushed : nat)
| RpHosts (l : list ((uuid * uuid) * FedCacheHost)).
Definition reply_as {A} (f : A → operator_reply) (r : reply A) : operator_reply :=
  match r with WriteError c m => RpRefused c m | WriteJSON _ a => f a end.
Definition operator_perm (rq : operator_rq) : string :=
  match rq with RqCacheHosts _ => "Host.View" | _ => "Federation.Manage" end.
Definition serve_operator (p : Principal) (rq : operator_rq) : M store operator_reply :=
  if negb (Has p (operator_perm rq)) then mret (RpRefused 403 "missing permission")
  else match rq with
  | RqListSites => r ← handleListSites; mret (reply_as RpSites r)
  | RqCreateToken n h => r ← handleCreateToken (Some p) n h; mret (reply_as (λ x, RpToken x.1 x.2) r)
  | RqRevokeSite id => r ← handleRevokeSite (Some p) id; mret (reply_as (λ _, RpRevoked) r)
  | RqRotateKey => r ← handleRotateKey (Some p); mret (reply_as (λ x, RpRotated x.1 x.2) r)
  | RqCacheHosts q => r ← handleCacheHosts q; mret (reply_as RpHosts r)
  end.

(** [pruneLoop]: one tick. *)
Definition prune_tick : M store unit := now ← time_now; _ ← db (PruneNonces now); mret tt.

(** ** Forwarding: [federation/proxy.go] *)
Definition permList (p : Principal) : list string :=
  if IsSuperAdmin p || bool_decide ("Admin.All" ∈ Permissions p) then ["*"] else elements (Permissions p).

(** [io.LimitReader(r.Body, 16<<20)]: what is longer is cut. *)
Definition maxProxyBody : Z := 2 ^ 24.
Definition limited (b : bytes) : bytes :=
  if Z.of_nat (length b) <=? maxProxyBody then b else take (Z.to_nat maxProxyBody) b.

(** The two tokens of a request, both good for a minute; no nonce when the random source fails. *)
Definition sign_request (p : Principal) (site : uuid) (method path : string) (body : bytes)
    : M store (res string (string * string)) :=
  now ← time_now;
  nonce ← randToken 16;
  k ← current_key;
  match IssueAssertion (MkAssertion (uuid_text site) (uuid_text (UserID p)) (Username p) (permList p) (IsSuperAdmin p)
          path (RequestDigest method path body) (default "" nonce)) (id_private k.2) minute now with
  | None => mret (Err "assertion error")
  | Some assertion =>
    match IssueServiceToken (uuid_text k.1) (uuid_text site) (id_private k.2) minute now with
    | None => mret (Err "service token error")
    | Some svc => mret (Ok (svc, assertion))
    end
  end.

(** What goes over the stream: the frame and the body. [sent] tells which writes succeed. *)
Record http_rq := MkHttp { rq_method : string; rq_path : string; rq_query : string; rq_type : string; rq_body : bytes }.
Context (answer : Frame → bytes → option (RespHeader * bytes)).
Definition send_frame (f : Frame) (body : bytes) : M store (reply (Frame * bytes * bytes)) :=
  opened ← draw delivered;
  if negb (opened : bool) then mret (WriteError 502 "could not open site stream")
  else
    match answer f body with
    | None => mret (WriteError 502 "no response from site")
    | Some (h, b) => mret (WriteJSON (if Status h =? 0 then 200 else Status h) (f, body, b))
    end.
Definition handleProxy (p : option Principal) (site : option uuid) (rq : http_rq) : M store (reply (Frame * bytes * bytes)) :=
  match site, p with
  | None, _ => mret (WriteError 400 "bad site id")
  | _, None => mret (WriteError 401 "unauthenticated")
  | Some site, Some p =>
    x ← db (GetSite sc site);
    match x with
    | Err _ => mret (WriteError 404 "unknown site")
    | Ok _ =>
      s ← peek (λ w, Get site (live (mem w)));
      match s with
      | None => mret (WriteError 503 "site is not currently linked")
      | Some _ =>
        let path := "/api/v1/" +:+ rq_path rq in
        let body := limited (rq_body rq) in
        t ← sign_request p site (rq_method rq) path body;
        match t with
        | Err m => mret (WriteError 500 m)
        | Ok (svc, assertion) =>
          send_frame (MkFrame "http" (rq_method rq) path (rq_query rq) {["Content-Type" := rq_type rq]}
            (Z.of_nat (length body)) svc assertion) body
        end
      end
    end
  end.

(** [auth] is what [AuthenticateToken] gave for the token of the query, [psc] that principal's
    scope; the frame of the stream that is then relayed. *)
Definition handleProxyTerminal (auth : option Principal) (psc : scope) (site : option uuid) (host : string)
    : M store (reply Frame) :=
  match site with
  | None => mret (WriteError 400 "bad site id")
  | Some site =>
    s ← peek (λ w, Get site (live (mem w)));
    match s, auth with
    | None, _ => mret (WriteError 503 "site is not currently linked")
    | _, None => mret (WriteError 401 "unauthorized")
    | Some _, Some p =>
      x ← db (GetSite psc site);
      match x with
      | Err _ => mret (WriteError 404 "unknown site")
      | Ok _ =>
        if negb (Has p "Host.Connect") then mret (WriteError 403 "missing permission: Host.Connect")
        else
          let path := "/api/v1/terminal/" +:+ host in
          t ← sign_request p site "GET" path [];
          match t with
          | Err m => mret (WriteError 500 m)
          | Ok (svc, assertion) =>
            opened ← draw delivered;
            if negb (opened : bool) then mret (WriteError 502 "could not open site stream")
            else mret (WriteJSON 101 (MkFrame "ws" "GET" path "" ∅ 0 svc assertion))
          end
      end
    end
  end.
End hub.

(** * The site: [federation/site.go], [federation/siteingress.go] *)
Section site.
Context `{!Env store, !FedLib, !Crypto, !FrameJson, !FedJson} (cfg : fed_config).

Record siteState := MkSiteState { ss_site : uuid; ss_priv : bytes; ss_hub : option bytes; ss_url : string }.
(** What the pairing request came to: no answer, or a status and the body if it decodes. *)
Inductive join_answer := NoAnswer | Answered (status : Z) (body : option joinResp).
Context (post_join : joinReq → nat → join_answer).

Definition join : M store (res string siteState) :=
  k ← Generate;
  match k with
  | None => mret (Err "generate")
  | Some k =>
    a ← draw (post_join (MkJoinReq (HubJoinToken cfg) (Base64.encode (id_public k)) (PublicURL cfg) "v1"
                ProtocolVersion (Version cfg)));
    match a with
    | NoAnswer => mret (Err "join request")
    | Answered status body =>
      if negb (status =? 200) then mret (Err "join rejected")
      else
        match body with
        | None => mret (Err "decode")
        | Some jr =>
          if negb (str_eqb (HubKeyFingerprint cfg) "") && negb (str_eqb (HubKeyFingerprint cfg) (jr_finger jr)) then
            mret (Err "hub key fingerprint mismatch")
          else if negb (jr_proto jr =? 0) && (jr_proto jr <? MinSupportedProtocol) then
            mret (Err "hub federation protocol is older than this site requires")
          else
            match Base64.decode (jr_public jr), uuid_parse (jr_site jr) with
            | None, _ => mret (Err "hub public key")
            | _, None => mret (Err "site id")
            | Some hub_pub, Some site =>
              e ← SealPrivate (fips cfg) (CAKeyPassphrase cfg) (id_private k);
              match e with
              | None => mret (Err "seal")
              | Some e =>
                r ← db (SaveFederationHub (MkHub (HubURL cfg) hub_pub (jr_finger jr) site (id_public k) e true));
                match r with
                | Err _ => mret (Err "save")
                | Ok _ => mret (Ok (MkSiteState site (id_private k) (PublicFromBytes hub_pub) (HubURL cfg)))
                end
              end
            end
        end
    end
  end.

Definition ensureJoined : M store (res string siteState) :=
  r ← db GetFederationHub;
  match r with
  | Ok h =>
    match OpenPrivate (CAKeyPassphrase cfg) (fh_site_private h), PublicFromBytes (fh_public h) with
    | None, _ => mret (Err "site key")
    | _, None => mret (Err "hub public key")
    | Some priv, Some pub => mret (Ok (MkSiteState (fh_site h) priv (Some pub) (fh_url h)))
    end
  | Err ErrDB => mret (Err "read hub")
  | Err ErrNotFound =>
    if str_eqb (HubJoinToken cfg) "" then mret (Err "no hub join token configured for first join") else join
  end.

(** [connectAndServe] up to the dial: the token the link is opened with. *)
Definition link_token (s : siteState) : M store (option string) :=
  nonce ← randToken 12;
  now ← time_now;
  mret (IssueLinkToken (uuid_text (ss_site s)) (default "" nonce) (ss_priv s) (5 * minute) now).

(** ** Rotation of the site's key

    [X] is whatever is at the other end, [ask] one exchange with it: no answer, or what the hub
    said. *)
Definition rotateSiteKey {X} (linked : bool) (ask : rotate_msg → X → option (res string string) * X) (x : X)
    : M store (res string string * X) :=
  if negb linked then mret (Err "not linked to hub", x)
  else
    h ← db GetFederationHub;
    match h with
    | Err _ => mret (Err "site is not joined to a hub", x)
    | Ok h =>
      match OpenPrivate (CAKeyPassphrase cfg) (fh_site_private h) with
      | None => mret (Err "site key", x)
      | Some cur =>
        k ← Generate;
        nonce ← randToken 16;
        match k, nonce with
        | Some k, Some nonce =>
          let sig := ed_sign cur (siteRotateMessage (uuid_text (fh_site h)) (id_public k) nonce) in
          let q := ask (MkRotate (Base64.encode (id_public k)) nonce (Base64.encode sig)) x in
          match q.1 with
          | None => mret (Err "no hub ack", q.2)
          | Some (Err m) => mret (Err ("hub rejected rotation: " +:+ m), q.2)
          | Some (Ok _) =>
            e ← SealPrivate (fips cfg) (CAKeyPassphrase cfg) (id_private k);
            match e with
            | None => mret (Err "seal", q.2)
            | Some e =>
              r ← db (SaveFederationHub (MkHub (fh_url h) (fh_public h) (fh_finger h) (fh_site h) (id_public k) e
                         (fh_managed h)));
              match r with Err _ => mret (Err "save", q.2) | Ok _ => mret (Ok (id_finger k), q.2) end
            end
          end
        | _, _ => mret (Err "generate", x)
        end
      end
    end.
Definition handleRotateSiteKey {X} (p : option Principal) linked ask (x : X) : M store (reply string * X) :=
  r ← rotateSiteKey linked ask x;
  match r.1 with
  | Err m => mret (WriteError 409 m, r.2)
  | Ok f => _ ← audit (actor_id p) (actorName p) "federation.site_key_rotated" ""; mret (WriteJSON 200 f, r.2)
  end.
Definition handleLeave (p : option Principal) : M store (reply unit) :=
  r ← db DeleteFederationHub;
  match r with
  | Err _ => mret (WriteError 500 "could not leave hub")
  | Ok _ => _ ← audit (actor_id p) (actorName p) "federation.left_hub" ""; mret (WriteJSON 200 tt)
  end.

(** ** Requests of the hub *)
Definition applyHubKey (msg : option (string * string)) : M store unit :=
  match msg with
  | None => mret tt
  | Some (public, finger) =>
    match Base64.decode public with
    | None | Some [] => mret tt
    | Some pub => _ ← db (UpdateFederationHubKey pub finger); mret tt
    end
  end.

(** The permissions of an assertion; a star stands for all of them. *)
Definition asserted_principal (id : uuid) (a : AssertionClaims) : Principal :=
  MkPrincipal id uuid_nil ("hub:" +:+ ac_name a) (ac_super a || bool_decide ("*" ∈ ac_perms a))
    (list_to_set (filter (λ p, p ≠ "*") (ac_perms a))) false uuid_nil.

Definition verifyAssertion (f : Frame) (body : bytes) : M store (option Principal) :=
  h ← db GetFederationHub;
  match h with
  | Err _ => mret None
  | Ok h =>
    match (if fh_managed h then PublicFromBytes (fh_public h) else None) with
    | None => mret None
    | Some pub =>
      now ← time_now;
      match ParseServiceToken (ServiceToken f) pub now with
      | None => mret None
      | Some svc =>
        if negb (str_eqb (sv_site svc) (uuid_text (fh_site h))) then mret None
        else
          now ← time_now;
          match ParseAssertion (ActorAssertion f) pub now with
          | None => mret None
          | Some a =>
            if negb (str_eqb (ac_site a) (uuid_text (fh_site h))) then mret None
            else if negb (str_eqb (ac_digest a) (RequestDigest (Method f) (Path f) body)) then mret None
            else
              now ← time_now;
              fresh ← db (UseNonce (ac_nonce a) (now + 2 * minute));
              match fresh with
              | Ok true =>
                id ← db (UpsertShadowUser (default uuid_nil (uuid_parse (ac_user a))) (ac_name a));
                match id with
                | Err _ => mret None
                | Ok id => mret (Some (asserted_principal id a))
                end
              | _ => mret None
              end
          end
      end
    end
  end.

(** What the site's router is given, and what comes back on the stream. *)
Record site_request := MkSiteRq { sr_method : string; sr_target : string; sr_type : string; sr_body : bytes }.
Inductive served := Panicked | Refused (h : RespHeader) | Dispatched (p : Principal) (rq : site_request) (out : bytes).
Context (siteHandler : option (Principal → site_request → M store (list rw_call))).

Definition serveHubHTTP (f : Frame) (body : bytes) : M store served :=
  match siteHandler with
  | None => mret (Refused (MkResp 503 ∅ "site handler not ready"))
  | Some handler =>
    (* make([]byte, n) of a negative n *)
    if BodyLen f <? 0 then mret Panicked
    else if Z.of_nat (length body) <? BodyLen f then mret (Refused (MkResp 400 ∅ "short body"))
    else
      let body := take (Z.to_nat (BodyLen f)) body in
      p ← verifyAssertion f body;
      match p with
      | None => mret (Refused (MkResp 401 ∅ "federation authorization failed"))
      | Some p =>
        let target := if str_eqb (Query f) "" then Path f else Path f +:+ "?" +:+ Query f in
        let rq := MkSiteRq (Method f) target (default "" (Header f !! "Content-Type")) body in
        calls ← handler p rq;
        mret (Dispatched p rq (respond calls []))
      end
  end.

(** The terminal: the principal and the host that the relay is started for. *)
Fixpoint after_last (c : ascii) (s : string) : option string :=
  match s with
  | EmptyString => None
  | String d s' =>
    match after_last c s' with
    | Some t => Some t
    | None => if Ascii.eqb d c then Some s' else None
    end
  end.
Context {Host : Type} (GetHost : uuid → nat → option Host) (gateway : bool).
Definition resolveHost (path : string) : M store (option Host) :=
  match after_last "/" path ≫= uuid_parse with
  | None => mret None
  | Some id => draw (GetHost id)
  end.
Definition serveHubWS (f : Frame) : M store (res string (Principal * Host)) :=
  p ← verifyAssertion f [];
  match p with
  | None => mret (Err "federation authorization failed")
  | Some p =>
    h ← resolveHost (Path f);
    mret (match h with
          | None => Err "host not found"
          | Some h => if gateway then Ok (p, h) else Err "site gateway unavailable"
          end)
  end.

Inductive hub_stream := HubHTTP (r : served) | HubWS (r : res string (Principal * Host)) | HubOther.
Definition serveHubStream (raw : bytes) : M store hub_stream :=
  match ReadFrame raw with
  | None => mret HubOther
  | Some (f, body) =>
    if str_eqb (Kind f) "http" || str_eqb (Kind f) "sftp" then r ← serveHubHTTP f body; mret (HubHTTP r)
    else if str_eqb (Kind f) "ws" then r ← serveHubWS f; mret (HubWS r)
    else if str_eqb (Kind f) "hubkey" then _ ← applyHubKey (decode_hubkey body); mret HubOther
    else mret HubOther
  end.
End site.
