(* ===== verification/FederationAuth.v ===== *)
(** Authority across instances: what a site checks before it serves a hub's request, and that what
    it then acts on is what the hub's operator may do. Over the definitions of [Federation]. *)
From S2P Require Import Prelude GoStrings SecretBox AuthSession Recordings Tunnel Federation.
From Stdlib Require Import Strings.Byte Strings.Ascii.

(** * What a verified request proves *)

(** The tokens of a frame hold, under the key the site has for its hub, at the instants they are
    checked at, for this site and for this method, path and body. *)
Definition proved `{!FedLib, !Crypto} (f : Frame) (body : bytes) (now now' : Z) (h : FederationHub)
    (a : AssertionClaims) : Prop :=
  fh_managed h = true ∧ length (fh_public h) = PublicKeySize ∧
  (∃ svc, ParseServiceToken (ServiceToken f) (fh_public h) now = Some svc ∧ sv_site svc = uuid_text (fh_site h)) ∧
  ParseAssertion (ActorAssertion f) (fh_public h) now' = Some a ∧
  ac_site a = uuid_text (fh_site h) ∧ ac_digest a = RequestDigest (Method f) (Path f) body.

(** The local id a site knows a hub user under: that of its row, or one no other row has. *)
Definition shadow_of (s : store) (u id : uuid) : Prop :=
  match shadows (st s) !! u with
  | Some x => id = x.1
  | None => ∀ u' x, shadows (st s) !! u' = Some x → x.1 ≠ id
  end.
(** The hub user an assertion names. *)
Definition acting_user `{!FedLib} (a : AssertionClaims) : uuid := default uuid_nil (uuid_parse (ac_user a)).

Lemma UpsertShadowUser_id u name now s id : (UpsertShadowUser u name now s).1 = Ok id → shadow_of s u id.
Proof.
  unfold UpsertShadowUser, shadow_of. cbn [fst]. destruct (shadows (st s) !! u) as [x|] eqn:Hu; [by intros [= <-]|].
  intros [= <-] u' x Hx He. set (X := list_to_set _ : gset uuid) in He.
  apply (is_fresh X). rewrite <-He. subst X. apply elem_of_list_to_set.
  apply list_elem_of_fmap. exists x. split; [done|]. apply list_elem_of_fmap. exists (u', x). split; [done|].
  by apply elem_of_map_to_list.
Qed.

Lemma str_eqb_true a b : negb (str_eqb a b) = false → a = b.
Proof. unfold str_eqb. by destruct (bool_decide_reflect (a = b)). Qed.

Section verify.
Context `{!Env store, !Quiet Env0, !FedLib, !Crypto}.

(** [verifyAssertion] on every branch: it refuses and leaves all but the nonces as they were, or
    what the frame proves holds, its nonce was new and is used now, and the user has a local id. *)
Lemma verifyAssertion_run f body n s :
  let r := verifyAssertion f body (World n s) in
  (r.1 = None ∧ (w_db r.2 = s ∨ ∃ x e, nonces s !! x = None ∧ w_db r.2 = set_nonces s (<[x := e]> (nonces s)))) ∨
  ∃ h a e id, hub (st s) = Some h ∧ proved f body (clock (S n)) (clock (S (S n))) h a ∧
    nonces s !! ac_nonce a = None ∧ shadow_of s (acting_user a) id ∧ r.1 = Some (asserted_principal id a) ∧
    w_db r.2 = (UpsertShadowUser (default uuid_nil (uuid_parse (ac_user a))) (ac_name a) (clock (S (S (S (S n)))))
      (set_nonces s (<[ac_nonce a := e]> (nonces s)))).2.
Proof.
  intros r. unfold r. clear r. unfold verifyAssertion, GetFederationHub. run_step.
  destruct (db_err n); cbn [fst snd get_row reading]; [by left; split; [|left]|].
  destruct (hub (st s)) as [h|] eqn:Hh; run_step; [|by left; split; [|left]].
  destruct (fh_managed h) eqn:Hm; [|by run_step; left; split; [|left]].
  unfold PublicFromBytes. case_bool_decide as Hlen; [|by run_step; left; split; [|left]].
  run_step. destruct (ParseServiceToken _ _ _) as [svc|] eqn:Hsvc; run_step; [|by left; split; [|left]].
  destruct (negb (str_eqb (sv_site svc) _)) eqn:Hs1; run_step; [by left; split; [|left]|].
  destruct (ParseAssertion _ _ _) as [a|] eqn:Ha; run_step; [|by left; split; [|left]].
  destruct (negb (str_eqb (ac_site a) _)) eqn:Hs2; run_step; [by left; split; [|left]|].
  destruct (negb (str_eqb (ac_digest a) _)) eqn:Hs3; run_step; [by left; split; [|left]|].
  destruct (db_err (S (S (S (S n))))); run_step; [by left; split; [|left]|].
  unfold UseNonce. destruct (nonces s !! ac_nonce a) eqn:Hn; run_step; [by left; split; [|left]|].
  destruct (db_err _); run_step; [left; split; [done|right; eauto]|].
  right. apply str_eqb_true in Hs1, Hs2, Hs3. eexists h, a, _, _.
  split_and!; [done| |done| |reflexivity|reflexivity].
  - unfold proved. split_and!; eauto.
  - by apply (UpsertShadowUser_id _ "" 0 s).
Qed.
End verify.


(** * Once *)

(** A used nonce stays used: true of every site, whose nonces nothing removes ([pruneLoop] is the
    hub's). *)
Definition nonces_kept (s s' : store) : Prop := dom (nonces s) ⊆ dom (nonces s').
#[export] Instance nonces_kept_preorder : PreOrder nonces_kept.
Proof. unfold nonces_kept. split; [by intros ?|]. intros x y z Hxy Hyz. by etrans. Qed.
#[export] Instance nonces_used_stable (X : gset string) : Stable nonces_kept (λ s, X ⊆ dom (nonces s)).
Proof. intros s s' Hx Hs. by etrans. Qed.

Lemma UseNonce_spec (x : string) e now s :
  nonces_kept s (UseNonce x e now s).2 ∧
  ((UseNonce x e now s).1 = Ok true → ¬ (x ∈ dom (nonces s)) ∧ x ∈ dom (nonces (UseNonce x e now s).2)).
Proof.
  unfold UseNonce, nonces_kept. destruct (nonces s !! x) eqn:Hx; simpl; [done|].
  rewrite dom_insert. split; [set_solver|]. intros _. split; [by apply not_elem_of_dom|set_solver].
Qed.

Lemma UpsertShadowUser_nonces u v now s : nonces (UpsertShadowUser u v now s).2 = nonces s.
Proof. done. Qed.

Section once.
Context `{!Env store, !FedLib, !Crypto, !Relies nonces_kept}.

Ltac refused := apply guar_ret; [exact _|intros ? _ ? [=]].
Lemma guar_time P : guar nonces_kept P time_now (λ _, P).
Proof. intros w HP. split; [reflexivity|exact HP]. Qed.

(** An accepted assertion's nonce is used afterwards, and was not among those used before. *)
Lemma guar_verify f body (X : gset string) :
  guar nonces_kept (λ s, X ⊆ dom (nonces s)) (verifyAssertion f body)
    (λ r s, ∀ p, r = Some p → ∃ k now a, ParseAssertion (ActorAssertion f) k now = Some a ∧
       (ac_nonce a ∉ X) ∧ ac_nonce a ∈ dom (nonces s)).
Proof.
  set (P := λ s : store, X ⊆ dom (nonces s)).
  assert (Stable nonces_kept P) as HP by apply nonces_used_stable.
  assert (∀ A (m : M store A), within nonces_kept m → guar nonces_kept P m (λ _, P)) as Hskip.
  { intros A m Hm. apply guar_frame; [exact _|exact Hm]. }
  unfold verifyAssertion, GetFederationHub.
  eapply guar_bind; [exact _|apply Hskip; within_tac|]. intros [h|]; [|refused].
  destruct (if fh_managed h then _ else None) as [pub|]; [|refused].
  eapply guar_bind; [exact _|apply Hskip; within_tac|]. intros now.
  destruct (ParseServiceToken _ _ _) as [svc|]; [|refused].
  destruct (negb _); [refused|].
  eapply guar_bind; [exact _|apply Hskip; within_tac|]. intros now'.
  destruct (ParseAssertion _ _ _) as [a|] eqn:Ha; [|refused].
  destruct (negb _); [refused|]. destruct (negb _); [refused|].
  eapply guar_bind; [exact _|apply Hskip; within_tac|]. intros now''.
  set (Q := λ s : store, (ac_nonce a ∉ X) ∧ ac_nonce a ∈ dom (nonces s)).
  assert (Stable nonces_kept Q) by (intros s s' [? Hs] Hk; split; [done|by apply Hk]).
  eapply (guar_bind _ _ (λ r s, r = Ok true → Q s)); [apply (guar_db _ P); [exact _|exact HP|by intros|]|].
  - intros now3 s Hs. destruct (UseNonce_spec (ac_nonce a) (now'' + 2 * minute) now3 s) as [Hk Hu].
    split; [done|]. intros [Hn Hd]%Hu. split; [|done]. intros Hx. by apply Hn, Hs.
  - intros [[]|]; [|refused|refused].
    eapply (guar_bind _ _ (λ _, Q)); [apply (guar_weaken _ _ Q)|].
    + apply guar_frame; try exact _. apply within_db; try exact _. intros now3 s. unfold nonces_kept.
      by rewrite UpsertShadowUser_nonces.
    + intros s Hs. by apply Hs.
    + intros [id|]; [|refused]. apply guar_ret; [exact _|]. intros s Hq p _. by exists pub, now', a.
Qed.

Lemma parsed_once `{!FedLaws} tok k k' now now' a a' : ParseAssertion tok k now = Some a →
  ParseAssertion tok k' now' = Some a' → a = a'.
Proof.
  unfold ParseAssertion. intros (c & Hc & Ha)%bind_Some (c' & Hc' & Ha')%bind_Some.
  pose proof (assertion_claims _ _ _ _ _ _ _ Hc Hc') as <-. repeat case_match; congruence.
Qed.
End once.

(** C23: an assertion is honoured once: after a request with it was accepted, no request with it is,
    by any handler of the site, whatever else the site does in between and meanwhile. *)
Theorem assertion_honoured_once `{!Env store, !FedLib, !FedLaws, !Crypto, !Relies nonces_kept} f body w f' body' w' :
  (verifyAssertion f body w).1 ≠ None →
  ActorAssertion f' = ActorAssertion f → nonces_kept (w_db (verifyAssertion f body w).2) (w_db w') →
  (verifyAssertion f' body' w').1 = None.
Proof.
  intros Hf Hsame Hk. destruct (verifyAssertion f body w).1 as [p|] eqn:Hp; [clear Hf|done].
  destruct (guar_verify f body ∅ w) as [_ HQ]; [set_solver|].
  destruct (HQ p Hp) as (k & now & a & Ha & _ & Hin).
  destruct (verifyAssertion f' body' w').1 as [q|] eqn:Hq; [exfalso|done].
  destruct (guar_verify f' body' {[ac_nonce a]} w') as [_ HQ']; [set_solver|].
  destruct (HQ' q Hq) as (k' & now' & a' & Ha' & Hne & _).
  rewrite Hsame in Ha'. rewrite (parsed_once _ _ _ _ _ _ _ Ha Ha') in Hne. set_solver.
Qed.

(** * The hub's side: what a forwarded request carries *)
Definition issued_assertion (p : Principal) (site : uuid) (method path : string) (body : bytes) (nonce : string)
    `{!FedLib, !Crypto} : AssertionClaims :=
  MkAssertion (uuid_text site) (uuid_text (UserID p)) (Username p) (permList p) (IsSuperAdmin p) path
    (RequestDigest method path body) nonce.

Section issued.
Context `{!Env store, !Quiet Env0, !FedLib, !Crypto}.

Lemma sign_request_ok p site method path body n s svc tok kid k :
  (sign_request p site method path body (World n s)).1 = Ok (svc, tok) → active_key (mem s) = Some (kid, k) →
  let now := clock n in let nonce := default "" (raw_url <$> rand_bytes 16 (S n)) in
  sign_assertion (issued_assertion p site method path body nonce) (MkRegistered audAssertion now (now + minute))
    (id_private k) = Some tok ∧
  sign_service (MkService (uuid_text kid) (uuid_text site)) (MkRegistered audService now (now + minute))
    (id_private k) = Some svc.
Proof.
  unfold sign_request, randToken, current_key. intros Hr Hk. revert Hr. run_step. rewrite Hk. cbn [default fst snd].
  unfold IssueAssertion, IssueServiceToken, issued_assertion.
  destruct (sign_assertion _ _ _) eqn:Ha; [|done]. run_step. destruct (sign_service _ _ _) eqn:Hs; [|done].
  run_step. by intros [= <- <-].
Qed.

Lemma handleProxy_sent delivered sc answer p site rq n s c f body out kid k :
  (handleProxy delivered sc answer (Some p) (Some site) rq (World n s)).1 = WriteJSON c (f, body, out) →
  active_key (mem s) = Some (kid, k) →
  let now := clock (S n) in let nonce := default "" (raw_url <$> rand_bytes 16 (S (S n))) in
  body = limited (rq_body rq) ∧ BodyLen f = Z.of_nat (length body) ∧
  Method f = rq_method rq ∧ Path f = "/api/v1/" +:+ rq_path rq ∧ Kind f = "http" ∧
  is_Some (Get site (live (mem s))) ∧
  sign_assertion (issued_assertion p site (Method f) (Path f) body nonce) (MkRegistered audAssertion now (now + minute))
    (id_private k) = Some (ActorAssertion f) ∧
  sign_service (MkService (uuid_text kid) (uuid_text site)) (MkRegistered audService now (now + minute))
    (id_private k) = Some (ServiceToken f).
Proof.
  unfold handleProxy, GetSite. intros Hr Hk. revert Hr. run_step. destruct (db_err n); [done|].
  cbn [get_row reading fst snd]. destruct (seen_site sc s site); [|done]. run_step.
  destruct (Get site (live (mem s))) eqn:Hg; [|done]. rewrite run_bind.
  set (path := "/api/v1/" +:+ rq_path rq). set (b := limited (rq_body rq)).
  destruct (sign_request p site (rq_method rq) path b (World (S n) s)).1 as [[svc tok]|m] eqn:Hs; [|done].
  destruct (sign_request_ok _ _ _ _ _ _ _ _ _ _ _ Hs Hk) as [Ha Hv].
  unfold send_frame. run_step. destruct (negb _); [done|]. destruct (answer _ _) as [[h ob]|]; [|done].
  cbn [mret M_ret fst snd]. intros [= _ <- <- _]. cbn [BodyLen Method Path Kind ActorAssertion ServiceToken].
  split_and!; eauto.
Qed.
End issued.

(** The permissions an assertion lists give the site's principal what the hub's principal has. *)
Lemma asserted_has p id site method path body nonce `{!FedLib, !Crypto} : "*" ∉ Permissions p →
  ∀ perm, Has (asserted_principal id (issued_assertion p site method path body nonce)) perm = Has p perm.
Proof.
  intros Hstar perm. unfold Has, asserted_principal, issued_assertion, permList. cbn [ac_super ac_perms IsSuperAdmin Permissions].
  destruct (IsSuperAdmin p) eqn:Hs; [done|]. cbn [orb].
  destruct (bool_decide_reflect ("Admin.All" ∈ Permissions p)) as [Ha|Ha].
  - by rewrite (bool_decide_true ("*" ∈ ["*"])) by set_solver.
  - rewrite (bool_decide_false ("*" ∈ elements _)) by by rewrite elem_of_elements.
    assert (∀ x, x ∈ (list_to_set (filter (λ p, p ≠ "*") (elements (Permissions p))) : gset string) ↔ x ∈ Permissions p) as Hx.
    { intros x. rewrite elem_of_list_to_set, list_elem_of_filter, elem_of_elements. split; [by intros []|].
      intros Hin. split; [|done]. intros ->. done. }
    rewrite (bool_decide_false ("Admin.All" ∈ _)) by by rewrite Hx. cbn [orb].
    apply bool_decide_ext, Hx.
Qed.

Lemma verifyAssertion_accepts `{!Env store, !Quiet Env0, !FedLib, !Crypto} f body n s h a :
  (∀ m, db_err m = false) → hub (st s) = Some h →
  proved f body (clock (S n)) (clock (S (S n))) h a → nonces s !! ac_nonce a = None →
  ∃ id, (verifyAssertion f body (World n s)).1 = Some (asserted_principal id a).
Proof.
  intros Hdb Hh (Hm & Hlen & (svc & Hsvc & Hs1) & Ha & Hs2 & Hs3) Hn.
  unfold verifyAssertion, GetFederationHub. run_step. rewrite Hdb. cbn [fst snd get_row reading]. rewrite Hh. run_step.
  rewrite Hm. unfold PublicFromBytes. rewrite bool_decide_true by done. run_step. rewrite Hsvc. run_step.
  rewrite Hs1. unfold str_eqb. rewrite bool_decide_true by done. cbn [negb]. run_step. rewrite Ha. run_step.
  rewrite Hs2, Hs3. rewrite !bool_decide_true by done. cbn [negb]. run_step. rewrite Hdb.
  unfold UseNonce. rewrite Hn. run_step. rewrite Hdb. run_step. eauto.
Qed.

Lemma unexpired_again aud now : unexpired (MkRegistered aud now (now + minute)) ((now + minute) / second * second - 1).
Proof. unfold unexpired. simpl. lia. Qed.

(** the hub's operator acts on a site with exactly the permissions held on the hub. When a site
    that trusts the hub's key accepts a request the hub forwarded, it acts as a principal that has a
    permission if and only if the operator has it; and it does accept it, when it is the site the
    request was for, the tokens have not run out, the nonce is new and its database answers. *)
Theorem proxy_preserves_authority (E1 E2 : Env store) `{!@Quiet store E1, !@Quiet store E2, !FedLib, !FedLaws, !Crypto}
    delivered sc answer p site rq n1 s1 c f body out kid k n2 s2 h :
  (handleProxy (Env0 := E1) delivered sc answer (Some p) (Some site) rq (World n1 s1)).1 = WriteJSON c (f, body, out) →
  active_key (mem s1) = Some (kid, k) → id_public k = ed_public (id_private k) →
  hub (st s2) = Some h → fh_public h = id_public k → "*" ∉ Permissions p →
  let r := (verifyAssertion (Env0 := E2) f body (World n2 s2)).1 in
  (∀ q, r = Some q → Username q = "hub:" +:+ Username p ∧ ∀ perm, Has q perm = Has p perm) ∧
  (fh_managed h = true → length (fh_public h) = PublicKeySize → fh_site h = site →
   (∀ m, @db_err _ E2 m = false) →
   (∀ m, (n2 < m ≤ n2 + 2)%nat → @clock _ E2 m < (@clock _ E1 (S n1) + minute) / second * second) →
   (∀ b, rand_bytes 16 (S (S n1)) = Some b → raw_url b ≠ "" ∧ nonces s2 !! raw_url b = None) →
   rand_bytes 16 (S (S n1)) ≠ None → is_Some r).
Proof.
  intros Hsent Hkey Hpub Hh Htrust Hstar r.
  destruct (handleProxy_sent (Env0 := E1) _ _ _ _ _ _ _ _ _ _ _ _ _ _ Hsent Hkey)
    as (_ & _ & _ & _ & _ & _ & Ha & Hv).
  set (now := @clock _ E1 (S n1)) in *. set (nonce := default "" _) in *.
  set (a := issued_assertion p site (Method f) (Path f) body nonce) in *.
  split.
  - intros q Hq. destruct (verifyAssertion_run (Env0 := E2) f body n2 s2)
      as [[Hnone _]|(h' & a' & e & id & Hh' & (_ & _ & _ & Ha' & _) & _ & _ & Hr & _)].
    { unfold r in Hq. rewrite Hnone in Hq. done. }
    rewrite Hh in Hh'. injection Hh' as <-.
    pose proof (assertion_parses _ _ _ _ _ Ha (unexpired_again _ _)) as Hp. rewrite <- Hpub, <- Htrust in Hp.
    unfold ParseAssertion in Ha'. apply bind_Some in Ha' as (a'' & Hj & Ha').
    pose proof (assertion_claims _ _ _ _ _ _ _ Hp Hj) as <-.
    assert (a' = a) as -> by (case_match; [done|by injection Ha']).
    unfold r in Hq. rewrite Hr in Hq. injection Hq as <-.
    split; [done|]. by apply asserted_has.
  - intros Hm Hlen Hsite Hdb Hclock Hnonce Hdraw.
    destruct (rand_bytes 16 (S (S n1))) as [b|] eqn:Hb; [|done]. destruct (Hnonce b eq_refl) as [Hne Hfresh].
    destruct (verifyAssertion_accepts (Env0 := E2) f body n2 s2 h a Hdb Hh) as [id Hid]; [|exact Hfresh|by exists (asserted_principal id a)].
    assert (∀ m, (n2 < m ≤ n2 + 2)%nat → ∀ aud, unexpired (MkRegistered aud now (now + minute)) (@clock _ E2 m)) as Hun.
    { intros m Hm' aud. apply Hclock, Hm'. }
    unfold proved. split_and!; [done|done| | |by rewrite Hsite|done].
    + exists (MkService (uuid_text kid) (uuid_text site)). rewrite Hsite. split; [|done].
      unfold ParseServiceToken. rewrite Htrust, Hpub. apply (service_parses _ _ _ _ _ Hv). apply Hun. lia.
    + unfold ParseAssertion. rewrite Htrust, Hpub.
      pose proof (assertion_parses _ _ _ _ _ Ha (Hun (S (S n2)) ltac:(lia) audAssertion)) as Hx.
      cbn [reg_aud] in Hx. rewrite Hx. cbn [mbind option_bind].
      unfold str_eqb. unfold a at 1 2. cbn [issued_assertion ac_user ac_nonce].
      rewrite bool_decide_false by apply uuid_text_nonempty.
      rewrite bool_decide_false by done. done.
Qed.

(** A hub user with all permissions who is no super administrator is one at the site. *)
Lemma hub_admin_becomes_super p id site method path body nonce `{!FedLib, !Crypto} :
  "Admin.All" ∈ Permissions p →
  IsSuperAdmin (asserted_principal id (issued_assertion p site method path body nonce)) = true.
Proof.
  intros Ha. unfold asserted_principal, issued_assertion, permList. cbn [IsSuperAdmin ac_super ac_perms].
  rewrite (bool_decide_true ("Admin.All" ∈ _)) by done. rewrite orb_true_r.
  rewrite (bool_decide_true ("*" ∈ ["*"])) by set_solver. apply orb_true_r.
Qed.

(** Nothing the tokens say covers the query string, the headers or the kind of the frame. *)
Lemma query_not_covered `{!Env store, !FedLib, !Crypto} k k' m p q q' hd hd' n n' svc tok body :
  verifyAssertion (MkFrame k m p q hd n svc tok) body = verifyAssertion (MkFrame k' m p q' hd' n' svc tok) body.
Proof. done. Qed.

(** * A concrete library *)
Fixpoint pos_text (p : positive) : string :=
  match p with xI p => String "1" (pos_text p) | xO p => String "0" (pos_text p) | xH => "" end.
Fixpoint text_pos (s : string) : positive :=
  match s with
  | String c s => if Ascii.eqb c "1" then xI (text_pos s) else xO (text_pos s)
  | "" => xH
  end.
Lemma text_pos_text p : text_pos (pos_text p) = p.
Proof. induction p as [p IH|p IH|]; simpl; by rewrite ?IH. Qed.
Definition write_text `{Countable A} (a : A) : string := String "t" (pos_text (encode a)).
Definition read_text `{Countable A} (s : string) : option A :=
  match s with String _ s => decode (text_pos s) | "" => None end.
Lemma read_write `{Countable A} (a : A) : read_text (write_text a) = Some a.
Proof. unfold read_text, write_text. by rewrite text_pos_text, decode_encode. Qed.

#[export] Instance byte_countable : Countable Byte.byte :=
  inj_countable Byte.to_N Byte.of_N Byte.of_to_N.
(** A token is the claims as lists of strings, the audience, the expiry and the signer; a signature
    is the signer and the message. *)
Class Fields (C : Type) := { fields : C → list (list string); of_fields : list (list string) → option C;
  fields_back c : of_fields (fields c) = Some c }.
Lemma link_fields_back c : match [[lc_site c; lc_nonce c]] with [[a; b]] => Some (MkLink a b) | _ => None end = Some c.
Proof. by destruct c. Qed.
#[local] Instance link_fields : Fields LinkClaims := {|
  fields c := [[lc_site c; lc_nonce c]];
  of_fields l := match l with [[a; b]] => Some (MkLink a b) | _ => None end; fields_back := link_fields_back |}.
Lemma service_fields_back c : match [[sv_hub c; sv_site c]] with [[a; b]] => Some (MkService a b) | _ => None end = Some c.
Proof. by destruct c. Qed.
#[local] Instance service_fields : Fields ServiceClaims := {|
  fields c := [[sv_hub c; sv_site c]];
  of_fields l := match l with [[a; b]] => Some (MkService a b) | _ => None end; fields_back := service_fields_back |}.
Definition assertion_list (c : AssertionClaims) : list (list string) :=
  [[ac_site c; ac_user c; ac_name c; ac_action c; ac_digest c; ac_nonce c]; ac_perms c; if ac_super c then [""] else []].
Definition list_assertion (l : list (list string)) : option AssertionClaims :=
  match l with
  | [[a; b; c; d; e; f]; ps; q] => Some (MkAssertion a b c ps (bool_decide (q ≠ [])) d e f)
  | _ => None
  end.
Lemma assertion_fields_back c : list_assertion (assertion_list c) = Some c.
Proof. by destruct c as [? ? ? ? [] ? ? ?]. Qed.
#[local] Instance assertion_fields : Fields AssertionClaims := {|
  fields := assertion_list; of_fields := list_assertion; fields_back := assertion_fields_back |}.

Definition toy_sign `{Fields C} (c : C) (r : RegisteredClaims) (k : bytes) : option string :=
  Some (write_text (fields c, (reg_aud r, (reg_exp r, take 32 k)))).
Definition toy_parse `{Fields C} (tok : string) (pub : bytes) (aud : string) (now : Z) : option C :=
  x ← (read_text tok : option (list (list string) * (string * (Z * bytes))));
  if bool_decide (x.2.2.2 = pub) && bool_decide (x.2.1 = aud) && (now <? x.2.2.1 / second * second)
  then of_fields x.1 else None.
Definition toy_key (n : nat) : bytes := Z_byte (Z.of_nat n) :: replicate 63 x07.
Definition toy_fed : FedLib := {|
  ed_public := take 32; ed_sign := λ k m, take 32 k ++ m; ed_verify := λ p m s, bool_decide (s = p ++ m);
  sign_link := toy_sign; sign_service := toy_sign; sign_assertion := toy_sign;
  jwt_link := toy_parse; jwt_service := toy_parse; jwt_assertion := toy_parse;
  uuid_text := write_text; uuid_parse := read_text; new_uuid := λ n, N.of_nat n + 100;
  rand_bytes := λ k n, Some (replicate k (Z_byte (Z.of_nat n)));
  generate_key := λ n, Some (take 32 (toy_key n), toy_key n); seal_rand := λ _, toy_draw |}%N.

Lemma toy_parses `{Fields C} (c : C) r k tok now : toy_sign c r k = Some tok → unexpired r now →
  toy_parse tok (take 32 k) (reg_aud r) now = Some c.
Proof.
  unfold toy_sign, toy_parse, unexpired. intros [= <-] Hu. rewrite read_write. simpl.
  rewrite !bool_decide_true by done. cbn [andb]. rewrite (proj2 (Z.ltb_lt _ _)) by done. apply fields_back.
Qed.
Lemma toy_fed_laws : @FedLaws toy_fed.
Proof.
  split; cbn [toy_fed ed_public ed_sign ed_verify sign_link sign_service sign_assertion jwt_link jwt_service
    jwt_assertion uuid_text uuid_parse generate_key seal_rand].
  - intros. by apply bool_decide_true.
  - intros p k m Hv%bool_decide_eq_true. by apply app_inv_tail in Hv.
  - intros *. apply toy_parses.
  - intros *. apply toy_parses.
  - intros *. apply toy_parses.
  - unfold toy_parse. intros tok k k' now now' c c' (x & Hx & Hc)%bind_Some (x' & Hx' & Hc')%bind_Some.
    repeat case_match; congruence.
  - intros u. apply read_write.
  - done.
  - intros n p k [= <- <-]. done.
  - intros. apply toy_draw_good.
Qed.

#[local] Existing Instances toy_fed toy_crypto toy_fed_laws quiet_env.

Definition toy_hub_key : Identity := MkIdentity (take 32 (toy_key 3)) (toy_key 3) "f".
Definition empty_store : store := Store (HubTables ∅ ∅ ∅) (Caches ∅ ∅ ∅) (SiteTables None ∅) ∅ (Memory None NewRegistry []) [].
Definition toy_hub : store :=
  set_mem (set_sites empty_store {[5%N := MkSite "s" [] None "active" None "v1" "" 1 None "up" 0 1 0]})
    (Memory (Some (9%N, toy_hub_key)) (Put (MkSession 5 1) NewRegistry) []).
Definition toy_site : store :=
  set_hub (Some (MkHub "u" (id_public toy_hub_key) "f" 5 [] [] true)) empty_store.
Definition toy_user : Principal := MkPrincipal 8 0 "ann" false {["Host.View"]} false 1.
Definition toy_rq : http_rq := MkHttp "GET" "h" "" "" [x61].

Lemma proxy_preserves_authority_witness :
  ∃ f body out, (handleProxy (λ _, true) Bypass (λ _ _, Some (MkResp 200 ∅ "", [])) (Some toy_user) (Some 5%N) toy_rq
    (World 0 toy_hub)).1 = WriteJSON 200 (f, body, out) ∧
  ∃ q, (verifyAssertion f body (World 4 toy_site)).1 = Some q ∧ ∀ perm, Has q perm = Has toy_user perm.
Proof.
  eexists _, _, _. split; [vm_compute; reflexivity|].
  match goal with |- ∃ q, (verifyAssertion ?f ?b _).1 = _ ∧ _ =>
    destruct (proxy_preserves_authority quiet_env quiet_env (λ _, true) Bypass (λ _ _, Some (MkResp 200 ∅ "", []))
      toy_user 5 toy_rq 0 toy_hub 200 f b [] 9 toy_hub_key 4 toy_site
      (MkHub "u" (id_public toy_hub_key) "f" 5 [] [] true)) as [Ha [q Hq]] end;
    [vm_compute; reflexivity|done|done|done|done|vm_compute; set_solver|done|done|done|done| | |done|].
  - intros m Hm. assert (m = 5 ∨ m = 6)%nat as [-> | ->] by lia; done.
  - intros b [= <-]. by vm_compute.
  - exists q. split; [exact Hq|]. intros perm. by apply (Ha q Hq).
Defined.

(** A frame the toy hub sent, and the site's answer to it. *)
Definition toy_sent : Frame * bytes :=
  match (handleProxy (λ _, true) Bypass (λ _ _, Some (MkResp 200 ∅ "", [])) (Some toy_user) (Some 5%N) toy_rq
           (World 0 toy_hub)).1 with
  | WriteJSON _ (f, b, _) => (f, b)
  | _ => (MkFrame "" "" "" "" ∅ 0 "" "", [])
  end.
#[local] Instance toy_frames : FrameJson := {|
  marshal_frame := λ _, []; unmarshal_frame := λ _, None;
  marshal_resp := λ _, [x7b]; unmarshal_resp := λ _, None |}.


Lemma assertion_honoured_once_witness :
  let r := verifyAssertion toy_sent.1 toy_sent.2 (World 4 toy_site) in
  r.1 ≠ None ∧ (verifyAssertion toy_sent.1 toy_sent.2 (World 9 (w_db r.2))).1 = None.
Proof.
  intros r. split; [by vm_compute|].
  apply (assertion_honoured_once toy_sent.1 toy_sent.2 (World 4 toy_site)); [by vm_compute|done|].
  by intros ?.
Defined.
