(* ===== verification/FederationSites.v ===== *)
(** The sites of a hub: pairing, the rotation of a site's key, what a site's link can change on the
    hub, and the operators' tenants. Over the definitions of [Federation]. *)
From S2P Require Import Prelude GoStrings SecretBox AuthSession Recordings Tunnel Federation FederationAuth.
From Stdlib Require Import Strings.Byte Strings.Ascii.

(** * The rotation of a site's key *)
Section rotation.
Context `{!FedLib, !FedLaws, !Crypto, !CryptoLaws} (cfg : fed_config) (site : uuid).

(** Hub and site agree: the site is registered and not revoked, and the key the site holds is the
    one the hub has for it, or the one it has staged. *)
Definition in_step (s1 s2 : store) : Prop :=
  ∃ h x priv, hub (st s2) = Some h ∧ fh_site h = site ∧ OpenPrivate (CAKeyPassphrase cfg) (fh_site_private h) = Some priv ∧
    sites (ht s1) !! site = Some x ∧ fs_status x ≠ "revoked" ∧
    length (ed_public priv) = PublicKeySize ∧ length (fs_public x) = PublicKeySize ∧
    (fs_public x = ed_public priv ∨ fs_pending x = Some (ed_public priv)).

(** One exchange with the hub: the request may be lost, and so may the answer. *)
Definition hub_peer (E1 : Env store) (request_arrives answer_arrives : bool) (m : rotate_msg) (w : world store)
    : option (res string string) * world store :=
  if request_arrives then
    let r := handleSiteKeyRotate (Env0 := E1) site (Some m) w in
    (if answer_arrives then Some r.1 else None, r.2)
  else (None, w).

Lemma SealPrivate_opens `{!Env store} fips k n s e : length k = PrivateKeySize →
  (SealPrivate fips (CAKeyPassphrase cfg) k (World n s)).1 = Some e → OpenPrivate (CAKeyPassphrase cfg) e = Some k.
Proof.
  intros Hk. unfold SealPrivate. run_step. destruct (SealBytes _ _ _ _) as [b|] eqn:Hb; [|done].
  intros [= <-]. unfold OpenPrivate. destruct (OpenBytes_SealBytes _ _ _ _ _ (seal_draws n) Hb) as [-> _].
  by rewrite bool_decide_true.
Qed.

Definition staged (k : bytes) (x : FederationSite) : FederationSite :=
  MkSite (fs_name x) (fs_public x) (Some k) (fs_status x) (fs_hub_key x) (fs_api x) (fs_build x) (fs_proto x)
    (fs_seen x) (fs_link x) (fs_lag x) (fs_tenant x) (fs_created x).

(** The hub stages a key that is signed by the one it has, and does nothing else to its sites. *)
Lemma handleSiteKeyRotate_sites `{!Env store, !Quiet Env0} k nonce sig n s x :
  sites (ht s) !! site = Some x →
  let r := handleSiteKeyRotate site (Some (MkRotate (Base64.encode k) nonce (Base64.encode sig))) (World n s) in
  (sites (ht (w_db r.2)) = sites (ht s) ∧ is_ok r.1 = false) ∨
  (ed_verify (fs_public x) (siteRotateMessage (uuid_text site) k nonce) sig = true ∧
   sites (ht (w_db r.2)) = <[site := staged k x]> (sites (ht s))).
Proof.
  intros Hx r. unfold r. clear r. unfold handleSiteKeyRotate, GetSite. cbn [rm_public rm_sig rm_nonce].
  rewrite !Base64.decode_encode. destruct (negb _); [by left|]. run_step.
  destruct (db_err n); run_step; [by left|]. unfold get_row, reading, seen_site. cbn [fst snd]. rewrite Hx. cbn [mbind option_bind visible].
  unfold PublicFromBytes. case_bool_decide; [|by left]. run_step.
  destruct (db_err _); run_step; [by left|]. unfold UseNonce.
  destruct (nonces s !! _); run_step; [by left|].
  destruct (ed_verify _ _ _) eqn:Hv; run_step; [|by left].
  destruct (db_err _); run_step; [by left|]. right. split; [done|].
  unfold SetSitePendingKey, update_site, seen_site, set_nonces. cbn [fst snd ht sites]. rewrite Hx.
  cbn [mbind option_bind visible set_sites set_ht ht sites]. done.
Qed.

Lemma in_step_staged s1 s1' s2 x k :
  sites (ht s1) !! site = Some x → in_step s1 s2 →
  (∀ h priv, hub (st s2) = Some h → OpenPrivate (CAKeyPassphrase cfg) (fh_site_private h) = Some priv →
     ed_public priv = fs_public x) →
  sites (ht s1') = <[site := staged k x]> (sites (ht s1)) → in_step s1' s2.
Proof.
  intros Hx (h & x' & priv & Hh & Hs & Ho & Hx' & Hst & Hl1 & Hl2 & _) Hkey Hs1'.
  rewrite Hx in Hx'. injection Hx' as <-. exists h, (staged k x), priv.
  split_and!; [done|done|done|by rewrite Hs1', lookup_insert_eq|done|done|done|].
  left. symmetry. by apply (Hkey h).
Qed.

Lemma in_step_same s1 s1' s2 : sites (ht s1') = sites (ht s1) → in_step s1 s2 → in_step s1' s2.
Proof. intros He (h & x & priv & H'). exists h, x, priv. by rewrite He. Qed.

(** The link is up again: a fresh token of the site's key is accepted, and hub and site agree after. *)
Definition link_accepted (s1 s2 : store) : Prop :=
  ∀ (E : Env store) n nonce now tok, @Quiet store E → (∀ m, @db_err _ E m = false) →
    (∃ h priv, hub (st s2) = Some h ∧ OpenPrivate (CAKeyPassphrase cfg) (fh_site_private h) = Some priv ∧
       IssueLinkToken (uuid_text site) nonce priv (5 * minute) now = Some tok) →
    (∀ m, (n ≤ m ≤ n + 2)%nat → @clock _ E m < (now + 5 * minute) / second * second) →
    ∃ x, (link_admit (Env0 := E) (Some site) tok (World n s1)).1 = WriteJSON 101 x ∧
    in_step (w_db (link_admit (Env0 := E) (Some site) tok (World n s1)).2) s2.

Lemma in_step_links s1 s2 : in_step s1 s2 → link_accepted s1 s2.
Proof.
  intros Hin E n nonce now tok HQ Hdb (h & priv & Hh & Ho & Htok) Hclock.
  destruct Hin as (h' & x & priv' & Hh' & Hs & Ho' & Hx & Hst & Hl1 & Hl2 & Hor).
  rewrite Hh in Hh'. injection Hh' as <-. rewrite Ho in Ho'. injection Ho' as <-.
  assert (∀ m, (n ≤ m ≤ n + 2)%nat → ParseLinkToken tok (ed_public priv) (clock m) = Some (MkLink (uuid_text site) nonce)) as Hp.
  { intros m Hm. unfold ParseLinkToken. unfold IssueLinkToken in Htok.
    pose proof (link_parses _ _ _ _ (clock m) Htok (Hclock m Hm)) as Hj. cbn [reg_aud] in Hj. rewrite Hj.
    cbn [mbind option_bind lc_site]. unfold str_eqb. by rewrite bool_decide_false by apply uuid_text_nonempty. }
  unfold link_admit, GetSite. run_step. rewrite Hdb. unfold get_row, reading, seen_site. cbn [fst snd]. rewrite Hx.
  cbn [mbind option_bind visible]. unfold str_eqb. rewrite bool_decide_false by done.
  unfold PublicFromBytes. rewrite bool_decide_true by done. run_step.
  destruct (ParseLinkToken tok (fs_public x) _) as [c|] eqn:Hpa; run_step.
  { eexists. split; [done|]. exists h, x, priv. by split_and!. }
  destruct Hor as [He|He]; [rewrite He, Hp in Hpa by lia; done|].
  rewrite He. cbn [mbind option_bind]. rewrite bool_decide_true by done. run_step. rewrite Hp by lia. run_step.
  rewrite Hdb. unfold PromoteSitePendingKey, audit. run_step. rewrite Hdb.
  eexists. split; [done|]. unfold in_step, update_site, AppendAudit; cbn [fst snd set_sites set_ht ht sites];
    unfold seen_site; rewrite Hx; cbn [mbind option_bind visible]; rewrite He;
    eexists h, _, priv; split_and!; [done|done|done|by apply lookup_insert_eq|done|done|done|by left].
Qed.

(** What an exchange leaves behind: hub and site still agree, and when the hub acknowledged the new
    key they also do once the site has it. *)
Lemma hub_peer_in_step (E1 : Env store) `{!@Quiet store E1} d1 d2 n1 s1 s2 h cur pub k nonce :
  in_step s1 s2 → hub (st s2) = Some h → OpenPrivate (CAKeyPassphrase cfg) (fh_site_private h) = Some cur →
  ed_public k = pub → length pub = PublicKeySize →
  let sig := ed_sign cur (siteRotateMessage (uuid_text (fh_site h)) pub nonce) in
  let q := hub_peer E1 d1 d2 (MkRotate (Base64.encode pub) nonce (Base64.encode sig)) (World n1 s1) in
  in_step (w_db q.2) s2 ∧
  ∀ f s2' h', q.1 = Some (Ok f) → hub (st s2') = Some h' → fh_site h' = site →
    OpenPrivate (CAKeyPassphrase cfg) (fh_site_private h') = Some k → in_step (w_db q.2) s2'.
Proof.
  intros Hin Hh Ho Hpub Hlp sig q. unfold q, hub_peer. destruct d1; [|by split].
  pose proof Hin as (h0 & x & cur0 & Hh0 & Hs & Ho0 & Hx & Hst & Hl1 & Hl2 & Hor).
  rewrite Hh in Hh0. injection Hh0 as <-. rewrite Ho in Ho0. injection Ho0 as <-.
  pose proof (handleSiteKeyRotate_sites (Env0 := E1) pub nonce sig n1 s1 x Hx) as Hc. cbv zeta in Hc.
  set (p := handleSiteKeyRotate (Env0 := E1) site _ _) in *. clearbody p.
  destruct Hc as [[Hsame Hno]|[Hv Hnew]]; cbn [fst snd].
  - split; [by apply (in_step_same s1)|]. intros f s2' h' Hq. destruct d2; [|done].
    injection Hq as Hq. by rewrite Hq in Hno.
  - unfold sig in Hv. rewrite Hs in Hv. apply signature_binds in Hv. split.
    + apply (in_step_staged s1 _ _ x pub); [done|done| |done]. intros h1 p1 Hh1 Ho1. congruence.
    + intros f s2' h' _ Hh' Hs' Ho'. exists h', (staged pub x), k.
      split_and!; [done|done|done|by rewrite Hnew, lookup_insert_eq|done|by rewrite Hpub|done|]. right. by rewrite Hpub.
Qed.

(** C25: a single rotation of a site's key does not lock the site out. While nobody else changes the
    tables of either side - no second rotation runs, which can lock the site out - and whatever fails
    on the way - the database of either side at any statement, the request, or the answer - hub and
    site that agreed on a key agree afterwards on a key the site holds, so the next link is accepted,
    and agree after it too. *)
Theorem key_rotation_keeps_link (E1 E2 : Env store) `{!@Quiet store E1, !@Quiet store E2} linked d1 d2 n1 s1 n2 s2 :
  in_step s1 s2 →
  let r := rotateSiteKey (Env0 := E2) cfg linked (hub_peer E1 d1 d2) (World n1 s1) (World n2 s2) in
  in_step (w_db r.1.2) (w_db r.2) ∧ link_accepted (w_db r.1.2) (w_db r.2).
Proof.
  intros Hin r. cut (in_step (w_db r.1.2) (w_db r.2)); [by intros; split; [|apply in_step_links]|].
  pose proof Hin as (h & x & cur & Hh & Hs & Ho & _).
  unfold r. clear r. unfold rotateSiteKey, GetFederationHub. destruct linked; cbn [negb]; [|done].
  run_step. destruct (@db_err _ E2 n2); run_step; [done|].
  unfold get_row, reading. cbn [fst snd]. rewrite Hh. run_step. rewrite Ho. unfold Generate, randToken. run_step.
  destruct (generate_key (S n2)) as [[pub k]|] eqn:Hg; [|by run_step].
  destruct (rand_bytes 16 (S n2)) as [nb|]; [|by run_step]. cbn [fmap option_fmap option_map fst snd id_public id_private id_finger].
  destruct (generated_keys _ _ _ Hg) as (Hpub & Hlp & Hlk).
  pose proof (hub_peer_in_step E1 d1 d2 n1 s1 s2 h cur pub k (raw_url nb) Hin Hh Ho (eq_sym Hpub) Hlp) as [Hq1 Hq2].
  set (q := hub_peer E1 d1 d2 _ _) in *. clearbody q.
  destruct q.1 as [[f|m]|]; [|by run_step..]. rewrite run_bind.
  pose proof (SealPrivate_opens (fips cfg) k (S n2) s2) as Hseal. set (e := SealPrivate _ _ _ _) in *.
  assert (e.2 = World (S n2) s2) as -> by done. destruct e.1 as [b|]; [|by run_step].
  run_step. destruct (db_err (S n2)); run_step; [done|].
  by eapply (Hq2 f _ _ eq_refl); [done|..|by apply Hseal].
Qed.
End rotation.

(** Nobody else running, every reflexive relation is kept. *)
Lemma quiet_keeps {T} `{!Env T, !Quiet Env0} (R : relation T) : Reflexive R → Relies R.
Proof. intros HR n s. rewrite quiet. apply HR. Qed.

(** * What the link of a site can change on its hub *)
Section confined.
Context `{!Env store, !Quiet Env0, !FedLib, !Crypto, !FrameJson, !FedJson} (site tenant : uuid).

(** Of the rows of the hub's tables: only the site's own, of which the name, the key in force, the
    status and the tenant stay; cached rows are those of the site, new ones under its tenant. *)
Record own_rows_only (s s' : store) : Prop := {
  own_sites : ∀ i, i ≠ site → sites (ht s') !! i = sites (ht s) !! i;
  own_row : (λ x, (fs_name x, fs_public x, fs_status x, fs_tenant x)) <$> sites (ht s') !! site =
            (λ x, (fs_name x, fs_public x, fs_status x, fs_tenant x)) <$> sites (ht s) !! site;
  own_tokens : tokens (ht s') = tokens (ht s);
  own_keys : hub_keys (ht s') = hub_keys (ht s);
  own_hosts : ∀ k, k.1 ≠ site → hosts_cache (cs s') !! k = hosts_cache (cs s) !! k;
  own_tenant : ∀ k x, hosts_cache (cs s') !! k = Some x →
    ch_tenant x = tenant ∨ (ch_tenant <$> hosts_cache (cs s) !! k) = Some (ch_tenant x);
  own_generic : generic_cache (cs s') = generic_cache (cs s);
  own_sync : ∀ k, k.1 ≠ site → sync (cs s') !! k = sync (cs s) !! k;
  own_sync_tenant : ∀ k x, sync (cs s') !! k = Some x →
    sy_tenant x = tenant ∨ (sy_tenant <$> sync (cs s) !! k) = Some (sy_tenant x);
  own_site_tables : st s' = st s;
  own_memory : mem s' = mem s;
}.
#[local] Instance own_rows_preorder : PreOrder own_rows_only.
Proof.
  split; [intros s; split; auto; intros k x ->; auto|].
  intros a b c Hab Hbc.
  destruct Hab as [A1 A2 A3 A4 A5 A6 A7 A8 A9 A10 A11], Hbc as [B1 B2 B3 B4 B5 B6 B7 B8 B9 B10 B11].
  split; try congruence;
    [intros i Hi; by rewrite B1, A1|intros i Hi; by rewrite B5, A5| |intros i Hi; by rewrite B8, A8|].
  - intros k x Hx. destruct (B6 k x Hx) as [|Hb]; [by left|].
    destruct (hosts_cache (cs b) !! k) as [y|] eqn:Hy; [|done]. injection Hb as Hb. rewrite <- Hb. by apply A6.
  - intros k x Hx. destruct (B9 k x Hx) as [|Hb]; [by left|].
    destruct (sync (cs b) !! k) as [y|] eqn:Hy; [|done]. injection Hb as Hb. rewrite <- Hb. by apply A9.
Qed.
#[local] Instance own_relies : Relies own_rows_only := quiet_keeps _ _.

Lemma own_update f s : (∀ x, fs_name (f x) = fs_name x ∧ fs_public (f x) = fs_public x ∧
    fs_status (f x) = fs_status x ∧ fs_tenant (f x) = fs_tenant x) →
  own_rows_only s (update_site Bypass site f s).
Proof.
  intros Hf. unfold update_site, seen_site. destruct (sites (ht s) !! site) as [x|] eqn:Hx; simpl; [|reflexivity].
  split; simpl; auto.
  - intros i Hi. by rewrite lookup_insert_ne.
  - rewrite lookup_insert_eq, Hx. simpl. destruct (Hf x) as (-> & -> & -> & ->). done.
  - intros k y ->. auto.
  - intros k y ->. auto.
Qed.
Lemma own_nonce x e now s : own_rows_only s (UseNonce x e now s).2.
Proof. unfold UseNonce. destruct (nonces s !! x); [reflexivity|]. split; simpl; auto; intros k y ->; auto. Qed.
Lemma own_cache host status data now s : own_rows_only s (UpsertCacheHost Bypass site host status data tenant now s).2.
Proof.
  unfold UpsertCacheHost. simpl. split; simpl; auto.
  - intros k Hk. rewrite lookup_insert_ne; [done|]. intros <-. done.
  - intros k y [[<- <-]|[_ Hy]]%lookup_insert_Some; [|rewrite Hy; by right]. simpl.
    destruct (hosts_cache (cs s) !! (site, host)); auto.
  - intros k y ->. auto.
Qed.
Lemma own_sync_state stream at_ now s : own_rows_only s (SetSyncState Bypass site stream "" 0 at_ tenant now s).2.
Proof.
  unfold SetSyncState. simpl. split; simpl; auto; [intros k x ->; auto| |].
  - intros k Hk. rewrite lookup_insert_ne; [done|]. intros <-. done.
  - intros k y [[<- <-]|[_ Hy]]%lookup_insert_Some; [|rewrite Hy; by right]. simpl.
    destruct (sync (cs s) !! (site, stream)); auto.
Qed.
Lemma own_link state lag at_ now s : own_rows_only s (SetSiteLink Bypass site state lag at_ now s).2.
Proof. by apply own_update. Qed.
Lemma own_version v now s : own_rows_only s (SetSiteVersion Bypass site v now s).2.
Proof. by apply own_update. Qed.
Lemma own_pending k now s : own_rows_only s (SetSitePendingKey Bypass site k now s).2.
Proof. by apply own_update. Qed.
Hint Resolve own_link own_version own_pending own_nonce own_cache own_sync_state : within.

Lemma within_stream raw : within own_rows_only (handleSiteStream site tenant raw).
Proof.
  assert (∀ msgs, within own_rows_only (ingest site tenant msgs)) as Hing.
  { induction msgs as [|[ty data] msgs IH]; cbn [ingest]; unfold ingest_host, ingest_heartbeat; within_tac. }
  unfold handleSiteStream, ingestPush, handleSiteKeyRotate, GetSite. within_tac.
Qed.

End confined.

(** C26: a linked site reaches only its own rows on the hub, while nobody else changes the hub's tables.
    Served as the hub serves a linked site - under the tenant of the site's own row - whatever it
    sends on its streams, no other site's row, cached hosts or sync states change, nor tokens, keys or
    links; of its own row its name, status, tenant and the key in force stay as they are (a new key
    is only staged), and the cached hosts and sync states that are new belong to its tenant. *)
Theorem site_confined `{!Env store, !Quiet Env0, !FedLib, !Crypto, !FrameJson, !FedJson} site x streams n s :
  sites (ht s) !! site = Some x →
  own_rows_only site (fs_tenant x) s (w_db (serveSite site (fs_tenant x) streams (World n s)).2) ∧
  ∃ x', sites (ht (w_db (serveSite site (fs_tenant x) streams (World n s)).2)) !! site = Some x' ∧ fs_tenant x' = fs_tenant x.
Proof.
  intros Hx. pose proof (own_rows_preorder site (fs_tenant x)). pose proof (own_relies site (fs_tenant x)).
  assert (within (own_rows_only site (fs_tenant x)) (serveSite site (fs_tenant x) streams)) as Hw.
  { induction streams as [|raw streams IH]; [within_tac|]. cbn [serveSite].
    pose proof (within_stream site (fs_tenant x)). within_tac. }
  destruct (Hw (World n s) I) as [Ho _]. cbn [w_db] in Ho. split; [exact Ho|]. destruct Ho as [_ Hr _ _ _ _ _ _ _ _ _].
  rewrite Hx in Hr. apply fmap_Some in Hr as (x' & Hx' & [= _ _ _ Ht]). by exists x'.
Qed.

(** * What an operator can change: tenants *)
Section tenants.
Context `{!Env store, !Quiet Env0, !FedLib, !Crypto} (cfg : fed_config) (delivered : nat → bool) (t : uuid).

(** Rows of other tenants stay. *)
Definition same_others {K A} `{Countable K} (tenant_of : A → uuid) (m m' : gmap K A) : Prop :=
  ∀ k x, tenant_of x ≠ t → m !! k = Some x ↔ m' !! k = Some x.
Record others_untouched (s s' : store) : Prop := {
  others_sites : same_others fs_tenant (sites (ht s)) (sites (ht s'));
  others_tokens : same_others jt_tenant (tokens (ht s)) (tokens (ht s'));
  others_hosts : same_others ch_tenant (hosts_cache (cs s)) (hosts_cache (cs s'));
  others_generic : same_others gr_tenant (generic_cache (cs s)) (generic_cache (cs s'));
  others_sync : same_others sy_tenant (sync (cs s)) (sync (cs s'));
}.
#[local] Instance same_others_preorder {K A} `{Countable K} (f : A → uuid) : PreOrder (@same_others K A _ _ f).
Proof. split; [done|]. intros a b c Hab Hbc k x Hx. etrans; [by apply Hab|by apply Hbc]. Qed.
#[local] Instance others_preorder : PreOrder others_untouched.
Proof. split; [by split|]. intros a b c [] []. split; by etrans. Qed.
#[local] Instance others_relies : Relies others_untouched := quiet_keeps _ _.

Lemma same_insert {K A} `{Countable K} (f : A → uuid) (m : gmap K A) k x :
  f x = t → (∀ y, m !! k = Some y → f y = t) → same_others f m (<[k := x]> m).
Proof.
  intros Hx Hy k' y Hne. destruct (decide (k = k')) as [<-|]; [|by rewrite lookup_insert_ne].
  rewrite lookup_insert_eq. split; [by intros Hm; apply Hy in Hm|]. by intros [= <-].
Qed.
Lemma same_delete {K A} `{Countable K} (f : A → uuid) (m : gmap K A) k :
  (∀ y, m !! k = Some y → f y = t) → same_others f m (delete k m).
Proof.
  intros Hy k' y Hne. destruct (decide (k = k')) as [<-|]; [|by rewrite lookup_delete_ne].
  rewrite lookup_delete_eq. split; [by intros Hm; apply Hy in Hm|done].
Qed.
Lemma same_filter {K A} `{Countable K} (f : A → uuid) (P : K * A → Prop) `{!∀ x, Decision (P x)} (m : gmap K A) :
  (∀ k y, f y ≠ t → P (k, y)) → same_others f m (filter P m).
Proof. intros HP k y Hne. rewrite map_lookup_filter_Some. naive_solver. Qed.

Lemma others_update id f s : (∀ x, fs_tenant (f x) = fs_tenant x) → others_untouched s (update_site (Tenant t) id f s).
Proof.
  intros Hf. unfold update_site, seen_site. destruct (sites (ht s) !! id) as [x|] eqn:Hx; simpl; [|reflexivity].
  case_bool_decide as Ht; [|reflexivity]. split; [|done..]. apply same_insert; [by rewrite Hf|].
  intros y Hy. simpl in Hy. congruence.
Qed.
Lemma others_status id status now s : others_untouched s (SetSiteStatus (Tenant t) id status now s).2.
Proof. by apply others_update. Qed.
Lemma others_token hash name e c now s : others_untouched s (CreateJoinToken (Tenant t) hash name e c now s).2.
Proof.
  unfold CreateJoinToken. simpl. rewrite bool_decide_true by done. split; try done.
  apply same_insert; [done|]. intros y. simpl. by rewrite fresh_lookup.
Qed.
Lemma others_cached id table now s : others_untouched s (delete_cached (Tenant t) id table now s).2.
Proof.
  unfold delete_cached. simpl. case_match; [|case_match]; (split; try done);
    apply same_filter; intros k y Hne; simpl; rewrite bool_decide_false by done; naive_solver.
Qed.
Lemma others_site_row id now s : others_untouched s (delete_site_row (Tenant t) id now s).2.
Proof.
  unfold delete_site_row, seen_site. simpl. destruct (sites (ht s) !! id) as [x|] eqn:Hx; simpl; [|reflexivity].
  case_bool_decide; [|reflexivity]. split; try done. apply same_delete. intros y Hy. simpl in Hy. congruence.
Qed.
Lemma others_effect (f : store → store) s : ht (f s) = ht s → cs (f s) = cs s → others_untouched s (f s).
Proof. intros Hh Hc. by split; rewrite ?Hh, ?Hc. Qed.
Lemma others_hub_key pub enc f now s : others_untouched s (CreateHubKey pub enc f now s).2.
Proof. by split. Qed.
Lemma others_retire id now s : others_untouched s (RetireHubKeysExcept id now s).2.
Proof. by split. Qed.
Lemma others_audit x now s : others_untouched s (AppendAudit x now s).2.
Proof. by split. Qed.
Lemma others_memory m s : others_untouched s (set_mem s m).
Proof. by split. Qed.
Hint Resolve others_status others_token others_cached others_site_row others_hub_key others_retire others_audit others_memory : within.

Lemma within_fed_audit a b c d : within others_untouched (audit a b c d).
Proof. unfold audit. within_tac. Qed.
Lemma within_announce s : within others_untouched (pushHubKey delivered s).
Proof. unfold pushHubKey, current_key. within_tac. Qed.
Lemma within_announce_all ids n : within others_untouched (push_all delivered ids n).
Proof. pose proof within_announce. revert n. induction ids as [|id ids IH]; intros n; cbn [push_all]; within_tac. Qed.
Lemma within_delete_site id : within others_untouched (DeleteSite (Tenant t) id).
Proof.
  unfold DeleteSite, DeleteSiteCache. assert (∀ l, within others_untouched (delete_tables (Tenant t) id l)) as Hl.
  { induction l as [|x l IH]; cbn [delete_tables]; within_tac. }
  within_tac.
Qed.
Hint Resolve within_fed_audit within_announce_all within_delete_site : within.

Lemma within_operator p rq : within others_untouched (serve_operator cfg delivered (Tenant t) p rq).
Proof.
  unfold serve_operator, handleListSites, handleCreateToken, handleRevokeSite, handleRotateKey, handleCacheHosts,
    ListSites, ListCacheHosts, Generate, SealPrivate, randToken, current_key, set_key, set_live.
  within_tac.
Qed.

(** a hub's operators stay within their tenant: whatever a request of the management API comes to,
    the sites, join tokens and cached rows of other tenants are as they were, and the sites and hosts
    it is answered with are those of its own tenant. *)
Theorem operator_confined p rq n s :
  let r := serve_operator cfg delivered (Tenant t) p rq (World n s) in
  others_untouched s (w_db r.2) ∧
  match r.1 with
  | RpSites l => ∀ x, x ∈ l → fs_tenant x.1.2 = t
  | RpHosts l => ∀ x, x ∈ l → ch_tenant x.2 = t
  | _ => True
  end.
Proof.
  intros r. split; [exact (proj1 (within_operator p rq (World n s) I))|].
  unfold r. clear r. unfold serve_operator. destruct (negb _); [done|].
  destruct rq as [|name ttl|id| |q]; rewrite run_bind; cbn [fst snd mret M_ret]; unfold reply_as;
    [|by repeat case_match..|].
  - unfold handleListSites, ListSites. run_step. destruct (db_err n); run_step; [done|].
    intros x Hx%list_elem_of_fmap. destruct Hx as (y & -> & Hy). apply list_elem_of_filter in Hy as [Hv _].
    simpl in *. by case_bool_decide.
  - unfold handleCacheHosts, ListCacheHosts. run_step. destruct (db_err n); run_step; [done|].
    intros x Hx. apply list_elem_of_filter in Hx as [Hv _]. apply andb_true_iff in Hv as [Hv _].
    simpl in Hv. by case_bool_decide.
Qed.

(** Statements of the store leave what the process holds as it is. *)
Definition same_memory (s s' : store) : Prop := mem s' = mem s.
#[local] Instance same_memory_preorder : PreOrder same_memory.
Proof. split; [done|]. intros a b c H1' H2'. unfold same_memory in *. congruence. Qed.
#[local] Instance same_memory_relies : Relies same_memory := quiet_keeps _ _.
Lemma mem_cached id table now s : same_memory s (delete_cached (Tenant t) id table now s).2.
Proof. unfold delete_cached. simpl. by repeat case_match. Qed.
Lemma mem_site_row id now s : same_memory s (delete_site_row (Tenant t) id now s).2.
Proof. unfold delete_site_row. simpl. by case_match. Qed.
Hint Resolve mem_cached mem_site_row : within.
Lemma DeleteSite_memory id : within same_memory (DeleteSite (Tenant t) id).
Proof.
  unfold DeleteSite, DeleteSiteCache. assert (∀ l, within same_memory (delete_tables (Tenant t) id l)) as Hl.
  { induction l as [|x l IH]; cbn [delete_tables]; within_tac. }
  within_tac.
Qed.
Lemma DeleteSite_ok id w : (∀ m, db_err m = false) → (DeleteSite (Tenant t) id w).1 = Ok tt.
Proof.
  intros Hdb. unfold DeleteSite, DeleteSiteCache.
  assert (∀ l w, (delete_tables (Tenant t) id l w).1 = Ok tt) as Hl.
  { induction l as [|x l IH]; intros v; [done|]. cbn [delete_tables]. rewrite run_bind, db_eq, Hdb. apply IH. }
  rewrite run_bind, Hl, db_eq, Hdb. done.
Qed.

(** But the links are not told apart by tenant: an operator who revokes a site of another tenant
    gets an answer as if it had been revoked, and closes its link. *)
Lemma revoke_closes_foreign_link p id x n s :
  (∀ m, db_err m = false) → sites (ht s) !! id = Some x → fs_tenant x ≠ t → Has p "Federation.Manage" = true →
  let r := serve_operator cfg delivered (Tenant t) p (RqRevokeSite (Some id)) (World n s) in
  r.1 = RpRevoked ∧ sites (ht (w_db r.2)) !! id = Some x ∧ Get id (live (mem (w_db r.2))) = None.
Proof.
  intros Hdb Hx Ht Hp r.
  assert (others_untouched s (w_db r.2)) as [Hs _ _ _ _] by exact (proj1 (within_operator p _ (World n s) I)).
  cut (r.1 = RpRevoked ∧ Get id (live (mem (w_db r.2))) = None).
  { intros [Hr Hg]. split_and!; [done| |done]. by apply (Hs id x Ht). }
  unfold r. clear r Hs. unfold serve_operator. cbn [operator_perm]. rewrite Hp. cbn [negb].
  unfold handleRevokeSite. rewrite !run_bind, db_eq, Hdb. cbn [fst snd effect w_tick w_db SetSiteStatus].
  match goal with |- context [DeleteSite ?sc id ?w0] => set (w := w0) end.
  rewrite (DeleteSite_ok id w Hdb). cbn [reply_as fst snd mret M_ret]. rewrite run_bind. cbn [fst snd mret M_ret].
  split; [done|].
  assert (∀ v, mem (w_db (audit (actor_id (Some p)) (actorName (Some p)) "federation.site_revoked" (uuid_text id) v).2) = mem (w_db v)) as Ha.
  { intros v. unfold audit. rewrite run_bind, db_eq, Hdb, quiet. done. }
  rewrite Ha. assert (mem (w_db (DeleteSite (Tenant t) id w).2) = mem (w_db w)) as -> by exact (proj1 (DeleteSite_memory id w I)).
  unfold w. cbn [w_db set_live set_mem mem live]. unfold Get, Remove.
  destruct (sessions (live _) !! id) eqn:Hl; simpl; [by rewrite lookup_delete_eq|by rewrite Hl].
Qed.
End tenants.

(** * Pairing *)
Section join.
Context `{!Env store, !FedLib, !Crypto}.

Definition sole (h : bytes) (id : uuid) (s : store) : Prop :=
  ∀ id' t', tokens (ht s) !! id' = Some t' → jt_hash t' = h → id' = id.
(** A join token: the one row with its hash. *)
Definition issued (h : bytes) (s : store) : Prop :=
  ∃ id t, tokens (ht s) !! id = Some t ∧ jt_hash t = h ∧ sole h id s.
Definition spent (h : bytes) (s : store) : Prop :=
  ∃ id t, tokens (ht s) !! id = Some t ∧ jt_hash t = h ∧ sole h id s ∧ jt_used t ≠ None.
(** What everything that runs on a hub does to its join tokens: it issues none twice, removes none,
    and takes none back that is spent. *)
Definition tokens_kept (s s' : store) : Prop :=
  ∀ id t, tokens (ht s) !! id = Some t → sole (jt_hash t) id s →
    ∃ t', tokens (ht s') !! id = Some t' ∧ jt_hash t' = jt_hash t ∧ sole (jt_hash t) id s' ∧
      (jt_used t ≠ None → jt_used t' ≠ None).
#[local] Instance tokens_kept_preorder : PreOrder tokens_kept.
Proof.
  split; [intros s id t Ht Hs; eauto|]. intros a b c Hab Hbc id t Ht Hs.
  destruct (Hab id t Ht Hs) as (t1 & H1' & Hh1 & Hs1 & Hu1).
  destruct (Hbc id t1 H1') as (t2 & H2' & Hh2 & Hs2 & Hu2); [by rewrite Hh1|].
  rewrite Hh1 in *. exists t2. split_and!; auto. 
Qed.
#[local] Instance issued_stable h : Stable tokens_kept (issued h).
Proof. intros s s' (id & t & Ht & <- & Hs) Hk. destruct (Hk id t Ht Hs) as (t' & ? & ? & ? & ?). by exists id, t'. Qed.
#[local] Instance spent_stable h : Stable tokens_kept (spent h).
Proof.
  intros s s' (id & t & Ht & <- & Hs & Hu) Hk. destruct (Hk id t Ht Hs) as (t' & ? & ? & ? & ?).
  exists id, t'. split_and!; auto.
Qed.

Lemma consumed hash by_ at_ now s id :
  tokens (ht (ConsumeJoinToken Bypass hash by_ at_ now s).2) !! id =
  (λ t, if open_token Bypass hash at_ t then used_token at_ by_ t else t) <$> tokens (ht s) !! id.
Proof.
  unfold ConsumeJoinToken. set (hit := filter _ _).
  assert (∀ i, hit !! i = t ← tokens (ht s) !! i; if open_token Bypass hash at_ t then Some t else None) as Hhit.
  { intros i. unfold hit. destruct (tokens (ht s) !! i) as [t|] eqn:Ht; simpl.
    - destruct (open_token Bypass hash at_ t) eqn:Ho; [by apply map_lookup_filter_Some|].
      apply map_lookup_filter_None. right. intros x Hx. simpl. congruence.
    - apply map_lookup_filter_None. by left. }
  destruct (map_to_list hit) as [|[j t0] l] eqn:Hl; simpl.
  - apply map_to_list_empty_iff in Hl. specialize (Hhit id). rewrite Hl, lookup_empty in Hhit.
    destruct (tokens (ht s) !! id) as [t|]; simpl in *; [|done]. by destruct (open_token _ _ _ _).
  - rewrite lookup_union, lookup_fmap, Hhit. destruct (tokens (ht s) !! id) as [t|]; simpl; [|done].
    by destruct (open_token _ _ _ _).
Qed.

Lemma consume_spec h by_ at_ now s :
  tokens_kept s (ConsumeJoinToken Bypass h by_ at_ now s).2 ∧
  (is_ok (ConsumeJoinToken Bypass h by_ at_ now s).1 = true →
   ∃ id t, tokens (ht s) !! id = Some t ∧ open_token Bypass h at_ t = true).
Proof.
  split.
  - intros id t Ht Hs. eexists. rewrite consumed, Ht. split; [done|]. split; [by case_match|]. split.
    + intros id' t' Ht' Hh'. rewrite consumed in Ht'. apply fmap_Some in Ht' as (t0 & H0' & ->).
      apply (Hs id' t0 H0'). rewrite <- Hh'. by case_match.
    + by case_match.
  - unfold ConsumeJoinToken. set (hit := filter _ _). destruct (map_to_list hit) as [|[j t0] l] eqn:Hl; [done|].
    intros _. exists j, t0. assert (hit !! j = Some t0) as Hj by (apply elem_of_map_to_list; rewrite Hl; by left).
    unfold hit in Hj. by apply map_lookup_filter_Some in Hj.
Qed.

Lemma open_token_hash h at_ t : open_token Bypass h at_ t = true → jt_hash t = h ∧ jt_used t = None.
Proof. unfold open_token. cbn [visible andb]. intros [[H1'%bool_decide_eq_true H2'%bool_decide_eq_true]%andb_true_iff _]%andb_true_iff. done. Qed.

Lemma consume_issued h by_ at_ now s : issued h s →
  is_ok (ConsumeJoinToken Bypass h by_ at_ now s).1 = true →
  ¬ spent h s ∧ spent h (ConsumeJoinToken Bypass h by_ at_ now s).2.
Proof.
  intros (id & t & Ht & <- & Hs) Hok. destruct (consume_spec (jt_hash t) by_ at_ now s) as [Hk Ho].
  destruct (Ho Hok) as (id' & t' & Ht' & Hopen). pose proof (open_token_hash _ _ _ Hopen) as [Hh Hu].
  assert (id' = id) as -> by by apply (Hs id' t'). rewrite Ht in Ht'. injection Ht' as <-. split.
  - intros (id1 & t1 & Ht1 & Hh1 & _ & Hu1). assert (id1 = id) as -> by by apply (Hs id1 t1). congruence.
  - exists id, (used_token at_ by_ t). destruct (Hk id t Ht Hs) as (t2 & Ht2 & _ & Hs2 & _).
    rewrite consumed, Ht in Ht2. simpl in Ht2. rewrite Hopen in Ht2. injection Ht2 as <-.
    split_and!; [by rewrite consumed, Ht; simpl; rewrite Hopen|done|done|done].
Qed.

Context `{!Relies tokens_kept}.
Lemma kept_create id name pub status hk api b proto t now s :
  tokens_kept s (CreateSite Bypass id name pub status hk api b proto t now s).2.
Proof. unfold CreateSite. destruct (sites (ht s) !! id); [reflexivity|]. simpl. intros i x Hx Hs. eauto. Qed.
Lemma kept_audit a now s : tokens_kept s (AppendAudit a now s).2.
Proof. intros i x Hx Hs. eauto. Qed.
Hint Resolve kept_create kept_audit : within.

(** A join that succeeds has spent its token, which was not spent before. *)
Lemma guar_join h (b : bool) rq : hashToken (jq_token rq) = h →
  guar tokens_kept (λ s, issued h s ∧ (b = true → spent h s)) (handleJoin (Some rq))
    (λ r s, ∀ c j, r = WriteJSON c j → b = false ∧ spent h s).
Proof.
  intros Hh. set (P := λ s, issued h s ∧ (b = true → spent h s)).
  assert (Stable tokens_kept P) as HP.
  { intros s s' [H1' H2'] Hk. split; [by eapply stable|]. intros Hb. eapply (stable (P := spent h)); [by apply H2'|done]. }
  assert (∀ A (m : M store A), within tokens_kept m → guar tokens_kept P m (λ _, P)) as Hskip.
  { intros A m Hm. by apply guar_frame. }
  unfold handleJoin. destruct (Base64.decode (jq_public rq)) as [[|pb pl]|];
    [by apply guar_ret; try exact _| |by apply guar_ret; try exact _].
  destruct (_ <? _); [by apply guar_ret; try exact _|].
  eapply guar_bind; [exact _|apply Hskip; within_tac|]. intros id.
  eapply guar_bind; [exact _|apply Hskip; within_tac|]. intros at_.
  set (Q := λ s, b = false ∧ spent h s).
  assert (Stable tokens_kept Q) as HQ.
  { intros s s' [? Hs] Hk. split; [done|]. by eapply (stable (P := spent h)). }
  eapply (guar_bind _ P (λ r s, is_ok r = true → Q s)).
  - apply (guar_db _ P); [exact _|exact HP|done|]. intros now s [Hi Hb]. rewrite Hh.
    destruct (consume_spec h id at_ now s) as [Hk _]. split; [done|]. intros Hok.
    destruct (consume_issued h id at_ now s Hi Hok) as [Hn Hs]. split; [|done]. by destruct b; [destruct Hn; apply Hb|].
  - intros [tok|e]; [|by apply guar_ret; try exact _].
    apply (guar_weaken _ _ Q); [|by intros s Hs; apply Hs].
    assert (∀ A (m : M store A), within tokens_kept m → guar tokens_kept Q m (λ _, Q)) as HskipQ.
    { intros A m Hm. by apply guar_frame. }
    eapply guar_bind; [exact _|apply HskipQ; unfold current_key; within_tac|]. intros k.
    eapply guar_bind; [exact _|apply HskipQ; within_tac|]. intros [u|e]; [|by apply guar_ret; try exact _].
    eapply guar_bind; [exact _|apply HskipQ; unfold audit; within_tac|]. intros ?. apply guar_ret; [exact _|]. by intros s Hs c j _.
Qed.

(** a join token pairs one site: after a join with it succeeded, every other join with it is
    refused, whatever hub requests run in between and at the same time. *)
Theorem join_token_spent_once rq w c j rq' w' :
  issued (hashToken (jq_token rq)) (w_db w) → (handleJoin (Some rq) w).1 = WriteJSON c j →
  tokens_kept (w_db (handleJoin (Some rq) w).2) (w_db w') → jq_token rq' = jq_token rq →
  ∃ code msg, (handleJoin (Some rq') w').1 = WriteError code msg.
Proof.
  intros Hi Hok Hk Hsame. set (h := hashToken (jq_token rq)) in *.
  destruct (guar_join h false rq eq_refl w) as [_ Hq]; [by split|].
  destruct (Hq c j Hok) as [_ Hs]. pose proof (stable (P := spent h) _ _ Hs Hk) as Hs'.
  destruct (guar_join h true rq' ltac:(by rewrite Hsame) w') as [_ Hq'].
  { split; [|done]. destruct Hs' as (id & t & Ht & Hh & Hsole & _). by exists id, t. }
  destruct (handleJoin (Some rq') w').1 as [code msg|c' j']; [by eexists _, _|].
  by destruct (Hq' c' j' eq_refl).
Qed.
End join.

(** * The hub's key at a site *)
Section pin.
Context `{!Env store, !Quiet Env0, !FedLib, !FedLaws, !Crypto} (cfg : fed_config) (post_join : joinReq → nat → join_answer).

(** C27: the pinned fingerprint does not pin the key. A site configured with the fingerprint of its hub
    stores whatever key the answer carries, as long as the answer repeats that fingerprint: the
    fingerprint of the key itself is never computed. Nothing but the configured string is needed. *)
Theorem hub_pin_not_checked n s pub site_id :
  (∀ m, db_err m = false) → hub (st s) = None → HubJoinToken cfg ≠ "" → HubKeyFingerprint cfg ≠ "" →
  is_Some (generate_key (S n)) → (∀ k m, is_Some (SealPrivate (fips cfg) (CAKeyPassphrase cfg) k m).1) →
  (∀ rq, post_join rq (S n) =
     Answered 200 (Some (MkJoinResp (uuid_text site_id) (Base64.encode pub) (HubKeyFingerprint cfg) 1))) →
  let r := ensureJoined cfg post_join (World n s) in
  is_ok r.1 = true ∧
  ∃ h, hub (st (w_db r.2)) = Some h ∧ fh_public h = pub ∧ fh_site h = site_id ∧ fh_managed h = true.
Proof.
  intros Hdb Hh Htok Hfp [[p k] Hg] Hseal Hpost. unfold ensureJoined, GetFederationHub. cbv zeta. run_step.
  rewrite Hdb. unfold get_row, reading. cbn [fst snd]. rewrite Hh. run_step. unfold str_eqb.
  rewrite bool_decide_false by done. unfold join, Generate. run_step. rewrite Hg. cbn [fmap option_fmap option_map fst snd id_public id_private].
  run_step. rewrite Hpost. change (200 =? 200) with true. cbn [negb jr_finger jr_proto jr_public jr_site].
  unfold str_eqb. rewrite bool_decide_false by done. rewrite bool_decide_true by done. cbn [negb andb].
  change (1 =? 0) with false. change (1 <? MinSupportedProtocol) with false. cbn [negb andb].
  rewrite Base64.decode_encode, uuid_parses. cbn [fst snd]. rewrite run_bind.
  destruct (Hseal k (World (S n) s)) as [e He]. rewrite He.
  change (SealPrivate (fips cfg) (CAKeyPassphrase cfg) k (World (S n) s)).2 with (World (S n) s).
  run_step. rewrite Hdb. run_step. split; [done|]. eexists. split; [done|]. done.
Qed.

(** A key of the wrong length, announced or stored, is final: the site refuses to link from then on,
    and only over a link would it hear of another key. *)
Lemma short_hub_key_is_final h n s : hub (st s) = Some h → length (fh_public h) ≠ PublicKeySize →
  is_ok (ensureJoined cfg post_join (World n s)).1 = false ∧ w_db (ensureJoined cfg post_join (World n s)).2 = s.
Proof.
  intros Hh Hl. unfold ensureJoined, GetFederationHub. run_step. destruct (db_err n); run_step; [done|].
  unfold get_row, reading. cbn [fst snd]. rewrite Hh. run_step. unfold PublicFromBytes.
  rewrite bool_decide_false by done. by destruct (OpenPrivate _ _).
Qed.
Lemma announced_key_unchecked pub finger n s h :
  (∀ m, db_err m = false) → hub (st s) = Some h → pub ≠ [] →
  ∃ h', hub (st (w_db (applyHubKey (Some (Base64.encode pub, finger)) (World n s)).2)) = Some h' ∧ fh_public h' = pub.
Proof.
  intros Hdb Hh Hne. unfold applyHubKey. rewrite Base64.decode_encode. destruct pub as [|b pub]; [done|].
  run_step. rewrite Hdb. run_step. unfold UpdateFederationHubKey. simpl. rewrite Hh. simpl. eexists. by split.
Qed.
End pin.

(** A frame whose length is negative ends the process that serves it, before any token is looked at. *)
Lemma negative_length_panics `{!Env store, !FedLib, !Crypto, !FrameJson} handler f body w :
  BodyLen f < 0 → (serveHubHTTP (Some handler) f body w).1 = Panicked.
Proof. intros Hl. unfold serveHubHTTP. by destruct (Z.ltb_spec (BodyLen f) 0); [|lia]. Qed.

(** The nonce of a rotation is single-use for as long as its row lasts: when [pruneLoop] has removed
    it, the same signed message stages the same key again. *)
Lemma rotation_replays_after_prune `{!Env store, !Quiet Env0, !FedLib, !Crypto} site m n s x new_pub sig :
  (∀ i, db_err i = false) → sites (ht s) !! site = Some x → length (fs_public x) = PublicKeySize →
  Base64.decode (rm_public m) = Some new_pub → length new_pub = PublicKeySize → Base64.decode (rm_sig m) = Some sig →
  ed_verify (fs_public x) (siteRotateMessage (uuid_text site) new_pub (rm_nonce m)) sig = true →
  nonces (PruneNonces (clock n) 0 s).2 !! ("siterot:" +:+ rm_nonce m) = None →
  ∃ f, (handleSiteKeyRotate site (Some m) (World n (PruneNonces (clock n) 0 s).2)).1 = Ok f.
Proof.
  intros Hdb Hx Hl Hp Hlp Hs Hv Hn. unfold handleSiteKeyRotate, GetSite. rewrite Hp, Hs.
  rewrite bool_decide_true by done. cbn [negb]. run_step. rewrite Hdb. unfold get_row, reading, seen_site.
  cbn [fst snd]. change (sites (ht (PruneNonces (clock n) 0 s).2)) with (sites (ht s)). rewrite Hx.
  cbn [mbind option_bind visible]. run_step. unfold PublicFromBytes. rewrite bool_decide_true by done. run_step.
  rewrite Hdb. unfold UseNonce. rewrite Hn. run_step. rewrite Hv. run_step. rewrite Hdb. run_step. eauto.
Qed.

(** * Runs of a concrete hub and site *)
#[local] Existing Instances toy_fed toy_fed_laws toy_crypto toy_laws quiet_env toy_frames.
Definition toy_cfg : fed_config := MkConfig [x61] false "join" "p" "h" "SHA256:pinned" "v".
Definition toy_sealed (k : bytes) : bytes := match SealBytes false toy_draw [x61] k with Ok b => b | Err _ => [] end.
Definition old_key : bytes := toy_key 50.
Definition joined_site : store :=
  set_hub (Some (MkHub "u" (take 32 (toy_key 3)) "f" 5 (take 32 old_key) (toy_sealed old_key) true)) empty_store.
Definition hub_of_site : store :=
  set_sites empty_store {[5%N := MkSite "s" (take 32 old_key) None "active" None "v1" "" 1 None "up" 0 1 0]}.
Lemma toy_in_step : in_step toy_cfg 5 hub_of_site joined_site.
Proof. eexists _, _, old_key. split_and!; try (vm_compute; reflexivity); [done|by left]. Qed.

Lemma key_rotation_keeps_link_witness :
  in_step toy_cfg 5 hub_of_site joined_site ∧
  let r := rotateSiteKey toy_cfg true (hub_peer 5 quiet_env true true) (World 0 hub_of_site) (World 0 joined_site) in
  is_ok r.1.1 = true ∧ in_step toy_cfg 5 (w_db r.1.2) (w_db r.2).
Proof.
  split; [apply toy_in_step|]. split; [by vm_compute|].
  exact (proj1 (key_rotation_keeps_link toy_cfg 5 quiet_env quiet_env true true true 0 hub_of_site 0 joined_site toy_in_step)).
Defined.

(** Two rotations at once: both read the site's record, both keys are staged, and the site keeps the
    one that was staged first, which the hub has forgotten. *)
Lemma concurrent_rotations_lock_out :
  let a := rotateSiteKey toy_cfg true (hub_peer 5 quiet_env true true) (World 0 hub_of_site) (World 0 joined_site) in
  let b := rotateSiteKey toy_cfg true (hub_peer 5 quiet_env true true) (World 20 (w_db a.1.2)) (World 20 joined_site) in
  is_ok a.1.1 = true ∧ is_ok b.1.1 = true ∧
  ∃ tok, (match (ensureJoined toy_cfg (λ _ _, NoAnswer) (World 40 (w_db a.2))).1 with
          | Ok ss => (link_token ss (World 41 (w_db a.2))).1 | Err _ => None end) = Some tok ∧
    (link_admit (Some 5%N) tok (World 42 (w_db b.1.2))).1 = WriteError 401 "bad link token".
Proof.
  intros a b. split; [by vm_compute|]. split; [by vm_compute|]. eexists. split; [vm_compute; reflexivity|]. by vm_compute.
Qed.

Lemma hub_pin_not_checked_witness :
  let answer := λ (_ : joinReq) (_ : nat), Answered 200 (Some (MkJoinResp (uuid_text 5) (Base64.encode (take 32 old_key)) "SHA256:pinned" 1)) in
  let r := ensureJoined toy_cfg answer (World 0 empty_store) in
  is_ok r.1 = true ∧ ∃ h, hub (st (w_db r.2)) = Some h ∧ fh_public h = take 32 old_key.
Proof.
  intros answer r.
  destruct (hub_pin_not_checked toy_cfg answer 0 empty_store (take 32 old_key) 5) as [Hok (h & Hh & Hp & _)];
    [done|done|done|done|by eexists| |done|].
  - intros k m. unfold SealPrivate. simpl. by eexists.
  - split; [exact Hok|]. by exists h.
Defined.

Definition token_rq : joinReq := MkJoinReq "tok" (Base64.encode (take 32 old_key)) "s" "v1" 1 "".
Definition hub_with_token : store :=
  set_tokens empty_store {[1%N := MkJoin (hashToken "tok") "s" hour None None None 7]}.
#[local] Instance quiet_tokens : @Relies store quiet_env tokens_kept := quiet_keeps _ (@PreOrder_Reflexive _ _ tokens_kept_preorder).

Lemma join_token_spent_once_witness :
  let r := handleJoin (Some token_rq) (World 0 hub_with_token) in
  is_Some (match r.1 with WriteJSON _ j => Some j | _ => None end) ∧
  ∃ code msg, (handleJoin (Some token_rq) (World 9 (w_db r.2))).1 = WriteError code msg.
Proof.
  intros r. split; [vm_compute; by eexists|].
  destruct r.1 as [c m|c j] eqn:Hr; [by vm_compute in Hr|].
  apply (join_token_spent_once token_rq (World 0 hub_with_token) c j); [|exact Hr| |done].
  - exists 1%N, (MkJoin (hashToken "tok") "s" hour None None None 7). split_and!; [by vm_compute|done|].
    intros i t' Hi _. cbn [w_db hub_with_token set_tokens set_ht ht tokens] in Hi. by apply lookup_singleton_Some in Hi as [-> _].
  - intros i t Hi Hs. by exists t.
Defined.

#[local] Instance toy_fed_json : FedJson := {|
  decode_push := λ _, [("host", []); ("heartbeat", [])]; unmarshal_host := λ _, Some (4%N, "online", [x7b]);
  unmarshal_heartbeat := λ _, Some "v2"; decode_rotate := λ _, None; decode_hubkey := λ _, None |}.
#[local] Instance one_frame : FrameJson := {|
  marshal_frame := λ _, []; unmarshal_frame := λ _, Some (MkFrame "push" "" "" "" ∅ 0 "" "");
  marshal_resp := λ _, []; unmarshal_resp := λ _, None |}.
Lemma site_confined_witness :
  let s' := w_db (serveSite 5 1 [[newline]] (World 0 hub_of_site)).2 in
  own_rows_only 5 1 hub_of_site s' ∧ fs_build <$> sites (ht s') !! 5%N = Some "v2" ∧
  ch_status <$> hosts_cache (cs s') !! (5%N, 4%N) = Some (Some "online").
Proof.
  intros s'. split; [|split; by vm_compute].
  refine (proj1 (site_confined 5 (MkSite "s" (take 32 old_key) None "active" None "v1" "" 1 None "up" 0 1 0)
    [[newline]] 0 hub_of_site _)). done.
Defined.

Lemma operator_confined_witness :
  let s := set_sites empty_store {[5%N := MkSite "s" [] None "active" None "v1" "" 1 None "up" 0 7 0]} in
  let p := MkPrincipal 8 0 "ann" false {["Federation.Manage"]} false 6 in
  let r := serve_operator toy_cfg (λ _, true) (Tenant 6) p RqListSites (World 0 s) in
  r.1 = RpSites [] ∧ others_untouched 6 s (w_db r.2).
Proof.
  intros s p r. split; [by vm_compute|].
  exact (proj1 (operator_confined toy_cfg (λ _, true) 6 p RqListSites 0 s)).
Defined.
