(* ===== verification/ServiceAccounts.v ===== *)
(** Service accounts and their API tokens: [serviceaccounts/handlers.go] over
    [store/service_accounts.go].

    A service account is a row of [users]; it runs on the tables of [AuthSession], with the
    groups and what the listing shows of a token beside them. A request with a token is
    authenticated by [AuthSession.authenticateAPIToken]. *)
From S2P Require Import Prelude.
From S2P Require AuthSession Accounts Federation.
Import AuthSession(Principal, UserID, Has, AuthLib, HashToken, APITokenPrefix, authenticateAPIToken).

(** * The tables *)
(** The columns of [api_tokens] a listing shows. *)
Record token_meta := TokenMeta {
  tm_name : string; tm_prefix : string; tm_creator : option uuid; tm_created : Z; tm_last_used : option Z;
}.
Record store := Store {
  auth : AuthSession.store; groups : gmap uuid string; user_groups : gset (uuid * uuid);
  token_metas : gmap uuid token_meta;
}.
Definition set_auth (s : store) a := Store a (groups s) (user_groups s) (token_metas s).
Definition set_user_groups (s : store) m := Store (auth s) (groups s) m (token_metas s).
Definition set_token_metas (s : store) m := Store (auth s) (groups s) (user_groups s) m.

(** A statement on the tables of [AuthSession]. *)
Definition on_auth {A} (f : Z → AuthSession.store → res store_error A * AuthSession.store) (now : Z) (s : store)
    : res store_error A * store := let '(r, a) := f now (auth s) in (r, set_auth s a).

Abbreviation users s := (AuthSession.users (auth s)).
Abbreviation tokens s := (AuthSession.api_tokens (auth s)).
Abbreviation rb s := (AuthSession.rb (auth s)).

(** * [store/service_accounts.go] *)
Record ServiceAccount := MkServiceAccount {
  sa_id : uuid; sa_username : string; sa_display : string; sa_disabled : bool;
  sa_roles : gset string; sa_groups : gset string; sa_tokens : nat; sa_last_used : option Z;
}.
Definition is_service (id : uuid) (s : store) : option AuthSession.user :=
  match users s !! id with Some u => if AuthSession.u_service u then Some u else None | None => None end.

(** The row the query aggregates for an account. *)
Definition tokens_of (id : uuid) (s : store) : gmap uuid AuthSession.api_token :=
  filter (λ kt, AuthSession.t_account kt.2 = id) (tokens s).
Definition latest (l : list Z) : option Z :=
  foldr (λ z m, Some (match m with Some y => Z.max z y | None => z end)) None l.
Definition serviceAccountSelect (id : uuid) (u : AuthSession.user) (s : store) : ServiceAccount :=
  let ts := tokens_of id s in
  MkServiceAccount id (AuthSession.u_name u) (AuthSession.u_display u) (AuthSession.u_disabled u)
    (list_to_set (omap (λ r, AuthSession.r_name <$> AuthSession.roles (rb s) !! r)
       (elements (filter (λ ur : uuid * uuid, ur.1 = id) (AuthSession.user_roles (rb s)))).*2))
    (list_to_set (omap (λ g, groups s !! g) (elements (filter (λ ug : uuid * uuid, ug.1 = id) (user_groups s))).*2))
    (size (filter (λ kt, AuthSession.t_revoked kt.2 = None) ts))
    (latest (omap (λ k, m ← token_metas s !! k; tm_last_used m) (map_to_list ts).*1)).

Definition GetServiceAccount (id : uuid) : Z → store → res store_error ServiceAccount * store :=
  get_row (λ s, u ← is_service id s; Some (serviceAccountSelect id u s)).
Definition ListServiceAccounts (now : Z) (s : store) : res store_error (list ServiceAccount) * store :=
  (Ok (omap (λ k, u ← is_service k s; Some (serviceAccountSelect k u s)) (map_to_list (users s)).*1), s).

(** The defaults of the columns the insert leaves out; no row in [user_credentials]. *)
Definition service_row (username display : string) : AuthSession.user :=
  AuthSession.User username false "local" false false AuthSession.ProviderTenantID true 0 None None "" display false.
Definition CreateServiceAccount `{!AuthLib} (username display : string) (now : Z) (s : store)
    : res store_error ServiceAccount * store :=
  if existsb (λ ku, AuthSession.citext_eq (AuthSession.u_name ku.2) username) (map_to_list (users s)) then (Err ErrDB, s)
  else
    let id := fresh (dom (users s)) in
    (Ok (MkServiceAccount id username display false ∅ ∅ 0 None),
     set_auth s (AuthSession.set_users (auth s) (<[id := service_row username display]> (users s)))).

Definition SetServiceAccountDisabled (id : uuid) (disabled : bool) (now : Z) (s : store) : res store_error unit * store :=
  match is_service id s with
  | None => (Err ErrNotFound, s)
  | Some _ => on_auth (Accounts.SetDisabled id disabled) now s
  end.

(** The cascades of [Accounts.DeleteUser], those of the memberships and of what a listing shows. *)
Definition DeleteServiceAccount (id : uuid) (now : Z) (s : store) : res store_error unit * store :=
  match is_service id s with
  | None => (Err ErrNotFound, s)
  | Some _ =>
    let a := (Accounts.DeleteUser id now (auth s)).2 in
    (Ok tt, Store a (groups s) (filter (λ ug : uuid * uuid, ug.1 ≠ id) (user_groups s))
              ((λ m, TokenMeta (tm_name m) (tm_prefix m) (if bool_decide (tm_creator m = Some id) then None else tm_creator m)
                       (tm_created m) (tm_last_used m))
                 <$> filter (λ km, is_Some (AuthSession.api_tokens a !! km.1)) (token_metas s)))
  end.

(** [replaceMemberships] for its two tables: one transaction, undone by an id that does not exist. *)
Definition replaced (id : uuid) (ids : list uuid) (m : gset (uuid * uuid)) : gset (uuid * uuid) :=
  list_to_set (pair id <$> ids) ∪ filter (λ x : uuid * uuid, x.1 ≠ id) m.
Definition SetServiceAccountRoles (id : uuid) (ids : list uuid) (now : Z) (s : store) : res store_error unit * store :=
  match is_service id s with
  | None => (Err ErrNotFound, s)
  | Some _ =>
    if forallb (λ r, bool_decide (is_Some (AuthSession.roles (rb s) !! r))) ids then
      (Ok tt, set_auth s (Accounts.set_user_roles (auth s) (replaced id ids (AuthSession.user_roles (rb s)))))
    else (Err ErrDB, s)
  end.
Definition SetServiceAccountGroups (id : uuid) (ids : list uuid) (now : Z) (s : store) : res store_error unit * store :=
  match is_service id s with
  | None => (Err ErrNotFound, s)
  | Some _ =>
    if forallb (λ g, bool_decide (is_Some (groups s !! g))) ids then
      (Ok tt, set_user_groups s (replaced id ids (user_groups s)))
    else (Err ErrDB, s)
  end.

Definition set_tokens (s : store) m : store :=
  set_auth s (AuthSession.Store (users s) (AuthSession.sessions (auth s)) m (AuthSession.lockout (auth s))
    (AuthSession.global_policy (auth s)) (AuthSession.user_policies (auth s)) (AuthSession.live (auth s)) (rb s)
    (AuthSession.mfa (auth s)) (AuthSession.pw_policy (auth s)) (AuthSession.audits (auth s))).

(** [token_hash] is unique, the account and the creator are foreign keys. *)
Definition CreateAPIToken (sa : uuid) (name hash prefix : string) (creator : uuid) (expires : option Z) (now : Z) (s : store)
    : res store_error uuid * store :=
  if existsb (λ kt, str_eqb (AuthSession.t_hash kt.2) hash) (map_to_list (tokens s)) ||
     negb (bool_decide (is_Some (users s !! sa)) && bool_decide (is_Some (users s !! creator)))
  then (Err ErrDB, s)
  else
    let id := fresh (dom (tokens s)) in
    (Ok id, set_token_metas (set_tokens s (<[id := AuthSession.ApiToken sa hash expires None]> (tokens s)))
              (<[id := TokenMeta name prefix (Some creator) now None]> (token_metas s))).
Definition ListAPITokens (sa : uuid) (now : Z) (s : store)
    : res store_error (list (uuid * AuthSession.api_token * option token_meta)) * store :=
  (Ok ((λ kt, (kt, token_metas s !! kt.1)) <$> map_to_list (tokens_of sa s)), s).

Definition revoked_token (now : Z) (t : AuthSession.api_token) : AuthSession.api_token :=
  AuthSession.ApiToken (AuthSession.t_account t) (AuthSession.t_hash t) (AuthSession.t_expires t) (Some now).
Definition RevokeAPIToken (sa token : uuid) (now : Z) (s : store) : res store_error unit * store :=
  match tokens s !! token with
  | Some t =>
    if bool_decide (AuthSession.t_account t = sa) && bool_decide (AuthSession.t_revoked t = None) then
      (Ok tt, set_tokens s (<[token := revoked_token now t]> (tokens s)))
    else (Err ErrNotFound, s)
  | None => (Err ErrNotFound, s)
  end.
Definition TouchAPIToken (id : uuid) (now : Z) (s : store) : res store_error unit * store :=
  (Ok tt, set_token_metas s (alter (λ m, TokenMeta (tm_name m) (tm_prefix m) (tm_creator m) (tm_created m) (Some now)) id
            (token_metas s))).

(** * [auth/tokens.go] *)
(** 32 bytes of the random source, drawn at a tick. *)
Class TokenRand := token_bytes : nat → option (list Byte.byte).

Definition NewAPIToken `{!AuthLib, !TokenRand} : M store (option (string * string * string)) :=
  b ← draw token_bytes;
  mret (b ← b;
        let token := APITokenPrefix +:+ Federation.raw_url b in
        Some (token, HashToken token, String.substring 0 12 token)).

(** * The handlers *)
(** [^[a-zA-Z0-9][a-zA-Z0-9._-]{1,62}$] *)
Definition alnum (n : nat) : bool := Accounts.between 97 122 n || Accounts.between 65 90 n || Accounts.between 48 57 n.
Definition nameRe (s : string) : bool :=
  match s with
  | EmptyString => false
  | String c t => alnum (Ascii.nat_of_ascii c) && Accounts.between 1 62 (String.length t) &&
                  Accounts.byte_ok (λ n, alnum n || bool_decide (n ∈ [46; 95; 45]%nat)) t
  end.

Record createReq := MkCreate { cr_username : string; cr_display : string; cr_roles : list uuid; cr_groups : list uuid }.
Record updateReq := MkUpdate {
  ur_display : option string; ur_disabled : option bool; ur_roles : option (list uuid); ur_groups : option (list uuid);
}.
Record createTokenReq := MkTokenReq { tr_name : string; tr_days : Z }.

Section handlers.
Context `{!Env store, !AuthLib, !TokenRand} (p : Principal).

Definition audit (action : string) : M store unit :=
  _ ← db (on_auth (Accounts.AppendAudit action (Some (UserID p)))); mret tt.

(** [None] when the roles may be given. *)
Fixpoint ensure_roles (roles : list uuid) : M store (option string) :=
  match roles with
  | [] => mret None
  | r :: roles =>
    perms ← db (on_auth (Accounts.RolePermissions r));
    match perms with
    | Err _ => mret (Some "unknown role")
    | Ok perms =>
      if forallb (Has p) (elements perms) then ensure_roles roles
      else mret (Some "you cannot grant a role that includes permissions you do not hold")
    end
  end.
Definition ensureCanGrant (roles : list uuid) : M store (option string) :=
  if AuthSession.IsSuperAdmin p then mret None else ensure_roles roles.

Definition list_ : M store (reply (list ServiceAccount)) :=
  r ← db ListServiceAccounts;
  match r with
  | Err _ => mret (WriteError 500 "could not list service accounts")
  | Ok l => mret (WriteJSON 200 l)
  end.

Definition create (rq : option createReq) : M store (reply ServiceAccount) :=
  match rq with
  | None => mret (WriteError 400 "invalid request body")
  | Some rq =>
    let name := TrimSpace (cr_username rq) in
    if negb (nameRe name) then mret (WriteError 400 "username must be 2-63 chars: letters, digits, . _ -")
    else
      g ← ensureCanGrant (cr_roles rq);
      match g with
      | Some msg => mret (WriteError 403 msg)
      | None =>
        r ← db (CreateServiceAccount name (cr_display rq));
        match r with
        | Err _ => mret (WriteError 409 "could not create — the name may already be in use")
        | Ok sa =>
          _ ← (if bool_decide (cr_roles rq = []) then mret tt
               else _ ← db (SetServiceAccountRoles (sa_id sa) (cr_roles rq)); mret tt);
          _ ← (if bool_decide (cr_groups rq = []) then mret tt
               else _ ← db (SetServiceAccountGroups (sa_id sa) (cr_groups rq)); mret tt);
          _ ← audit "service_account.create";
          f ← db (GetServiceAccount (sa_id sa));
          mret (WriteJSON 201 (match f with Ok f => f | Err _ => sa end))
        end
      end
  end.

(** One optional part of an update: [None] when the handler goes on. *)
Definition part {A} (o : option A) (f : A → M store (option (reply ServiceAccount))) : M store (option (reply ServiceAccount)) :=
  match o with None => mret None | Some a => f a end.
Definition or_gone (f : Z → store → res store_error unit * store) : M store (option (reply ServiceAccount)) :=
  r ← db f; mret (match r with Err _ => Some (WriteError 404 "no such service account") | Ok _ => None end).
Definition next (r : option (reply ServiceAccount)) (k : M store (reply ServiceAccount)) : M store (reply ServiceAccount) :=
  match r with Some r => mret r | None => k end.

(** The display name of the request is not used. *)
Definition update (idp : option uuid) (rq : option updateReq) : M store (reply ServiceAccount) :=
  match idp, rq with
  | None, _ => mret (WriteError 400 "invalid id")
  | Some _, None => mret (WriteError 400 "invalid request body")
  | Some id, Some rq =>
    r ← part (ur_roles rq) (λ roles,
          g ← ensureCanGrant roles;
          match g with
          | Some msg => mret (Some (WriteError 403 msg))
          | None => or_gone (SetServiceAccountRoles id roles)
          end);
    next r (
    r ← part (ur_groups rq) (λ gs, or_gone (SetServiceAccountGroups id gs));
    next r (
    r ← part (ur_disabled rq) (λ d, or_gone (SetServiceAccountDisabled id d));
    next r (
    _ ← audit "service_account.update";
    sa ← db (GetServiceAccount id);
    match sa with
    | Err _ => mret (WriteError 404 "no such service account")
    | Ok sa => mret (WriteJSON 200 sa)
    end)))
  end.

Definition remove (idp : option uuid) : M store (reply unit) :=
  match idp with
  | None => mret (WriteError 400 "invalid id")
  | Some id =>
    r ← db (DeleteServiceAccount id);
    match r with
    | Err _ => mret (WriteError 404 "no such service account")
    | Ok _ => _ ← audit "service_account.delete"; mret (WriteJSON 204 tt)
    end
  end.

Definition listTokens (idp : option uuid) : M store (reply (list (uuid * AuthSession.api_token * option token_meta))) :=
  match idp with
  | None => mret (WriteError 400 "invalid id")
  | Some id =>
    r ← db (ListAPITokens id);
    match r with
    | Err _ => mret (WriteError 500 "could not list tokens")
    | Ok l => mret (WriteJSON 200 l)
    end
  end.

(** [time.Duration(days) * 24 * time.Hour] of an [int64]. *)
Definition expiry (days now : Z) : option Z :=
  if 0 <? days then Some (now + wrap64 (days * day)) else None.

(** The reply holds the token's id and the token itself. *)
Definition createToken (idp : option uuid) (rq : option createTokenReq) : M store (reply (uuid * string)) :=
  match idp with
  | None => mret (WriteError 400 "invalid id")
  | Some id =>
    sa ← db (GetServiceAccount id);
    match sa, rq with
    | Err _, _ => mret (WriteError 404 "no such service account")
    | Ok _, None => mret (WriteError 400 "invalid request body")
    | Ok _, Some rq =>
      let name := TrimSpace (tr_name rq) in
      if str_eqb name "" then mret (WriteError 400 "token name is required")
      else
        exp ← (if 0 <? tr_days rq then now ← time_now; mret (expiry (tr_days rq) now) else mret None);
        t ← NewAPIToken;
        match t with
        | None => mret (WriteError 500 "could not generate token")
        | Some (secret, hash, prefix) =>
          r ← db (CreateAPIToken id name hash prefix (UserID p) exp);
          match r with
          | Err _ => mret (WriteError 500 "could not create token")
          | Ok tid => _ ← audit "service_account.token.create"; mret (WriteJSON 201 (tid, secret))
          end
        end
    end
  end.

Definition revokeToken (idp tokenp : option uuid) : M store (reply unit) :=
  match idp, tokenp with
  | Some id, Some token =>
    r ← db (RevokeAPIToken id token);
    match r with
    | Err _ => mret (WriteError 404 "no such token")
    | Ok _ => _ ← audit "service_account.token.revoke"; mret (WriteJSON 204 tt)
    end
  | _, _ => mret (WriteError 400 "invalid id")
  end.

(** ** The routes, all behind [ServiceAccount.Manage] *)
Inductive request :=
| List | Create (rq : option createReq) | Update (id : option uuid) (rq : option updateReq) | Remove (id : option uuid)
| ListTokens (id : option uuid) | CreateToken (id : option uuid) (rq : option createTokenReq)
| RevokeToken (id token : option uuid).
Definition serve (rq : request) : M store unit :=
  if negb (Has p "ServiceAccount.Manage") then mret tt
  else
    match rq with
    | List => _ ← list_; mret tt
    | Create rq => _ ← create rq; mret tt
    | Update id rq => _ ← update id rq; mret tt
    | Remove id => _ ← remove id; mret tt
    | ListTokens id => _ ← listTokens id; mret tt
    | CreateToken id rq => _ ← createToken id rq; mret tt
    | RevokeToken id token => _ ← revokeToken id token; mret tt
    end.
End handlers.

(** * Proofs: what is given to an account is held by who gives it *)
Section confined.
Context `{!AuthLib} (p : Principal).

(** Every role an account gains grants only what [p] holds, no role grows by more than that, and
    nobody becomes a super administrator. *)
Record gives_own (s s' : store) : Prop := {
  own_roles r k : (r, k) ∈ AuthSession.role_perms (rb s') → (r, k) ∈ AuthSession.role_perms (rb s) ∨ Has p k = true;
  own_users u r : (u, r) ∈ AuthSession.user_roles (rb s') →
    (u, r) ∈ AuthSession.user_roles (rb s) ∨ ∀ k, (r, k) ∈ AuthSession.role_perms (rb s') → Has p k = true;
  own_super u a : users s' !! u = Some a → AuthSession.u_super a = true →
    ∃ b, users s !! u = Some b ∧ AuthSession.u_super b = true;
}.
#[export] Instance gives_own_preorder : PreOrder gives_own.
Proof.
  split; [split; eauto|]. intros s1 s2 s3 [R1 U1 S1] [R2 U2 S2]. split.
  - intros r k Hk. destruct (R2 r k Hk); auto.
  - intros u r Hur. destruct (U2 u r Hur) as [Hur2|]; [|by right].
    destruct (U1 u r Hur2) as [|Hall]; [by left|right]. intros k Hk. destruct (R2 r k Hk); auto.
  - intros u a Ha Hs. destruct (S2 u a Ha Hs) as (b & Hb & Hs2). eauto.
Qed.

(** All that a role grants is held by [p]: nobody falsifies it. *)
Definition grantable (r : uuid) (s : store) : Prop :=
  ∀ k, (r, k) ∈ AuthSession.role_perms (rb s) → Has p k = true.
#[export] Instance grantable_all_stable (l : list uuid) : Stable gives_own (λ s, ∀ r, r ∈ l → grantable r s).
Proof. intros s s' Hg [R _ _] r Hr k Hk. destruct (R r k Hk) as [Hk'|]; [by apply (Hg r Hr)|done]. Qed.

Lemma own_less s s' : users s' = users s → AuthSession.role_perms (rb s') = AuthSession.role_perms (rb s) →
  AuthSession.user_roles (rb s') ⊆ AuthSession.user_roles (rb s) → gives_own s s'.
Proof. intros Hu Hr Hm. split; rewrite ?Hu, ?Hr; eauto. Qed.

Lemma own_CreateServiceAccount n d now s : gives_own s (CreateServiceAccount n d now s).2.
Proof.
  unfold CreateServiceAccount. case_match; [reflexivity|]. split; simpl; eauto.
  intros u a [[_ <-]|[_ Ha]]%lookup_insert_Some; [done|eauto].
Qed.
Lemma own_SetServiceAccountDisabled id d now s : gives_own s (SetServiceAccountDisabled id d now s).2.
Proof.
  unfold SetServiceAccountDisabled. case_match; [|reflexivity]. split; simpl; eauto.
  intros i a. rewrite lookup_alter_Some. intros [(-> & b & Hb & ->)|[_ Ha]] Hs; eauto.
Qed.
Lemma own_DeleteServiceAccount id now s : gives_own s (DeleteServiceAccount id now s).2.
Proof.
  unfold DeleteServiceAccount. case_match; [|reflexivity]. split; simpl; eauto.
  - intros i r [_ ?]%elem_of_filter. by left.
  - intros i a [_ Ha]%lookup_delete_Some. eauto.
Qed.
Lemma own_SetServiceAccountGroups id ids now s : gives_own s (SetServiceAccountGroups id ids now s).2.
Proof. unfold SetServiceAccountGroups. repeat case_match; try reflexivity. by apply own_less. Qed.
Lemma own_CreateAPIToken a n h x c e now s : gives_own s (CreateAPIToken a n h x c e now s).2.
Proof. unfold CreateAPIToken. case_match; [reflexivity|]. by apply own_less. Qed.
Lemma own_RevokeAPIToken a t now s : gives_own s (RevokeAPIToken a t now s).2.
Proof. unfold RevokeAPIToken. repeat case_match; try reflexivity. by apply own_less. Qed.
Lemma own_SetServiceAccountRoles id ids now s : (∀ r, r ∈ ids → grantable r s) →
  gives_own s (SetServiceAccountRoles id ids now s).2.
Proof.
  intros Hg. unfold SetServiceAccountRoles. repeat case_match; try reflexivity. split; simpl; eauto.
  unfold replaced. intros i r [Hin%elem_of_list_to_set|[_ ?]%elem_of_filter]%elem_of_union; [right|by left].
  apply list_elem_of_fmap in Hin as (r' & [= -> ->] & Hr). by apply Hg.
Qed.
Lemma own_audit a o now s : gives_own s (on_auth (Accounts.AppendAudit a o) now s).2.
Proof. by apply own_less. Qed.

Context `{!Env store, !TokenRand, !Relies gives_own}.

#[local] Hint Extern 1 (within gives_own (db _)) =>
  apply within_db; [exact _..|]; intros; first [ reflexivity | apply own_CreateServiceAccount
    | apply own_SetServiceAccountDisabled | apply own_DeleteServiceAccount | apply own_SetServiceAccountGroups
    | apply own_CreateAPIToken | apply own_RevokeAPIToken | apply own_audit ] : within.

Lemma guar_ensure_roles l done :
  guar gives_own (λ s, ∀ r, r ∈ done → grantable r s) (ensure_roles p l)
    (λ o s, o = None → ∀ r, r ∈ done ++ l → grantable r s).
Proof.
  revert done. induction l as [|r l IH]; intros done; cbn [ensure_roles].
  { apply guar_ret; [exact _|]. intros s Hs _. by rewrite app_nil_r. }
  eapply (guar_bind _ _ (λ a s, (∀ r, r ∈ done → grantable r s) ∧ ∀ l, a = Ok l → forallb (Has p) (elements l) = true →
    grantable r s)).
  - apply guar_db; [exact _..|by split|]. intros now s Hs. simpl. split; [by apply own_less|]. split; [done|].
    intros ? [= <-] Hall k Hk. rewrite forallb_forall in Hall. apply Hall, list_elem_of_In, elem_of_elements.
    by apply Accounts.elem_perms_of_role.
  - intros [perms|e]; [|by apply guar_ret; [exact _|]]. destruct (forallb _ _) eqn:Hall; [|by apply guar_ret; [exact _|]].
    eapply guar_conseq; [apply (IH (done ++ [r]))| |].
    + intros s [Hd Hr] r' [Hin| ->%list_elem_of_singleton]%elem_of_app; [by apply Hd|by eapply Hr].
    + intros o s Hq Ho r' Hin. apply Hq; [done|]. by rewrite <- (assoc_L (++)).
Qed.

Lemma guar_ensureCanGrant l :
  guar gives_own (λ _, True) (ensureCanGrant p l) (λ o s, o = None → ∀ r, r ∈ l → grantable r s).
Proof.
  unfold ensureCanGrant. destruct (AuthSession.IsSuperAdmin p) eqn:Hs.
  - apply guar_ret; [exact _|]. intros s _ _ r _ k _. unfold Has. by rewrite Hs.
  - eapply guar_weaken; [apply (guar_ensure_roles l [])|]. intros s _ r []%elem_of_nil.
Qed.
End confined.

Section confined_serve.
Context `{!Env store, !AuthLib, !TokenRand} (p : Principal) `{!Relies (gives_own p)}.

#[local] Ltac own_stmt := intros; first [ reflexivity | apply own_CreateServiceAccount
  | apply own_SetServiceAccountDisabled | apply own_DeleteServiceAccount | apply own_SetServiceAccountGroups
  | apply own_CreateAPIToken | apply own_RevokeAPIToken | apply own_audit | by apply own_SetServiceAccountRoles ].
#[local] Hint Extern 1 (within (gives_own p) (db _)) => apply within_db; [exact _..|]; own_stmt : within.

Lemma within_sa_create rq : within (gives_own p) (create p rq).
Proof.
  unfold create, audit. destruct rq as [rq|]; [|within_tac]. destruct (negb _); [within_tac|].
  apply (guar_bind _ _ (λ o s, o = None → ∀ r, r ∈ cr_roles rq → grantable p r s));
    [exact (guar_ensureCanGrant p _)|]. intros [msg|]; [by apply guar_ret; [exact _|]|].
  eapply (guar_conseq _ _ (λ s, ∀ r, r ∈ cr_roles rq → grantable p r s) _ (λ _ s, ∀ r, r ∈ cr_roles rq → grantable p r s));
    [|by auto|done].
  Accounts.under_tac; own_stmt.
Qed.

Lemma within_sa_update id rq : within (gives_own p) (update p id rq).
Proof.
  unfold update, audit, part, next, or_gone. destruct id as [id|]; [|within_tac]. destruct rq as [rq|]; [|within_tac].
  apply within_bind; [exact _| |intros; within_tac]. destruct (ur_roles rq) as [roles|]; [|within_tac].
  apply (guar_bind _ _ (λ o s, o = None → ∀ r, r ∈ roles → grantable p r s)); [exact (guar_ensureCanGrant p _)|].
  intros [msg|]; [by apply guar_ret; [exact _|]|].
  eapply (guar_conseq _ _ (λ s, ∀ r, r ∈ roles → grantable p r s) _ (λ _ s, ∀ r, r ∈ roles → grantable p r s));
    [|by auto|done].
  Accounts.under_tac; own_stmt.
Qed.
#[local] Hint Resolve within_sa_create within_sa_update : within.

Lemma within_sa_serve rq : within (gives_own p) (serve p rq).
Proof. unfold serve. destruct rq; unfold list_, remove, listTokens, createToken, revokeToken, NewAPIToken, audit; within_tac. Qed.
End confined_serve.

(** C28: no request of an ordinary sender to the service-account routes gives an account a role with a
    permission the sender lacks, adds to a role a permission the sender lacks, or makes a super
    administrator - whatever fails, and whatever else goes on that does none of these. (A super
    administrator holds every permission, so of one it only says that no other is made.) *)
Theorem service_roles_confined `{!Env store, !AuthLib, !TokenRand} p `{!Relies (gives_own p)} rq w :
  gives_own p (w_db w) (w_db (serve p rq w).2).
Proof. by apply within_sa_serve. Qed.

(** * Proofs: people's accounts are out of reach *)
Section people.
Context `{!AuthLib}.

(** The rows, roles and groups of people, the roles and the groups stay. *)
Record people_kept (s s' : store) : Prop := {
  kept_row u a : users s !! u = Some a → AuthSession.u_service a = false →
    users s' !! u = Some a ∧ (∀ r, (u, r) ∈ AuthSession.user_roles (rb s') ↔ (u, r) ∈ AuthSession.user_roles (rb s)) ∧
    (∀ g, (u, g) ∈ user_groups s' ↔ (u, g) ∈ user_groups s);
  kept_roles : AuthSession.roles (rb s') = AuthSession.roles (rb s) ∧
    AuthSession.role_perms (rb s') = AuthSession.role_perms (rb s) ∧ groups s' = groups s;
}.
#[export] Instance people_kept_preorder : PreOrder people_kept.
Proof.
  split; [by split|]. intros s1 s2 s3 [K1 (R1 & P1 & G1)] [K2 (R2 & P2 & G2)]. split; [|split_and!; congruence].
  intros u a Ha Hs. destruct (K1 u a Ha Hs) as (Ha2 & Hr2 & Hg2). destruct (K2 u a Ha2 Hs) as (Ha3 & Hr3 & Hg3).
  split; [done|]. split; intros; [by rewrite Hr3, Hr2|by rewrite Hg3, Hg2].
Qed.

Lemma kept_same s s' : users s' = users s → rb s' = rb s → user_groups s' = user_groups s → groups s' = groups s →
  people_kept s s'.
Proof. intros Hu Hr Hg Hgs. split; rewrite ?Hu, ?Hr, ?Hg, ?Hgs; [|done]. done. Qed.

Lemma is_service_Some id s u : is_service id s = Some u → users s !! id = Some u ∧ AuthSession.u_service u = true.
Proof. unfold is_service. repeat case_match; naive_solver. Qed.

Lemma replaced_other id ids m u x : u ≠ id → (u, x) ∈ replaced id ids m ↔ (u, x) ∈ m.
Proof.
  intros Hne. unfold replaced. rewrite elem_of_union, elem_of_filter, elem_of_list_to_set, list_elem_of_fmap. split.
  - by intros [(? & [= -> ->] & _)|[_ ?]].
  - intros Hx. by right.
Qed.

#[local] Ltac service_row := match goal with Hi : is_service _ _ = Some _ |- _ => apply is_service_Some in Hi as [? ?] end.

Lemma kept_CreateServiceAccount n d now s : people_kept s (CreateServiceAccount n d now s).2.
Proof.
  unfold CreateServiceAccount. destruct (existsb _ _); [reflexivity|]. split; [|done]. simpl. intros u a Ha _.
  split; [|done]. apply lookup_insert_Some. right. split; [|done]. intros <-. by rewrite fresh_lookup in Ha.
Qed.
Lemma kept_SetServiceAccountDisabled id d now s : people_kept s (SetServiceAccountDisabled id d now s).2.
Proof.
  unfold SetServiceAccountDisabled. destruct (is_service _ _) eqn:Hi; [|reflexivity]. service_row. split; [|done].
  simpl. intros i a Ha Hs. split; [|done]. rewrite lookup_alter_ne; [done|]. intros ->. congruence.
Qed.
Lemma kept_DeleteServiceAccount id now s : people_kept s (DeleteServiceAccount id now s).2.
Proof.
  unfold DeleteServiceAccount. destruct (is_service _ _) eqn:Hi; [|reflexivity]. service_row. split; [|done].
  simpl. intros i a Ha Hs. assert (i ≠ id) by (intros ->; congruence). rewrite lookup_delete_ne by done.
  split; [done|]. split; intros x; rewrite elem_of_filter; simpl; naive_solver.
Qed.
Lemma kept_SetServiceAccountRoles id ids now s : people_kept s (SetServiceAccountRoles id ids now s).2.
Proof.
  unfold SetServiceAccountRoles. destruct (is_service _ _) eqn:Hi; [|reflexivity]. case_match; [|reflexivity].
  service_row. split; [|done]. simpl. intros i a Ha Hs. split; [done|]. split; [|done].
  intros r. apply replaced_other. intros ->. congruence.
Qed.
Lemma kept_SetServiceAccountGroups id ids now s : people_kept s (SetServiceAccountGroups id ids now s).2.
Proof.
  unfold SetServiceAccountGroups. destruct (is_service _ _) eqn:Hi; [|reflexivity]. case_match; [|reflexivity].
  service_row. split; [|done]. simpl. intros i a Ha Hs. split; [done|]. split; [done|].
  intros r. apply replaced_other. intros ->. congruence.
Qed.
Lemma kept_CreateAPIToken a n h x c e now s : people_kept s (CreateAPIToken a n h x c e now s).2.
Proof. unfold CreateAPIToken. case_match; [reflexivity|]. by apply kept_same. Qed.
Lemma kept_RevokeAPIToken a t now s : people_kept s (RevokeAPIToken a t now s).2.
Proof. unfold RevokeAPIToken. repeat case_match; try reflexivity. by apply kept_same. Qed.

Context `{!Env store, !TokenRand, !Relies people_kept} (p : Principal).
#[local] Hint Extern 1 (within people_kept (db _)) => apply within_db; [exact _..|]; intros; first
  [ reflexivity | apply kept_CreateServiceAccount | apply kept_SetServiceAccountDisabled | apply kept_DeleteServiceAccount
  | apply kept_SetServiceAccountRoles | apply kept_SetServiceAccountGroups | apply kept_CreateAPIToken
  | apply kept_RevokeAPIToken | by apply kept_same ] : within.

Lemma within_ensure roles : within people_kept (ensure_roles p roles).
Proof. induction roles; cbn [ensure_roles]; within_tac; done. Qed.
#[local] Hint Resolve within_ensure : within.

Lemma within_people_serve rq : within people_kept (serve p rq).
Proof.
  unfold serve. destruct rq; unfold list_, create, update, ensureCanGrant, part, next, or_gone, remove, listTokens,
    createToken, revokeToken, NewAPIToken, audit; within_tac.
Qed.
End people.

(** no request to the service-account routes changes a person's account, roles or groups, even when
    it names that person's id. *)
Theorem people_out_of_reach `{!Env store, !AuthLib, !TokenRand} p `{!Relies people_kept} rq w u a :
  users (w_db w) !! u = Some a → AuthSession.u_service a = false →
  let s' := w_db (serve p rq w).2 in
  users s' !! u = Some a ∧
  (∀ r, (u, r) ∈ AuthSession.user_roles (rb s') ↔ (u, r) ∈ AuthSession.user_roles (rb (w_db w))) ∧
  (∀ g, (u, g) ∈ user_groups s' ↔ (u, g) ∈ user_groups (w_db w)).
Proof. intros Ha Hs. destruct (within_people_serve p rq w I) as [[HK _] _]. by apply HK. Qed.

(** * Proofs: the life of a token *)

(** What the holder of a token is told, from its row. *)
Definition expired (e : option Z) (now : Z) : bool := match e with Some e => e <=? now | None => false end.
Definition token_verdict (t : AuthSession.api_token) (now : Z) (a : AuthSession.store)
    : res AuthSession.auth_err Principal :=
  match AuthSession.users a !! AuthSession.t_account t with
  | Some u =>
    if AuthSession.u_service u && bool_decide (AuthSession.t_revoked t = None) && negb (AuthSession.u_disabled u) &&
       negb (expired (AuthSession.t_expires t) now)
    then Ok (AuthSession.MkPrincipal (AuthSession.t_account t) uuid_nil (AuthSession.u_name u) false
               (AuthSession.perms_of a (AuthSession.t_account t)) false (AuthSession.u_tenant u))
    else Err AuthSession.ErrSessionInvalid
  | None => Err AuthSession.ErrSessionInvalid
  end.

Section verdict.
Context `{!Env AuthSession.store, !Quiet Env0, !AuthLib} (Hdb : ∀ n, db_err n = false).

(** The only row with a digest. *)
Definition sole (tid : uuid) (t : AuthSession.api_token) (hash : string) (a : AuthSession.store) : Prop :=
  AuthSession.api_tokens a !! tid = Some t ∧ AuthSession.t_hash t = hash ∧
  ∀ k b, AuthSession.api_tokens a !! k = Some b → AuthSession.t_hash b = hash → k = tid.

Lemma GetAPITokenByHash_sole tid t hash now a : sole tid t hash a →
  (AuthSession.GetAPITokenByHash hash now a).1 =
  match AuthSession.users a !! AuthSession.t_account t with
  | Some u => if AuthSession.u_service u then Ok (t, u) else Err ErrNotFound
  | None => Err ErrNotFound
  end.
Proof.
  intros (Ht & Hh & Hu). unfold AuthSession.GetAPITokenByHash. cbn [fst].
  set (f := λ kt : uuid * AuthSession.api_token, _).
  assert (∀ x, x ∈ omap f (map_to_list (AuthSession.api_tokens a)) → f (tid, t) = Some x) as Hin.
  { intros x ([k b] & Hkb%elem_of_map_to_list & Hf)%list_elem_of_omap. assert (k = tid) as ->; [|congruence].
    unfold f in Hf. cbn [snd] in Hf. repeat case_match; try done. apply (Hu _ _ Hkb).
    match goal with He : _ && _ = true |- _ => apply andb_true_iff in He as [He _]; by apply str_eqb_eq in He end. }
  assert (∀ x, f (tid, t) = Some x → x ∈ omap f (map_to_list (AuthSession.api_tokens a))) as Hin'.
  { intros x Hx. apply list_elem_of_omap. exists (tid, t). split; [|done]. by apply elem_of_map_to_list. }
  assert (f (tid, t) = match AuthSession.users a !! AuthSession.t_account t with
    | Some u => if AuthSession.u_service u then Some (t, u) else None | None => None end) as Hf.
  { unfold f. cbn [snd]. case_match; [|done]. rewrite Hh. unfold str_eqb. by rewrite bool_decide_true. }
  destruct (omap f _) as [|x l] eqn:Hl; cbn [head].
  - destruct (f (tid, t)) as [x|] eqn:Hx; [by destruct (not_elem_of_nil x); apply Hin'|].
    repeat case_match; naive_solver.
  - rewrite (Hin x) in Hf by (apply list_elem_of_here). repeat case_match; naive_solver.
Qed.

Lemma authenticate_sole tok tid t m a : sole tid t (HashToken tok) a →
  (authenticateAPIToken tok (World m a)).1 = token_verdict t (clock (S m)) a.
Proof.
  intros Hs. unfold authenticateAPIToken, token_verdict. run_step. rewrite Hdb, (GetAPITokenByHash_sole tid t) by done.
  destruct (AuthSession.users a !! _) as [u|]; [|done]. destruct (AuthSession.u_service u); [|done]. run_step.
  change (match AuthSession.t_expires t with Some e => e <=? clock (S m) | None => false end)
    with (expired (AuthSession.t_expires t) (clock (S m))).
  case_bool_decide; destruct (AuthSession.u_disabled u), (expired _ _); cbn [negb orb andb]; try done.
  run_step. by rewrite Hdb.
Qed.

Lemma authenticate_none tok m a :
  (∀ k b, AuthSession.api_tokens a !! k = Some b → AuthSession.t_hash b ≠ HashToken tok) →
  (authenticateAPIToken tok (World m a)).1 = Err AuthSession.ErrSessionInvalid.
Proof.
  intros Hno. destruct (authenticateAPIToken tok (World m a)).1 as [q|e] eqn:Hq.
  - apply AuthSession.authenticateAPIToken_ok in Hq as (_ & _ & k & b & u & x & Hk & Hh & _).
    by destruct (Hno _ _ Hk).
  - revert Hq. unfold authenticateAPIToken. run_step. rewrite Hdb. case_match; [|run_step; congruence].
    case_match. subst. run_step. case_match; [run_step; congruence|]. run_step. by rewrite Hdb.
Qed.
End verdict.

Section lifecycle.
Context `{!Env store, !Quiet Env0, !AuthLib, !TokenRand} (p : Principal) (Hdb : ∀ n, db_err n = false).

Lemma no_clash h (m : gmap uuid AuthSession.api_token) :
  existsb (λ kt, str_eqb (AuthSession.t_hash kt.2) h) (map_to_list m) = false →
  ∀ k b, m !! k = Some b → AuthSession.t_hash b ≠ h.
Proof.
  intros He k b Hb Heq. pose proof (Accounts.existsb_false (λ t, str_eqb (AuthSession.t_hash t) h) m He k b Hb) as Hf.
  cbn beta in Hf. unfold str_eqb in Hf. by rewrite bool_decide_true in Hf.
Qed.

(** A token that was created: a row of its own, nothing else changed. *)
Lemma createToken_row id rq n s tid secret :
  let q := createToken p (Some id) (Some rq) (World n s) in
  q.1 = WriteJSON 201 (tid, secret) →
  let s' := w_db q.2 in let t := AuthSession.ApiToken id (HashToken secret) (expiry (tr_days rq) (clock (S n))) None in
  (∃ u, is_service id s = Some u) ∧ tokens s !! tid = None ∧
  (∀ k b, tokens s !! k = Some b → AuthSession.t_hash b ≠ HashToken secret) ∧
  tokens s' = <[tid := t]> (tokens s) ∧ users s' = users s ∧ rb s' = rb s.
Proof.
  cbn zeta. unfold createToken, NewAPIToken, audit, expiry. run_step. rewrite Hdb. unfold GetServiceAccount, get_row, reading.
  cbn [fst snd]. destruct (is_service id s) as [u|] eqn:Hi; [|done]. cbn [mbind option_bind]. cbn beta iota.
  destruct (str_eqb _ ""); [done|]. destruct (0 <? tr_days rq); run_step.
  all: destruct (token_bytes _) as [b|]; cbn [mbind option_bind]; [|done]; run_step; rewrite Hdb; unfold CreateAPIToken.
  all: destruct (existsb _ _) eqn:He; [done|]; destruct (negb _); [done|]; cbn [orb fst snd]; run_step; rewrite Hdb; run_step.
  all: intros [= <- <-]; split; [by eexists|]; split; [apply fresh_lookup|]; split; [|done].
  all: by apply no_clash.
Qed.
End lifecycle.

Section lifecycle_end.
Context `{!Env store, !Quiet Env0, !AuthLib, !TokenRand} (p : Principal) (Hdb : ∀ n, db_err n = false).
Context `{EA : Env AuthSession.store, !Quiet EA} (HdbA : ∀ n, @db_err _ EA n = false).

Definition refused (tok : string) (s : store) : Prop :=
  ∀ m, (authenticateAPIToken tok (World m (auth s))).1 = Err AuthSession.ErrSessionInvalid.

Lemma refused_sole tid t tok s : sole tid t (HashToken tok) (auth s) →
  (AuthSession.t_revoked t ≠ None ∨ ∀ u, users s !! AuthSession.t_account t = Some u → AuthSession.u_disabled u = true) →
  refused tok s.
Proof.
  intros Hs Hbad m. rewrite (authenticate_sole HdbA tok tid t) by done. unfold token_verdict.
  destruct (users s !! _) as [u|] eqn:Hu; [|done]. case_bool_decide as Hr; [|by rewrite andb_false_r].
  destruct Hbad as [|Hd]; [done|]. rewrite (Hd u eq_refl). by rewrite !andb_false_r.
Qed.

(** The three ways to end a token: revoking it, disabling the account, deleting it. *)
Lemma revoke_ends tid t tok s k : sole tid t (HashToken tok) (auth s) → AuthSession.t_revoked t = None →
  refused tok (w_db (revokeToken p (Some (AuthSession.t_account t)) (Some tid) (World k s)).2).
Proof.
  intros (Ht & Hh & Hu) Hr. unfold revokeToken, audit. run_step. rewrite Hdb. unfold RevokeAPIToken.
  rewrite Ht, !bool_decide_true by done. cbn [andb fst snd]. run_step. rewrite Hdb. cbn [fst snd w_db].
  apply (refused_sole tid (revoked_token (clock (T := store) k) t)); [|by left]. split; [by apply lookup_insert_eq|]. split; [done|].
  simpl. intros j b [[-> _]|[_ Hj]]%lookup_insert_Some Hb; [done|by eapply Hu].
Qed.

Lemma disable_ends tid t tok s k : sole tid t (HashToken tok) (auth s) → is_Some (is_service (AuthSession.t_account t) s) →
  refused tok (w_db (update p (Some (AuthSession.t_account t)) (Some (MkUpdate None (Some true) None None)) (World k s)).2).
Proof.
  intros Hs [u Hi]. unfold update, audit, part, next, or_gone. cbn [ur_roles ur_groups ur_disabled]. run_step. rewrite Hdb.
  unfold SetServiceAccountDisabled. rewrite Hi. apply is_service_Some in Hi as [Hrow Hsv]. unfold on_auth, Accounts.SetDisabled, Accounts.update_row.
  cbn [fst snd]. run_step. rewrite Hdb. run_step. rewrite Hdb. run_step.
  unfold GetServiceAccount, get_row, reading. cbn [fst snd].
  match goal with |- context [match ?o with Some _ => Ok _ | None => _ end] => destruct o end;
    (apply (refused_sole tid t); [exact Hs|right]; simpl; intros v; rewrite lookup_alter_eq, Hrow; by intros [= <-]).
Qed.

Lemma remove_ends tid t tok s k : sole tid t (HashToken tok) (auth s) → is_Some (is_service (AuthSession.t_account t) s) →
  refused tok (w_db (remove p (Some (AuthSession.t_account t)) (World k s)).2).
Proof.
  intros (Ht & Hh & Hu) [u Hi]. unfold remove, audit. run_step. rewrite Hdb. unfold DeleteServiceAccount. rewrite Hi.
  cbn [fst snd]. run_step. rewrite Hdb. cbn [fst snd w_db]. intros m. apply (authenticate_none HdbA). simpl.
  intros j b [Hj Hne]%map_lookup_filter_Some Hb. assert (j = tid) as -> by eauto. simpl in Hne. congruence.
Qed.
End lifecycle_end.

(** a token made for a service account signs its holder in as that account, with the account's roles
    as they then are, for as long as the account is enabled and the token's time has not come; once
    the token is revoked, or the account disabled or deleted, it signs nobody in. *)
Theorem token_lifecycle `{!Env store, !Quiet Env0, !AuthLib, !TokenRand, EA : Env AuthSession.store, !Quiet EA} p id rq n s tid secret :
  (∀ n, db_err (T := store) n = false) → (∀ n, db_err (T := AuthSession.store) n = false) →
  let q := createToken p (Some id) (Some rq) (World n s) in
  q.1 = WriteJSON 201 (tid, secret) →
  let s' := w_db q.2 in
  ∃ u, is_service id s = Some u ∧
    (∀ m, (authenticateAPIToken secret (World m (auth s'))).1 =
       if AuthSession.u_disabled u || expired (expiry (tr_days rq) (clock (T := store) (S n))) (clock (T := AuthSession.store) (S m))
       then Err AuthSession.ErrSessionInvalid
       else Ok (AuthSession.MkPrincipal id uuid_nil (AuthSession.u_name u) false (AuthSession.perms_of (auth s) id) false
                  (AuthSession.u_tenant u))) ∧
    ∀ k, refused secret (w_db (revokeToken p (Some id) (Some tid) (World k s')).2) ∧
         refused secret (w_db (update p (Some id) (Some (MkUpdate None (Some true) None None)) (World k s')).2) ∧
         refused secret (w_db (remove p (Some id) (World k s')).2).
Proof.
  intros Hdb HdbA q Hq s'. destruct (createToken_row p Hdb id rq n s tid secret Hq) as ([u Hi] & Hno & Hclash & Htok & Hus & Hrb).
  fold q s' in Htok, Hus, Hrb. set (t := AuthSession.ApiToken _ _ _ _) in Htok.
  assert (sole tid t (HashToken secret) (auth s')) as Hs.
  { split; [rewrite Htok; apply lookup_insert_eq|]. split; [done|]. rewrite Htok.
    intros k b [[-> _]|[_ Hk]]%lookup_insert_Some Hb; [done|]. by destruct (Hclash k b Hk). }
  assert (is_service id s' = Some u) as Hi' by (unfold is_service; by rewrite Hus).
  exists u. split; [done|]. split.
  - intros m. rewrite (authenticate_sole HdbA secret tid t) by done. unfold token_verdict. rewrite Hus.
    apply is_service_Some in Hi as [Hrow Hsv]. cbn [AuthSession.t_account AuthSession.t_revoked AuthSession.t_expires t].
    unfold AuthSession.perms_of. rewrite Hrow, Hsv, Hrb.
    by destruct (AuthSession.u_disabled u), (expired _ _).
  - intros k. split_and!; [by apply (revoke_ends p Hdb HdbA tid t)|eapply (disable_ends p Hdb HdbA tid t); eauto
      |eapply (remove_ends p Hdb HdbA tid t); eauto].
Qed.

(** * Concrete instances, and what the guards do not cover *)
#[local] Existing Instances quiet_env AuthSession.toy_auth.
#[local] Instance toy_rand : TokenRand := λ n, Some (replicate n Byte.x61).

(** A manager of service accounts (1), an account (2) whose role lets it act as root on hosts, and
    one (3) without roles. *)
Definition toy_manager : Principal :=
  AuthSession.MkPrincipal 1 7 "ada" false {["ServiceAccount.Manage"; "Host.View"]} false 1.
Definition toy_auth_store : AuthSession.store :=
  AuthSession.Store {[1%N := AuthSession.toy_user; 2%N := service_row "deploy" ""; 3%N := service_row "ci" ""]}
    ∅ ∅ None None ∅ ∅
    (AuthSession.Rbac {[4%N := AuthSession.Role "Operator" "" true; 5%N := AuthSession.Role "Viewer" "" true]}
       {["Host.View"; "Host.Sudo"]} {[(4%N, "Host.Sudo"); (5%N, "Host.View")]} {[(2%N, 4%N)]})
    (AuthSession.MfaTables ∅ ∅ ∅ None []) None [].
Definition toy_tables : store := Store toy_auth_store {[6%N := "prod"]} ∅ ∅.

Lemma service_roles_confined_witness :
  let s' := w_db (serve toy_manager (Update (Some 3%N) (Some (MkUpdate None None (Some [5%N]) (Some [6%N])))) (World 0 toy_tables)).2 in
  gives_own toy_manager toy_tables s' ∧ (3%N, 5%N) ∈ AuthSession.user_roles (rb s') ∧ (3%N, 6%N) ∈ user_groups s'.
Proof.
  split; [apply (service_roles_confined toy_manager _ (World 0 toy_tables))|].
  split; (apply (bool_decide_unpack _); by vm_compute).
Defined.

Lemma people_out_of_reach_witness :
  let s' := w_db (serve toy_manager (Remove (Some 1%N)) (World 0 toy_tables)).2 in
  users s' !! 1%N = Some AuthSession.toy_user ∧
  (∀ r, (1%N, r) ∈ AuthSession.user_roles (rb s') ↔ (1%N, r) ∈ AuthSession.user_roles (rb toy_tables)) ∧
  (∀ g, (1%N, g) ∈ user_groups s' ↔ (1%N, g) ∈ user_groups toy_tables).
Proof. by apply (people_out_of_reach toy_manager _ (World 0 toy_tables)). Defined.

Definition toy_token := createToken toy_manager (Some 2%N) (Some (MkTokenReq "x" 1)) (World 0 toy_tables).

(** The caller gives itself, by a token, a permission it may not give to an account. *)
Lemma token_lends_power :
  AuthSession.Has toy_manager "Host.Sudo" = false ∧
  match toy_token.1 with
  | WriteJSON _ (_, secret) =>
    match (authenticateAPIToken secret (World 0 (auth (w_db toy_token.2)))).1 with
    | Ok q => AuthSession.Has q "Host.Sudo"
    | Err _ => false
    end
  | _ => false
  end = true ∧
  (update toy_manager (Some 3%N) (Some (MkUpdate None None (Some [4%N]) None)) (World 0 toy_tables)).1 =
    WriteError 403 "you cannot grant a role that includes permissions you do not hold".
Proof. by vm_compute. Qed.

Lemma token_lifecycle_witness :
  ∃ tid secret, toy_token.1 = WriteJSON 201 (tid, secret) ∧
  ∀ m, (authenticateAPIToken secret (World m (auth (w_db toy_token.2)))).1 =
    if expired (expiry 1 1) (clock (T := AuthSession.store) (S m)) then Err AuthSession.ErrSessionInvalid
    else Ok (AuthSession.MkPrincipal 2%N uuid_nil "deploy" false (AuthSession.perms_of toy_auth_store 2) false 1%N).
Proof.
  destruct toy_token.1 as [c msg|c [tid secret]] eqn:E; [by vm_compute in E|]. exists tid, secret.
  assert (c = 201) as -> by (by vm_compute in E; injection E). split; [done|].
  destruct (token_lifecycle toy_manager 2 (MkTokenReq "x" 1) 0 toy_tables tid secret) as (u & Hu & Hm & _); [done..|].
  vm_compute in Hu. injection Hu as <-. exact Hm.
Defined.

(** A token for 106752 days - 293 years - expires before it is made: the duration wraps. *)
Lemma long_expiry_is_past now : ∃ e, expiry 106752 now = Some e ∧ e < now - 290 * 365 * day.
Proof. eexists. split; [reflexivity|]. set (w := wrap64 _). vm_compute in w. unfold day, hour, minute, second. lia. Qed.
