(* ===== verification/Binary64.v ===== *)
(** Go's [float64]: IEEE 754 binary64 with rounding to nearest even, computed by the standard
    library's [SpecFloat], and the conversions of package [time] that give one. *)
From S2P Require Import Prelude.
From Stdlib Require Export SpecFloat.

Abbreviation float64 := spec_float.
#[export] Instance spec_float_eq_dec : EqDecision spec_float.
Proof. solve_decision. Defined.

(** [float64(z)] of an integer. *)
Definition f_of_Z (z : Z) : float64 := binary_normalize 53 1024 z 0 false.
Definition fadd : float64 → float64 → float64 := SFadd 53 1024.
Definition fsub : float64 → float64 → float64 := SFsub 53 1024.
Definition fmul : float64 → float64 → float64 := SFmul 53 1024.
Definition fdiv : float64 → float64 → float64 := SFdiv 53 1024.

(** [Duration.Seconds] and [Duration.Hours] *)
Definition Seconds (d : Z) : float64 :=
  fadd (f_of_Z (Z.quot d second)) (fdiv (f_of_Z (Z.rem d second)) (f_of_Z second)).
Definition Hours (d : Z) : float64 :=
  fadd (f_of_Z (Z.quot d hour)) (fdiv (f_of_Z (Z.rem d hour)) (f_of_Z hour)).

Example Seconds_half : Seconds (3 * second + second / 2) = fdiv (f_of_Z 7) (f_of_Z 2).
Proof. by vm_compute. Qed.
