(* ===== verification/NetGuard.v ===== *)
(** Addresses and the guard on outgoing connections: the parts of Go's [net] package the program
    uses, and [ssrf/ssrf.go].

    An address is its 4 or 16 bytes. Name resolution, connecting and the remote end's answers are
    the environment: they may change from one call to the next. *)
From S2P Require Import Prelude GoStrings SecretBox.
From Stdlib Require Import Strings.Ascii Strings.Byte.

(** * Package [net] *)
Abbreviation bytes := (list Byte.byte).
Abbreviation IP := (list Byte.byte).
Definition bz (b : Byte.byte) : Z := Z.of_N (Byte.to_N b).

Definition v4InV6Prefix : bytes := [x00; x00; x00; x00; x00; x00; x00; x00; x00; x00; xff; xff].
Definition IPv6loopback : IP := [x00; x00; x00; x00; x00; x00; x00; x00; x00; x00; x00; x00; x00; x00; x00; x01].
Definition IPv6unspecified : IP := [x00; x00; x00; x00; x00; x00; x00; x00; x00; x00; x00; x00; x00; x00; x00; x00].

(** The four bytes of an IPv4 address in either form. *)
Definition To4 (ip : IP) : option bytes :=
  if bool_decide (length ip = 4%nat) then Some ip
  else if bool_decide (length ip = 16%nat) && bool_decide (take 12 ip = v4InV6Prefix) then Some (drop 12 ip)
  else None.
Definition nth_Z (i : nat) (ip : bytes) : Z := bz (nth i ip x00).

Definition IsUnspecified (ip : IP) : bool :=
  bool_decide (To4 ip = Some [x00; x00; x00; x00]) || bool_decide (ip = IPv6unspecified).
Definition IsLoopback (ip : IP) : bool :=
  match To4 ip with
  | Some ip4 => nth_Z 0 ip4 =? 127
  | None => bool_decide (ip = IPv6loopback)
  end.
Definition IsMulticast (ip : IP) : bool :=
  match To4 ip with
  | Some ip4 => Z.land (nth_Z 0 ip4) 0xf0 =? 0xe0
  | None => bool_decide (length ip = 16%nat) && (nth_Z 0 ip =? 0xff)
  end.
Definition IsLinkLocalMulticast (ip : IP) : bool :=
  match To4 ip with
  | Some ip4 => (nth_Z 0 ip4 =? 224) && (nth_Z 1 ip4 =? 0) && (nth_Z 2 ip4 =? 0)
  | None => bool_decide (length ip = 16%nat) && (nth_Z 0 ip =? 0xff) && (Z.land (nth_Z 1 ip) 0x0f =? 0x02)
  end.
Definition IsLinkLocalUnicast (ip : IP) : bool :=
  match To4 ip with
  | Some ip4 => (nth_Z 0 ip4 =? 169) && (nth_Z 1 ip4 =? 254)
  | None => bool_decide (length ip = 16%nat) && (nth_Z 0 ip =? 0xfe) && (Z.land (nth_Z 1 ip) 0xc0 =? 0x80)
  end.

(** The first and the last index of a byte. *)
Fixpoint IndexByte (c : ascii) (s : string) : option nat :=
  match s with
  | EmptyString => None
  | String d t => if Ascii.eqb d c then Some O else S <$> IndexByte c t
  end.
Fixpoint LastIndexByte (c : ascii) (s : string) : option nat :=
  match s with
  | EmptyString => None
  | String d t =>
    match LastIndexByte c t with
    | Some i => Some (S i)
    | None => if Ascii.eqb d c then Some O else None
    end
  end.
Definition has_byte (c : ascii) (s : string) : bool := bool_decide (is_Some (IndexByte c s)).
Fixpoint str_take (n : nat) (s : string) : string :=
  match n, s with S n, String c t => String c (str_take n t) | _, _ => "" end.

(** [net.SplitHostPort]: host and port. *)
Definition SplitHostPort (hostport : string) : option (string * string) :=
  match LastIndexByte ":" hostport with
  | None => None
  | Some i =>
    let finish (host : string) (j k : nat) :=
      if has_byte "[" (str_drop j hostport) || has_byte "]" (str_drop k hostport) then None
      else Some (host, str_drop (S i) hostport) in
    if has_prefix "[" hostport then
      match IndexByte "]" hostport with
      | None => None
      | Some e => if bool_decide (S e = i) then finish (str_take (e - 1) (str_drop 1 hostport)) 1%nat (S e) else None
      end
    else
      let host := str_take i hostport in
      if has_byte ":" host then None else finish host 0%nat 0%nat
  end.
Definition JoinHostPort (host port : string) : string :=
  if has_byte ":" host then "[" +:+ host +:+ "]:" +:+ port else host +:+ ":" +:+ port.

(** * [ssrf/ssrf.go] *)
Definition disallowed (ip : IP) : bool :=
  IsLoopback ip || IsLinkLocalUnicast ip || IsLinkLocalMulticast ip || IsUnspecified ip || IsMulticast ip.

(** What is outside the process. [lookup]: the resolver's answer at an instant, [None] for a failure;
    [connects]: whether an address takes a connection; [url_parse]: scheme, host name, and the
    address [net/http] dials for it. [answer]: the response to a request to a URL, on a connection
    to an address: a redirect to a URL, or a final status. *)
Inductive response := Redirect (location : string) | Status (code : Z).
Class Net := {
  lookup_ip : nat → string → option (list IP);
  connects : nat → IP → string → bool;
  url_parse : string → option (string * string * string);
  answer : nat → string → IP → response;
}.

(** The instant, and the addresses connected to, or tried, so far. *)
Record net_state := NetState { n_tick : nat; n_dials : list (IP * string) }.
Definition NetM (A : Type) : Type := net_state → A * net_state.
#[export] Instance N_ret : MRet NetM := λ A a s, (a, s).
#[export] Instance N_bind : MBind NetM := λ A B f m s, let '(a, s') := m s in f a s'.

Section ssrf.
Context `{!Net}.

Definition LookupIP (host : string) : NetM (option (list IP)) :=
  λ s, (lookup_ip (n_tick s) host, NetState (S (n_tick s)) (n_dials s)).
(** Connecting to an address: no name is resolved. *)
Definition dial_ip (ip : IP) (port : string) : NetM bool :=
  λ s, (connects (n_tick s) ip port, NetState (S (n_tick s)) (n_dials s ++ [(ip, port)])).

(** [None] when the host may be used. *)
Definition ValidateHost (host : string) : NetM (option string) :=
  if str_eqb host "" then mret (Some "missing host")
  else
    r ← LookupIP host;
    mret (match r with
          | None | Some [] => Some "could not resolve host"
          | Some ips => if existsb disallowed ips then Some "host resolves to a disallowed address" else None
          end).
Definition ValidateURL (raw : string) : NetM (option string) :=
  match url_parse (TrimSpace raw) with
  | None => mret (Some "invalid URL")
  | Some (scheme, host, _) =>
    if negb (str_eqb scheme "http") && negb (str_eqb scheme "https") then mret (Some "URL scheme must be http or https")
    else ValidateHost host
  end.
Definition ValidateHostPort (addr : string) : NetM (option string) :=
  ValidateHost (match SplitHostPort (TrimSpace addr) with Some (host, _) => host | None => TrimSpace addr end).

(** The addresses one after the other; [None] when none answers. *)
Fixpoint dial_each (ips : list IP) (port : string) : NetM (option IP) :=
  match ips with
  | [] => mret None
  | ip :: ips => ok ← dial_ip ip port; if (ok : bool) then mret (Some ip) else dial_each ips port
  end.

Definition safeDialContext (addr : string) : NetM (option IP) :=
  match SplitHostPort addr with
  | None => mret None
  | Some (host, port) =>
    r ← LookupIP host;
    match r with
    | None | Some [] => mret None
    | Some ips => if existsb disallowed ips then mret None else dial_each ips port
    end
  end.

(** The dialer of the standard library, which resolves the name itself. *)
Definition plain_dial (addr : string) : NetM (option IP) :=
  match SplitHostPort addr with
  | None => mret None
  | Some (host, port) =>
    r ← LookupIP host;
    match r with None => mret None | Some ips => dial_each ips port end
  end.

Definition CheckRedirect (url : string) (via : list string) : NetM (option string) :=
  if bool_decide (5 ≤ length via)%nat then mret (Some "too many redirects") else ValidateURL url.

(** [http.Client.Do] with the client of [SafeClient]: the requests made so far are [via]; each is
    made on a connection of its own. *)
Fixpoint Do (fuel : nat) (via : list string) (url : string) : NetM (option (res string Z) * list string) :=
  match fuel with
  | O => mret (None, via)
  | S fuel =>
    match url_parse url with
    | None => mret (Some (Err "invalid URL"), via)
    | Some (_, _, addr) =>
      c ← safeDialContext addr;
      match c with
      | None => mret (Some (Err "dial"), via ++ [url])
      | Some ip =>
        a ← (λ s, (answer (n_tick s) url ip, NetState (S (n_tick s)) (n_dials s)));
        match a with
        | Status code => mret (Some (Ok code), via ++ [url])
        | Redirect location =>
          e ← CheckRedirect location (via ++ [url]);
          match e with
          | Some e => mret (Some (Err e), via ++ [url])
          | None => Do fuel (via ++ [url]) location
          end
        end
      end
    end
  end.

(** A request as its users make it: validated, then made. *)
Definition guarded_request (url : string) : NetM (option (res string Z) * list string) :=
  e ← ValidateURL url;
  match e with Some e => mret (Some (Err e), []) | None => Do 5 [] url end.
End ssrf.

(** * Proofs: host and port *)
Lemma has_byte_cons c d s : has_byte c (String d s) = Ascii.eqb d c || has_byte c s.
Proof.
  unfold has_byte. cbn [IndexByte]. destruct (Ascii.eqb d c); [by apply bool_decide_eq_true|]. cbn [orb].
  apply bool_decide_ext. by rewrite fmap_is_Some.
Qed.
Lemma has_byte_app c a b : has_byte c (a +:+ b) = has_byte c a || has_byte c b.
Proof.
  induction a as [|d a IH]; [done|]. change (String d a +:+ b) with (String d (a +:+ b)).
  by rewrite !has_byte_cons, IH, orb_assoc.
Qed.
Lemma LastIndexByte_none c s : has_byte c s = false → LastIndexByte c s = None.
Proof.
  induction s as [|d s IH]; [done|]. rewrite has_byte_cons. intros [Hd Hs]%orb_false_iff. simpl.
  by rewrite IH, Hd.
Qed.
Lemma LastIndexByte_app c a p : has_byte c p = false → LastIndexByte c (a +:+ String c p) = Some (String.length a).
Proof.
  intros Hp. induction a as [|d a IH].
  - simpl. by rewrite LastIndexByte_none, Ascii.eqb_refl.
  - change (String d a +:+ String c p) with (String d (a +:+ String c p)). simpl. by rewrite IH.
Qed.
Lemma IndexByte_app c a p : has_byte c a = false → IndexByte c (a +:+ String c p) = Some (String.length a).
Proof.
  induction a as [|d a IH]; [intros _; simpl; by rewrite Ascii.eqb_refl|]. rewrite has_byte_cons.
  intros [Hd Ha]%orb_false_iff. change (String d a +:+ String c p) with (String d (a +:+ String c p)). simpl.
  by rewrite Hd, IH.
Qed.
Lemma str_take_app a b : str_take (String.length a) (a +:+ b) = a.
Proof. induction a as [|d a IH]; [by destruct b|]. simpl. f_equal. apply IH. Qed.
Lemma str_drop_S n c s : str_drop (S n) (String c s) = str_drop n s.
Proof. done. Qed.
Lemma str_drop_0 s : str_drop 0 s = s.
Proof. by destruct s. Qed.
Lemma str_drop_len1 a b : str_drop (S (String.length a)) (a +:+ b) = str_drop 1 b.
Proof. by induction a. Qed.
Lemma str_drop_len2 a b : str_drop (S (S (String.length a))) (a +:+ b) = str_drop 2 b.
Proof. by induction a. Qed.
Lemma str_length_app a b : String.length (a +:+ b) = (String.length a + String.length b)%nat.
Proof. induction a as [|c a IH]; [done|]. simpl. by rewrite <- IH. Qed.

Definition plain_host (h : string) : bool := negb (has_byte "[" h) && negb (has_byte "]" h).

(** an address made of a host and a port is split into that host and that port, whether or not the
    host is an IPv6 address. *)
Theorem split_join_host_port h p : plain_host h = true → plain_host p = true → has_byte ":" p = false →
  SplitHostPort (JoinHostPort h p) = Some (h, p).
Proof.
  unfold plain_host. intros [Hh1%negb_true_iff Hh2%negb_true_iff]%andb_true_iff
    [Hp1%negb_true_iff Hp2%negb_true_iff]%andb_true_iff Hp.
  unfold JoinHostPort, SplitHostPort. destruct (has_byte ":" h) eqn:Hc.
  - change ("[" +:+ h +:+ "]:" +:+ p) with (String "[" (h +:+ String "]" (String ":" p))).
    assert (LastIndexByte ":" (String "[" (h +:+ String "]" (String ":" p))) = Some (S (S (String.length h)))) as ->.
    { change (String "]" (String ":" p)) with ("]" +:+ String ":" p). rewrite str_app_assoc.
      change (String "[" ((h +:+ "]") +:+ String ":" p)) with (("[" +:+ h +:+ "]") +:+ String ":" p).
      rewrite LastIndexByte_app by done. do 2 f_equal. rewrite !str_length_app. simpl. lia. }
    assert (IndexByte "]" (String "[" (h +:+ String "]" (String ":" p))) = Some (S (String.length h))) as ->.
    { cbn [IndexByte]. change (Ascii.eqb "[" "]") with false. cbn [fmap option_fmap option_map].
      by rewrite IndexByte_app. }
    change (has_prefix "[" (String "[" (h +:+ String "]" (String ":" p)))) with true.
    rewrite bool_decide_true by done. rewrite !str_drop_S, str_drop_0, str_drop_len1, str_drop_len2, !str_drop_S, !str_drop_0.
    rewrite has_byte_app, !has_byte_cons, Hh1, Hp1, Hp2. cbn [orb Ascii.eqb].
    replace (S (String.length h) - 1)%nat with (String.length h) by lia. by rewrite str_take_app.
  - change (h +:+ ":" +:+ p) with (h +:+ String ":" p). rewrite LastIndexByte_app by done.
    replace (has_prefix "[" (h +:+ String ":" p)) with false.
    2:{ destruct h as [|c h]; [done|]. rewrite has_byte_cons in Hh1. apply orb_false_iff in Hh1 as [Hb _].
        change (String c h +:+ String ":" p) with (String c (h +:+ String ":" p)). cbn [has_prefix].
        by rewrite Ascii.eqb_sym, Hb. }
    rewrite str_take_app, Hc, !str_drop_0, str_drop_len1, str_drop_S, str_drop_0.
    by rewrite !has_byte_app, !has_byte_cons, Hh1, Hh2, Hp1, Hp2.
Qed.

Lemma split_join_host_port_witness : SplitHostPort (JoinHostPort "fe80::1" "443") = Some ("fe80::1", "443").
Proof. by apply (split_join_host_port "fe80::1" "443"). Defined.

(** * Proofs: what is refused, as a list of networks *)
Definition byte_bits (b : Byte.byte) : list bool := Z.testbit (bz b) <$> [7; 6; 5; 4; 3; 2; 1; 0].
Definition bits (ip : bytes) : list bool := ip ≫= byte_bits.
(** A network: an address and the number of leading bits that count. *)
Definition in_block (ip : IP) (block : IP * nat) : bool :=
  bool_decide (length ip = length block.1) && bool_decide (take block.2 (bits ip) = take block.2 (bits block.1)).

(** 127.0.0.0/8, 169.254.0.0/16, 224.0.0.0/4 and 0.0.0.0, the same inside ::ffff:0:0/96, and ::1,
    ::, fe80::/10 and ff00::/8. *)
Definition blocks4 : list (IP * nat) :=
  [([x7f; x00; x00; x00], 8%nat); ([xa9; xfe; x00; x00], 16%nat); ([xe0; x00; x00; x00], 4%nat);
   ([x00; x00; x00; x00], 32%nat)].
Definition blocks6 : list (IP * nat) :=
  [(IPv6loopback, 128%nat); (IPv6unspecified, 128%nat); (xfe :: x80 :: replicate 14 x00, 10%nat);
   (xff :: replicate 15 x00, 8%nat)].
Definition blocklist : list (IP * nat) :=
  blocks4 ++ ((λ b, (v4InV6Prefix ++ b.1, 96 + b.2)%nat) <$> blocks4) ++ blocks6.

Definition of_bits (l : list bool) : Z := foldl (λ z b, 2 * z + Z.b2z b) 0 l.
Lemma of_byte_bits b : of_bits (byte_bits b) = bz b.
Proof. by destruct b. Qed.
Lemma bz_inj a b : bz a = bz b → a = b.
Proof.
  intros H%N2Z.inj. apply (f_equal Byte.of_N) in H. rewrite !Byte.of_to_N in H. congruence.
Qed.
Lemma byte_bits_inj a b : byte_bits a = byte_bits b → a = b.
Proof. intros H. apply bz_inj. by rewrite <- !of_byte_bits, H. Qed.
Lemma byte_bits_eqb a b : bool_decide (byte_bits a = byte_bits b) = (bz a =? bz b).
Proof.
  destruct (Z.eqb_spec (bz a) (bz b)) as [H|H].
  - apply bool_decide_eq_true. by rewrite (bz_inj a b).
  - apply bool_decide_eq_false. intros Hb. apply H. by rewrite (byte_bits_inj a b).
Qed.

Lemma bits_cons b ip : bits (b :: ip) = byte_bits b ++ bits ip.
Proof. done. Qed.
Lemma bits_app a b : bits (a ++ b) = bits a ++ bits b.
Proof. apply bind_app. Qed.
Lemma length_bits ip : length (bits ip) = (8 * length ip)%nat.
Proof. induction ip as [|b ip IH]; [done|]. rewrite bits_cons, length_app, IH. simpl. lia. Qed.
Lemma bits_inj a b : length a = length b → bits a = bits b → a = b.
Proof.
  revert b. induction a as [|x a IH]; intros [|y b]; try done. rewrite !bits_cons. intros [= Hl] H.
  apply app_inj_1 in H as [Hx Hb]; [|done]. f_equal; [by apply byte_bits_inj|by apply IH].
Qed.
Lemma bool_decide_app {A} `{!EqDecision A} (a a' b b' : list A) : length a = length a' →
  bool_decide (a ++ b = a' ++ b') = bool_decide (a = a') && bool_decide (b = b').
Proof.
  intros Hl. rewrite <- bool_decide_and. apply bool_decide_ext. split; [|by intros [-> ->]].
  intros H. by apply app_inj_1 in H.
Qed.

(** A network inside ::ffff:0:0/96. *)
Lemma in_block_mapped (ip b : IP) n : length ip = 16%nat → length b = 4%nat →
  in_block ip (v4InV6Prefix ++ b, (96 + n)%nat) = bool_decide (take 12 ip = v4InV6Prefix) && in_block (drop 12 ip) (b, n).
Proof.
  intros Hi Hb. unfold in_block. cbn [fst snd]. rewrite length_app, Hb, length_drop, Hi.
  rewrite (bool_decide_true (16%nat = _)), (bool_decide_true ((16 - 12)%nat = _)) by done. cbn [andb].
  assert (length (take 12 ip) = 12%nat) as Ht by (rewrite length_take; lia).
  assert (length v4InV6Prefix = 12%nat) as Hv by done.
  rewrite <- bool_decide_and. apply bool_decide_ext. rewrite <- (take_drop 12 ip) at 1. rewrite !bits_app, !take_app.
  replace (96 + n - length (bits (take 12 ip)))%nat with n by (rewrite length_bits, Ht; lia).
  replace (96 + n - length (bits v4InV6Prefix))%nat with n by (rewrite length_bits, Hv; lia).
  rewrite (take_ge (bits (take 12 ip))), (take_ge (bits v4InV6Prefix)) by (rewrite length_bits, ?Ht, ?Hv; lia). split; [|by intros [-> ->]].
  intros [Hp Hr]%app_inj_1; [|by rewrite !length_bits, Ht]. split; [by apply bits_inj|done].
Qed.

Lemma top_nibble b : bool_decide (take 4 (byte_bits b) = [true; true; true; false]) = (Z.land (bz b) 0xf0 =? 0xe0).
Proof. by destruct b. Qed.
Lemma top_two b : bool_decide (take 2 (byte_bits b) = [true; false]) = (Z.land (bz b) 0xc0 =? 0x80).
Proof. by destruct b. Qed.

Definition dis4 (a b c d : Byte.byte) : bool :=
  (bz a =? 127) || ((bz a =? 169) && (bz b =? 254)) || (Z.land (bz a) 0xf0 =? 0xe0) ||
  ((bz a =? 0) && (bz b =? 0) && (bz c =? 0) && (bz d =? 0)).
Lemma take8 a l b l' : bool_decide (take 8 (bits (a :: l)) = take 8 (bits (b :: l'))) = (bz a =? bz b).
Proof. exact (byte_bits_eqb a b). Qed.
Lemma take16 a b l c d l' : bool_decide (take 16 (bits (a :: b :: l)) = take 16 (bits (c :: d :: l'))) =
  (bz a =? bz c) && (bz b =? bz d).
Proof. rewrite <- !byte_bits_eqb. exact (bool_decide_app (byte_bits a) (byte_bits c) (byte_bits b) (byte_bits d) eq_refl). Qed.
Lemma take4 a l l' : bool_decide (take 4 (bits (a :: l)) = take 4 (bits (xe0 :: l'))) = (Z.land (bz a) 0xf0 =? 0xe0).
Proof. exact (top_nibble a). Qed.
Lemma take10 a b l l' : bool_decide (take 10 (bits (a :: b :: l)) = take 10 (bits (xfe :: x80 :: l'))) =
  (bz a =? 0xfe) && (Z.land (bz b) 0xc0 =? 0x80).
Proof.
  rewrite <- top_two. change 0xfe with (bz xfe). rewrite <- byte_bits_eqb.
  exact (bool_decide_app (byte_bits a) (byte_bits xfe) (take 2 (byte_bits b)) [true; false] eq_refl).
Qed.
Lemma take_all n ip b : length ip = length b → (8 * length b ≤ n)%nat →
  bool_decide (take n (bits ip) = take n (bits b)) = bool_decide (ip = b).
Proof.
  intros Hl Hn. apply bool_decide_ext. rewrite !take_ge by (rewrite length_bits; lia).
  split; [by apply bits_inj|by intros ->].
Qed.

Lemma zeros4 a b c d : bool_decide ([a; b; c; d] = [x00; x00; x00; x00]) = (bz a =? 0) && (bz b =? 0) && (bz c =? 0) && (bz d =? 0).
Proof.
  assert (∀ x, (bz x =? 0) = bool_decide (x = x00)) as Hx by (by intros []).
  rewrite !Hx, <- !bool_decide_and. apply bool_decide_ext. naive_solver.
Qed.

Lemma blocks4_spec a b c d : existsb (in_block [a; b; c; d]) blocks4 = dis4 a b c d.
Proof.
  unfold blocks4, in_block, dis4. cbn [existsb fst snd length]. rewrite !bool_decide_true by done. cbn [andb].
  rewrite take8, take16, take4, (take_all 32), zeros4, orb_false_r by (simpl; lia).
  by rewrite !orb_assoc.
Qed.

Lemma blocks6_short ip : length ip ≠ 16%nat → existsb (in_block ip) blocks6 = false.
Proof.
  intros Hl. assert (∀ b : IP, length b = 16%nat → bool_decide (length ip = length b) = false) as Hf.
  { intros b Hb. apply bool_decide_eq_false. lia. }
  unfold blocks6, in_block. cbn [existsb fst snd]. by rewrite !Hf.
Qed.
Lemma mapped_existsb ip l : length ip = 16%nat → Forall (λ b : IP * nat, length b.1 = 4%nat) l →
  existsb (in_block ip) ((λ b, (v4InV6Prefix ++ b.1, 96 + b.2)%nat) <$> l) =
  bool_decide (take 12 ip = v4InV6Prefix) && existsb (in_block (drop 12 ip)) l.
Proof.
  intros Hl Hf. induction Hf as [|[b n] l Hb Hf IH]; [by rewrite andb_false_r|].
  rewrite fmap_cons. cbn [existsb fst snd]. rewrite IH, in_block_mapped by done. by rewrite andb_orb_distrib_r.
Qed.

Lemma blocks6_spec ip : length ip = 16%nat → existsb (in_block ip) blocks6 =
  bool_decide (ip = IPv6loopback) || bool_decide (ip = IPv6unspecified) ||
  ((nth_Z 0 ip =? 0xfe) && (Z.land (nth_Z 1 ip) 0xc0 =? 0x80)) || (nth_Z 0 ip =? 0xff).
Proof.
  intros Hl. destruct ip as [|a [|b ip]]; [done..|].
  unfold blocks6, in_block. cbn [existsb fst snd replicate].
  assert (∀ c : IP, length c = 16%nat → bool_decide (length (a :: b :: ip) = length c) = true) as Ht.
  { intros c Hc. apply bool_decide_eq_true. lia. }
  rewrite !Ht by done. cbn [andb]. rewrite take8, take10, !(take_all 128) by (rewrite ?Hl; simpl; lia).
  rewrite orb_false_r, !orb_assoc. done.
Qed.
Lemma blocks4_long ip : length ip ≠ 4%nat → existsb (in_block ip) blocks4 = false.
Proof.
  intros Hl. assert (∀ b : IP, length b = 4%nat → bool_decide (length ip = length b) = false) as Hf.
  { intros b Hb. apply bool_decide_eq_false. lia. }
  unfold blocks4, in_block. cbn [existsb fst snd]. by rewrite !Hf.
Qed.
Lemma mapped_long ip : length ip ≠ 16%nat →
  existsb (in_block ip) ((λ b, (v4InV6Prefix ++ b.1, 96 + b.2)%nat) <$> blocks4) = false.
Proof.
  intros Hl. assert (∀ b : IP, length b = 16%nat → bool_decide (length ip = length b) = false) as Hf.
  { intros b Hb. apply bool_decide_eq_false. lia. }
  unfold blocks4, in_block. rewrite !fmap_cons, fmap_nil. cbn [existsb fst snd]. by rewrite !Hf.
Qed.

(** The code's test of an IPv4 address. *)
Lemma disallowed_dis4 ip a b c d : To4 ip = Some [a; b; c; d] → ip ≠ IPv6unspecified → disallowed ip = dis4 a b c d.
Proof.
  intros Ht Hu. unfold disallowed, IsLoopback, IsLinkLocalUnicast, IsLinkLocalMulticast, IsUnspecified, IsMulticast.
  rewrite Ht, (bool_decide_false (ip = _)) by done. unfold dis4, nth_Z. cbn [nth].
  replace (bool_decide (Some [a; b; c; d] = Some [x00; x00; x00; x00]))
    with ((bz a =? 0) && (bz b =? 0) && (bz c =? 0) && (bz d =? 0)).
  2:{ rewrite <- zeros4. apply bool_decide_ext. split; [by intros ->|congruence]. }
  rewrite orb_false_r.
  assert (((bz a =? 224) && (bz b =? 0) && (bz c =? 0)) = true → (Z.land (bz a) 0xf0 =? 0xe0) = true) as Hce.
  { by intros [[->%Z.eqb_eq _]%andb_true_iff _]%andb_true_iff. }
  destruct (bz a =? 127), ((bz a =? 169) && _), ((bz a =? 224) && _ && _), ((bz a =? 0) && _ && _ && _),
    (Z.land _ _ =? _); try done; by specialize (Hce eq_refl).
Qed.

Lemma disallowed_mapped ip : length ip = 16%nat → take 12 ip = v4InV6Prefix →
  disallowed ip = bool_decide (take 12 ip = v4InV6Prefix) && existsb (in_block (drop 12 ip)) blocks4 ||
    (bool_decide (ip = IPv6loopback) || bool_decide (ip = IPv6unspecified) ||
     ((nth_Z 0 ip =? 0xfe) && (Z.land (nth_Z 1 ip) 0xc0 =? 0x80)) || (nth_Z 0 ip =? 0xff)).
Proof.
  intros Hl Hp. rewrite (bool_decide_true (take 12 ip = _)) by done. cbn [andb].
  assert (length (drop 12 ip) = 4%nat) as Hd by (rewrite length_drop; lia).
  assert (To4 ip = Some (drop 12 ip)) as Ht.
  { unfold To4. rewrite bool_decide_false by lia. by rewrite !bool_decide_true. }
  rewrite <- (take_drop 12 ip) in Ht |- *. rewrite Hp in Ht |- *. revert Ht Hd.
  destruct (drop 12 ip) as [|a [|b [|c [|d [|]]]]]; try done. intros Ht _.
  rewrite (disallowed_dis4 _ a b c d) by done. 
  change (drop 12 (v4InV6Prefix ++ [a; b; c; d])) with [a; b; c; d]. rewrite blocks4_spec.
  rewrite !(bool_decide_false (v4InV6Prefix ++ _ = _)) by done. by rewrite orb_false_r.
Qed.

(** C30: an address of either family is refused by the guard exactly when it lies in one of the networks
    of the list. *)
Theorem disallowed_is_blocklist ip : length ip = 4%nat ∨ length ip = 16%nat →
  disallowed ip = existsb (in_block ip) blocklist.
Proof.
  intros Hl. unfold blocklist. rewrite !existsb_app. destruct (decide (length ip = 4%nat)) as [H4|H4].
  - rewrite mapped_long, blocks6_short, !orb_false_r by lia.
    destruct ip as [|a [|b [|c [|d [|]]]]]; try done. rewrite blocks4_spec. by apply disallowed_dis4.
  - destruct Hl as [|H16]; [done|]. rewrite blocks4_long by done. rewrite mapped_existsb by first [done | repeat constructor].
    rewrite blocks6_spec by done. cbn [orb].
    destruct (decide (take 12 ip = v4InV6Prefix)) as [Hp|Hp].
    + by apply disallowed_mapped.
    + rewrite bool_decide_false by done. cbn [andb orb].
      assert (To4 ip = None) as Ht by (unfold To4; rewrite bool_decide_false, (bool_decide_false (take 12 ip = _)) by done; by rewrite andb_false_r).
      unfold disallowed, IsLoopback, IsLinkLocalUnicast, IsLinkLocalMulticast, IsUnspecified, IsMulticast.
      rewrite Ht, (bool_decide_true (length ip = _)), (bool_decide_false (None = _)) by done. cbn [andb orb].
      destruct (bool_decide (ip = IPv6loopback)), (bool_decide (ip = IPv6unspecified)), (_ && (Z.land _ 0xc0 =? _)),
        (nth_Z 0 ip =? 0xff), (Z.land _ 0x0f =? _); done.
Qed.

Lemma disallowed_is_blocklist_witness :
  disallowed (v4InV6Prefix ++ [x7f; x00; x00; x01]) = existsb (in_block (v4InV6Prefix ++ [x7f; x00; x00; x01])) blocklist.
Proof. apply (disallowed_is_blocklist (v4InV6Prefix ++ [x7f; x00; x00; x01])). by right. Defined.

(** The metadata service of a cloud that answers on a unique local IPv6 address, fd00:ec2::254, is
    not refused. *)
Lemma metadata_v6_allowed :
  disallowed [xfd; x00; x0e; xc2; x00; x00; x00; x00; x00; x00; x00; x00; x00; x00; x02; x54] = false.
Proof. by vm_compute. Qed.

(** * Proofs: where a guarded request goes *)
Section confined.
Context `{!Net}.

Definition allowed_dials {A} (m : NetM A) : Prop := ∀ s, ∃ new,
  n_dials (m s).2 = n_dials s ++ new ∧ Forall (λ d : IP * string, disallowed d.1 = false) new.

Lemma allowed_ret {A} (a : A) : allowed_dials (mret a).
Proof. intros s. exists []. by rewrite app_nil_r. Qed.
Lemma allowed_bind {A B} (m : NetM A) (k : A → NetM B) :
  allowed_dials m → (∀ a, allowed_dials (k a)) → allowed_dials (m ≫= k).
Proof.
  intros Hm Hk s. unfold mbind, N_bind. destruct (Hm s) as (l & Hl & Hfl). destruct (m s) as [a s1]. cbn [snd] in Hl.
  destruct (Hk a s1) as (l' & Hl' & Hfl'). exists (l ++ l'). by rewrite Hl', Hl, <- app_assoc, Forall_app.
Qed.
Lemma allowed_lookup host : allowed_dials (LookupIP host).
Proof. intros s. exists []. by rewrite app_nil_r. Qed.
Lemma allowed_dial_each ips port : existsb disallowed ips = false → allowed_dials (dial_each ips port).
Proof.
  induction ips as [|ip ips IH]; cbn [dial_each existsb]; [intros _; apply allowed_ret|].
  intros [Hd Hr]%orb_false_iff. apply allowed_bind; [|intros []; [apply allowed_ret|by apply IH]].
  intros s. exists [(ip, port)]. split; [done|]. by constructor.
Qed.
Lemma allowed_safe_dial addr : allowed_dials (safeDialContext addr).
Proof.
  unfold safeDialContext. destruct (SplitHostPort addr) as [[host port]|]; [|apply allowed_ret].
  apply allowed_bind; [apply allowed_lookup|]. intros [[|ip ips]|]; try apply allowed_ret.
  destruct (existsb disallowed (ip :: ips)) eqn:Hd; [apply allowed_ret|by apply allowed_dial_each].
Qed.
Lemma allowed_ValidateURL url : allowed_dials (ValidateURL url).
Proof.
  unfold ValidateURL, ValidateHost. destruct (url_parse _) as [[[scheme host] addr]|]; [|apply allowed_ret].
  destruct (_ && _); [apply allowed_ret|]. destruct (str_eqb host ""); [apply allowed_ret|].
  apply allowed_bind; [apply allowed_lookup|]. intros r. apply allowed_ret.
Qed.
Lemma allowed_Do fuel via url : allowed_dials (Do fuel via url).
Proof.
  revert via url. induction fuel as [|fuel IH]; intros via url; [apply allowed_ret|]. cbn [Do].
  destruct (url_parse url) as [[[scheme host] addr]|]; [|apply allowed_ret].
  apply allowed_bind; [apply allowed_safe_dial|]. intros [ip|]; [|apply allowed_ret].
  apply allowed_bind; [intros s; exists []; by rewrite app_nil_r|]. intros [location|code]; [|apply allowed_ret].
  apply allowed_bind; [|intros [e|]; [apply allowed_ret|apply IH]].
  unfold CheckRedirect. case_bool_decide; [apply allowed_ret|apply allowed_ValidateURL].
Qed.

(** Enough fuel for the requests that are left. *)
Lemma Do_result fuel via url s : (length via + fuel = 5)%nat → (0 < fuel)%nat →
  (Do fuel via url s).1.1 ≠ None ∧ (length (Do fuel via url s).1.2 ≤ 5)%nat.
Proof.
  revert via url s. induction fuel as [|fuel IH]; intros via url s Hf Hpos; [lia|]. cbn [Do].
  destruct (url_parse url) as [[[scheme host] addr]|]; [|split; [done|simpl; lia]].
  unfold mbind, N_bind. destruct (safeDialContext addr s) as [[ip|] s1]; [|split; [done|cbn [mret N_ret fst snd]; rewrite length_app; cbn [length]; lia]].
  cbn beta iota. destruct (answer _ _ _) as [location|code]; [|split; [done|cbn [mret N_ret fst snd]; rewrite length_app; cbn [length]; lia]].
  unfold CheckRedirect. rewrite length_app. cbn [length]. case_bool_decide as Hv.
  { split; [done|]. cbn [mret N_ret fst snd]. rewrite length_app. cbn [length]. lia. }
  destruct (ValidateURL location _) as [[e|] s2].
  { split; [done|]. cbn [mret N_ret fst snd]. rewrite length_app. cbn [length]. lia. }
  apply IH; [rewrite length_app; simpl; lia|lia].
Qed.
End confined.

(** C29: a request made through the guarded client - the URL checked, then requested with [SafeClient] -
    connects to no address the guard refuses, whatever the resolver answers at each moment and
    wherever the remote ends redirect to; it ends after at most five requests. (Callers that only
    check a URL and then use another client, as for the issuer of an OpenID provider, have no such
    protection.) *)
Theorem guarded_request_confined `{!Net} url s :
  let r := guarded_request url s in
  r.1.1 ≠ None ∧ (length r.1.2 ≤ 5)%nat ∧
  ∃ new, n_dials r.2 = n_dials s ++ new ∧ Forall (λ d : IP * string, disallowed d.1 = false) new.
Proof.
  cbn zeta. split_and!.
  - unfold guarded_request, mbind, N_bind. destruct (ValidateURL url s) as [[e|] s1]; [done|]. apply (Do_result 5 [] url s1); [done|lia].
  - unfold guarded_request, mbind, N_bind. destruct (ValidateURL url s) as [[e|] s1]; [simpl; lia|]. apply (Do_result 5 [] url s1); [done|lia].
  - apply allowed_bind; [apply allowed_ValidateURL|]. intros [e|]; [apply allowed_ret|apply allowed_Do].
Qed.

(** ** A name that is only checked *)
(** A resolver whose answer for a name changes after the first question. *)
#[local] Instance rebinding_net : Net := {|
  lookup_ip n _ := Some [if bool_decide (n = 0%nat) then [x08; x08; x08; x08] else [x7f; x00; x00; x01]];
  connects _ _ _ := true;
  url_parse u := Some ("http", u, JoinHostPort u "80");
  answer _ _ _ := Status 200;
|}.

(** Checking the name of a collector and then dialling the name, as is done for syslog, connects to
    the loopback address; the client of guarded requests does not. *)
Lemma checked_name_rebinds :
  let s0 := NetState 0 [] in
  let q := ValidateHostPort "collector:514" s0 in
  q.1 = None ∧ (plain_dial "collector:514" q.2).1 = Some [x7f; x00; x00; x01] ∧
  disallowed [x7f; x00; x00; x01] = true ∧ n_dials (guarded_request "collector" s0).2 = [].
Proof. by vm_compute. Qed.
