(* ===== verification/RequestGuard.v ===== *)
(** What stands before every handler: the address of the client ([api/realip.go]), the rate limits
    ([ratelimit/ratelimit.go], [api/server.go]), the CSRF check and the guard of the metrics
    ([api/middleware.go]), and the address written to audit rows ([accesspolicy/enforcer.go]).

    Text of addresses is a parameter. *)
From S2P Require Import Prelude GoStrings SecretBox Binary64 NetGuard.
From Stdlib Require Import Strings.Ascii Strings.Byte.

(** * Addresses as text *)
Class IPText := {
  ParseIP : string → option IP; IP_String : IP → string;
  (** a network: its address, of 4 bytes for IPv4, and the length of its prefix *)
  ParseCIDR : string → option (IP * nat);
}.
(** A character of an address: a digit, a letter from a to f, a point or a colon. *)
Definition addr_char (c : ascii) : bool :=
  code_between 48 57 c || code_between 97 102 c || Ascii.eqb c "." || Ascii.eqb c ":".
Class IPTextLaws `{!IPText} : Prop := {
  text_parses ip : length ip = 16%nat → ParseIP (IP_String ip) = Some ip;
  text_chars ip : all_chars addr_char (IP_String ip) = true ∧ IP_String ip ≠ "";
}.
(** [IPNet.Contains] *)
Definition Contains (n : IP * nat) (ip : IP) : bool := in_block (default ip (To4 ip)) n.

(** * [api/realip.go] *)
(** The parts of a request these guards read: the peer, the lines of [X-Forwarded-For], and what
    the CSRF check looks at ([None] for a cookie that was not sent). *)
Record request := MkRequest {
  RemoteAddr : string; xff : list string; rq_path : string; rq_method : string; rq_authorization : string;
  refresh_cookie : option string; csrf_cookie : option string; csrf_header : string;
}.
(** [Header.Get]: the first line. *)
Definition Get (lines : list string) : string := hd "" lines.
Definition set_remote (r : request) a := MkRequest a (xff r) (rq_path r) (rq_method r) (rq_authorization r)
  (refresh_cookie r) (csrf_cookie r) (csrf_header r).

Section realip.
Context `{!IPText}.

Definition trusted_nets (cidrs : list string) : list (IP * nat) := omap (λ c, ParseCIDR (TrimSpace c)) cidrs.
Definition inTrusted (nets : list (IP * nat)) (ip : IP) : bool := existsb (λ n, Contains n ip) nets.

(** The entries from the right. *)
Fixpoint scan (trusted : IP → bool) (parts : list string) : string :=
  match parts with
  | [] => ""
  | part :: parts =>
    match ParseIP (TrimSpace part) with
    | None => scan trusted parts
    | Some ip => if trusted ip then scan trusted parts else IP_String ip
    end
  end.
Definition host_of (remote : string) : string :=
  match SplitHostPort remote with Some (host, _) => host | None => remote end.
Definition clientFromXFF (trusted : IP → bool) (r : request) : string :=
  match ParseIP (host_of (RemoteAddr r)) with
  | None => ""
  | Some peer => if trusted peer then scan trusted (rev (Split "," (Get (xff r)))) else ""
  end.
Definition realIP (cidrs : list string) (r : request) : request :=
  let ip := clientFromXFF (inTrusted (trusted_nets cidrs)) r in
  if str_eqb ip "" then r else set_remote r (JoinHostPort ip "0").

(** [accesspolicy.RequestIP], and [clientIP] of three other packages. *)
Definition RequestIP (r : request) : string :=
  let x := Get (xff r) in
  if negb (str_eqb x "") then
    TrimSpace (match IndexByte "," x with Some i => str_take i x | None => x end)
  else
    match LastIndexByte ":" (RemoteAddr r) with
    | Some i => str_take i (RemoteAddr r)
    | None => RemoteAddr r
    end.

(** * [api/middleware.go] *)
Definition metricsGuard (cidrs : list string) (r : request) : option (Z * string) :=
  let nets := trusted_nets cidrs in
  if bool_decide (nets = []) then None
  else
    match ParseIP (host_of (RemoteAddr r)) with
    | Some ip => if IsLoopback ip || inTrusted nets ip then None else Some (403, "forbidden")
    | None => Some (403, "forbidden")
    end.
End realip.

Definition csrfSafeMethod (m : string) : bool := bool_decide (m ∈ ["GET"; "HEAD"; "OPTIONS"; "TRACE"]).
(** [None] when the request goes on. *)
Definition csrfProtect (r : request) : option (Z * string) :=
  if csrfSafeMethod (rq_method r) then None
  else if has_prefix "Bearer " (rq_authorization r) then None
  else
    match refresh_cookie r with
    | None => None
    | Some _ =>
      let bad := Some (403, "missing or invalid CSRF token") in
      match csrf_cookie r with
      | None => bad
      | Some c => if str_eqb c "" || str_eqb (csrf_header r) "" || negb (str_eqb c (csrf_header r)) then bad else None
      end
    end.

(** * [ratelimit/ratelimit.go] *)
Record bucket := Bucket { tokens : float64; last : Z }.
Record Limiter := MkLimiter { buckets : gmap string bucket; rate : float64; burst : float64 }.
Definition New (perMinute burst : Z) : Limiter :=
  MkLimiter ∅ (fdiv (f_of_Z perMinute) (f_of_Z 60)) (f_of_Z burst).
Definition Enabled (l : Limiter) : bool := SFltb (f_of_Z 0) (rate l).
Definition set_bucket (l : Limiter) (key : string) (b : bucket) : Limiter :=
  MkLimiter (<[key := b]> (buckets l)) (rate l) (burst l).

(** Under the lock of the limiter. *)
Definition Allow (key : string) (now : Z) (l : Limiter) : bool * Limiter :=
  if SFleb (rate l) (f_of_Z 0) then (true, l)
  else
    match buckets l !! key with
    | None => (true, set_bucket l key (Bucket (fsub (burst l) (f_of_Z 1)) now))
    | Some b =>
      let t := fadd (tokens b) (fmul (Seconds (now - last b)) (rate l)) in
      let t := if SFltb (burst l) t then burst l else t in
      if SFltb t (f_of_Z 1) then (false, set_bucket l key (Bucket t now))
      else (true, set_bucket l key (Bucket (fsub t (f_of_Z 1)) now))
    end.
(** One round of [cleanupLoop]. *)
Definition cleanup (now : Z) (l : Limiter) : Limiter :=
  MkLimiter (filter (λ kb, ¬ last kb.2 < now - 10 * minute) (buckets l)) (rate l) (burst l).

Definition KeyFromRequest (r : request) : string := host_of (RemoteAddr r).
Definition Middleware (now : Z) (r : request) (l : Limiter) : option (Z * string) * Limiter :=
  let q := Allow (KeyFromRequest r) now l in
  (if q.1 then None else Some (429, "rate limit exceeded"), q.2).

(** The two limiters of the API ([api/server.go]): the sign-in endpoints have their own. *)
Record limits := Limits { general : Limiter; authLimit : Limiter }.
Definition rateLimitMW (now : Z) (r : request) (l : limits) : option (Z * string) * limits :=
  if has_prefix "/api/v1/auth" (rq_path r) || has_prefix "/api/v1/bootstrap" (rq_path r) then
    let q := Allow (KeyFromRequest r) now (authLimit l) in
    (if q.1 then None else Some (429, "rate limit exceeded"), Limits (general l) q.2)
  else
    let q := Allow (KeyFromRequest r) now (general l) in
    (if q.1 then None else Some (429, "rate limit exceeded"), Limits q.2 (authLimit l)).

(** What stands before a route of the API, in order. *)
Definition before_handler `{!IPText} (cidrs : list string) (now : Z) (r : request) (l : limits)
    : (option (Z * string) * request) * limits :=
  let r := realIP cidrs r in
  let q := rateLimitMW now r l in
  match q.1 with
  | Some e => ((Some e, r), q.2)
  | None => ((csrfProtect r, r), q.2)
  end.

(** * Proofs: the client's address *)
Section client_address.
Context `{!IPText, !IPTextLaws}.

Lemma addr_plain c : addr_char c = true → plain_char c = true.
Proof. by destruct c as [[] [] [] [] [] [] [] []]. Qed.
Lemma addr_no_byte d s : addr_char d = false → all_chars addr_char s = true → has_byte d s = false.
Proof.
  intros Hd. induction s as [|c s IH]; [done|]. unfold all_chars. simpl. intros [Hc Hs]%andb_true_iff.
  rewrite has_byte_cons, IH, orb_false_r by done. destruct (Ascii.eqb_spec c d) as [->|]; [congruence|done].
Qed.
Lemma addr_no_comma s : all_chars addr_char s = true → all_chars (λ d, negb (Ascii.eqb d ",")) s = true.
Proof.
  apply all_chars_impl. intros c Hc. apply negb_true_iff. destruct (Ascii.eqb_spec c ",") as [->|]; done.
Qed.
Lemma TrimSpace_space s : TrimSpace (" " +:+ s) = TrimSpace s.
Proof. reflexivity. Qed.
Lemma addr_trim s : all_chars addr_char s = true → TrimSpace s = s.
Proof. intros Hs. apply TrimSpace_all_plain. eapply all_chars_impl; [apply addr_plain|done]. Qed.
Lemma host_of_join ip port : all_chars addr_char (IP_String ip) = true → all_chars is_digit port = true →
  host_of (JoinHostPort (IP_String ip) port) = IP_String ip.
Proof.
  intros Hi Hp. assert (all_chars addr_char port = true) as Hp'.
  { eapply all_chars_impl; [|exact Hp]. intros c Hc. unfold addr_char, is_digit in *. by rewrite Hc. }
  unfold host_of. rewrite split_join_host_port; [done|..].
  1,2: unfold plain_host; by rewrite !addr_no_byte by done.
  clear Hp'. induction port as [|c port IH]; [done|]. unfold all_chars in Hp. simpl in Hp.
  apply andb_true_iff in Hp as [Hc Hp]. rewrite has_byte_cons, IH, orb_false_r by done.
  by destruct (Ascii.eqb_spec c ":") as [->|].
Qed.

(** A proxy that forwards a request with the peer it has it from: the usual way, at the end of the
    one line. *)
Definition forward (peer : IP) (lines : list string) : list string :=
  [match lines with [] => IP_String peer | l :: ls => foldl (λ a b, a +:+ ", " +:+ b) l ls +:+ ", " +:+ IP_String peer end].
(** A request of [client] with the lines it made up, by way of the proxies, nearest to it first:
    the peer the server sees, and the lines it gets. *)
Definition arrive (client : IP) (claimed : list string) (proxies : list IP) : IP * list string :=
  foldl (λ q p, (p, forward q.1 q.2)) (client, claimed) proxies.

Lemma Split_hop a b : all_chars addr_char b = true → Split "," (a +:+ ", " +:+ b) = Split "," a ++ [" " +:+ b].
Proof.
  intros Hb. etrans; [apply (Split_app "," a (" " +:+ b))|]. f_equal. apply Split_nosep. by apply (addr_no_comma b).
Qed.

(** After the first proxy: one line, whose entries end with the client and the proxies before the last. *)
Lemma arrive_entries client claimed p ps : Forall (λ ip : IP, length ip = 16%nat) (client :: p :: ps) →
  ∃ line junk entries, arrive client claimed (p :: ps) = (List.last (p :: ps) p, [line]) ∧
    Split "," line = junk ++ entries ∧
    TrimSpace <$> entries = IP_String <$> removelast (client :: p :: ps).
Proof.
  revert ps. refine (rev_ind _ _ _).
  - intros Hf. unfold arrive. cbn [foldl fst snd List.last removelast]. destruct (text_chars client) as [Hc _].
    destruct claimed as [|l ls].
    + exists (IP_String client), [], [IP_String client]. split; [done|].
      rewrite (Split_nosep ",") by (by apply addr_no_comma). split; [done|]. cbn. by rewrite addr_trim.
    + eexists _, (Split "," (foldl (λ a b, a +:+ ", " +:+ b) l ls)), [" " +:+ IP_String client]. split; [done|].
      rewrite Split_hop by done.
      split; [done|]. cbn. by rewrite TrimSpace_space, addr_trim.
  - intros q ps IH Hf. rewrite app_comm_cons in Hf |- *. 
    destruct IH as (line & junk & entries & Ha & Hs & Ht).
    { apply Forall_cons in Hf as [? Hf]. apply Forall_app in Hf as [Hf _]. by constructor. }
    unfold arrive in *. rewrite foldl_app, Ha. cbn [foldl fst snd forward].
    set (x := List.last (p :: ps) p) in *. destruct (text_chars x) as [Hx _].
    eexists _, junk, (entries ++ [" " +:+ IP_String x]). split; [by rewrite last_last|]. split.
    + rewrite Split_hop by done.
      cbn [foldl]. by rewrite Hs, <- app_assoc.
    + rewrite fmap_app, Ht. cbn [fmap list_fmap]. rewrite TrimSpace_space, addr_trim by done.
      rewrite app_comm_cons, removelast_last. rewrite (app_removelast_last p (l := client :: p :: ps)) at 2 by done.
      rewrite fmap_app. done.
Qed.

Lemma scan_entries trusted junk entries client ps :
  Forall (λ ip : IP, length ip = 16%nat) (client :: ps) → trusted client = false → Forall (λ p, trusted p = true) ps →
  TrimSpace <$> entries = IP_String <$> client :: ps →
  scan trusted (rev (junk ++ entries)) = IP_String client.
Proof.
  intros Hl Hc. revert entries. induction ps as [|p ps IH] using rev_ind; intros entries Hp He.
  - destruct entries as [|e [|]]; try done. cbn in He. injection He as He. rewrite rev_app_distr. cbn [rev app scan].
    apply Forall_cons in Hl as [Hl _]. by rewrite He, text_parses, Hc.
  - rewrite app_comm_cons, fmap_app in He. apply fmap_app_inv in He as (e1 & e2 & He1 & He2 & ->).
    destruct e2 as [|e [|]]; try done. cbn in He2. injection He2 as He2. symmetry in He1, He2.
    rewrite app_assoc, rev_app_distr. cbn [rev app scan].
    apply Forall_app in Hp as [Hp [Hpt _]%Forall_cons]. rewrite app_comm_cons, Forall_app in Hl.
    destruct Hl as [Hl [Hlp _]%Forall_cons]. rewrite He2, text_parses, Hpt by done. by apply IH.
Qed.
End client_address.

(** C31: the key of the rate limits is the client's own address, whatever it claims in
    [X-Forwarded-For] and through however many trusted proxies it comes, for a client whose address
    is outside the trusted ranges and proxies within them that each append the address they see to
    the one header line (a proxy that adds a line of its own is not covered: only the first line is
    read); and without a proxy the key is the peer's address. *)
Theorem client_address_not_spoofable `{!IPText, !IPTextLaws} cidrs client claimed proxies port r :
  Forall (λ ip : IP, length ip = 16%nat) (client :: proxies) →
  inTrusted (trusted_nets cidrs) client = false →
  Forall (λ p, inTrusted (trusted_nets cidrs) p = true) proxies →
  all_chars is_digit port = true →
  RemoteAddr r = JoinHostPort (IP_String (arrive client claimed proxies).1) port →
  xff r = (arrive client claimed proxies).2 →
  KeyFromRequest (realIP cidrs r) = IP_String client.
Proof.
  intros Hl Hc Hp Hport Hr Hx. unfold KeyFromRequest, realIP, clientFromXFF.
  assert (∀ ip, ip ∈ client :: proxies → all_chars addr_char (IP_String ip) = true) as Hch by (intros; apply text_chars).
  destruct proxies as [|p ps].
  - cbn [arrive foldl fst] in Hr. rewrite Hr, host_of_join by (done || apply Hch, list_elem_of_here).
    apply Forall_cons in Hl as [Hl _]. rewrite text_parses, Hc by done. change (str_eqb "" "") with true. cbn [RemoteAddr].
    by rewrite Hr, host_of_join by (done || apply Hch, list_elem_of_here).
  - destruct (arrive_entries client claimed p ps) as (line & junk & entries & Ha & Hs & He); [done|].
    rewrite Ha in Hr, Hx. cbn [fst snd] in Hr, Hx.
    set (peer := List.last (p :: ps) p) in *.
    assert (p :: ps = removelast (p :: ps) ++ [peer]) as Hsplit by (by apply app_removelast_last).
    assert (length peer = 16%nat ∧ inTrusted (trusted_nets cidrs) peer = true) as [Hlp Htp].
    { rewrite Hsplit in Hp, Hl. apply Forall_cons in Hl as [_ Hl].
      apply Forall_app in Hp as [_ [? _]%Forall_cons], Hl as [_ [? _]%Forall_cons]. done. }
    destruct (text_chars peer) as [Hpc _]. rewrite Hr, host_of_join, text_parses, Htp, Hx by done. cbn [Get hd].
    rewrite Hs, (scan_entries _ _ _ client (removelast (p :: ps))).
    + destruct (text_chars client) as [Hcc Hne]. destruct (str_eqb (IP_String client) "") eqn:Heq; [by apply str_eqb_eq in Heq|].
      cbn [RemoteAddr set_remote]. by apply host_of_join.
    + apply Forall_cons in Hl as [Hlc Hl]. rewrite Hsplit in Hl. apply Forall_app in Hl as [Hl _]. by constructor.
    + done.
    + rewrite Hsplit in Hp. by apply Forall_app in Hp as [Hp _].
    + exact He.
Qed.

(** ** A concrete encoding of addresses *)
Definition hex_value (c : ascii) : option N :=
  let n := N_of_ascii c in
  if bool_decide (48 ≤ n ≤ 57)%N then Some (n - 48)%N else if bool_decide (97 ≤ n ≤ 102)%N then Some (n - 87)%N else None.
Fixpoint toy_unhex (s : string) : option bytes :=
  match s with
  | String a (String b t) => x ← hex_value a; y ← hex_value b; c ← Byte.of_N (16 * x + y); l ← toy_unhex t; Some (c :: l)
  | _ => Some []
  end.
Lemma toy_unhex_hex l : toy_unhex (hex l) = Some l.
Proof. induction l as [|b l IH]; [done|]. destruct b; cbn; by rewrite IH. Qed.
Lemma hex_addr l : all_chars addr_char (hex l) = true.
Proof. induction l as [|b l IH]; [done|]. by destruct b. Qed.
#[local] Instance toy_text : IPText := {|
  ParseIP s := l ← toy_unhex s; if bool_decide (length l = 16%nat) then Some l else None;
  IP_String l := match l with [] => "0" | _ => hex l end;
  ParseCIDR s := if str_eqb s "10.0.0.0/8" then Some ([x0a; x00; x00; x00], 8%nat) else None;
|}.
#[local] Instance toy_text_laws : IPTextLaws.
Proof.
  split.
  - intros [|b ip] Hl; [done|]. cbn [ParseIP IP_String toy_text]. rewrite toy_unhex_hex. cbn [mbind option_bind].
    by rewrite bool_decide_true.
  - intros [|b ip]; [done|]. split; [apply hex_addr|done].
Qed.

Definition v4 (a b c d : Byte.byte) : IP := v4InV6Prefix ++ [a; b; c; d].
Definition toy_request (peer : IP) (lines : list string) : request :=
  MkRequest (JoinHostPort (IP_String peer) "4711") lines "/api/v1/auth/login" "POST" "" None None "".

Lemma client_address_not_spoofable_witness :
  let client := v4 xc6 x33 x64 x07 in let claimed := [IP_String (v4 x08 x08 x08 x08)] in
  let proxies := [v4 x0a x00 x00 x02; v4 x0a x00 x00 x03] in
  let q := arrive client claimed proxies in
  KeyFromRequest (realIP ["10.0.0.0/8"] (toy_request q.1 q.2)) = IP_String client.
Proof.
  by apply (client_address_not_spoofable ["10.0.0.0/8"] (v4 xc6 x33 x64 x07) [IP_String (v4 x08 x08 x08 x08)]
    [v4 x0a x00 x00 x02; v4 x0a x00 x00 x03] "4711"); repeat constructor.
Defined.

(** A proxy that adds a line of its own, as some do, leaves the first line to the client: the
    address it claims is believed. *)
Lemma second_line_ignored :
  let claim := IP_String (v4 x08 x08 x08 x08) in
  KeyFromRequest (realIP ["10.0.0.0/8"] (toy_request (v4 x0a x00 x00 x02) [claim; IP_String (v4 xc6 x33 x64 x07)])) = claim.
Proof. by vm_compute. Qed.

(** The address in audit rows and in the checks of the brokers is the one the client claims. *)
Lemma audit_address_is_claimed :
  let client := v4 xc6 x33 x64 x07 in let q := arrive client ["1.2.3.4"] [v4 x0a x00 x00 x02] in
  RequestIP (realIP ["10.0.0.0/8"] (toy_request q.1 q.2)) = "1.2.3.4".
Proof. by vm_compute. Qed.

(** A list of networks none of which can be read leaves the metrics open to everybody. *)
Lemma unreadable_networks_open_metrics r : metricsGuard ["10.0.0.0-8"] r = None.
Proof. done. Qed.

(** * Proofs: the limit of a key *)
(** What binary64 gives on small whole numbers, checked one by one. *)
Definition whole_ok (k : Z) : bool :=
  bool_decide (fadd (f_of_Z k) (S754_zero false) = f_of_Z k) && bool_decide (SFltb (f_of_Z k) (f_of_Z 1) = (k <? 1)) &&
  ((k <? 1) || bool_decide (fsub (f_of_Z k) (f_of_Z 1) = f_of_Z (k - 1))).
Lemma whole_table : forallb (λ k, whole_ok (Z.of_nat k)) (seq 0 257) = true.
Proof. by vm_compute. Qed.
Lemma order_table : forallb (λ b, forallb (λ k, negb (SFltb (f_of_Z (Z.of_nat b)) (f_of_Z (Z.of_nat k)))) (seq 0 b)) (seq 0 257) = true.
Proof. by vm_compute. Qed.
Lemma rate_table : forallb (λ m, match fdiv (f_of_Z (Z.of_nat m)) (f_of_Z 60) with S754_finite false _ _ => true | _ => false end) (seq 1 (Z.to_nat 6000)) = true.
Proof. by vm_compute. Qed.

Lemma in_table (f : nat → bool) lo n z : forallb f (seq lo n) = true → Z.of_nat lo ≤ z < Z.of_nat (lo + n) → f (Z.to_nat z) = true.
Proof. intros Hf Hz. rewrite forallb_forall in Hf. apply Hf, in_seq. lia. Qed.
Lemma whole_spec k : 0 ≤ k ≤ 256 → fadd (f_of_Z k) (S754_zero false) = f_of_Z k ∧
  SFltb (f_of_Z k) (f_of_Z 1) = (k <? 1) ∧ (1 ≤ k → fsub (f_of_Z k) (f_of_Z 1) = f_of_Z (k - 1)).
Proof.
  intros Hk. pose proof (in_table _ 0 257 k whole_table ltac:(lia)) as Hw. cbn beta in Hw.
  rewrite Z2Nat.id in Hw by lia. unfold whole_ok in Hw.
  apply andb_true_iff in Hw as [[H1%bool_decide_eq_true H2%bool_decide_eq_true]%andb_true_iff H3].
  split_and!; [done..|]. intros H. rewrite (proj2 (Z.ltb_ge k 1)) in H3 by lia. by apply bool_decide_eq_true in H3.
Qed.
Lemma order_spec b k : 0 ≤ k < b → b ≤ 256 → SFltb (f_of_Z b) (f_of_Z k) = false.
Proof.
  intros Hk Hb. pose proof (in_table _ 0 257 b order_table ltac:(lia)) as Ho. cbn beta in Ho.
  pose proof (in_table _ 0 _ k Ho ltac:(lia)) as H. cbn beta in H. rewrite !Z2Nat.id in H by lia. by apply negb_true_iff in H.
Qed.
Lemma rate_spec m : 1 ≤ m ≤ 6000 → ∃ p e, fdiv (f_of_Z m) (f_of_Z 60) = S754_finite false p e.
Proof.
  intros Hm. pose proof (in_table _ 1 (Z.to_nat 6000) m rate_table ltac:(lia)) as Hr. cbn beta in Hr. rewrite Z2Nat.id in Hr by lia.
  destruct (fdiv _ _) as [| | |[] p e]; try done. by exists p, e.
Qed.

(** Requests with their keys, all at one instant. *)
Fixpoint run (keys : list string) (now : Z) (l : Limiter) : list (string * bool) * Limiter :=
  match keys with
  | [] => ([], l)
  | key :: keys => let q := Allow key now l in let q' := run keys now q.2 in ((key, q.1) :: q'.1, q'.2)
  end.
Definition let_through (key : string) (out : list (string * bool)) : nat :=
  length (filter (λ kb : string * bool, kb.1 = key ∧ kb.2 = true) out).

Lemma let_through_cons key k x out :
  let_through key ((k, x) :: out) = ((if bool_decide (k = key) && x then 1 else 0) + let_through key out)%nat.
Proof.
  unfold let_through. rewrite filter_cons. cbn [fst snd]. destruct x.
  - destruct (decide (k = key)) as [->|Hne]; [rewrite decide_True, bool_decide_true by done; done|].
    rewrite decide_False, bool_decide_false by naive_solver. done.
  - rewrite decide_False by naive_solver. by rewrite andb_false_r.
Qed.

Section limit.
Context (perMinute b : Z) (Hm : 1 ≤ perMinute ≤ 6000) (Hb : 1 ≤ b ≤ 256).

Definition of_config (l : Limiter) : Prop := rate l = fdiv (f_of_Z perMinute) (f_of_Z 60) ∧ burst l = f_of_Z b.

Lemma Allow_other k key now l : of_config l → k ≠ key → buckets (Allow k now l).2 !! key = buckets l !! key.
Proof.
  intros _ Hne. unfold Allow. destruct (SFleb _ _); [done|].
  destruct (buckets l !! k) as [bk|]; [|by apply lookup_insert_ne]. cbv zeta.
  by destruct (SFltb _ (f_of_Z 1)); apply lookup_insert_ne.
Qed.
Lemma Allow_config k now l : of_config l → of_config (Allow k now l).2.
Proof.
  intros Hc. unfold Allow. destruct (SFleb _ _); [done|].
  destruct (buckets l !! k) as [bk|]; [|done]. cbv zeta. by destruct (SFltb _ (f_of_Z 1)).
Qed.

(** A bucket with [k] tokens at the instant of its last request. *)
Definition holds (key : string) (now k : Z) (l : Limiter) : Prop :=
  buckets l !! key = Some (Bucket (f_of_Z k) now).
Lemma Allow_first key now l : of_config l → buckets l !! key = None →
  (Allow key now l).1 = true ∧ holds key now (b - 1) (Allow key now l).2.
Proof.
  intros [Hr Hbu] Hn. destruct (rate_spec perMinute Hm) as (p & e & Hrate). unfold Allow, holds.
  rewrite Hr, Hrate. change (SFleb (S754_finite false p e) (f_of_Z 0)) with false. rewrite Hn, Hbu.
  split; [done|]. cbn [snd buckets set_bucket]. rewrite lookup_insert_eq. do 2 f_equal. by apply whole_spec; lia.
Qed.
Lemma Allow_again key now k l : of_config l → 0 ≤ k < b → holds key now k l →
  (Allow key now l).1 = (1 <=? k) ∧ holds key now (if 1 <=? k then k - 1 else k) (Allow key now l).2.
Proof.
  intros [Hr Hbu] Hk Hh. destruct (rate_spec perMinute Hm) as (p & e & Hrate). unfold Allow, holds in *.
  rewrite Hr, Hrate, Hh, Hbu. change (SFleb (S754_finite false p e) (f_of_Z 0)) with false. cbn [tokens last].
  rewrite Z.sub_diag. change (fmul (Seconds 0) (S754_finite false p e)) with (S754_zero false).
  destruct (whole_spec k) as (-> & Hlt & Hsub); [lia|]. rewrite order_spec, Hlt by lia.
  destruct (Z.ltb_spec k 1), (Z.leb_spec 1 k); try lia; (split; [done|]); cbn [snd buckets set_bucket];
    rewrite lookup_insert_eq; [done|]. by rewrite Hsub.
Qed.

Lemma run_held key now keys l k : of_config l → 0 ≤ k < b → holds key now k l →
  Z.of_nat (let_through key (run keys now l).1) = Z.min k (Z.of_nat (length (filter (key =.) keys))).
Proof.
  revert l k. induction keys as [|k' keys IH]; intros l k Hc Hk Hh; [change (Z.of_nat (let_through key (run [] now l).1)) with 0; rewrite filter_nil; cbn [length]; lia|]. cbn [run fst]. rewrite let_through_cons, filter_cons.
  pose proof (Allow_config k' now l Hc) as Hc'. destruct (decide (k' = key)) as [->|Hne].
  - destruct (Allow_again key now k l Hc Hk Hh) as [-> Hh']. rewrite bool_decide_true, decide_True by done. cbn [andb length].
    revert Hh'. destruct (Z.leb_spec 1 k); intros Hh'; rewrite Nat2Z.inj_add.
    + rewrite (IH _ (k - 1) Hc' ltac:(lia) Hh'). lia.
    + rewrite (IH _ k Hc' Hk Hh'). lia.
  - rewrite bool_decide_false, decide_False by congruence. cbn [andb]. rewrite Nat2Z.inj_add.
    rewrite (IH _ k Hc' Hk); [lia|]. unfold holds. by rewrite (Allow_other k' key now l Hc).
Qed.
End limit.

(** C32: at one instant, and without a clean-up of idle buckets in between, a key that has not been seen
    is let through exactly as many times as the burst allows, however many requests of other keys
    come in between; for a limit of 1 to 6000 requests a minute and a burst of 1 to 256 (a limit of 0
    is no limit). *)
Theorem burst_per_key perMinute b key now keys l : 1 ≤ perMinute ≤ 6000 → 1 ≤ b ≤ 256 → of_config perMinute b l →
  buckets l !! key = None →
  Z.of_nat (let_through key (run keys now l).1) = Z.min b (Z.of_nat (length (filter (key =.) keys))).
Proof.
  intros Hm Hb. revert l. induction keys as [|k' keys IH]; intros l Hc Hn; [cbn; lia|]. cbn [run fst]. rewrite let_through_cons, filter_cons.
  pose proof (Allow_config perMinute b k' now l Hc) as Hc'. destruct (decide (k' = key)) as [->|Hne].
  - destruct (Allow_first perMinute b Hm Hb key now l Hc Hn) as [-> Hh]. rewrite bool_decide_true, decide_True by done. cbn [andb length].
    rewrite Nat2Z.inj_add, (run_held perMinute b Hm Hb _ _ _ _ (b - 1) Hc' ltac:(lia) Hh). lia.
  - rewrite bool_decide_false, decide_False by congruence. cbn [andb]. rewrite Nat2Z.inj_add.
    rewrite (IH _ Hc'); [lia|]. by rewrite (Allow_other perMinute b k' key now l Hc).
Qed.

Lemma burst_per_key_witness :
  Z.of_nat (let_through "a" (run ["a"; "b"; "a"; "a"; "b"; "a"] 0 (New 20 3)).1) = Z.min 3 4.
Proof. by apply (burst_per_key 20 3 "a" 0 ["a"; "b"; "a"; "a"; "b"; "a"] (New 20 3)). Defined.

(** With a slow rate the pruning of idle buckets gives more than the rate does: of sixty requests
    eleven minutes after the burst was used up, all go through, where the rate allows eleven. *)
Lemma pruning_refills :
  let l := (run (replicate 60 "a") 0 (New 1 60)).2 in let later := 11 * minute in
  let_through "a" (run (replicate 60 "a") later l).1 = 11%nat ∧
  let_through "a" (run (replicate 60 "a") later (cleanup later l)).1 = 60%nat.
Proof. by vm_compute. Qed.
