(* ===== verification/Ueba.v ===== *)
(** Behaviour analytics: [ueba/analyzer.go], its query ([store/ueba.go]) and its route
    ([uebaapi/handlers.go]).

    The texts of an anomaly are left out; the hour of an instant in the server's zone is a
    parameter. *)
From S2P Require Import Prelude Binary64.
From stdpp Require Import sorting.
#[local] Open Scope Z_scope.

(** * Data *)
Record Session := MkSession {
  UserID : uuid; Username : string; HostID : uuid; Hostname : string; IP : string; StartedAt : Z;
}.
Record Anomaly := MkAnomaly {
  an_user : uuid; an_username : string; an_type : string; an_severity : string; an_host : string; an_when : Z;
}.
#[export] Instance Anomaly_eq_dec : EqDecision Anomaly.
Proof. solve_decision. Defined.
Definition minBaseline : nat := 8.

Section analyzer.
Context (Hour : Z → Z).

(** [sort.Slice] by time, the latest first; anomalies of equal time come in some order. *)
Definition later : relation Anomaly := λ a b, an_when b ≤ an_when a.
#[export] Instance later_dec : RelDecision later.
Proof. intros a b. unfold later. apply _. Defined.

(** What a user's history is compared with. *)
Record baseline := Baseline { b_hours : gset Z; b_hosts : gset uuid; b_ips : gset string }.
Definition baseline_of (history : list Session) : baseline :=
  Baseline (list_to_set ((λ s, Hour (StartedAt s)) <$> history)) (list_to_set (HostID <$> history))
    (list_to_set (filter (λ ip, ip ≠ "") (IP <$> history))).
Definition earliest (history : list Session) : Z :=
  match history with [] => 0 | s :: l => foldl (λ t s, if StartedAt s <? t then StartedAt s else t) (StartedAt s) l end.

(** The loop over the recent sessions, with the hosts and the addresses reported so far. *)
Fixpoint deviations (u : Session) (b : baseline) (seenHost : gset uuid) (seenIP : gset string) (recent : list Session)
    : list Anomaly :=
  match recent with
  | [] => []
  | s :: recent =>
    let report ty sev := MkAnomaly (UserID u) (Username u) ty sev (Hostname s) (StartedAt s) in
    let off := negb (bool_decide (Hour (StartedAt s) ∈ b_hours b)) in
    let host := negb (bool_decide (HostID s ∈ b_hosts b)) && negb (bool_decide (HostID s ∈ seenHost)) in
    let ip := negb (str_eqb (IP s) "") && negb (bool_decide (IP s ∈ b_ips b)) && negb (bool_decide (IP s ∈ seenIP)) in
    (if off then [report "off_hours" "warning"] else []) ++
    (if host then [report "new_host" "info"] else []) ++
    (if ip then [report "new_source_ip" "warning"] else []) ++
    deviations u b (if host then {[HostID s]} ∪ seenHost else seenHost) (if ip then {[IP s]} ∪ seenIP else seenIP) recent
  end.

(** More sessions than three times the daily average of the history, and more than five. *)
Definition spike (history recent : list Session) (now : Z) : bool :=
  let days := fdiv (Hours (now - earliest history)) (f_of_Z 24) in
  SFleb (f_of_Z 1) days &&
  let threshold := fmul (f_of_Z 3) (fdiv (f_of_Z (Z.of_nat (length history))) days) in
  let threshold := if SFltb threshold (f_of_Z 5) then f_of_Z 5 else threshold in
  SFltb threshold (f_of_Z (Z.of_nat (length recent))).

Definition analyzeUser (sessions : list Session) (now cutoff : Z) : list Anomaly :=
  let history := filter (λ s, StartedAt s < cutoff) sessions in
  let recent := filter (λ s, ¬ StartedAt s < cutoff) sessions in
  match recent with
  | [] => []
  | u :: _ =>
    if bool_decide (length history < minBaseline)%nat then []
    else
      deviations u (baseline_of history) ∅ ∅ recent ++
      (if spike history recent now then [MkAnomaly (UserID u) (Username u) "activity_spike" "warning" "" now] else [])
  end.

(** The users are gone through in some order. *)
Definition of_user (u : uuid) (sessions : list Session) : list Session := filter (λ s, UserID s = u) sessions.
Definition Analyze (sessions : list Session) (now recent : Z) : list Anomaly :=
  merge_sort later (elements (list_to_set (UserID <$> sessions) : gset uuid) ≫=
    λ u, analyzeUser (of_user u sessions) now (now - recent)).
End analyzer.

(** * The query and the route *)
(** The columns of [ssh_sessions] that are read. *)
Record access_row := Access {
  ac_user : option uuid; ac_username : option string; ac_host : option uuid; ac_hostname : option string;
  ac_ip : option string; ac_started : Z;
}.
Definition newest : relation access_row := λ a b, ac_started b ≤ ac_started a.
#[export] Instance newest_dec : RelDecision newest.
Proof. intros a b. unfold newest. apply _. Defined.
Definition session_of (r : access_row) : option Session :=
  u ← ac_user r;
  Some (MkSession u (default "" (ac_username r)) (default uuid_nil (ac_host r)) (default "" (ac_hostname r))
          (default "" (ac_ip r)) (ac_started r)).
Definition SessionsForUEBA (since : Z) (limit : nat) (now : Z) (rows : list access_row)
    : res store_error (list Session) * list access_row :=
  (Ok (omap session_of (take limit (merge_sort newest (filter (λ r, since ≤ ac_started r ∧ is_Some (ac_user r)) rows)))), rows).

Definition lookback : Z := 30 * 24 * hour.
Definition recentWindow : Z := 24 * hour.
Definition maxSessions : Z := 20000.

(** The reply: the anomalies and how many sessions were looked at. *)
Definition anomalies `{!Env (list access_row)} (Hour : Z → Z) : M (list access_row) (reply (list Anomaly * nat)) :=
  now ← time_now;
  r ← db (SessionsForUEBA (now - lookback) (Z.to_nat maxSessions));
  match r with
  | Err _ => mret (WriteError 500 "could not load sessions")
  | Ok sessions => now ← time_now; mret (WriteJSON 200 (Analyze Hour sessions now recentWindow, length sessions))
  end.

(** * Proofs *)
(** The first session of each value of a key, in the order of the list. *)
Section firsts.
Context {K : Type} `{Countable K} (key : Session → K).

Fixpoint firsts (l : list Session) : list Session :=
  match l with [] => [] | s :: l' => s :: filter (λ s', key s' ≠ key s) (firsts l') end.

Lemma firsts_filter k l : filter (λ s, key s ≠ k) (firsts l) = firsts (filter (λ s, key s ≠ k) l).
Proof.
  induction l as [|s l IH]; [done|]. cbn [firsts]. rewrite !filter_cons. destruct (decide (key s = k)) as [<-|Hk].
  - rewrite !decide_False by auto. rewrite list_filter_filter, <-IH. apply list_filter_iff. naive_solver.
  - rewrite !decide_True by done. cbn [firsts]. rewrite <-IH. f_equal. rewrite !list_filter_filter.
    apply list_filter_iff. naive_solver.
Qed.

(** The sessions that are the first of their key, of those not in [b] or in [seen]. *)
Definition news (b seen : gset K) (l : list Session) : list Session :=
  firsts (filter (λ s, (key s ∉ b) ∧ (key s ∉ seen)) l).

Lemma news_cons b seen s l :
  news b seen (s :: l) =
  if bool_decide ((key s ∉ b) ∧ (key s ∉ seen)) then s :: news b ({[key s]} ∪ seen) l else news b seen l.
Proof.
  unfold news. rewrite filter_cons. case_bool_decide as Hs; [rewrite decide_True by done|by rewrite decide_False].
  cbn [firsts]. f_equal. rewrite firsts_filter, list_filter_filter. f_equal. apply list_filter_iff. set_solver.
Qed.
End firsts.

Section exact.
Context (Hour : Z → Z).

(** What is reported of a session, under the user's name in the first recent one. *)
Definition report (u : Session) (ty sev : string) (s : Session) : Anomaly :=
  MkAnomaly (UserID u) (Username u) ty sev (Hostname s) (StartedAt s).

Lemma interleaved {A} (x y z a b c : list A) :
  x ++ y ++ z ++ (a ++ b ++ c) ≡ₚ (x ++ a) ++ (y ++ b) ++ (z ++ c).
Proof.
  rewrite <-!(assoc_L (++)). f_equiv. rewrite (Permutation_app_swap_app z a), (Permutation_app_swap_app y a).
  do 2 f_equiv. by rewrite (Permutation_app_swap_app z b).
Qed.

Lemma deviations_spec u b sh si recent :
  deviations Hour u b sh si recent ≡ₚ
  (report u "off_hours" "warning" <$> filter (λ s, Hour (StartedAt s) ∉ b_hours b) recent) ++
  (report u "new_host" "info" <$> news HostID (b_hosts b) sh recent) ++
  (report u "new_source_ip" "warning" <$> news IP ({[""]} ∪ b_ips b) si recent).
Proof.
  revert sh si. induction recent as [|s recent IH]; intros sh si; [done|].
  cbn [deviations]. rewrite filter_cons, !news_cons.
  assert (negb (str_eqb (IP s) "") && negb (bool_decide (IP s ∈ b_ips b)) && negb (bool_decide (IP s ∈ si)) =
    bool_decide ((IP s ∉ ({[""]} ∪ b_ips b : gset string)) ∧ (IP s ∉ si))) as ->.
  { unfold str_eqb. rewrite <-!bool_decide_not, <-!bool_decide_and. apply bool_decide_ext. set_solver. }
  assert (negb (bool_decide (HostID s ∈ b_hosts b)) && negb (bool_decide (HostID s ∈ sh)) =
    bool_decide ((HostID s ∉ b_hosts b) ∧ (HostID s ∉ sh))) as ->.
  { rewrite <-!bool_decide_not, <-!bool_decide_and. by apply bool_decide_ext. }
  rewrite IH. etrans; [apply interleaved|]. unfold report. destruct (decide (Hour (StartedAt s) ∈ b_hours b));
    [rewrite bool_decide_true, decide_False by (done || by intros ?)|rewrite bool_decide_false, decide_True by done];
    by do 2 case_bool_decide.
Qed.
Lemma deviations_user u b sh si recent : Forall (λ a, an_user a = UserID u) (deviations Hour u b sh si recent).
Proof.
  revert sh si. induction recent as [|s recent IH]; intros sh si; [constructor|]. cbn [deviations].
  rewrite !Forall_app. split_and!; [..|apply IH]; case_match; repeat constructor.
Qed.
Lemma analyzeUser_user u sessions now cutoff :
  Forall (λ a, an_user a = u) (analyzeUser Hour (of_user u sessions) now cutoff).
Proof.
  unfold analyzeUser. destruct (filter (λ s, ¬ StartedAt s < cutoff) _) as [|s recent] eqn:Hr; [constructor|].
  assert (UserID s = u) as Hs.
  { assert (s ∈ filter (λ s, ¬ StartedAt s < cutoff) (of_user u sessions)) as Hin by (rewrite Hr; apply list_elem_of_here).
    by apply list_elem_of_filter in Hin as [_ [? _]%list_elem_of_filter]. }
  case_bool_decide; [constructor|]. apply Forall_app. rewrite <- Hs. split; [apply deviations_user|].
  case_match; repeat constructor.
Qed.

Lemma filter_bind {A B} (P : B → Prop) `{∀ x, Decision (P x)} (f : A → list B) l :
  filter P (l ≫= f) = l ≫= λ x, filter P (f x).
Proof. induction l as [|x l IH]; [done|]. by rewrite !bind_cons, filter_app, IH. Qed.
Lemma filter_id {A} (P : A → Prop) `{∀ x, Decision (P x)} l : Forall P l → filter P l = l.
Proof. induction 1; [done|]. rewrite filter_cons, decide_True by done. by f_equal. Qed.
Lemma filter_nothing {A} (P : A → Prop) `{∀ x, Decision (P x)} l : Forall (λ x, ¬ P x) l → filter P l = [].
Proof. induction 1; [done|]. by rewrite filter_cons, decide_False. Qed.

(** The part of an analysis that is about a user is the analysis of that user's sessions. *)
Lemma Analyze_user u sessions now recent :
  filter (λ a, an_user a = u) (Analyze Hour sessions now recent) ≡ₚ analyzeUser Hour (of_user u sessions) now (now - recent).
Proof.
  unfold Analyze. rewrite merge_sort_Permutation, filter_bind.
  set (f := λ v, filter (λ a, an_user a = u) (analyzeUser Hour (of_user v sessions) now (now - recent))).
  assert (f u = analyzeUser Hour (of_user u sessions) now (now - recent)) as Hu by apply filter_id, analyzeUser_user.
  assert (∀ v, v ≠ u → f v = []) as Hv.
  { intros v Hne. apply filter_nothing. eapply Forall_impl; [apply analyzeUser_user|]. intros a Ha. congruence. }
  assert (∀ l, NoDup l → l ≫= f = if bool_decide (u ∈ l) then f u else []) as Hl.
  { induction 1 as [|v l Hin Hl IH]; [done|]. rewrite bind_cons, IH. destruct (decide (v = u)) as [->|Hne].
    - rewrite bool_decide_false, bool_decide_true, app_nil_r; [done|apply list_elem_of_here|done].
    - rewrite Hv by done. cbn [app]. erewrite bool_decide_ext; [done|]. rewrite elem_of_cons. naive_solver. }
  rewrite Hl by apply NoDup_elements. case_bool_decide as Hin; [by rewrite Hu|].
  rewrite <- Hu. unfold f. replace (of_user u sessions) with (@nil Session); [done|]. symmetry. apply filter_nothing.
  apply Forall_forall. intros s Hs Heq. apply Hin, elem_of_elements, elem_of_list_to_set, list_elem_of_fmap. eauto.
Qed.
End exact.


(** ** A concrete history *)
Definition toy_hour (t : Z) : Z := (t / hour) mod 24.
Definition visit (host : uuid) (ip : string) (t : Z) : Session := MkSession 1 "ada" host "h" ip t.
(** Ten days at nine o'clock on one host, then two visits to another, the later one first as the
    query gives them. *)
Definition toy_sessions : list Session :=
  [visit 2 "10.0.0.1" (10 * day + 20 * hour); visit 2 "10.0.0.1" (10 * day + 9 * hour)] ++
  ((λ d, visit 1 "10.0.0.1" (d * day + 9 * hour)) <$> [9; 8; 7; 6; 5; 4; 3; 2; 1; 0]).

Example toy_analysis : (λ a, (an_type a, an_when a)) <$> Analyze toy_hour toy_sessions (10 * day + 22 * hour) recentWindow =
  [("off_hours", 10 * day + 20 * hour); ("new_host", 10 * day + 20 * hour)].
Proof. by vm_compute. Qed.

(** The first access to a host is reported with the time of the last one: the query gives the
    sessions newest first. *)
Lemma first_access_dated_last : ∃ a, a ∈ Analyze toy_hour toy_sessions (10 * day + 22 * hour) recentWindow ∧
  an_type a = "new_host" ∧ ∃ s, s ∈ toy_sessions ∧ HostID s = 2%N ∧ StartedAt s < an_when a.
Proof.
  exists (MkAnomaly 1 "ada" "new_host" "info" "h" (10 * day + 20 * hour)). split.
  - apply (bool_decide_unpack _). by vm_compute.
  - split; [done|]. exists (visit 2 "10.0.0.1" (10 * day + 9 * hour)). split; [|done]. right. left.
Qed.
