(* ===== verification/GoParse.v ===== *)
(** [strconv.ParseBool], [strconv.ParseFloat] and [time.ParseDuration], as settings and the answers of
    hosts are read with. *)
From S2P Require Import Prelude GoStrings Binary64.
From Stdlib Require Import Strings.Ascii.

Definition ParseBool (s : string) : option bool :=
  if bool_decide (s ∈ ["1"; "t"; "T"; "true"; "TRUE"; "True"]) then Some true
  else if bool_decide (s ∈ ["0"; "f"; "F"; "false"; "FALSE"; "False"]) then Some false
  else None.

(** * [time.ParseDuration] *)
Definition digit_value (c : ascii) : Z := Z.of_N (N_of_ascii c - 48).
(** The leading digits, [None] when they overflow; and what is left. *)
Fixpoint leadingInt (x : Z) (s : string) : option (Z * string) :=
  match s with
  | String c t =>
    if is_digit c then
      if 2 ^ 63 / 10 <? x then None
      else let x := x * 10 + digit_value c in if 2 ^ 63 <? x then None else leadingInt x t
    else Some (x, s)
  | EmptyString => Some (x, s)
  end.
(** The digits of a fraction, as long as they fit, and the power of ten they are divided by. *)
Fixpoint leadingFraction (x scale : Z) (overflow : bool) (s : string) : Z * Z * string :=
  match s with
  | String c t =>
    if is_digit c then
      if overflow then leadingFraction x scale true t
      else if (2 ^ 63 - 1) / 10 <? x then leadingFraction x scale true t
      else
        let y := x * 10 + digit_value c in
        if 2 ^ 63 <? y then leadingFraction x scale true t else leadingFraction y (scale * 10) false t
    else (x, scale, s)
  | EmptyString => (x, scale, s)
  end.
Definition is_number_char (c : ascii) : bool := Ascii.eqb c "." || is_digit c.
Fixpoint unit_name (s : string) : string * string :=
  match s with
  | String c t => if is_number_char c then ("", s) else let q := unit_name t in (String c q.1, q.2)
  | EmptyString => ("", "")
  end.
Definition unitMap (u : string) : option Z :=
  if str_eqb u "ns" then Some 1
  else if str_eqb u "us" || str_eqb u (chr 194 +:+ chr 181 +:+ "s") || str_eqb u (chr 206 +:+ chr 188 +:+ "s") then Some 1000
  else if str_eqb u "ms" then Some 1000000
  else if str_eqb u "s" then Some second
  else if str_eqb u "m" then Some minute
  else if str_eqb u "h" then Some hour
  else None.
(** [uint64] of a float that is not negative and in range. *)
Definition truncate (x : float64) : Z :=
  match x with S754_finite false m e => if 0 <=? e then Z.pos m * 2 ^ e else Z.pos m / 2 ^ (- e) | _ => 0 end.

Definition starts_number (s : string) : bool := match s with String c _ => is_number_char c | EmptyString => false end.
(** One number with its unit. *)
Definition element (s : string) : option (Z * string) :=
  if negb (starts_number s) then None
  else
    '(v, s1) ← leadingInt 0 s;
    let pre := negb (bool_decide (s1 = s)) in
    let '(f, scale, s2, post) :=
      match s1 with
      | String "." t => let '(f, scale, s2) := leadingFraction 0 1 false t in (f, scale, s2, negb (bool_decide (s2 = t)))
      | _ => (0, 1, s1, false)
      end in
    if negb pre && negb post then None
    else
      let '(u, s3) := unit_name s2 in
      unit ← unitMap u;
      if 2 ^ 63 / unit <? v then None
      else
        let v := v * unit in
        let v := if 0 <? f then v + truncate (fmul (f_of_Z f) (fdiv (f_of_Z unit) (f_of_Z scale))) else v in
        if 2 ^ 63 <? v then None else Some (v, s3).
(** Each element takes at least a byte: the length is fuel enough. *)
Fixpoint elements_sum (fuel : nat) (d : Z) (s : string) : option Z :=
  match s, fuel with
  | EmptyString, _ => Some d
  | _, O => None
  | _, S fuel =>
    '(v, s) ← element s;
    let d := (d + v) mod 2 ^ 64 in
    if 2 ^ 63 <? d then None else elements_sum fuel d s
  end.
Definition ParseDuration (s : string) : option Z :=
  let '(neg, s) := match s with String "-" t => (true, t) | String "+" t => (false, t) | _ => (false, s) end in
  if str_eqb s "0" then Some 0
  else if str_eqb s "" then None
  else
    d ← elements_sum (String.length s) 0 s;
    if (neg : bool) then Some (- d) else if 2 ^ 63 - 1 <? d then None else Some d.

Example durations : ParseDuration <$> ["1h30m"; "-1.5s"; "720h"; "30d"; ".5ms"; "100"; "0"; "9223372036854775808ns"] =
  [Some (90 * minute); Some (- (3 * second / 2)); Some (720 * hour); None; Some 500000; None; Some 0; None].
Proof. by vm_compute. Qed.

(** * [strconv.ParseFloat] at 64 bits *)
Definition lower_char (c : ascii) : ascii := if code_between 65 90 c then ascii_of_N (N_of_ascii c + 32) else c.
Definition is_hex_letter (c : ascii) : bool := code_between 97 102 (lower_char c).
(** Whether underscores stand between digits only; [prev] is the class of the character before:
    a digit (or the prefix [0x]), an underscore, something else. *)
Inductive char_class := CDigit | CUnderscore | COther | CStart.
Fixpoint underscores_ok (hex : bool) (prev : char_class) (s : string) : bool :=
  match s with
  | EmptyString => match prev with CUnderscore => false | _ => true end
  | String c t =>
    if is_digit c || (hex && is_hex_letter c) then underscores_ok hex CDigit t
    else if Ascii.eqb c "_" then match prev with CDigit => underscores_ok hex CUnderscore t | _ => false end
    else match prev with CUnderscore => false | _ => underscores_ok hex COther t end
  end.
Definition strip_sign (s : string) : bool * string :=
  match s with String "-" t => (true, t) | String "+" t => (false, t) | _ => (false, s) end.
Definition strip_hex (s : string) : option string :=
  match s with String "0" (String x t) => if Ascii.eqb (lower_char x) "x" then Some t else None | _ => None end.
Definition underscoreOK (s : string) : bool :=
  let t := (strip_sign s).2 in
  match strip_hex t with
  | Some t' => underscores_ok true CDigit t'
  | None =>
    match t with
    | String "0" (String x t') =>
      if bool_decide (lower_char x ∈ ["b"; "o"]%char) then underscores_ok false CDigit t' else underscores_ok false CStart t
    | _ => underscores_ok false CStart t
    end
  end.
(** The digits: their value, how many stand after the point, whether there were any, and the rest. *)
Fixpoint mantissa (hex : bool) (m : Z) (frac : Z) (sawdot sawdigits : bool) (s : string) : Z * Z * bool * string :=
  match s with
  | EmptyString => (m, frac, sawdigits, s)
  | String c t =>
    let base := if hex then 16 else 10 in
    let frac' := if sawdot then frac + 1 else frac in
    if Ascii.eqb c "_" then mantissa hex m frac sawdot sawdigits t
    else if Ascii.eqb c "." then if sawdot then (m, frac, sawdigits, s) else mantissa hex m frac true sawdigits t
    else if is_digit c then mantissa hex (m * base + digit_value c) frac' sawdot true t
    else if hex && is_hex_letter c then
      mantissa hex (m * base + (Z.of_N (N_of_ascii (lower_char c)) - 87)) frac' sawdot true t
    else (m, frac, sawdigits, s)
  end.
Fixpoint exponent_digits (e : Z) (s : string) : Z * string :=
  match s with
  | EmptyString => (e, s)
  | String c t =>
    if Ascii.eqb c "_" then exponent_digits e t
    else if is_digit c then exponent_digits (if e <? 10000 then e * 10 + digit_value c else e) t
    else (e, s)
  end.
Definition exponent (s : string) : option (Z * string) :=
  let '(neg, t) := strip_sign s in
  match t with
  | String c _ => if is_digit c then let q := exponent_digits 0 t in Some (if neg then - q.1 else q.1, q.2) else None
  | EmptyString => None
  end.
(** The nearest double of [m / 10 ^ k]: [SFdiv] does not need its operands to be canonical. *)
Definition decimal (m e : Z) : float64 :=
  match m with
  | Z.pos p =>
    if 0 <=? e then f_of_Z (m * 10 ^ e)
    else match 10 ^ (- e) with Z.pos q => SFdiv 53 1024 (S754_finite false p 0) (S754_finite false q 0) | _ => S754_nan end
  | _ => S754_zero false
  end.
Definition with_sign (neg : bool) (x : float64) : float64 := if neg then SFopp x else x.
Definition lower_ascii (s : string) : string :=
  String.string_of_list_ascii (lower_char <$> String.list_ascii_of_string s).
Definition special (s : string) : option float64 :=
  let '(neg, t) := strip_sign s in
  let t := lower_ascii t in
  if str_eqb t "inf" || str_eqb t "infinity" then Some (S754_infinity neg)
  else if str_eqb (lower_ascii s) "nan" then Some S754_nan
  else None.
Definition read_float (s : string) : option float64 :=
  let '(neg, t) := strip_sign s in
  let '(hex, t) := match strip_hex t with Some (String c r) => (true, String c r) | _ => (false, t) end in
  let '(m, frac, sawdigits, r) := mantissa hex 0 0 false false t in
  if negb sawdigits then None
  else
    let mark := if hex then "p"%char else "e"%char in
    let rest := match r with
      | String c r' => if Ascii.eqb (lower_char c) mark then exponent r' else if hex then None else Some (0, r)
      | EmptyString => if hex then None else Some (0, r)
      end in
    '(e, r) ← rest;
    if negb (str_eqb r "") || (bool_decide ("_"%char ∈ String.list_ascii_of_string s) && negb (underscoreOK s)) then None
    else Some (with_sign neg (if hex then binary_normalize 53 1024 m (e - 4 * frac) false else decimal m (e - frac))).
(** [None]: an error, a number out of range included. *)
Definition ParseFloat (s : string) : option float64 :=
  match special s with
  | Some x => Some x
  | None => x ← read_float s; match x with S754_infinity _ => None | _ => Some x end
  end.

Example floats :
  ParseFloat <$> ["0.52"; "12345.67"; "-1e3"; "1_0.5"; "1__0"; "1e400"; "NaN"; "0x1p-2"; "."; "1.5x"; "-0"] =
  [Some (fdiv (f_of_Z 52) (f_of_Z 100)); Some (fdiv (f_of_Z 1234567) (f_of_Z 100)); Some (f_of_Z (-1000));
   Some (fdiv (f_of_Z 21) (f_of_Z 2)); None; None; Some S754_nan; Some (fdiv (f_of_Z 1) (f_of_Z 4)); None; None;
   Some (S754_zero true)].
Proof. by vm_compute. Qed.

(** * Proofs *)
Lemma digit_value_range c : is_digit c = true → 0 ≤ digit_value c < 10.
Proof. destruct c as [[] [] [] [] [] [] [] []]; vm_compute; by intros. Qed.
Lemma leadingInt_range x s v r : 0 ≤ x → leadingInt x s = Some (v, r) → 0 ≤ v.
Proof.
  revert x. induction s as [|c s IH]; intros x Hx; cbn [leadingInt]; [by intros [= <- _]|].
  destruct (is_digit c) eqn:Hc; [|by intros [= <- _]]. destruct (_ <? x); [done|]. cbn zeta. destruct (2 ^ 63 <? _); [done|].
  apply IH. pose proof (digit_value_range c Hc). lia.
Qed.
Lemma truncate_nonneg x : 0 ≤ truncate x.
Proof. destruct x as [| | |[] m e]; try done. simpl. destruct (0 <=? e) eqn:He; [|apply Z.div_pos; lia]. apply Z.mul_nonneg_nonneg; lia. Qed.
Lemma unitMap_pos u k : unitMap u = Some k → 0 < k.
Proof. unfold unitMap. repeat case_match; intros [= <-]; done. Qed.

Lemma element_range s v r : element s = Some (v, r) → 0 ≤ v.
Proof.
  unfold element. destruct (negb (starts_number s)); [done|]. destruct (leadingInt 0 s) as [[v0 s1]|] eqn:Hl; [|done]. cbn [mbind option_bind].
  apply leadingInt_range in Hl; [|done].
  destruct (match s1 with String "." t => _ | _ => _ end) as [[[f scale] s2] post]. destruct (_ && _); [done|].
  destruct (unit_name s2) as [u s3]. destruct (unitMap u) as [k|] eqn:Hk; [|done]. apply unitMap_pos in Hk. cbn [mbind option_bind].
  destruct (_ <? v0); [done|]. cbn zeta. destruct (2 ^ 63 <? _); [done|]. intros [= <- _].
  pose proof (truncate_nonneg (fmul (f_of_Z f) (fdiv (f_of_Z k) (f_of_Z scale)))). destruct (0 <? f); nia.
Qed.
Lemma elements_sum_range fuel d s r : 0 ≤ d ≤ 2 ^ 63 → elements_sum fuel d s = Some r → 0 ≤ r ≤ 2 ^ 63.
Proof.
  revert d s. induction fuel as [|fuel IH]; intros d [|c s] Hd; cbn [elements_sum]; [by intros [= <-]|done|by intros [= <-]|].
  destruct (element _) as [[v s1]|] eqn:He; [|done]. cbn [mbind option_bind]. cbn zeta. destruct (2 ^ 63 <? _) eqn:Ho; [done|].
  apply IH. pose proof (Z.mod_pos_bound (d + v) (2 ^ 64)). lia.
Qed.
(** A duration is always an [int64]. *)
Lemma ParseDuration_range s d : ParseDuration s = Some d → int_range d = true.
Proof.
  unfold ParseDuration, int_range. destruct (match s with String "-" t => _ | _ => _ end) as [neg t]. destruct (str_eqb t "0"); [by intros [= <-]|].
  destruct (str_eqb t ""); [done|]. destruct (elements_sum _ _ _) as [r|] eqn:Hr; [|done]. cbn [mbind option_bind].
  apply elements_sum_range in Hr; [|done]. destruct neg; [intros [= <-]; lia|]. destruct (_ <? r) eqn:Hl; [done|]. intros [= <-]. lia.
Qed.
