(* ===== verification/Kms.v ===== *)
(** Key management services: the wrapping of the master passphrases by an external key
    ([kms/kms.go], [kms/vaulttransit.go], [kms/awskms.go], [kms/azurekeyvault.go],
    [kms/gcpkms.go]) and the request signature of AWS ([awssig/awssig.go]).

    The services, the file system, hashing, RSA, URL and JSON handling are parameters. An answer is
    what [json.Unmarshal] makes of its body. *)
From S2P Require Import Prelude GoStrings SecretBox.
From stdpp Require Import sorting.
From Stdlib Require Import Strings.Ascii Strings.Byte.
#[local] Open Scope Z_scope.

(** * Text *)
Definition blank (s : string) : bool := str_eqb (TrimSpace s) "".
Definition Join (sep : string) (l : list string) : string := String.concat sep l.

(** [base64.RawURLEncoding]: two other characters, no padding. *)
Module RawURL.
Fixpoint map_chars (f : ascii → ascii) (s : string) : string :=
  match s with EmptyString => EmptyString | String c t => String (f c) (map_chars f t) end.
Definition to_url (c : ascii) : ascii := if Ascii.eqb c "+" then "-" else if Ascii.eqb c "/" then "_" else c.
Definition of_url (c : ascii) : ascii := if Ascii.eqb c "-" then "+" else if Ascii.eqb c "_" then "/" else c.
Definition EncodeToString (bs : bytes) : string := TrimRight "=" (map_chars to_url (Base64.encode bs)).
Definition padding (n : nat) : option string :=
  match (n mod 4)%nat with 0%nat => Some "" | 2%nat => Some "==" | 3%nat => Some "=" | _ => None end.
Definition DecodeString (s : string) : option bytes :=
  let s := Base64.strip_newlines s in
  if all_chars (λ c, negb (bool_decide (c ∈ ["+"; "/"; "="]%char))) s then
    p ← padding (String.length s); Base64.decode_quanta (map_chars of_url s +:+ p)
  else None.
End RawURL.

(** * Requests and answers *)
Inductive body := NoBody | JSON (fields : list (string * string)) | Form (fields : list (string * string)).
Record http_request := Request {
  hr_method : string; hr_url : string; hr_headers : list (string * string); hr_body : body;
}.
(** A value of type [any]. *)
Inductive any := AString (s : string) | ANil | AOther (printed : string).
(** The status, whether the body is the JSON that is asked for, and what [Unmarshal] puts into a
    text and into a number at a path, and into a map ([None]: no such map). *)
Record answer := Answer {
  status : Z; unmarshals : bool; field : string → string; number : string → Z; entries : option (gmap string any);
}.

Record gcpServiceAccount := ServiceAccountKey { ClientEmail : string; PrivateKey : string; TokenURI : string }.
Class KeyWorld := {
  (** [None]: the request fails *)
  respond : nat → http_request → option answer;
  request_ok : string → string → bool;
  url_host : string → string; EscapedPath : string → string; RawQuery : string → string; PathEscape : string → string;
  body_bytes : body → string;
  ReadFile : string → option string; AppendCertsFromPEM : string → bool;
  Sum256 : string → bytes; hmacSHA256 : bytes → string → bytes;
  amz_date : Z → string; date_stamp : Z → string;
  rsa_key : Type;
  parse_account : string → option gcpServiceAccount;
  pem_Decode : string → option string;
  (** [Some None]: a key of another kind *)
  ParsePKCS8PrivateKey : string → option (option rsa_key); ParsePKCS1PrivateKey : string → option rsa_key;
  SignPKCS1v15 : nat → rsa_key → bytes → option bytes;
  jwt_claims : string → string → Z → bytes;
}.

(** The token a provider holds and when it ends, and the requests sent so far. *)
Record kstate := KState { k_token : string; k_tokenExp : Z; k_sent : list http_request }.
Definition set_token t e (s : kstate) := KState t e (k_sent s).
Definition sent_more r (s : kstate) := KState (k_token s) (k_tokenExp s) (k_sent s ++ [r]).

Section kms.
Context `{!KeyWorld, !Env kstate}.
Abbreviation K := (M kstate).

Definition client_Do (r : http_request) : K (option answer) := λ w,
  (respond (w_tick w) r, World (S (w_tick w)) (sent_more r (w_db w))).

(** * [awssig/awssig.go] *)
Record Creds := MkCreds { AccessKey : string; SecretKey : string; SessionToken : string }.
Definition lower_char (c : ascii) : ascii :=
  if code_between 65 90 c then ascii_of_N (N_of_ascii c + 32) else c.
Definition by_name : relation (string * string) := λ a b, String.leb a.1 b.1 = true.
#[local] Instance by_name_dec : RelDecision by_name.
Proof. intros a b. unfold by_name. apply _. Defined.
Definition string_leb : relation string := λ a b, String.leb a b = true.
#[local] Instance string_leb_dec : RelDecision string_leb.
Proof. intros a b. unfold string_leb. apply _. Defined.
Definition canonicalQuery (raw : string) : string :=
  if str_eqb raw "" then "" else Join "&" (merge_sort string_leb (Split "&" raw)).
Definition newline : string := String "010" "".

(** The headers that are signed. *)
Definition signed_headers (r : http_request) : list (string * string) :=
  merge_sort by_name (("host", url_host (hr_url r)) ::
    omap (λ kv, let lk := RawURL.map_chars lower_char kv.1 in
       if str_eqb lk "content-type" || has_prefix "x-amz-" lk then Some (lk, TrimSpace kv.2) else None) (hr_headers r)).
Definition canonical_request (r : http_request) (payload : string) : string :=
  let hs := signed_headers r in
  let path := EscapedPath (hr_url r) in
  Join newline [hr_method r; (if str_eqb path "" then "/" else path); canonicalQuery (RawQuery (hr_url r));
                Join "" ((λ h, h.1 +:+ ":" +:+ h.2 +:+ newline) <$> hs); Join ";" hs.*1; hex (Sum256 payload)].
Definition SignV4 (r : http_request) (payload region service : string) (c : Creds) (t : Z) : http_request :=
  let r := Request (hr_method r) (hr_url r) (hr_headers r ++ [("X-Amz-Date", amz_date t)] ++
             (if str_eqb (SessionToken c) "" then [] else [("X-Amz-Security-Token", SessionToken c)])) (hr_body r) in
  let scope := Join "/" [date_stamp t; region; service; "aws4_request"] in
  let stringToSign := Join newline ["AWS4-HMAC-SHA256"; amz_date t; scope; hex (Sum256 (canonical_request r payload))] in
  let kSigning := hmacSHA256 (hmacSHA256 (hmacSHA256 (hmacSHA256
    (String.list_byte_of_string ("AWS4" +:+ SecretKey c)) (date_stamp t)) region) service) "aws4_request" in
  Request (hr_method r) (hr_url r) (hr_headers r ++
    [("Authorization", "AWS4-HMAC-SHA256 Credential=" +:+ AccessKey c +:+ "/" +:+ scope +:+ ", SignedHeaders=" +:+
      Join ";" (signed_headers r).*1 +:+ ", Signature=" +:+ hex (hmacSHA256 kSigning stringToSign))]) (hr_body r).

(** * [kms/kms.go] *)
Record Config := MkConfig {
  cf_Provider : string; KeyID : string;
  VaultAddr : string; VaultToken : string; VaultCACertFile : string; VaultTLSSkipVerify : bool;
  AWSRegion : string; AWSAccessKey : string; AWSSecretKey : string; AWSSessionToken : string; AWSEndpoint : string;
  AzureVaultURL : string; AzureTenantID : string; AzureClientID : string; AzureClientSecret : string;
  GCPCredentialsJSON : string; GCPCredentialsFile : string;
}.
Definition ProviderConfigured (c : Config) : bool :=
  let p := TrimSpace (cf_Provider c) in negb (str_eqb p "") && negb (str_eqb p "local").

(** The backends with their settings; for Vault, whether it takes any certificate, and its roots. *)
Inductive Provider :=
| Local
| vaultTransit (addr token key : string) (skip : bool) (roots : option string)
| awsKMS (endpoint region keyID : string) (creds : Creds)
| azureKeyVault (vaultURL keyName tenantID clientID secret : string)
| gcpKMS (keyName clientEmail tokenURI : string) (privKey : rsa_key).
Definition Name (p : Provider) : string :=
  match p with
  | Local => "local" | vaultTransit _ _ _ _ _ => "vault-transit" | awsKMS _ _ _ _ => "aws-kms"
  | azureKeyVault _ _ _ _ _ => "azure-keyvault" | gcpKMS _ _ _ _ => "gcp-kms"
  end.

Definition newVaultTransit (c : Config) : res string Provider :=
  let addr := TrimRight "/" (TrimSpace (VaultAddr c)) in
  if str_eqb addr "" then Err "FLEET_KMS_VAULT_ADDR is required"
  else if blank (VaultToken c) then Err "FLEET_KMS_VAULT_TOKEN is required"
  else if blank (KeyID c) then Err "FLEET_KMS_KEY_ID is required"
  else
    let ok roots := Ok (vaultTransit addr (VaultToken c) (KeyID c) (VaultTLSSkipVerify c) roots) in
    if str_eqb (VaultCACertFile c) "" then ok None
    else
      match ReadFile (VaultCACertFile c) with
      | None => Err "read CA cert"
      | Some pem => if AppendCertsFromPEM pem then ok (Some pem) else Err "no certificates parsed"
      end.
Definition newAWSKMS (c : Config) : res string Provider :=
  let region := TrimSpace (AWSRegion c) in
  if str_eqb region "" then Err "FLEET_KMS_AWS_REGION is required"
  else if blank (KeyID c) then Err "FLEET_KMS_KEY_ID is required"
  else if blank (AWSAccessKey c) || blank (AWSSecretKey c) then Err "FLEET_KMS_AWS_ACCESS_KEY_ID and FLEET_KMS_AWS_SECRET_ACCESS_KEY are required"
  else
    let endpoint := TrimRight "/" (TrimSpace (AWSEndpoint c)) in
    let endpoint := if str_eqb endpoint "" then "https://kms." +:+ region +:+ ".amazonaws.com" else endpoint in
    Ok (awsKMS endpoint region (KeyID c) (MkCreds (AWSAccessKey c) (AWSSecretKey c) (AWSSessionToken c))).
Definition newAzureKeyVault (c : Config) : res string Provider :=
  let vault := TrimRight "/" (TrimSpace (AzureVaultURL c)) in
  if str_eqb vault "" then Err "FLEET_KMS_AZURE_VAULT_URL is required"
  else if blank (KeyID c) then Err "FLEET_KMS_KEY_ID is required"
  else if existsb blank [AzureTenantID c; AzureClientID c; AzureClientSecret c] then Err "an Azure setting is required"
  else Ok (azureKeyVault vault (KeyID c) (AzureTenantID c) (AzureClientID c) (AzureClientSecret c)).
Definition parseRSAPrivateKey (pem : string) : res string rsa_key :=
  match pem_Decode pem with
  | None => Err "no PEM block in private key"
  | Some block =>
    match ParsePKCS8PrivateKey block with
    | Some (Some k) => Ok k
    | Some None => Err "private key is not RSA"
    | None => match ParsePKCS1PrivateKey block with Some k => Ok k | None => Err "private key" end
    end
  end.
Definition newGCPKMS (c : Config) : res string Provider :=
  if blank (KeyID c) then Err "FLEET_KMS_KEY_ID is required"
  else
    r ← (if str_eqb (GCPCredentialsJSON c) "" && negb (str_eqb (GCPCredentialsFile c) "")
         then match ReadFile (GCPCredentialsFile c) with Some b => Ok b | None => Err "read credentials file" end
         else Ok (GCPCredentialsJSON c));
    if str_eqb r "" then Err "FLEET_KMS_GCP_CREDENTIALS or FLEET_KMS_GCP_CREDENTIALS_FILE is required"
    else
      match parse_account r with
      | None => Err "parse service-account JSON"
      | Some sa =>
        if str_eqb (ClientEmail sa) "" || str_eqb (PrivateKey sa) "" then Err "service-account JSON missing client_email/private_key"
        else
          priv ← parseRSAPrivateKey (PrivateKey sa);
          Ok (gcpKMS (KeyID c) (ClientEmail sa)
                (if str_eqb (TokenURI sa) "" then "https://oauth2.googleapis.com/token" else TokenURI sa) priv)
      end.
Definition New (c : Config) : res string Provider :=
  let p := TrimSpace (cf_Provider c) in
  if str_eqb p "" || str_eqb p "local" then Ok Local
  else if str_eqb p "vault-transit" then newVaultTransit c
  else if str_eqb p "aws-kms" then newAWSKMS c
  else if str_eqb p "azure-keyvault" then newAzureKeyVault c
  else if str_eqb p "gcp-kms" then newGCPKMS c
  else Err "unknown provider".

(** * Calls *)
Definition awsKMSPrefix := "awskms:v1:".
Definition azureKeyVaultPrefix := "azurekv:v1:".
Definition gcpKMSPrefix := "gcpkms:v1:".

(** What all the backends make of an answer that is to be JSON. *)
Definition read_answer (a : option answer) : res string answer :=
  match a with
  | None => Err "request failed"
  | Some a => if negb (status a =? 200) then Err "HTTP status" else if unmarshals a then Ok a else Err "decode response"
  end.
Definition vault_request (addr token path : string) (fields : list (string * string)) : http_request :=
  Request "POST" (addr +:+ path) [("X-Vault-Token", token); ("Content-Type", "application/json")] (JSON fields).
Definition aws_request (endpoint region service ty target : string) (c : Creds) (fields : list (string * string)) (t : Z) : http_request :=
  SignV4 (Request "POST" endpoint [("Content-Type", ty); ("X-Amz-Target", target)] (JSON fields))
    (body_bytes (JSON fields)) region service c t.
Definition bearer_request (method url token : string) (b : body) : http_request :=
  Request method url (("Authorization", "Bearer " +:+ token) ::
    match b with NoBody => [] | _ => [("Content-Type", "application/json")] end) b.

Definition send (r : http_request) : K (res string answer) :=
  if negb (request_ok (hr_method r) (hr_url r)) then mret (Err "bad URL")
  else a ← client_Do r; mret (read_answer a).
Definition aws_call (endpoint region keyService target : string) (c : Creds) (fields : list (string * string)) : K (res string answer) :=
  if negb (request_ok "POST" endpoint) then mret (Err "bad URL")
  else
    now ← time_now;
    a ← client_Do (aws_request endpoint region keyService "application/x-amz-json-1.1" target c fields now);
    mret (read_answer a).

(** The access token of Azure and of Google, kept until a minute before its end. *)
Definition cached_token : K (option string) :=
  s ← peek id;
  if str_eqb (k_token s) "" then mret None
  else now ← time_now; mret (if 60 * second <? k_tokenExp s - now then Some (k_token s) else None).
Definition token_request (url : string) (fields : list (string * string)) : http_request :=
  Request "POST" url [("Content-Type", "application/x-www-form-urlencoded")] (Form fields).
Definition fetch_token (r : http_request) : K (res string (string * Z)) :=
  if negb (request_ok "POST" (hr_url r)) then mret (Err "bad URL")
  else
    a ← client_Do r;
    match a with
    | None => mret (Err "token request failed")
    | Some a =>
      if negb (status a =? 200) then mret (Err "token HTTP status")
      else if negb (unmarshals a) || str_eqb (field a "access_token") "" then mret (Err "bad token response")
      else mret (Ok (field a "access_token", number a "expires_in"))
    end.
Definition azure_bearer (tenant client secret : string) : K (res string string) :=
  c ← cached_token;
  match c with
  | Some t => mret (Ok t)
  | None =>
    r ← fetch_token (token_request ("https://login.microsoftonline.com/" +:+ PathEscape tenant +:+ "/oauth2/v2.0/token")
          [("grant_type", "client_credentials"); ("client_id", client); ("client_secret", secret);
           ("scope", "https://vault.azure.net/.default")]);
    match r with
    | Err e => mret (Err e)
    | Ok (t, expires) => now ← time_now; _ ← effect (set_token t (now + wrap64 (expires * second))); mret (Ok t)
    end
  end.
Definition quoted (s : string) : string := String "034" (s +:+ String "034" "").
Definition jwt_header : string :=
  "{" +:+ quoted "alg" +:+ ":" +:+ quoted "RS256" +:+ "," +:+ quoted "typ" +:+ ":" +:+ quoted "JWT" +:+ "}".
Definition signJWT (email uri : string) (k : rsa_key) (now : Z) : K (option string) := draw (λ n,
  let input := RawURL.EncodeToString (String.list_byte_of_string jwt_header) +:+ "." +:+
    RawURL.EncodeToString (jwt_claims email uri now) in
  (λ sig, input +:+ "." +:+ RawURL.EncodeToString sig) <$> SignPKCS1v15 n k (Sum256 input)).
Definition gcp_bearer (email uri : string) (k : rsa_key) : K (res string string) :=
  c ← cached_token;
  match c with
  | Some t => mret (Ok t)
  | None =>
    now ← time_now;
    j ← signJWT email uri k now;
    match j with
    | None => mret (Err "sign JWT")
    | Some assertion =>
      r ← fetch_token (token_request uri [("grant_type", "urn:ietf:params:oauth:grant-type:jwt-bearer"); ("assertion", assertion)]);
      match r with
      | Err e => mret (Err e)
      | Ok (t, expires) => _ ← effect (set_token t (now + wrap64 (expires * second))); mret (Ok t)
      end
    end
  end.

(** ** One key operation of a backend: the request, and where its answer has the result *)
Definition vault_op (addr token key op name value : string) : K (res string answer) :=
  send (vault_request addr token ("/v1/transit/" +:+ op +:+ "/" +:+ key) [(name, value)]).
Definition aws_op (endpoint region keyID : string) (c : Creds) (target : string) (fields : list (string * string)) : K (res string answer) :=
  aws_call endpoint region "kms" target c (("KeyId", keyID) :: fields).
Definition azure_url (vaultURL keyName op : string) : string :=
  vaultURL +:+ "/keys/" +:+ PathEscape keyName +:+ op +:+ "?api-version=7.4".
Definition keyOp (vaultURL keyName tenant client secret op value : string) : K (res string answer) :=
  t ← azure_bearer tenant client secret;
  match t with
  | Err e => mret (Err e)
  | Ok t => send (bearer_request "POST" (azure_url vaultURL keyName ("/" +:+ op)) t (JSON [("alg", "RSA-OAEP-256"); ("value", value)]))
  end.
Definition gcp_url (keyName : string) : string := "https://cloudkms.googleapis.com/v1/" +:+ keyName.
Definition cryptoOp (keyName email uri : string) (k : rsa_key) (op name value : string) : K (res string answer) :=
  t ← gcp_bearer email uri k;
  match t with
  | Err e => mret (Err e)
  | Ok t => send (bearer_request "POST" (gcp_url keyName +:+ ":" +:+ op) t (JSON [(name, value)]))
  end.

(** The marked result of wrapping, and the decoded one of unwrapping. *)
Definition tagged (prefix path : string) (r : res string answer) : res string string :=
  a ← r; if str_eqb (field a path) "" then Err "empty ciphertext" else Ok (prefix +:+ field a path).
Definition decoded (decode : string → option bytes) (path : string) (r : res string answer) : res string bytes :=
  a ← r; match decode (field a path) with Some pt => Ok pt | None => Err "decode plaintext" end.
(** A read of the key's metadata; [None]: healthy. *)
Definition get_key (r : http_request) : K (option string) :=
  if negb (request_ok "GET" (hr_url r)) then mret (Some "bad URL")
  else
    a ← client_Do r;
    mret (match a with
          | None => Some "unreachable"
          | Some a => if status a =? 200 then None else Some "key check failed"
          end).

(** ** The backends *)
Definition vaultTransit_Wrap addr token key (plaintext : bytes) : K (res string string) :=
  r ← vault_op addr token key "encrypt" "plaintext" (Base64.encode plaintext); mret (tagged "" "data.ciphertext" r).
Definition vaultTransit_Unwrap addr tok key (token : string) : K (res string bytes) :=
  if negb (has_prefix "vault:" token) then mret (Err "token is not a Vault ciphertext")
  else r ← vault_op addr tok key "decrypt" "ciphertext" token; mret (decoded Base64.decode "data.plaintext" r).
Definition vaultTransit_Health addr token key : K (option string) :=
  get_key (Request "GET" (addr +:+ "/v1/transit/keys/" +:+ key) [("X-Vault-Token", token)] NoBody).

Definition awsKMS_Wrap endpoint region keyID c (plaintext : bytes) : K (res string string) :=
  r ← aws_op endpoint region keyID c "TrentService.Encrypt" [("Plaintext", Base64.encode plaintext)];
  mret (tagged awsKMSPrefix "CiphertextBlob" r).
Definition awsKMS_Unwrap endpoint region keyID c (token : string) : K (res string bytes) :=
  if negb (has_prefix awsKMSPrefix token) then mret (Err "token is not an AWS KMS ciphertext")
  else
    r ← aws_op endpoint region keyID c "TrentService.Decrypt" [("CiphertextBlob", TrimPrefix awsKMSPrefix token)];
    mret (decoded Base64.decode "Plaintext" r).
Definition awsKMS_Health endpoint region keyID c : K (option string) :=
  r ← aws_op endpoint region keyID c "TrentService.DescribeKey" [];
  mret (match r with Ok _ => None | Err e => Some e end).

Definition azureKeyVault_Wrap u key tenant client secret (plaintext : bytes) : K (res string string) :=
  r ← keyOp u key tenant client secret "wrapkey" (RawURL.EncodeToString plaintext);
  mret (tagged azureKeyVaultPrefix "value" r).
Definition azureKeyVault_Unwrap u key tenant client secret (token : string) : K (res string bytes) :=
  if negb (has_prefix azureKeyVaultPrefix token) then mret (Err "token is not an Azure Key Vault ciphertext")
  else
    r ← keyOp u key tenant client secret "unwrapkey" (TrimPrefix azureKeyVaultPrefix token);
    mret (decoded RawURL.DecodeString "value" r).
Definition azureKeyVault_Health u key tenant client secret : K (option string) :=
  t ← azure_bearer tenant client secret;
  match t with Err e => mret (Some e) | Ok t => get_key (bearer_request "GET" (azure_url u key "") t NoBody) end.

Definition gcpKMS_Wrap key email uri k (plaintext : bytes) : K (res string string) :=
  r ← cryptoOp key email uri k "encrypt" "plaintext" (Base64.encode plaintext); mret (tagged gcpKMSPrefix "ciphertext" r).
Definition gcpKMS_Unwrap key email uri k (token : string) : K (res string bytes) :=
  if negb (has_prefix gcpKMSPrefix token) then mret (Err "token is not a GCP KMS ciphertext")
  else
    r ← cryptoOp key email uri k "decrypt" "ciphertext" (TrimPrefix gcpKMSPrefix token);
    mret (decoded Base64.decode "plaintext" r).
Definition gcpKMS_Health key email uri k : K (option string) :=
  t ← gcp_bearer email uri k;
  match t with Err e => mret (Some e) | Ok t => get_key (bearer_request "GET" (gcp_url key) t NoBody) end.

(** ** The interface *)
Definition Wrap (p : Provider) (plaintext : bytes) : K (res string string) :=
  match p with
  | Local => mret (Err "no external provider configured")
  | vaultTransit addr token key _ _ => vaultTransit_Wrap addr token key plaintext
  | awsKMS endpoint region keyID c => awsKMS_Wrap endpoint region keyID c plaintext
  | azureKeyVault u key tenant client secret => azureKeyVault_Wrap u key tenant client secret plaintext
  | gcpKMS key email uri k => gcpKMS_Wrap key email uri k plaintext
  end.
Definition Unwrap (p : Provider) (token : string) : K (res string bytes) :=
  match p with
  | Local => mret (Err "no external provider configured")
  | vaultTransit addr tok key _ _ => vaultTransit_Unwrap addr tok key token
  | awsKMS endpoint region keyID c => awsKMS_Unwrap endpoint region keyID c token
  | azureKeyVault u key tenant client secret => azureKeyVault_Unwrap u key tenant client secret token
  | gcpKMS key email uri k => gcpKMS_Unwrap key email uri k token
  end.
Definition Health (p : Provider) : K (option string) :=
  match p with
  | Local => mret None
  | vaultTransit addr token key _ _ => vaultTransit_Health addr token key
  | awsKMS endpoint region keyID c => awsKMS_Health endpoint region keyID c
  | azureKeyVault u key tenant client secret => azureKeyVault_Health u key tenant client secret
  | gcpKMS key email uri k => gcpKMS_Health key email uri k
  end.
End kms.

(** * Proofs: the URL alphabet *)
Section raw_url.
Import RawURL.

Lemma map_chars_app f a b : map_chars f (a +:+ b) = map_chars f a +:+ map_chars f b.
Proof.
  induction a as [|c a IH]; [done|]. change (String c a +:+ b) with (String c (a +:+ b)). cbn [map_chars].
  rewrite IH. done.
Qed.
Lemma map_chars_length f s : String.length (map_chars f s) = String.length s.
Proof. induction s as [|c s IH]; [done|]. simpl. by rewrite IH. Qed.
Lemma all_chars_cons f c s : all_chars f (String c s) = f c && all_chars f s.
Proof. done. Qed.
Lemma all_chars_map f g s : all_chars f (map_chars g s) = all_chars (λ c, f (g c)) s.
Proof. induction s as [|c s IH]; [done|]. cbn [map_chars]. by rewrite !all_chars_cons, IH. Qed.

Lemma TrimRight_none c s : all_chars (λ d, negb (Ascii.eqb d c)) s = true → TrimRight c s = s.
Proof.
  induction s as [|d s IH]; [done|]. rewrite all_chars_cons. intros [Hd%negb_true_iff Hs]%andb_true_iff.
  simpl. rewrite IH, Hd by done. by destruct s.
Qed.
Lemma TrimRight_all c s : all_chars (λ d, Ascii.eqb d c) s = true → TrimRight c s = "".
Proof. induction s as [|d s IH]; [done|]. rewrite all_chars_cons. intros [Hd Hs]%andb_true_iff. simpl. by rewrite IH, Hd. Qed.
Lemma TrimRight_app c x p : all_chars (λ d, negb (Ascii.eqb d c)) x = true → all_chars (λ d, Ascii.eqb d c) p = true →
  TrimRight c (x +:+ p) = x.
Proof.
  intros Hx Hp. induction x as [|d x IH]; [by apply TrimRight_all|]. rewrite all_chars_cons in Hx.
  apply andb_true_iff in Hx as [Hd%negb_true_iff Hx]. change (String d x +:+ p) with (String d (x +:+ p)).
  simpl. rewrite IH, Hd by done. by destruct x.
Qed.

(** A character of the standard alphabet. *)
Definition in_alphabet (c : ascii) : bool := bool_decide (is_Some (Base64.sextet_of c)).
Lemma char_in_alphabet s : in_alphabet (Base64.char_of s) = true.
Proof. apply bool_decide_eq_true. by rewrite Base64.sextet_char. Qed.
Lemma alphabet_facts c : in_alphabet c = true →
  of_url (to_url c) = c ∧ negb (Ascii.eqb (to_url c) "=") = true ∧
  negb (bool_decide (to_url c ∈ ["+"; "/"; "="]%char)) = true ∧
  Ascii.eqb (to_url c) "010" = false ∧ Ascii.eqb (to_url c) "013" = false.
Proof. destruct c as [[] [] [] [] [] [] [] []]; vm_compute; intros H; (split_and!; done) || discriminate H. Qed.

(** The text without its padding, and the padding its length calls for. *)
Lemma encode_core bs : ∃ core p, Base64.encode bs = core +:+ p ∧ padding (String.length core) = Some p ∧
  all_chars in_alphabet core = true.
Proof.
  induction bs as [bs IH] using (well_founded_induction (Wf_nat.well_founded_ltof _ (@length _))).
  destruct bs as [|x [|y [|z bs]]]; [by exists "", ""|..]; cbn [Base64.encode].
  - destruct (Byte.to_bits x) as (?&?&?&?&?&?&?&?).
    eexists (String _ (String _ "")), "==". split_and!; [done..|]. by rewrite !all_chars_cons, !char_in_alphabet.
  - destruct (Byte.to_bits x) as (?&?&?&?&?&?&?&?), (Byte.to_bits y) as (?&?&?&?&?&?&?&?).
    eexists (String _ (String _ (String _ ""))), "=". split_and!; [done..|]. by rewrite !all_chars_cons, !char_in_alphabet.
  - destruct (Byte.to_bits x) as (?&?&?&?&?&?&?&?), (Byte.to_bits y) as (?&?&?&?&?&?&?&?), (Byte.to_bits z) as (?&?&?&?&?&?&?&?).
    destruct (IH bs) as (core & p & -> & Hp & Hc); [unfold Wf_nat.ltof; simpl; lia|].
    eexists (String _ (String _ (String _ (String _ core)))), p. split_and!; [done|..].
    + cbn [String.length]. unfold padding in *.
      replace (S (S (S (S (String.length core))))) with (String.length core + 1 * 4)%nat by lia. by rewrite Nat.Div0.mod_add.
    + by rewrite !all_chars_cons, !char_in_alphabet.
Qed.

Lemma map_chars_back s : all_chars in_alphabet s = true → map_chars of_url (map_chars to_url s) = s.
Proof.
  induction s as [|c s IH]; [done|]. rewrite all_chars_cons. intros [Hc Hs]%andb_true_iff. cbn [map_chars].
  rewrite IH by done. by destruct (alphabet_facts c Hc) as (-> & _).
Qed.
Lemma strip_url s : all_chars in_alphabet s = true → Base64.strip_newlines (map_chars to_url s) = map_chars to_url s.
Proof.
  induction s as [|c s IH]; [done|]. rewrite all_chars_cons. intros [Hc Hs]%andb_true_iff. cbn [map_chars Base64.strip_newlines].
  destruct (alphabet_facts c Hc) as (_ & _ & _ & -> & ->). cbn [orb]. by rewrite IH.
Qed.
Lemma padding_only s p : padding (String.length s) = Some p → all_chars (λ d, Ascii.eqb d "=") p = true ∧
  map_chars to_url p = p ∧ Base64.strip_newlines p = p.
Proof. unfold padding. destruct (_ mod 4)%nat as [|[|[|[|]]]]; by intros [= <-]. Qed.
Lemma strip_core s : all_chars in_alphabet s = true → ∀ p, Base64.strip_newlines p = p → Base64.strip_newlines (s +:+ p) = s +:+ p.
Proof.
  intros Hs p Hp. induction s as [|c s IH]; [done|]. rewrite all_chars_cons in Hs. apply andb_true_iff in Hs as [Hc Hs].
  change (String c s +:+ p) with (String c (s +:+ p)). cbn [Base64.strip_newlines]. rewrite IH by done.
  assert (Ascii.eqb c "010" || Ascii.eqb c "013" = false) as ->; [|done].
  clear -Hc. destruct c as [[] [] [] [] [] [] [] []]; vm_compute in Hc |- *; done.
Qed.

Lemma decode_encode_url bs : DecodeString (EncodeToString bs) = Some bs.
Proof.
  unfold DecodeString, EncodeToString. pose proof (Base64.decode_encode bs) as Hd. unfold Base64.decode in Hd.
  destruct (encode_core bs) as (core & p & He & Hp & Hc). rewrite He in Hd |- *.
  destruct (padding_only core p Hp) as (Hpe & Hpm & Hps). rewrite map_chars_app, Hpm, TrimRight_app; [|rewrite all_chars_map|done].
  - rewrite strip_url, all_chars_map, map_chars_length by done.
    rewrite (all_chars_impl in_alphabet) by (done || by intros c Hcc; apply alphabet_facts). rewrite Hp. cbn [mbind option_bind].
    rewrite map_chars_back by done. by rewrite strip_core in Hd.
  - eapply all_chars_impl; [|exact Hc]. intros c Hcc. by apply alphabet_facts.
Qed.
End raw_url.

(** * Proofs: wrapping and unwrapping *)
Section roundtrip.
Context `{!KeyWorld, !Env kstate}.

Definition answered (n : nat) (r : http_request) (a : answer) : Prop :=
  respond n r = Some a ∧ status a = 200 ∧ unmarshals a = true.
Definition vault_key_request (addr tok key op name v : string) : http_request :=
  vault_request addr tok ("/v1/transit/" +:+ op +:+ "/" +:+ key) [(name, v)].
Definition aws_key_request (endpoint region keyID target name v : string) (c : Creds) (t : Z) : http_request :=
  aws_request endpoint region "kms" "application/x-amz-json-1.1" target c [("KeyId", keyID); (name, v)] t.
Definition azure_key_request (u key op tok v : string) : http_request :=
  bearer_request "POST" (azure_url u key ("/" +:+ op)) tok (JSON [("alg", "RSA-OAEP-256"); ("value", v)]).
Definition gcp_key_request (key op tok name v : string) : http_request :=
  bearer_request "POST" (gcp_url key +:+ ":" +:+ op) tok (JSON [(name, v)]).

(** The services open what they sealed under the same key, whenever they answer: what a key
    management service is for. Vault marks its ciphertexts. *)
Class Faithful : Prop := {
  vault_opens n m addr tok key v a a' : answered n (vault_key_request addr tok key "encrypt" "plaintext" v) a →
    answered m (vault_key_request addr tok key "decrypt" "ciphertext" (field a "data.ciphertext")) a' →
    field a' "data.plaintext" = v;
  vault_marks n addr tok key v a : answered n (vault_key_request addr tok key "encrypt" "plaintext" v) a →
    field a "data.ciphertext" ≠ "" → has_prefix "vault:" (field a "data.ciphertext") = true;
  aws_opens n m endpoint region key c t t' v a a' :
    answered n (aws_key_request endpoint region key "TrentService.Encrypt" "Plaintext" v c t) a →
    answered m (aws_key_request endpoint region key "TrentService.Decrypt" "CiphertextBlob" (field a "CiphertextBlob") c t') a' →
    field a' "Plaintext" = v;
  azure_opens n m u key tok tok' v a a' : answered n (azure_key_request u key "wrapkey" tok v) a →
    answered m (azure_key_request u key "unwrapkey" tok' (field a "value")) a' → field a' "value" = v;
  gcp_opens n m key tok tok' v a a' : answered n (gcp_key_request key "encrypt" tok "plaintext" v) a →
    answered m (gcp_key_request key "decrypt" tok' "ciphertext" (field a "ciphertext")) a' → field a' "plaintext" = v;
}.
(** Every request can be made and gets an answer. *)
Definition available : Prop :=
  (∀ m u, request_ok m u = true) ∧ (∀ n r, ∃ a, answered n r a) ∧
  (∀ n r a fs, answered n r a → hr_body r = Form fs → field a "access_token" ≠ "") ∧
  (∀ n k b, is_Some (SignPKCS1v15 n k b)).

(** What a call gives is the answer to a request of a certain form. *)
Definition asks (P : http_request → Prop) (m : M kstate (res string answer)) : Prop := ∀ w,
  (∀ a, (m w).1 = Ok a → ∃ n r, P r ∧ answered n r a) ∧ (available → ∃ a, (m w).1 = Ok a).

Lemma read_answered n r a : read_answer (respond n r) = Ok a → answered n r a.
Proof.
  unfold read_answer, answered. destruct (respond n r) as [b|]; [|done]. destruct (Z.eqb_spec (status b) 200); [|done].
  destruct (unmarshals b) eqn:Hu; [|done]. intros [= ->]. done.
Qed.
Lemma read_available n r : available → ∃ a, read_answer (respond n r) = Ok a.
Proof.
  intros (_ & Ha & _). destruct (Ha n r) as (a & Hr & Hs & Hu). exists a. unfold read_answer. by rewrite Hr, Hs, Hu.
Qed.
Lemma asks_send r : asks (r =.) (send r).
Proof.
  intros w. unfold send. split.
  - intros a. destruct (request_ok _ _); [|done]. cbn. intros Hra%read_answered. eauto.
  - intros Hav. destruct (Hav) as (-> & _). cbn. by apply read_available.
Qed.
Lemma asks_aws endpoint region svc target c fields :
  asks (λ r, ∃ t, r = aws_request endpoint region svc "application/x-amz-json-1.1" target c fields t)
    (aws_call endpoint region svc target c fields).
Proof.
  intros w. unfold aws_call. split.
  - intros a. destruct (request_ok _ _); [|done]. cbn. intros Hra%read_answered. eauto.
  - intros Hav. destruct (Hav) as (-> & _). cbn. by apply read_available.
Qed.

Lemma fetch_available url fs w : available → ∃ t e, (fetch_token (token_request url fs) w).1 = Ok (t, e).
Proof.
  intros (Hok & Ha & Ht & _). unfold fetch_token. cbn [hr_url token_request]. rewrite Hok. cbn [negb].
  destruct (Ha (w_tick w) (token_request url fs)) as (a & Han). pose proof (Ht _ _ _ _ Han eq_refl) as Hne.
  destruct Han as (Hr & Hs & Hu). rewrite run_bind. cbn [fst snd client_Do]. rewrite Hr, Hs, Hu. cbn [negb orb Z.eqb Pos.eqb].
  destruct (str_eqb (field a "access_token") "") eqn:He; [by apply str_eqb_eq in He|]. cbn. eauto.
Qed.
Lemma azure_available tenant client secret w : available → ∃ t, (azure_bearer tenant client secret w).1 = Ok t.
Proof.
  intros Hav. unfold azure_bearer. rewrite run_bind. destruct (cached_token w) as [[t|] w1]; [by exists t|]. cbn [fst snd].
  rewrite run_bind. match goal with |- context [fetch_token (token_request ?u ?f) ?w] => destruct (fetch_available u f w Hav) as (t & e & ->) end.
  by exists t.
Qed.
Lemma gcp_available email uri k w : available → ∃ t, (gcp_bearer email uri k w).1 = Ok t.
Proof.
  intros Hav. unfold gcp_bearer. rewrite run_bind. destruct (cached_token w) as [[t|] w1]; [by exists t|]. cbn [fst snd].
  rewrite run_bind. cbn [time_now fst snd]. rewrite run_bind. unfold signJWT, draw. cbn [fst snd].
  destruct Hav as (H1 & H2 & H3 & Hsig). destruct (Hsig (w_tick (World (S (w_tick w1)) (w_db w1))) k
    (Sum256 (RawURL.EncodeToString (String.list_byte_of_string jwt_header) +:+ "." +:+
      RawURL.EncodeToString (jwt_claims email uri (clock (w_tick w1)))))) as [sig ->]. cbn [fmap option_fmap option_map].
  rewrite run_bind. match goal with |- context [fetch_token (token_request ?u ?f) ?w] =>
    destruct (fetch_available u f w (conj H1 (conj H2 (conj H3 Hsig)))) as (t & e & ->) end.
  by exists t.
Qed.

Lemma asks_bearer (m : M kstate (res string string)) (mk : string → http_request) :
  (∀ w, available → ∃ t, (m w).1 = Ok t) →
  asks (λ r, ∃ t, r = mk t) (t ← m; match t with Err e => mret (Err e) | Ok t => send (mk t) end).
Proof.
  intros Hm w. rewrite run_bind. split.
  - intros a. destruct (m w).1 as [t|e]; [|done]. intros Hm1. destruct (asks_send (mk t) (m w).2) as [Hs _].
    destruct (Hs a Hm1) as (n & r & <- & Ha). eauto.
  - intros Hav. destruct (Hm w Hav) as [t ->]. destruct (asks_send (mk t) (m w).2) as [_ Hs]. eauto.
Qed.
Lemma asks_keyOp u key tenant client secret op v :
  asks (λ r, ∃ t, r = azure_key_request u key op t v) (keyOp u key tenant client secret op v).
Proof. apply (asks_bearer (azure_bearer tenant client secret) (λ t, azure_key_request u key op t v)). intros. by apply azure_available. Qed.
Lemma asks_cryptoOp key email uri k op name v :
  asks (λ r, ∃ t, r = gcp_key_request key op t name v) (cryptoOp key email uri k op name v).
Proof. apply (asks_bearer (gcp_bearer email uri k) (λ t, gcp_key_request key op t name v)). intros. by apply gcp_available. Qed.

(** Two calls of a backend, the second on the result of the first. *)
Lemma opens_back (seal open : M kstate (res string answer)) (Ps Po : http_request → Prop) (ppath : string)
    (decode : string → option bytes) pt (w w' : world kstate) a :
  asks Ps seal → asks Po open → (seal w).1 = Ok a →
  (∀ n m r r' a', Ps r → answered n r a → Po r' → answered m r' a' → decode (field a' ppath) = Some pt) →
  let r := decoded decode ppath (open w').1 in
  (∀ pt', r = Ok pt' → pt' = pt) ∧ (available → r = Ok pt).
Proof.
  intros Hs Ho Ha Hd. destruct (Hs w) as [Hs1 _]. destruct (Hs1 a Ha) as (n & r & Hr & Han).
  destruct (Ho w') as [Ho1 Ho2]. unfold decoded. split.
  - intros pt'. destruct (open w').1 as [a'|e] eqn:He; [|done]. destruct (Ho1 a' eq_refl) as (m & r' & Hr' & Han'). cbn.
    rewrite (Hd n m r r' a') by done. by intros [= ->].
  - intros Hav. destruct (Ho2 Hav) as [a' He]. destruct (Ho1 a' He) as (m & r' & Hr' & Han'). rewrite He. cbn. by rewrite (Hd n m r r' a').
Qed.

Definition mark (p : Provider) : string :=
  match p with
  | Local => "" | vaultTransit _ _ _ _ _ => "vault:" | awsKMS _ _ _ _ => awsKMSPrefix
  | azureKeyVault _ _ _ _ _ => azureKeyVaultPrefix | gcpKMS _ _ _ _ => gcpKMSPrefix
  end.
Lemma Unwrap_unmarked p token w : has_prefix (mark p) token = false → ∃ e, Unwrap p token w = (Err e, w).
Proof. destruct p; cbn [mark]; intros Hm; [by eexists|..]; unfold Unwrap, vaultTransit_Unwrap, awsKMS_Unwrap, azureKeyVault_Unwrap, gcpKMS_Unwrap; rewrite Hm; cbn [negb]; by eexists. Qed.
Lemma Unwrap_foreign p q token w : has_prefix (mark p) token = true → p ≠ Local → Name q ≠ Name p →
  ∃ e, Unwrap q token w = (Err e, w).
Proof.
  intros [x ->]%has_prefix_spec Hp Hn. destruct q; [by eexists|..];
    (apply Unwrap_unmarked; destruct p; cbn in Hp, Hn; try (exfalso; by apply Hn) || (exfalso; by apply Hp); reflexivity).
Qed.

(** Wrapping is an operation whose answer has a non-empty text at a path, marked. *)
Lemma tagged_inv (r : res string answer) prefix path token :
  tagged prefix path r = Ok token →
  ∃ a, r = Ok a ∧ token = prefix +:+ field a path ∧ field a path ≠ "".
Proof.
  unfold tagged. destruct r as [a|e]; [|done]. cbn. destruct (str_eqb _ "") eqn:He; [done|]. intros [= <-]. exists a. split_and!; [done..|].
  intros Hf. apply str_eqb_eq in Hf. congruence.
Qed.
Lemma TrimPrefix_app p x : TrimPrefix p (p +:+ x) = x.
Proof. unfold TrimPrefix. by rewrite has_prefix_app, str_drop_app. Qed.
Lemma bind_ret {A B} (m : M kstate A) (f : A → B) w : ((a ← m; mret (f a)) w).1 = f (m w).1.
Proof. by rewrite run_bind. Qed.

Lemma Wrap_marks `{!Faithful} p plaintext token w : (Wrap p plaintext w).1 = Ok token → has_prefix (mark p) token = true ∧ p ≠ Local.
Proof.
  destruct p as [|addr tok key skip roots|endpoint region key c|u key tenant client secret|key email uri k]; [done|..];
    unfold Wrap, vaultTransit_Wrap, awsKMS_Wrap, azureKeyVault_Wrap, gcpKMS_Wrap; rewrite bind_ret; intros (a & Ha & -> & Hne)%tagged_inv; (split; [|done]); cbn [mark].
  2-4: apply has_prefix_app.
  destruct (asks_send (vault_key_request addr tok key "encrypt" "plaintext" (Base64.encode plaintext)) w) as [Hs _].
  destruct (Hs a Ha) as (n & r & <- & Han). by eapply vault_marks.
Qed.

Lemma Unwrap_Wrap `{!Faithful} p plaintext token w w' : (Wrap p plaintext w).1 = Ok token →
  (∀ pt, (Unwrap p token w').1 = Ok pt → pt = plaintext) ∧ (available → (Unwrap p token w').1 = Ok plaintext).
Proof.
  intros Hw. destruct (Wrap_marks p plaintext token w Hw) as [Hm _]. revert Hw Hm.
  destruct p as [|addr tok key skip roots|endpoint region key c|u key tenant client secret|key email uri k]; [done|..];
    unfold Wrap, vaultTransit_Wrap, awsKMS_Wrap, azureKeyVault_Wrap, gcpKMS_Wrap; rewrite bind_ret; intros (a & Ha & -> & Hne)%tagged_inv Hm; cbn [mark] in Hm; unfold Unwrap, vaultTransit_Unwrap, awsKMS_Unwrap, azureKeyVault_Unwrap, gcpKMS_Unwrap; rewrite Hm; cbn [negb];
    rewrite bind_ret, ?TrimPrefix_app.
  - refine (opens_back _ _ _ _ "data.plaintext" Base64.decode plaintext w w' a (asks_send _) (asks_send _) Ha _). intros n m r r' a' <- Han <- Han'.
    cbn beta. rewrite (vault_opens n m addr tok key (Base64.encode plaintext) a a' Han Han'). apply Base64.decode_encode.
  - refine (opens_back _ _ _ _ "Plaintext" Base64.decode plaintext w w' a (asks_aws _ _ _ _ _ _) (asks_aws _ _ _ _ _ _) Ha _). intros n m r r' a' [t ->] Han [t' ->] Han'.
    cbn beta. rewrite (aws_opens n m endpoint region key c t t' (Base64.encode plaintext) a a' Han Han'). apply Base64.decode_encode.
  - refine (opens_back _ _ _ _ "value" RawURL.DecodeString plaintext w w' a (asks_keyOp _ _ _ _ _ _ _) (asks_keyOp _ _ _ _ _ _ _) Ha _). intros n m r r' a' [t ->] Han [t' ->] Han'.
    cbn beta. rewrite (azure_opens n m u key t t' (RawURL.EncodeToString plaintext) a a' Han Han'). apply decode_encode_url.
  - refine (opens_back _ _ _ _ "plaintext" Base64.decode plaintext w w' a (asks_cryptoOp _ _ _ _ _ _ _) (asks_cryptoOp _ _ _ _ _ _ _) Ha _). intros n m r r' a' [t ->] Han [t' ->] Han'.
    cbn beta. rewrite (gcp_opens n m key t t' (Base64.encode plaintext) a a' Han Han'). apply Base64.decode_encode.
Qed.
End roundtrip.

(** C34: whatever backend wrapped a passphrase, unwrapping gives that passphrase or an error, and the
    passphrase when the services answer; a backend of another kind refuses the token without
    sending it anywhere. *)
Theorem wrapped_secret_returns `{!KeyWorld, !Env kstate, !Faithful} p plaintext token w w' :
  (Wrap p plaintext w).1 = Ok token →
  (∀ pt, (Unwrap p token w').1 = Ok pt → pt = plaintext) ∧
  (available → (Unwrap p token w').1 = Ok plaintext) ∧
  ∀ q, Name q ≠ Name p → ∃ e, Unwrap q token w' = (Err e, w').
Proof.
  intros Hw. destruct (Unwrap_Wrap p plaintext token w w' Hw) as [H1 H2]. split_and!; [done..|].
  intros q Hq. destruct (Wrap_marks p plaintext token w Hw) as [Hm Hp]. by apply (Unwrap_foreign p).
Qed.

(** ** A concrete service *)
(** It hands back what it is given, marked as Vault marks it where the field is called plaintext. *)
Definition toy_answer (f : string → string) : answer := Answer 200 true f (λ _, 3600) None.
Definition toy_respond (r : http_request) : answer :=
  match hr_body r with
  | JSON [("plaintext", v)] => toy_answer (λ _, "vault:" +:+ v)
  | JSON [("ciphertext", c)] => toy_answer (λ _, str_drop 6 c)
  | JSON [("KeyId", _); (_, v)] | JSON [("alg", _); (_, v)] => toy_answer (λ _, v)
  | _ => toy_answer (λ _, "token")
  end.
Definition toy_key_world : KeyWorld := {|
  respond _ r := Some (toy_respond r); request_ok _ _ := true;
  url_host u := u; EscapedPath _ := ""; RawQuery _ := ""; PathEscape s := s;
  body_bytes _ := ""; ReadFile _ := None; AppendCertsFromPEM _ := false;
  Sum256 s := String.list_byte_of_string s; hmacSHA256 k s := k ++ String.list_byte_of_string s;
  amz_date _ := "20150830T123600Z"; date_stamp _ := "20150830";
  rsa_key := unit; parse_account _ := None; pem_Decode _ := None; ParsePKCS8PrivateKey _ := None;
  ParsePKCS1PrivateKey _ := None; SignPKCS1v15 _ _ b := Some b; jwt_claims _ _ _ := [];
|}.
#[local] Existing Instance toy_key_world.
#[local] Instance toy_faithful : Faithful.
Proof.
  split.
  - intros n m addr tok key v a a' ([= <-] & _) ([= <-] & _). exact (str_drop_app "vault:" v).
  - intros n addr tok key v a ([= <-] & _) _. apply (has_prefix_app "vault:" v).
  - by intros n m endpoint region key c t t' v a a' ([= <-] & _) ([= <-] & _).
  - by intros n m u key tok tok' v a a' ([= <-] & _) ([= <-] & _).
  - intros n m key tok tok' v a a' ([= <-] & _) ([= <-] & _). exact (str_drop_app "vault:" v).
Qed.

Lemma wrapped_secret_returns_witness :
  let p := azureKeyVault "https://v" "k" "t" "c" "s" in let pt := [xff; xee; x01; x02] in
  let w := @World kstate 0 (KState "" 0 []) in
  (Wrap (Env0 := quiet_env) p pt w).1 = Ok "azurekv:v1:_-4BAg" ∧
  ∀ w', (Unwrap (Env0 := quiet_env) p "azurekv:v1:_-4BAg" w').1 = Ok pt.
Proof.
  split; [by vm_compute|]. intros w'.
  apply (wrapped_secret_returns (Env0 := quiet_env) (azureKeyVault "https://v" "k" "t" "c" "s") [xff; xee; x01; x02]
    "azurekv:v1:_-4BAg" (World 0 (KState "" 0 [])) w'); [by vm_compute|].
  unfold available. split; [by intros|split; [|split; [|by intros n k b; eexists]]].
  { intros n r. exists (toy_respond r). unfold answered. split_and!; [done|..]; unfold toy_respond; by repeat case_match. }
  intros n r a fs ([= <-] & _) Hb. unfold toy_respond. by rewrite Hb.
Defined.
