(* ===== verification/ExtSecret.v ===== *)
(** External secrets managers: where a credential that is kept outside is fetched
    ([extsecret/extsecret.go], [extsecret/vaultkv.go], [extsecret/awssecrets.go]).

    Requests, answers and the signature of AWS are those of [Kms]. *)
From S2P Require Import Prelude GoStrings SecretBox NetGuard Kms.
From Stdlib Require Import Strings.Ascii Strings.Byte.

(** * References *)
(** "path#field" *)
Definition splitRef (ref : string) : string * string :=
  match LastIndexByte "#" ref with
  | Some i => (TrimSpace (str_take i ref), TrimSpace (str_drop (S i) ref))
  | None => (TrimSpace ref, "")
  end.
Fixpoint TrimLeft (c : ascii) (s : string) : string :=
  match s with EmptyString => "" | String d t => if Ascii.eqb d c then TrimLeft c t else s end.
(** "mount/sub/path" *)
Definition splitMountPath (mp : string) : option (string * string) :=
  let mp := TrimRight "/" (TrimLeft "/" mp) in
  match IndexByte "/" mp with
  | None => None
  | Some i =>
    if bool_decide (i = 0%nat) || bool_decide (i = String.length mp - 1)%nat then None
    else Some (str_take i mp, str_drop (S i) mp)
  end.
Definition toString (v : any) : string := match v with AString s => s | ANil => "" | AOther printed => printed end.

(** * [extsecret.go] *)
Record Config := MkConfig {
  VaultAddr : string; VaultToken : string; VaultCACertFile : string; VaultTLSSkipVerify : bool;
  AWSRegion : string; AWSAccessKey : string; AWSSecretKey : string; AWSSessionToken : string; AWSEndpoint : string;
}.
Definition ProviderVaultKV := "vault-kv".
Definition ProviderAWSSecrets := "aws-secrets".
Definition Configured (c : Config) : bool :=
  negb (blank (VaultAddr c)) || (negb (blank (AWSRegion c)) && negb (blank (AWSAccessKey c))).
Definition Supported (provider : string) : bool := str_eqb provider ProviderVaultKV || str_eqb provider ProviderAWSSecrets.

Inductive Provider :=
| vaultKV (addr token : string) (skip : bool) (roots : option string)
| awsSecrets (endpoint region : string) (creds : Creds).

Section extsecret.
Context `{!KeyWorld, !Env kstate}.
(** The JSON object a text holds. *)
Context (parse_object : string → option (gmap string any)).

Definition newVaultKV (c : Config) : res string Provider :=
  let addr := TrimRight "/" (TrimSpace (VaultAddr c)) in
  if str_eqb addr "" then Err "FLEET_EXTSECRET_VAULT_ADDR is required"
  else if blank (VaultToken c) then Err "FLEET_EXTSECRET_VAULT_TOKEN is required"
  else
    let ok roots := Ok (vaultKV addr (VaultToken c) (VaultTLSSkipVerify c) roots) in
    if str_eqb (VaultCACertFile c) "" then ok None
    else
      match ReadFile (VaultCACertFile c) with
      | None => Err "read CA cert"
      | Some pem => if AppendCertsFromPEM pem then ok (Some pem) else Err "no certificates parsed"
      end.
Definition newAWSSecrets (c : Config) : res string Provider :=
  let region := TrimSpace (AWSRegion c) in
  if str_eqb region "" then Err "FLEET_EXTSECRET_AWS_REGION is required"
  else if blank (AWSAccessKey c) || blank (AWSSecretKey c)
  then Err "FLEET_EXTSECRET_AWS_ACCESS_KEY_ID and FLEET_EXTSECRET_AWS_SECRET_ACCESS_KEY are required"
  else
    let endpoint := TrimRight "/" (TrimSpace (AWSEndpoint c)) in
    let endpoint := if str_eqb endpoint "" then "https://secretsmanager." +:+ region +:+ ".amazonaws.com" else endpoint in
    Ok (awsSecrets endpoint region (MkCreds (AWSAccessKey c) (AWSSecretKey c) (AWSSessionToken c))).
Definition New (provider : string) (c : Config) : res string Provider :=
  let p := TrimSpace provider in
  if str_eqb p ProviderVaultKV then newVaultKV c
  else if str_eqb p ProviderAWSSecrets then newAWSSecrets c
  else Err "unknown provider".

(** The field of an object; without a name, the only one. *)
Definition pick (data : gmap string any) (name : string) : res string string :=
  if decide (data = ∅) then Err "no data"
  else if str_eqb name "" then
    match map_to_list data with [(_, v)] => Ok (toString v) | _ => Err "multiple fields" end
  else match data !! name with Some v => Ok (toString v) | None => Err "field not found" end.

Definition kv_request (addr token mount path : string) : http_request :=
  Request "GET" (addr +:+ "/v1/" +:+ mount +:+ "/data/" +:+ path) [("X-Vault-Token", token)] NoBody.
Definition secrets_call (endpoint region : string) (c : Creds) (target : string) (fields : list (string * string)) (decode : bool)
    : M kstate (res string answer) :=
  if negb (request_ok "POST" endpoint) then mret (Err "bad URL")
  else
    now ← time_now;
    a ← client_Do (aws_request endpoint region "secretsmanager" "application/x-amz-json-1.1" target c fields now);
    match a with
    | None => mret (Err "request failed")
    | Some a =>
      if (status a <? 200) || (300 <=? status a) then mret (Err "HTTP status")
      else if decode && negb (unmarshals a) then mret (Err "decode response")
      else mret (Ok a)
    end.

Definition Fetch (p : Provider) (ref : string) : M kstate (res string string) :=
  let '(path, name) := splitRef ref in
  match p with
  | vaultKV addr token _ _ =>
    match splitMountPath path with
    | None => mret (Err "reference must be mount/path[#field]")
    | Some (mount, sub) =>
      let r := kv_request addr token mount sub in
      if negb (request_ok "GET" (hr_url r)) then mret (Err "bad URL")
      else
        a ← client_Do r;
        match a with
        | None => mret (Err "request failed")
        | Some a =>
          if negb (status a =? 200) then mret (Err "HTTP status")
          else
            match entries a with
            | None => mret (Err "decode response")
            | Some data => mret (pick data name)
            end
        end
    end
  | awsSecrets endpoint region c =>
    if str_eqb path "" then mret (Err "empty secret reference")
    else
      r ← secrets_call endpoint region c "secretsmanager.GetSecretValue" [("SecretId", path)] true;
      match r with
      | Err e => mret (Err e)
      | Ok a =>
        let text := field a "SecretString" in
        if str_eqb name "" then mret (Ok text)
        else
          match parse_object text with
          | None => mret (Err "secret is not JSON but a field was requested")
          | Some m => match m !! name with Some v => mret (Ok (toString v)) | None => mret (Err "field not found") end
          end
      end
  end.

Definition Health (p : Provider) : M kstate (option string) :=
  match p with
  | vaultKV addr token _ _ =>
    let r := Request "GET" (addr +:+ "/v1/sys/health") [("X-Vault-Token", token)] NoBody in
    if negb (request_ok "GET" (hr_url r)) then mret (Some "bad URL")
    else
      a ← client_Do r;
      mret (match a with
            | None => Some "unreachable"
            | Some a => if (status a =? 200) || (status a =? 429) || (status a =? 473) then None else Some "health"
            end)
  | awsSecrets endpoint region c =>
    r ← secrets_call endpoint region c "secretsmanager.ListSecrets" [("MaxResults", "1")] false;
    mret (match r with Ok _ => None | Err e => Some e end)
  end.
End extsecret.

(** * Proofs: references *)
Section references.
Context `{!KeyWorld, !Env kstate}.

(** The parts of a reference as they are written: no blanks, and each without the mark that ends it. *)
Definition part (c : ascii) (s : string) : Prop := s ≠ "" ∧ all_chars plain_char s = true ∧ has_byte c s = false.
Definition ends_plain (s : string) : Prop := ∃ a d, s = a +:+ String d "" ∧ d ≠ "/"%char.

Lemma splitRef_spec path name : all_chars plain_char path = true → all_chars plain_char name = true → has_byte "#" name = false →
  splitRef (path +:+ "#" +:+ name) = (path, name).
Proof.
  intros Hp Hn Hh. unfold splitRef. change ("#" +:+ name) with (String "#" name). rewrite LastIndexByte_app by done.
  rewrite str_take_app, str_drop_len1, str_drop_S, str_drop_0. by rewrite !TrimSpace_all_plain.
Qed.
Lemma splitMountPath_spec mount sub : part "/" mount → sub ≠ "" → ends_plain sub →
  splitMountPath (mount +:+ "/" +:+ sub) = Some (mount, sub).
Proof.
  intros (Hm & _ & Hs) Hn (a & d & -> & Hd). unfold splitMountPath.
  change ("/" +:+ a +:+ String d "") with (String "/" (a +:+ String d "")).
  assert (TrimLeft "/" (mount +:+ String "/" (a +:+ String d "")) = mount +:+ String "/" (a +:+ String d "")) as ->.
  { destruct mount as [|c m]; [done|]. rewrite has_byte_cons in Hs. apply orb_false_iff in Hs as [Hc _].
    change (String c m +:+ String "/" (a +:+ String d "")) with (String c (m +:+ String "/" (a +:+ String d ""))).
    cbn [TrimLeft]. by rewrite Hc. }
  assert (mount +:+ String "/" (a +:+ String d "") = (mount +:+ String "/" a) +:+ String d "") as Hassoc
    by (by rewrite <- str_app_assoc).
  rewrite Hassoc, TrimRight_keeps, <- Hassoc by done. rewrite IndexByte_app by done.
  rewrite str_take_app, str_drop_len1, str_drop_S, str_drop_0.
  rewrite bool_decide_false by (destruct mount; done).
  rewrite bool_decide_false; [done|]. rewrite str_length_app. cbn [String.length]. rewrite str_length_app. cbn [String.length]. lia.
Qed.

(** A reference "mount/path#field" asks Vault for that path of that mount, once, and gives the
    value of that field or an error. *)
Lemma Fetch_kv parse addr token skip roots mount sub name w :
  part "/" mount → part "#" name → all_chars plain_char sub = true → ends_plain sub →
  let r := kv_request addr token mount sub in
  Fetch parse (vaultKV addr token skip roots) (mount +:+ "/" +:+ sub +:+ "#" +:+ name) w =
    if request_ok "GET" (hr_url r) then
      (match respond (w_tick w) r with
       | None => Err "request failed"
       | Some a =>
         if status a =? 200 then match entries a with Some data => pick data name | None => Err "decode response" end
         else Err "HTTP status"
       end, World (S (w_tick w)) (sent_more r (w_db w)))
    else (Err "bad URL", w).
Proof.
  intros Hm (Hnn & Hnp & Hnh) Hs He r. unfold Fetch.
  assert (mount +:+ "/" +:+ sub +:+ "#" +:+ name = (mount +:+ "/" +:+ sub) +:+ "#" +:+ name) as ->
    by (by rewrite !str_app_assoc).
  rewrite splitRef_spec by (done || (destruct Hm as (_ & Hmp & _); by rewrite !all_chars_app, Hmp, Hs)).
  rewrite splitMountPath_spec; [|done|destruct He as (a & d & -> & _); by destruct a|done]. cbn zeta. fold r.
  destruct (request_ok "GET" (hr_url r)); [|done]. cbn [negb]. rewrite run_bind. cbn [client_Do fst snd].
  destruct (respond _ _) as [a|]; [|done]. destruct (status a =? 200); [|done]. cbn [negb]. by destruct (entries a).
Qed.
End references.

Example split_example : splitRef "secret/db/prod#password" = ("secret/db/prod", "password") ∧
  splitMountPath "secret/db/prod" = Some ("secret", "db/prod").
Proof. done. Qed.
