(* ===== verification/Clock.v ===== *)
(** Civil time: what the code uses of Go's [time] package.

    A location is the offset of its local time from UTC at each instant; time-zone data are
    outside the repository, so locations are arguments of the definitions that use them. *)
From S2P Require Import Prelude.

#[local] Open Scope Z_scope.

Definition Location := Z → Z.
Definition utc : Location := λ _, 0.

(** The local reading of an instant, counted from 1970-01-01 00:00 (a Thursday). *)
Definition wall (loc : Location) (t : Z) : Z := t + loc t.
Definition local_day (loc : Location) (t : Z) : Z := wall loc t / day.
Definition Weekday (loc : Location) (t : Z) : Z := (local_day loc t + 4) mod 7.
Definition Hour (loc : Location) (t : Z) : Z := wall loc t mod day / hour.
Definition Minute (loc : Location) (t : Z) : Z := wall loc t mod hour / minute.

(** [time.Date] for the day of [t]: the instant whose local reading is the given one, looked
    up the way Go does it, with the offset at the reading first. *)
Definition at_local (loc : Location) (l : Z) : Z :=
  if loc l =? 0 then l else l - loc (l - loc l).
Definition Date_on (loc : Location) (t h m : Z) : Z :=
  at_local loc (local_day loc t * day + h * hour + m * minute).

(** * Facts *)
Lemma day_hour : day = 24 * hour.
Proof. done. Qed.
Lemma hour_minute : hour = 60 * minute.
Proof. done. Qed.
Lemma minute_pos : 0 < minute.
Proof. done. Qed.

(** Minutes since local midnight. *)
Lemma Hour_Minute loc t :
  Hour loc t * 60 + Minute loc t = wall loc t mod day / minute ∧
  0 ≤ Hour loc t < 24 ∧ 0 ≤ Minute loc t < 60.
Proof.
  unfold Hour, Minute. pose proof minute_pos as Hm. set (w := wall loc t).
  rewrite day_hour, hour_minute. set (M := minute) in *.
  assert (0 ≤ w mod (24 * (60 * M)) < 24 * (60 * M)) as Hd by (apply Z.mod_pos_bound; lia).
  assert (w mod (60 * M) = (w mod (24 * (60 * M))) mod (60 * M)) as ->.
  { rewrite (Z.mul_comm 24), (Z.rem_mul_r w (60 * M) 24) by lia.
    rewrite (Z.mul_comm (60 * M) ((w / (60 * M)) mod 24)), Z_mod_plus_full.
    symmetry. apply Z.mod_mod. lia. }
  set (r := w mod (24 * (60 * M))) in *.
  assert (0 ≤ r mod (60 * M) < 60 * M) as Hh by (apply Z.mod_pos_bound; lia).
  pose proof (Z.div_mod r (60 * M) ltac:(lia)) as Er.
  set (q := r / (60 * M)) in *. set (s := r mod (60 * M)) in *.
  split_and!.
  - rewrite Er. replace (60 * M * q + s) with (q * 60 * M + s) by lia.
    rewrite Z.div_add_l by lia. lia.
  - subst q. apply Z.div_pos; lia.
  - subst q. apply Z.div_lt_upper_bound; lia.
  - apply Z.div_pos; lia.
  - apply Z.div_lt_upper_bound; lia.
Qed.

Lemma Weekday_range loc t : 0 ≤ Weekday loc t < 7.
Proof. apply Z.mod_pos_bound. lia. Qed.

(** The zone keeps one offset between two instants. *)
Definition steady (loc : Location) (lo hi o : Z) : Prop := ∀ t, lo ≤ t ≤ hi → loc t = o.

Lemma local_day_bounds loc t : local_day loc t * day ≤ wall loc t < local_day loc t * day + day.
Proof.
  unfold local_day. pose proof (Z.mod_pos_bound (wall loc t) day ltac:(done)).
  pose proof (Z.div_mod (wall loc t) day ltac:(done)). lia.
Qed.
