(* ===== verification/AccessPolicy.v ===== *)
(** Attribute-based access policies: [accesspolicy/engine.go] (the rules),
    [accesspolicy/enforcer.go] (their enforcement at each connection attempt),
    [store/accesspolicy.go] and the management API of [accesspolicyapi/handlers.go].

    Time zones and Unicode case folding ([strings.EqualFold]) are parameters: both are
    tables outside the repository. *)
From stdpp Require Import sorting.
From S2P Require Import Prelude Clock.

#[local] Open Scope Z_scope.

(** * Data *)
Record policy := Policy {
  ap_name : string; ap_description : string; ap_enabled : bool; ap_priority : Z;
  ap_environments : list string; ap_tags : list string; ap_protocols : list string;
  ap_exempt : list string; ap_days : list Z; ap_start : Z; ap_end : Z; ap_message : string;
  ap_created_by : uuid; ap_created : Z;
}.

Record Rule := MkRule {
  r_id : uuid; r_name : string; r_priority : Z; r_environments : list string; r_tags : list string;
  r_protocols : list string; r_exempt : list string; r_days : list Z; r_start : Z; r_end : Z;
  r_message : string;
}.
Record Subject := MkSubject { Roles : list string; su_super : bool }.
Record HostAttrs := MkHost { Environment : string; Tags : list string; Protocol : string }.
Record Decision := MkDecision {
  Denied : bool; RuleID : option uuid; RuleName : string; Reason : string;
}.
Definition allow : Decision := MkDecision false None "" "".

Record ConnCtx := MkConn {
  cc_user : uuid; cc_username : string; cc_super : bool; cc_host : uuid; cc_hostname : string;
  cc_attrs : HostAttrs; cc_surface : string; cc_ip : string;
}.

Record audit_row := AuditRow { au_actor : uuid; au_name : string; au_action : string; au_target : uuid }.

Record store := Store {
  policies : gmap uuid policy;
  user_roles : gmap uuid (list string);
  timezone : option string;
  audits : list audit_row;
}.
Definition set_policies (s : store) m := Store m (user_roles s) (timezone s) (audits s).

Class TimeLib := {
  LoadLocation : string → option Location;
  Local : Location;
  EqualFold : string → string → bool;
}.

(** * The engine *)
Section engine.
Context `{!TimeLib}.

Definition anyOverlap (a b : list string) : bool := existsb (λ x, existsb (str_eqb x) b) a.
Definition containsFold (set : list string) (v : string) : bool := existsb (λ s, EqualFold s v) set.
Definition anyOverlapFold (a b : list string) : bool := existsb (containsFold b) a.

Definition mins (loc : Location) (now : Z) : Z := Hour loc now * 60 + Minute loc now.

Definition timeActive (r : Rule) (loc : Location) (now : Z) : bool :=
  if negb (bool_decide (r_days r = [])) && negb (existsb (Z.eqb (Weekday loc now)) (r_days r)) then false
  else if r_start r =? r_end r then true
  else if r_start r <? r_end r
  then (r_start r <=? mins loc now) && (mins loc now <? r_end r)
  else (r_start r <=? mins loc now) || (mins loc now <? r_end r).

Definition matches (r : Rule) (su : Subject) (h : HostAttrs) (loc : Location) (now : Z) : bool :=
  if anyOverlap (Roles su) (r_exempt r) then false
  else if negb (bool_decide (r_environments r = [])) && negb (containsFold (r_environments r) (Environment h))
  then false
  else if negb (bool_decide (r_protocols r = [])) && negb (containsFold (r_protocols r) (Protocol h))
  then false
  else if negb (bool_decide (r_tags r = [])) && negb (anyOverlapFold (Tags h) (r_tags r)) then false
  else if negb (timeActive r loc now) then false
  else true.

Definition deny (r : Rule) : Decision :=
  MkDecision true (Some (r_id r)) (r_name r)
    (if str_eqb (r_message r) "" then "Access denied by policy: " +:+ r_name r else r_message r).

Fixpoint Evaluate_loop (rules : list Rule) su h loc now : Decision :=
  match rules with
  | [] => allow
  | r :: rules' => if matches r su h loc now then deny r else Evaluate_loop rules' su h loc now
  end.
Definition Evaluate (rules : list Rule) (su : Subject) (h : HostAttrs) loc now : Decision :=
  if su_super su then allow else Evaluate_loop rules su h loc now.
End engine.

(** * The store *)

(** [ORDER BY priority, created_at] *)
Definition before (a b : uuid * policy) : Prop :=
  ap_priority a.2 < ap_priority b.2 ∨
  (ap_priority a.2 = ap_priority b.2 ∧ ap_created a.2 ≤ ap_created b.2).
#[export] Instance before_dec : RelDecision before.
Proof. intros a b. unfold before. exact _. Defined.
#[export] Instance before_total : Total before.
Proof. intros [? a] [? b]. unfold before. simpl. lia. Qed.
#[export] Instance before_trans : Transitive before.
Proof. intros [? a] [? b] [? c]. unfold before. simpl. lia. Qed.

Definition EnabledAccessPolicies (now : Z) (s : store) : res store_error (list (uuid * policy)) * store :=
  (Ok (merge_sort before (map_to_list (filter (λ kp, ap_enabled kp.2 = true) (policies s)))), s).

(** [ORDER BY priority, name] *)
Definition listed_before (a b : uuid * policy) : Prop :=
  ap_priority a.2 < ap_priority b.2 ∨
  (ap_priority a.2 = ap_priority b.2 ∧ String.leb (ap_name a.2) (ap_name b.2) = true).
#[export] Instance listed_before_dec : RelDecision listed_before.
Proof. intros a b. unfold listed_before. exact _. Defined.
Definition ListAccessPolicies (now : Z) (s : store) : res store_error (list (uuid * policy)) * store :=
  (Ok (merge_sort listed_before (map_to_list (policies s))), s).

Record AccessPolicyInput := MkInput {
  in_name : string; in_description : string; in_enabled : bool; in_priority : Z;
  in_environments : list string; in_tags : list string; in_protocols : list string;
  in_exempt : list string; in_days : list Z; in_start : Z; in_end : Z; in_message : string;
  in_by : uuid;
}.
Definition row_of (i : AccessPolicyInput) (by_ : uuid) (created : Z) : policy :=
  Policy (in_name i) (in_description i) (in_enabled i) (in_priority i) (in_environments i) (in_tags i)
    (in_protocols i) (in_exempt i) (in_days i) (in_start i) (in_end i) (in_message i) by_ created.

Definition GetAccessPolicy (id : uuid) : Z → store → res store_error policy * store :=
  get_row (λ s, policies s !! id).
Definition insert_policy (i : AccessPolicyInput) (now : Z) (s : store) : res store_error uuid * store :=
  let id := fresh (dom (policies s)) in
  (Ok id, set_policies s (<[id := row_of i (in_by i) now]> (policies s))).
Definition update_policy (id : uuid) (i : AccessPolicyInput) (now : Z) (s : store)
    : res store_error unit * store :=
  (Ok tt, set_policies s (alter (λ p, row_of i (ap_created_by p) (ap_created p)) id (policies s))).
Definition DeleteAccessPolicy (id : uuid) (now : Z) (s : store) : res store_error unit * store :=
  (Ok tt, set_policies s (delete id (policies s))).
Definition UserRoleNames (id : uuid) (now : Z) (s : store) : res store_error (list string) * store :=
  (Ok (default [] (user_roles s !! id)), s).
Definition AppendAudit (a : audit_row) (now : Z) (s : store) : res store_error unit * store :=
  (Ok tt, Store (policies s) (user_roles s) (timezone s) (audits s ++ [a])).

Section enforcer.
Context `{!Env store, !TimeLib}.

Definition CreateAccessPolicy (i : AccessPolicyInput) : M store (res store_error (uuid * policy)) :=
  r ← db (insert_policy i);
  match r with
  | Err e => mret (Err e)
  | Ok id => p ← db (GetAccessPolicy id); mret (p ← p; mret (id, p))
  end.
Definition UpdateAccessPolicy (id : uuid) (i : AccessPolicyInput) : M store (res store_error (uuid * policy)) :=
  r ← db (update_policy id i);
  match r with
  | Err e => mret (Err e)
  | Ok _ => p ← db (GetAccessPolicy id); mret (p ← p; mret (id, p))
  end.

(** * The enforcer *)
Definition compile1 (kp : uuid * policy) : Rule :=
  MkRule kp.1 (ap_name kp.2) (ap_priority kp.2) (ap_environments kp.2) (ap_tags kp.2)
    (ap_protocols kp.2) (ap_exempt kp.2) (ap_days kp.2) (ap_start kp.2) (ap_end kp.2) (ap_message kp.2).
Definition compile (pols : list (uuid * policy)) : list Rule := compile1 <$> pols.

Definition DisplayTimezone : M store string :=
  r ← db (get_row timezone);
  mret (match r with Ok z => z | Err _ => "" end).

Definition fail_closed : Decision := MkDecision true None ""
  "access policy store unavailable; access denied (fail closed) — retry shortly".

Definition Check (user : uuid) (isSuper : bool) (h : HostAttrs) : M store Decision :=
  if isSuper then mret allow
  else
    r ← db EnabledAccessPolicies;
    match r with
    | Err _ => mret fail_closed
    | Ok pols =>
      if bool_decide (pols = []) then mret allow
      else
        ro ← db (UserRoleNames user);
        let roles := match ro with Ok l => l | Err _ => [] end in
        name ← DisplayTimezone;
        let loc := if str_eqb name "" then Local
                   else match LoadLocation name with Some l => l | None => Local end in
        now ← time_now;
        mret (Evaluate (compile pols) (MkSubject roles isSuper) h loc now)
    end.

Definition Authorize (c : ConnCtx) : M store Decision :=
  d ← Check (cc_user c) (cc_super c) (cc_attrs c);
  if Denied d then
    _ ← db (AppendAudit (AuditRow (cc_user c) (cc_username c) "access.denied" (cc_host c)));
    mret d
  else mret d.

(** * The management API *)
Record policyReq := MkReq {
  rq_name : string; rq_description : string; rq_enabled : bool; rq_priority : Z;
  rq_environments : list string; rq_tags : list string; rq_protocols : list string;
  rq_exempt : list string; rq_days : list Z; rq_start : Z; rq_end : Z; rq_message : string;
}.

Definition validate (rq : policyReq) : string :=
  if str_eqb (TrimSpace (rq_name rq)) "" then "name is required"
  else if (rq_start rq <? 0) || (1439 <? rq_start rq) || (rq_end rq <? 0) || (1439 <? rq_end rq)
  then "active time must be minutes since midnight (0–1439)"
  else if existsb (λ d, (d <? 0) || (6 <? d)) (rq_days rq)
  then "active days must be 0 (Sunday) through 6 (Saturday)"
  else if existsb (λ p, negb (str_eqb p "ssh") && negb (str_eqb p "rdp")) (rq_protocols rq)
  then "protocols must be ssh or rdp"
  else "".

Definition toInput (rq : policyReq) (by_ : uuid) : AccessPolicyInput :=
  MkInput (TrimSpace (rq_name rq)) (rq_description rq) (rq_enabled rq) (rq_priority rq)
    (rq_environments rq) (rq_tags rq) (rq_protocols rq) (rq_exempt rq) (rq_days rq) (rq_start rq)
    (rq_end rq) (rq_message rq) by_.

Definition audit (user : uuid) (name action : string) (id : uuid) : M store unit :=
  _ ← db (AppendAudit (AuditRow user name action id)); mret tt.

Definition list_ : M store (reply (list (uuid * policy))) :=
  r ← db ListAccessPolicies;
  mret (match r with
        | Err _ => WriteError 500 "could not list policies"
        | Ok l => WriteJSON 200 l
        end).

(** The decoded body ([None]: it does not decode) and, for [update], the id of the path. *)
Definition create (user : uuid) (name : string) (body : option policyReq)
    : M store (reply (option (uuid * policy))) :=
  match body with
  | None => mret (WriteError 400 "invalid body")
  | Some rq =>
    if negb (str_eqb (validate rq) "") then mret (WriteError 400 (validate rq))
    else
      r ← CreateAccessPolicy (toInput rq user);
      match r with
      | Err _ => mret (WriteError 500 "could not create policy")
      | Ok (id, p) => _ ← audit user name "access_policy.create" id; mret (WriteJSON 201 (Some (id, p)))
      end
  end.
Definition update (user : uuid) (name : string) (id : uuid) (body : option policyReq)
    : M store (reply (option (uuid * policy))) :=
  match body with
  | None => mret (WriteError 400 "invalid body")
  | Some rq =>
    if negb (str_eqb (validate rq) "") then mret (WriteError 400 (validate rq))
    else
      r ← UpdateAccessPolicy id (toInput rq user);
      match r with
      | Err _ => mret (WriteError 500 "could not update policy")
      | Ok (id, p) => _ ← audit user name "access_policy.update" id; mret (WriteJSON 200 (Some (id, p)))
      end
  end.
Definition del (user : uuid) (name : string) (id : uuid) : M store (reply (option (uuid * policy))) :=
  r ← db (DeleteAccessPolicy id);
  match r with
  | Err _ => mret (WriteError 500 "could not delete policy")
  | Ok _ => _ ← audit user name "access_policy.delete" id; mret (WriteJSON 204 None)
  end.
End enforcer.

(** * Proofs *)
Section proofs.
Context `{!Env store, !Quiet Env0, !TimeLib}.

(** The first matching rule decides. *)
Lemma Evaluate_loop_compile l su h loc now :
  StronglySorted before l →
  let d := Evaluate_loop (compile l) su h loc now in
  (Denied d = true ↔ ∃ kp, kp ∈ l ∧ matches (compile1 kp) su h loc now = true) ∧
  (Denied d = true → ∃ kp, kp ∈ l ∧ matches (compile1 kp) su h loc now = true ∧
     d = deny (compile1 kp) ∧
     ∀ kp', kp' ∈ l → matches (compile1 kp') su h loc now = true → kp' = kp ∨ before kp kp').
Proof.
  induction 1 as [|kp l Hl IH Hall]; cbv zeta; simpl.
  { split; [|done]. split; [done|]. by intros (? & ?%not_elem_of_nil & _). }
  destruct (matches (compile1 kp) su h loc now) eqn:Hm.
  - split.
    + split; [|done]. intros _. exists kp. split; [by apply elem_of_cons; left|done].
    + intros _. exists kp. split_and!; [by apply elem_of_cons; left|done|done|].
      intros kp' [->|Hin]%elem_of_cons _; [by left|right]. by eapply Forall_forall in Hall.
  - destruct IH as [IH1 IH2]. split.
    + rewrite IH1. split; intros (k & Hk & Hkm).
      * exists k. split; [by apply elem_of_cons; right|done].
      * apply elem_of_cons in Hk as [->|Hk]; [congruence|eauto].
    + intros Hd. destruct (IH2 Hd) as (k & Hk & Hkm & -> & Hmin).
      exists k. split_and!; [by apply elem_of_cons; right|done|done|].
      intros kp' [->|Hin]%elem_of_cons Hm'; [congruence|by apply Hmin].
Qed.

(** When a policy is about a subject holding [roles], a host and an instant, said of its columns. *)
Definition concerns (p : policy) (roles : list string) (h : HostAttrs) (loc : Location) (now : Z) : Prop :=
  (∀ r, r ∈ ap_exempt p → r ∉ roles) ∧
  (ap_environments p = [] ∨ ∃ e, e ∈ ap_environments p ∧ EqualFold e (Environment h) = true) ∧
  (ap_protocols p = [] ∨ ∃ e, e ∈ ap_protocols p ∧ EqualFold e (Protocol h) = true) ∧
  (ap_tags p = [] ∨ ∃ t t', t ∈ ap_tags p ∧ t' ∈ Tags h ∧ EqualFold t t' = true) ∧
  (ap_days p = [] ∨ Weekday loc now ∈ ap_days p) ∧
  (ap_start p = ap_end p ∨ ap_start p ≤ mins loc now < ap_end p ∨
   ap_end p < ap_start p ∧ (ap_start p ≤ mins loc now ∨ mins loc now < ap_end p)).

(** The policies that forbid an attempt. *)
Definition forbids (s : store) (roles : list string) (h : HostAttrs) (loc : Location) (now : Z) (id : uuid)
    (p : policy) : Prop :=
  policies s !! id = Some p ∧ ap_enabled p = true ∧ concerns p roles h loc now.

Lemma existsb_elem {A} (f : A → bool) l : existsb f l = true ↔ ∃ x, x ∈ l ∧ f x = true.
Proof. rewrite existsb_exists. by setoid_rewrite list_elem_of_In. Qed.

Lemma anyOverlap_spec a b : anyOverlap a b = true ↔ ∃ x, x ∈ a ∧ x ∈ b.
Proof.
  unfold anyOverlap. rewrite existsb_elem. f_equiv; intros x. rewrite existsb_elem. split.
  - by intros (? & y & ? & ->%str_eqb_eq).
  - intros [? Hb]. split; [done|]. exists x. by rewrite str_eqb_eq.
Qed.

Lemma timeActive_spec id p loc now :
  timeActive (compile1 (id, p)) loc now = true ↔
  (ap_days p = [] ∨ Weekday loc now ∈ ap_days p) ∧
  (ap_start p = ap_end p ∨ ap_start p ≤ mins loc now < ap_end p ∨
   ap_end p < ap_start p ∧ (ap_start p ≤ mins loc now ∨ mins loc now < ap_end p)).
Proof.
  unfold timeActive, compile1. simpl. set (m := mins loc now).
  assert (existsb (Z.eqb (Weekday loc now)) (ap_days p) = true ↔ Weekday loc now ∈ ap_days p) as Hd.
  { rewrite existsb_elem. split; [by intros (? & ? & <-%Z.eqb_eq)|]. intros ?. eexists. by rewrite Z.eqb_refl. }
  case_bool_decide as Hn; simpl; [|destruct (existsb _ _); simpl].
  3: { split; [done|]. intros [[?|?%Hd] _]; congruence. }
  all: destruct (Z.eqb_spec (ap_start p) (ap_end p)), (Z.ltb_spec (ap_start p) (ap_end p)); simpl; try lia;
    rewrite ?andb_true_iff, ?orb_true_iff, ?Z.leb_le, ?Z.ltb_lt; intuition lia.
Qed.

Lemma matches_spec id p roles h loc now :
  matches (compile1 (id, p)) (MkSubject roles false) h loc now = true ↔ concerns p roles h loc now.
Proof.
  unfold matches, concerns. rewrite <-(timeActive_spec id). simpl.
  assert (anyOverlap roles (ap_exempt p) = false ↔ ∀ r, r ∈ ap_exempt p → r ∉ roles) as <-.
  { rewrite <-not_true_iff_false, anyOverlap_spec. naive_solver. }
  assert (∀ l v, negb (bool_decide (l = [])) && negb (containsFold l v) = false ↔
    l = [] ∨ ∃ e, e ∈ l ∧ EqualFold e v = true) as Hc.
  { intros l v. unfold containsFold. rewrite <-existsb_elem. case_bool_decide; destruct (existsb _ _); naive_solver. }
  rewrite <-!Hc. clear Hc.
  assert (negb (bool_decide (ap_tags p = [])) && negb (anyOverlapFold (Tags h) (ap_tags p)) = false ↔
    ap_tags p = [] ∨ ∃ t t', t ∈ ap_tags p ∧ t' ∈ Tags h ∧ EqualFold t t' = true) as <-.
  { trans (ap_tags p = [] ∨ anyOverlapFold (Tags h) (ap_tags p) = true).
    - case_bool_decide; destruct (anyOverlapFold _ _); naive_solver.
    - unfold anyOverlapFold, containsFold. rewrite existsb_elem. setoid_rewrite existsb_elem. naive_solver. }
  destruct (anyOverlap _ _), (_ && _), (_ && _), (_ && _), (timeActive _ _ _); naive_solver.
Qed.

Lemma Evaluate_enabled s roles h loc now :
  let d := Evaluate (compile (merge_sort before
    (map_to_list (filter (λ kp, ap_enabled kp.2 = true) (policies s))))) (MkSubject roles false) h loc now in
  (Denied d = true ↔ ∃ id p, forbids s roles h loc now id p) ∧
  (Denied d = true → ∃ id p, forbids s roles h loc now id p ∧ d = deny (compile1 (id, p)) ∧
     ∀ id' p', forbids s roles h loc now id' p' → id' = id ∨ before (id, p) (id', p')).
Proof.
  cbv zeta. unfold Evaluate. cbn [su_super]. set (l := merge_sort _ _).
  assert (∀ id p, (id, p) ∈ l ↔ policies s !! id = Some p ∧ ap_enabled p = true) as Hin.
  { intros id p. subst l. rewrite merge_sort_Permutation, elem_of_map_to_list, map_lookup_filter_Some.
    done. }
  destruct (Evaluate_loop_compile l (MkSubject roles false) h loc now) as [H1 H2]; [apply StronglySorted_merge_sort; exact _|].
  split.
  - rewrite H1. split.
    + intros ([id p] & [??]%Hin & ?%matches_spec). by exists id, p.
    + intros (id & p & ? & ? & ?). exists (id, p). by rewrite Hin, matches_spec.
  - intros Hd. destruct (H2 Hd) as ([id p] & [??]%Hin & ?%matches_spec & -> & Hmin). exists id, p.
    split_and!; [done..|]. intros id' p' (Hp' & He' & Hm').
    destruct (Hmin (id', p')) as [[= -> ->]|?]; [by apply Hin|by apply matches_spec|by left|by right].
Qed.

Lemma DisplayTimezone_run n s :
  DisplayTimezone (World n s) = (if db_err n then "" else default "" (timezone s), World (S n) s).
Proof.
  unfold DisplayTimezone. run_step. destruct (db_err n); [done|]. unfold get_row, reading. cbn.
  by destruct (timezone s).
Qed.

Lemma Check_reads user isSuper h n s : ∃ m, (Check user isSuper h (World n s)).2 = World m s.
Proof.
  unfold Check, DisplayTimezone. destruct isSuper; [by eexists|]. run_step.
  destruct (db_err n); [by eexists|]. cbn [fst snd EnabledAccessPolicies].
  destruct (bool_decide _); [by eexists|]. run_step.
  destruct (db_err (S n)); run_step; destruct (db_err _); run_step; by eexists.
Qed.

(** ** The intra-day window *)
Lemma mins_range loc now : 0 ≤ mins loc now < 1440.
Proof. unfold mins. pose proof (Hour_Minute loc now). lia. Qed.

Lemma window_mod s e m :
  0 ≤ s < 1440 → 0 ≤ e < 1440 → 0 ≤ m < 1440 → s ≠ e →
  (if s <? e then (s <=? m) && (m <? e) else (s <=? m) || (m <? e)) = true ↔
  (m - s) mod 1440 < (e - s) mod 1440.
Proof.
  intros Hs He Hm Hne.
  assert (∀ x, -1440 < x < 1440 → x mod 1440 = if x <? 0 then x + 1440 else x) as Hmod.
  { intros x Hx. destruct (Z.ltb_spec x 0).
    - rewrite <-(Z_mod_plus_full _ 1), Z.mod_small; lia.
    - rewrite Z.mod_small; lia. }
  rewrite !Hmod by lia.
  destruct (Z.ltb_spec s e), (Z.leb_spec s m), (Z.ltb_spec m e), (Z.ltb_spec (m - s) 0),
    (Z.ltb_spec (e - s) 0); simpl; split; intros; try done; lia.
Qed.

(** ** What the API stores *)
Definition valid_policy (p : policy) : Prop :=
  0 ≤ ap_start p < 1440 ∧ 0 ≤ ap_end p < 1440 ∧ Forall (λ d, 0 ≤ d < 7) (ap_days p).
Definition valid (s : store) : Prop := map_Forall (λ _, valid_policy) (policies s).
Definition keeps_valid : relation store := λ s s', valid s → valid s'.
#[export] Instance keeps_valid_preorder : PreOrder keeps_valid.
Proof. split; [by intros ??|]. intros ??? H1 H2 Hv. by apply H2, H1. Qed.

Lemma validate_valid rq by_ created :
  str_eqb (validate rq) "" = true → valid_policy (row_of (toInput rq by_) by_ created).
Proof.
  unfold validate. destruct (str_eqb (TrimSpace _) ""); [done|].
  destruct (_ || _ || _ || _) eqn:Hw; [done|]. destruct (existsb _ (rq_days rq)) eqn:Hd; [done|].
  intros _. rewrite !orb_false_iff, !Z.ltb_ge in Hw.
  split_and!; simpl; try lia. apply Forall_forall. intros d Hin.
  destruct (decide (0 ≤ d < 7)) as [|Hn]; [done|].
  enough (existsb (λ d, (d <? 0) || (6 <? d)) (rq_days rq) = true) by congruence.
  apply existsb_exists. exists d. split; [by apply list_elem_of_In|].
  apply orb_true_iff. rewrite !Z.ltb_lt. lia.
Qed.

Lemma within_CreateAccessPolicy `{!Relies keeps_valid} i :
  (∀ created, valid_policy (row_of i (in_by i) created)) → within keeps_valid (CreateAccessPolicy i).
Proof.
  intros Hi. unfold CreateAccessPolicy. within_tac.
  apply within_db; [exact _..|]. intros now s Hv. by apply map_Forall_insert_2.
Qed.

Lemma within_UpdateAccessPolicy `{!Relies keeps_valid} id i :
  (∀ by_ created, valid_policy (row_of i by_ created)) → within keeps_valid (UpdateAccessPolicy id i).
Proof.
  intros Hi. unfold UpdateAccessPolicy. within_tac.
  apply within_db; [exact _..|]. intros now s Hv k p. simpl. rewrite lookup_alter_Some.
  intros [(-> & p' & _ & ->)|[_ Hp]]; [apply Hi|by eapply Hv].
Qed.

Lemma within_policy_audit `{!Relies keeps_valid} user name action id :
  within keeps_valid (audit user name action id).
Proof. unfold audit. within_tac. apply within_db; [exact _..|]. by intros now s Hv. Qed.
End proofs.

Section properties.
Context `{!Env store, !TimeLib}.

(** C10: The enforcer decides every connection attempt as the policies say and fails closed, while
    nobody else changes the tables. Super admins are never denied. When the policies cannot be read
    the attempt is denied. Otherwise it is denied exactly if some enabled policy concerns it: the
    user holds none of the policy's exempt roles (the roles stored for the user; none when that
    read fails, which only removes exemptions), environment, protocol and tags match, and weekday
    and minute lie in its window by the clock, in the stored zone - the server's own when none is
    stored, it does not load or the read fails. The policy that decides is the one of least
    priority, then the oldest. With no statement failing every denial is written to the audit log. *)
Theorem Authorize_spec `{!Quiet Env0} c n s :
  let r := Authorize c (World n s) in
  let roles := if db_err (S n) then [] else default [] (user_roles s !! cc_user c) in
  let zone := if db_err (S (S n)) then "" else default "" (timezone s) in
  let loc := if str_eqb zone "" then Local else default Local (LoadLocation zone) in
  let now := clock (S (S (S n))) in
  (cc_super c = true → r = (allow, World n s)) ∧
  (cc_super c = false → db_err n = true → r.1 = fail_closed) ∧
  (cc_super c = false → db_err n = false →
    (Denied r.1 = true ↔ ∃ id p, forbids s roles (cc_attrs c) loc now id p) ∧
    (Denied r.1 = true → ∃ id p, forbids s roles (cc_attrs c) loc now id p ∧
       r.1 = deny (compile1 (id, p)) ∧
       ∀ id' p', forbids s roles (cc_attrs c) loc now id' p' → id' = id ∨ before (id, p) (id', p'))) ∧
  (Denied r.1 = true → (∀ m, db_err m = false) →
    audits (w_db r.2) =
      audits s ++ [AuditRow (cc_user c) (cc_username c) "access.denied" (cc_host c)]).
Proof.
  cbv zeta.
  assert ((Authorize c (World n s)).1 = (Check (cc_user c) (cc_super c) (cc_attrs c) (World n s)).1) as Hd.
  { unfold Authorize. rewrite run_bind. destruct (Denied _); [by rewrite run_bind|done]. }
  rewrite Hd. split_and!.
  - intros Hs. unfold Authorize. rewrite run_bind, Hs. done.
  - intros Hs He. unfold Check. rewrite Hs. run_step. by rewrite He.
  - intros Hs He. unfold Check. rewrite Hs. run_step. rewrite He. cbn [fst snd EnabledAccessPolicies].
    match goal with |- context [forbids s ?ro _ ?lo ?no] => pose proof (Evaluate_enabled s ro (cc_attrs c) lo no) as HE end.
    revert HE. set (l := merge_sort _ _). destruct (bool_decide (l = [])) eqn:Hl; intros HE.
    + apply bool_decide_eq_true in Hl. rewrite Hl in HE. exact HE.
    + cbv zeta in HE. rewrite run_bind, run_db.
      destruct (db_err (S n)); cbn [fst snd UserRoleNames]; rewrite run_bind, DisplayTimezone_run;
        cbn [fst snd]; unfold time_now; rewrite run_bind; exact HE.
  - intros Hden Hdb. unfold Authorize. rewrite run_bind, Hden.
    destruct (Check_reads (cc_user c) (cc_super c) (cc_attrs c) n s) as [m ->].
    run_step. by rewrite Hdb.
Qed.

(** The management API stores only well-formed policies, whatever requests interleave with
    it, and for a well-formed policy the activity window means what it says: the policy is active
    when the local weekday is one of its days (all days, if it names none) and the minutes since
    its start, counted around midnight, are fewer than the window's length - always, if start and
    end are equal. *)
Theorem stored_windows user name id body :
  Relies keeps_valid →
  within keeps_valid (create user name body) ∧
  within keeps_valid (update user name id body) ∧
  within keeps_valid (del user name id) ∧
  ∀ s k p loc now, valid s → policies s !! k = Some p →
    let r := compile1 (k, p) in
    timeActive r loc now = true ↔
      (ap_days p = [] ∨ Weekday loc now ∈ ap_days p) ∧
      (ap_start p = ap_end p ∨
       (mins loc now - ap_start p) mod 1440 < (ap_end p - ap_start p) mod 1440).
Proof.
  intros HR. split_and!.
  - unfold create. destruct body as [rq|]; [|apply within_ret; exact _].
    destruct (str_eqb (validate rq) "") eqn:Hv; simpl; [|apply within_ret; exact _].
    apply within_bind; [exact _|apply within_CreateAccessPolicy|intros []; within_tac; by apply within_policy_audit].
    intros created. by apply validate_valid.
  - unfold update. destruct body as [rq|]; [|apply within_ret; exact _].
    destruct (str_eqb (validate rq) "") eqn:Hv; simpl; [|apply within_ret; exact _].
    apply within_bind; [exact _|apply within_UpdateAccessPolicy|intros []; within_tac; by apply within_policy_audit].
    intros by_ created. by apply (validate_valid rq by_ created).
  - unfold del. within_tac; [|by apply within_policy_audit].
    apply within_db; [exact _..|]. intros now s Hv. by apply map_Forall_delete.
  - intros s k p loc now Hv Hp. destruct (Hv _ _ Hp) as (Hs & He & _). cbv zeta. unfold timeActive. simpl.
    assert (existsb (Z.eqb (Weekday loc now)) (ap_days p) = true ↔ Weekday loc now ∈ ap_days p) as Hex.
    { rewrite existsb_exists, list_elem_of_In. split.
      - by intros (d & Hd & ->%Z.eqb_eq).
      - intros Hd. exists (Weekday loc now). by rewrite Z.eqb_refl. }
    destruct (negb (bool_decide _) && negb _) eqn:Hday.
    + apply andb_true_iff in Hday as [Hn%negb_true_iff%bool_decide_eq_false Hn2%negb_true_iff].
      split; [done|]. intros [[?|Hin%Hex] _]; [done|congruence].
    + assert (ap_days p = [] ∨ Weekday loc now ∈ ap_days p) as Hok.
      { apply andb_false_iff in Hday as [Hn%negb_false_iff%bool_decide_eq_true|Hn%negb_false_iff];
          [by left|right; by apply Hex]. }
      destruct (Z.eqb_spec (ap_start p) (ap_end p)) as [Heq|Hne]; [naive_solver|].
      rewrite window_mod; [|done|done|apply mins_range|done]. naive_solver.
Qed.
End properties.

(** * Concrete runs *)
#[local] Instance toy_time : TimeLib := {|
  LoadLocation name := if str_eqb name "UTC+2" then Some (λ _, 2 * hour) else None;
  Local := utc;
  EqualFold := str_eqb;
|}.
Definition toy_policy : policy :=
  Policy "after hours" "" true 10 ["production"] [] [] ["On-Call"] [5] 1080 540 "" 9%N 0.
Definition toy_store : store := Store {[1%N := toy_policy]} ∅ (Some "UTC+2") [].
Definition toy_conn : ConnCtx :=
  MkConn 3 "ada" false 4 "db1" (MkHost "production" [] "ssh") "terminal" "10.0.0.1".

(** A Friday 18:00-09:00 window: the tail after midnight is looked up under its own date, so it
    covers the small hours of Friday and not those of Saturday. 1970-01-02 was a Friday. *)
Example friday_night_tail :
  let r := compile1 (1%N, toy_policy) in
  timeActive r utc (1 * day + 2 * hour) = true ∧ timeActive r utc (1 * day + 20 * hour) = true ∧
  timeActive r utc (2 * day + 2 * hour) = false.
Proof. by vm_compute. Qed.

#[local] Instance friday_evening : Env store := MkEnv _ (λ _, false) (λ _, day + 17 * hour) (λ _ s, s).
#[local] Instance friday_quiet : Quiet friday_evening.
Proof. done. Qed.

Lemma Authorize_spec_witness :
  RuleID (Authorize toy_conn (World 0 toy_store)).1 = Some 1%N ∧
  audits (w_db (Authorize toy_conn (World 0 toy_store)).2) = [AuditRow 3 "ada" "access.denied" 4].
Proof.
  split; [by vm_compute|].
  refine (proj2 (proj2 (proj2 (Authorize_spec toy_conn 0 toy_store))) _ _); [by vm_compute|done].
Defined.

Lemma stored_windows_witness :
  timeActive (compile1 (1%N, toy_policy)) utc (day + 20 * hour) = true.
Proof.
  apply (proj2 (proj2 (proj2 (@stored_windows quiet_env 0%N "" 0%N None (quiet_relies _ _))))
    toy_store 1%N toy_policy utc (day + 20 * hour)).
  - intros k p. simpl. intros [<- <-]%lookup_singleton_Some. unfold valid_policy. simpl.
    split_and!; try lia. repeat constructor; lia.
  - done.
  - split; [right; vm_compute; by left|right; by vm_compute].
Defined.
