(* ===== verification/Scheduler.v ===== *)
(** Recurring runs: [store/schedules.go] (the table, the claim of due rows and the computation
    of the next fire time), [scheduler/engine.go] (the tick and what a fire launches) and the
    handlers of [scheduler/handlers.go].

    The runs a fire launches are rows of the run tables and jobs handed to the runners, which are
    components of their own; JSON payloads, time zones and error texts are parameters. The loop
    that looks for a weekday runs with fuel: [None] is a call that has not returned. *)
From stdpp Require Import sorting.
From Stdlib Require Import Strings.Ascii.
From S2P Require Import Prelude Clock.

#[local] Open Scope Z_scope.

(** * Data *)
Record Recurrence := MkRec { Type_ : string; EveryMinutes : Z; TimeOfDay : string; Weekday_ : Z }.

Record schedule := Schedule {
  sc_name : string; sc_kind : string; sc_enabled : bool; sc_target_kind : string;
  sc_target : option uuid; sc_target_name : string; sc_recurrence : Recurrence; sc_payload : string;
  sc_requester : string; sc_created_by : option uuid;
  sc_last_run : option Z; sc_last_status : string; sc_next_run : option Z; sc_last_ids : list uuid;
}.

Record host := Host { h_name : string; h_protocol : string }.

Record ScanSchedulePayload := MkScanPayload { Profile : string; SkipExpensive : bool; SkipRules : list string }.
Record PlaybookSchedulePayload := MkPbPayload { PlaybookID : uuid; CheckMode : bool }.
Record ScriptSchedulePayload := MkScriptPayload { ScriptID : uuid }.

(** Rows of [vuln_scans], [host_scans], [playbook_runs] and [winscript_runs]; a scheduled run has
    no requesting user and starts as pending. *)
Inductive run :=
| VulnScan (on : uuid) (requester : string)
| HostScan (on : uuid) (requester profile : string)
| PlaybookRun (item : uuid) (version : Z) (requester tk : string) (tid : option uuid) (tname : string)
    (hosts : nat) (check : bool)
| ScriptRun (item : uuid) (version : Z) (requester tk : string) (tid : option uuid) (tname : string)
    (hosts : nat).

(** Goroutines started. *)
Inductive job :=
| RunVulnDB
| RunVulnScan (id on : uuid)
| RunScan (id on : uuid) (profile : string) (skip : list string)
| RunPlaybook (id : uuid) (content : string) (hosts : list uuid) (check : bool)
| RunScript (id : uuid) (content : string) (hosts : list uuid).

Record store := Store {
  schedules : gmap uuid schedule;
  hosts : gmap uuid host;
  groups : gmap uuid (string * gset uuid);
  playbooks : gmap uuid (Z * string);
  winscripts : gmap uuid (Z * string);
  timezone : option string;
  runs : gmap uuid run;
  jobs : list job;
  audits : list (string * string * option uuid);
}.
Definition set_schedules (s : store) m := Store m (hosts s) (groups s) (playbooks s) (winscripts s)
  (timezone s) (runs s) (jobs s) (audits s).
Definition add_run (id : uuid) (r : run) (s : store) := Store (schedules s) (hosts s) (groups s)
  (playbooks s) (winscripts s) (timezone s) (<[id := r]> (runs s)) (jobs s) (audits s).
Definition add_job (j : job) (s : store) := Store (schedules s) (hosts s) (groups s)
  (playbooks s) (winscripts s) (timezone s) (runs s) (jobs s ++ [j]) (audits s).

Class SchedLib := {
  LoadLocation : string → option Location;
  Local : Location;
  parse_uuid : string → option uuid;
  (** [encoding/json] into the payload structs; a scan payload ignores errors *)
  scan_payload : string → ScanSchedulePayload;
  playbook_payload : string → option PlaybookSchedulePayload;
  script_payload : string → option ScriptSchedulePayload;
  err_text : store_error → string;
}.

(** * The next fire time *)

(** [fmt.Sscanf(s, "%d:%d", ...)]: white space before a number is skipped, a line feed is not. *)
Definition scan_spaces : list string := filter (λ p, p ≠ chr 10) go_spaces.
Definition digit (c : ascii) : option Z :=
  let n := Z.of_nat (nat_of_ascii c) in if (48 <=? n) && (n <=? 57) then Some (n - 48) else None.
Fixpoint digits (acc : Z) (s : string) : Z * string :=
  match s with
  | String c s' => match digit c with Some d => digits (10 * acc + d) s' | None => (acc, s) end
  | EmptyString => (acc, s)
  end.
Definition scan_int (s : string) : option (Z * string) :=
  let s := trim_left (String.length s) scan_spaces s in
  let '(neg, s) := if has_prefix "-" s then (true, str_drop 1 s)
                   else if has_prefix "+" s then (false, str_drop 1 s) else (false, s) in
  match s with
  | String c _ =>
    if digit c is Some _ then
      let '(n, rest) := digits 0 s in
      let v := if (neg : bool) then - n else n in
      if (- 2 ^ 63 <=? v) && (v <? 2 ^ 63) then Some (v, rest) else None
    else None
  | EmptyString => None
  end.
Definition Sscanf_hm (s : string) : Z * Z :=
  match scan_int s with
  | None => (0, 0)
  | Some (h, rest) =>
    if has_prefix ":" rest
    then match scan_int (str_drop 1 rest) with Some (m, _) => (h, m) | None => (h, 0) end
    else (h, 0)
  end.
Definition parseHM (s : string) : Z * Z :=
  let '(h, m) := Sscanf_hm s in
  (if (h <? 0) || (23 <? h) then 0 else h, if (m <? 0) || (59 <? m) then 0 else m).

Example parseHM_ex : parseHM "09:30" = (9, 30) ∧ parseHM "24:5x" = (0, 5) ∧ parseHM "7" = (7, 0).
Proof. by vm_compute. Qed.

Fixpoint weekly_loop (fuel : nat) (loc : Location) (wd from next : Z) : option Z :=
  match fuel with
  | O => None
  | S fuel' =>
    if negb (Weekday loc next =? wd) || (next <=? from)
    then weekly_loop fuel' loc wd from (next + 24 * hour)
    else Some next
  end.

(** [Some None]: the zero time, for a malformed recurrence. *)
Definition NextRun (fuel : nat) (r : Recurrence) (loc : Location) (from : Z) : option (option Z) :=
  if str_eqb (Type_ r) "interval" then
    let mins := if EveryMinutes r <? 1 then 60 else EveryMinutes r in
    Some (Some (from + wrap64 (mins * minute)))
  else if str_eqb (Type_ r) "daily" then
    let '(h, m) := parseHM (TimeOfDay r) in
    let next := Date_on loc from h m in
    Some (Some (if negb (from <? next) then next + 24 * hour else next))
  else if str_eqb (Type_ r) "weekly" then
    let '(h, m) := parseHM (TimeOfDay r) in
    Some <$> weekly_loop fuel loc (Weekday_ r) from (Date_on loc from h m)
  else Some None.

(** * The store *)

(** [ORDER BY] a text column *)
Definition ordered_on {A} (f : A → string) (a b : A) : Prop := String.leb (f a) (f b) = true.
#[export] Instance ordered_on_dec {A} (f : A → string) : RelDecision (ordered_on f).
Proof. intros a b. unfold ordered_on. exact _. Defined.

Definition dueb (now : Z) (sc : schedule) : bool :=
  sc_enabled sc && match sc_next_run sc with Some t => t <=? now | None => false end.

Definition with_next (t : option Z) (sc : schedule) : schedule :=
  Schedule (sc_name sc) (sc_kind sc) (sc_enabled sc) (sc_target_kind sc) (sc_target sc)
    (sc_target_name sc) (sc_recurrence sc) (sc_payload sc) (sc_requester sc) (sc_created_by sc)
    (sc_last_run sc) (sc_last_status sc) t (sc_last_ids sc).
Definition with_enabled (b : bool) (t : option Z) (sc : schedule) : schedule :=
  Schedule (sc_name sc) (sc_kind sc) b (sc_target_kind sc) (sc_target sc)
    (sc_target_name sc) (sc_recurrence sc) (sc_payload sc) (sc_requester sc) (sc_created_by sc)
    (sc_last_run sc) (sc_last_status sc) t (sc_last_ids sc).
Definition with_run (at_ : Z) (status : string) (ids : list uuid) (sc : schedule) : schedule :=
  Schedule (sc_name sc) (sc_kind sc) (sc_enabled sc) (sc_target_kind sc) (sc_target sc)
    (sc_target_name sc) (sc_recurrence sc) (sc_payload sc) (sc_requester sc) (sc_created_by sc)
    (Some at_) status (sc_next_run sc) ids.

Definition scheduleClaimLease : Z := hour.

(** One statement: the due rows, as claimed, with their next run pushed past the lease. *)
Definition ClaimDueSchedules (at_ : Z) (now : Z) (s : store)
    : res store_error (list (uuid * schedule)) * store :=
  let claim sc := if dueb at_ sc then with_next (Some (at_ + scheduleClaimLease)) sc else sc in
  (Ok (map_to_list (with_next (Some (at_ + scheduleClaimLease)) <$>
         filter (λ ks, dueb at_ ks.2 = true) (schedules s))),
   set_schedules s (claim <$> schedules s)).

Definition MarkScheduleFired (id : uuid) (firedAt : Z) (status : string) (next : option Z) (ids : list uuid)
    (now : Z) (s : store) : res store_error unit * store :=
  (Ok tt, set_schedules s (alter (λ sc, with_next next (with_run firedAt status ids sc)) id (schedules s))).
Definition MarkScheduleRun (id : uuid) (firedAt : Z) (status : string) (ids : list uuid)
    (now : Z) (s : store) : res store_error unit * store :=
  (Ok tt, set_schedules s (alter (with_run firedAt status ids) id (schedules s))).

Definition GetSchedule (id : uuid) : Z → store → res store_error schedule * store :=
  get_row (λ s, schedules s !! id).
Definition ListSchedules (now : Z) (s : store) : res store_error (list (uuid * schedule)) * store :=
  (Ok (merge_sort (ordered_on (λ ks : uuid * schedule, sc_name ks.2)) (map_to_list (schedules s))), s).
Definition DeleteSchedule (id : uuid) (now : Z) (s : store) : res store_error unit * store :=
  match schedules s !! id with
  | None => (Err ErrNotFound, s)
  | Some _ => (Ok tt, set_schedules s (delete id (schedules s)))
  end.
Definition set_next (id : uuid) (t : option Z) (now : Z) (s : store) : res store_error unit * store :=
  (Ok tt, set_schedules s (alter (with_next t) id (schedules s))).
Definition insert_schedule (sc : schedule) (now : Z) (s : store)
    : res store_error (uuid * schedule) * store :=
  let id := fresh (dom (schedules s)) in (Ok (id, sc), set_schedules s (<[id := sc]> (schedules s))).
Definition replaced (m : schedule) (next : option Z) (sc : schedule) : schedule :=
  Schedule (sc_name m) (sc_kind m) (sc_enabled m) (sc_target_kind m) (sc_target m)
    (sc_target_name m) (sc_recurrence m) (sc_payload m) (sc_requester sc) (sc_created_by sc)
    (sc_last_run sc) (sc_last_status sc) next (sc_last_ids sc).
(** [UPDATE ... RETURNING] *)
Definition update_row (f : schedule → schedule) (id : uuid) (now : Z) (s : store)
    : res store_error schedule * store :=
  match schedules s !! id with
  | None => (Err ErrNotFound, s)
  | Some sc => (Ok (f sc), set_schedules s (<[id := f sc]> (schedules s)))
  end.

Definition HostsInGroup (g : uuid) (now : Z) (s : store) : res store_error (list (uuid * host)) * store :=
  (Ok (match groups s !! g with
       | None => []
       | Some (_, members) =>
         merge_sort (ordered_on (λ kh : uuid * host, h_name kh.2))
           (map_to_list (filter (λ kh, kh.1 ∈ members) (hosts s)))
       end), s).
Definition GetHost (id : uuid) : Z → store → res store_error host * store := get_row (λ s, hosts s !! id).
Definition GetGroup (id : uuid) : Z → store → res store_error (string * gset uuid) * store :=
  get_row (λ s, groups s !! id).
Definition GetPlaybook (id : uuid) : Z → store → res store_error (Z * string) * store :=
  get_row (λ s, playbooks s !! id).
Definition GetWinScript (id : uuid) : Z → store → res store_error (Z * string) * store :=
  get_row (λ s, winscripts s !! id).
Definition create_run (r : run) (now : Z) (s : store) : res store_error uuid * store :=
  let id := fresh (dom (runs s)) in (Ok id, add_run id r s).
Definition CreateVulnScan (h : uuid) (requester : string) := create_run (VulnScan h requester).
Definition CreateHostScan (h : uuid) (requester profile : string) := create_run (HostScan h requester profile).
Definition SetTimezone (z : string) (now : Z) (s : store) : res store_error unit * store :=
  (Ok tt, Store (schedules s) (hosts s) (groups s) (playbooks s) (winscripts s) (Some z) (runs s)
     (jobs s) (audits s)).
Definition AppendAudit (who action : string) (target : option uuid) (now : Z) (s : store)
    : res store_error unit * store :=
  (Ok tt, Store (schedules s) (hosts s) (groups s) (playbooks s) (winscripts s) (timezone s) (runs s)
     (jobs s) (audits s ++ [(who, action, target)])).

Section engine.
Context `{!Env store, !SchedLib} (fuel : nat).

Definition go (j : job) : M store unit := effect (add_job j).

Definition DisplayTimezone : M store string :=
  r ← db (get_row timezone);
  mret (match r with Ok z => z | Err _ => "" end).
Definition scheduleLoc : M store Location :=
  name ← DisplayTimezone;
  mret (if str_eqb name "" then Local
        else match LoadLocation name with Some l => l | None => Local end).
Definition ScheduleNextRun (r : Recurrence) : M store (option (option Z)) :=
  now ← time_now;
  loc ← scheduleLoc;
  mret (NextRun fuel r loc now).

(** [next_run_at] of a row being written: the next run if it is enabled. *)
Definition next_if (enabled : bool) (r : Recurrence) : M store (option (option Z)) :=
  if enabled then ScheduleNextRun r else mret (Some None).

Definition payload_of (m : schedule) : string := if str_eqb (sc_payload m) "" then "{}" else sc_payload m.
Definition with_payload (m : schedule) : schedule :=
  Schedule (sc_name m) (sc_kind m) (sc_enabled m) (sc_target_kind m) (sc_target m)
    (sc_target_name m) (sc_recurrence m) (payload_of m) (sc_requester m) (sc_created_by m)
    (sc_last_run m) (sc_last_status m) (sc_next_run m) (sc_last_ids m).

Definition CreateSchedule (m : schedule) (by_ : uuid)
    : M store (option (res store_error (uuid * schedule))) :=
  n ← next_if (sc_enabled m) (sc_recurrence m);
  match n with
  | None => mret None
  | Some next =>
    r ← db (insert_schedule (Schedule (sc_name m) (sc_kind m) (sc_enabled m) (sc_target_kind m)
              (sc_target m) (sc_target_name m) (sc_recurrence m) (payload_of m) (sc_requester m)
              (Some by_) None "" next []));
    mret (Some r)
  end.
Definition UpdateSchedule (id : uuid) (m : schedule) : M store (option (res store_error schedule)) :=
  n ← next_if (sc_enabled m) (sc_recurrence m);
  match n with
  | None => mret None
  | Some next => r ← db (update_row (replaced (with_payload m) next) id); mret (Some r)
  end.
Definition SetScheduleEnabled (id : uuid) (enabled : bool) : M store (option (res store_error schedule)) :=
  c ← db (GetSchedule id);
  match c with
  | Err e => mret (Some (Err e))
  | Ok cur =>
    n ← next_if enabled (sc_recurrence cur);
    match n with
    | None => mret None
    | Some next => r ← db (update_row (with_enabled enabled next) id); mret (Some r)
    end
  end.

Fixpoint recompute_loop (l : list (uuid * schedule)) : M store (option (res store_error unit)) :=
  match l with
  | [] => mret (Some (Ok tt))
  | (id, sc) :: l' =>
    if negb (sc_enabled sc) then recompute_loop l'
    else
      n ← ScheduleNextRun (sc_recurrence sc);
      match n with
      | None => mret None
      | Some next =>
        r ← db (set_next id next);
        match r with Err e => mret (Some (Err e)) | Ok _ => recompute_loop l' end
      end
  end.
Definition RecomputeEnabledNextRuns : M store (option (res store_error unit)) :=
  l ← db ListSchedules;
  match l with Err e => mret (Some (Err e)) | Ok l => recompute_loop l end.

(** * The engine *)
Definition ExpensiveFSRules : list string := (λ r, "xccdf_org.ssgproject.content_rule_" +:+ r) <$>
  ["accounts_users_home_files_permissions"; "accounts_users_home_files_ownership";
   "accounts_users_home_files_groupownership"; "file_permissions_unauthorized_world_writable";
   "file_permissions_unauthorized_suid"; "file_permissions_unauthorized_sgid";
   "dir_perms_world_writable_sticky_bits"; "no_files_unowned_by_user"; "file_permissions_ungroupowned"].

Definition resolveHosts (sc : schedule) : M store (res store_error (list (uuid * host))) :=
  match sc_target sc with
  | None => mret (Ok [])
  | Some t =>
    if str_eqb (sc_target_kind sc) "group" then db (HostsInGroup t)
    else r ← db (GetHost t); mret (h ← r; mret [(t, h)])
  end.

Fixpoint fire_each (create : uuid → Z → store → res store_error uuid * store) (start : uuid → uuid → job)
    (l : list (uuid * host)) : M store (list uuid) :=
  match l with
  | [] => mret []
  | (h, _) :: l' =>
    r ← db (create h);
    match r with
    | Err _ => fire_each create start l'
    | Ok id => _ ← go (start id h); ids ← fire_each create start l'; mret (id :: ids)
    end
  end.
Definition started (ids : list uuid) : string * list uuid :=
  if bool_decide (ids = []) then ("error: no scans created", []) else ("started", ids).

Definition fireVulnDB : M store string := _ ← go RunVulnDB; mret "started".
Definition fireVulnScan (sc : schedule) (l : list (uuid * host)) : M store (string * list uuid) :=
  ids ← fire_each (λ h, CreateVulnScan h (sc_requester sc)) RunVulnScan l; mret (started ids).
Definition fireScan (sc : schedule) (l : list (uuid * host)) : M store (string * list uuid) :=
  let p := scan_payload (sc_payload sc) in
  let skip := if SkipExpensive p then ExpensiveFSRules ++ SkipRules p else SkipRules p in
  ids ← fire_each (λ h, CreateHostScan h (sc_requester sc) (Profile p))
          (λ id h, RunScan id h (Profile p) skip) l;
  mret (started ids).

Definition run_target (sc : schedule) (l : list (uuid * host)) : option uuid :=
  if str_eqb (sc_target_kind sc) "group" then sc_target sc
  else match l with [(h, _)] => Some h | _ => None end.

Definition firePlaybook (sc : schedule) (l : list (uuid * host)) : M store (string * list uuid) :=
  match playbook_payload (sc_payload sc) with
  | None => mret ("error: bad payload", [])
  | Some p =>
    r ← db (GetPlaybook (PlaybookID p));
    match r with
    | Err _ => mret ("error: playbook not found", [])
    | Ok (version, content) =>
      r ← db (create_run (PlaybookRun (PlaybookID p) version (sc_requester sc) (sc_target_kind sc)
                 (run_target sc l) (sc_target_name sc) (length l) (CheckMode p)));
      match r with
      | Err _ => mret ("error: create run", [])
      | Ok id => _ ← go (RunPlaybook id content l.*1 (CheckMode p)); mret ("started", [id])
      end
    end
  end.

Definition fireScript (sc : schedule) (l : list (uuid * host)) : M store (string * list uuid) :=
  match script_payload (sc_payload sc) with
  | None => mret ("error: bad payload", [])
  | Some p =>
    r ← db (GetWinScript (ScriptID p));
    match r with
    | Err _ => mret ("error: script not found", [])
    | Ok (version, content) =>
      let win := filter (λ h, h_protocol h.2 = "rdp") l in
      if bool_decide (win = []) then mret ("skipped: no Windows hosts", [])
      else
        r ← db (create_run (ScriptRun (ScriptID p) version (sc_requester sc) (sc_target_kind sc)
                   (run_target sc win) (sc_target_name sc) (length win)));
        match r with
        | Err _ => mret ("error: create run", [])
        | Ok id => _ ← go (RunScript id content win.*1); mret ("started", [id])
        end
    end
  end.

Definition Fire (sc : schedule) : M store (string * list uuid) :=
  if str_eqb (sc_kind sc) "vulndb" then s ← fireVulnDB; mret (s, [])
  else
    r ← resolveHosts sc;
    match r with
    | Err e => mret ("error: " +:+ err_text e, [])
    | Ok l =>
      if bool_decide (l = []) then mret ("skipped: no hosts", [])
      else if str_eqb (sc_kind sc) "scan" then fireScan sc l
      else if str_eqb (sc_kind sc) "vulnscan" then fireVulnScan sc l
      else if str_eqb (sc_kind sc) "playbook" then firePlaybook sc l
      else if str_eqb (sc_kind sc) "script" then fireScript sc l
      else mret ("error: unknown kind", [])
    end.

Fixpoint fire_all (now : Z) (due : list (uuid * schedule)) : M store (option unit) :=
  match due with
  | [] => mret (Some tt)
  | (id, sc) :: due' =>
    f ← Fire sc;
    n ← ScheduleNextRun (sc_recurrence sc);
    match n with
    | None => mret None
    | Some next => _ ← db (MarkScheduleFired id now f.1 next f.2); fire_all now due'
    end
  end.
Definition tick : M store (option unit) :=
  now ← time_now;
  due ← db (ClaimDueSchedules now);
  match due with Err _ => mret (Some tt) | Ok due => fire_all now due end.
End engine.

(** * The handlers *)
Section handlers.
Context `{!Env store, !SchedLib} (fuel : nat).

Record scheduleReq := MkReq {
  rq_name : string; rq_kind : string; rq_enabled : bool; rq_target_kind : string;
  rq_target : string; rq_recurrence : Recurrence; rq_payload : string;
}.

Definition kinds : list string := ["scan"; "vulnscan"; "playbook"; "script"; "vulndb"].
Definition model (rq : scheduleReq) (tk : string) (t : option uuid) (tname : string) : schedule :=
  Schedule (TrimSpace (rq_name rq)) (rq_kind rq) (rq_enabled rq) tk t tname (rq_recurrence rq)
    (rq_payload rq) "" None None "" None [].

Definition toModel (rq : scheduleReq) : M store (res string schedule) :=
  if str_eqb (TrimSpace (rq_name rq)) "" then mret (Err "name is required")
  else if negb (bool_decide (rq_kind rq ∈ kinds)) then
    mret (Err "kind must be scan, vulnscan, playbook, script, or vulndb")
  else if str_eqb (rq_kind rq) "vulndb" then mret (Ok (model rq "none" None "CVE databases"))
  else
    let tk := if str_eqb (rq_target_kind rq) "" then "host" else rq_target_kind rq in
    match parse_uuid (rq_target rq) with
    | None => mret (Err "bad target id")
    | Some tid =>
      if str_eqb tk "group" then
        g ← db (GetGroup tid);
        mret (match g with Err _ => Err "group not found" | Ok g => Ok (model rq tk (Some tid) g.1) end)
      else
        h ← db (GetHost tid);
        mret (match h with Err _ => Err "host not found" | Ok h => Ok (model rq tk (Some tid) (h_name h)) end)
    end.

Definition audit (who action : string) (id : option uuid) : M store unit :=
  _ ← db (AppendAudit who action id); mret tt.

(** Replies: [None] is a request that is never answered; bodies are reduced to the schedule. *)
Abbreviation answer := (option (reply (option (uuid * schedule)))).

Definition with_requester (who : string) (m : schedule) : schedule :=
  Schedule (sc_name m) (sc_kind m) (sc_enabled m) (sc_target_kind m) (sc_target m)
    (sc_target_name m) (sc_recurrence m) (sc_payload m) who (sc_created_by m)
    (sc_last_run m) (sc_last_status m) (sc_next_run m) (sc_last_ids m).

Definition create (user : uuid) (who : string) (rq : scheduleReq) : M store answer :=
  m ← toModel rq;
  match m with
  | Err msg => mret (Some (WriteError 400 msg))
  | Ok m =>
    r ← CreateSchedule fuel (with_requester who m) user;
    match r with
    | None => mret None
    | Some (Err _) => mret (Some (WriteError 500 "could not create schedule"))
    | Some (Ok (id, sc)) =>
      _ ← audit who "schedule.create" (Some id); mret (Some (WriteJSON 201 (Some (id, sc))))
    end
  end.

Definition update (who : string) (id : uuid) (rq : scheduleReq) : M store answer :=
  m ← toModel rq;
  match m with
  | Err msg => mret (Some (WriteError 400 msg))
  | Ok m =>
    r ← UpdateSchedule fuel id m;
    match r with
    | None => mret None
    | Some (Err _) => mret (Some (WriteError 404 "schedule not found"))
    | Some (Ok sc) =>
      _ ← audit who "schedule.update" (Some id); mret (Some (WriteJSON 200 (Some (id, sc))))
    end
  end.

Definition delete_ (who : string) (id : uuid) : M store answer :=
  r ← db (DeleteSchedule id);
  match r with
  | Err _ => mret (Some (WriteError 404 "schedule not found"))
  | Ok _ => _ ← audit who "schedule.delete" (Some id); mret (Some (WriteJSON 200 None))
  end.

Definition enable (who : string) (id : uuid) (enabled : bool) : M store answer :=
  r ← SetScheduleEnabled fuel id enabled;
  match r with
  | None => mret None
  | Some (Err _) => mret (Some (WriteError 404 "schedule not found"))
  | Some (Ok sc) => _ ← audit who "schedule.enable" (Some id); mret (Some (WriteJSON 200 (Some (id, sc))))
  end.

Definition putTimezone (who : string) (z : string) : M store answer :=
  if negb (str_eqb z "") && negb (bool_decide (is_Some (LoadLocation z))) then
    mret (Some (WriteError 400 "unknown timezone"))
  else
    r ← db (SetTimezone z);
    match r with
    | Err _ => mret (Some (WriteError 500 "could not save timezone"))
    | Ok _ =>
      n ← RecomputeEnabledNextRuns fuel;
      match n with
      | None => mret None
      | Some _ => _ ← audit who "system.timezone" None; mret (Some (WriteJSON 200 None))
      end
    end.

Definition runNow (who : string) (id : uuid) : M store answer :=
  r ← db (GetSchedule id);
  match r with
  | Err _ => mret (Some (WriteError 404 "schedule not found"))
  | Ok sc =>
    f ← Fire sc;
    now ← time_now;
    _ ← db (MarkScheduleRun id now f.1 f.2);
    _ ← audit who "schedule.run" (Some id);
    mret (Some (WriteJSON 202 (Some (id, sc))))
  end.
End handlers.

(** * Proofs: the next fire time *)
Lemma parseHM_range s : 0 ≤ (parseHM s).1 < 24 ∧ 0 ≤ (parseHM s).2 < 60.
Proof.
  unfold parseHM. destruct (Sscanf_hm s) as [h m]. simpl.
  destruct ((h <? 0) || (23 <? h)) eqn:Hh, ((m <? 0) || (59 <? m)) eqn:Hm;
    rewrite ?orb_false_iff, ?Z.ltb_ge in *; lia.
Qed.

Lemma weekly_loop_first loc wd from j fuel next :
  (j < fuel)%nat →
  Weekday loc (next + Z.of_nat j * day) = wd → from < next + Z.of_nat j * day →
  (∀ i, (i < j)%nat → Weekday loc (next + Z.of_nat i * day) ≠ wd ∨ next + Z.of_nat i * day ≤ from) →
  weekly_loop fuel loc wd from next = Some (next + Z.of_nat j * day).
Proof.
  revert fuel next. induction j as [|j IH]; intros fuel next Hf Hw Hlt Hbefore;
    (destruct fuel as [|fuel]; [lia|]); simpl.
  - rewrite Z.add_0_r in *. rewrite (proj2 (Z.eqb_eq _ _) Hw), (proj2 (Z.leb_gt _ _) Hlt). done.
  - assert (negb (Weekday loc next =? wd) || (next <=? from) = true) as ->.
    { apply orb_true_iff. destruct (Hbefore 0%nat ltac:(lia)) as [Hn|Hn]; rewrite Z.add_0_r in Hn.
      - left. by apply negb_true_iff, Z.eqb_neq.
      - right. by apply Z.leb_le. }
    change (24 * hour) with day.
    assert (∀ i, next + day + Z.of_nat i * day = next + Z.of_nat (S i) * day) as E by lia.
    rewrite IH; rewrite ?E; try done; [lia|].
    intros i Hi. rewrite E. apply Hbefore. lia.
Qed.

(** In a zone that keeps its offset around [from]. *)
Section steady_zone.
Context (loc : Location) (from o : Z).
Context (Hsteady : steady loc (from - 3 * day) (from + 10 * day) o) (Ho : - day ≤ o ≤ day).

Lemma Date_on_steady h m :
  0 ≤ h < 24 → 0 ≤ m < 60 →
  let d := Date_on loc from h m in
  from - day < d < from + day ∧ d + o = local_day loc from * day + (h * hour + m * minute).
Proof.
  intros Hh Hm. unfold Date_on, at_local. cbv zeta.
  pose proof (local_day_bounds loc from) as Hb. unfold wall in Hb.
  assert (day = 86400000000000) as Ed by done. assert (hour = 3600000000000) as Eh by done.
  assert (minute = 60000000000) as Em by done.
  rewrite (Hsteady from) in Hb by lia.
  set (l := local_day loc from * day + h * hour + m * minute).
  assert (from + o - day < l < from + o + day) as Hl by (subst l; lia).
  rewrite (Hsteady l) by lia.
  destruct (Z.eqb_spec o 0) as [->|]; [subst l; lia|].
  rewrite (Hsteady (l - o)) by lia. subst l. lia.
Qed.

Lemma Weekday_steady d i :
  from - day < d < from + day → 0 ≤ i ≤ 8 →
  Weekday loc (d + i * day) = ((d + o) / day + i + 4) mod 7.
Proof.
  intros Hd Hi. unfold Weekday, local_day, wall. rewrite Hsteady by (assert (0 < day) by done; nia).
  replace (d + i * day + o) with (d + o + i * day) by lia. by rewrite Z.div_add.
Qed.

(** Two instants of the steady stretch with the same time of day differ by whole days. *)
Lemma same_time_of_day d t x :
  (d + o) mod day = x → (t + o) mod day = x → ∃ i, t = d + i * day.
Proof.
  intros Hd Ht. exists ((t + o) / day - (d + o) / day).
  pose proof (Z.div_mod (t + o) day ltac:(done)). pose proof (Z.div_mod (d + o) day ltac:(done)). lia.
Qed.

Lemma time_of_day_steady h m t :
  0 ≤ h < 24 → 0 ≤ m < 60 → from - 3 * day ≤ t ≤ from + 10 * day →
  (∃ i, t = Date_on loc from h m + i * day) ↔ wall loc t mod day = h * hour + m * minute.
Proof.
  intros Hh Hm Ht. destruct (Date_on_steady h m Hh Hm) as [Hd Heq].
  set (d := Date_on loc from h m) in *. unfold wall. rewrite (Hsteady t) by lia.
  assert (0 ≤ h * hour + m * minute < day) as Hx.
  { assert (day = 86400000000000) as -> by done. assert (hour = 3600000000000) as -> by done.
    assert (minute = 60000000000) as -> by done. lia. }
  assert ((d + o) mod day = h * hour + m * minute) as Hdm.
  { by rewrite Heq, Z.add_comm, Z_mod_plus_full, Z.mod_small. }
  split.
  - intros [i ->]. replace (d + i * day + o) with (d + o + i * day) by lia.
    by rewrite Z_mod_plus_full.
  - intros Htm. by apply (same_time_of_day d t _ Hdm).
Qed.

(** The least instant after [from] among the ones at whole days from [d] that satisfy [P]. *)
Lemma least_of_days (P : Z → Prop) d j :
  from - day < d < from + day → (j ≤ 7)%nat →
  from < d + Z.of_nat j * day →
  (∀ i, (i < j)%nat → ¬ P (d + Z.of_nat i * day) ∨ d + Z.of_nat i * day ≤ from) →
  ∀ t', from < t' < d + Z.of_nat j * day → (∃ i, t' = d + i * day) → ¬ P t'.
Proof.
  intros Hd Hj Hlt Hbefore t' Ht' [i ->]. assert (0 < day) as Hpos by done.
  assert (0 ≤ i < Z.of_nat j) as Hi by nia.
  destruct (Hbefore (Z.to_nat i) ltac:(lia)) as [Hn|Hn]; rewrite Z2Nat.id in Hn by lia; [done|lia].
Qed.

Lemma weekday_moves D i : 0 < i < 7 → (D + i + 4) mod 7 ≠ (D + 4) mod 7.
Proof.
  intros Hi Heq. pose proof (Z.div_mod (D + 4) 7 ltac:(lia)).
  pose proof (Z.div_mod (D + i + 4) 7 ltac:(lia)). lia.
Qed.

Lemma weekday_distance D wd :
  0 ≤ wd < 7 →
  ∃ k, (k < 7)%nat ∧ (D + Z.of_nat k + 4) mod 7 = wd ∧ (D + 7 + 4) mod 7 = (D + 4) mod 7 ∧
    ∀ i, (i < k)%nat → (D + Z.of_nat i + 4) mod 7 ≠ wd.
Proof.
  intros Hwd. set (k := (wd - (D + 4)) mod 7).
  assert (0 ≤ k < 7) as Hk by (apply Z.mod_pos_bound; lia).
  assert (∀ i, 0 ≤ i < 7 → (D + i + 4) mod 7 = wd → i = k) as Honly.
  { intros i Hi <-. subst k. replace (D + i + 4) with (D + 4 + i) by lia.
    rewrite Zminus_mod_idemp_l. replace (D + 4 + i - (D + 4)) with i by lia. by rewrite Z.mod_small. }
  exists (Z.to_nat k). rewrite Z2Nat.id by lia. split_and!; [lia|..].
  - subst k. replace (D + _ + 4) with (D + 4 + (wd - (D + 4)) mod 7) by lia.
    rewrite Zplus_mod_idemp_r. replace (D + 4 + (wd - (D + 4))) with wd by lia. by rewrite Z.mod_small.
  - replace (D + 7 + 4) with (D + 4 + 1 * 7) by lia. by rewrite Z_mod_plus_full.
  - intros i Hi Heq. apply Honly in Heq; lia.
Qed.

Lemma daily_least fuel r :
  Type_ r = "daily" →
  let hm := parseHM (TimeOfDay r) in
  ∃ t, NextRun fuel r loc from = Some (Some t) ∧ from < t ≤ from + day ∧
    wall loc t mod day = hm.1 * hour + hm.2 * minute ∧
    ∀ t', from < t' < t → wall loc t' mod day ≠ hm.1 * hour + hm.2 * minute.
Proof.
  intros Ht. unfold NextRun. rewrite Ht. cbv zeta. simpl.
  pose proof (parseHM_range (TimeOfDay r)) as Hr. destruct (parseHM _) as [h m]. simpl in *.
  destruct Hr as [Hh Hm]. destruct (Date_on_steady h m Hh Hm) as [Hd _].
  change (24 * hour) with day. assert (0 < day) as Hpos by done.
  set (d := Date_on loc from h m) in *.
  set (j := if from <? d then 0%nat else 1%nat).
  assert ((if negb (from <? d) then d + day else d) = d + Z.of_nat j * day) as ->.
  { subst j. destruct (from <? d); simpl; lia. }
  assert (from < d + Z.of_nat j * day ≤ from + day) as Hj.
  { subst j. destruct (Z.ltb_spec from d); simpl; lia. }
  eexists. split; [done|]. split; [done|]. split.
  - apply time_of_day_steady; [done..|lia|by eexists].
  - intros t' Ht' Heq. apply time_of_day_steady in Heq; [|done..|lia].
    apply (least_of_days (λ _, True) d j) with (t' := t'); try done; [subst j; case_match; lia|lia|].
    intros i Hi. right. subst j. destruct (Z.ltb_spec from d); lia.
Qed.

Lemma weekly_least fuel r :
  (8 ≤ fuel)%nat → Type_ r = "weekly" → 0 ≤ Weekday_ r < 7 →
  let hm := parseHM (TimeOfDay r) in
  ∃ t, NextRun fuel r loc from = Some (Some t) ∧ from < t ≤ from + 7 * day ∧
    wall loc t mod day = hm.1 * hour + hm.2 * minute ∧ Weekday loc t = Weekday_ r ∧
    ∀ t', from < t' < t → wall loc t' mod day = hm.1 * hour + hm.2 * minute →
      Weekday loc t' ≠ Weekday_ r.
Proof.
  intros Hf Ht Hwd. unfold NextRun. rewrite Ht. cbv zeta. simpl.
  pose proof (parseHM_range (TimeOfDay r)) as Hr. destruct (parseHM _) as [h m]. simpl in *.
  destruct Hr as [Hh Hm]. destruct (Date_on_steady h m Hh Hm) as [Hd _].
  set (d := Date_on loc from h m) in *. assert (0 < day) as Hpos by done.
  destruct (weekday_distance ((d + o) / day) (Weekday_ r) Hwd) as (k & Hk & Hkw & H7 & Hfirst).
  set (j := if bool_decide (k = 0%nat) && (d <=? from) then 7%nat else k).
  assert ((j ≤ 7)%nat ∧ from < d + Z.of_nat j * day ≤ from + 7 * day ∧
          Weekday loc (d + Z.of_nat j * day) = Weekday_ r ∧
          ∀ i, (i < j)%nat → Weekday loc (d + Z.of_nat i * day) ≠ Weekday_ r ∨ d + Z.of_nat i * day ≤ from)
    as (Hj7 & Hj & Hjw & Hjb).
  { subst j. destruct (bool_decide (k = 0%nat)) eqn:Hk0; simpl;
      [apply bool_decide_eq_true in Hk0; subst k; destruct (Z.leb_spec d from)
      |apply bool_decide_eq_false in Hk0].
    - split_and!; [lia..| |].
      + rewrite Weekday_steady by lia. change (Z.of_nat 7) with 7. by rewrite H7, <-Hkw, Z.add_0_r.
      + intros i Hi. destruct i as [|i]; [right; lia|left]. rewrite Weekday_steady by lia.
        rewrite <-Hkw, Z.add_0_r. apply weekday_moves. lia.
    - split_and!; [lia..| |lia]. rewrite Weekday_steady by lia. done.
    - split_and!; [lia|nia|nia| |].
      + rewrite Weekday_steady by lia. done.
      + intros i Hi. left. rewrite Weekday_steady by lia. by apply Hfirst. }
  rewrite (weekly_loop_first loc (Weekday_ r) from j) by (done || lia).
  eexists. split; [done|]. split_and!; [lia|lia| |done|].
  - apply time_of_day_steady; [done..|lia|by eexists].
  - intros t' Ht' Heq. apply time_of_day_steady in Heq; [|done..|lia].
    by refine (least_of_days (λ t, Weekday loc t = Weekday_ r) d j Hd Hj7 (proj1 Hj) Hjb t' Ht' Heq).
Qed.
End steady_zone.

(** * Proofs: the engine *)

(** A weekly recurrence whose weekday does not exist. *)
Definition no_such_weekday (r : Recurrence) : Prop :=
  Type_ r = "weekly" ∧ (Weekday_ r < 0 ∨ 6 < Weekday_ r).

Lemma NextRun_diverges fuel r loc from : no_such_weekday r → NextRun fuel r loc from = None.
Proof.
  intros [Ht Hw]. unfold NextRun. rewrite Ht. simpl. destruct (parseHM _) as [h m].
  assert (∀ next, weekly_loop fuel loc (Weekday_ r) from next = None) as ->; [|done].
  induction fuel as [|fuel IH]; intros next; simpl; [done|].
  pose proof (Weekday_range loc next).
  rewrite (proj2 (Z.eqb_neq (Weekday loc next) (Weekday_ r))) by lia. apply IH.
Qed.

Lemma toModel_model `{!Env store, !SchedLib} rq w m :
  (toModel rq w).1 = Ok m → ∃ tk t tn, m = model rq tk t tn.
Proof.
  unfold toModel. destruct (str_eqb (TrimSpace _) ""); [done|]. destruct (negb _); [done|].
  destruct (str_eqb (rq_kind rq) "vulndb"); [intros [= <-]; eauto|].
  destruct (parse_uuid _) as [tid|]; [|done].
  destruct (str_eqb _ "group"); rewrite run_bind; simpl; destruct (db _ w).1; simpl; try done;
    intros [= <-]; eauto.
Qed.

Section engine_proofs.
Context `{!Env store, !SchedLib} (fuel : nat).

Lemma ScheduleNextRun_diverges r w : no_such_weekday r → (ScheduleNextRun fuel r w).1 = None.
Proof.
  intros Hr. unfold ScheduleNextRun. rewrite !run_bind. by apply NextRun_diverges.
Qed.

Lemma fire_all_diverges now id sc due w :
  (id, sc) ∈ due → no_such_weekday (sc_recurrence sc) → (fire_all fuel now due w).1 = None.
Proof.
  intros Hin Hr. revert w. induction due as [|[id0 sc0] due IH]; intros w;
    [by apply not_elem_of_nil in Hin|].
  simpl. rewrite !run_bind.
  apply elem_of_cons in Hin as [[= <- <-]|Hin].
  - by rewrite ScheduleNextRun_diverges.
  - destruct ((ScheduleNextRun fuel _ _).1); [|done]. rewrite run_bind. by apply IH.
Qed.

(** ** What a fire leaves alone *)
Definition same_table : relation store := λ s s', schedules s' = schedules s ∧ timezone s' = timezone s.
#[export] Instance same_table_preorder : PreOrder same_table.
Proof. split; [done|]. intros ??? [??] [??]. split; congruence. Qed.

Context `{!Quiet Env0}.
#[local] Instance quiet_same_table : Relies same_table.
Proof. intros n s. rewrite quiet. done. Qed.

Lemma within_go j : within same_table (go j).
Proof. by apply within_effect. Qed.

Lemma within_create_run r : within same_table (db (create_run r)).
Proof. apply within_db; [exact _..|]. done. Qed.

Lemma within_read {A} (f : Z → store → res store_error A * store) :
  (∀ now s, (f now s).2 = s) → within same_table (db f).
Proof. intros Hf. apply within_db; [exact _..|]. intros now s. by rewrite Hf. Qed.

Lemma within_fire_each create start l :
  (∀ h, within same_table (db (create h))) → within same_table (fire_each create start l).
Proof.
  intros Hc. induction l as [|[h r] l IH]; simpl; [apply within_ret; exact _|].
  apply within_bind; [exact _|apply Hc|]. intros [id|]; [|done].
  apply within_bind; [exact _|apply within_go|]. intros _.
  apply within_bind; [exact _|done|]. intros ids. apply within_ret; exact _.
Qed.

Lemma within_Fire sc : within same_table (Fire sc).
Proof.
  unfold Fire, fireVulnDB, resolveHosts, fireScan, fireVulnScan, firePlaybook, fireScript.
  within_tac; try first [apply within_go | apply within_create_run | by apply within_read
    | apply within_fire_each; intros h; apply within_create_run].
Qed.

Context (Hdb : ∀ n, db_err n = false).

Definition zone_of (s : store) : Location :=
  match timezone s with
  | Some name => if str_eqb name "" then Local
                 else match LoadLocation name with Some l => l | None => Local end
  | None => Local
  end.

Lemma ScheduleNextRun_run r n s :
  ScheduleNextRun fuel r (World n s) = (NextRun fuel r (zone_of s) (clock n), World (S (S n)) s).
Proof.
  unfold ScheduleNextRun, scheduleLoc, DisplayTimezone, zone_of. run_step. rewrite Hdb. simpl.
  by destruct (timezone s).
Qed.

(** A row after its fire was recorded. *)
Definition fired_row (now : Z) (s : store) (n : nat) (sc sc' : schedule) : Prop :=
  ∃ status ids m next, (n ≤ m)%nat ∧
    NextRun fuel (sc_recurrence sc) (zone_of s) (clock m) = Some next ∧
    sc' = with_next next (with_run now status ids sc).

Lemma forward_fire_each create start l : forward (fire_each create start l).
Proof.
  induction l as [|[h r] l IH]; simpl; [apply forward_ret|].
  apply forward_bind; [apply forward_db|]. intros [id|]; [|done]. forward_tac.
Qed.

Lemma forward_Fire sc : forward (Fire sc).
Proof.
  unfold Fire, fireVulnDB, resolveHosts, fireScan, fireVulnScan, firePlaybook, fireScript, go.
  forward_tac; apply forward_fire_each.
Qed.

Lemma Fire_run sc n s :
  ∃ m f s', Fire sc (World n s) = (f, World m s') ∧ schedules s' = schedules s ∧ zone_of s' = zone_of s ∧
    (n ≤ m)%nat.
Proof.
  destruct (within_Fire sc (World n s) I) as [[Hs Ht] _].
  pose proof (forward_Fire sc (World n s)) as Hm.
  destruct (Fire sc (World n s)) as [f [m s']]. exists m, f, s'. simpl in *. unfold zone_of.
  by rewrite Ht.
Qed.

Lemma fired_row_shift now s s' n n' sc sc' :
  zone_of s' = zone_of s → (n ≤ n')%nat → fired_row now s' n' sc sc' → fired_row now s n sc sc'.
Proof.
  intros Hz Hn (status & ids & m & next & Hm & Hr & ->). rewrite Hz in Hr.
  exists status, ids, m, next. split_and!; [lia|done|done].
Qed.

(** Recurrences for which a next run is found. *)
Definition computable (s : store) (sc : schedule) : Prop :=
  ∀ m, is_Some (NextRun fuel (sc_recurrence sc) (zone_of s) (clock m)).

Lemma fire_all_run now due n s :
  NoDup due.*1 →
  (∀ id sc, (id, sc) ∈ due → schedules s !! id = Some sc ∧ computable s sc) →
  let r := fire_all fuel now due (World n s) in
  r.1 = Some tt ∧
  (∀ id, id ∉ due.*1 → schedules (w_db r.2) !! id = schedules s !! id) ∧
  (∀ id sc, (id, sc) ∈ due →
     ∃ sc', schedules (w_db r.2) !! id = Some sc' ∧ fired_row now s n sc sc').
Proof.
  revert n s. induction due as [|[id0 sc0] due IH]; intros n s Hnd Hdue; simpl.
  { split_and!; [done|done|]. by intros ?? ?%not_elem_of_nil. }
  apply NoDup_cons in Hnd as [Hni Hnd].
  destruct (Hdue id0 sc0) as [Hrow0 Hc0]; [by apply elem_of_cons; left|].
  rewrite run_bind. destruct (Fire_run sc0 n s) as (m & f & s1 & -> & Hs1 & Hz1 & Hm). simpl.
  rewrite run_bind, ScheduleNextRun_run. simpl. rewrite Hz1.
  destruct (Hc0 m) as [next Hnext]. rewrite Hnext. run_step. rewrite Hdb. simpl.
  set (s2 := set_schedules s1 _).
  assert (zone_of s2 = zone_of s) as Hz2 by done.
  assert (∀ id, id ≠ id0 → schedules s2 !! id = schedules s !! id) as Hother.
  { intros id Hne. simpl. by rewrite lookup_alter_ne, Hs1. }
  destruct (IH (S (S (S m))) s2 Hnd) as (Hr & Hk & Hf).
  { intros id sc Hin. destruct (Hdue id sc) as [Hrow Hc]; [by apply elem_of_cons; right|].
    split; [|by unfold computable; rewrite Hz2]. rewrite Hother; [done|]. intros ->. apply Hni.
    apply list_elem_of_fmap. by exists (id0, sc). }
  split_and!; [done|..].
  - intros id [Hne Hni']%not_elem_of_cons. by rewrite Hk, Hother.
  - intros id sc [[= -> ->]|Hin]%elem_of_cons.
    + rewrite (Hk id0 Hni). simpl. rewrite lookup_alter_eq, Hs1, Hrow0. eexists. split; [done|].
      exists f.1, f.2, m, next. by split_and!.
    + destruct (Hf id sc Hin) as (sc' & Hl & Hfr). exists sc'. split; [done|].
      apply (fired_row_shift now s s2 n (S (S (S m)))); [done|lia|done].
Qed.

(** ** The claim *)
Lemma claim_rows at_ now s :
  let r := ClaimDueSchedules at_ now s in
  ∃ l, r.1 = Ok l ∧ NoDup l.*1 ∧
    (∀ id sc, (id, sc) ∈ l ↔ ∃ sc0, schedules s !! id = Some sc0 ∧ dueb at_ sc0 = true ∧
       sc = with_next (Some (at_ + scheduleClaimLease)) sc0) ∧
    (∀ id, schedules r.2 !! id =
       (λ sc, if dueb at_ sc then with_next (Some (at_ + scheduleClaimLease)) sc else sc)
         <$> schedules s !! id).
Proof.
  eexists. split; [done|]. split_and!.
  - apply NoDup_fst_map_to_list.
  - intros id sc. rewrite elem_of_map_to_list, lookup_fmap, fmap_Some.
    split; intros (sc0 & H0 & ?).
    + apply map_lookup_filter_Some in H0 as [??]. eauto.
    + exists sc0. rewrite map_lookup_filter_Some. naive_solver.
  - intros id. simpl. by rewrite lookup_fmap.
Qed.
End engine_proofs.

Section properties.
Context `{!SchedLib}.

(** The next fire time. In a zone that keeps its offset for the days around [from], [NextRun]
    returns for a daily recurrence, and for a weekly one on an existing weekday, the first instant
    after [from] whose local time of day is the recurrence's (and whose weekday is, for a weekly
    one), within a day (a week); the weekday search ends within eight steps. *)
Theorem next_run_least fuel r loc from o :
  steady loc (from - 3 * day) (from + 10 * day) o → - day ≤ o ≤ day → (8 ≤ fuel)%nat →
  Type_ r = "daily" ∨ (Type_ r = "weekly" ∧ 0 ≤ Weekday_ r < 7) →
  let hm := parseHM (TimeOfDay r) in
  let hits t := wall loc t mod day = hm.1 * hour + hm.2 * minute ∧
                (Type_ r = "weekly" → Weekday loc t = Weekday_ r) in
  ∃ t, NextRun fuel r loc from = Some (Some t) ∧ from < t ≤ from + 7 * day ∧ hits t ∧
    ∀ t', from < t' < t → ¬ hits t'.
Proof.
  intros Hs Ho Hf [Ht|[Ht Hw]]; cbv zeta.
  - destruct (daily_least loc from o Hs Ho fuel r Ht) as (t & Hn & Hb & Hw & Hl).
    assert (0 < day) by done. exists t. split_and!; try done; [lia|lia|by rewrite Ht|].
    intros t' Ht' [Hw' _]. by eapply Hl.
  - destruct (weekly_least loc from o Hs Ho fuel r Hf Ht Hw) as (t & Hn & Hb & Hw1 & Hw2 & Hl).
    exists t. split_and!; try done; [lia..|]. intros t' Ht' [Hw' Hd']. by eapply Hl, Hd'.
Qed.

(** C16: Nothing checks the weekday of a recurrence, and with a weekday outside Sunday to Saturday
    the search for the next fire time never ends, however long it runs: the request that creates
    such a schedule enabled is never answered, and once one is due the scheduler's tick never
    returns, so that no later schedule fires. *)
Theorem bad_weekday_hangs `{!Env store, !Quiet Env0} fuel user who rq m w s n id sc :
  no_such_weekday (rq_recurrence rq) → rq_enabled rq = true → (toModel rq w).1 = Ok m →
  no_such_weekday (sc_recurrence sc) → schedules s !! id = Some sc → dueb (clock n) sc = true →
  db_err (S n) = false →
  (create fuel user who rq w).1 = None ∧ (tick fuel (World n s)).1 = None.
Proof.
  intros Hr He Hm Hsc Hrow Hdue Hdb. split.
  - unfold create. rewrite run_bind, Hm, run_bind.
    assert (sc_recurrence m = rq_recurrence rq ∧ sc_enabled m = true) as [Hmr Hme].
    { by apply toModel_model in Hm as (tk & t & tn & ->). }
    unfold CreateSchedule, next_if. simpl. rewrite Hme, run_bind, Hmr.
    by rewrite ScheduleNextRun_diverges.
  - unfold tick. run_step. rewrite Hdb.
    destruct (claim_rows (clock n) (clock (S n)) s) as (l & Hl & _ & Hin & _). simpl in *.
    injection Hl as Hl. rewrite Hl.
    apply fire_all_diverges with (id := id)
      (sc := with_next (Some (clock n + scheduleClaimLease)) sc); [|done].
    apply Hin. by exists sc.
Qed.

(** The claim of due schedules is exclusive and loses nothing. It returns exactly the enabled
    schedules whose next run has come; until the lease runs out a later claim returns none of
    them, whichever server makes it; it returns every other schedule that is due by then; and if
    the claimer dies before it records the fire, a claim after the lease returns them again. *)
Theorem claim_exclusive at_ now at' now' s :
  at_ ≤ at' →
  ∃ l l', (ClaimDueSchedules at_ now s).1 = Ok l ∧
    (ClaimDueSchedules at' now' (ClaimDueSchedules at_ now s).2).1 = Ok l' ∧
    (∀ id, id ∈ l.*1 ↔ ∃ sc, schedules s !! id = Some sc ∧ dueb at_ sc = true) ∧
    (at' < at_ + scheduleClaimLease → ∀ id, id ∈ l.*1 → id ∉ l'.*1) ∧
    (∀ id sc, schedules s !! id = Some sc → dueb at' sc = true → id ∈ l.*1 ∨ id ∈ l'.*1) ∧
    (at_ + scheduleClaimLease ≤ at' → ∀ id, id ∈ l.*1 → id ∈ l'.*1).
Proof.
  intros Hat.
  destruct (claim_rows at_ now s) as (l & Hl & _ & Hin & Hs1).
  destruct (claim_rows at' now' (ClaimDueSchedules at_ now s).2) as (l' & Hl' & _ & Hin' & _).
  assert (∀ id, id ∈ l.*1 ↔ ∃ sc, schedules s !! id = Some sc ∧ dueb at_ sc = true) as Hfst.
  { intros id. rewrite list_elem_of_fmap. split.
    - intros ([i sc] & -> & (sc0 & ? & ? & ->)%Hin). eauto.
    - intros (sc & ? & ?). eexists (id, _). split; [done|]. apply Hin. eauto. }
  assert (∀ id, id ∈ l'.*1 ↔ ∃ sc, schedules s !! id = Some sc ∧
    dueb at' (if dueb at_ sc then with_next (Some (at_ + scheduleClaimLease)) sc else sc) = true) as Hfst'.
  { intros id. rewrite list_elem_of_fmap. split.
    - intros ([i sc] & -> & (sc0 & H0 & Hd & ->)%Hin'). simpl. rewrite Hs1 in H0.
      apply fmap_Some in H0 as (sc1 & ? & ->). eauto.
    - intros (sc & Hsc & Hd). eexists (id, _). split; [done|]. apply Hin'. eexists.
      split; [by rewrite Hs1, Hsc|]. by split. }
  exists l, l'. split_and!; [done|done|done|..].
  - intros Hlt id (sc & Hsc & Hd)%Hfst (sc' & Hsc' & Hd')%Hfst'. simplify_eq. rewrite Hd in Hd'.
    unfold dueb in Hd'. apply andb_true_iff in Hd' as [_ Hd']. simpl in Hd'.
    apply Z.leb_le in Hd'. lia.
  - intros id sc Hsc Hd. destruct (dueb at_ sc) eqn:Hd0; [left; apply Hfst; eauto|right].
    apply Hfst'. exists sc. by rewrite Hd0.
  - intros Hle id (sc & Hsc & Hd)%Hfst. apply Hfst'. exists sc. rewrite Hd. split; [done|].
    unfold dueb in *. apply andb_true_iff in Hd as [He _]. simpl. rewrite He. by apply Z.leb_le.
Qed.

(** One tick, with nobody else writing: if the next run of every due schedule can be computed
    the tick returns, every due schedule was fired once - its row records the fire at the tick's
    instant and the next run computed after it in the configured zone - and every other row is
    as it was. *)
Theorem tick_fires_due_once `{!Env store, !Quiet Env0} fuel n s :
  (∀ m, db_err m = false) →
  (∀ id sc, schedules s !! id = Some sc → dueb (clock n) sc = true → computable fuel s sc) →
  let r := tick fuel (World n s) in
  r.1 = Some tt ∧
  ∀ id sc, schedules s !! id = Some sc →
    if dueb (clock n) sc
    then ∃ sc', schedules (w_db r.2) !! id = Some sc' ∧ fired_row fuel (clock n) s n sc sc'
    else schedules (w_db r.2) !! id = Some sc.
Proof.
  intros Hdb Hc. unfold tick. run_step. rewrite Hdb.
  destruct (claim_rows (clock n) (clock (S n)) s) as (l & Hl & Hnd & Hin & Hs1). cbn [fst snd].
  rewrite Hl. set (s1 := (ClaimDueSchedules (clock n) (clock (S n)) s).2) in *.
  assert (zone_of s1 = zone_of s) as Hz by done.
  destruct (fire_all_run fuel Hdb (clock n) l (S (S n)) s1 Hnd) as (Hr & Hk & Hf).
  { intros id sc (sc0 & H0 & Hd & ->)%Hin. split; [by rewrite Hs1, H0; simpl; rewrite Hd|].
    intros m. rewrite Hz. by apply (Hc id sc0). }
  split; [done|]. intros id sc Hsc. destruct (dueb (clock n) sc) eqn:Hd.
  - destruct (Hf id (with_next (Some (clock n + scheduleClaimLease)) sc)) as (sc' & Hl' & Hfr).
    { apply Hin. eauto. }
    exists sc'. split; [done|]. apply (fired_row_shift _ _ s s1 n) in Hfr; [|done|lia].
    destruct Hfr as (status & ids & m & next & ? & ? & ->). by exists status, ids, m, next.
  - rewrite Hk; [rewrite Hs1, Hsc; simpl; by rewrite Hd|].
    intros ([i sc1] & -> & (sc0 & H0 & Hd0 & _)%Hin)%list_elem_of_fmap. simpl in *. congruence.
Qed.

(** An interval fires that many minutes after the fire before it - hourly, if it is not
    positive - as long as the interval fits a [time.Duration]. Nothing bounds it, and an interval
    of 153722868 minutes or more, up to twice that, wraps around to a next run in the past: the
    schedule is due again at every tick. *)
Theorem interval_next fuel r loc from :
  Type_ r = "interval" →
  ∃ t, NextRun fuel r loc from = Some (Some t) ∧
    (EveryMinutes r < 1 → t = from + hour) ∧
    (1 ≤ EveryMinutes r → EveryMinutes r * minute < 2 ^ 63 → t = from + EveryMinutes r * minute) ∧
    (153722868 ≤ EveryMinutes r ≤ 307445734 →
     t < from ∧ ∀ sc, sc_enabled sc = true → sc_next_run sc = Some t → ∀ at_, from ≤ at_ → dueb at_ sc = true).
Proof.
  intros Ht. unfold NextRun. rewrite Ht. simpl. eexists. split; [done|].
  assert (minute = 60000000000) as Em by done. unfold wrap64. split_and!.
  - intros He. rewrite (proj2 (Z.ltb_lt _ _) He). by vm_compute.
  - intros He Hb. rewrite (proj2 (Z.ltb_ge _ _)) by lia. rewrite Z.mod_small; lia.
  - intros He. rewrite (proj2 (Z.ltb_ge _ _)) by lia.
    assert ((EveryMinutes r * minute + 2 ^ 63) mod 2 ^ 64 - 2 ^ 63 < 0) as Hneg.
    { rewrite <-(Z_mod_plus_full _ (-1)), Z.mod_small; lia. }
    split; [lia|]. intros sc He' Hn at_ Hat. unfold dueb. rewrite He', Hn. simpl. apply Z.leb_le. lia.
Qed.
End properties.

(** * Concrete runs *)

(** A zone that moves from UTC-5 to UTC-4 at 02:00 on Sunday 1970-01-04. *)
Definition spring : Location := λ t, if t <? 3 * day + 7 * hour then - (5 * hour) else - (4 * hour).
Definition local_reading (o : option (option Z)) : option (Z * Z * Z) :=
  o ≫= λ o, (λ t, (local_day spring t, Hour spring t, Minute spring t)) <$> o.

(** Adding 24 hours is not adding a day: the day after, a daily 09:00 schedule fires at 10:00,
    and a Sunday 23:30 schedule computed on the Friday skips that Sunday altogether and fires at
    00:30 a week later. *)
Example spring_forward :
  local_reading (NextRun 9 (MkRec "daily" 0 "09:00" 0) spring (2 * day + 14 * hour + second)) =
    Some (3, 10, 0) ∧
  local_reading (NextRun 9 (MkRec "weekly" 0 "23:30" 0) spring (1 * day + 17 * hour)) =
    Some (10, 0, 30).
Proof. by vm_compute. Qed.

#[local] Instance toy_sched : SchedLib := {|
  LoadLocation _ := None; Local := utc;
  parse_uuid z := if str_eqb z "7" then Some 7%N else None;
  scan_payload _ := MkScanPayload "standard" false [];
  playbook_payload _ := None; script_payload _ := None;
  err_text _ := "error";
|}.
Definition toy_schedule (r : Recurrence) : schedule :=
  Schedule "nightly" "scan" true "host" (Some 7%N) "web1" r "{}" "ada" (Some 1%N) None "" (Some 0) [].
Definition toy_store (r : Recurrence) : store :=
  Store {[1%N := toy_schedule r]} {[7%N := Host "web1" "ssh"]} ∅ ∅ ∅ None ∅ [] [].
Definition hourly : Recurrence := MkRec "interval" 60 "" 0.

Lemma next_run_least_witness :
  ∃ t, NextRun 8 (MkRec "weekly" 0 "09:30" 1) utc (5 * day) = Some (Some t) ∧ Weekday utc t = 1.
Proof.
  destruct (next_run_least 8 (MkRec "weekly" 0 "09:30" 1) utc (5 * day) 0)
    as (t & Ht & _ & [_ Hw] & _); [done|by vm_compute|lia|by right|]. exists t. split; [done|by apply Hw].
Defined.

Definition bad_rec : Recurrence := MkRec "weekly" 0 "09:00" 7.
Definition bad_req : scheduleReq := MkReq "nightly" "scan" true "host" "7" bad_rec "{}".

Lemma bad_weekday_hangs_witness :
  (@create quiet_env toy_sched 1000 1%N "ada" bad_req (World 0 (toy_store bad_rec))).1 = None ∧
  (@tick quiet_env toy_sched 1000 (World 0 (toy_store bad_rec))).1 = None.
Proof.
  eapply (@bad_weekday_hangs toy_sched quiet_env _ 1000 1%N "ada" bad_req _ _ (toy_store bad_rec) 0 1%N
    (toy_schedule bad_rec)); try done; [by split; [done|right]|by split; [done|right]].
Defined.

Lemma claim_exclusive_witness :
  ∃ l l', (ClaimDueSchedules 5 5 (toy_store hourly)).1 = Ok l ∧ l.*1 = [1%N] ∧
    (ClaimDueSchedules 6 6 (ClaimDueSchedules 5 5 (toy_store hourly)).2).1 = Ok l' ∧ 1%N ∉ l'.*1.
Proof.
  destruct (claim_exclusive 5 5 6 6 (toy_store hourly)) as (l & l' & Hl & Hl' & _ & Hex & _); [lia|].
  exists l, l'. assert (l.*1 = [1%N]) as Hfst by (by injection Hl as <-).
  split_and!; [done|done|done|]. apply Hex; [by vm_compute|]. rewrite Hfst. by apply elem_of_cons; left.
Defined.

Lemma tick_fires_due_once_witness :
  let r := @tick quiet_env toy_sched 0 (World 0 (toy_store hourly)) in
  r.1 = Some tt ∧ length (jobs (w_db r.2)) = 1%nat.
Proof.
  split; [|by vm_compute].
  apply (@tick_fires_due_once toy_sched quiet_env _ 0 0 (toy_store hourly)); [done|].
  intros id sc. simpl. intros [<- <-]%lookup_singleton_Some _ m. by eexists.
Defined.

Lemma interval_next_witness :
  ∃ t, NextRun 0 (MkRec "interval" 200000000 "" 0) utc day = Some (Some t) ∧ t < day.
Proof.
  destruct (interval_next 0 (MkRec "interval" 200000000 "" 0) utc day eq_refl) as (t & Ht & _ & _ & Hw).
  exists t. split; [done|]. by apply Hw.
Defined.
