(* ===== verification/CommandControl.v ===== *)
(** Command control: [commandpolicy/guard.go] (the guard of the terminal's input stream),
    its wiring in [terminal/terminal.go] and the check of the ad-hoc runner in
    [command/run.go], over [store/commandpolicy.go] and the API of
    [commandpolicyapi/handlers.go].

    Regular expressions are a parameter: a pattern compiles to a matcher or to an error text. *)
From stdpp Require Import sorting.
From Stdlib Require Import Strings.Ascii.
From S2P Require Import Prelude.

#[local] Open Scope Z_scope.

(** * Data *)
Record cpolicy := CPolicy {
  cp_name : string; cp_pattern : string; cp_action : string; cp_scope : string;
  cp_group : option uuid; cp_enabled : bool; cp_created : Z; cp_by : uuid;
}.
Inductive ca_status := CaPending | CaApproved | CaDenied.
#[export] Instance ca_status_eq_dec : EqDecision ca_status.
Proof. solve_decision. Defined.
Record capproval := CApproval {
  ca_policy : option uuid; ca_user : uuid; ca_host : option uuid; ca_command : string;
  ca_st : ca_status; ca_requested : Z; ca_by : option uuid; ca_decided : option Z; ca_expires : option Z;
}.
(** An audit row: who, what, the rule concerned and the command. *)
Record audit_row := AuditRow { au_who : uuid; au_action : string; au_rule : string; au_command : string }.

Record store := Store {
  policies : gmap uuid cpolicy;
  host_groups : gset (uuid * uuid);
  approvals : gmap uuid capproval;
  audits : list audit_row;
  notes : list string;
}.
Definition set_policies (s : store) m := Store m (host_groups s) (approvals s) (audits s) (notes s).
Definition set_approvals (s : store) m := Store (policies s) (host_groups s) m (audits s) (notes s).

Definition matcher := string → bool.
Class Regexp := { regexp_Compile : string → res string matcher }.

(** * The guard *)
Record Spec := MkSpec { sp_id : uuid; sp_name : string; sp_action : string; sp_pattern : string }.
Record Rule := MkRule { r_id : uuid; r_name : string; r_action : string; r_re : matcher }.

Definition compile1 `{!Regexp} (s : Spec) : option Rule :=
  match regexp_Compile (sp_pattern s) with
  | Ok re => Some (MkRule (sp_id s) (sp_name s) (sp_action s) re)
  | Err _ => None
  end.
Definition Compile `{!Regexp} (l : list Spec) : list Rule := omap compile1 l.

Fixpoint Evaluate (rules : list Rule) (command : string) : option Rule :=
  match rules with
  | [] => None
  | r :: rules' => if r_re r command then Some r else Evaluate rules' command
  end.

Definition killLine : list ascii := [ascii_of_nat 21].
Definition CR : ascii := ascii_of_nat 13.
Definition LF : ascii := ascii_of_nat 10.
Definition ESC : string := chr 27.
Definition crlf : string := chr 13 +:+ chr 10.
Definition blockNotice (rule : string) : string :=
  crlf +:+ ESC +:+ "[31m[command blocked by policy: " +:+ rule +:+ "]" +:+ ESC +:+ "[0m" +:+ crlf.
Definition approvalNotice (rule : string) : string :=
  crlf +:+ ESC +:+ "[33m[command requires approval (" +:+ rule +:+
  "): a request was submitted. Once an approver grants it, run the command again.]" +:+ ESC +:+ "[0m" +:+ crlf.

Section guard.
Context {T : Type}.

(** The callbacks; [None] is a nil function. *)
Record Callbacks := MkCallbacks {
  HasWaiver : option (uuid → M T bool);
  OnFlag : option (Rule → string → M T unit);
  OnBlock : option (Rule → string → M T unit);
  OnApprovalRequest : option (Rule → string → M T unit);
  OnApprovedRun : option (Rule → string → M T unit);
}.
Record Guard := MkGuard { g_rules : list Rule; g_cb : Callbacks; g_line : list ascii }.

Definition NewGuard (rules : list Rule) (cb : Callbacks) : option Guard :=
  match rules with [] => None | _ => Some (MkGuard rules cb []) end.

Definition call (f : option (Rule → string → M T unit)) (r : Rule) (line : string) : M T unit :=
  match f with Some f => f r line | None => mret tt end.

(** [decide]: bytes for the terminator, and the notice. *)
Fixpoint decide_rules (cb : Callbacks) (rules : list Rule) (line : string) (term : ascii)
    : M T (list ascii * string) :=
  match rules with
  | [] => mret ([term], "")
  | r :: rules' =>
    if negb (r_re r line) then decide_rules cb rules' line term
    else if str_eqb (r_action r) "flag" then _ ← call (OnFlag cb) r line; mret ([term], "")
    else if str_eqb (r_action r) "block" then
      _ ← call (OnBlock cb) r line; mret (killLine, blockNotice (r_name r))
    else if str_eqb (r_action r) "approval" then
      w ← match HasWaiver cb with Some f => f (r_id r) | None => mret false end;
      if w : bool then _ ← call (OnApprovedRun cb) r line; mret ([term], "")
      else _ ← call (OnApprovalRequest cb) r line; mret (killLine, approvalNotice (r_name r))
    else decide_rules cb rules' line term
  end.

Definition terminator (b : ascii) : bool := Ascii.eqb b CR || Ascii.eqb b LF.
Definition code (b : ascii) : Z := Z.of_nat (nat_of_ascii b).
Definition backspace (b : ascii) : bool := (code b =? 127) || (code b =? 8).
Definition printable (b : ascii) : bool := (32 <=? code b) && (code b <? 127).

(** The line buffer after a keystroke that ends no line. *)
Definition keystroke (line : list ascii) (b : ascii) : list ascii :=
  if backspace b then take (length line - 1) line
  else if printable b then line ++ [b] else line.

Definition trimmed (line : list ascii) : string := TrimSpace (String.string_of_list_ascii line).

Fixpoint input_loop (cb : Callbacks) (rules : list Rule) (line : list ascii) (data : list ascii)
    (out : list ascii) (notice : string) : M T (list ascii * string * list ascii) :=
  match data with
  | [] => mret (out, notice, line)
  | b :: data' =>
    if terminator b then
      let l := trimmed line in
      if str_eqb l "" then input_loop cb rules [] data' (out ++ [b]) notice
      else
        r ← decide_rules cb rules l b;
        input_loop cb rules [] data' (out ++ r.1) (notice +:+ r.2)
    else input_loop cb rules (keystroke line b) data' (out ++ [b]) notice
  end.

(** The bytes to forward, the notice, and the guard afterwards. *)
Definition Input (g : option Guard) (data : list ascii) : M T (list ascii * string * option Guard) :=
  match g with
  | None => mret (data, "", None)
  | Some g =>
    r ← input_loop (g_cb g) (g_rules g) (g_line g) data [] "";
    mret (r.1.1, r.1.2, Some (MkGuard (g_rules g) (g_cb g) r.2))
  end.
End guard.
Arguments Callbacks : clear implicits.
Arguments Guard : clear implicits.

(** * The store *)
Definition created_before (a b : uuid * cpolicy) : Prop := cp_created a.2 ≤ cp_created b.2.
#[export] Instance created_before_dec : RelDecision created_before.
Proof. intros a b. unfold created_before. exact _. Defined.
#[export] Instance created_before_total : Total created_before.
Proof. intros a b. unfold created_before. lia. Qed.
#[export] Instance created_before_trans : Transitive created_before.
Proof. intros a b c. unfold created_before. lia. Qed.

(** The rules of a host: enabled, and global or of a group the host is in. *)
Definition applies (groups : gset (uuid * uuid)) (h : uuid) (p : cpolicy) : bool :=
  cp_enabled p && (str_eqb (cp_scope p) "global" ||
    match cp_group p with Some g => bool_decide ((h, g) ∈ groups) | None => false end).

Definition ListCommandPolicies (now : Z) (s : store) : res store_error (list (uuid * cpolicy)) * store :=
  (Ok (merge_sort created_before (map_to_list (policies s))), s).
Definition RulesForHost (h : uuid) (now : Z) (s : store) : res store_error (list (uuid * cpolicy)) * store :=
  (Ok (merge_sort created_before
         (map_to_list (filter (λ kp, applies (host_groups s) h kp.2 = true) (policies s)))), s).

Record CommandPolicyInput := MkInput {
  in_name : string; in_pattern : string; in_action : string; in_scope : string;
  in_group : option uuid; in_enabled : bool;
}.
Definition CreateCommandPolicy (i : CommandPolicyInput) (by_ : uuid) (now : Z) (s : store)
    : res store_error uuid * store :=
  let id := fresh (dom (policies s)) in
  (Ok id, set_policies s (<[id := CPolicy (in_name i) (in_pattern i) (in_action i) (in_scope i)
                                    (in_group i) (in_enabled i) now by_]> (policies s))).
Definition UpdateCommandPolicy (id : uuid) (i : CommandPolicyInput) (now : Z) (s : store)
    : res store_error unit * store :=
  (Ok tt, set_policies s (alter (λ p, CPolicy (in_name i) (in_pattern i) (in_action i) (in_scope i)
                                        (in_group i) (in_enabled i) (cp_created p) (cp_by p)) id (policies s))).
(** The approvals of a deleted rule lose their reference to it. *)
Definition without_policy (id : uuid) (a : capproval) : capproval :=
  CApproval (if bool_decide (ca_policy a = Some id) then None else ca_policy a) (ca_user a) (ca_host a)
    (ca_command a) (ca_st a) (ca_requested a) (ca_by a) (ca_decided a) (ca_expires a).
Definition DeleteCommandPolicy (id : uuid) (now : Z) (s : store) : res store_error unit * store :=
  (Ok tt, Store (delete id (policies s)) (host_groups s) (without_policy id <$> approvals s)
            (audits s) (notes s)).

Definition CreateCommandApproval (policy : option uuid) (user : uuid) (h : option uuid) (command : string)
    (now : Z) (s : store) : res store_error uuid * store :=
  let id := fresh (dom (approvals s)) in
  (Ok id, set_approvals s (<[id := CApproval policy user h command CaPending now None None None]>
                             (approvals s))).
Definition ListPendingCommandApprovals (now : Z) (s : store)
    : res store_error (list (uuid * capproval)) * store :=
  (Ok (map_to_list (filter (λ ka, ca_st ka.2 = CaPending) (approvals s))), s).

Definition decided (st : ca_status) (by_ : uuid) (now : Z) (expires : option Z) (a : capproval) : capproval :=
  CApproval (ca_policy a) (ca_user a) (ca_host a) (ca_command a) st (ca_requested a) (Some by_) (Some now)
    expires.
Definition DecideCommandApproval (id approver : uuid) (approve : bool) (ttl : Z) (now : Z) (s : store)
    : res store_error bool * store :=
  match approvals s !! id with
  | Some a =>
    if negb approve then
      if decide (ca_st a = CaPending)
      then (Ok true, set_approvals s (<[id := decided CaDenied approver now (ca_expires a) a]> (approvals s)))
      else (Ok false, s)
    else
      if decide (ca_st a = CaPending ∧ ca_user a ≠ approver)
      then (Ok true, set_approvals s (<[id := decided CaApproved approver now (Some (now + ttl)) a]>
                                        (approvals s)))
      else (Ok false, s)
  | None => (Ok false, s)
  end.

(** An unexpired waiver of a user on a host, for one rule ([None]: for any). *)
Definition waives (now : Z) (user h : uuid) (policy : option uuid) (a : capproval) : bool :=
  bool_decide (ca_st a = CaApproved) && bool_decide (ca_user a = user) && bool_decide (ca_host a = Some h) &&
  (match policy with None => true | Some p => bool_decide (ca_policy a = Some p) end) &&
  (match ca_expires a with Some e => now <? e | None => false end).
Definition ActiveWaiver (user h : uuid) (policy : option uuid) (now : Z) (s : store)
    : res store_error bool * store :=
  (Ok (0 <? Z.of_nat (size (filter (λ ka, waives now user h policy ka.2 = true) (approvals s)))), s).

Definition AppendAudit (a : audit_row) (now : Z) (s : store) : res store_error unit * store :=
  (Ok tt, Store (policies s) (host_groups s) (approvals s) (audits s ++ [a]) (notes s)).
Definition add_note (n : string) (s : store) : store :=
  Store (policies s) (host_groups s) (approvals s) (audits s) (notes s ++ [n]).

Section wiring.
Context `{!Env store, !Regexp}.
(** Whether the server has a notifier. *)
Context (has_notifier : bool).

Definition audit (who : uuid) (action rule command : string) : M store unit :=
  _ ← db (AppendAudit (AuditRow who action rule command)); mret tt.
Definition notify (event : string) : M store unit :=
  if has_notifier then effect (add_note event) else mret tt.

Definition EventCommandFlagged : string := "command.flagged".
Definition EventCommandBlocked : string := "command.blocked".
Definition EventCommandApproval : string := "command.approval".

(** * The terminal *)
Definition specs_of (l : list (uuid * cpolicy)) : list Spec :=
  (λ kp, MkSpec kp.1 (cp_name kp.2) (cp_action kp.2) (cp_pattern kp.2)) <$> l.

Definition terminal_callbacks (user h : uuid) : Callbacks store := {|
  HasWaiver := Some (λ id, r ← db (ActiveWaiver user h (Some id));
                           mret (match r with Ok b => b | Err _ => false end));
  OnFlag := Some (λ r command,
    _ ← audit user "command.flagged" (r_name r) command; notify EventCommandFlagged);
  OnBlock := Some (λ r command,
    _ ← audit user "command.blocked" (r_name r) command; notify EventCommandBlocked);
  OnApprovalRequest := Some (λ r command,
    _ ← db (CreateCommandApproval (Some (r_id r)) user (Some h) command);
    _ ← audit user "command.approval_requested" (r_name r) command; notify EventCommandApproval);
  OnApprovedRun := Some (λ r command, audit user "command.approved_run" (r_name r) command);
|}.

Definition buildCommandGuard (user h : uuid) : M store (option (Guard store)) :=
  r ← db (RulesForHost h);
  mret (match r with
        | Err _ => None
        | Ok [] => None
        | Ok l => NewGuard (Compile (specs_of l)) (terminal_callbacks user h)
        end).

(** * The ad-hoc runner *)
Definition rulesForHost (h : uuid) : M store (res store_error (list Spec)) :=
  r ← db (RulesForHost h); mret (l ← r; mret (specs_of l)).

(** The output, exit code, failure flag, and whether the command was handled here (not run). *)
Definition applyPolicy (command : string) (h user : uuid) : M store (string * Z * bool * bool) :=
  r ← rulesForHost h;
  match r with
  | Err _ => mret ("", 0, false, false)
  | Ok specs =>
    if bool_decide (specs = []) then mret ("", 0, false, false)
    else
      match Evaluate (Compile specs) command with
      | None => mret ("", 0, false, false)
      | Some rule =>
        if str_eqb (r_action rule) "flag" then
          _ ← audit user "command.flagged" (r_name rule) command;
          _ ← notify EventCommandFlagged;
          mret ("", 0, false, false)
        else if str_eqb (r_action rule) "block" then
          _ ← audit user "command.blocked" (r_name rule) command;
          _ ← notify EventCommandBlocked;
          mret ("[blocked by command policy: " +:+ r_name rule +:+ "]", -1, true, true)
        else if str_eqb (r_action rule) "approval" then
          w ← db (ActiveWaiver user h (Some (r_id rule)));
          if match w with Ok b => b | Err _ => false end then
            _ ← audit user "command.approved_run" (r_name rule) command;
            mret ("", 0, false, false)
          else
            _ ← db (CreateCommandApproval (Some (r_id rule)) user (Some h) command);
            _ ← audit user "command.approval_requested" (r_name rule) command;
            _ ← notify EventCommandApproval;
            mret ("[requires approval (" +:+ r_name rule +:+
                  "): a request was submitted. Once approved, run it again.]", -1, true, true)
        else mret ("", 0, false, false)
      end
  end.

(** * The API *)
Definition waiverTTL : Z := 10 * minute.

Record ruleReq := MkRuleReq {
  rq_name : string; rq_pattern : string; rq_action : string; rq_scope : string;
  rq_group : option string; rq_enabled : option bool;
}.

Definition validate (parse_uuid : string → option uuid) (rq : ruleReq) : res string CommandPolicyInput :=
  let inp g := MkInput (rq_name rq) (rq_pattern rq) (rq_action rq) (rq_scope rq) g
                 (default true (rq_enabled rq)) in
  if str_eqb (rq_name rq) "" then Err "name is required"
  else if str_eqb (rq_pattern rq) "" then Err "pattern is required"
  else match regexp_Compile (rq_pattern rq) with
  | Err e => Err ("invalid regular expression: " +:+ e)
  | Ok _ =>
    if negb (bool_decide (rq_action rq ∈ ["flag"; "block"; "approval"])) then
      Err "action must be flag, block, or approval"
    else if str_eqb (rq_scope rq) "global" then Ok (inp None)
    else if str_eqb (rq_scope rq) "group" then
      match rq_group rq with
      | None => Err "a group is required for group scope"
      | Some g =>
        if str_eqb g "" then Err "a group is required for group scope"
        else match parse_uuid g with None => Err "invalid group id" | Some id => Ok (inp (Some id)) end
      end
    else Err "scope must be global or group"
  end.

Context (parse_uuid : string → option uuid).

(** Bodies that do not decode are [None]. *)
Definition create (user : uuid) (body : option ruleReq) : M store (reply (option uuid)) :=
  match body with
  | None => mret (WriteError 400 "invalid request body")
  | Some rq =>
    match validate parse_uuid rq with
    | Err msg => mret (WriteError 400 msg)
    | Ok i =>
      r ← db (CreateCommandPolicy i user);
      match r with
      | Err _ => mret (WriteError 500 "could not create rule")
      | Ok id => _ ← audit user "command_policy.create" (in_name i) ""; mret (WriteJSON 200 (Some id))
      end
    end
  end.
Definition update (user : uuid) (idp : option uuid) (body : option ruleReq)
    : M store (reply (option uuid)) :=
  match idp, body with
  | None, _ => mret (WriteError 400 "invalid id")
  | _, None => mret (WriteError 400 "invalid request body")
  | Some id, Some rq =>
    match validate parse_uuid rq with
    | Err msg => mret (WriteError 400 msg)
    | Ok i =>
      r ← db (UpdateCommandPolicy id i);
      match r with
      | Err _ => mret (WriteError 500 "could not update rule")
      | Ok _ => _ ← audit user "command_policy.update" (in_name i) ""; mret (WriteJSON 200 None)
      end
    end
  end.
Definition remove (user : uuid) (idp : option uuid) : M store (reply (option uuid)) :=
  match idp with
  | None => mret (WriteError 400 "invalid id")
  | Some id =>
    r ← db (DeleteCommandPolicy id);
    match r with
    | Err _ => mret (WriteError 500 "could not delete rule")
    | Ok _ => _ ← audit user "command_policy.delete" "" ""; mret (WriteJSON 200 None)
    end
  end.
Definition decide_ (user : uuid) (idp : option uuid) (approve : bool) : M store (reply (option uuid)) :=
  match idp with
  | None => mret (WriteError 400 "invalid id")
  | Some id =>
    r ← db (DecideCommandApproval id user approve waiverTTL);
    match r with
    | Err _ => mret (WriteError 500 "could not record decision")
    | Ok false => mret (WriteError 409 "request is not pending, or you cannot approve your own request")
    | Ok true =>
      _ ← audit user (if approve then "command_policy.approve" else "command_policy.deny") "" "";
      _ ← notify EventCommandApproval;
      mret (WriteJSON 200 None)
    end
  end.
End wiring.

(** * Proofs: the stream *)
Section stream.
Context {T : Type}.
Implicit Types cb : Callbacks T.

(** What is already out stays in front. *)
Lemma input_loop_acc cb rules line data out notice (w : world T) :
  input_loop cb rules line data out notice w =
    let '((o, n, l), w') := input_loop cb rules line data [] "" w in ((out ++ o, notice +:+ n, l), w').
Proof.
  revert line out notice w. induction data as [|b data IH]; intros line out notice w; simpl.
  { cbn. by rewrite app_nil_r, str_app_nil. }
  destruct (terminator b); [destruct (str_eqb _ "")|].
  - rewrite (IH [] (out ++ [b])), (IH [] [b] ""). destruct (input_loop _ _ _ _ _ _ w) as [[[??]?]?].
    by rewrite <-app_assoc.
  - rewrite !run_bind. set (r := decide_rules _ _ _ _ w).
    rewrite (IH [] (out ++ _)), (IH [] r.1.1 (_ +:+ _)). destruct (input_loop _ _ _ _ _ _ _) as [[[??]?]?].
    by rewrite <-app_assoc, str_app_assoc.
  - rewrite (IH _ (out ++ [b])), (IH _ [b] ""). destruct (input_loop _ _ _ _ _ _ w) as [[[??]?]?].
    by rewrite <-app_assoc.
Qed.

Lemma input_loop_app cb rules line a b (w : world T) :
  input_loop cb rules line (a ++ b) [] "" w =
    let '((o1, n1, l1), w1) := input_loop cb rules line a [] "" w in
    let '((o2, n2, l2), w2) := input_loop cb rules l1 b [] "" w1 in
    ((o1 ++ o2, n1 +:+ n2, l2), w2).
Proof.
  revert line w. induction a as [|c a IH]; intros line w; simpl.
  { cbn. by destruct (input_loop _ _ _ _ _ _ w) as [[[??]?]?]. }
  destruct (terminator c); [destruct (str_eqb _ "")|].
  - rewrite !(input_loop_acc _ _ _ _ [c]), IH.
    destruct (input_loop cb rules [] a _ _ w) as [[[??]?]?].
    by destruct (input_loop _ _ _ b _ _ _) as [[[??]?]?].
  - rewrite !run_bind. set (r := decide_rules _ _ _ _ w).
    rewrite !(input_loop_acc _ _ _ _ ([] ++ r.1.1)), IH.
    destruct (input_loop cb rules [] a _ _ _) as [[[??]?]?].
    destruct (input_loop _ _ _ b _ _ _) as [[[??]?]?]. simpl.
    by rewrite <-app_assoc, str_app_assoc.
  - rewrite !(input_loop_acc _ _ _ _ [c]), IH.
    destruct (input_loop cb rules _ a _ _ w) as [[[??]?]?].
    by destruct (input_loop _ _ _ b _ _ _) as [[[??]?]?].
Qed.

Lemma input_loop_segment cb rules line seg (w : world T) :
  Forall (λ b, terminator b = false) seg →
  input_loop cb rules line seg [] "" w = ((seg, "", foldl keystroke line seg), w).
Proof.
  intros Hseg. revert line. induction Hseg as [|b seg Hb Hseg IH]; intros line; simpl; [done|].
  by rewrite Hb, input_loop_acc, IH.
Qed.
End stream.

(** * Proofs: decisions *)

(** The rule that decides a line: the first that matches and has one of the three actions. *)
Definition deciding (rules : list Rule) (line : string) : option Rule :=
  List.find (λ r, r_re r line && bool_decide (r_action r ∈ ["flag"; "block"; "approval"])) rules.

(** An approved, unexpired request of this user for this rule on this host. *)
Definition live_waiver (s : store) (now : Z) (user h rule : uuid) : Prop :=
  ∃ id a e, approvals s !! id = Some a ∧ ca_st a = CaApproved ∧ ca_user a = user ∧ ca_host a = Some h ∧
    ca_policy a = Some rule ∧ ca_expires a = Some e ∧ now < e.

Lemma waives_spec now user h rule a :
  waives now user h (Some rule) a = true ↔
  ca_st a = CaApproved ∧ ca_user a = user ∧ ca_host a = Some h ∧ ca_policy a = Some rule ∧
  ∃ e, ca_expires a = Some e ∧ now < e.
Proof.
  unfold waives. rewrite !andb_true_iff, !bool_decide_eq_true.
  destruct (ca_expires a) as [e|]; [rewrite Z.ltb_lt|]; naive_solver.
Qed.

Lemma ActiveWaiver_spec user h rule now s :
  ∃ b, ActiveWaiver user h (Some rule) now s = (Ok b, s) ∧ (b = true ↔ live_waiver s now user h rule).
Proof.
  eexists. split; [done|]. unfold live_waiver. set (m := filter _ (approvals s)).
  rewrite Z.ltb_lt. split.
  - intros Hm. destruct (decide (m = ∅)) as [He|(id & a & Ha)%map_choose]; [by rewrite He in Hm|].
    apply map_lookup_filter_Some in Ha as [Ha (? & ? & ? & ? & e & ? & ?)%waives_spec]. by exists id, a, e.
  - intros (id & a & e & Ha & Hw). assert (m !! id = Some a) as Hm.
    { apply map_lookup_filter_Some. split; [done|]. apply waives_spec. naive_solver. }
    destruct (decide (size m = 0%nat)) as [Hz|Hz]; [|lia].
    apply map_size_empty_iff in Hz. by rewrite Hz, lookup_empty in Hm.
Qed.

(** Every waiver was granted by somebody else, for the time a waiver lasts. *)
Definition four_eyes (s : store) : Prop :=
  map_Forall (λ _ a, ca_st a = CaApproved →
    ∃ by_ t, ca_by a = Some by_ ∧ by_ ≠ ca_user a ∧ ca_decided a = Some t ∧
      ca_expires a = Some (t + waiverTTL)) (approvals s).
Definition keeps : relation store := λ s s', four_eyes s → four_eyes s'.
#[export] Instance keeps_preorder : PreOrder keeps.
Proof. split; [by intros ??|]. intros ??? H1 H2 Hv. by apply H2, H1. Qed.

Lemma keeps_same_approvals s s' : approvals s' = approvals s → keeps s s'.
Proof. intros He Hs. unfold four_eyes. by rewrite He. Qed.

Lemma keeps_create policy user h command now s :
  keeps s (CreateCommandApproval policy user h command now s).2.
Proof. intros Hs. apply map_Forall_insert_2; [done|exact Hs]. Qed.

Lemma keeps_decide id by_ b now s : keeps s (DecideCommandApproval id by_ b waiverTTL now s).2.
Proof.
  intros Hs. unfold DecideCommandApproval. destruct (approvals s !! id) as [a|] eqn:Ha; [|done].
  destruct b; simpl.
  - destruct (decide _) as [[Hp Hne]|]; [|done]. apply map_Forall_insert_2; [|exact Hs].
    intros _. exists by_, now. by split_and!.
  - destruct (decide _); [|done]. by apply map_Forall_insert_2.
Qed.

Lemma keeps_delete id now s : keeps s (DeleteCommandPolicy id now s).2.
Proof.
  intros Hs k a. simpl. rewrite lookup_fmap. intros (a0 & Ha & ->)%fmap_Some. exact (Hs _ _ Ha).
Qed.

Section decisions.
Context `{!Env store, !Regexp} (hn : bool).

Section rely.
Context `{!Relies keeps}.
Lemma within_cc_audit who action rule command : within keeps (audit who action rule command).
Proof. unfold audit. within_tac. apply within_db; [exact _..|]. intros. by apply keeps_same_approvals. Qed.
Lemma within_cc_notify e : within keeps (notify hn e).
Proof. unfold notify. destruct hn; [|within_tac]. apply within_effect. intros. by apply keeps_same_approvals. Qed.
Lemma within_cc_create policy user h command :
  within keeps (db (CreateCommandApproval policy user h command)).
Proof. apply within_db; [exact _..|]. intros. apply keeps_create. Qed.
Lemma within_cc_quiet {A} (f : Z → store → res store_error A * store) :
  (∀ now s, approvals (f now s).2 = approvals s) → within keeps (db f).
Proof. intros Hf. apply within_db; [exact _..|]. intros. apply keeps_same_approvals, Hf. Qed.

Lemma within_decide_rules user h rules line t :
  within keeps (decide_rules (terminal_callbacks hn user h) rules line t).
Proof.
  induction rules as [|r rules IH]; simpl; [apply within_ret; exact _|].
  within_tac; try first [done | apply within_cc_audit | apply within_cc_notify | apply within_cc_create
    | by apply within_cc_quiet].
Qed.

Lemma within_input_loop user h rules line data out notice :
  within keeps (input_loop (terminal_callbacks hn user h) rules line data out notice).
Proof.
  revert line out notice. induction data as [|b data IH]; intros; simpl; [apply within_ret; exact _|].
  destruct (terminator b); [destruct (str_eqb _ "")|]; [done| |done].
  apply within_bind; [exact _|apply within_decide_rules|done].
Qed.

Lemma within_applyPolicy command h user : within keeps (applyPolicy hn command h user).
Proof.
  unfold applyPolicy, rulesForHost.
  within_tac; try first [apply within_cc_audit | apply within_cc_notify | apply within_cc_create
    | by apply within_cc_quiet].
Qed.
End rely.

Context `{!Quiet Env0} (Hdb : ∀ n, db_err n = false).

Lemma audit_run who action rule command n s :
  audit who action rule command (World n s) =
    (tt, World (S n) (AppendAudit (AuditRow who action rule command) (clock n) s).2).
Proof. unfold audit. run_step. by rewrite Hdb. Qed.

Lemma notify_eq e w r : notify hn e w = r →
  audits (w_db r.2) = audits (w_db w) ∧ approvals (w_db r.2) = approvals (w_db w).
Proof. unfold notify. intros <-. by destruct hn. Qed.

(** What one completed line leads to. *)
Definition line_outcome (user h : uuid) (rules : list Rule) (line : string) (t : ascii) (n : nat) (s : store)
    (r : (list ascii * string) * world store) : Prop :=
  let s' := w_db r.2 in
  match deciding rules line with
  | None => r.1 = ([t], "") ∧ s' = s
  | Some rule =>
    let record action := audits s' = audits s ++ [AuditRow user action (r_name rule) line] in
    if str_eqb (r_action rule) "flag" then r.1 = ([t], "") ∧ record "command.flagged"
    else if str_eqb (r_action rule) "block" then r.1.1 = killLine ∧ record "command.blocked"
    else
      (live_waiver s (clock n) user h (r_id rule) ∧ r.1 = ([t], "") ∧ record "command.approved_run") ∨
      (¬ live_waiver s (clock n) user h (r_id rule) ∧ r.1.1 = killLine ∧
       record "command.approval_requested" ∧
       ∃ id, approvals s !! id = None ∧ approvals s' !! id =
         Some (CApproval (Some (r_id rule)) user (Some h) line CaPending (clock (S n)) None None None))
  end.

Lemma decide_rules_outcome user h rules line t n s :
  line_outcome user h rules line t n s
    (decide_rules (terminal_callbacks hn user h) rules line t (World n s)).
Proof.
  unfold line_outcome. induction rules as [|r rules IH]; simpl; [done|].
  destruct (r_re r line); simpl; [|exact IH].
  destruct (str_eqb (r_action r) "flag") eqn:Hf; [|destruct (str_eqb (r_action r) "block") eqn:Hb;
    [|destruct (str_eqb (r_action r) "approval") eqn:Ha]].
  - apply str_eqb_eq in Hf. rewrite bool_decide_true by (rewrite Hf; by left). rewrite Hf. simpl.
    rewrite !run_bind, audit_run. simpl.
    destruct (notify _ _ _) as [[] w'] eqn:Hn. by apply notify_eq in Hn as [Hs' _].
  - apply str_eqb_eq in Hb. rewrite bool_decide_true by (rewrite Hb; by right; left). rewrite Hb. simpl.
    rewrite !run_bind, audit_run. simpl.
    destruct (notify _ _ _) as [[] w'] eqn:Hn. by apply notify_eq in Hn as [Hs' _].
  - apply str_eqb_eq in Ha. rewrite bool_decide_true by (rewrite Ha; by right; right; left).
    rewrite Ha. simpl. destruct (ActiveWaiver_spec user h (r_id r) (clock n) s) as (b & Hw & Hlive).
    rewrite !run_bind, run_db, Hdb, Hw. cbn [fst snd mret M_ret]. destruct b.
    + left. split; [by apply Hlive|]. rewrite run_bind, audit_run. done.
    + right. split; [by rewrite <-Hlive|]. rewrite !run_bind, run_db, Hdb. cbn [fst snd mret M_ret].
      rewrite audit_run. cbn [fst snd].
      destruct (notify _ _ _) as [[] w'] eqn:Hn. apply notify_eq in Hn as [Hs' Hap].
      cbn [fst snd] in *.
      split_and!; [done|exact Hs'|]. exists (fresh (dom (approvals s))). split; [apply fresh_lookup|].
      rewrite Hap. simpl. by rewrite lookup_insert_eq.
  - rewrite bool_decide_false; [exact IH|].
    rewrite !elem_of_cons, elem_of_nil. intros [Hx|[Hx|[Hx|[]]]]; rewrite Hx in *; done.
Qed.
End decisions.

(** The guard sees lines, however the stream is cut. Feeding it two chunks is feeding it their
    concatenation, and a stretch of input up to one line terminator forwards every keystroke as it
    is, edits the line buffer by the keystrokes (printable bytes append, a backspace drops the
    last), and replaces only the terminator by what the rules decide for the trimmed line - an
    empty line passes undecided. *)
Theorem guard_sees_lines {T} (g : Guard T) (a b seg : list ascii) (t : ascii) (w : world T) :
  Forall (λ x, terminator x = false) seg → terminator t = true →
  Input (Some g) (a ++ b) w =
    (let '((o1, n1, g1), w1) := Input (Some g) a w in
     let '((o2, n2, g2), w2) := Input g1 b w1 in ((o1 ++ o2, n1 +:+ n2, g2), w2)) ∧
  let line := trimmed (foldl keystroke (g_line g) seg) in
  let g' := Some (MkGuard (g_rules g) (g_cb g) []) in
  Input (Some g) (seg ++ [t]) w =
    if str_eqb line "" then ((seg ++ [t], "", g'), w)
    else let '((o, n), w') := decide_rules (g_cb g) (g_rules g) line t w in ((seg ++ o, n, g'), w').
Proof.
  intros Hseg Ht. split.
  - unfold Input. rewrite run_bind, input_loop_app, run_bind.
    destruct (input_loop _ _ _ a _ _ w) as [[[o1 n1] l1] w1]. cbn. rewrite run_bind. cbn.
    by destruct (input_loop _ _ _ b _ _ w1) as [[[o2 n2] l2] w2].
  - cbv zeta. unfold Input. rewrite run_bind, input_loop_app, input_loop_segment by done. simpl.
    rewrite Ht. destruct (str_eqb _ ""); [done|]. rewrite run_bind.
    by destruct (decide_rules _ _ _ _ w) as [[o n] w'].
Qed.

(** C15: What a completed command line leads to in a terminal, when no statement fails and nobody
    else changes the tables during the decision: the first matching rule with a known action
    decides. Flagged lines run and are recorded; blocked lines never reach the host - the terminator
    is replaced by the kill-line byte - and are recorded; lines gated on approval run exactly while
    there is an approved, unexpired request of that user for that rule on that host, and otherwise
    leave a pending request; a line no rule matches runs without a trace. *)
Theorem terminal_line_outcome `{!Env store, !Quiet Env0} hn user h rules line t n s :
  (∀ m, db_err m = false) →
  line_outcome user h rules line t n s
    (decide_rules (terminal_callbacks hn user h) rules line t (World n s)).
Proof. intros Hdb. by apply decide_rules_outcome. Qed.

(** Four eyes on waivers. Whatever requests interleave, the API, the terminal guard and the
    ad-hoc runner keep it that every waiver was granted by somebody other than its user and
    expires ten minutes after the grant. *)
Theorem waivers_four_eyes `{!Env store, !Regexp, !Relies keeps} hn parse_uuid user h idp body b g data
    line command :
  within keeps (create parse_uuid user body) ∧
  within keeps (update parse_uuid user idp body) ∧
  within keeps (remove user idp) ∧
  within keeps (decide_ hn user idp b) ∧
  within keeps (Input (Some (MkGuard g (terminal_callbacks hn user h) line)) data) ∧
  within keeps (applyPolicy hn command h user).
Proof.
  split_and!.
  - unfold create. within_tac; first [by apply within_cc_quiet | apply within_cc_audit].
  - unfold update. within_tac; first [by apply within_cc_quiet | apply within_cc_audit].
  - unfold remove. within_tac; first [apply within_cc_audit
      | apply within_db; [exact _..|intros; apply keeps_delete]].
  - unfold decide_. within_tac; first [apply within_cc_audit | apply within_cc_notify
      | apply within_db; [exact _..|intros; apply keeps_decide]].
  - unfold Input. apply within_bind; [exact _|by apply within_input_loop|]. intros. apply within_ret; exact _.
  - by apply within_applyPolicy.
Qed.

(** When the rules of a host cannot be read the terminal has no guard: every rule is off for the
    whole connection. *)
Lemma guard_fails_open `{!Env store, !Quiet Env0, !Regexp} hn user h n s data w :
  db_err n = true →
  (buildCommandGuard hn user h (World n s)).1 = None ∧
  (Input (None : option (Guard store)) data w).1 = (data, "", None).
Proof. intros He. split; [|done]. unfold buildCommandGuard. run_step. by rewrite He. Qed.

(** * Concrete runs *)
#[local] Instance toy_regexp : Regexp := {| regexp_Compile p := Ok (contains_sub p) |}.
Definition toy_rules : list Rule :=
  Compile [MkSpec 1 "reboots" "block" "reboot"; MkSpec 2 "root shells" "approval" "sudo -i"].
Definition toy_store : store := Store ∅ ∅ ∅ [] [].
Definition toy_guard : Guard store := MkGuard toy_rules (@terminal_callbacks quiet_env true 3 4) [].
Definition typed (s : string) : list ascii := String.list_ascii_of_string s.

Lemma guard_sees_lines_witness :
  (Input (Some toy_guard) (typed "rebx" ++ [ascii_of_nat 127] ++ typed "oot" ++ [CR]) (World 0 toy_store)).1 =
    (typed "rebx" ++ [ascii_of_nat 127] ++ typed "oot" ++ killLine, blockNotice "reboots", Some toy_guard) ∧
  (Input (Some toy_guard) (typed "ls" ++ [CR]) (World 0 toy_store)).1.1.1 = typed "ls" ++ [CR].
Proof.
  split; [by vm_compute|].
  rewrite (proj2 (guard_sees_lines toy_guard [] [] (typed "ls") CR (World 0 toy_store)
    ltac:(by repeat constructor) ltac:(done))). by vm_compute.
Defined.

Lemma terminal_line_outcome_witness :
  ∃ id, approvals (w_db (decide_rules (@terminal_callbacks quiet_env true 3%N 4%N) toy_rules "sudo -i" CR
    (World 0 toy_store)).2) !! id = Some (CApproval (Some 2%N) 3 (Some 4%N) "sudo -i" CaPending 1 None None None).
Proof.
  pose proof (@terminal_line_outcome quiet_env _ true 3%N 4%N toy_rules "sudo -i" CR 0 toy_store
    (λ _, eq_refl)) as H.
  destruct H as [[(id & a & e & Ha & _) _]|(_ & _ & _ & id & _ & Hid)]; [done|]. by exists id.
Defined.

Lemma waivers_four_eyes_witness :
  let s1 := (CreateCommandApproval (Some 2%N) 3 (Some 4%N) "sudo -i" 0 toy_store).2 in
  let id := fresh (dom (approvals toy_store)) in
  four_eyes (w_db (@decide_ quiet_env true 9%N (Some id) true (World 0 s1)).2) ∧
  (@decide_ quiet_env true 3%N (Some id) true (World 0 s1)).1 =
    WriteError 409 "request is not pending, or you cannot approve your own request" ∧
  (@decide_ quiet_env true 9%N (Some id) true (World 0 s1)).1 = WriteJSON 200 None.
Proof.
  cbv zeta. split; [|by vm_compute].
  set (id := fresh _). set (s1 := (CreateCommandApproval _ _ _ _ _ _).2).
  pose proof (@waivers_four_eyes quiet_env _ (quiet_relies _ _) true (λ _, None) 9%N 4%N (Some id) None
    true [] [] [] "") as (_ & _ & _ & Hd & _).
  apply (proj1 (Hd (World 0 s1) I)). subst s1. apply map_Forall_insert_2; [done|apply map_Forall_empty].
Defined.
