(* ===== verification/HostAccess.v ===== *)
(** Who may reach which host: [store/groups.go], [store/dynamic_groups.go], the access queries of
    [store/hosts.go], and the handlers that change memberships, grants and denials
    ([admin/groups.go], [admin/users.go], [hosts/handlers.go]), with the live-connection registry
    ([livesessions/registry.go]) a revocation acts on.

    Access has four sources - a shared group, a direct grant, an active temporary grant of the
    host or of one of its groups - and a per-user denial that overrides them all. The code asks
    for it in four different queries; the theorems relate them to one relation, [reaches]. *)
From S2P Require Import Prelude.
From S2P Require Approvals AuthSession.

Abbreviation grant := Approvals.grant.
Abbreviation Principal := AuthSession.Principal.
Abbreviation Has := AuthSession.Has.

(** * Data *)
Record GroupRule := MkRule {
  Environment : string; TagsAll : list string; TagsAny : list string;
  OSContains : string; HostnameContains : string;
}.

(** [GroupRule.Empty], on a possibly nil rule. *)
Definition Empty (r : option GroupRule) : bool :=
  match r with
  | None => true
  | Some r =>
    str_eqb (Environment r) "" && bool_decide (TagsAll r = []) && bool_decide (TagsAny r = []) &&
    str_eqb (OSContains r) "" && str_eqb (HostnameContains r) ""
  end.

(** A row of [hosts], as far as access goes, with the [os_name] of its inventory row (a host may
    have none). *)
Record host := Host { h_name : string; h_env : string; h_tags : list string;
  h_protocol : string; h_os : option string; h_enrolled : bool }.
Record group := Group { g_name : string; g_desc : string; g_rule : option GroupRule }.

(** The tables. [users] holds the super-administrator flag; the membership tables are sets of
    pairs in the order of their primary keys; [denials] holds [created_by]. [sessions] holds the
    owner and [revoked_at]; [revocations] is [cert_revocations], with [revoked_at]; [ca_keys] are the
    active user CA keys. *)
Record tables := Tables {
  users : gmap uuid bool;
  hosts : gmap uuid host;
  groups : gmap uuid group;
  user_groups : gset (uuid * uuid);
  host_groups : gset (uuid * uuid);
  host_users : gset (uuid * uuid);
  denials : gmap (uuid * uuid) (option uuid);
  temps : gmap uuid grant;
  sessions : gmap uuid (uuid * option Z);
  revocations : gmap Z Z;
  ca_keys : list string;
  audits : list (string * uuid);
}.

(** What the process holds: the registry of live connections (session, host), its counter, the
    per-host certificates of the sessions, and, on the hosts, the serials the installed revocation
    list revokes. *)
Record process := Process {
  live : gmap N (uuid * uuid);
  next : N;
  creds : gmap (uuid * uuid) Z;
  installed : gmap uuid (gset Z);
}.

Record store := Store { tb : tables; ps : process }.

Definition set_groups (s : store) m := let t := tb s in
  Store (Tables (users t) (hosts t) m (user_groups t) (host_groups t) (host_users t) (denials t)
    (temps t) (sessions t) (revocations t) (ca_keys t) (audits t)) (ps s).
Definition set_user_groups (s : store) m := let t := tb s in
  Store (Tables (users t) (hosts t) (groups t) m (host_groups t) (host_users t) (denials t)
    (temps t) (sessions t) (revocations t) (ca_keys t) (audits t)) (ps s).
Definition set_host_groups (s : store) m := let t := tb s in
  Store (Tables (users t) (hosts t) (groups t) (user_groups t) m (host_users t) (denials t)
    (temps t) (sessions t) (revocations t) (ca_keys t) (audits t)) (ps s).
Definition set_host_users (s : store) m := let t := tb s in
  Store (Tables (users t) (hosts t) (groups t) (user_groups t) (host_groups t) m (denials t)
    (temps t) (sessions t) (revocations t) (ca_keys t) (audits t)) (ps s).
Definition set_denials (s : store) m := let t := tb s in
  Store (Tables (users t) (hosts t) (groups t) (user_groups t) (host_groups t) (host_users t) m
    (temps t) (sessions t) (revocations t) (ca_keys t) (audits t)) (ps s).
Definition set_revocations (s : store) m := let t := tb s in
  Store (Tables (users t) (hosts t) (groups t) (user_groups t) (host_groups t) (host_users t)
    (denials t) (temps t) (sessions t) m (ca_keys t) (audits t)) (ps s).
Definition add_audit (s : store) e := let t := tb s in
  Store (Tables (users t) (hosts t) (groups t) (user_groups t) (host_groups t) (host_users t)
    (denials t) (temps t) (sessions t) (revocations t) (ca_keys t) (audits t ++ [e])) (ps s).
Definition set_live (s : store) m n := Store (tb s) (Process m n (creds (ps s)) (installed (ps s))).
Definition install (h : uuid) (l : gset Z) (s : store) :=
  Store (tb s) (Process (live (ps s)) (next (ps s)) (creds (ps s)) (<[h := l]> (installed (ps s)))).

(** * The access queries *)

(** [user_groups ug JOIN host_groups hg ON hg.group_id = ug.group_id WHERE ug.user_id = u]:
    the hosts of the joined rows. *)
Definition group_hosts (u : uuid) (t : tables) : list uuid :=
  ug ← elements (user_groups t);
  hg ← elements (host_groups t);
  if bool_decide (ug.1 = u) && bool_decide (hg.2 = ug.2) then [hg.1] else [].

Definition direct_hosts (u : uuid) (t : tables) : list uuid :=
  hu ← elements (host_users t); if bool_decide (hu.2 = u) then [hu.1] else [].

(** The active grants of a user: [revoked_at IS NULL AND expires_at > now()]. *)
Definition active_grants (u : uuid) (now : Z) (t : tables) : list grant :=
  List.filter (λ g, bool_decide (Approvals.tp_user g = u) && Approvals.grant_active now g)
    (map_to_list (temps t)).*2.

Definition temp_hosts (u : uuid) (now : Z) (t : tables) : list uuid :=
  g ← active_grants u now t; match Approvals.tp_host g with Some h => [h] | None => [] end.

Definition temp_group_hosts (u : uuid) (now : Z) (t : tables) : list uuid :=
  g ← active_grants u now t;
  hg ← elements (host_groups t);
  if bool_decide (Approvals.tp_group g = Some hg.2) then [hg.1] else [].

Definition UserCanAccessHost (u h : uuid) (now : Z) (s : store) : res store_error bool * store :=
  let t := tb s in
  (Ok (bool_decide (h ∈ group_hosts u t ++ direct_hosts u t ++ temp_hosts u now t ++
                        temp_group_hosts u now t) &&
       negb (bool_decide (is_Some (denials t !! (u, h))))), s).

Definition AccessibleHostIDs (u : uuid) (super : bool) (now : Z) (s : store)
    : res store_error (gset uuid) * store :=
  let t := tb s in
  (Ok (if super then dom (hosts t)
       else list_to_set (group_hosts u t ++ direct_hosts u t ++ temp_hosts u now t ++
                         temp_group_hosts u now t)), s).

(** The listed hosts; their order, by hostname, does not matter to any claim. *)
Definition ListAccessibleHosts (u : uuid) (super : bool) (now : Z) (s : store)
    : res store_error (gmap uuid host) * store :=
  let t := tb s in
  (Ok (if super then hosts t
       else filter (λ kh, kh.1 ∈ group_hosts u t ++ direct_hosts u t ++ temp_hosts u now t ++
                                temp_group_hosts u now t ∧
                          denials t !! (u, kh.1) = None) (hosts t)), s).

Record UserHostAccess := MkAccess {
  ua_host : uuid; ViaDirect : bool; ViaGroup : bool; ViaTemp : bool; ua_denied : bool;
}.

(** A row of [ListUserHostAccess]: the temporary source is one EXISTS over a LEFT JOIN there. *)
Definition access_row (u : uuid) (now : Z) (t : tables) (h : uuid) : UserHostAccess :=
  MkAccess h (bool_decide ((h, u) ∈ host_users t))
    (existsb (λ ug, bool_decide (ug.1 = u) && bool_decide ((h, ug.2) ∈ host_groups t))
       (elements (user_groups t)))
    (existsb (λ g, bool_decide (Approvals.tp_host g = Some h) ||
                   match Approvals.tp_group g with
                   | Some gr => bool_decide ((h, gr) ∈ host_groups t)
                   | None => false
                   end) (active_grants u now t))
    (bool_decide (is_Some (denials t !! (u, h)))).

Definition ListUserHostAccess (u : uuid) (now : Z) (s : store)
    : res store_error (list UserHostAccess) * store :=
  (Ok (List.filter (λ a, ViaDirect a || ViaGroup a || ViaTemp a)
         (access_row u now (tb s) <$> elements (dom (hosts (tb s))))), s).

Definition AccessibleGroupIDs (u : uuid) (super : bool) (now : Z) (s : store)
    : res store_error (gset uuid) * store :=
  let t := tb s in
  (Ok (if super then dom (groups t)
       else list_to_set ((ug ← elements (user_groups t); if bool_decide (ug.1 = u) then [ug.2] else []) ++
              (g ← active_grants u now t;
               match Approvals.tp_group g with Some gr => [gr] | None => [] end))), s).

(** * Memberships, grants, denials *)

(** A foreign key refuses a row whose parents are missing; ON CONFLICT DO NOTHING leaves an
    existing row alone. *)
Definition insert_pair (x : uuid * uuid) (parents : bool) (m : gset (uuid * uuid))
    : option (gset (uuid * uuid)) :=
  if bool_decide (x ∈ m) then Some m else if parents then Some ({[x]} ∪ m) else None.

Definition known {A} (k : uuid) (m : gmap uuid A) : bool := bool_decide (is_Some (m !! k)).

Definition AddUserToGroup (u g : uuid) (now : Z) (s : store) : res store_error unit * store :=
  match insert_pair (u, g) (known u (users (tb s)) && known g (groups (tb s))) (user_groups (tb s)) with
  | Some m => (Ok tt, set_user_groups s m)
  | None => (Err ErrDB, s)
  end.
Definition RemoveUserFromGroup (u g : uuid) (now : Z) (s : store) : res store_error unit * store :=
  (Ok tt, set_user_groups s (user_groups (tb s) ∖ {[(u, g)]})).

Definition AddHostToGroup (h g : uuid) (now : Z) (s : store) : res store_error unit * store :=
  match insert_pair (h, g) (known h (hosts (tb s)) && known g (groups (tb s))) (host_groups (tb s)) with
  | Some m => (Ok tt, set_host_groups s m)
  | None => (Err ErrDB, s)
  end.
Definition RemoveHostFromGroup (h g : uuid) (now : Z) (s : store) : res store_error unit * store :=
  (Ok tt, set_host_groups s (host_groups (tb s) ∖ {[(h, g)]})).

Definition AddUserToHost (h u : uuid) (now : Z) (s : store) : res store_error unit * store :=
  match insert_pair (h, u) (known h (hosts (tb s)) && known u (users (tb s))) (host_users (tb s)) with
  | Some m => (Ok tt, set_host_users s m)
  | None => (Err ErrDB, s)
  end.
Definition RemoveUserFromHost (h u : uuid) (now : Z) (s : store) : res store_error unit * store :=
  (Ok tt, set_host_users s (host_users (tb s) ∖ {[(h, u)]})).

Definition DenyHostAccess (u h : uuid) (by_ : option uuid) (now : Z) (s : store)
    : res store_error unit * store :=
  let t := tb s in
  if bool_decide (is_Some (denials t !! (u, h))) then (Ok tt, s)
  else if known u (users t) && known h (hosts t) &&
          match by_ with Some b => known b (users t) | None => true end
  then (Ok tt, set_denials s (<[(u, h) := by_]> (denials t)))
  else (Err ErrDB, s).
Definition AllowHostAccess (u h : uuid) (now : Z) (s : store) : res store_error unit * store :=
  (Ok tt, set_denials s (delete (u, h) (denials (tb s)))).

(** [scanGroup]: an empty rule is read as none. *)
Definition scanGroup (g : group) : group :=
  Group (g_name g) (g_desc g) (if Empty (g_rule g) then None else g_rule g).
Definition GetGroup (id : uuid) : Z → store → res store_error group * store :=
  get_row (λ s, scanGroup <$> groups (tb s) !! id).
Definition ListGroups (now : Z) (s : store) : res store_error (gmap uuid group) * store :=
  (Ok (scanGroup <$> groups (tb s)), s).

Definition group_members (g : uuid) (t : tables) : gset uuid :=
  set_map fst (filter (λ hg, hg.2 = g) (host_groups t)).
Definition HostsInGroup (g : uuid) (now : Z) (s : store) : res store_error (gmap uuid host) * store :=
  (Ok (filter (λ kh, kh.1 ∈ group_members g (tb s)) (hosts (tb s))), s).
Definition GroupHostCounts (now : Z) (s : store) : res store_error (gmap uuid nat) * store :=
  (Ok (set_to_map (λ g, (g, size (group_members g (tb s))))
         (set_map snd (host_groups (tb s)) : gset uuid)), s).

(** Names are unique. *)
Definition CreateGroup (name desc : string) (now : Z) (s : store) : res store_error uuid * store :=
  let m := groups (tb s) in
  if existsb (λ kg, str_eqb (g_name kg.2) name) (map_to_list m) then (Err ErrDB, s)
  else let id := fresh (dom m) in (Ok id, set_groups s (<[id := Group name desc None]> m)).

(** The cascades of the foreign keys. *)
Definition DeleteGroup (id : uuid) (now : Z) (s : store) : res store_error unit * store :=
  let t := tb s in
  (Ok tt, Store (Tables (users t) (hosts t) (delete id (groups t))
     (filter (λ ug, ug.2 ≠ id) (user_groups t)) (filter (λ hg, hg.2 ≠ id) (host_groups t))
     (host_users t) (denials t) (filter (λ kg, Approvals.tp_group kg.2 ≠ Some id) (temps t))
     (sessions t) (revocations t) (ca_keys t) (audits t)) (ps s)).

Definition DeleteHost (id : uuid) (now : Z) (s : store) : res store_error unit * store :=
  let t := tb s in
  (Ok tt, Store (Tables (users t) (delete id (hosts t)) (groups t) (user_groups t)
     (filter (λ hg, hg.1 ≠ id) (host_groups t)) (filter (λ hu, hu.1 ≠ id) (host_users t))
     (filter (λ kd, kd.1.2 ≠ id) (denials t))
     (filter (λ kg, Approvals.tp_host kg.2 ≠ Some id) (temps t))
     (sessions t) (revocations t) (ca_keys t) (audits t)) (ps s)).

Definition SetGroupRule (id : uuid) (rule : option GroupRule) (now : Z) (s : store)
    : res store_error unit * store :=
  let r := if Empty rule then None else rule in
  (Ok tt, set_groups s (alter (λ g, Group (g_name g) (g_desc g) r) id (groups (tb s)))).

Definition GroupIsDynamic (id : uuid) : Z → store → res store_error bool * store :=
  get_row (λ s, (λ g, bool_decide (is_Some (g_rule g))) <$> groups (tb s) !! id).

Definition AppendAudit (e : string * uuid) (now : Z) (s : store) : res store_error unit * store :=
  (Ok tt, add_audit s e).
Definition GetUserByID (id : uuid) : Z → store → res store_error bool * store :=
  get_row (λ s, users (tb s) !! id).
Definition GetHost (id : uuid) : Z → store → res store_error host * store :=
  get_row (λ s, hosts (tb s) !! id).

(** The sessions of a user that are not revoked. *)
Definition ListUserSessions (u : uuid) (now : Z) (s : store) : res store_error (list uuid) * store :=
  (Ok (map_to_list (filter (λ ks, ks.2 = (u, None)) (sessions (tb s)))).*1, s).
(** [RevokeCertificate]: the certificate row itself is not modelled; ON CONFLICT DO NOTHING keeps
    an earlier revocation time. *)
Definition RevokeCertificate (serial : Z) (now : Z) (s : store) : res store_error unit * store :=
  (Ok tt, set_revocations s
     (match revocations (tb s) !! serial with
      | Some _ => revocations (tb s)
      | None => <[serial := now]> (revocations (tb s))
      end)).
Definition PruneExpiredRevocations (before : Z) (now : Z) (s : store) : res store_error unit * store :=
  (Ok tt, set_revocations s (filter (λ kt, before ≤ kt.2) (revocations (tb s)))).
Definition RevokedSerials (now : Z) (s : store) : res store_error (gset Z) * store :=
  (Ok (dom (revocations (tb s))), s).
Definition ListActiveCAPublicKeys (now : Z) (s : store) : res store_error (list string) * store :=
  (Ok (ca_keys (tb s)), s).
Definition AllHosts (now : Z) (s : store) : res store_error (gmap uuid host) * store :=
  (Ok (hosts (tb s)), s).

(** * The registry of live connections *)
Definition Register (sess h : uuid) (s : store) : store :=
  let id := (next (ps s) + 1)%N in set_live s (<[id := (sess, h)]> (live (ps s))) id.
Definition deregister (id : N) (s : store) : store := set_live s (delete id (live (ps s))) (next (ps s)).
Definition Close (sess : uuid) (s : store) : store :=
  set_live s (filter (λ kc, kc.2.1 ≠ sess) (live (ps s))) (next (ps s)).
Definition CloseSessionHost (sess h : uuid) (s : store) : store :=
  set_live s (filter (λ kc, kc.2 ≠ (sess, h)) (live (ps s))) (next (ps s)).

(** * Dynamic membership *)
Section rules.
Context `{!Env store}.
(** [s ILIKE p] of the database. *)
Context (ilike : string → string → bool).

(** The conditions of [HostIDsMatchingRule], in the order they are added. A host without an
    inventory row has a NULL [os_name], which no pattern matches. *)
Definition conds (r : GroupRule) : list (host → bool) :=
  (if str_eqb (Environment r) "" then [] else [λ h, str_eqb (h_env h) (Environment r)]) ++
  (if bool_decide (TagsAll r = []) then []
   else [λ h, forallb (λ t, bool_decide (t ∈ h_tags h)) (TagsAll r)]) ++
  (if bool_decide (TagsAny r = []) then []
   else [λ h, existsb (λ t, bool_decide (t ∈ h_tags h)) (TagsAny r)]) ++
  (if str_eqb (OSContains r) "" then []
   else [λ h, match h_os h with Some os => ilike os ("%" +:+ OSContains r +:+ "%") | None => false end]) ++
  (if str_eqb (HostnameContains r) "" then []
   else [λ h, ilike (h_name h) ("%" +:+ HostnameContains r +:+ "%")]).

Definition matching (r : GroupRule) (t : tables) : gset uuid :=
  dom (filter (λ kh, forallb (λ c : host → bool, c kh.2) (conds r) = true) (hosts t)).

Definition HostIDsMatchingRule (rule : option GroupRule) : M store (res store_error (list uuid)) :=
  match rule with
  | None => mret (Ok [])
  | Some r => if Empty rule then mret (Ok [])
              else db (λ _ s, (Ok (elements (matching r (tb s))), s))
  end.

(** The INSERTs of the transaction of [RecomputeGroup]: any of them may fail. *)
Fixpoint insert_members (g : uuid) (ids : list uuid) (t : tables) (m : gset (uuid * uuid))
    : option (gset (uuid * uuid)) :=
  match ids with
  | [] => Some m
  | h :: ids' => m' ← insert_pair (h, g) (known h (hosts t) && known g (groups t)) m;
                 insert_members g ids' t m'
  end.

Definition replace_members (g : uuid) (ids : list uuid) (now : Z) (s : store)
    : res store_error unit * store :=
  match insert_members g ids (tb s) (filter (λ hg, hg.2 ≠ g) (host_groups (tb s))) with
  | Some m => (Ok tt, set_host_groups s m)
  | None => (Err ErrDB, s)
  end.

Definition RecomputeGroup (id : uuid) : M store (res store_error nat) :=
  r ← db (GetGroup id);
  match r with
  | Err e => mret (Err e)
  | Ok g =>
    match g_rule g with
    | None => mret (Ok 0%nat)
    | Some _ =>
      r ← HostIDsMatchingRule (g_rule g);
      match r with
      | Err e => mret (Err e)
      | Ok ids =>
        r ← db (replace_members id ids);
        mret (match r with Ok _ => Ok (length ids) | Err e => Err e end)
      end
    end
  end.

Fixpoint recompute_all (ids : list uuid) : M store (option store_error) :=
  match ids with
  | [] => mret None
  | id :: ids' =>
    r ← RecomputeGroup id;
    match r with Err e => mret (Some e) | Ok _ => recompute_all ids' end
  end.

(** [SELECT id FROM groups WHERE rule IS NOT NULL] *)
Definition dynamic_groups (now : Z) (s : store) : res store_error (list uuid) * store :=
  (Ok (map_to_list (filter (λ kg, is_Some (g_rule kg.2)) (groups (tb s)))).*1, s).

Definition ReconcileDynamicGroups : M store (option store_error) :=
  r ← db dynamic_groups;
  match r with Err e => mret (Some e) | Ok ids => recompute_all ids end.

(** * The handlers *)
Definition audit (action : string) (id : uuid) : M store unit :=
  _ ← db (AppendAudit (action, id)); mret tt.

(** A handler whose two ids must parse. *)
Definition with_ids {A} (a b : option uuid) (k : uuid → uuid → M store (reply A)) : M store (reply A) :=
  match a, b with Some a, Some b => k a b | _, _ => mret (WriteError 400 "invalid id") end.

(** One statement, its error, and the audit row of its success. *)
Definition change (f : Z → store → res store_error unit * store) (failed action : string)
    (target : uuid) (done : string) : M store (reply string) :=
  r ← db f;
  match r with
  | Err _ => mret (WriteError 500 failed)
  | Ok _ => _ ← audit action target; mret (WriteJSON 200 done)
  end.

(** [groupHostIDs]: the guard of manual edits. The error of [GroupIsDynamic] is dropped. *)
Definition unless_dynamic {A} (g : uuid) (k : M store (reply A)) : M store (reply A) :=
  r ← db (GroupIsDynamic g);
  match r with
  | Ok true => mret (WriteError 409 "group membership is rule-managed; edit the group's rule instead")
  | _ => k
  end.

Definition addGroupHost (gp hp : option uuid) : M store (reply string) :=
  with_ids gp hp (λ g h, unless_dynamic g
    (change (AddHostToGroup h g) "could not add host to group" "host.group_add" h "added")).
Definition removeGroupHost (gp hp : option uuid) : M store (reply string) :=
  with_ids gp hp (λ g h, unless_dynamic g
    (change (RemoveHostFromGroup h g) "could not remove host from group" "host.group_remove" h "removed")).

(** The same edits from the host's side ([hosts/handlers.go]). *)
Definition addGroup (hp gp : option uuid) : M store (reply string) :=
  with_ids hp gp (λ h g, unless_dynamic g
    (change (AddHostToGroup h g) "could not add to group" "host.group_add" h "added")).
Definition removeGroup (hp gp : option uuid) : M store (reply string) :=
  with_ids hp gp (λ h g, unless_dynamic g
    (change (RemoveHostFromGroup h g) "could not remove from group" "host.group_remove" h "removed")).
Definition addUser (hp up : option uuid) : M store (reply string) :=
  with_ids hp up (λ h u,
    change (AddUserToHost h u) "could not grant access" "host.user_add" h "added").
Definition removeUser (hp up : option uuid) : M store (reply string) :=
  with_ids hp up (λ h u,
    change (RemoveUserFromHost h u) "could not revoke access" "host.user_remove" h "removed").

Definition addUserGroup (up gp : option uuid) : M store (reply string) :=
  with_ids up gp (λ u g,
    change (AddUserToGroup u g) "could not add to group" "user.group_add" u "added").
Definition removeUserGroup (up gp : option uuid) : M store (reply string) :=
  with_ids up gp (λ u g,
    change (RemoveUserFromGroup u g) "could not remove from group" "user.group_remove" u "removed").

Record createGroupReq := MkGroupReq { rq_name : string; rq_desc : string; rq_rule : option GroupRule }.

Definition createGroup (body : option createGroupReq) : M store (reply uuid) :=
  match body with
  | None => mret (WriteError 400 "name is required")
  | Some rq =>
    if str_eqb (rq_name rq) "" then mret (WriteError 400 "name is required")
    else
      r ← db (CreateGroup (rq_name rq) (rq_desc rq));
      match r with
      | Err _ => mret (WriteError 500 "could not create group")
      | Ok id =>
        _ ← (if Empty (rq_rule rq) then mret tt
             else
               r ← db (SetGroupRule id (rq_rule rq));
               match r with
               | Err _ => mret tt
               | Ok _ => _ ← RecomputeGroup id; mret tt
               end);
        _ ← audit "group.create" id;
        mret (WriteJSON 201 id)
      end
  end.

(** The body is the rule, or nothing when it does not decode. *)
Definition updateGroup (idp : option uuid) (body : option (option GroupRule)) : M store (reply group) :=
  match idp with
  | None => mret (WriteError 400 "invalid group id")
  | Some id =>
  match body with
  | None => mret (WriteError 400 "invalid request body")
  | Some rule =>
    r ← db (SetGroupRule id rule);
    match r with
    | Err _ => mret (WriteError 500 "could not update group rule")
    | Ok _ =>
      _ ← RecomputeGroup id;
      _ ← audit "group.update" id;
      r ← db (GetGroup id);
      mret (match r with Err _ => WriteError 404 "no such group" | Ok g => WriteJSON 200 g end)
    end
  end end.

Definition deleteGroup (idp : option uuid) : M store (reply string) :=
  match idp with
  | None => mret (WriteError 400 "invalid group id")
  | Some id => change (DeleteGroup id) "could not delete group" "group.delete" id "deleted"
  end.

(** * Revocation lists and live connections *)

(** [krl.Available] and whether [ssh-keygen -k] succeeds; [cfg.UserCertTTL]; whether the push to a
    host is verified (SSH to the host, the file written and echoed). *)
Context (krl_available keygen_ok : bool) (UserCertTTL : Z) (push_ok : uuid → bool).

(** [krl.Build]; a list is what it revokes. *)
Definition Build (keys : list string) (serials : gset Z) : option (gset Z) :=
  if bool_decide (keys = []) then None else if keygen_ok then Some serials else None.

Definition ok_or {A} (d : A) (r : res store_error A) : A := match r with Ok a => a | Err _ => d end.

Definition push_one (krl : gset Z) (h : uuid) : M store bool :=
  if push_ok h then _ ← effect (install h krl); mret true else mret false.

(** [distributeKRL]: the numbers of hosts pushed and failed. Three reads whose errors are dropped. *)
Definition distributeKRL : M store (option (nat * nat)) :=
  if negb krl_available then mret None
  else
    now ← time_now;
    _ ← db (PruneExpiredRevocations (now - UserCertTTL));
    keys ← db ListActiveCAPublicKeys;
    serials ← db RevokedSerials;
    match Build (ok_or [] keys) (ok_or ∅ serials) with
    | None => mret None
    | Some krl =>
      hs ← db AllHosts;
      oks ← mapM (push_one krl) (elements (dom (filter (λ kh, h_enrolled kh.2 = true) (ok_or ∅ hs))));
      mret (Some (length (List.filter id oks), length (List.filter negb oks)))
    end.

(** [d.Gateway != nil], [d.Live != nil], [d.DistributeKRL != nil] *)
Context (has_gateway has_live has_krl : bool).

(** [HostCredentialSerial] *)
Definition HostCredentialSerial (sess h : uuid) : M store (option Z) :=
  peek (λ s, creds (ps s) !! (sess, h)).

Fixpoint cut_sessions (h : uuid) (l : list uuid) (revoked : bool) : M store bool :=
  match l with
  | [] => mret revoked
  | sess :: l' =>
    revoked ← (if has_gateway then
                 c ← HostCredentialSerial sess h;
                 match c with
                 | Some serial =>
                   r ← db (RevokeCertificate serial);
                   mret (match r with Ok _ => true | Err _ => revoked end)
                 | None => mret revoked
                 end
               else mret revoked);
    _ ← (if has_live then effect (CloseSessionHost sess h) else mret tt);
    cut_sessions h l' revoked
  end.

Definition cutHostAccessNow (u h : uuid) : M store unit :=
  r ← db (ListUserSessions u);
  match r with
  | Err _ => mret tt
  | Ok l =>
    revoked ← cut_sessions h l false;
    if (revoked : bool) && has_krl then _ ← distributeKRL; mret tt else mret tt
  end.

(** [guardSuperTarget]: whether the request is refused. A failed lookup does not refuse. *)
Definition guardSuperTarget (p : option Principal) (target : uuid) : M store bool :=
  if match p with Some p => AuthSession.IsSuperAdmin p | None => false end then mret false
  else
    r ← db (GetUserByID target);
    mret (match r with Ok super => super | Err _ => false end).

Definition revokeHostAccess (p : option Principal) (up hp : option uuid) : M store (reply string) :=
  with_ids up hp (λ u h,
    refused ← guardSuperTarget p u;
    if (refused : bool) then
      mret (WriteError 403 "only a super administrator may modify a super-administrator account")
    else
      r ← db (DenyHostAccess u h (AuthSession.UserID <$> p));
      match r with
      | Err _ => mret (WriteError 500 "could not revoke access")
      | Ok _ =>
        _ ← cutHostAccessNow u h;
        _ ← audit "user.host_access_revoke" u;
        mret (WriteJSON 200 "revoked")
      end).

Definition restoreHostAccess (up hp : option uuid) : M store (reply string) :=
  with_ids up hp (λ u h,
    change (AllowHostAccess u h) "could not restore access" "user.host_access_restore" u "restored").

Definition hostAccess (up : option uuid) : M store (reply (list UserHostAccess)) :=
  match up with
  | None => mret (WriteError 400 "invalid user id")
  | Some u =>
    r ← db (ListUserHostAccess u);
    mret (match r with
          | Err _ => WriteError 500 "could not list host access"
          | Ok l => WriteJSON 200 l
          end)
  end.

Definition userHosts (up : option uuid) : M store (reply (gmap uuid host)) :=
  match up with
  | None => mret (WriteError 400 "invalid user id")
  | Some u =>
    r ← db (GetUserByID u);
    match r with
    | Err _ => mret (WriteError 404 "user not found")
    | Ok super =>
      r ← db (ListAccessibleHosts u super);
      mret (match r with Err _ => WriteError 500 "could not load hosts" | Ok m => WriteJSON 200 m end)
    end
  end.

(** * The host listing and the checks of [hosts/handlers.go] *)
Definition sees_all (p : Principal) : bool := Has p "Host.Enroll" || Has p "Admin.All".

Definition get (p : Principal) (hp : option uuid) : M store (reply host) :=
  match hp with
  | None => mret (WriteError 400 "invalid host id")
  | Some h =>
    r ← db (GetHost h);
    match r with
    | Err _ => mret (WriteError 404 "host not found")
    | Ok row =>
      if sees_all p then mret (WriteJSON 200 row)
      else
        r ← db (UserCanAccessHost (AuthSession.UserID p) h);
        mret (match r with Ok true => WriteJSON 200 row | _ => WriteError 404 "host not found" end)
    end
  end.

Definition accessibleIDs (p : Principal) (ids : list uuid) : M store (list uuid) :=
  if sees_all p then mret ids
  else
    l ← mapM (λ h, r ← db (UserCanAccessHost (AuthSession.UserID p) h);
                   mret (match r with Ok true => [h] | _ => [] end)) ids;
    mret (mjoin l).
End rules.

(** * Proofs: one relation behind the four queries *)

(** The sources of access. *)
Inductive reaches (t : tables) (now : Z) (u h : uuid) : Prop :=
| by_group g : (u, g) ∈ user_groups t → (h, g) ∈ host_groups t → reaches t now u h
| by_direct : (h, u) ∈ host_users t → reaches t now u h
| by_temp_host k g :
    temps t !! k = Some g → Approvals.tp_user g = u → Approvals.grant_active now g = true →
    Approvals.tp_host g = Some h → reaches t now u h
| by_temp_group k g gr :
    temps t !! k = Some g → Approvals.tp_user g = u → Approvals.grant_active now g = true →
    Approvals.tp_group g = Some gr → (h, gr) ∈ host_groups t → reaches t now u h.

Definition denied (t : tables) (u h : uuid) : Prop := is_Some (denials t !! (u, h)).

(** Every membership, grant and denial names rows that exist. *)
Record refs_ok (t : tables) : Prop := {
  ref_user_groups u g : (u, g) ∈ user_groups t → is_Some (users t !! u) ∧ is_Some (groups t !! g);
  ref_host_groups h g : (h, g) ∈ host_groups t → is_Some (hosts t !! h) ∧ is_Some (groups t !! g);
  ref_host_users h u : (h, u) ∈ host_users t → is_Some (hosts t !! h) ∧ is_Some (users t !! u);
  ref_denials u h : denied t u h → is_Some (users t !! u) ∧ is_Some (hosts t !! h);
  ref_temps k g : temps t !! k = Some g →
    is_Some (users t !! Approvals.tp_user g) ∧
    (∀ h, Approvals.tp_host g = Some h → is_Some (hosts t !! h)) ∧
    (∀ gr, Approvals.tp_group g = Some gr → is_Some (groups t !! gr));
}.

Lemma elem_of_if_single {A} (b : bool) (x y : A) : x ∈ (if b then [y] else []) ↔ b = true ∧ x = y.
Proof. destruct b; [rewrite list_elem_of_singleton|rewrite elem_of_nil]; naive_solver. Qed.

Lemma group_hosts_spec u h t :
  h ∈ group_hosts u t ↔ ∃ g, (u, g) ∈ user_groups t ∧ (h, g) ∈ host_groups t.
Proof.
  unfold group_hosts. setoid_rewrite list_elem_of_bind. setoid_rewrite list_elem_of_bind.
  setoid_rewrite elem_of_if_single. setoid_rewrite elem_of_elements. split.
  - intros ([u' g'] & ([h' g] & [[Hu Hg]%andb_prop ->] & Hh) & Hug); simpl in *.
    apply bool_decide_eq_true in Hu, Hg. subst. eauto.
  - intros (g & Hu & Hh). exists (u, g). split; [|done]. exists (h, g). split; [|done].
    by rewrite !bool_decide_eq_true_2.
Qed.

Lemma direct_hosts_spec u h t : h ∈ direct_hosts u t ↔ (h, u) ∈ host_users t.
Proof.
  unfold direct_hosts. setoid_rewrite list_elem_of_bind. setoid_rewrite elem_of_if_single.
  setoid_rewrite elem_of_elements. split.
  - intros ([h' u'] & [Hu%bool_decide_eq_true ->] & Hh); simpl in *. by subst.
  - intros Hh. exists (h, u). by rewrite bool_decide_eq_true_2.
Qed.

Lemma active_grants_spec u now t g :
  g ∈ active_grants u now t ↔
  ∃ k, temps t !! k = Some g ∧ Approvals.tp_user g = u ∧ Approvals.grant_active now g = true.
Proof.
  unfold active_grants. rewrite list_elem_of_In, filter_In, <- list_elem_of_In, andb_true_iff,
    bool_decide_eq_true, list_elem_of_fmap. split.
  - intros [([k g'] & -> & Hk%elem_of_map_to_list) [Hu Ha]]. eauto.
  - intros (k & Hk%elem_of_map_to_list & Hu & Ha). split; [by exists (k, g)|done].
Qed.

Lemma temp_hosts_spec u now h t :
  h ∈ temp_hosts u now t ↔ ∃ g, g ∈ active_grants u now t ∧ Approvals.tp_host g = Some h.
Proof.
  unfold temp_hosts. rewrite list_elem_of_bind. split.
  - intros (g & Hg & Ha). exists g. destruct (Approvals.tp_host g); [|by apply elem_of_nil in Hg].
    apply list_elem_of_singleton in Hg as ->. done.
  - intros (g & Ha & Hg). exists g. rewrite Hg. split; [by apply list_elem_of_singleton|done].
Qed.

Lemma temp_group_hosts_spec u now h t :
  h ∈ temp_group_hosts u now t ↔
  ∃ g gr, g ∈ active_grants u now t ∧ Approvals.tp_group g = Some gr ∧ (h, gr) ∈ host_groups t.
Proof.
  unfold temp_group_hosts. setoid_rewrite list_elem_of_bind. setoid_rewrite list_elem_of_bind.
  setoid_rewrite elem_of_if_single. setoid_rewrite elem_of_elements. split.
  - intros (g & ([h' gr] & [Hg%bool_decide_eq_true ->] & Hh) & Ha). by exists g, gr.
  - intros (g & gr & Ha & Hg & Hh). exists g. split; [|done]. exists (h, gr).
    by rewrite bool_decide_eq_true_2.
Qed.

Lemma sources_spec u now h t :
  h ∈ group_hosts u t ++ direct_hosts u t ++ temp_hosts u now t ++ temp_group_hosts u now t ↔
  reaches t now u h.
Proof.
  rewrite !elem_of_app, group_hosts_spec, direct_hosts_spec, temp_hosts_spec, temp_group_hosts_spec.
  setoid_rewrite active_grants_spec. split.
  - intros [(g & ? & ?)|[?|[(g & (k & ? & ? & ?) & ?)|(g & gr & (k & ? & ? & ?) & ? & ?)]]];
      [by eapply by_group|by apply by_direct|by eapply by_temp_host|by eapply by_temp_group].
  - destruct 1; naive_solver.
Qed.

Lemma reaches_known t now u h : refs_ok t → reaches t now u h → is_Some (hosts t !! h).
Proof.
  intros Hr [g ? Hh|Hh|k g Hk _ _ Hh|k g gr _ _ _ _ Hh].
  - by apply (ref_host_groups _ Hr) in Hh as [??].
  - by apply (ref_host_users _ Hr) in Hh as [??].
  - by apply (ref_temps _ Hr _ _ Hk) in Hh.
  - by apply (ref_host_groups _ Hr) in Hh as [??].
Qed.

Definition can_access (t : tables) (now : Z) (u h : uuid) : Prop :=
  reaches t now u h ∧ ¬ denied t u h.

Lemma UserCanAccessHost_spec u h now s :
  ∃ b, UserCanAccessHost u h now s = (Ok b, s) ∧ (b = true ↔ can_access (tb s) now u h).
Proof.
  eexists. split; [done|]. unfold can_access, denied.
  by rewrite andb_true_iff, negb_true_iff, bool_decide_eq_true, bool_decide_eq_false, sources_spec.
Qed.

Lemma denied_refused u h now s : denied (tb s) u h → (UserCanAccessHost u h now s).1 = Ok false.
Proof.
  intros Hd. destruct (UserCanAccessHost_spec u h now s) as (b & -> & Hb). simpl. f_equal.
  apply not_true_is_false. rewrite Hb. by intros [_ Hn].
Qed.

Lemma ListAccessibleHosts_spec u now s :
  ∃ m, ListAccessibleHosts u false now s = (Ok m, s) ∧
    ∀ h row, m !! h = Some row ↔ hosts (tb s) !! h = Some row ∧ can_access (tb s) now u h.
Proof.
  eexists. split; [done|]. intros h row. rewrite map_lookup_filter_Some. simpl.
  unfold can_access, denied. rewrite sources_spec, eq_None_not_Some. done.
Qed.

Lemma AccessibleHostIDs_spec u now s :
  ∃ m, AccessibleHostIDs u false now s = (Ok m, s) ∧ ∀ h, h ∈ m ↔ reaches (tb s) now u h.
Proof. eexists. split; [done|]. intros h. by rewrite elem_of_list_to_set, sources_spec. Qed.

(** The flags of a row of [ListUserHostAccess]. *)
Lemma access_row_spec u now t h :
  let r := access_row u now t h in
  (ViaDirect r || ViaGroup r || ViaTemp r = true ↔ reaches t now u h) ∧
  (ua_denied r = true ↔ denied t u h).
Proof.
  split; [|apply bool_decide_eq_true]. rewrite <- sources_spec, !elem_of_app, group_hosts_spec,
    direct_hosts_spec, temp_hosts_spec, temp_group_hosts_spec. simpl.
  rewrite !orb_true_iff, bool_decide_eq_true, !existsb_exists. split.
  - intros [[Hd|([u' g] & Hin & [Hu%bool_decide_eq_true Hg%bool_decide_eq_true]%andb_prop)]|(g & Hin & Hg)].
    + auto.
    + left. exists g. simpl in *. subst. by rewrite <- elem_of_elements, list_elem_of_In.
    + rewrite <- list_elem_of_In in Hin. right; right.
      apply orb_prop in Hg as [Hg%bool_decide_eq_true|Hg]; [by left; eauto|right].
      destruct (Approvals.tp_group g) as [gr|] eqn:Hgr; [|done]. apply bool_decide_eq_true in Hg. eauto.
  - intros [(g & Hu & Hg)|[Hd|[(g & Hin & Hg)|(g & gr & Hin & Hg & Hh)]]].
    + left; right. exists (u, g). rewrite <- list_elem_of_In, elem_of_elements.
      simpl. by rewrite !bool_decide_eq_true_2.
    + auto.
    + right. exists g. rewrite <- list_elem_of_In, Hg. by rewrite bool_decide_eq_true_2.
    + right. exists g. rewrite <- list_elem_of_In, Hg, (bool_decide_eq_true_2 _ Hh), orb_true_r. done.
Qed.

Lemma ListUserHostAccess_spec u now s :
  ∃ l, ListUserHostAccess u now s = (Ok l, s) ∧
    ∀ a, a ∈ l ↔ is_Some (hosts (tb s) !! ua_host a) ∧ a = access_row u now (tb s) (ua_host a) ∧
                 reaches (tb s) now u (ua_host a).
Proof.
  eexists. split; [done|]. intros a. rewrite list_elem_of_In, filter_In, <- list_elem_of_In, list_elem_of_fmap.
  split.
  - intros [(h & -> & Hh%elem_of_elements%elem_of_dom) Hf]. simpl. split_and!; [done..|].
    by apply (access_row_spec u now (tb s) h).
  - intros (Hh & -> & Hr). simpl. split.
    + eexists. split; [done|]. by apply elem_of_elements, elem_of_dom.
    + by apply (access_row_spec u now (tb s)).
Qed.

(** * The statements as a transition system

    One constructor per statement of this component; [allow u h] says which denials may be lifted.
    [step_other] is anything another component or the process does that keeps the references and
    the denials. *)
Inductive step (allow : uuid → uuid → Prop) : relation store :=
| step_add_user u g now s : step allow s (AddUserToGroup u g now s).2
| step_remove_user u g now s : step allow s (RemoveUserFromGroup u g now s).2
| step_add_host h g now s : step allow s (AddHostToGroup h g now s).2
| step_remove_host h g now s : step allow s (RemoveHostFromGroup h g now s).2
| step_grant h u now s : step allow s (AddUserToHost h u now s).2
| step_ungrant h u now s : step allow s (RemoveUserFromHost h u now s).2
| step_deny u h by_ now s : step allow s (DenyHostAccess u h by_ now s).2
| step_allow u h now s : allow u h → step allow s (AllowHostAccess u h now s).2
| step_create_group name desc now s : step allow s (CreateGroup name desc now s).2
| step_delete_group id now s : step allow s (DeleteGroup id now s).2
| step_delete_host id now s : (∀ u, allow u id) → step allow s (DeleteHost id now s).2
| step_rule id r now s : step allow s (SetGroupRule id r now s).2
| step_members g ids now s : step allow s (replace_members g ids now s).2
| step_other s s' :
    (refs_ok (tb s) → refs_ok (tb s')) → (∀ u h, denied (tb s) u h → denied (tb s') u h) →
    step allow s s'.

Abbreviation steps allow := (rtc (step allow)).

Lemma insert_pair_Some x b m m' :
  insert_pair x b m = Some m' → ∀ y, y ∈ m' ↔ y ∈ m ∨ y = x ∧ (b = true ∨ x ∈ m).
Proof.
  unfold insert_pair. case_bool_decide.
  - intros [= ->] y. naive_solver.
  - destruct b; [|done]. intros [= <-] y. set_solver.
Qed.

Lemma known_spec {A} k (m : gmap uuid A) : known k m = true ↔ is_Some (m !! k).
Proof. apply bool_decide_eq_true. Qed.

Lemma insert_members_spec g ids t m m' :
  insert_members g ids t m = Some m' →
  (∀ x, x ∈ m' ↔ x ∈ m ∨ x.2 = g ∧ x.1 ∈ ids) ∧
  (∀ h, h ∈ ids → (h, g) ∈ m ∨ is_Some (hosts t !! h) ∧ is_Some (groups t !! g)).
Proof.
  revert m m'. induction ids as [|h ids IH]; simpl; intros m m'.
  { intros [= ->]. split; [|intros ? []%elem_of_nil]. intros x. rewrite elem_of_nil. naive_solver. }
  intros (m1 & Hm1 & Hm')%bind_Some. destruct (IH _ _ Hm') as [H1 H2].
  pose proof (insert_pair_Some _ _ _ _ Hm1) as Hi. split.
  - intros [a b]. rewrite H1, Hi, elem_of_cons. simpl.
    assert ((h, g) ∈ m1) as Hin; [|naive_solver].
    apply Hi. unfold insert_pair in Hm1. case_bool_decide; [by left|].
    destruct (_ && _); [by right; auto|done].
  - intros h'. rewrite elem_of_cons.
    assert ((h, g) ∈ m ∨ is_Some (hosts t !! h) ∧ is_Some (groups t !! g)) as Hh.
    { unfold insert_pair in Hm1. case_bool_decide; [by left|].
      destruct (known h _) eqn:E1; [|done]. destruct (known g _) eqn:E2; [|done].
      rewrite known_spec in E1; rewrite known_spec in E2. auto. }
    intros [->|Hin]; [done|]. destruct (H2 _ Hin) as [Hm|]; [|auto].
    apply Hi in Hm as [Hm|[[= ->] _]]; auto.
Qed.

Lemma insert_members_total g ids t m :
  (∀ h, h ∈ ids → is_Some (hosts t !! h)) → is_Some (groups t !! g) →
  is_Some (insert_members g ids t m).
Proof.
  intros Hh Hg. revert m. induction ids as [|h ids IH]; intros m; simpl; [by eexists|].
  assert (insert_pair (h, g) (known h (hosts t) && known g (groups t)) m =
    Some (if bool_decide ((h, g) ∈ m) then m else {[(h, g)]} ∪ m)) as ->.
  { unfold insert_pair. case_bool_decide; [done|].
    rewrite (proj2 (known_spec _ _)), (proj2 (known_spec _ _)); [done|done|].
    apply Hh, list_elem_of_here. }
  apply IH. intros. apply Hh. by apply list_elem_of_further.
Qed.

Ltac refs_split Hr :=
  destruct Hr as [Hr1 Hr2 Hr3 Hr4 Hr5]; split; simpl;
  [clear Hr2 Hr3 Hr4 Hr5|clear Hr1 Hr3 Hr4 Hr5|clear Hr1 Hr2 Hr4 Hr5|clear Hr1 Hr2 Hr3 Hr5|
   clear Hr1 Hr2 Hr3 Hr4].

Lemma refs_user_groups s m :
  refs_ok (tb s) → (∀ u g, (u, g) ∈ m → (u, g) ∈ user_groups (tb s) ∨
    known u (users (tb s)) && known g (groups (tb s)) = true) → refs_ok (tb (set_user_groups s m)).
Proof.
  intros Hr Hm. refs_split Hr; [|done..].
  intros u g Hin. destruct (Hm u g Hin) as [|[??]%andb_prop]; [auto|]. by rewrite <- !known_spec.
Qed.
Lemma refs_host_groups s m :
  refs_ok (tb s) → (∀ h g, (h, g) ∈ m → (h, g) ∈ host_groups (tb s) ∨
    is_Some (hosts (tb s) !! h) ∧ is_Some (groups (tb s) !! g)) → refs_ok (tb (set_host_groups s m)).
Proof. intros Hr Hm. refs_split Hr; [done|naive_solver|done..]. Qed.
Lemma refs_host_users s m :
  refs_ok (tb s) → (∀ h u, (h, u) ∈ m → (h, u) ∈ host_users (tb s) ∨
    known h (hosts (tb s)) && known u (users (tb s)) = true) → refs_ok (tb (set_host_users s m)).
Proof.
  intros Hr Hm. refs_split Hr; [done..| |done|done].
  intros u g Hin. destruct (Hm u g Hin) as [|[??]%andb_prop]; [auto|]. by rewrite <- !known_spec.
Qed.
(** Groups may be added and changed, never removed this way. *)
Lemma refs_groups s m :
  refs_ok (tb s) → (∀ g, is_Some (groups (tb s) !! g) → is_Some (m !! g)) → refs_ok (tb (set_groups s m)).
Proof.
  intros Hr Hm. refs_split Hr; [naive_solver|naive_solver|done|done|].
  intros k g Hk. destruct (Hr5 k g Hk) as (? & ? & ?). naive_solver.
Qed.

Lemma refs_delete_group id now s : refs_ok (tb s) → refs_ok (tb (DeleteGroup id now s).2).
Proof.
  intros Hr. refs_split Hr.
  - intros u g [Hg Hin]%elem_of_filter. rewrite lookup_delete_ne by done. auto.
  - intros h g [Hg Hin]%elem_of_filter. rewrite lookup_delete_ne by done. auto.
  - done.
  - done.
  - intros k g [Hk Hg]%map_lookup_filter_Some. destruct (Hr5 k g Hk) as (? & ? & Hgr).
    split_and!; [done..|]. intros gr Htp. rewrite lookup_delete_ne by (simpl in Hg; congruence). auto.
Qed.

Lemma refs_delete_host id now s : refs_ok (tb s) → refs_ok (tb (DeleteHost id now s).2).
Proof.
  intros Hr. refs_split Hr.
  - done.
  - intros h g [Hg Hin]%elem_of_filter. rewrite lookup_delete_ne by done. auto.
  - intros h g [Hg Hin]%elem_of_filter. rewrite lookup_delete_ne by done. auto.
  - intros u h [d [Hd Hne]%map_lookup_filter_Some]. rewrite lookup_delete_ne by done. apply Hr4. by exists d.
  - intros k g [Hk Hg]%map_lookup_filter_Some. destruct (Hr5 k g Hk) as (? & Hh & Hgr).
    split_and!; [done| |done]. intros gr Htp. rewrite lookup_delete_ne by (simpl in Hg; congruence). auto.
Qed.

Lemma refs_deny u h by_ now s : refs_ok (tb s) → refs_ok (tb (DenyHostAccess u h by_ now s).2).
Proof.
  intros Hr. unfold DenyHostAccess. case_bool_decide; [done|]. destruct (_ && _) eqn:Hk; [|done].
  apply andb_prop in Hk as [[Hu Hh]%andb_prop _]. rewrite known_spec in Hu; rewrite known_spec in Hh.
  refs_split Hr; [done..| |done]. unfold denied; simpl. intros u' h' [d Hd].
  apply lookup_insert_Some in Hd as [[[= -> ->] _]|[_ Hd]]; [done|]. apply Hr4. by exists d.
Qed.

Lemma step_refs allow s s' : step allow s s' → refs_ok (tb s) → refs_ok (tb s').
Proof.
  intros [] Hr; unfold AddUserToGroup, AddHostToGroup, AddUserToHost, CreateGroup, replace_members;
    try match goal with |- context [insert_pair ?x ?b ?m] =>
      destruct (insert_pair x b m) eqn:Hi; [pose proof (insert_pair_Some _ _ _ _ Hi) as Hi'|done] end.
  - apply refs_user_groups; [done|]. intros ?? [|[[= -> ->] [|]]]%Hi'; auto.
  - apply refs_user_groups; [done|]. set_solver.
  - apply refs_host_groups; [done|]. intros ?? [|[[= -> ->] [[?%known_spec ?%known_spec]%andb_prop|]]]%Hi'; auto.
  - apply refs_host_groups; [done|]. set_solver.
  - apply refs_host_users; [done|]. intros ?? [|[[= -> ->] [|]]]%Hi'; auto.
  - apply refs_host_users; [done|]. set_solver.
  - by apply refs_deny.
  - refs_split Hr; [done..| |done]. unfold denied; simpl. intros u' h' [d Hd].
    apply lookup_delete_Some in Hd as [_ Hd]. apply Hr4. by exists d.
  - destruct (existsb _ _); [done|]. apply refs_groups; [done|]. intros g Hg. by apply lookup_insert_is_Some'; auto.
  - by apply refs_delete_group.
  - by apply refs_delete_host.
  - apply refs_groups; [done|]. intros g Hg. by rewrite lookup_alter_is_Some.
  - destruct (insert_members _ _ _ _) as [m|] eqn:Hm; [|done].
    apply insert_members_spec in Hm as [H1 H2]. apply refs_host_groups; [done|].
    intros h g' [[_ Hin]%elem_of_filter|[Hg Hin]]%H1; [by left|]. simpl in Hg, Hin. subst g'.
    destruct (H2 _ Hin) as [[Hne _]%elem_of_filter|]; [by destruct Hne|by right].
  - auto.
Qed.

Lemma step_denied allow s s' u h :
  ¬ allow u h → step allow s s' → denied (tb s) u h → denied (tb s') u h.
Proof.
  intros Hna [] Hd; unfold AddUserToGroup, AddHostToGroup, AddUserToHost, CreateGroup, replace_members,
    DenyHostAccess; repeat case_match; try done; unfold denied in *; simpl.
  - rewrite lookup_insert_is_Some'. auto.
  - rewrite lookup_insert_is_Some'. auto.
  - rewrite lookup_delete_is_Some. split; [congruence|done].
  - destruct Hd as [d Hd]. exists d. apply map_lookup_filter_Some. split; [done|]. simpl. naive_solver.
  - auto.
Qed.

(** * What a running server sends *)
Inductive request :=
| RqAddGroupHost (g h : option uuid) | RqRemoveGroupHost (g h : option uuid)
| RqAddGroup (h g : option uuid) | RqRemoveGroup (h g : option uuid)
| RqAddUser (h u : option uuid) | RqRemoveUser (h u : option uuid)
| RqAddUserGroup (u g : option uuid) | RqRemoveUserGroup (u g : option uuid)
| RqCreateGroup (body : option createGroupReq)
| RqUpdateGroup (id : option uuid) (body : option (option GroupRule))
| RqDeleteGroup (id : option uuid)
| RqRevokeAccess (p : option Principal) (u h : option uuid)
| RqRestoreAccess (u h : option uuid)
| RqReconcile | RqDistributeKRL.

(** The denials a request may lift. *)
Definition lifts (rq : request) (u h : uuid) : Prop :=
  match rq with RqRestoreAccess (Some u') (Some h') => u' = u ∧ h' = h | _ => False end.

Section serve.
Context `{!Env store} (ilike : string → string → bool).
Context (krl_available keygen_ok : bool) (UserCertTTL : Z) (push_ok : uuid → bool).
Context (has_gateway has_live has_krl : bool).

Abbreviation distribute := (distributeKRL krl_available keygen_ok UserCertTTL push_ok).
Abbreviation cut := (cutHostAccessNow krl_available keygen_ok UserCertTTL push_ok has_gateway has_live has_krl).

Definition serve (rq : request) : M store unit :=
  match rq with
  | RqAddGroupHost g h => _ ← addGroupHost g h; mret tt
  | RqRemoveGroupHost g h => _ ← removeGroupHost g h; mret tt
  | RqAddGroup h g => _ ← addGroup h g; mret tt
  | RqRemoveGroup h g => _ ← removeGroup h g; mret tt
  | RqAddUser h u => _ ← addUser h u; mret tt
  | RqRemoveUser h u => _ ← removeUser h u; mret tt
  | RqAddUserGroup u g => _ ← addUserGroup u g; mret tt
  | RqRemoveUserGroup u g => _ ← removeUserGroup u g; mret tt
  | RqCreateGroup body => _ ← createGroup ilike body; mret tt
  | RqUpdateGroup id body => _ ← updateGroup ilike id body; mret tt
  | RqDeleteGroup id => _ ← deleteGroup id; mret tt
  | RqRevokeAccess p u h =>
    _ ← revokeHostAccess krl_available keygen_ok UserCertTTL push_ok has_gateway has_live has_krl p u h;
    mret tt
  | RqRestoreAccess u h => _ ← restoreHostAccess u h; mret tt
  | RqReconcile => _ ← ReconcileDynamicGroups ilike; mret tt
  | RqDistributeKRL => _ ← distribute; mret tt
  end.

Context (allow : uuid → uuid → Prop) `{!Relies (steps allow)}.

Lemma within_stmt {A} (f : Z → store → res store_error A * store) :
  (∀ now s, step allow s (f now s).2) → within (steps allow) (db f).
Proof. intros Hf. apply within_db; [exact _..|]. intros. apply rtc_once, Hf. Qed.

(** Statements and effects outside the references and the denials. *)
Lemma step_same s s' : refs_ok (tb s) = refs_ok (tb s') → denials (tb s) = denials (tb s') → step allow s s'.
Proof. intros Hr Hd. apply step_other; [by rewrite Hr|]. intros u h. unfold denied. by rewrite Hd. Qed.

Lemma within_same {A} (f : Z → store → res store_error A * store) :
  (∀ now s, tb (f now s).2 = tb s) → within (steps allow) (db f).
Proof. intros Hf. apply within_stmt. intros. apply step_same; by rewrite Hf. Qed.

Lemma within_process f : (∀ s, tb (f s) = tb s) → within (steps allow) (effect f).
Proof. intros Hf. apply within_effect. intros s. apply rtc_once, step_same; by rewrite Hf. Qed.

Lemma within_revocations (f : Z → store → gmap Z Z) :
  within (steps allow) (db (λ now s, (Ok tt, set_revocations s (f now s)) : res store_error unit * store)).
Proof.
  apply within_stmt. intros now s. apply step_other; [|done].
  intros [Hr1 Hr2 Hr3 Hr4 Hr5]. by split.
Qed.

Lemma within_ha_audit action id : within (steps allow) (audit action id).
Proof.
  unfold audit. apply within_bind; [exact _| |within_tac]. apply within_stmt. intros now s.
  apply step_other; [|done]. intros [Hr1 Hr2 Hr3 Hr4 Hr5]. by split.
Qed.

Lemma within_change f failed action target done_ :
  (∀ now s, step allow s (f now s).2) → within (steps allow) (change f failed action target done_).
Proof.
  intros Hf. unfold change. apply within_bind; [exact _|by apply within_stmt|].
  pose proof within_ha_audit. within_tac.
Qed.

Lemma within_with_ids {A} a b (k : uuid → uuid → M store (reply A)) :
  (∀ x y, a = Some x → b = Some y → within (steps allow) (k x y)) → within (steps allow) (with_ids a b k).
Proof. intros Hk. unfold with_ids. destruct a, b; try apply within_ret, _. by apply Hk. Qed.

Lemma within_unless_dynamic {A} g (k : M store (reply A)) :
  within (steps allow) k → within (steps allow) (unless_dynamic g k).
Proof. intros Hk. unfold unless_dynamic. within_tac. Qed.

Lemma within_matching rule : within (steps allow) (HostIDsMatchingRule ilike rule).
Proof. unfold HostIDsMatchingRule. within_tac. Qed.

Lemma within_recompute id : within (steps allow) (RecomputeGroup ilike id).
Proof.
  unfold RecomputeGroup. pose proof within_matching.
  assert (∀ l, within (steps allow) (db (replace_members id l))).
  { intros. apply within_stmt. intros. apply step_members. }
  within_tac.
Qed.

Lemma within_recompute_all ids : within (steps allow) (recompute_all ilike ids).
Proof.
  pose proof within_recompute. induction ids as [|id ids IH]; simpl; within_tac.
Qed.

Lemma within_push krl h : within (steps allow) (push_one push_ok krl h).
Proof. unfold push_one. within_tac. by apply within_process. Qed.

Lemma within_distribute : within (steps allow) distribute.
Proof.
  unfold distributeKRL. pose proof within_push.
  assert (∀ b, within (steps allow) (db (PruneExpiredRevocations b))) by (intros; apply within_revocations).
  assert (within (steps allow) (db ListActiveCAPublicKeys)) by by apply within_same.
  assert (within (steps allow) (db RevokedSerials)) by by apply within_same.
  assert (within (steps allow) (db AllHosts)) by by apply within_same.
  within_tac.
Qed.

Lemma within_cut u h : within (steps allow) (cut u h).
Proof.
  unfold cutHostAccessNow. pose proof within_distribute.
  assert (within (steps allow) (db (ListUserSessions u))) by by apply within_same.
  assert (∀ l b, within (steps allow) (cut_sessions has_gateway has_live h l b)).
  { unfold HostCredentialSerial. induction l as [|sess l IH]; intros b; simpl; within_tac.
    - apply within_revocations.
    - by apply within_process. }
  within_tac.
Qed.

Lemma within_unit {A} (m : M store A) : within (steps allow) m → within (steps allow) (_ ← m; mret tt).
Proof. intros Hm. within_tac. Qed.

#[local] Hint Constructors step : core.

Lemma within_access_serve rq : (∀ u h, lifts rq u h → allow u h) → within (steps allow) (serve rq).
Proof.
  intros Hl. pose proof within_ha_audit. pose proof within_recompute. pose proof within_cut.
  assert (∀ id r, within (steps allow) (db (SetGroupRule id r))) by (intros; apply within_stmt; auto).
  assert (∀ n d, within (steps allow) (db (CreateGroup n d))) by (intros; apply within_stmt; auto).
  destruct rq; cbn [serve]; apply within_unit.
  1-8: apply within_with_ids; intros; try apply within_unless_dynamic; apply within_change; auto.
  - unfold createGroup. within_tac.
  - unfold updateGroup. within_tac.
  - unfold deleteGroup. within_tac. apply within_change; auto.
  - unfold revokeHostAccess, guardSuperTarget. apply within_with_ids; intros.
    within_tac. apply within_stmt; auto.
  - apply within_with_ids; intros. apply within_change. intros. apply step_allow, Hl. by subst.
  - unfold ReconcileDynamicGroups. pose proof within_recompute_all.
    assert (within (steps allow) (db dynamic_groups)) by by apply within_same.
    within_tac.
  - apply within_distribute.
Qed.
End serve.

(** * Proofs: one request in a quiet environment *)
Section quiet.
Context `{!Env store, !Quiet Env0} (Hdb : ∀ n, db_err n = false).

Section rule.
Context (ilike : string → string → bool).

(** What a rule asks of a host, field by field. *)
Record rule_holds (r : GroupRule) (row : host) : Prop := {
  rh_env : Environment r ≠ "" → h_env row = Environment r;
  rh_all t : t ∈ TagsAll r → t ∈ h_tags row;
  rh_any : TagsAny r ≠ [] → ∃ t, t ∈ TagsAny r ∧ t ∈ h_tags row;
  rh_os : OSContains r ≠ "" → ∃ os, h_os row = Some os ∧ ilike os ("%" +:+ OSContains r +:+ "%") = true;
  rh_name : HostnameContains r ≠ "" → ilike (h_name row) ("%" +:+ HostnameContains r +:+ "%") = true;
}.

Lemma forallb_guard (b : bool) (c : host → bool) row :
  forallb (λ c : host → bool, c row) (if b then [] else [c]) = true ↔ (b = false → c row = true).
Proof. destruct b; simpl; [|rewrite andb_true_r]; naive_solver. Qed.

Lemma conds_spec r row : forallb (λ c : host → bool, c row) (conds ilike r) = true ↔ rule_holds r row.
Proof.
  unfold conds. rewrite !forallb_app, !andb_true_iff, !forallb_guard.
  unfold str_eqb. rewrite !bool_decide_eq_false. split.
  - intros (He & Ha & Hy & Ho & Hn). split; [|intros t Ht|..|done].
    + intros Hne. exact (bool_decide_eq_true_1 _ (He Hne)).
    + assert (TagsAll r ≠ []) as Hne by (intros Hnil; rewrite Hnil in Ht; by apply elem_of_nil in Ht).
      specialize (Ha Hne). rewrite forallb_forall in Ha. 
      by eapply bool_decide_eq_true_1, Ha, list_elem_of_In.
    + intros Hne. specialize (Hy Hne). apply existsb_exists in Hy as (t & ?%list_elem_of_In & ?%bool_decide_eq_true).
      eauto.
    + intros Hne. specialize (Ho Hne). destruct (h_os row); [eauto|done].
  - intros [He Ha Hy Ho Hn]. split_and!.
    + intros Hne. apply bool_decide_eq_true_2, He, Hne.
    + intros _. apply forallb_forall. intros t Ht%list_elem_of_In. by apply bool_decide_eq_true_2, Ha.
    + intros Hne. destruct (Hy Hne) as (t & ?%list_elem_of_In & ?). apply existsb_exists. exists t.
      by rewrite bool_decide_eq_true.
    + intros Hne. by destruct (Ho Hne) as (os & -> & ?).
    + done.
Qed.

Lemma matching_spec r t h : h ∈ matching ilike r t ↔ ∃ row, hosts t !! h = Some row ∧ rule_holds r row.
Proof.
  unfold matching. rewrite elem_of_dom. split.
  - intros [row [Hh Hc]%map_lookup_filter_Some]. exists row. by rewrite <- conds_spec.
  - intros (row & Hh & Hc). exists row. apply map_lookup_filter_Some. by rewrite conds_spec.
Qed.

Lemma recompute_run id g n s :
  groups (tb s) !! id = Some g →
  ∃ n' s' k, RecomputeGroup ilike id (World n s) = (Ok k, World n' s') ∧
    match g_rule (scanGroup g) with
    | None => k = 0%nat ∧ s' = s
    | Some r =>
      k = size (matching ilike r (tb s)) ∧
      ∃ m, s' = set_host_groups s m ∧
        (∀ h, (h, id) ∈ m ↔ h ∈ matching ilike r (tb s)) ∧
        (∀ h g', g' ≠ id → (h, g') ∈ m ↔ (h, g') ∈ host_groups (tb s))
    end.
Proof.
  intros Hg. unfold RecomputeGroup. run_step. rewrite Hdb. cbn. rewrite Hg. cbn.
  destruct (Empty (g_rule g)) eqn:He; [by eauto 10|].
  destruct (g_rule g) as [r|]; [|done].
  unfold HostIDsMatchingRule. rewrite He. run_step. rewrite Hdb. cbn. run_step. rewrite Hdb. cbn.
  unfold replace_members.
  destruct (insert_members_total id (elements (matching ilike r (tb s))) (tb s)
    (filter (λ hg, hg.2 ≠ id) (host_groups (tb s)))) as [m Hm]; [| by eexists |].
  { intros h (row & Hh & _)%elem_of_elements%matching_spec. by eexists. }
  rewrite Hm. cbn. eexists _, _, _. split; [done|]. split; [done|]. exists m. split; [done|].
  apply insert_members_spec in Hm as [Hm _]. split.
  - intros h. rewrite Hm, elem_of_filter. simpl. rewrite elem_of_elements. naive_solver.
  - intros h g' Hne. rewrite Hm, elem_of_filter. simpl. naive_solver.
Qed.
End rule.

Section cut.
Context (krl_available keygen_ok : bool) (UserCertTTL : Z) (push_ok : uuid → bool).

Lemma push_one_run krl h n s :
  push_one push_ok krl h (World n s) = (push_ok h, World n (if push_ok h then install h krl s else s)).
Proof using Type. unfold push_one. by destruct (push_ok h). Qed.

Lemma push_all krl l n s :
  ∃ inst, mapM (push_one push_ok krl) l (World n s) =
    (push_ok <$> l, World n (Store (tb s) (Process (live (ps s)) (next (ps s)) (creds (ps s)) inst))) ∧
    ∀ h, (h ∈ l → push_ok h = true → inst !! h = Some krl) ∧
         (h ∉ l ∨ push_ok h = false → inst !! h = installed (ps s) !! h).
Proof using Type.
  revert s. induction l as [|h l IH]; intros s.
  { exists (installed (ps s)). split; [by destruct s as [? []]|].
    intros h. split; [by intros ?%elem_of_nil|done]. }
  change (mapM (push_one push_ok krl) (h :: l))
    with (b ← push_one push_ok krl h; bs ← mapM (push_one push_ok krl) l; mret (b :: bs)).
  rewrite run_bind, push_one_run. cbn [fst snd]. rewrite run_bind. destruct (push_ok h) eqn:Hp.
  - destruct (IH (install h krl s)) as (inst & -> & Hi). exists inst. cbn. rewrite Hp. split; [done|].
    intros h'. destruct (Hi h') as [H1 H2]. rewrite elem_of_cons. split.
    + intros Hin Hp'. destruct (decide (h' ∈ l)); [auto|]. destruct Hin as [->|]; [|done].
      rewrite H2 by auto. simpl. by rewrite lookup_insert_eq.
    + intros Hor. rewrite H2 by (destruct Hor as [Hn|]; [left; intros ?; apply Hn; by right|by right]).
      simpl. rewrite lookup_insert_ne; [done|]. intros <-. destruct Hor as [Hn|]; [apply Hn; by left|congruence].
  - destruct (IH s) as (inst & -> & Hi). exists inst. cbn. rewrite Hp. split; [done|].
    intros h'. destruct (Hi h') as [H1 H2]. rewrite elem_of_cons. split.
    + intros [->|]; [congruence|auto].
    + intros Hor. apply H2. destruct Hor as [Hn|]; [left; intros ?; apply Hn; by right|by right].
Qed.

(** Where the list reaches the hosts, it is the table's, less what was just pruned. *)
Lemma distribute_run n s :
  krl_available = true → keygen_ok = true → ca_keys (tb s) ≠ [] →
  ∃ r n' m s', distributeKRL krl_available keygen_ok UserCertTTL push_ok (World n s) = (Some r, World n' s') ∧
    live (ps s') = live (ps s) ∧ creds (ps s') = creds (ps s) ∧
    tb s' = tb (set_revocations s (filter (λ kt, clock m - UserCertTTL ≤ kt.2) (revocations (tb s)))) ∧
    ∀ h row, hosts (tb s) !! h = Some row → h_enrolled row = true → push_ok h = true →
      installed (ps s') !! h = Some (dom (revocations (tb s'))).
Proof.
  intros -> -> Hca. unfold distributeKRL. cbn [negb]. do 3 (run_step; rewrite ?Hdb).
  cbn -[mapM filter dom]. unfold Build. rewrite bool_decide_eq_false_2 by done.
  run_step. rewrite Hdb. cbn -[mapM filter dom].
  match goal with |- context [mapM _ ?l (World ?k ?t)] => destruct (push_all
    (dom (filter (λ kt : Z * Z, clock n - UserCertTTL ≤ kt.2) (revocations (tb s)))) l k t) as (inst & -> & Hi) end.
  cbn -[mapM filter dom]. eexists _, _, n, _. split; [done|]. cbn -[filter dom]. split_and!; [done..|].
  intros h row Hh He Hp. apply Hi; [|done]. apply elem_of_elements, elem_of_dom. exists row.
  by apply map_lookup_filter_Some.
Qed.

End cut.

(** What [cut_sessions] leaves behind. *)
Record cut_done (h : uuid) (l : list uuid) (s s' : store) : Prop := {
  cd_tables : tb s' = tb (set_revocations s (revocations (tb s')));
  cd_process : creds (ps s') = creds (ps s) ∧ installed (ps s') = installed (ps s);
  cd_live k c : live (ps s') !! k = Some c ↔ live (ps s) !! k = Some c ∧ ¬ (c.2 = h ∧ c.1 ∈ l);
  cd_kept serial t : revocations (tb s) !! serial = Some t → revocations (tb s') !! serial = Some t;
  cd_times serial t : revocations (tb s') !! serial = Some t →
    revocations (tb s) !! serial = Some t ∨ ∃ m, t = clock m;
  cd_revoked sess serial : sess ∈ l → creds (ps s) !! (sess, h) = Some serial →
    is_Some (revocations (tb s') !! serial);
}.

Lemma RevokeCertificate_spec serial now s :
  let s' := (RevokeCertificate serial now s).2 in
  ps s' = ps s ∧ tb s' = tb (set_revocations s (revocations (tb s'))) ∧
  is_Some (revocations (tb s') !! serial) ∧
  (∀ k t, revocations (tb s) !! k = Some t → revocations (tb s') !! k = Some t) ∧
  (∀ k t, revocations (tb s') !! k = Some t → revocations (tb s) !! k = Some t ∨ t = now).
Proof.
  simpl. destruct (revocations (tb s) !! serial) as [t0|] eqn:Hs.
  - split_and!; simpl; [done|by destruct s as [[] ?]|by rewrite Hs|done|by left].
  - split_and!; simpl; [done|done|by rewrite lookup_insert_eq|..].
    + intros k t Hk. rewrite lookup_insert_ne by congruence. done.
    + intros k t [[-> ->]|[_ ?]]%lookup_insert_Some; auto.
Qed.

(** One session: its certificate for the host, then its connections to it. *)
Lemma cut_done_cons h sess l s s1 s' :
  ps s1 = ps (CloseSessionHost sess h s) → tb s1 = tb (set_revocations s (revocations (tb s1))) →
  (∀ serial, creds (ps s) !! (sess, h) = Some serial → is_Some (revocations (tb s1) !! serial)) →
  (∀ k t, revocations (tb s) !! k = Some t → revocations (tb s1) !! k = Some t) →
  (∀ k t, revocations (tb s1) !! k = Some t → revocations (tb s) !! k = Some t ∨ ∃ m, t = clock m) →
  cut_done h l s1 s' → cut_done h (sess :: l) s s'.
Proof.
  intros Hps Htb Hser Hkept Htimes [Ht [Hc Hi] Hl Hk Hti Hr]. split.
  - rewrite Ht at 1. unfold set_revocations; simpl. rewrite Htb. done.
  - rewrite Hc, Hi, Hps. done.
  - intros k c. rewrite Hl, Hps. simpl. rewrite map_lookup_filter_Some, elem_of_cons. simpl.
    destruct c as [c1 c2]; simpl. split.
    + intros [[? Hne] Hn]. split; [done|]. intros [-> [->|]]; [by destruct Hne|by apply Hn].
    + intros [? Hn]. split_and!; [done| |].
      * intros [= -> ->]. apply Hn; auto.
      * intros [-> ?]. apply Hn; auto.
  - eauto.
  - intros serial t Hs. destruct (Hti _ _ Hs); eauto.
  - intros x serial [->|Hx]%elem_of_cons Hs.
    + destruct (Hser _ Hs) as [t Ht']. eexists. by apply Hk.
    + apply (Hr x); [done|]. rewrite Hps. done.
Qed.

Lemma cut_sessions_run h l b n s :
  ∃ b' n' s', cut_sessions true true h l b (World n s) = (b', World n' s') ∧ cut_done h l s s' ∧
    (b' = true ↔ b = true ∨ ∃ sess serial, sess ∈ l ∧ creds (ps s) !! (sess, h) = Some serial).
Proof.
  revert b n s. induction l as [|sess l IH]; intros b n s.
  { exists b, n, s. split; [done|]. split; [|set_solver]. split; [by destruct s as [[] ?]|done|..]; auto.
    - set_solver.
    - set_solver. }
  simpl. unfold HostCredentialSerial. run_step.
  destruct (creds (ps s) !! (sess, h)) as [serial|] eqn:Hc.
  - run_step. rewrite Hdb. destruct (RevokeCertificate_spec serial (clock n) s) as (Hps & Htb & Hs & Hk & Ht).
    cbn [fst snd RevokeCertificate] in *. cbn -[CloseSessionHost] in *. run_step.
    match goal with |- context [cut_sessions true true h l true (World ?k (CloseSessionHost sess h ?t))] =>
      destruct (IH true k (CloseSessionHost sess h t)) as (b' & n' & s' & -> & Hd & Hb) end.
    exists b', n', s'. split; [done|]. split.
    + eapply cut_done_cons; [..|exact Hd]; [done|done| |done|].
      * intros ? Hs'. by simplify_eq.
      * intros k t Hkt. destruct (Ht k t Hkt) as [| ->]; eauto.
    + rewrite Hb. split; [|by left]. intros _. right. exists sess, serial. rewrite elem_of_cons. auto.
  - run_step. destruct (IH b n (CloseSessionHost sess h s)) as (b' & n' & s' & -> & Hd & Hb).
    exists b', n', s'. split; [done|]. split.
    + eapply cut_done_cons; [..|exact Hd]; [done|by destruct s as [[] ?]|congruence|done|by left].
    + rewrite Hb. simpl. setoid_rewrite elem_of_cons. split; [naive_solver|].
      intros [|(x & serial & [->|] & ?)]; [auto|congruence|naive_solver].
Qed.
Lemma user_sessions_spec u t sess :
  sess ∈ (map_to_list (filter (λ ks : uuid * (uuid * option Z), ks.2 = (u, None)) (sessions t))).*1 ↔
  sessions t !! sess = Some (u, None).
Proof.
  rewrite list_elem_of_fmap. split.
  - intros ([k v] & -> & [Hk Hv]%elem_of_map_to_list%map_lookup_filter_Some). simpl in *. by subst.
  - intros Hs. exists (sess, (u, None)). split; [done|]. apply elem_of_map_to_list.
    by apply map_lookup_filter_Some.
Qed.

Lemma deny_run u h by_ now s :
  is_Some (users (tb s) !! u) → is_Some (hosts (tb s) !! h) →
  match by_ with Some b => is_Some (users (tb s) !! b) | None => True end →
  ∃ m, DenyHostAccess u h by_ now s = (Ok tt, set_denials s m) ∧ is_Some (m !! (u, h)).
Proof.
  intros Hu Hh Hb. unfold DenyHostAccess. case_bool_decide.
  - exists (denials (tb s)). split; [by destruct s as [[] ?]|done].
  - rewrite (proj2 (known_spec _ _) Hu), (proj2 (known_spec _ _) Hh). simpl.
    destruct by_; [rewrite (proj2 (known_spec _ _) Hb)|]; eexists; split; try done; by rewrite lookup_insert_eq.
Qed.

(** The whole of [cutHostAccessNow] when nothing fails. *)
Lemma cut_run ttl push u h n s :
  ca_keys (tb s) ≠ [] → (∀ n m, clock m - ttl ≤ clock n) →
  (∀ k t, revocations (tb s) !! k = Some t → ∀ m, clock m - ttl ≤ t) →
  ∃ n' s', cutHostAccessNow true true ttl push true true true u h (World n s) = (tt, World n' s') ∧
    tb s' = tb (set_revocations s (revocations (tb s'))) ∧
    (∀ k c, live (ps s') !! k = Some c ↔
       live (ps s) !! k = Some c ∧ ¬ (c.2 = h ∧ sessions (tb s) !! c.1 = Some (u, None))) ∧
    (∀ sess serial, sessions (tb s) !! sess = Some (u, None) → creds (ps s) !! (sess, h) = Some serial →
       is_Some (revocations (tb s') !! serial) ∧
       ∀ h' row, hosts (tb s) !! h' = Some row → h_enrolled row = true → push h' = true →
         ∃ krl, installed (ps s') !! h' = Some krl ∧ serial ∈ krl).
Proof.
  intros Hca Hc Hrev. unfold cutHostAccessNow. run_step. rewrite Hdb. cbn [fst snd ListUserSessions].
  rewrite run_bind.
  match goal with |- context [cut_sessions true true h ?l false (World ?k s)] =>
    destruct (cut_sessions_run h l false k s) as (b & n1 & s1 & -> & Hd & Hb) end.
  destruct Hd as [Ht [Hcr Hin] Hl Hk Hti Hr]. setoid_rewrite user_sessions_spec in Hl.
  setoid_rewrite user_sessions_spec in Hr. setoid_rewrite user_sessions_spec in Hb.
  cbn [fst snd]. rewrite andb_true_r. destruct b.
  - rewrite run_bind.
    destruct (distribute_run true true ttl push n1 s1) as (r & n2 & m & s2 & -> & Hl2 & _ & Ht2 & Hi2);
      [done|done|by rewrite Ht|].
    assert (∀ serial t, revocations (tb s1) !! serial = Some t → revocations (tb s2) !! serial = Some t) as Hkeep.
    { intros serial t Hs. rewrite Ht2. simpl. apply map_lookup_filter_Some. split; [done|]. simpl.
      destruct (Hti _ _ Hs) as [|[m' ->]]; eauto. }
    eexists _, s2. split; [done|]. rewrite Hl2. split_and!; [|exact Hl|].
    + rewrite Ht2. simpl. rewrite Ht. done.
    + intros sess serial Hs Hcs. destruct (Hr _ _ Hs Hcs) as [t Hst]. split; [eauto|].
      intros h' row Hh He Hp. eexists. split.
      * eapply Hi2; [by rewrite Ht|done|done].
      * apply elem_of_dom. eauto.
  - eexists _, s1. split; [done|]. split_and!; [done|exact Hl|].
    intros sess serial Hs Hcs. exfalso. destruct Hb as [_ Hb]. by discriminate Hb; eauto.
Qed.
End quiet.

(** * Properties *)

(** C9: the four access queries implement one specification. [can_access] holds when a user reaches
    a host through a shared group, a direct grant, or an active temporary grant of the host or of
    one of its groups, and is not denied. The connection check ([UserCanAccessHost]), the host list
    ([ListAccessibleHosts]) and the rows the Users page shows as not denied ([ListUserHostAccess])
    agree with it for every user, host, instant and well-formed state; the set the request picker
    subtracts ([AccessibleHostIDs]) leaves the denial out, so it holds hosts the user cannot
    reach. *)
Theorem access_queries_refine u h now s :
  refs_ok (tb s) →
  ((UserCanAccessHost u h now s).1 = Ok true ↔ can_access (tb s) now u h) ∧
  (∃ m, (ListAccessibleHosts u false now s).1 = Ok m ∧ (is_Some (m !! h) ↔ can_access (tb s) now u h)) ∧
  (∃ l, (ListUserHostAccess u now s).1 = Ok l ∧
    ((∃ a, a ∈ l ∧ ua_host a = h ∧ ua_denied a = false) ↔ can_access (tb s) now u h)) ∧
  (∃ m, (AccessibleHostIDs u false now s).1 = Ok m ∧
    (h ∈ m ↔ can_access (tb s) now u h ∨ reaches (tb s) now u h ∧ denied (tb s) u h)).
Proof.
  intros Hr. split_and!.
  - destruct (UserCanAccessHost_spec u h now s) as (b & -> & Hb). simpl. rewrite <- Hb.
    split; [by intros [= ->]|by intros ->].
  - destruct (ListAccessibleHosts_spec u now s) as (m & -> & Hm). exists m. split; [done|]. split.
    + intros [row Hrow]. by apply Hm in Hrow as [_ ?].
    + intros Hc. destruct (reaches_known _ _ _ _ Hr (proj1 Hc)) as [row Hrow]. exists row. by apply Hm.
  - destruct (ListUserHostAccess_spec u now s) as (l & -> & Hl). exists l. split; [done|].
    destruct (access_row_spec u now (tb s) h) as [_ Hd]. split.
    + intros (a & (_ & Ha & Hre)%Hl & <- & Hf). split; [done|]. rewrite <- Hd, <- Ha, Hf. done.
    + intros [Hre Hn]. exists (access_row u now (tb s) h). split_and!; [|done|].
      * apply Hl. split_and!; [by eapply reaches_known|done..].
      * apply not_true_is_false. by rewrite Hd.
  - destruct (AccessibleHostIDs_spec u now s) as (m & -> & Hm). exists m. split; [done|].
    rewrite Hm. unfold can_access. destruct (decide (is_Some (denials (tb s) !! (u, h)))); unfold denied; naive_solver.
Qed.

(** C4: a denial overrides everything until it is lifted. Whatever requests are served and whatever
    interleaves with them, as long as nobody lifts the denial of this user and host: references
    stay sound, the denial stays, and the connection check refuses the user at every instant -
    joining groups, direct grants, temporary grants and rule changes notwithstanding. *)
Theorem denial_overrides `{!Env store} ilike ka ko ttl push hg hl hk rq u h (w : world store)
    `{!Relies (steps (λ u' h', ¬ (u' = u ∧ h' = h)))} :
  ¬ lifts rq u h → refs_ok (tb (w_db w)) → denied (tb (w_db w)) u h →
  let s' := w_db (serve ilike ka ko ttl push hg hl hk rq w).2 in
  refs_ok (tb s') ∧ denied (tb s') u h ∧ ∀ now, (UserCanAccessHost u h now s').1 = Ok false.
Proof.
  intros Hl Hr Hd s'.
  assert (steps (λ u' h', ¬ (u' = u ∧ h' = h)) (w_db w) s') as Hs.
  { refine (proj1 (within_access_serve ilike ka ko ttl push hg hl hk (λ u' h', ¬ (u' = u ∧ h' = h)) rq _ w I)).
    by intros u' h' Hlift [-> ->]. }
  clearbody s'. assert (refs_ok (tb s') ∧ denied (tb s') u h) as [? Hd'].
  { induction Hs as [|x y z Hxy _ IH]; [done|]. apply IH; [by eapply step_refs|].
    eapply step_denied; [|done|done]. naive_solver. }
  split_and!; [done..|]. intros now. by apply denied_refused.
Qed.

(** recomputing a dynamic group materializes exactly its rule. The members become the hosts that
    satisfy every condition the rule sets - environment, all of its tags, one of its alternative
    tags, operating system and host name - and the count returned is theirs; nothing else changes,
    other groups included. A group without a rule (an empty one counts as none, so no rule ever
    means "all hosts") is left alone. *)
Theorem recompute_matches_rule `{!Env store, !Quiet Env0} ilike id g n s :
  (∀ n, db_err n = false) → groups (tb s) !! id = Some g →
  ∃ n' s' k, RecomputeGroup ilike id (World n s) = (Ok k, World n' s') ∧
    match g_rule (scanGroup g) with
    | None => k = 0%nat ∧ s' = s
    | Some r =>
      Empty (Some r) = false ∧ s' = set_host_groups s (host_groups (tb s')) ∧
      k = size (group_members id (tb s')) ∧
      (∀ h, (h, id) ∈ host_groups (tb s') ↔ ∃ row, hosts (tb s) !! h = Some row ∧ rule_holds ilike r row) ∧
      (∀ h g', g' ≠ id → (h, g') ∈ host_groups (tb s') ↔ (h, g') ∈ host_groups (tb s))
    end.
Proof.
  intros Hdb Hg. destruct (recompute_run Hdb ilike id g n s Hg) as (n' & s' & k & -> & Hk).
  exists n', s', k. split; [done|]. unfold scanGroup in *. simpl in *.
  destruct (Empty (g_rule g)) eqn:He; [done|]. destruct (g_rule g) as [r|]; [|done].
  destruct Hk as (-> & m & -> & Hm & Ho). simpl. split_and!; [done|done| |by setoid_rewrite <- matching_spec|done].
  f_equal. apply leibniz_equiv. intros h. unfold group_members. simpl. rewrite elem_of_map. split.
  - intros Hin%Hm. exists (h, id). by rewrite elem_of_filter.
  - intros ([h' g'] & -> & [Hg' Hin]%elem_of_filter). simpl in *. subst. by apply Hm.
Qed.

Lemma guard_passes `{!Env store, !Quiet Env0} (Hdb : ∀ n, db_err n = false) p u n s :
  AuthSession.IsSuperAdmin p = true ∨ users (tb s) !! u = Some false →
  ∃ k, guardSuperTarget (Some p) u (World n s) = (false, World k s).
Proof.
  intros Hp. unfold guardSuperTarget. destruct (AuthSession.IsSuperAdmin p); [by exists n|].
  destruct Hp as [?|Hu]; [done|]. exists (S n). run_step. rewrite Hdb. unfold GetUserByID, get_row, reading. cbn.
  by rewrite Hu.
Qed.

(** C7: revoking a user's access to a host cuts it, when nothing goes wrong: the server has its SSH
    gateway, its registry of live connections and its revocation-list distribution, a CA key exists
    and the list can be built, no statement fails and nobody else changes the tables meanwhile, the
    clock spans less than a certificate's lifetime and no revocation is older than it. For an
    existing user and host and a stored requester who is a super administrator, or a user who is
    not one, the request answers 200 and afterwards: the connection check refuses the user at
    every instant; none of the user's unrevoked sessions has a live connection to the host, every
    other connection is untouched; and the per-host certificate of each of those sessions is
    revoked, on every enrolled host the distribution reaches. *)
Theorem revoke_cuts_access `{!Env store, !Quiet Env0} ttl push p u h n s :
  (∀ n, db_err n = false) → AuthSession.IsSuperAdmin p = true ∨ users (tb s) !! u = Some false →
  is_Some (users (tb s) !! u) → is_Some (hosts (tb s) !! h) → is_Some (users (tb s) !! AuthSession.UserID p) →
  ca_keys (tb s) ≠ [] →
  (∀ n m, clock m - ttl ≤ clock n) → (∀ k t, revocations (tb s) !! k = Some t → ∀ m, clock m - ttl ≤ t) →
  ∃ n' s', revokeHostAccess true true ttl push true true true (Some p) (Some u) (Some h) (World n s) =
      (WriteJSON 200 "revoked", World n' s') ∧
    (∀ now, (UserCanAccessHost u h now s').1 = Ok false) ∧
    (∀ k c, live (ps s') !! k = Some c ↔
       live (ps s) !! k = Some c ∧ ¬ (c.2 = h ∧ sessions (tb s) !! c.1 = Some (u, None))) ∧
    (∀ sess serial, sessions (tb s) !! sess = Some (u, None) → creds (ps s) !! (sess, h) = Some serial →
       is_Some (revocations (tb s') !! serial) ∧
       ∀ h' row, hosts (tb s) !! h' = Some row → h_enrolled row = true → push h' = true →
         ∃ krl, installed (ps s') !! h' = Some krl ∧ serial ∈ krl).
Proof.
  intros Hdb Hp Hu Hh Hby Hca Hc Hrev. unfold revokeHostAccess. simpl with_ids. rewrite run_bind.
  destruct (guard_passes Hdb p u n s Hp) as [k ->]. cbn [fst snd]. run_step. rewrite Hdb.
  destruct (deny_run u h (Some (AuthSession.UserID p)) (clock k) s) as (m & -> & Hm); [done..|].
  cbn [fst snd]. rewrite run_bind.
  destruct (cut_run Hdb ttl push u h (S k) (set_denials s m)) as (n' & s' & -> & Ht & Hl & Hr); [done..|].
  cbn [fst snd]. unfold audit. run_step. rewrite Hdb. cbn -[UserCanAccessHost].
  eexists _, (add_audit s' _). split; [done|]. split_and!; [|done|done].
  intros now. apply denied_refused. unfold denied; simpl. by rewrite Ht.
Qed.

(** one failed read empties every host's revocation list. When, of all statements of a
    distribution, only the read of the revoked serials fails, the error is dropped: the list built
    revokes nothing, it is installed on every enrolled host the push reaches, and those hosts are
    counted as pushed - whatever certificates the table still lists as revoked. *)
Theorem krl_read_failure_unrevokes `{!Env store, !Quiet Env0} ttl push n s :
  (∀ k, db_err k = bool_decide (k = n + 3)%nat) → ca_keys (tb s) ≠ [] →
  ∃ ok failed n' s', distributeKRL true true ttl push (World n s) = (Some (ok, failed), World n' s') ∧
    (∀ h row, hosts (tb s) !! h = Some row → h_enrolled row = true → push h = true →
       installed (ps s') !! h = Some ∅) ∧
    ok = length (List.filter push (elements (dom (filter (λ kh, h_enrolled kh.2 = true) (hosts (tb s)))))).
Proof.
  intros Hdb Hca. unfold distributeKRL. cbn [negb].
  do 4 (run_step; rewrite ?Hdb; repeat first [rewrite bool_decide_eq_false_2 by lia|rewrite bool_decide_eq_true_2 by lia]).
  cbn -[mapM filter dom]. unfold Build. rewrite bool_decide_eq_false_2 by done.
  do 2 (run_step; rewrite ?Hdb, ?bool_decide_eq_false_2 by lia). cbn -[mapM filter dom].
  match goal with |- context [mapM _ ?l (World ?k ?t)] =>
    destruct (push_all push ∅ l k t) as (inst & -> & Hi) end.
  cbn -[mapM filter dom]. eexists _, _, _, _. split; [done|]. split.
  - intros h row Hh He Hp. cbn -[filter dom]. apply Hi; [|done]. apply elem_of_elements, elem_of_dom. exists row.
    by apply map_lookup_filter_Some.
  - clear. induction (elements _) as [|h l IH]; [done|]. cbn. destruct (push h); cbn; by rewrite IH.
Qed.

(** * Witnesses *)
Definition toy_rule : GroupRule := MkRule "prod" [] ["db"] "" "".
Definition toy_store : store :=
  Store (Tables {[1%N := true; 2%N := false]}
    {[10%N := Host "db1" "prod" ["db"] "ssh" (Some "Debian") true; 11%N := Host "web" "prod" ["web"] "ssh" None false]}
    {[20%N := Group "dbas" "" (Some toy_rule)]} {[(2%N, 20%N)]} {[(10%N, 20%N)]} ∅ ∅ ∅
    {[30%N := (2%N, None)]} ∅ ["ca"] [])
  (Process {[1%N := (30%N, 10%N); 2%N := (30%N, 11%N)]} 2%N {[(30%N, 10%N) := 77]} ∅).
Definition toy_like (s p : string) : bool := str_eqb ("%" +:+ s +:+ "%") p.
Definition toy_admin : Principal := AuthSession.MkPrincipal 1 9 "root" true ∅ false 0.

Lemma toy_refs : refs_ok (tb toy_store).
Proof.
  split; simpl.
  - intros u g [= -> ->]%elem_of_singleton. by split; eexists.
  - intros u g [= -> ->]%elem_of_singleton. by split; eexists.
  - intros ?? []%elem_of_empty.
  - intros ?? [??]. done.
  - intros ?? ?. done.
Qed.

Lemma access_queries_refine_witness :
  refs_ok (tb toy_store) ∧ ((UserCanAccessHost 2 10 0 toy_store).1 = Ok true ↔ can_access (tb toy_store) 0 2 10).
Proof. split; [apply toy_refs|]. apply (access_queries_refine 2 10 0 toy_store), toy_refs. Defined.

Definition toy_denied : store := set_denials toy_store {[(2%N, 10%N) := Some 1%N]}.
Lemma toy_denied_refs : refs_ok (tb toy_denied).
Proof.
  destruct toy_refs as [H1 H2 H3 H4 H5]. split; [done..| |done].
  intros u h [d Hd]. simpl in Hd. apply lookup_singleton_Some in Hd as [[= <- <-] _]. by split; eexists.
Qed.

Lemma denial_overrides_witness :
  (UserCanAccessHost 2 10 5
     (w_db (@serve quiet_env toy_like true true 9 (λ _, true) true true true
              (RqAddUser (Some 10%N) (Some 2%N)) (World 0 toy_denied)).2)).1 = Ok false.
Proof.
  apply (@denial_overrides quiet_env toy_like true true 9 (λ _, true) true true true
    (RqAddUser (Some 10%N) (Some 2%N)) 2 10 (World 0 toy_denied) _).
  - intros [].
  - apply toy_denied_refs.
  - by eexists.
Defined.

Lemma recompute_matches_rule_witness :
  (∀ n, @db_err store quiet_env n = false) ∧
  ∃ n' s' k, @RecomputeGroup quiet_env toy_like 20 (World 0 toy_store) = (Ok k, World n' s') ∧
    k = size (group_members 20 (tb s')).
Proof.
  split; [done|].
  destruct (@recompute_matches_rule quiet_env _ toy_like 20 (Group "dbas" "" (Some toy_rule)) 0 toy_store)
    as (n' & s' & k & Hr & _ & _ & Hk & _).
  - done.
  - reflexivity.
  - by exists n', s', k.
Defined.

Definition still_env : Env store := MkEnv store (λ _, false) (λ _, 0) (λ _ s, s).
#[export] Instance still_quiet : @Quiet store still_env.
Proof. done. Qed.

Lemma revoke_cuts_access_witness :
  ∃ n' s', @revokeHostAccess still_env true true 9 (λ _, true) true true true (Some toy_admin) (Some 2%N) (Some 10%N)
      (World 0 toy_store) = (WriteJSON 200 "revoked", World n' s') ∧ live (ps s') !! 1%N ≠ Some (30%N, 10%N).
Proof.
  destruct (@revoke_cuts_access still_env _ 9 (λ _, true) toy_admin 2 10 0 toy_store) as (n' & s' & Hr & _ & Hl & _).
  - done.
  - by left.
  - by eexists.
  - by eexists.
  - by eexists.
  - done.
  - intros n m. simpl. lia.
  - intros k t Hk. done.
  - exists n', s'. split; [done|]. intros Hk. apply Hl in Hk as [_ Hn]. by apply Hn.
Defined.

Definition failing_env : Env store := MkEnv store (λ k, bool_decide (k = 3)%nat) (λ _, 0) (λ _ s, s).
#[export] Instance failing_quiet : @Quiet store failing_env.
Proof. done. Qed.

Lemma krl_read_failure_unrevokes_witness :
  ∃ n' s', @distributeKRL failing_env true true 9 (λ _, true) (World 0 (set_revocations toy_store {[77 := 0]})) =
      (Some (1%nat, 0%nat), World n' s') ∧
    installed (ps s') !! 10%N = Some ∅ ∧ is_Some (revocations (tb s') !! 77).
Proof.
  destruct (@krl_read_failure_unrevokes failing_env _ 9 (λ _, true) 0 (set_revocations toy_store {[77 := 0]}))
    as (a & b & n' & s' & Hr & Hi & Ha).
  - done.
  - done.
  - assert (a = 1%nat ∧ b = 0%nat ∧ revocations (tb s') = {[77 := 0]}) as (-> & -> & Ht).
    { vm_compute in Hr. by simplify_eq. }
    exists n', s'. split; [done|]. split; [|rewrite Ht; by eexists]. by eapply Hi.
Defined.
