(* ===== verification/CommandIndex.v ===== *)
(** The commands typed in a recorded terminal session: [cmdindex/extract.go].

    The line editor that is run over the input events of a recording, and the scan of the
    recording's lines. JSON decoding is a parameter, with the laws that tie it to the encoding
    the recorder uses. *)
From S2P Require Import Prelude GoStrings SecretBox Recordings.
From Stdlib Require Import Strings.Byte.

(** A [rune] of a valid string. *)
Abbreviation rune := Z.

(** [Offset] is in the recorder's time unit. *)
Record Command := MkCommand { Text : list rune; Offset : Z }.

Definition maxLineLen : nat := 4096.

(** * Characters *)
Definition IsControl (r : rune) : bool := (r <? 32) || ((127 <=? r) && (r <? 160)).
(** [unicode.IsSpace] *)
Definition IsSpace (r : rune) : bool :=
  bool_decide (r ∈ [9; 10; 11; 12; 13; 32; 133; 160; 5760; 8232; 8233; 8239; 8287; 12288])
  || ((8192 <=? r) && (r <=? 8202)).

Fixpoint trim_left (s : list rune) : list rune :=
  match s with
  | [] => []
  | r :: s' => if IsSpace r then trim_left s' else s
  end.
(** [strings.TrimSpace] *)
Definition TrimSpace (s : list rune) : list rune := rev (trim_left (rev (trim_left s))).

Definition clean_rune (r : rune) : list rune :=
  if r =? 9 then [32] else if IsControl r then [] else [r].
Definition sanitize (s : list rune) : list rune := TrimSpace (s ≫= clean_rune).

(** * The line editor *)
Record extractor := Extractor {
  out : list Command; buf : list rune; lineStart : Z; haveStart : bool; first : bool;
}.

Definition set_buf (b : list rune) (x : extractor) : extractor :=
  Extractor (out x) b (lineStart x) (haveStart x) (first x).

Definition flush (ts : Z) (x : extractor) : extractor :=
  let s := sanitize (buf x) in
  let off := if haveStart x then lineStart x else ts in
  Extractor (if bool_decide (s = []) then out x else out x ++ [MkCommand s off])
    [] (lineStart x) false (first x).

(** What is left behind the final byte of a control sequence. *)
Fixpoint skip_to_final (rs : list rune) : list rune :=
  match rs with
  | [] => []
  | r :: rs' => if (64 <=? r) && (r <=? 126) then rs' else skip_to_final rs'
  end.

(** [rs] is what follows the escape character; the result, what follows the sequence. *)
Definition skipEscape (rs : list rune) : list rune :=
  match rs with
  | [] => []
  | r :: rs' => if (r =? 91) || (r =? 79) then skip_to_final rs' else rs'
  end.

(** One rune that is not the escape character. *)
Definition key (ts : Z) (r : rune) (x : extractor) : extractor :=
  if (r =? 13) || (r =? 10) then flush ts x
  else if (r =? 127) || (r =? 8) then set_buf (take (length (buf x) - 1) (buf x)) x
  else if (r =? 21) || (r =? 3) then set_buf [] x
  else if r <? 32 then x
  else if (length (buf x) <? maxLineLen)%nat then set_buf (buf x ++ [r]) x
  else x.

(** The fuel is the number of runes; [consume_fuel] below shows that it is enough. *)
Fixpoint consume_loop (fuel : nat) (ts : Z) (rs : list rune) (x : extractor) : option extractor :=
  match fuel with
  | O => match rs with [] => Some x | _ => None end
  | S fuel =>
    match rs with
    | [] => Some x
    | r :: rs => if r =? 27 then consume_loop fuel ts (skipEscape rs) x
                 else consume_loop fuel ts rs (key ts r x)
    end
  end.
Definition consume (rs : list rune) (ts : Z) (x : extractor) : extractor :=
  default x (consume_loop (length rs) ts rs x).

(** * The lines of a recording *)

(** [json.Unmarshal] of an event into three raw messages, and of those. *)
Class JsonDecode := {
  raw : Type;
  unmarshal_event : bytes → option (raw * raw * raw);
  unmarshal_string : raw → option (list rune);
  unmarshal_float : raw → option Z;
}.

Definition is_newline (b : Byte.byte) : bool := Byte.eqb b newline.
Definition is_eol (b : Byte.byte) : bool := Byte.eqb b newline || Byte.eqb b x0d.

Fixpoint drop_eol (s : bytes) : bytes :=
  match s with
  | [] => []
  | b :: s' => if is_eol b then drop_eol s' else s
  end.
(** [bytes.TrimRight(raw, "\r\n")] *)
Definition TrimRight (s : bytes) : bytes := rev (drop_eol (rev s)).

(** [ReadBytes('\n')] until the reader ends: each line keeps its newline. *)
Fixpoint lines_of (s : bytes) : list bytes :=
  match s with
  | [] => []
  | b :: s' =>
    if is_newline b then [b] :: lines_of s'
    else match lines_of s' with
         | [] => [[b]]
         | l :: ls => (b :: l) :: ls
         end
  end.

Section extract.
Context `{!JsonDecode}.

Definition line (raw : bytes) (x : extractor) : extractor :=
  if first x then Extractor (out x) (buf x) (lineStart x) (haveStart x) false
  else
    let raw := TrimRight raw in
    match raw with
    | b :: _ =>
      if negb (Byte.eqb b x5b) then x
      else
        match unmarshal_event raw with
        | None => x
        | Some (e0, e1, e2) =>
          if negb (bool_decide (unmarshal_string e1 = Some [105])) then x
          else
            let ts := default 0 (unmarshal_float e0) in
            match unmarshal_string e2 with
            | None => x
            | Some data =>
              let x := if negb (haveStart x) && negb (bool_decide (data = []))
                       then Extractor (out x) (buf x) ts true (first x) else x in
              consume data ts x
            end
        end
    | [] => x
    end.

(** [text] is what the reader gave before it ended, or failed: the two are not told apart. *)
Definition ExtractCommands (text : bytes) : list Command :=
  out (foldl (λ x l, line l x) (Extractor [] [] 0 false true) (lines_of text)).
End extract.

(** * One rune at a time: the reference *)

Inductive mode := Normal | Escape | Control.

(** Where an escape sequence has got to. *)
Definition next_mode (m : mode) (r : rune) : mode :=
  match m with
  | Normal => if r =? 27 then Escape else Normal
  | Escape => if (r =? 91) || (r =? 79) then Control else Normal
  | Control => if (64 <=? r) && (r <=? 126) then Normal else Control
  end.

Definition type_rune (ts : Z) (mx : mode * extractor) (r : rune) : mode * extractor :=
  (next_mode mx.1 r,
   match mx.1 with Normal => if r =? 27 then mx.2 else key ts r mx.2 | _ => mx.2 end).

(** No escape sequence is left open at the end of an event. *)
Definition escapes_closed (rs : list rune) : bool :=
  match foldl next_mode Normal rs with Normal => true | _ => false end.

Lemma type_rune_mode ts rs m x : (foldl (type_rune ts) (m, x) rs).1 = foldl next_mode m rs.
Proof. revert m x. induction rs as [|r rs IH]; intros m x; [done|]. simpl. apply IH. Qed.

Lemma skip_to_final_type ts rs x : ∃ k, skip_to_final rs = drop k rs ∧
  (foldl (type_rune ts) (Control, x) rs).2 = (foldl (type_rune ts) (Normal, x) (drop k rs)).2.
Proof.
  induction rs as [|r rs (k & Hk & IH)]; [by exists 0%nat|]. simpl. unfold type_rune at 2. simpl.
  destruct ((64 <=? r) && (r <=? 126)); [by exists 1%nat|]. exists (S k). by split.
Qed.

Lemma skipEscape_type ts rs x : ∃ k, skipEscape rs = drop k rs ∧
  (foldl (type_rune ts) (Escape, x) rs).2 = (foldl (type_rune ts) (Normal, x) (drop k rs)).2.
Proof.
  destruct rs as [|r rs]; [by exists 0%nat|]. simpl. unfold type_rune at 2. simpl.
  destruct ((r =? 91) || (r =? 79)); [|by exists 1%nat].
  destruct (skip_to_final_type ts rs x) as (k & -> & Hk). by exists (S k).
Qed.

Lemma consume_fuel fuel ts rs x : (length rs ≤ fuel)%nat →
  consume_loop fuel ts rs x = Some (foldl (type_rune ts) (Normal, x) rs).2.
Proof.
  revert rs x. induction fuel as [|fuel IH]; intros [|r rs] x Hl; simpl in *; try done; [lia|].
  unfold type_rune at 2. simpl. destruct (r =? 27).
  - destruct (skipEscape_type ts rs x) as (k & -> & ->). apply IH. rewrite length_drop. lia.
  - apply IH. lia.
Qed.

Lemma consume_type rs ts x : consume rs ts x = (foldl (type_rune ts) (Normal, x) rs).2.
Proof. unfold consume. by rewrite consume_fuel by lia. Qed.

(** What the editor types does not depend on the timestamps. *)
Definition texts (x : extractor) : list (list rune) := Text <$> out x.
Definition same (x y : extractor) : Prop := texts x = texts y ∧ buf x = buf y.

#[export] Instance same_equiv : Equivalence same.
Proof.
  unfold same. split; [done|by intros ?? [-> ->]|by intros ??? [-> ->] [-> ->]].
Qed.

Lemma texts_flush ts x : texts (flush ts x) =
  texts x ++ (if bool_decide (sanitize (buf x) = []) then [] else [sanitize (buf x)]).
Proof.
  unfold flush, texts. simpl. destruct (bool_decide _); [by rewrite app_nil_r|]. by rewrite fmap_app.
Qed.

Lemma key_same ts ts' r x y : same x y → same (key ts r x) (key ts' r y).
Proof.
  intros [Ht Hb]. unfold key. rewrite Hb.
  repeat case_match; (split; [|done]); rewrite ?texts_flush, ?Ht, ?Hb; done.
Qed.

Lemma type_same ts ts' rs m x y : same x y →
  same (foldl (type_rune ts) (m, x) rs).2 (foldl (type_rune ts') (m, y) rs).2.
Proof.
  revert m x y. induction rs as [|r rs IH]; intros m x y Hs; [done|]. simpl. apply IH.
  unfold type_rune. simpl. destruct m; [|done..]. destruct (r =? 27); [done|]. by apply key_same.
Qed.

(** What is typed by a sequence of keys. *)
Definition no_keys : extractor := Extractor [] [] 0 false true.
Definition typed (rs : list rune) : list (list rune) :=
  texts (foldl (type_rune 0) (Normal, no_keys) rs).2.

(** * Sanitized lines *)
Definition edge_ok (s : list rune) : Prop :=
  (∀ r, head s = Some r → IsSpace r = false) ∧ (∀ r, last s = Some r → IsSpace r = false).

(** What a search result can hold. *)
Definition text_ok (s : list rune) : Prop :=
  s ≠ [] ∧ (length s ≤ maxLineLen)%nat ∧ Forall (λ r, IsControl r = false) s ∧ edge_ok s.

Lemma trim_left_suffix s : ∃ p, s = p ++ trim_left s ∧ Forall (λ r, IsSpace r = true) p ∧
  (∀ r, head (trim_left s) = Some r → IsSpace r = false).
Proof.
  induction s as [|r s (p & Hp & Hs & Hh)]; [by exists []|]. simpl. destruct (IsSpace r) eqn:E.
  - exists (r :: p). split_and!; [by rewrite Hp at 1|by constructor|done].
  - exists []. split_and!; [done|done|]. by intros r' [= <-].
Qed.

Lemma TrimSpace_infix s : ∃ p q, s = p ++ TrimSpace s ++ q ∧ edge_ok (TrimSpace s).
Proof.
  unfold TrimSpace. destruct (trim_left_suffix s) as (p & Hp & _ & Hh). set (t := trim_left s) in *.
  destruct (trim_left_suffix (rev t)) as (q & Hq & _ & Hl). set (u := trim_left (rev t)) in *.
  assert (t = rev u ++ rev q) as Ht by (rewrite <- rev_app_distr, <- Hq; symmetry; apply rev_involutive).
  exists p, (rev q). split; [rewrite Hp at 1; by rewrite Ht|]. split.
  - intros r Hr. apply Hh. rewrite Ht. by destruct (rev u).
  - intros r Hr. apply Hl. revert Hr. rewrite rev_alt. by rewrite (last_reverse u : last (rev_append u []) = head u).
Qed.

Lemma sanitize_spec s : (length (sanitize s) ≤ length s)%nat ∧
  Forall (λ r, IsControl r = false) (sanitize s) ∧ edge_ok (sanitize s).
Proof.
  unfold sanitize. set (c := s ≫= clean_rune).
  assert ((length c ≤ length s)%nat ∧ Forall (λ r, IsControl r = false) c) as [Hl Hc].
  { unfold c. clear c. induction s as [|r s [Hl Hc]]; [done|]. rewrite bind_cons.
    unfold clean_rune at 1 3. destruct (r =? 9); [|destruct (IsControl r) eqn:E];
      simpl; split; try lia; by repeat constructor. }
  destruct (TrimSpace_infix c) as (p & q & Hp & He). split_and!; [| |done].
  - rewrite Hp in Hl. rewrite !length_app in Hl. lia.
  - rewrite Hp in Hc. by apply Forall_app in Hc as [_ [Hc _]%Forall_app].
Qed.

Definition editor_ok (x : extractor) : Prop :=
  (length (buf x) ≤ maxLineLen)%nat ∧ Forall (λ c, text_ok (Text c)) (out x).

Lemma key_ok ts r x : editor_ok x → editor_ok (key ts r x).
Proof.
  intros [Hb Ho]. unfold key. repeat case_match; try done.
  - unfold flush. split; [simpl; lia|]. cbn [out]. case_bool_decide as Hs; [done|].
    apply Forall_app. split; [done|]. apply Forall_singleton.
    destruct (sanitize_spec (buf x)) as (Hl & Hc & He). split_and!; [done|simpl; lia|done|done].
  - split; [|done]. simpl. rewrite length_take. lia.
  - split; [simpl; lia|done].
  - match goal with E : (_ <? _)%nat = true |- _ => apply Nat.ltb_lt in E end. split; [|done]. simpl. rewrite length_app. simpl. lia.
Qed.

Lemma type_ok ts rs m x : editor_ok x → editor_ok (foldl (type_rune ts) (m, x) rs).2.
Proof.
  revert m x. induction rs as [|r rs IH]; intros m x Hx; [done|]. simpl. apply IH.
  unfold type_rune. simpl. destruct m; [|done..]. destruct (r =? 27); [done|]. by apply key_ok.
Qed.

Lemma line_editor_ok `{!JsonDecode} raw x : editor_ok x → editor_ok (line raw x).
Proof.
  intros Hx. unfold line. destruct (first x); [done|]. destruct (TrimRight raw) as [|b l]; [done|].
  destruct (negb _); [done|]. destruct (unmarshal_event _) as [[[e0 e1] e2]|]; [|done].
  destruct (negb _); [done|]. destruct (unmarshal_string e2) as [data|]; [|done].
  rewrite consume_type. apply type_ok. by destruct (_ && _).
Qed.

(** * The lines the recorder writes *)

(** What the decoder gives back of what the encoder wrote; event data is ASCII, for which the
    bytes of a string are its runes. *)
Class JsonLaws `{!CastJson, !JsonDecode} : Prop := {
  header_no_newline : ∀ c r t, newline ∉ marshal_header c r t;
  event_no_newline : ∀ t k d, newline ∉ marshal_event t k d;
  event_brackets : ∀ t k d, ∃ mid, marshal_event t k d = x5b :: mid ++ [x5d];
  event_decodes : ∀ t k d, ∃ e0 e1 e2, unmarshal_event (marshal_event t k d) = Some (e0, e1, e2) ∧
    unmarshal_float e0 = Some t ∧ unmarshal_string e1 = Some [byte_Z k] ∧
    (Forall (λ b, byte_Z b < 128) d → unmarshal_string e2 = Some (byte_Z <$> d));
}.

Section laws.
Context `{!CastJson, !JsonDecode, !JsonLaws}.

Lemma lines_of_line l rest : newline ∉ l →
  lines_of ((l ++ [newline]) ++ rest) = (l ++ [newline]) :: lines_of rest.
Proof.
  induction l as [|b l IH]; intros Hn; [done|]. apply not_elem_of_cons in Hn as [Hb Hn].
  cbn [app lines_of]. rewrite IH by done. unfold is_newline.
  destruct (Byte.eqb b newline) eqn:E; [by apply Byte.byte_dec_bl in E|done].
Qed.

Lemma TrimRight_event t k d : TrimRight (marshal_event t k d ++ [newline]) = marshal_event t k d.
Proof.
  destruct (event_brackets t k d) as [mid ->]. unfold TrimRight.
  rewrite !rev_app_distr, app_comm_cons, rev_app_distr. simpl.
  by rewrite rev_app_distr, rev_involutive.
Qed.

Definition keys_of (ev : Z * event) : list rune :=
  match ev.2 with Input b => byte_Z <$> b | _ => [] end.
Definition ascii_event (ev : Z * event) : Prop :=
  match ev.2 with Input b => Forall (λ b, byte_Z b < 128) b | _ => True end.

Lemma type_first ts rs m x : first (foldl (type_rune ts) (m, x) rs).2 = first x.
Proof.
  revert m x. induction rs as [|r rs IH]; intros m x; [done|]. simpl.
  unfold type_rune at 2. simpl. rewrite IH. unfold key. by repeat case_match.
Qed.

(** An event's line types the event's keys. *)
Lemma line_event ev x : first x = false → ascii_event ev →
  let raw := marshal_event ev.1 (event_kind ev.2) (event_data ev.2) ++ [newline] in
  first (line raw x) = false ∧ same (line raw x) (foldl (type_rune 0) (Normal, x) (keys_of ev)).2.
Proof.
  intros Hf Ha raw. unfold line. rewrite Hf. unfold raw. rewrite TrimRight_event.
  destruct (event_decodes ev.1 (event_kind ev.2) (event_data ev.2)) as (e0 & e1 & e2 & -> & -> & -> & H2).
  destruct (event_brackets ev.1 (event_kind ev.2) (event_data ev.2)) as [mid ->].
  destruct ev as [t [b|b|b]]; [by split| |by split].
  cbn [event_data event_kind snd fst] in *. specialize (H2 Ha). rewrite H2. simpl negb. cbv iota.
  rewrite consume_type, type_first. split; [by destruct (_ && _)|].
  apply type_same. by destruct (_ && _).
Qed.

(** Events one after the other, when none ends inside an escape sequence. *)
Lemma lines_typed evs x : first x = false → Forall ascii_event evs →
  Forall (λ ev, escapes_closed (keys_of ev) = true) evs →
  same (foldl (λ x l, line l x) x
          (lines_of (concat ((λ ev, marshal_event ev.1 (event_kind ev.2) (event_data ev.2)
                                      ++ [newline]) <$> evs))))
       (foldl (type_rune 0) (Normal, x) (evs ≫= keys_of)).2.
Proof.
  revert x. induction evs as [|ev evs IH]; intros x Hf Ha Hc; [done|].
  apply Forall_cons in Ha as [Ha Has]. apply Forall_cons in Hc as [Hc Hcs].
  rewrite fmap_cons, bind_cons, foldl_app. cbn [concat].
  rewrite lines_of_line by apply event_no_newline. cbn [foldl].
  destruct (line_event ev x Hf Ha) as [Hf' Hs].
  etrans; [by apply IH|].
  destruct (foldl (type_rune 0) (Normal, x) (keys_of ev)) as [m y] eqn:E.
  assert (m = Normal) as ->.
  { pose proof (type_rune_mode 0 (keys_of ev) Normal x) as Hm. rewrite E in Hm. simpl in Hm.
    revert Hc. unfold escapes_closed. rewrite <- Hm. by destruct m. }
  by apply type_same.
Qed.
End laws.

(** * The properties *)

(** the command index sees what was typed: of a session recorded with or without a key, the
    commands extracted from its recording are the lines the keys type, whatever the other events
    and however the keys are split into events, as long as no event ends inside an escape
    sequence. *)
Theorem typed_commands_extracted
    `{!Crypto, !CryptoLaws, !CastJson, !CastJsonLaws, !JsonDecode, !JsonLaws}
    cols rows t0 d0 es path key r0 p :
  (0 < p)%nat → New true true d0 path cols rows t0 key = Ok r0 →
  let gcm := if (0 <? length key)%nat then Some (Sum256 key) else None in
  let ls := session_lines cols rows t0 d0 es in
  Forall (line_ok gcm) ls → Forall (λ l, is_Some (d_nonce l.1)) ls →
  let evs := (λ e, (e.1.1 - t0 * second, e.2)) <$> es in
  Forall ascii_event evs → Forall (λ ev, escapes_closed (keys_of ev) = true) evs →
  ∃ o, Open (Some (file (record_all es r0))) key = Ok o ∧
    ∃ fuel, ∀ more, Text <$> ExtractCommands (drain (fuel + more) p o) = typed (evs ≫= keys_of).
Proof.
  intros Hp Hn gcm ls Hok Hs evs Ha Hc.
  pose proof (session_text _ _ _ _ _ _ _ _ Hn Hok Hs) as Hr. fold ls in Hr.
  destruct (open_drain _ _ _ p _ Hr Hp (Nat.lt_succ_diag_r _)) as (o & Ho & _).
  exists o. split; [done|]. exists (S (length (concat (snd <$> ls)))). intros more.
  destruct (open_drain _ _ _ p (S (length (concat (snd <$> ls))) + more) Hr Hp ltac:(lia)) as (o' & Ho' & Hd).
  rewrite Ho in Ho'. injection Ho' as <-. rewrite Hd.
  unfold ls, session_lines. rewrite fmap_cons. cbn [concat snd].
  unfold ExtractCommands. rewrite lines_of_line by apply header_no_newline. cbn [foldl].
  assert (snd <$> (event_line t0 <$> es) =
    (λ ev, marshal_event ev.1 (event_kind ev.2) (event_data ev.2) ++ [newline]) <$> evs) as ->.
  { unfold evs. by rewrite <- !list_fmap_compose. }
  destruct (lines_typed evs (Extractor [] [] 0 false false) eq_refl Ha Hc) as [Ht _].
  change (line (marshal_header cols rows t0 ++ [newline]) (Extractor [] [] 0 false true))
    with (Extractor [] [] 0 false false).
  etrans; [exact Ht|]. unfold typed. by apply type_same.
Qed.

(** A toy JSON: an event is written as the bits of its code. *)
Definition toy_encode : CastJson := {|
  marshal_header := λ c r t, [x7b; x7d];
  marshal_event := λ t k d, x5b :: pos_bytes (encode (t, Byte.to_N k, Byte.to_N <$> d)) ++ [x5d] |}.
Definition toy_decode : JsonDecode := {|
  raw := Z + list Z;
  unmarshal_event := λ s,
    match (decode (bytes_pos (tail s)) : option (Z * N * list N)) with
    | Some (t, k, d) => Some (inl t, inr [Z.of_N k], inr (Z.of_N <$> d))
    | None => None
    end;
  unmarshal_string := λ r, match r with inr s => Some s | inl _ => None end;
  unmarshal_float := λ r, match r with inl t => Some t | inr _ => None end |}.

Lemma toy_scan_laws : @JsonLaws toy_encode toy_decode ∧ @CastJsonLaws toy_encode.
Proof.
  pose proof pos_bytes_line as Hn.
  assert (∀ p, bytes_pos (pos_bytes p ++ [x5d]) = p) as Hp by (intros p; by apply (bytes_pos_app p x5d)).
  split; split.
  - intros c r t. change (newline ∉ [x7b; x7d]). rewrite !not_elem_of_cons. split_and!; [done..|apply not_elem_of_nil].
  - intros t k d. cbn [marshal_event toy_encode]. rewrite not_elem_of_cons, not_elem_of_app.
    split_and!; [done|apply Hn|]. apply not_elem_of_cons. split; [done|apply not_elem_of_nil].
  - intros t k d. by eexists.
  - intros t k d. cbn [unmarshal_event toy_decode marshal_event toy_encode tail].
    rewrite Hp, decode_encode. simpl. eexists _, _, _. split_and!; [reflexivity|done|done|].
    intros _. cbn [unmarshal_string toy_decode]. by rewrite <- list_fmap_compose.
  - intros. by eexists.
Defined.

Lemma typed_commands_extracted_witness :
  let d := Draw (Some toy_nonce) 1000 in
  let es := [(1, d, Input [x6c; x78; x7f]); (2, d, Output [x6c]); (3, d, Input [x73; x0d])] in
  ∃ r0 o fuel, @New toy_crypto toy_encode true true d "s.cast" 80 24 0 [x61] = Ok r0 ∧
    @Open toy_crypto (Some (file (@record_all toy_crypto toy_encode es r0))) [x61] = Ok o ∧
    Text <$> @ExtractCommands toy_decode (@drain toy_crypto (fuel + 0) 7 o) = [[108; 115]].
Proof.
  intros d es. destruct toy_scan_laws as [L1 L2].
  destruct (@typed_commands_extracted toy_crypto toy_laws toy_encode L2 toy_decode L1
    80 24 0 d es "s.cast" [x61] _ 7 ltac:(lia) eq_refl) as (o & Ho & fuel & Hx).
  - unfold session_lines, es. rewrite !fmap_cons, fmap_nil, !Forall_cons.
    split_and!; [..|by constructor]; intros n [= <-]; (split; [by split; vm_compute|vm_compute; lia]).
  - unfold session_lines, es. rewrite !fmap_cons, fmap_nil, !Forall_cons.
    split_and!; [..|by constructor]; by eexists.
  - unfold es. rewrite !fmap_cons, fmap_nil, !Forall_cons. split_and!; [..|by constructor]; try done;
      unfold ascii_event; simpl; rewrite !Forall_cons; split_and!; by vm_compute.
  - unfold es. rewrite !fmap_cons, fmap_nil, !Forall_cons. split_and!; [..|by constructor]; by vm_compute.
  - eexists _, o, fuel. split; [reflexivity|]. split; [exact Ho|]. rewrite Hx. by vm_compute.
Defined.

(** every indexed command is a non-empty line of at most 4096 characters, none of them a control
    character, with no white space at its ends, whatever the recording holds. *)
Theorem command_bounds `{!JsonDecode} text :
  Forall (λ c, text_ok (Text c)) (ExtractCommands text).
Proof.
  assert (∀ ls x, editor_ok x → editor_ok (foldl (λ x l, line l x) x ls)) as Hl.
  { induction ls as [|l ls IH]; intros x Hx; [done|]. apply IH. by apply line_editor_ok. }
  apply (Hl (lines_of text) (Extractor [] [] 0 false true)). split; [simpl; lia|constructor].
Qed.

(** An escape sequence that two input events share is typed from its second byte on: the arrow key
    of these events, which types nothing, is indexed as a command. *)
Lemma split_escape_leaks :
  texts (consume [91; 65; 13] 1 (consume [27] 0 no_keys)) = [[91; 65]] ∧ typed [27; 91; 65; 13] = [].
Proof. by vm_compute. Qed.
