(* ===== verification/SessionLog.v ===== *)
(** The log of terminal and desktop sessions: [store/sshsessions.go], [store/recordings.go],
    [store/sessioncommands.go], [store/sessionsearch.go], [store/rdp_recordings.go],
    [sessionsapi], [rdp/handlers_api.go], and the background jobs of [api/server.go] that index
    and prune it.

    The tables and the recording files are the state; access to hosts is that of [HostAccess], the
    content of a recording that of [Recordings], its commands those of [CommandIndex]. *)
From S2P Require Import Prelude GoStrings SecretBox Recordings CommandIndex HostAccess.
From stdpp Require Import sorting.
#[local] Open Scope Z_scope.

(** * Data *)
Record ssh_session := MkSSH {
  ss_session : option uuid; ss_user : option uuid; ss_host : option uuid;
  ss_username : string; ss_hostname : string; ss_status : string;
  ss_started : Z; ss_ended : option Z; ss_exit : option Z; ss_in : Z; ss_out : Z;
  ss_owner : option uuid;
}.
Record recording := MkRec {
  rc_session : uuid; rc_format : string; rc_path : string; rc_size : Z; rc_duration : Z;
  rc_sha : string; rc_created : Z; rc_indexed : option Z;
}.
Record command_row := MkCmd {
  cm_session : uuid; cm_user : option uuid; cm_host : option uuid;
  cm_username : string; cm_hostname : string; cm_ts : Z; cm_text : list rune;
}.
Record rdp_recording := MkRDP {
  rd_host : option uuid; rd_user : option uuid; rd_hostname : string; rd_path : string;
  rd_size : Z; rd_duration : Z; rd_status : string; rd_started : Z; rd_ended : option Z;
}.

Record logs := Logs {
  ssh : gmap uuid ssh_session;
  recordings : gmap uuid recording;
  commands : list command_row;
  rdps : gmap uuid rdp_recording;
  disk : gmap string bytes;
  access : HostAccess.store;
  trail : list (string * string);
  job_log : list (string * bool);
}.

Definition set_ssh (s : logs) m := Logs m (recordings s) (commands s) (rdps s) (disk s) (access s) (trail s) (job_log s).
Definition set_recordings (s : logs) m := Logs (ssh s) m (commands s) (rdps s) (disk s) (access s) (trail s) (job_log s).
Definition set_commands (s : logs) l := Logs (ssh s) (recordings s) l (rdps s) (disk s) (access s) (trail s) (job_log s).
Definition set_rdps (s : logs) m := Logs (ssh s) (recordings s) (commands s) m (disk s) (access s) (trail s) (job_log s).
Definition set_disk (s : logs) m := Logs (ssh s) (recordings s) (commands s) (rdps s) m (access s) (trail s) (job_log s).
Definition set_access (s : logs) a := Logs (ssh s) (recordings s) (commands s) (rdps s) (disk s) a (trail s) (job_log s).
Definition add_trail (s : logs) e := Logs (ssh s) (recordings s) (commands s) (rdps s) (disk s) (access s) (trail s ++ [e]) (job_log s).
Definition add_job (s : logs) e := Logs (ssh s) (recordings s) (commands s) (rdps s) (disk s) (access s) (trail s) (job_log s ++ [e]).

(** [ORDER BY key DESC] and [ASC]; rows of equal key come in some order. *)
Definition desc {A} (key : A → Z) : relation A := λ a b, key b ≤ key a.
Definition asc {A} (key : A → Z) : relation A := λ a b, key a ≤ key b.
#[export] Instance desc_dec {A} (key : A → Z) : RelDecision (desc key).
Proof. intros a b. unfold desc. apply _. Defined.
#[export] Instance asc_dec {A} (key : A → Z) : RelDecision (asc key).
Proof. intros a b. unfold asc. apply _. Defined.
Definition newest_first {A} (key : A → Z) (l : list A) : list A := merge_sort (desc key) l.
Definition oldest_first {A} (key : A → Z) (l : list A) : list A := merge_sort (asc key) l.

(** An absent limit, or one out of range, is the default. *)
Definition limit_or (d max limit : Z) : nat :=
  Z.to_nat (if (limit <=? 0) || (max <? limit) then d else limit).

Definition opt_is {A} `{!EqDecision A} (want : option A) (have : option A) : bool :=
  match want with None => true | Some _ => bool_decide (have = want) end.

(** * The store *)
Record SSHSessionInput := MkSSHIn {
  in_session : option uuid; in_user : option uuid; in_host : option uuid;
  in_username : string; in_hostname : string;
}.

Definition CreateSSHSession (self : option uuid) (i : SSHSessionInput) (now : Z) (s : logs) :
    res store_error uuid * logs :=
  let id := fresh (dom (ssh s)) in
  (Ok id, set_ssh s (<[id := MkSSH (in_session i) (in_user i) (in_host i) (in_username i)
    (in_hostname i) "active" now None None 0 0 self]> (ssh s))).

Definition EndSSHSession (id : uuid) (exitCode bytesIn bytesOut : Z) (now : Z) (s : logs) :
    res store_error unit * logs :=
  (Ok tt, set_ssh s (alter (λ r, MkSSH (ss_session r) (ss_user r) (ss_host r) (ss_username r)
    (ss_hostname r) (if exitCode =? 0 then "closed" else "error") (ss_started r) (Some now)
    (Some exitCode) bytesIn bytesOut (ss_owner r)) id (ssh s))).

Definition GetSSHSession (id : uuid) : Z → logs → res store_error ssh_session * logs :=
  get_row (λ s, ssh s !! id).

Definition ListSSHSessions (user host : option uuid) (limit offset : Z) (now : Z) (s : logs) :
    res store_error (list (uuid * ssh_session)) * logs :=
  let rows := filter (λ r, opt_is user (ss_user r.2) && opt_is host (ss_host r.2) = true)
                (map_to_list (ssh s)) in
  (Ok (take (limit_or 100 1000 limit) (drop (Z.to_nat (Z.max 0 offset))
         (newest_first (λ r, ss_started r.2) rows))), s).

Record RecordingInput := MkRecIn {
  ri_session : uuid; ri_format : string; ri_path : string; ri_size : Z; ri_duration : Z; ri_sha : string;
}.

(** The foreign key: the session must exist. *)
Definition CreateRecording (i : RecordingInput) (now : Z) (s : logs) : res store_error uuid * logs :=
  match ssh s !! ri_session i with
  | None => (Err ErrDB, s)
  | Some _ =>
    let id := fresh (dom (recordings s)) in
    let format := if str_eqb (ri_format i) "" then "asciicast-v2" else ri_format i in
    (Ok id, set_recordings s (<[id := MkRec (ri_session i) format (ri_path i) (ri_size i)
      (ri_duration i) (ri_sha i) now None]> (recordings s)))
  end.

Definition of_session (id : uuid) (s : logs) : list (uuid * recording) :=
  filter (λ r, rc_session r.2 = id) (map_to_list (recordings s)).

Definition GetRecordingBySession (id : uuid) : Z → logs → res store_error (uuid * recording) * logs :=
  get_row (λ s, head (newest_first (λ r, rc_created r.2) (of_session id s))).

(** The statement deletes every recording of the session and the code reads one path. *)
Definition DeleteRecordingBySession (id : uuid) (now : Z) (s : logs) : res store_error string * logs :=
  match head (of_session id s) with
  | None => (Err ErrNotFound, s)
  | Some r => (Ok (rc_path r.2), set_recordings s (filter (λ kr, rc_session kr.2 ≠ id) (recordings s)))
  end.

Definition PruneRecordingsBefore (before : Z) (now : Z) (s : logs) :
    res store_error (list string * Z) * logs :=
  let gone := filter (λ kr, rc_created kr.2 < before) (map_to_list (recordings s)) in
  (Ok ((λ kr, rc_path kr.2) <$> gone, foldr (λ kr n, rc_size kr.2 + n) 0 gone),
   set_recordings s (filter (λ kr, ¬ rc_created kr.2 < before) (recordings s))).

Definition RecordingSessionIDs (now : Z) (s : logs) : res store_error (gset uuid) * logs :=
  (Ok (list_to_set ((λ kr, rc_session kr.2) <$> map_to_list (recordings s))), s).

Definition RecordingsStorageBytes (now : Z) (s : logs) : res store_error (Z * Z) * logs :=
  (Ok (Z.of_nat (size (recordings s)),
       foldr (λ kr n, rc_size kr.2 + n) 0 (map_to_list (recordings s))), s).

(** [dead] is [deadOwnerPredicate], of [Cluster]. *)
Definition CloseStaleSessions (dead : option uuid → bool) (now : Z) (s : logs) :
    res store_error unit * logs :=
  (Ok tt, set_ssh s ((λ r,
     if str_eqb (ss_status r) "active" && dead (ss_owner r)
     then MkSSH (ss_session r) (ss_user r) (ss_host r) (ss_username r) (ss_hostname r) "closed"
            (ss_started r) (Some (default now (ss_ended r))) (ss_exit r) (ss_in r) (ss_out r) (ss_owner r)
     else r) <$> ssh s)).

(** Deleting a session takes its recordings and its indexed commands with it. *)
Definition delete_sessions (gone : gset uuid) (s : logs) : logs :=
  set_commands (set_recordings (set_ssh s (filter (λ kr, kr.1 ∉ gone) (ssh s)))
      (filter (λ kr, rc_session kr.2 ∉ gone) (recordings s)))
    (filter (λ c, cm_session c ∉ gone) (commands s)).

#[export] Instance ended_dec o (c : Z) : Decision (from_option (λ e, e < c) False o).
Proof. destruct o; simpl; apply _. Defined.

Definition prunable (cutoff : Z) (s : logs) : gset uuid :=
  dom (filter (λ kr, from_option (λ e, e < cutoff) False (ss_ended kr.2) ∧
                     kr.1 ∉ (λ kr, rc_session kr.2) <$> map_to_list (recordings s)) (ssh s)).
Definition PruneSSHSessionsBefore (cutoff : Z) (now : Z) (s : logs) : res store_error unit * logs :=
  (Ok tt, delete_sessions (prunable cutoff s) s).

Record RecordingRef := MkRef {
  rf_id : uuid; rf_username : string; rf_hostname : string; rf_started : Z; rf_path : string;
}.

(** The join of the recordings with their sessions. *)
Definition RecordingsForSearch (user host : option uuid) (limit : Z) (now : Z) (s : logs) :
    res store_error (list RecordingRef) * logs :=
  let joined := map_to_list (recordings s) ≫= λ kr,
    match ssh s !! rc_session kr.2 with
    | Some ss => if opt_is user (ss_user ss) && opt_is host (ss_host ss)
                 then [MkRef (rc_session kr.2) (ss_username ss) (ss_hostname ss) (ss_started ss) (rc_path kr.2)]
                 else []
    | None => []
    end in
  (Ok (take (limit_or 500 2000 limit) (newest_first rf_started joined)), s).

(** ** The command index *)
Definition unindexed (s : logs) : list (uuid * recording) :=
  filter (λ kr, rc_indexed kr.2 = None ∧ rc_format kr.2 = "asciicast-v2") (map_to_list (recordings s)).
Definition UnindexedRecordings (limit : Z) (now : Z) (s : logs) :
    res store_error (list (uuid * recording)) * logs :=
  (Ok (take (limit_or 100 500 limit) (oldest_first (λ kr, rc_created kr.2) (unindexed s))), s).

Definition indexed_row (sid : uuid) (ss : ssh_session) (c : Command) : command_row :=
  MkCmd sid (ss_user ss) (ss_host ss) (ss_username ss) (ss_hostname ss)
    (ss_started ss + Offset c) (Text c).

(** One transaction. *)
Definition IndexRecordingCommands (rid sid : uuid) (cmds : list Command) (now : Z) (s : logs) :
    res store_error unit * logs :=
  match ssh s !! sid with
  | None => (Err ErrNotFound, s)
  | Some ss =>
    let rows := indexed_row sid ss <$> filter (λ c, Text c ≠ []) cmds in
    (Ok tt, set_recordings (set_commands s (commands s ++ rows))
      (alter (λ r, MkRec (rc_session r) (rc_format r) (rc_path r) (rc_size r) (rc_duration r)
         (rc_sha r) (rc_created r) (Some now)) rid (recordings s)))
  end.

(** A statement of the access model, run on its part of the state. *)
Definition on_access {A} (f : Z → HostAccess.store → res store_error A * HostAccess.store)
    (now : Z) (s : logs) : res store_error A * logs :=
  let '(r, a) := f now (access s) in (r, set_access s a).

Record SessionCommandRow := MkRow {
  sr_username : string; sr_hostname : string; sr_command : list rune; sr_at : Z; sr_session : uuid;
}.
Definition result_row (c : command_row) : SessionCommandRow :=
  MkRow (cm_username c) (cm_hostname c) (cm_text c) (cm_ts c) (cm_session c).

Section log.
Context `{!Env logs}.
(** The full-text or substring match of a command, and [ILIKE] on a host name. *)
Context (matches : string → list rune → bool) (ilike : string → string → bool).

Definition search_rows (query hostname : string) (fetch : nat) (now : Z) (s : logs) :
    res store_error (list command_row) * logs :=
  (Ok (take fetch (newest_first cm_ts (filter (λ c, matches query (cm_text c) &&
     (str_eqb hostname "" || ilike hostname (cm_hostname c)) = true) (commands s)))), s).

(** The rows of the result: [cache] is what was found of each host so far. *)
Fixpoint scan_rows (u : uuid) (isSuper : bool) (limit : nat) (rows : list command_row)
    (cache : gmap uuid bool) (out : list SessionCommandRow) : M logs (list SessionCommandRow) :=
  match rows with
  | [] => mret out
  | r :: rows =>
    let keep cache :=
      let out := out ++ [result_row r] in
      if (limit <=? length out)%nat then mret out else scan_rows u isSuper limit rows cache out in
    if isSuper then keep cache
    else
      match cm_host r with
      | None => scan_rows u isSuper limit rows cache out
      | Some h =>
        match cache !! h with
        | Some ok => if ok : bool then keep cache else scan_rows u isSuper limit rows cache out
        | None =>
          a ← db (on_access (UserCanAccessHost u h));
          let ok := match a with Ok ok => ok | Err _ => false end in
          if ok : bool then keep (<[h := ok]> cache)
          else scan_rows u isSuper limit rows (<[h := ok]> cache) out
        end
      end
  end.

Definition SearchSessionCommands (u : uuid) (isSuper : bool) (query hostname : string) (limit : Z) :
    M logs (res store_error (list SessionCommandRow)) :=
  let limit := limit_or 50 200 limit in
  let fetch := Nat.min (limit * 5) 1000 in
  r ← db (search_rows query hostname fetch);
  match r with
  | Err e => mret (Err e)
  | Ok rows => out ← scan_rows u isSuper limit rows ∅ []; mret (Ok out)
  end.

(** ** Desktop recordings *)
Definition CreateRDPRecording (id : uuid) (host user : option uuid) (hostname path : string)
    (now : Z) (s : logs) : res store_error unit * logs :=
  match rdps s !! id with
  | Some _ => (Err ErrDB, s)
  | None => (Ok tt, set_rdps s (<[id := MkRDP host user hostname path 0 0 "active" now None]> (rdps s)))
  end.
Definition FinishRDPRecording (id : uuid) (size duration : Z) (now : Z) (s : logs) :
    res store_error unit * logs :=
  (Ok tt, set_rdps s (alter (λ r, MkRDP (rd_host r) (rd_user r) (rd_hostname r) (rd_path r) size
    duration "ended" (rd_started r) (Some now)) id (rdps s))).
Definition ListRDPRecordings (limit offset : Z) (now : Z) (s : logs) :
    res store_error (list (uuid * rdp_recording)) * logs :=
  if offset <? 0 then (Err ErrDB, s)
  else (Ok (take (limit_or 200 500 limit) (drop (Z.to_nat offset)
              (newest_first (λ kr, rd_started kr.2) (map_to_list (rdps s))))), s).
Definition GetRDPRecording (id : uuid) : Z → logs → res store_error rdp_recording * logs :=
  get_row (λ s, rdps s !! id).
Definition DeleteRDPRecording (id : uuid) (now : Z) (s : logs) : res store_error string * logs :=
  match rdps s !! id with
  | None => (Err ErrNotFound, s)
  | Some r => (Ok (rd_path r), set_rdps s (delete id (rdps s)))
  end.
Definition PruneRDPRecordingsBefore (before : Z) (now : Z) (s : logs) :
    res store_error (list string * Z) * logs :=
  let gone := filter (λ kr, rd_started kr.2 < before) (map_to_list (rdps s)) in
  (Ok ((λ kr, rd_path kr.2) <$> gone, foldr (λ kr n, rd_size kr.2 + n) 0 gone),
   set_rdps s (filter (λ kr, ¬ rd_started kr.2 < before) (rdps s))).

(** * The handlers of [sessionsapi] *)
Context `{!Crypto, !JsonDecode}.
Context (RecordingDir : string) (RecordingEncryptionKey : bytes) (Join : string → string → string).

Definition IsAbs (p : string) : bool := has_prefix "/" p.
Definition resolvePath (p : string) : string := if IsAbs p then p else Join RecordingDir p.

Definition read_disk (p : string) (s : logs) : option bytes := disk s !! resolvePath p.
(** [os.Remove], its error dropped. *)
Definition remove_file (p : string) : M logs unit := effect (λ s, set_disk s (delete (resolvePath p) (disk s))).
Definition remove_files (ps : list string) : M logs unit := _ ← mapM remove_file ps; mret tt.

Definition audit_log (action detail : string) : M logs unit :=
  _ ← db (λ _ s, (Ok tt : res store_error unit, add_trail s (action, detail))); mret tt.

Definition with_id {A} (id : option uuid) (k : uuid → M logs (reply A)) : M logs (reply A) :=
  match id with None => mret (WriteError 400 "invalid session id") | Some id => k id end.

(** A query parameter: absent, malformed, or an id. *)
Inductive id_param := NoParam | BadParam | Param (id : uuid).
Definition param (q : id_param) : option (option uuid) :=
  match q with NoParam => Some None | BadParam => None | Param id => Some (Some id) end.

(** [list]: each session, and whether it has a recording; that lookup may fail. *)
Definition list_sessions (user host : id_param) (limit offset : Z) :
    M logs (reply (list (uuid * ssh_session * bool))) :=
  match param user with
  | None => mret (WriteError 400 "invalid user id")
  | Some user =>
    match param host with
    | None => mret (WriteError 400 "invalid host id")
    | Some host =>
      r ← db (ListSSHSessions user host limit offset);
      match r with
      | Err _ => mret (WriteError 500 "could not list sessions")
      | Ok rows =>
        ids ← db RecordingSessionIDs;
        let has id := match ids with Ok ids => bool_decide (id ∈ ids) | Err _ => false end in
        mret (WriteJSON 200 ((λ r, (r, has r.1)) <$> rows))
      end
    end
  end.

Definition get_session (id : option uuid) : M logs (reply ssh_session) :=
  with_id id (λ id, r ← db (GetSSHSession id);
    mret (match r with Ok ss => WriteJSON 200 ss | Err _ => WriteError 404 "session not found" end)).

(** [recording] and [playerRecording] read the whole file; [downloadRecording] streams it. *)
Definition get_recording (id : option uuid) : M logs (reply (uuid * recording * bytes)) :=
  with_id id (λ id, r ← db (GetRecordingBySession id);
    match r with
    | Err _ => mret (WriteError 404 "recording not found")
    | Ok rec =>
      f ← peek (read_disk (rc_path rec.2));
      mret (match ReadFile f RecordingEncryptionKey with
            | Ok cast => WriteJSON 200 (rec, cast)
            | Err _ => WriteError 404 "recording file not found"
            end)
    end).

Definition downloadRecording (id : option uuid) : M logs (reply bytes) :=
  with_id id (λ id, r ← db (GetRecordingBySession id);
    match r with
    | Err _ => mret (WriteError 404 "recording not found")
    | Ok rec =>
      f ← peek (read_disk (rc_path rec.2));
      mret (match Open f RecordingEncryptionKey with
            | Ok o => WriteJSON 200 (stream_text o)
            | Err _ => WriteError 404 "recording file not found"
            end)
    end).

Definition deleteRecording (id : option uuid) : M logs (reply string) :=
  with_id id (λ id, r ← db (DeleteRecordingBySession id);
    match r with
    | Err _ => mret (WriteError 404 "recording not found")
    | Ok path =>
      _ ← remove_file path;
      _ ← audit_log "recording.delete" path;
      mret (WriteJSON 200 "deleted")
    end).

(** [AddDate(0, 0, -days)] of a clock without daylight saving, as the server's UTC is. *)
Definition days_before (days now : Z) : Z := now - days * day.

Definition prune_recordings (days : Z) : M logs (reply (nat * Z)) :=
  if days <=? 0 then mret (WriteError 400 "olderThanDays must be > 0")
  else
    now ← time_now;
    r ← db (PruneRecordingsBefore (days_before days now));
    match r with
    | Err _ => mret (WriteError 500 "prune failed")
    | Ok (paths, n) =>
      _ ← remove_files paths;
      _ ← audit_log "recording.prune" "";
      mret (WriteJSON 200 (length paths, n))
    end.

Definition recording_stats : M logs (reply (Z * Z)) :=
  r ← db RecordingsStorageBytes;
  mret (match r with Ok n => WriteJSON 200 n | Err _ => WriteError 500 "stats failed" end).

(** [commandSearch]; [q] and [hostname] come trimmed. *)
Definition commandSearch (u : uuid) (isSuper : bool) (q hostname : string) :
    M logs (reply (list SessionCommandRow)) :=
  if (String.length q <? 2)%nat then mret (WriteError 400 "q must be at least 2 characters")
  else
    r ← SearchSessionCommands u isSuper q hostname 200;
    match r with
    | Err _ => mret (WriteError 500 "could not search commands")
    | Ok rows => _ ← audit_log "session.command_search" q; mret (WriteJSON 200 rows)
    end.

(** ** Desktop recordings ([rdp/handlers_api.go]) *)
Definition rdp_download (id : option uuid) : M logs (reply bytes) :=
  with_id id (λ id, r ← db (GetRDPRecording id);
    match r with
    | Err _ => mret (WriteError 404 "recording not found")
    | Ok rec =>
      f ← peek (read_disk (rd_path rec));
      mret (match Open f RecordingEncryptionKey with
            | Ok o => WriteJSON 200 (stream_text o)
            | Err _ => WriteError 404 "recording file not found"
            end)
    end).

(** [stream] authenticates by the token of the query: [p] is the principal it gave, if any. *)
Definition rdp_stream (p : option AuthSession.Principal) (id : option uuid) : M logs (reply bytes) :=
  match p with
  | Some p => if AuthSession.Has p "Session.Replay" then rdp_download id
              else mret (WriteError 401 "unauthorized")
  | None => mret (WriteError 401 "unauthorized")
  end.

Definition rdp_remove (id : option uuid) : M logs (reply string) :=
  with_id id (λ id, r ← db (DeleteRDPRecording id);
    match r with
    | Err _ => mret (WriteError 404 "recording not found")
    | Ok path =>
      _ ← remove_file path;
      _ ← audit_log "rdp_recording.delete" path;
      mret (WriteJSON 200 "deleted")
    end).

Definition rdp_prune (days : Z) : M logs (reply (nat * Z)) :=
  if days <=? 0 then mret (WriteError 400 "olderThanDays must be > 0")
  else
    now ← time_now;
    r ← db (PruneRDPRecordingsBefore (days_before days now));
    match r with
    | Err _ => mret (WriteError 500 "prune failed")
    | Ok (paths, n) =>
      _ ← remove_files paths;
      _ ← audit_log "rdp_recording.prune" "";
      mret (WriteJSON 200 (length paths, n))
    end.

(** * The job that indexes commands ([api/server.go]) *)
Definition record_job (name : string) (ok : bool) : M logs unit := effect (λ s, add_job s (name, ok)).

(** What is indexed of a recording: nothing when its file cannot be opened. *)
Definition commands_of (f : option bytes) : list Command :=
  match Open f RecordingEncryptionKey with
  | Err _ => []
  | Ok o => ExtractCommands (stream_text o)
  end.

Definition index_one (n : nat) (kr : uuid * recording) : M logs nat :=
  f ← peek (read_disk (rc_path kr.2));
  match Open f RecordingEncryptionKey with
  | Err _ => _ ← db (IndexRecordingCommands kr.1 (rc_session kr.2) []); mret n
  | Ok o =>
    r ← db (IndexRecordingCommands kr.1 (rc_session kr.2) (ExtractCommands (stream_text o)));
    match r with
    | Err _ => _ ← record_job "command-index" false; mret n
    | Ok _ => mret (S n)
    end
  end.

Fixpoint index_all (n : nat) (l : list (uuid * recording)) : M logs nat :=
  match l with
  | [] => mret n
  | kr :: l => n ← index_one n kr; index_all n l
  end.

Definition indexSessionCommands : M logs unit :=
  r ← db (UnindexedRecordings 100);
  match r with
  | Err _ => record_job "command-index" false
  | Ok recs =>
    n ← index_all 0 recs;
    if (0 <? n)%nat then record_job "command-index" true else mret tt
  end.
End log.

(** * Lemmas *)
Lemma set_access_same s : set_access s (access s) = s.
Proof. by destruct s. Qed.

Lemma newest_first_perm {A} (key : A → Z) l : newest_first key l ≡ₚ l.
Proof. apply merge_sort_Permutation. Qed.
Lemma newest_first_sorted {A} (key : A → Z) l : Sorted (desc key) (newest_first key l).
Proof. apply Sorted_merge_sort. intros a b. unfold desc. lia. Qed.
Lemma oldest_first_perm {A} (key : A → Z) l : oldest_first key l ≡ₚ l.
Proof. apply merge_sort_Permutation. Qed.

Lemma desc_trans {A} (key : A → Z) : Transitive (desc key).
Proof. intros a b c. unfold desc. lia. Qed.

Lemma sorted_sublist {A} (R : relation A) (HR : Transitive R) l k :
  sublist l k → Sorted R k → Sorted R l.
Proof.
  intros Hs Hk. apply StronglySorted_Sorted. apply Sorted_StronglySorted in Hk; [|done].
  induction Hs as [|x l k Hs IH|x l k Hs IH]; [done|..]; inversion Hk; subst.
  - constructor; [by apply IH|]. rewrite Forall_forall in *. intros y Hy. match goal with H : ∀ _, _ → R x _ |- _ => apply H end. by eapply elem_of_sublist.
  - by apply IH.
Qed.

Section quiet.
Context `{!Env logs, !Quiet Env0}.
Context (matches : string → list rune → bool) (ilike : string → string → bool).

(** Access to the host, as some statement of the call sees it. *)
Definition reachable_host (u : uuid) (s : logs) (c : command_row) : Prop :=
  ∃ h n, cm_host c = Some h ∧ can_access (tb (access s)) (clock n) u h.

Lemma on_access_reads u h now s : ∃ b, on_access (UserCanAccessHost u h) now s = (Ok b, s) ∧
  (b = true ↔ can_access (tb (access s)) now u h).
Proof.
  unfold on_access. destruct (UserCanAccessHost_spec u h now (access s)) as (b & -> & Hb).
  exists b. by rewrite set_access_same.
Qed.

Definition allowed (u : uuid) (super : bool) (s : logs) (c : command_row) : Prop :=
  super = true ∨ reachable_host u s c.

(** What a scan of the rows gives, started with [out]. *)
Definition scanned (u : uuid) (super : bool) (limit : nat) (rows : list command_row) (s : logs)
    (out : list SessionCommandRow) (res : list SessionCommandRow * world logs) : Prop :=
  w_db res.2 = s ∧ ∃ more, res.1 = out ++ (result_row <$> more) ∧ sublist more rows ∧
    Forall (allowed u super s) more ∧ (length res.1 ≤ limit)%nat.

Lemma scanned_skip u super limit r rows s out res :
  scanned u super limit rows s out res → scanned u super limit (r :: rows) s out res.
Proof.
  intros (Hs & more & H1 & H2 & H3). split; [done|]. exists more. split_and!; [done| |by apply H3..].
  by constructor.
Qed.

Lemma scanned_keep u super limit r rows s out res : allowed u super s r →
  scanned u super limit rows s (out ++ [result_row r]) res → scanned u super limit (r :: rows) s out res.
Proof.
  intros Hr (Hs & more & H1 & H2 & H3 & H4). split; [done|]. exists (r :: more).
  rewrite H1, <- app_assoc in *. split_and!; [done|by constructor|by constructor|done].
Qed.

(** The scan keeps a part of the rows, in their order, each on a host the user can access. *)
Lemma scan_rows_sound u super limit rows s : ∀ cache out n,
  (length out < limit)%nat →
  (∀ h, cache !! h = Some true → ∃ n, can_access (tb (access s)) (clock n) u h) →
  scanned u super limit rows s out (scan_rows u super limit rows cache out (World n s)).
Proof.
  induction rows as [|r rows IH]; intros cache out n Hl Hc; cbn [scan_rows].
  { split; [done|]. exists []. simpl. rewrite app_nil_r. split_and!; [done..|constructor|lia]. }
  assert (∀ cache n, (∀ h, cache !! h = Some true → ∃ n, can_access (tb (access s)) (clock n) u h) →
    allowed u super s r →
    scanned u super limit (r :: rows) s out
      ((if (limit <=? length (out ++ [result_row r]))%nat then mret (out ++ [result_row r])
        else scan_rows u super limit rows cache (out ++ [result_row r])) (World n s))) as Hkeep.
  { intros cache' n' Hc' Hr. apply scanned_keep; [done|].
    rewrite length_app. simpl. case_match eqn:E.
    - split; [done|]. exists []. simpl. rewrite app_nil_r, length_app. simpl.
      split_and!; [done|by apply sublist_nil_l|constructor|lia].
    - apply Nat.leb_gt in E. apply IH; [|done]. rewrite length_app. simpl. lia. }
  destruct super; [by apply Hkeep; [|left]|].
  destruct (cm_host r) as [h|] eqn:Hh; [|by apply scanned_skip, IH].
  assert (∀ cache n, (∀ h, cache !! h = Some true → ∃ n, can_access (tb (access s)) (clock n) u h) →
    cache !! h = Some true →
    scanned u false limit (r :: rows) s out
      ((if (limit <=? length (out ++ [result_row r]))%nat then mret (out ++ [result_row r])
        else scan_rows u false limit rows cache (out ++ [result_row r])) (World n s))) as Hkeep'.
  { intros cache' n' Hc' Hr. apply Hkeep; [done|]. right. destruct (Hc' _ Hr) as [m Hm]. by exists h, m. }
  clear Hkeep. rename Hkeep' into Hkeep.
  destruct (cache !! h) as [[|]|] eqn:E; [by apply Hkeep|by apply scanned_skip, IH|].
  run_step. destruct (db_err n).
  - run_step. apply scanned_skip, IH; [done|]. intros h'. destruct (decide (h' = h)) as [->|Hne].
    + by rewrite lookup_insert_eq.
    + rewrite lookup_insert_ne by done. apply Hc.
  - destruct (on_access_reads u h (clock n) s) as (b & -> & Hb). run_step. destruct b.
    + apply Hkeep; [|by rewrite lookup_insert_eq]. intros h'. destruct (decide (h' = h)) as [->|Hne].
      * intros _. exists n. by apply Hb.
      * rewrite lookup_insert_ne by done. apply Hc.
    + apply scanned_skip, IH; [done|]. intros h'. destruct (decide (h' = h)) as [->|Hne].
      * by rewrite lookup_insert_eq.
      * rewrite lookup_insert_ne by done. apply Hc.
Qed.

Lemma scan_rows_prefix u super limit rows : ∀ cache out w,
  ∃ l, (scan_rows u super limit rows cache out w).1 = out ++ l.
Proof.
  induction rows as [|r rows IH]; intros cache out w; cbn [scan_rows]; [exists []; by rewrite app_nil_r|].
  assert (∀ cache w, ∃ l, ((if (limit <=? length (out ++ [result_row r]))%nat then mret (out ++ [result_row r])
    else scan_rows u super limit rows cache (out ++ [result_row r])) w).1 = out ++ l) as Hkeep.
  { intros cache' w'. case_match; [by exists [result_row r]|].
    destruct (IH cache' (out ++ [result_row r]) w') as [l ->]. exists ([result_row r] ++ l).
    by rewrite app_assoc. }
  destruct super; [apply Hkeep|]. destruct (cm_host r) as [h|]; [|apply IH].
  destruct (cache !! h) as [[|]|]; [apply Hkeep|apply IH|]. rewrite run_bind.
  destruct (db _ w) as [a w']. simpl. destruct a as [[|]|]; [apply Hkeep|apply IH..].
Qed.

(** Without failures nothing accessible is skipped before the limit is reached. *)
Lemma scan_rows_complete u limit rows s c : (∀ n, db_err n = false) →
  c ∈ rows → (∃ h, cm_host c = Some h ∧ ∀ n, can_access (tb (access s)) (clock n) u h) →
  ∀ cache out n, (∀ h, cache !! h = Some false → ∃ n, ¬ can_access (tb (access s)) (clock n) u h) →
  let res := (scan_rows u false limit rows cache out (World n s)).1 in
  result_row c ∈ res ∨ (limit ≤ length res)%nat.
Proof.
  intros Hdb Hin (hc & Hhc & Hacc). induction rows as [|r rows IH]; intros cache out n Hc res; subst res.
  { by apply elem_of_nil in Hin. }
  cbn [scan_rows]. apply elem_of_cons in Hin as [<-|Hin].
  - rewrite Hhc.
    assert (∀ cache w, let res := ((if (limit <=? length (out ++ [result_row c]))%nat
      then mret (out ++ [result_row c])
      else scan_rows u false limit rows cache (out ++ [result_row c])) w).1 in
      result_row c ∈ res ∨ (limit ≤ length res)%nat) as Hkeep.
    { intros cache' w'. simpl. left. case_match; [apply elem_of_app; right; by left|].
      destruct (scan_rows_prefix u false limit rows cache' (out ++ [result_row c]) w') as [l ->].
      apply elem_of_app. left. apply elem_of_app. right. by left. }
    destruct (cache !! hc) as [[|]|] eqn:E; [apply Hkeep| |].
    { destruct (Hc _ E) as [m Hm]. by destruct Hm. }
    run_step. rewrite Hdb. destruct (on_access_reads u hc (clock n) s) as (b & -> & Hb). run_step.
    rewrite (proj2 Hb (Hacc n)). apply Hkeep.
  - destruct (cm_host r) as [h|]; [|by apply IH].
    assert (∀ cache n, (∀ h, cache !! h = Some false → ∃ n, ¬ can_access (tb (access s)) (clock n) u h) →
      let res := ((if (limit <=? length (out ++ [result_row r]))%nat
      then mret (out ++ [result_row r])
      else scan_rows u false limit rows cache (out ++ [result_row r])) (World n s)).1 in
      result_row c ∈ res ∨ (limit ≤ length res)%nat) as Hkeep.
    { intros cache' n' Hc'. simpl. case_match eqn:E; [right; by apply Nat.leb_le in E|by apply IH]. }
    destruct (cache !! h) as [[|]|] eqn:E; [by apply Hkeep|by apply IH|].
    run_step. rewrite Hdb. destruct (on_access_reads u h (clock n) s) as (b & -> & Hb). run_step.
    assert (∀ h', <[h:=b]> cache !! h' = Some false → ∃ n, ¬ can_access (tb (access s)) (clock n) u h') as Hc'.
    { intros h'. destruct (decide (h' = h)) as [->|Hne]; [|rewrite lookup_insert_ne by done; apply Hc].
      rewrite lookup_insert_eq. intros [= ->]. exists n. intros Hx. by apply Hb in Hx. }
    destruct b; [by apply Hkeep|by apply IH].
Qed.
End quiet.

(** * The properties *)

(** a command search gives away nothing of hosts its caller cannot reach: whatever statements fail,
    each row of the result is an indexed command that matches, on a host the access model grants
    the caller at some statement of the call (for a super administrator, any host), newest first
    and within the limit. And without failures a matching command among the fetched ones, on a
    host the caller can reach throughout, is in the result unless the limit cut it off. *)
Theorem search_scoped `{!Env logs, !Quiet Env0} matches ilike u isSuper query hostname limit n s out :
  (SearchSessionCommands matches ilike u isSuper query hostname limit (World n s)).1 = Ok out →
  let hit c := matches query (cm_text c) && (str_eqb hostname "" || ilike hostname (cm_hostname c)) in
  let l := limit_or 50 200 limit in
  let fetched := take (Nat.min (l * 5) 1000) (newest_first cm_ts (filter (λ c, hit c = true) (commands s))) in
  (length out ≤ l)%nat ∧ Sorted (desc sr_at) out ∧
  (∀ r, r ∈ out → ∃ c, c ∈ commands s ∧ hit c = true ∧ r = result_row c ∧
     (isSuper = true ∨ reachable_host u s c)) ∧
  ((∀ m, db_err m = false) → isSuper = false →
   ∀ c, c ∈ fetched → (∃ h, cm_host c = Some h ∧ ∀ m, can_access (tb (access s)) (clock m) u h) →
   result_row c ∈ out ∨ length out = l).
Proof.
  intros Hr hit l fetched. revert Hr. unfold SearchSessionCommands. fold l. rewrite run_bind, run_db.
  destruct (db_err n) eqn:En; [done|]. cbn [fst snd search_rows]. rewrite run_bind. cbn [fst mret M_ret].
  intros [= <-]. change (take _ (newest_first _ _)) with fetched.
  assert (0 < l)%nat as Hl.
  { unfold l, limit_or. case_match eqn:E; [lia|]. apply orb_false_iff in E as [E _]. apply Z.leb_gt in E. lia. }
  pose proof (scan_rows_sound u isSuper l fetched s ∅ [] (S n) Hl ltac:(intros ?; by rewrite lookup_empty)) as (_ & more & Ho & Hs & Ha & Hlen).
  split; [exact Hlen|]. simpl in Ho. rewrite Ho. rewrite Ho in Hlen.
  assert (∀ c, c ∈ fetched → c ∈ commands s ∧ hit c = true) as Hf.
  { intros c Hc. unfold fetched in Hc.
    apply (elem_of_sublist _ (newest_first cm_ts (filter (λ c, hit c = true) (commands s)))) in Hc;
      [|apply sublist_take].
    rewrite newest_first_perm in Hc. apply list_elem_of_filter in Hc. by destruct Hc. }
  split_and!.
  - assert (Sorted (desc cm_ts) more) as Hso.
    { apply (sorted_sublist (desc cm_ts) (desc_trans _) more fetched); [done|]. unfold fetched.
      eapply (sorted_sublist (desc cm_ts) (desc_trans _)); [apply sublist_take|]. apply newest_first_sorted. }
    clear -Hso. induction Hso as [|c more Hso IH Hh]; [constructor|]. constructor; [done|].
    inversion Hh; constructor. done.
  - intros r Hr. apply list_elem_of_fmap in Hr as (c & -> & Hc).
    rewrite Forall_forall in Ha. specialize (Ha c Hc). apply (elem_of_sublist _ fetched) in Hc; [|done].
    exists c. destruct (Hf c Hc). by split_and!.
  - intros Hdb -> c Hc Hacc. pose proof (scan_rows_complete u l fetched s c Hdb Hc Hacc ∅ [] (S n) ltac:(intros ?; by rewrite lookup_empty)) as Hx.
    cbv zeta in Hx. rewrite Ho in Hx. destruct Hx as [Hx|Hx]; [by left|right]. lia.
Qed.

(** Two sessions, of an accessible host and of another one. *)
Definition toy_ssh (h : uuid) : ssh_session :=
  MkSSH None (Some 2%N) (Some h) "alice" "web" "closed" 5 (Some 9) (Some 0) 0 0 None.
Definition toy_row (h : uuid) (ts : Z) : command_row := MkCmd 1 (Some 2%N) (Some h) "alice" "web" ts [108; 115].
Definition toy_logs : logs := Logs {[1%N := toy_ssh 10]}
  {[7%N := MkRec 1 "asciicast-v2" "/r/a.cast" 0 0 "" 3 None]}
  [toy_row 10 6; toy_row 77 8] ∅ {["/r/a.cast" := recMagic]} toy_store [] [].

Lemma search_scoped_witness :
  ∃ out, (@SearchSessionCommands quiet_env (λ _ _, true) (λ _ _, true) 2 false "ls" "" 10 (World 0 toy_logs)).1
    = Ok out ∧ out = [result_row (toy_row 10 6)] ∧
    ∀ r, r ∈ out → ∃ c, c ∈ commands toy_logs ∧ r = result_row c ∧ @reachable_host quiet_env 2 toy_logs c.
Proof.
  eexists. split; [vm_compute; reflexivity|]. split; [reflexivity|]. intros r Hr.
  destruct (@search_scoped quiet_env _ (λ _ _, true) (λ _ _, true) 2 false "ls" "" 10 0 toy_logs _
    ltac:(vm_compute; reflexivity)) as (_ & _ & Ho & _).
  destruct (Ho r Hr) as (c & Hc & _ & He & [Hs|Ha]); [done|]. by exists c.
Defined.

Section index.
Context `{!Env logs, !Quiet Env0} (Hdb : ∀ n, db_err n = false).
Context `{!Crypto, !JsonDecode}.
Context (RecordingDir : string) (key : bytes) (Join : string → string → string).
Let index_all := index_all RecordingDir key Join.
Let read_disk := read_disk RecordingDir Join.

(** The rows a recording gives. *)
Definition rows_for (s : logs) (kr : uuid * recording) : list command_row :=
  match ssh s !! rc_session kr.2 with
  | Some ss => indexed_row (rc_session kr.2) ss <$>
      filter (λ c, Text c ≠ []) (commands_of key (read_disk (rc_path kr.2) s))
  | None => []
  end.

(** From [s] to [s'] the recordings [l] were indexed. *)
Record indexed (l : list (uuid * recording)) (s s' : logs) : Prop := {
  ix_ssh : ssh s' = ssh s;
  ix_disk : disk s' = disk s;
  ix_rows : commands s' = commands s ++ (l ≫= rows_for s);
  ix_in : ∀ rid r, rid ∈ l.*1 → recordings s' !! rid = Some r → is_Some (rc_indexed r);
  ix_out : ∀ rid, rid ∉ l.*1 → recordings s' !! rid = recordings s !! rid;
}.

Lemma index_one_spec m kr n s : is_Some (ssh s !! rc_session kr.2) →
  ∃ m' n' s', SessionLog.index_one RecordingDir key Join m kr (World n s) = (m', World n' s') ∧
    indexed [kr] s s'.
Proof.
  intros [ss Hss]. unfold index_one, peek. rewrite run_bind. cbn [fst snd w_db].
  assert (∀ cmds now, cmds = commands_of key (read_disk (rc_path kr.2) s) →
    ∃ s', IndexRecordingCommands kr.1 (rc_session kr.2) cmds now s = (Ok tt, s') ∧ indexed [kr] s s') as Hix.
  { intros cmds now ->. unfold IndexRecordingCommands. rewrite Hss. eexists. split; [done|].
    split; cbn [ssh disk commands recordings set_recordings set_commands]; [done|done| | |].
    - simpl. unfold rows_for. by rewrite Hss, app_nil_r.
    - intros rid r Hin. apply list_elem_of_singleton in Hin as ->. rewrite lookup_alter_eq.
      intros (r' & _ & ->)%fmap_Some. by eexists.
    - intros rid Hin. rewrite lookup_alter_ne; [done|]. intros Heq. apply Hin. rewrite <- Heq. by left. }
  unfold commands_of in Hix. unfold read_disk in Hix.
  destruct (Open _ _) as [o|e]; rewrite run_bind, run_db, Hdb;
    destruct (Hix _ (clock n) eq_refl) as (s' & -> & Hs); by eexists _, _, s'.
Qed.

Lemma indexed_trans k l s1 s2 s3 : indexed [k] s1 s2 → indexed l s2 s3 → indexed (k :: l) s1 s3.
Proof.
  intros [A1 A2 A3 A4 A5] [B1 B2 B3 B4 B5]. split; [congruence..| | |].
  - rewrite B3, A3, bind_cons, <- app_assoc. simpl. rewrite app_nil_r. do 2 f_equal.
    apply list_bind_ext; [|done]. intros kr. unfold rows_for, read_disk, SessionLog.read_disk.
    by rewrite A1, A2.
  - intros rid r Hin Hr. destruct (decide (rid ∈ l.*1)) as [Hl|Hl]; [by eapply B4|].
    rewrite B5 in Hr by done. apply (A4 rid); [|done]. set_solver.
  - intros rid Hin. rewrite B5, A5 by set_solver. done.
Qed.

Lemma index_all_spec l : ∀ m n s, Forall (λ kr, is_Some (ssh s !! rc_session kr.2)) l →
  ∃ m' n' s', index_all m l (World n s) = (m', World n' s') ∧ indexed l s s'.
Proof.
  induction l as [|kr l IH]; intros m n s Hl.
  { eexists _, _, s. split; [done|]. split; try done; [by rewrite app_nil_r|set_solver]. }
  apply Forall_cons in Hl as [Hk Hl]. destruct (index_one_spec m kr n s Hk) as (m1 & n1 & s1 & E1 & H1).
  destruct (IH m1 n1 s1) as (m2 & n2 & s2 & E2 & H2).
  { eapply Forall_impl; [exact Hl|]. simpl. intros ? ?. by rewrite (ix_ssh _ _ _ H1). }
  exists m2, n2, s2. split; [|by eapply indexed_trans].
  unfold index_all in *. cbn [SessionLog.index_all]. rewrite run_bind, E1. exact E2.
Qed.
End index.

(** Every recording's session exists: the foreign key of the table. *)
Definition session_fk (s : logs) : Prop :=
  ∀ rid r, recordings s !! rid = Some r → is_Some (ssh s !! rc_session r).

(** a run of the indexing job adds, for each of the hundred oldest recordings not indexed yet, the
    commands extracted from its recording, and takes exactly those off the list of what is left to
    index: none is indexed twice. A recording whose file cannot be opened, be it for a missing
    key, gives no commands and is taken off as well. *)
Theorem index_run_spec `{!Env logs, !Quiet Env0, !Crypto, !JsonDecode} RecordingDir key Join n s :
  (∀ n, db_err n = false) → session_fk s →
  let s' := w_db (indexSessionCommands RecordingDir key Join (World n s)).2 in
  let picked := take 100 (oldest_first (λ kr, rc_created kr.2) (unindexed s)) in
  commands s' = commands s ++ (picked ≫= rows_for RecordingDir key Join s) ∧
  disk s' = disk s ∧
  (∀ kr, kr ∈ unindexed s' ↔ kr ∈ unindexed s ∧ kr ∉ picked) ∧
  (∀ kr e, kr ∈ picked → Open (read_disk RecordingDir Join (rc_path kr.2) s) key = Err e →
     rows_for RecordingDir key Join s kr = []).
Proof.
  intros Hdb Hfk s' picked.
  assert (∀ kr, kr ∈ picked → kr ∈ unindexed s ∧ recordings s !! kr.1 = Some kr.2) as Hp.
  { intros kr Hk. apply (elem_of_sublist _ (oldest_first (λ kr, rc_created kr.2) (unindexed s))) in Hk;
      [|apply sublist_take].
    rewrite oldest_first_perm in Hk. split; [done|]. apply list_elem_of_filter in Hk as [_ Hk].
    destruct kr. by apply elem_of_map_to_list. }
  destruct (index_all_spec Hdb RecordingDir key Join picked 0 (S n) s) as (m & n1 & s1 & E & [X1 X2 X3 X4 X5]).
  { apply Forall_forall. intros kr Hk. eapply Hfk. by apply Hp. }
  assert (disk s' = disk s1 ∧ commands s' = commands s1 ∧ recordings s' = recordings s1)
    as (-> & -> & Hr).
  { unfold s', indexSessionCommands. rewrite run_bind, run_db, Hdb. cbn [fst snd UnindexedRecordings].
    change (limit_or 100 500 100) with 100%nat. fold picked. rewrite run_bind, E. cbn [fst snd].
    by destruct (0 <? m)%nat. }
  split_and!; [done|done| |].
  - intros [rid r]. unfold unindexed. rewrite !list_elem_of_filter, !elem_of_map_to_list, Hr. simpl.
    destruct (decide (rid ∈ picked.*1)) as [Hin|Hout].
    + split.
      * intros [[Hi _] Hl]. destruct (X4 rid r Hin Hl) as [t Ht]. by rewrite Hi in Ht.
      * intros [[_ Hl] Hn]. apply list_elem_of_fmap in Hin as ([rid' r0] & -> & Hin).
        destruct (Hp _ Hin) as [_ Hr0]. simpl in *. rewrite Hl in Hr0. by simplify_eq.
    + rewrite X5 by done. split; [|naive_solver]. intros [Hi Hl]. split; [done|].
      intros Hin. apply Hout. apply list_elem_of_fmap. by exists (rid, r).
  - intros kr e _ He. unfold rows_for, commands_of. rewrite He. by destruct (ssh s !! _).
Qed.

Lemma index_run_spec_witness :
  let job := @indexSessionCommands quiet_env toy_crypto toy_decode "/r" [] (λ a b, b) in
  commands (w_db (job (World 0 toy_logs)).2) = commands toy_logs ∧
  ((7%N, MkRec 1 "asciicast-v2" "/r/a.cast" 0 0 "" 3 None) ∉ unindexed (w_db (job (World 0 toy_logs)).2)) ∧
  disk (w_db (job (World 0 toy_logs)).2) = disk toy_logs.
Proof.
  intros job.
  assert (session_fk toy_logs) as Hfk.
  { intros rid r Hr. cbn [toy_logs recordings] in Hr. apply lookup_singleton_Some in Hr as [_ <-]. by eexists. }
  destruct (@index_run_spec quiet_env _ toy_crypto toy_decode "/r" [] (λ a b, b) 0 toy_logs
    ltac:(done) Hfk) as (Hc & Hd & Hu & _).
  split; [etrans; [exact Hc|by vm_compute]|]. split; [|exact Hd].
  intros Hin. apply Hu in Hin as [_ Hn]. apply Hn. vm_compute. by left.
Defined.

(** Deleting a recording takes its row and its file, and leaves the commands indexed from it to be
    found. *)
Lemma delete_recording_spec `{!Env logs, !Quiet Env0, !Crypto, !JsonDecode} RecordingDir Join id n s body :
  (deleteRecording RecordingDir Join (Some id) (World n s)).1 = WriteJSON 200 body →
  let s' := w_db (deleteRecording RecordingDir Join (Some id) (World n s)).2 in
  of_session id s' = [] ∧ commands s' = commands s ∧
  ∃ kr, kr ∈ of_session id s ∧ read_disk RecordingDir Join (rc_path kr.2) s' = None.
Proof.
  intros Hr s'. assert (∃ kr, kr ∈ of_session id s ∧ commands s' = commands s ∧
    recordings s' = filter (λ kr, rc_session kr.2 ≠ id) (recordings s) ∧
    disk s' = delete (resolvePath RecordingDir Join (rc_path kr.2)) (disk s)) as (kr & Hk & Hc & Hs & Hd).
  { revert Hr. subst s'. unfold deleteRecording, with_id. rewrite run_bind, run_db.
    destruct (db_err n); [done|]. cbn [fst snd]. unfold DeleteRecordingBySession.
    destruct (head (of_session id s)) as [kr|] eqn:Hh; [|done]. cbn [fst snd].
    unfold remove_file, effect, audit_log. rewrite !run_bind. cbn [fst snd w_tick w_db].
    rewrite run_db. intros _. exists kr. split; [by apply head_Some_elem_of|].
    by destruct (db_err (S n)). }
  split_and!; [|done|exists kr; split; [done|]].
  - apply elem_of_nil_inv. intros [rid r] Hin. apply list_elem_of_filter in Hin as [He Hin].
    rewrite Hs in Hin. apply elem_of_map_to_list, map_lookup_filter_Some in Hin. by destruct Hin.
  - unfold read_disk. by rewrite Hd, lookup_delete_eq.
Qed.
