(* ===== verification/Retention.v ===== *)
(** Retention: [store/retention.go], and the loop of [api/server.go] that calls it.

    One sweep of the loop over everything it prunes: recordings and their files, metric history,
    scans and their reports, session and transfer history, certificates, resolved access requests
    (with the grants that cascade), status events and the audit chain. *)
From S2P Require Import Prelude GoStrings SecretBox Recordings CommandIndex HostAccess SessionLog.
From S2P Require Approvals AuditChain.
#[local] Existing Instance Approvals.ap_status_eq_dec.

(** * Data *)
Record scan := MkScan { sc_created : Z; sc_status : string; sc_report : string; sc_results : string }.
Record playbook_run := MkRun { pr_created : Z; pr_status : string }.

(** Of the tables that are pruned by their timestamp alone, the timestamps. *)
Record base := Base {
  lg : logs;
  ap : Approvals.store;
  chain : AuditChain.table;
  scans : gmap uuid scan;
  runs : gmap uuid playbook_run;
  certificates : gmap Z Z;
  sftp_transfers : list Z;
  auth_events : list Z;
  status_events : list Z;
  metric_history : list Z;
  recording_days : Z;
  jobs : list (string * bool);
}.

Definition set_lg (s : base) x := Base x (ap s) (chain s) (scans s) (runs s) (certificates s)
  (sftp_transfers s) (auth_events s) (status_events s) (metric_history s) (recording_days s) (jobs s).
Definition set_ap (s : base) x := Base (lg s) x (chain s) (scans s) (runs s) (certificates s)
  (sftp_transfers s) (auth_events s) (status_events s) (metric_history s) (recording_days s) (jobs s).
Definition set_chain (s : base) x := Base (lg s) (ap s) x (scans s) (runs s) (certificates s)
  (sftp_transfers s) (auth_events s) (status_events s) (metric_history s) (recording_days s) (jobs s).
Definition set_scans (s : base) x := Base (lg s) (ap s) (chain s) x (runs s) (certificates s)
  (sftp_transfers s) (auth_events s) (status_events s) (metric_history s) (recording_days s) (jobs s).
Definition set_runs (s : base) x := Base (lg s) (ap s) (chain s) (scans s) x (certificates s)
  (sftp_transfers s) (auth_events s) (status_events s) (metric_history s) (recording_days s) (jobs s).
Definition set_certificates (s : base) x := Base (lg s) (ap s) (chain s) (scans s) (runs s) x
  (sftp_transfers s) (auth_events s) (status_events s) (metric_history s) (recording_days s) (jobs s).
Definition set_sftp (s : base) x := Base (lg s) (ap s) (chain s) (scans s) (runs s) (certificates s)
  x (auth_events s) (status_events s) (metric_history s) (recording_days s) (jobs s).
Definition set_auth (s : base) x := Base (lg s) (ap s) (chain s) (scans s) (runs s) (certificates s)
  (sftp_transfers s) x (status_events s) (metric_history s) (recording_days s) (jobs s).
Definition set_status (s : base) x := Base (lg s) (ap s) (chain s) (scans s) (runs s) (certificates s)
  (sftp_transfers s) (auth_events s) x (metric_history s) (recording_days s) (jobs s).
Definition set_metrics (s : base) x := Base (lg s) (ap s) (chain s) (scans s) (runs s) (certificates s)
  (sftp_transfers s) (auth_events s) (status_events s) x (recording_days s) (jobs s).
Definition log_job (s : base) e := Base (lg s) (ap s) (chain s) (scans s) (runs s) (certificates s)
  (sftp_transfers s) (auth_events s) (status_events s) (metric_history s) (recording_days s) (jobs s ++ [e]).

(** * The store *)
Definition on_logs {A} (f : Z → logs → res store_error A * logs) (now : Z) (s : base) :
    res store_error A * base :=
  let '(r, l) := f now (lg s) in (r, set_lg s l).

Definition since (cutoff : Z) (l : list Z) : list Z := filter (λ t, ¬ t < cutoff) l.
Definition PruneAuthEventsBefore (cutoff now : Z) (s : base) : res store_error unit * base :=
  (Ok tt, set_auth s (since cutoff (auth_events s))).
Definition PruneSFTPTransfersBefore (cutoff now : Z) (s : base) : res store_error unit * base :=
  (Ok tt, set_sftp s (since cutoff (sftp_transfers s))).
Definition PruneStatusEventsBefore (cutoff now : Z) (s : base) : res store_error unit * base :=
  (Ok tt, set_status s (since cutoff (status_events s))).
Definition PruneMetricHistoryBefore (cutoff now : Z) (s : base) : res store_error unit * base :=
  (Ok tt, set_metrics s (since cutoff (metric_history s))).
Definition PruneAuditEvents (cutoff now : Z) (s : base) : res store_error unit * base :=
  (Ok tt, set_chain s (AuditChain.PruneAuditEventsBefore cutoff (chain s)).2).
Definition PruneExpiredCertificatesBefore (cutoff now : Z) (s : base) : res store_error unit * base :=
  (Ok tt, set_certificates s (filter (λ kv, ¬ kv.2 < cutoff) (certificates s))).

Definition PrunePlaybookRunsBefore (cutoff now : Z) (s : base) : res store_error unit * base :=
  (Ok tt, set_runs s (filter (λ kr, ¬ (pr_created kr.2 < cutoff ∧
     pr_status kr.2 ∈ ["completed"; "failed"; "interrupted"])) (runs s))).

Definition old_scan (cutoff : Z) (kv : uuid * scan) : Prop :=
  sc_created kv.2 < cutoff ∧ sc_status kv.2 ∈ ["completed"; "failed"].
#[export] Instance old_scan_dec c kv : Decision (old_scan c kv).
Proof. unfold old_scan. apply _. Defined.
Definition PruneScansBefore (cutoff now : Z) (s : base) : res store_error (list string) * base :=
  let gone := filter (old_scan cutoff) (map_to_list (scans s)) in
  (Ok (filter (λ p, p ≠ "") (gone ≫= λ kv, [sc_report kv.2; sc_results kv.2])),
   set_scans s (filter (λ kv, ¬ old_scan cutoff kv) (scans s))).

(** The requests that may go: resolved, old, and without a grant that is still live. *)
Definition holds_grant (now : Z) (s : Approvals.store) (id : uuid) : bool :=
  existsb (λ kg, bool_decide (Approvals.tp_request kg.2 = Some id) && Approvals.grant_active now kg.2)
    (map_to_list (Approvals.grants s)).
Definition prunable_request (cutoff now : Z) (s : Approvals.store) (kr : uuid * Approvals.approval) : bool :=
  bool_decide (Approvals.ar_created_at kr.2 < cutoff) &&
  bool_decide (Approvals.ar_status kr.2 ≠ Approvals.Pending) && negb (holds_grant now s kr.1).
(** Their grants go with them. *)
Definition grant_stays (cutoff now : Z) (s : Approvals.store) (g : Approvals.grant) : bool :=
  match Approvals.tp_request g with
  | Some id => match Approvals.requests s !! id with
               | Some r => negb (prunable_request cutoff now s (id, r)) | None => true end
  | None => true
  end.
Definition PruneApprovalRequestsBefore (cutoff now : Z) (s : base) : res store_error unit * base :=
  (Ok tt, set_ap s (Approvals.Store
     (filter (λ kr, prunable_request cutoff now (ap s) kr = false) (Approvals.requests (ap s)))
     (filter (λ kg, grant_stays cutoff now (ap s) kg.2 = true) (Approvals.grants (ap s)))
     (Approvals.audits (ap s)) (Approvals.notes (ap s)))).

(** * The sweep *)
Section sweep.
Context `{!Env base}.
Context (RecordingDir ScanDir : string) (Join : string → string → string).
Context (ActivityRetention AuditRetention MetricHistoryRetention : Z).
(** What [isLeader] answers at a tick. *)
Context (isLeader : nat → bool).

Definition record_job (name : string) (ok : bool) : M base unit := effect (λ s, log_job s (name, ok)).
Definition remove_under (dir : string) (paths : list string) : M base unit :=
  effect (λ s, set_lg s (set_disk (lg s)
    (foldr (λ p d, delete (resolvePath dir Join p) d) (disk (lg s)) paths))).

(** [RecordingRetentionDays]: an error reads as zero. *)
Definition RecordingRetentionDays : M base Z :=
  r ← db (reading (λ _ s, Ok (recording_days s)));
  mret (match r with Ok d => d | Err _ => 0 end).

(** A prune whose error is only logged. *)
Definition prune {A} (f : Z → base → res store_error A * base) : M base unit := _ ← db f; mret tt.

Definition pruneActivity : M base unit :=
  if ActivityRetention <=? 0 then mret tt
  else
    now ← time_now;
    let cutoff := now - ActivityRetention in
    r ← db (PruneScansBefore cutoff);
    _ ← match r with Ok paths => remove_under ScanDir paths | Err _ => mret tt end;
    _ ← prune (on_logs (PruneSSHSessionsBefore cutoff));
    _ ← prune (PruneSFTPTransfersBefore cutoff);
    _ ← prune (PrunePlaybookRunsBefore cutoff);
    _ ← prune (PruneAuthEventsBefore cutoff);
    _ ← prune (PruneExpiredCertificatesBefore cutoff);
    _ ← prune (PruneApprovalRequestsBefore cutoff);
    _ ← prune (PruneStatusEventsBefore cutoff);
    record_job "activity-retention" true.

Definition pruneAudit : M base unit :=
  if AuditRetention <=? 0 then mret tt
  else
    now ← time_now;
    _ ← prune (PruneAuditEvents (now - AuditRetention));
    record_job "audit-retention" true.

(** The body of [retentionLoop], once it knows the days. *)
Definition prune_all (days : Z) : M base unit :=
  if days <=? 0 then record_job "recording-retention" true
  else
    now ← time_now;
    r ← db (on_logs (PruneRecordingsBefore (days_before days now)));
    match r with
    | Err _ => record_job "recording-retention" false
    | Ok (paths, _) =>
      _ ← remove_under RecordingDir paths;
      now ← time_now;
      r ← db (on_logs (PruneRDPRecordingsBefore (days_before days now)));
      _ ← match r with Ok (paths, _) => remove_under RecordingDir paths | Err _ => mret tt end;
      _ ← record_job "recording-retention" true;
      _ ← (if 0 <? MetricHistoryRetention then
             now ← time_now; prune (PruneMetricHistoryBefore (now - MetricHistoryRetention))
           else mret tt);
      _ ← pruneActivity;
      pruneAudit
    end.
Definition sweep : M base unit :=
  leader ← draw isLeader;
  if negb leader then mret tt
  else days ← RecordingRetentionDays; prune_all days.
End sweep.

(** * What a sweep keeps *)

(** [T] is an instant no statement of the sweep runs after. *)
Record kept (T retention days : Z) (s s' : base) : Prop := {
  k_grants : ∀ k g, Approvals.grants (ap s) !! k = Some g → Approvals.grant_active T g = true →
    Approvals.grants (ap s') !! k = Some g;
  k_pending : ∀ k r, Approvals.requests (ap s) !! k = Some r → Approvals.ar_status r = Approvals.Pending →
    Approvals.requests (ap s') !! k = Some r;
  k_active : ∀ k ss, ssh (lg s) !! k = Some ss → ss_ended ss = None → ssh (lg s') !! k = Some ss;
  k_recordings : ∀ k r, recordings (lg s) !! k = Some r → T - days * day ≤ rc_created r →
    recordings (lg s') !! k = Some r;
  k_fk : session_fk (lg s) → session_fk (lg s');
  k_certs : ∀ k e, certificates s !! k = Some e → T ≤ e → certificates s' !! k = Some e;
  k_runs : ∀ k r, runs s !! k = Some r → pr_status r ∉ ["completed"; "failed"; "interrupted"] →
    runs s' !! k = Some r;
  k_scans : ∀ k r, scans s !! k = Some r → sc_status r ∉ ["completed"; "failed"] → scans s' !! k = Some r;
  k_auth : ∀ t, t ∈ auth_events s → T - retention ≤ t → t ∈ auth_events s';
  k_sftp : ∀ t, t ∈ sftp_transfers s → T - retention ≤ t → t ∈ sftp_transfers s';
}.

#[export] Instance kept_preorder T ret days : PreOrder (kept T ret days).
Proof. split; [by intros s; split|]. intros s1 s2 s3 [] []. split; auto. Qed.

(** A change of the other fields. *)
Lemma kept_other T ret days s s' : ap s' = ap s → ssh (lg s') = ssh (lg s) →
  recordings (lg s') = recordings (lg s) → certificates s' = certificates s → runs s' = runs s →
  scans s' = scans s → auth_events s' = auth_events s → sftp_transfers s' = sftp_transfers s →
  kept T ret days s s'.
Proof.
  intros E1 E2 E3 E4 E5 E6 E7 E8. split; rewrite ?E1, ?E2, ?E3, ?E4, ?E5, ?E6, ?E7, ?E8; try done.
  unfold session_fk. by rewrite E2, E3.
Qed.

Lemma since_spec c t l : t ∈ since c l ↔ t ∈ l ∧ c ≤ t.
Proof. unfold since. rewrite list_elem_of_filter. naive_solver lia. Qed.

Section statements.
(** The cutoff is of an earlier instant than the statement. *)
Context (T ret days now now0 : Z) (Hnow : now ≤ T) (Hnow0 : now0 ≤ T) (Hret : 0 < ret).
Let kept := kept T ret days.
Let cutoff := now0 - ret.

Ltac kept_by := split; cbn [set_lg set_ap set_chain set_scans set_runs set_certificates set_sftp
  set_auth set_status set_metrics lg ap scans runs certificates auth_events sftp_transfers fst snd]; try done.

Lemma kept_auth s : kept s (PruneAuthEventsBefore cutoff now s).2.
Proof. kept_by. intros t Ht Hl. apply since_spec. split; [done|unfold cutoff; lia]. Qed.
Lemma kept_sftp s : kept s (PruneSFTPTransfersBefore cutoff now s).2.
Proof. kept_by. intros t Ht Hl. apply since_spec. split; [done|unfold cutoff; lia]. Qed.
Lemma kept_certs s : kept s (PruneExpiredCertificatesBefore cutoff now s).2.
Proof.
  kept_by. intros k e He Hl. apply map_lookup_filter_Some. split; [done|]. simpl. unfold cutoff. lia.
Qed.
Lemma kept_runs s : kept s (PrunePlaybookRunsBefore cutoff now s).2.
Proof. kept_by. intros k r Hr Hl. apply map_lookup_filter_Some. split; [done|]. simpl. by intros [_ ?]. Qed.
Lemma kept_scans s : kept s (PruneScansBefore cutoff now s).2.
Proof. kept_by. intros k r Hr Hl. apply map_lookup_filter_Some. split; [done|]. by intros [_ ?]. Qed.

Lemma kept_recordings s : kept s (on_logs (PruneRecordingsBefore (days_before days now0)) now s).2.
Proof.
  unfold on_logs. simpl. kept_by; cbn [set_recordings recordings ssh].
  - intros k r Hr Hl. apply map_lookup_filter_Some. split; [done|]. simpl. unfold days_before. lia.
  - intros Hfk k r Hr. apply map_lookup_filter_Some in Hr as [Hr _]. by eapply Hfk.
Qed.
Lemma kept_rdp s : kept s (on_logs (PruneRDPRecordingsBefore (days_before days now0)) now s).2.
Proof. by apply kept_other. Qed.

(** Sessions still running or with a recording stay; so do all recordings. *)
Lemma kept_sessions s : kept s (on_logs (PruneSSHSessionsBefore cutoff) now s).2.
Proof.
  unfold on_logs. simpl. kept_by; cbn [delete_sessions set_commands set_recordings set_ssh recordings ssh].
  - intros k ss Hs He. apply map_lookup_filter_Some. split; [done|]. simpl.
    intros Hin. unfold prunable in Hin. apply elem_of_dom in Hin as [ss' Hin]. apply map_lookup_filter_Some in Hin as [Hs' [Hin _]].
    simpl in Hin. rewrite Hs in Hs'. injection Hs' as <-. by rewrite He in Hin.
  - intros k r Hr _. apply map_lookup_filter_Some. split; [done|]. simpl.
    intros Hin. unfold prunable in Hin. apply elem_of_dom in Hin as [ss' Hin]. apply map_lookup_filter_Some in Hin as [_ [_ Hin]].
    apply Hin. apply list_elem_of_fmap. exists (k, r). split; [done|]. by apply elem_of_map_to_list.
  - intros Hfk k r Hr. apply map_lookup_filter_Some in Hr as [Hr Hn]. simpl in Hn.
    destruct (Hfk _ _ Hr) as [ss Hss]. exists ss. by apply map_lookup_filter_Some.
Qed.

(** A live grant keeps its request. *)
Lemma kept_requests s : kept s (PruneApprovalRequestsBefore cutoff now s).2.
Proof.
  kept_by; cbn [Approvals.grants Approvals.requests].
  - intros k g Hg Ha. apply map_lookup_filter_Some. split; [done|]. simpl. unfold grant_stays.
    destruct (Approvals.tp_request g) as [id|] eqn:Hid; [|done].
    destruct (Approvals.requests (ap s) !! id) as [r|]; [|done].
    unfold prunable_request. rewrite !negb_andb, negb_involutive. apply orb_true_iff. right. simpl.
    unfold holds_grant. apply existsb_exists. exists (k, g). split.
    + apply list_elem_of_In. by apply elem_of_map_to_list.
    + simpl. rewrite bool_decide_true by done. revert Ha. unfold Approvals.grant_active. simpl.
      intros [-> Hx%Z.ltb_lt]%andb_true_iff. apply andb_true_iff. split; [done|]. apply Z.ltb_lt. lia.
  - intros k r Hr Hp. apply map_lookup_filter_Some. split; [done|]. unfold prunable_request. simpl.
    rewrite Hp, (bool_decide_false (Approvals.Pending ≠ _)) by naive_solver. by rewrite andb_false_r.
Qed.
End statements.

Section keeping.
Context `{!Env base, !Quiet Env0}.
Context (T : Z) (Hclock : ∀ n, clock n ≤ T).
Context (ret days : Z).
Let kept := kept T ret days.

Lemma within_db_clock {A} (f : Z → base → res store_error A * base) :
  (∀ n s, kept s (f (clock n) s).2) → within kept (db f).
Proof. intros Hf. apply guar_db_quiet; [apply _|done..|]. intros n s _. split; [apply Hf|done]. Qed.

Lemma within_prune {A} (f : Z → base → res store_error A * base) :
  (∀ n s, kept s (f (clock n) s).2) → within kept (prune f).
Proof.
  intros Hf. apply within_bind; [apply _|by apply within_db_clock|]. intros. apply within_ret. apply _.
Qed.

(** The clock read is one of the sweep's. *)
Lemma within_now_then {A} (k : Z → M base A) :
  (∀ n, within kept (k (clock n))) → within kept (now ← time_now; k now).
Proof. intros Hk w _. rewrite run_bind. destruct w as [n s]. exact (Hk n (World (S n) s) I). Qed.

Context (RecordingDir ScanDir : string) (Join : string → string → string).
Context (AuditRetention MetricHistoryRetention : Z).

Lemma within_job name ok : within kept (record_job name ok).
Proof. apply within_effect. intros s. by apply kept_other. Qed.
Lemma within_remove dir paths : within kept (remove_under Join dir paths).
Proof. apply within_effect. intros s. by apply kept_other. Qed.

Lemma within_activity : within kept (pruneActivity ScanDir Join ret).
Proof.
  unfold pruneActivity. destruct (ret <=? 0) eqn:E; [apply within_ret, _|]. apply Z.leb_gt in E.
  apply within_now_then. intros n. pose proof (Hclock n) as Hn.
  assert (∀ A (f : Z → base → res store_error A * base) (k : M base unit),
    (∀ m s, kept s (f (clock m) s).2) → within kept k → within kept (_ ← prune f; k)) as Hseq.
  { intros A f k Hf Hk. apply within_bind; [apply _|by apply within_prune|done]. }
  apply within_bind; [apply _|by apply within_db_clock; intros; apply kept_scans|]. intros r.
  apply within_bind; [apply _|destruct r; [apply within_remove|apply within_ret, _]|]. intros _.
  apply Hseq; [by intros; apply kept_sessions|].
  apply Hseq; [by intros; apply kept_sftp|].
  apply Hseq; [by intros; apply kept_runs|].
  apply Hseq; [by intros; apply kept_auth|].
  apply Hseq; [by intros; apply kept_certs|].
  apply Hseq; [by intros; apply kept_requests|].
  apply Hseq; [by intros; apply kept_other|]. apply within_job.
Qed.

Lemma within_all :
  within kept (prune_all RecordingDir ScanDir Join ret AuditRetention MetricHistoryRetention days).
Proof.
  unfold prune_all. destruct (days <=? 0); [apply within_job|]. apply within_now_then. intros n.
  apply within_bind; [apply _|by apply within_db_clock; intros; apply kept_recordings|]. intros r.
  destruct r as [[paths sz]|]; [|apply within_job].
  apply within_bind; [apply _|apply within_remove|]. intros _.
  apply within_now_then. intros m.
  apply within_bind; [apply _|by apply within_db_clock; intros; apply kept_rdp|]. intros r.
  apply within_bind; [apply _|destruct r as [[? ?]|]; [apply within_remove|apply within_ret, _]|]. intros _.
  apply within_bind; [apply _|apply within_job|]. intros _.
  apply within_bind; [apply _| |].
  { destruct (0 <? _); [|apply within_ret, _]. apply within_now_then. intros k.
    apply within_prune. intros. by apply kept_other. }
  intros _. apply within_bind; [apply _|apply within_activity|]. intros _.
  unfold pruneAudit. destruct (_ <=? 0); [apply within_ret, _|]. apply within_now_then. intros k.
  apply within_bind; [apply _|apply within_prune; intros; by apply kept_other|]. intros _. apply within_job.
Qed.
End keeping.

Lemma run_prune `{!Env base, !Quiet Env0} {A} (f : Z → base → res store_error A * base)
    (k : M base unit) n s : (∀ n, db_err n = false) →
  (_ ← prune f; k) (World n s) = k (World (S n) (f (clock n) s).2).
Proof. intros Hdb. unfold prune. by rewrite run_bind, run_bind, run_db, Hdb. Qed.

(** What the activity prune leaves, when nothing fails: the rows of each table that are not past the
    cutoff or not finished. *)
Lemma activity_prunes `{!Env base, !Quiet Env0} ScanDir Join ret n s :
  (∀ n, db_err n = false) → 0 < ret →
  let s' := w_db (pruneActivity ScanDir Join ret (World n s)).2 in
  let cutoff := clock n - ret in
  auth_events s' = since cutoff (auth_events s) ∧
  sftp_transfers s' = since cutoff (sftp_transfers s) ∧
  status_events s' = since cutoff (status_events s) ∧
  certificates s' = filter (λ kv, ¬ kv.2 < cutoff) (certificates s) ∧
  ssh (lg s') = filter (λ kr, kr.1 ∉ prunable cutoff (lg s)) (ssh (lg s)) ∧
  chain s' = chain s.
Proof.
  intros Hdb Hret s' cutoff. subst s'. unfold pruneActivity.
  rewrite (proj2 (Z.leb_gt _ _)) by done. rewrite run_bind. cbn [fst snd time_now w_tick w_db].
  fold cutoff. rewrite run_bind, run_db, Hdb. cbn [fst snd PruneScansBefore].
  set (gone := filter (λ p, p ≠ "") _). clearbody gone.
  set (s1 := set_scans s _). rewrite run_bind. cbn [fst snd remove_under effect w_tick w_db].
  set (s2 := set_lg s1 _).
  assert (auth_events s2 = auth_events s ∧ sftp_transfers s2 = sftp_transfers s ∧
    status_events s2 = status_events s ∧ certificates s2 = certificates s ∧
    ssh (lg s2) = ssh (lg s) ∧ recordings (lg s2) = recordings (lg s) ∧ chain s2 = chain s)
    as (E1 & E2 & E3 & E4 & E5 & E6 & E7) by done.
  assert (prunable cutoff (lg s2) = prunable cutoff (lg s)) as E8 by (unfold prunable; by rewrite E5, E6).
  clearbody s2. clear s1. rewrite !run_prune by done. cbn [snd fst w_db].
  rewrite <- E1, <- E2, <- E3, <- E4, <- E5, <- E7, <- E8. done.
Qed.

(** * The properties *)

(** a retention sweep destroys nothing that is live, whatever windows are configured and whatever
    fails: every grant still active when it ends stays, and so do pending requests, sessions that
    run, recordings younger than their window (and the session each belongs to), unexpired
    certificates, unfinished scans and runs, and history younger than the window. *)
Theorem sweep_keeps_what_is_live `{!Env base, !Quiet Env0} RecordingDir ScanDir Join
    activity audit metrics leader T n s :
  (∀ n, clock n ≤ T) →
  kept T activity (if db_err n then 0 else recording_days s) s
    (w_db (sweep RecordingDir ScanDir Join activity audit metrics leader (World n s)).2).
Proof.
  intros Hc. unfold sweep, RecordingRetentionDays, draw. rewrite run_bind. cbn [fst snd w_tick].
  destruct (leader n); [|done]. cbn [negb]. rewrite run_bind, run_bind, run_db.
  destruct (db_err n); cbn [fst snd mret M_ret reading];
    match goal with |- kept _ _ ?d _ _ => exact (proj1
      (within_all T Hc activity d RecordingDir ScanDir Join audit metrics (World (S n) s) I)) end.
Qed.

(** recordings kept for ever stop all the other retention: with the default of zero days the sweep
    changes nothing but its job log, whatever windows are configured for activity, for the audit
    chain and for metric history. *)
Theorem keep_recordings_stops_retention `{!Env base, !Quiet Env0} RecordingDir ScanDir Join
    activity audit metrics leader n s :
  recording_days s ≤ 0 →
  let s' := w_db (sweep RecordingDir ScanDir Join activity audit metrics leader (World n s)).2 in
  s' = s ∨ s' = log_job s ("recording-retention", true).
Proof.
  intros Hd s'. unfold s', sweep, RecordingRetentionDays, draw. rewrite run_bind. cbn [fst snd w_tick].
  destruct (leader n); [|by left]. right. cbn [negb]. rewrite run_bind, run_bind, run_db.
  unfold prune_all. destruct (db_err n); [done|]. cbn [fst snd mret M_ret reading].
  by rewrite (proj2 (Z.leb_le _ _) Hd).
Qed.

(** A clock that stands still. *)
Definition frozen : Env base := MkEnv base (λ _, false) (λ _, 100 * day) (λ _ s, s).
#[export] Instance frozen_quiet : Quiet frozen.
Proof. done. Defined.

Definition toy_base (days : Z) : base := Base toy_logs
  (Approvals.Store {[1%N := Approvals.Approval 2 "host" (Some 10%N) None "" "" 60 Approvals.Approved None None "" None 0]}
    {[5%N := Approvals.Grant (Some 1%N) 2 (Some 10%N) None 0 (101 * day) None]} [] [])
  (AuditChain.Table [] 1) ∅ ∅ {[7 := 200 * day; 8 := 0]} [] [0; 100 * day] [] [] days [].

Lemma sweep_keeps_what_is_live_witness :
  let s' := w_db (@sweep frozen "/r" "/s" (λ a b, b) day day 0 (λ _, true) (World 0 (toy_base 30))).2 in
  Approvals.grants (ap s') = Approvals.grants (ap (toy_base 30)) ∧ auth_events s' = [100 * day] ∧
  certificates s' !! 7 = Some (200 * day).
Proof.
  intros s'.
  pose proof (@sweep_keeps_what_is_live frozen _ "/r" "/s" (λ a b, b) day day 0 (λ _, true) (100 * day) 0
    (toy_base 30) ltac:(done)) as Hk.
  split; [by vm_compute|]. split; [by vm_compute|]. by eapply (k_certs _ _ _ _ _ Hk).
Defined.

Lemma keep_recordings_stops_retention_witness :
  let s' := w_db (@sweep frozen "/r" "/s" (λ a b, b) day day 0 (λ _, true) (World 0 (toy_base 0))).2 in
  auth_events s' = [0; 100 * day] ∧ certificates s' !! 8 = Some 0.
Proof.
  intros s'.
  destruct (@keep_recordings_stops_retention frozen _ "/r" "/s" (λ a b, b) day day 0 (λ _, true) 0
    (toy_base 0) ltac:(done)) as [He|He]; unfold s'; rewrite He; by split.
Defined.
