(* ===== verification/HostSearch.v ===== *)
(** Name search and the request picker: [likeEscape], [SearchHosts], [SearchGroups]
    ([store/hosts.go], [store/groups.go]) and [targets] of [approvals/approvals.go], over the tables
    of [HostAccess]. The database's LIKE operator is the class [Like], whose fields are its documented
    rules on single-byte text. *)
From Stdlib Require Import Ascii.
From S2P Require Import Prelude.
From S2P Require Import HostAccess.

(** The percent sign, the underscore and the backslash. *)
Abbreviation pct := (Ascii.Ascii true false true false false true false false).
Abbreviation under := (Ascii.Ascii true true true true true false true false).
Abbreviation bslash := (Ascii.Ascii false false true true true false true false).

(** [s ILIKE p ESCAPE '\'], and the equality of characters it ignores case by. *)
Class Like := {
  same_char : ascii → ascii → bool;
  ilike : string → string → bool;
  ilike_nil s : ilike s "" = true ↔ s = "";
  ilike_any p s : ilike s (String pct p) = true ↔ ∃ a b, s = a +:+ b ∧ ilike b p = true;
  ilike_one p s : ilike s (String under p) = true ↔ ∃ c s', s = String c s' ∧ ilike s' p = true;
  ilike_escaped c p s : ilike s (String bslash (String c p)) = true ↔
    ∃ d s', s = String d s' ∧ same_char d c = true ∧ ilike s' p = true;
  ilike_char c p s : c ≠ pct → c ≠ under → c ≠ bslash →
    ilike s (String c p) = true ↔ ∃ d s', s = String d s' ∧ same_char d c = true ∧ ilike s' p = true;
}.

(** [strings.NewReplacer] over three one-byte keys works byte by byte. *)
Definition escape_char (c : ascii) : string :=
  if Ascii.eqb c bslash || Ascii.eqb c pct || Ascii.eqb c under
  then String bslash (String c "") else String c "".
Fixpoint likeEscape (s : string) : string :=
  match s with "" => "" | String c s' => escape_char c +:+ likeEscape s' end.

Example likeEscape_ex : likeEscape "a_b%c\" = "a\_b\%c\\".
Proof. reflexivity. Qed.

Section search.
Context `{!Env store, !Like}.
(** ORDER BY of the two tables, by name. *)
Context (by_hostname : gmap uuid host → list (uuid * host)).
Context (by_groupname : gmap uuid group → list (uuid * group)).

Definition contains_pattern (q : string) : string := "%" +:+ likeEscape q +:+ "%".
Definition clamp_limit (limit : Z) : nat :=
  Z.to_nat (if (limit <=? 0) || (200 <? limit) then 50 else limit).

Definition SearchHosts (q : string) (limit : Z) (now : Z) (s : store)
    : res store_error (list (uuid * host)) * store :=
  (Ok (take (clamp_limit limit)
         (by_hostname (filter (λ kh, ilike (h_name kh.2) (contains_pattern q) = true) (hosts (tb s))))), s).
Definition SearchGroups (q : string) (limit : Z) (now : Z) (s : store)
    : res store_error (list (uuid * group)) * store :=
  (Ok (take (clamp_limit limit)
         (by_groupname (filter (λ kg, ilike (g_name kg.2) (contains_pattern q) = true) (groups (tb s))))), s).

Record requestTarget := MkTarget { rt_id : uuid; rt_name : string; rt_env : string }.

(** The loops of [targets]: they stop when [limit] targets are collected. *)
Fixpoint collect {A} (have : gset uuid) (mk : uuid * A → requestTarget) (limit : nat)
    (l : list (uuid * A)) (out : list requestTarget) : list requestTarget :=
  match l with
  | [] => out
  | x :: l' =>
    if bool_decide (x.1 ∈ have) then collect have mk limit l' out
    else
      let out := out ++ [mk x] in
      if (limit <=? length out)%nat then out else collect have mk limit l' out
  end.

Definition pick_limit : nat := 50.

Definition targets (p : Principal) (kind q : string) : M store (reply (list requestTarget)) :=
  let user := AuthSession.UserID p in
  let super := AuthSession.IsSuperAdmin p in
  if str_eqb kind "" || str_eqb kind "host" then
    hs ← db (SearchHosts q (Z.of_nat pick_limit * 2));
    match hs with
    | Err _ => mret (WriteError 500 "could not search hosts")
    | Ok hs =>
      have ← db (AccessibleHostIDs user super);
      match have with
      | Err _ => mret (WriteError 500 "could not load access")
      | Ok have =>
        mret (WriteJSON 200 (collect have (λ kh, MkTarget kh.1 (h_name kh.2) (h_env kh.2)) pick_limit hs []))
      end
    end
  else if str_eqb kind "group" then
    gs ← db (SearchGroups q (Z.of_nat pick_limit * 2));
    match gs with
    | Err _ => mret (WriteError 500 "could not search groups")
    | Ok gs =>
      have ← db (AccessibleGroupIDs user super);
      match have with
      | Err _ => mret (WriteError 500 "could not load access")
      | Ok have =>
        mret (WriteJSON 200 (collect have (λ kg, MkTarget kg.1 (g_name kg.2) "") pick_limit gs []))
      end
    end
  else mret (WriteError 400 "kind must be host or group").
End search.

(** * Proofs: the escape *)
Section escape.
Context `{!Like}.

(** Two strings equal up to case. *)
Definition same_text (b q : string) : Prop :=
  Forall2 (λ d c, same_char d c = true) (String.list_ascii_of_string b) (String.list_ascii_of_string q).

Lemma ilike_escape_char c p s :
  ilike s (escape_char c +:+ p) = true ↔ ∃ d s', s = String d s' ∧ same_char d c = true ∧ ilike s' p = true.
Proof.
  unfold escape_char. destruct (Ascii.eqb_spec c bslash); [apply ilike_escaped|].
  destruct (Ascii.eqb_spec c pct); [apply ilike_escaped|].
  destruct (Ascii.eqb_spec c under); [apply ilike_escaped|]. by apply ilike_char.
Qed.

Lemma app_String c (a b : string) : String c a +:+ b = String c (a +:+ b).
Proof. done. Qed.

Lemma ilike_escape q p s :
  ilike s (likeEscape q +:+ p) = true ↔ ∃ b t, s = b +:+ t ∧ same_text b q ∧ ilike t p = true.
Proof.
  revert s. induction q as [|c q IH]; intros s.
  - split; [intros Hs; exists "", s; split_and!; [done|constructor|done]|].
    intros (b & t & -> & Hb & Ht). by destruct b; [|inversion Hb].
  - change (likeEscape (String c q)) with (escape_char c +:+ likeEscape q).
    rewrite <- str_app_assoc, ilike_escape_char. setoid_rewrite IH. split.
    + intros (d & s' & -> & Hd & b & t & -> & Hb & Ht). exists (String d b), t.
      split_and!; [done|by constructor|done].
    + intros (b & t & -> & Hb & Ht). destruct b as [|d b]; [by inversion Hb|].
      inversion Hb; subst. exists d, (b +:+ t). eauto 10.
Qed.

Lemma ilike_tail s : ilike s "%" = true.
Proof. apply ilike_any. exists s, "". by rewrite str_app_nil, ilike_nil. Qed.

Lemma ilike_contains q s :
  ilike s (contains_pattern q) = true ↔ ∃ a b c, s = a +:+ b +:+ c ∧ same_text b q.
Proof.
  unfold contains_pattern. change ("%" +:+ likeEscape q +:+ "%") with (String pct (likeEscape q +:+ "%")).
  rewrite ilike_any. setoid_rewrite ilike_escape. split.
  - intros (a & r & -> & b & t & -> & Hb & _). by exists a, b, t.
  - intros (a & b & c & -> & Hb). exists a, (b +:+ c). split; [done|]. exists b, c.
    split_and!; [done..|apply ilike_tail].
Qed.
End escape.

(** * Proofs: the picker *)
Lemma collect_spec {A} have mk limit (l : list (uuid * A)) out :
  (length out < limit)%nat →
  collect have mk limit l out =
    take limit (out ++ (mk <$> List.filter (λ x, negb (bool_decide (x.1 ∈ have))) l)).
Proof.
  revert out. induction l as [|x l IH]; intros out Hlen; simpl.
  { rewrite app_nil_r, take_ge; [done|lia]. }
  case_bool_decide; simpl; [by apply IH|].
  destruct (Nat.leb_spec limit (length (out ++ [mk x]))) as [Hle|Hgt].
  - rewrite length_app in Hle. simpl in Hle.
    match goal with |- _ = take _ (_ ++ _ :: ?r) =>
      replace (out ++ mk x :: r) with ((out ++ [mk x]) ++ r) by (by rewrite <- app_assoc) end.
    rewrite take_app_le, take_ge; [done|rewrite length_app; simpl; lia..].
  - rewrite IH by done. by rewrite <- app_assoc.
Qed.

(** a search pattern built by [likeEscape] matches literally. Whatever the user types - percent
    signs, underscores and backslashes included - [name ILIKE '%' || likeEscape(q) || '%' ESCAPE '\']
    holds exactly of the names that contain it, up to case. *)
Theorem like_escape_literal `{!Like} q s :
  ilike s (contains_pattern q) = true ↔ ∃ a b c, s = a +:+ b +:+ c ∧ same_text b q.
Proof. apply ilike_contains. Qed.

Lemma elem_of_take_sub {A} (x : A) n l : x ∈ take n l → x ∈ l.
Proof. intros Hx. rewrite <- (take_drop n l). apply elem_of_app. by left. Qed.

(** The rules of dynamic groups do not escape: an underscore there is any character, so the rule
    [hostnameContains: "_"] takes every host with a name. *)
Lemma rule_underscore_takes_all `{!Like} row :
  h_name row ≠ "" → rule_holds ilike (MkRule "" [] [] "" "_") row.
Proof.
  intros Hne. split; simpl; [done|by intros ? ?%elem_of_nil|done|done|]. intros _.
  change ("%" +:+ "_" +:+ "%") with (String pct (String under "%")). apply ilike_any.
  exists "", (h_name row). split; [done|]. apply ilike_one.
  destruct (h_name row) as [|c s]; [done|]. exists c, s. split; [done|apply ilike_tail].
Qed.

Section picker.
Context `{!Env store, !Quiet Env0, !Like} (Hdb : ∀ n, db_err n = false).
Context (by_hostname : gmap uuid host → list (uuid * host)) (by_groupname : gmap uuid group → list (uuid * group)).
Context (Horder : ∀ m, by_hostname m ≡ₚ map_to_list m).

Definition host_matches (q : string) (t : tables) : gmap uuid host :=
  filter (λ kh, ilike (h_name kh.2) (contains_pattern q) = true) (hosts t).

Lemma host_matches_spec q t h row :
  (h, row) ∈ by_hostname (host_matches q t) ↔
  hosts t !! h = Some row ∧ ∃ a b c, h_name row = a +:+ b +:+ c ∧ same_text b q.
Proof using Horder.
  rewrite Horder, elem_of_map_to_list. unfold host_matches. rewrite map_lookup_filter_Some.
  by rewrite ilike_contains.
Qed.

(** The rows left once what the user reaches is taken out of the first hundred matches. *)
Definition offered (p : Principal) (q : string) (now : Z) (s : store) : list (uuid * host) :=
  List.filter (λ kh, negb (bool_decide (kh.1 ∈ ok_or ∅ (AccessibleHostIDs (AuthSession.UserID p) false now s).1)))
    (take 100 (by_hostname (host_matches q (tb s)))).

Lemma offered_spec p q now s h row :
  (h, row) ∈ offered p q now s ↔
  (h, row) ∈ take 100 (by_hostname (host_matches q (tb s))) ∧ ¬ reaches (tb s) now (AuthSession.UserID p) h.
Proof using Type.
  unfold offered. rewrite list_elem_of_In, filter_In, <- list_elem_of_In, negb_true_iff, bool_decide_eq_false.
  destruct (AccessibleHostIDs_spec (AuthSession.UserID p) now s) as (m & -> & Hm). simpl. by rewrite Hm.
Qed.

Lemma targets_run p kind q n s :
  kind = "" ∨ kind = "host" → AuthSession.IsSuperAdmin p = false →
  targets by_hostname by_groupname p kind q (World n s) =
    (WriteJSON 200 (take 50 ((λ kh, MkTarget kh.1 (h_name kh.2) (h_env kh.2)) <$> offered p q (clock (S n)) s)),
     World (S (S n)) s).
Proof using Quiet0 Hdb.
  intros Hk Hp. unfold targets. rewrite Hp.
  replace (str_eqb kind "" || str_eqb kind "host") with true by (by destruct Hk as [-> | ->]).
  run_step. rewrite Hdb. cbn -[AccessibleHostIDs take]. run_step. rewrite Hdb.
  cbn -[AccessibleHostIDs take]. destruct (AccessibleHostIDs_spec (AuthSession.UserID p) (clock (S n)) s) as (m & He & _).
  unfold offered. rewrite He. cbn -[take]. by rewrite collect_spec by (simpl; unfold pick_limit; lia).
Qed.
End picker.

(** the picker of the access-request form offers only hosts that match and that the requester has
    no source of access to, at most fifty; and it offers every such host when at most a hundred hosts
    match and at most fifty of them are left. (A host the user has a source for but is denied is
    therefore never offered, and beyond a hundred matches the list may be short or empty.) *)
Theorem targets_offer_unreached `{!Env store, !Quiet Env0, !Like} by_hostname by_groupname p kind q n s :
  (∀ n, db_err n = false) → (∀ m : gmap uuid host, by_hostname m ≡ₚ map_to_list m) →
  kind = "" ∨ kind = "host" → AuthSession.IsSuperAdmin p = false →
  let u := AuthSession.UserID p in
  let now := clock (S n) in
  ∃ l, targets by_hostname by_groupname p kind q (World n s) = (WriteJSON 200 l, World (S (S n)) s) ∧
    (length l ≤ 50)%nat ∧
    (∀ t, t ∈ l → ∃ row, hosts (tb s) !! rt_id t = Some row ∧ rt_name t = h_name row ∧
       (∃ a b c, h_name row = a +:+ b +:+ c ∧ same_text b q) ∧ ¬ reaches (tb s) now u (rt_id t)) ∧
    ((length (by_hostname (host_matches q (tb s))) ≤ 100)%nat →
     (length (offered by_hostname p q now s) ≤ 50)%nat →
     ∀ h row, hosts (tb s) !! h = Some row → (∃ a b c, h_name row = a +:+ b +:+ c ∧ same_text b q) →
       ¬ reaches (tb s) now u h → MkTarget h (h_name row) (h_env row) ∈ l).
Proof.
  intros Hdb Ho Hk Hp u now. eexists. split; [by apply targets_run|]. split_and!.
  - rewrite length_take. lia.
  - intros t ([h row] & -> & Hin)%elem_of_take_sub%list_elem_of_fmap. apply offered_spec in Hin as [Hin Hr].
    apply elem_of_take_sub, host_matches_spec in Hin as [Hh Hc]; [|done]. by exists row.
  - intros Hm Hl h row Hh Hc Hr. rewrite take_ge by (by rewrite length_fmap).
    apply list_elem_of_fmap. exists (h, row). split; [done|]. apply offered_spec. split; [|done].
    rewrite take_ge by done. by apply host_matches_spec.
Qed.

(** * Witnesses: LIKE by recursion on the pattern *)
Fixpoint like_go (p s : string) : bool :=
  match p with
  | "" => str_eqb s ""
  | String c p' =>
    if Ascii.eqb c pct then
      (fix any (s : string) := like_go p' s || match s with "" => false | String _ s' => any s' end) s
    else if Ascii.eqb c under then match s with "" => false | String _ s' => like_go p' s' end
    else if Ascii.eqb c bslash then
      match p' with
      | "" => false
      | String c' p'' => match s with "" => false | String d s' => Ascii.eqb d c' && like_go p'' s' end
      end
    else match s with "" => false | String d s' => Ascii.eqb d c && like_go p' s' end
  end.

#[export] Program Instance like_exact : Like := {|
  same_char := Ascii.eqb; ilike s p := like_go p s;
|}.
Next Obligation. intros s. apply str_eqb_eq. Qed.
Next Obligation.
  intros p s. simpl. induction s as [|d s IH].
  - rewrite orb_false_r. split; [by exists "", ""|]. intros (a & b & He & Hb). destruct a; [|done].
    change ("" +:+ b) with b in He. by subst.
  - rewrite orb_true_iff, IH. split.
    + intros [Hl|(a & b & -> & Hb)]; [by exists "", (String d s)|by exists (String d a), b].
    + intros (a & b & He & Hb). destruct a as [|d' a].
      * left. change ("" +:+ b) with b in He. by subst.
      * right. rewrite app_String in He. injection He as -> ->. eauto.
Qed.
Next Obligation. intros p s. simpl. destruct s; naive_solver. Qed.
Next Obligation.
  intros c p s. simpl. destruct s; [naive_solver|]. rewrite andb_true_iff. naive_solver.
Qed.
Next Obligation.
  intros c p s H1 H2 H3. cbn [like_go].
  destruct (Ascii.eqb_spec c pct); [done|]. destruct (Ascii.eqb_spec c under); [done|].
  destruct (Ascii.eqb_spec c bslash); [done|]. destruct s; [naive_solver|].
  rewrite andb_true_iff. naive_solver.
Qed.

Lemma like_escape_literal_witness :
  @ilike like_exact "50%_off" (contains_pattern "%_") = true ∧ @ilike like_exact "50 off" (contains_pattern "%_") = false.
Proof.
  split; [|reflexivity]. apply (@like_escape_literal like_exact "%_" "50%_off").
  exists "50", "%_", "off". split; [done|]. repeat constructor.
Defined.

Definition toy_user : Principal := AuthSession.MkPrincipal 2 30 "ana" false ∅ false 0.
Lemma targets_offer_unreached_witness :
  ∃ l, @targets quiet_env like_exact map_to_list map_to_list toy_user "host" "e" (World 0 toy_store) =
    (WriteJSON 200 l, World 2 toy_store) ∧ MkTarget 11 "web" "prod" ∈ l.
Proof.
  destruct (@targets_offer_unreached quiet_env _ like_exact map_to_list map_to_list toy_user "host" "e" 0 toy_store)
    as (l & Hl & _ & _ & Hc).
  - done.
  - done.
  - by right.
  - done.
  - exists l. split; [done|]. apply (Hc ltac:(vm_compute; lia) ltac:(vm_compute; lia) 11%N (Host "web" "prod" ["web"] "ssh" None false)).
    + reflexivity.
    + exists "w", "e", "b". split; [done|]. repeat constructor.
    + intros Hr%sources_spec%(bool_decide_eq_true _). by vm_compute in Hr.
Defined.
