(* ===== verification/AccessReview.v ===== *)
(** Access certification: [accessreview/handlers.go] over [store/access_reviews.go]. A campaign
    snapshots the grants of [HostAccess] - group memberships and direct host grants - into items; a
    reviewer keeps or revokes each, and a completed campaign is the evidence. The columns and counts
    are the code's; the CSV rendering and the display names of users are left out. *)
From S2P Require Import Prelude.
From S2P Require HostAccess.

(** * Data *)
Record ReviewScope := MkScope { Type_ : string; GroupID : option uuid; UserIDs : list uuid }.

Record review := Review {
  rv_name : string; rv_description : string; rv_scope : ReviewScope; rv_status : string;
  rv_created_by : uuid; rv_created_at : Z; rv_due_at : option Z; rv_completed : option (Z * uuid);
}.

Record item := Item {
  it_review : uuid; it_subject : uuid; it_grant_kind : string; it_resource_kind : string;
  it_resource : uuid; it_decision : string; it_note : string; it_decided : option (uuid * Z);
}.

Record store := Store {
  access : HostAccess.store;
  reviews : gmap uuid review;
  items : gmap uuid item;
  audits : list (string * uuid);
}.

Abbreviation user_groups s := (HostAccess.user_groups (HostAccess.tb (access s))).
Abbreviation host_users s := (HostAccess.host_users (HostAccess.tb (access s))).

Definition set_items (s : store) m := Store (access s) (reviews s) m (audits s).
Definition set_access (s : store) a := Store a (reviews s) (items s) (audits s).

(** * The store *)
Definition membership_item (rid : uuid) (ug : uuid * uuid) : item :=
  Item rid ug.1 "group_membership" "group" ug.2 "pending" "" None.
(** [host_users] rows are (host, user) here, [user_id, host_id] in the SELECT. *)
Definition direct_item (rid : uuid) (hu : uuid * uuid) : item :=
  Item rid hu.2 "direct_host" "host" hu.1 "pending" "" None.

Definition insert_items (rows : list item) (m : gmap uuid item) : gmap uuid item :=
  foldl (λ m r, <[fresh (dom m) := r]> m) m rows.

Section store.
(** Whether the driver sends a statement with [n] placeholders and [k] arguments. *)
Context (pgx_sends : nat → nat → bool).

(** The two INSERT ... SELECT of [snapshotGrants] are built from strings: each has the placeholder
    [$1] only - in its SELECT list, and again in the WHERE clause of a scope - and is given the
    review id followed by the arguments of the scope. So where it is sent at all, a group scope
    compares [group_id] to the review id; a user scope's [ANY($1)] gives [$1] two types and fails. *)
Definition snapshotGrants (rid : uuid) (scope : ReviewScope) (s : store) : res string (gmap uuid item) :=
  if str_eqb (Type_ scope) "group" then
    match GroupID scope with
    | None => Err "group scope requires groupId"
    | Some _ =>
      if pgx_sends 1 2 then
        Ok (insert_items (membership_item rid <$>
              List.filter (λ ug, bool_decide (ug.2 = rid)) (elements (user_groups s))) (items s))
      else Err "expected 1 arguments, got 2"
    end
  else if str_eqb (Type_ scope) "user" then
    if bool_decide (UserIDs scope = []) then Err "user scope requires userIds"
    else if pgx_sends 1 2 then Err "inconsistent types deduced for parameter $1"
    else Err "expected 1 arguments, got 2"
  else if pgx_sends 1 1 then
    Ok (insert_items (direct_item rid <$> elements (host_users s))
          (insert_items (membership_item rid <$> elements (user_groups s)) (items s)))
  else Err "expected 1 arguments, got 1".

(** The transaction of [CreateAccessReview]: the outer error is the store's, the inner one the
    scope's; either rolls back. *)
Definition create_tx (name desc : string) (scope : ReviewScope) (by_ : uuid) (due : option Z)
    (now : Z) (s : store) : res store_error (res string uuid) * store :=
  let rid := fresh (dom (reviews s)) in
  match snapshotGrants rid scope s with
  | Err e => (Ok (Err e), s)
  | Ok m => (Ok (Ok rid), Store (access s)
               (<[rid := Review name desc scope "open" by_ now due None]> (reviews s)) m (audits s))
  end.

(** The counts [accessReviewCols] adds to a row. *)
Record counted := Counted { ct_review : review; Total : nat; Pending : nat; Kept : nat; Revoked : nat }.
Definition count_items (rid : uuid) (p : item → bool) (s : store) : nat :=
  length (List.filter (λ it, bool_decide (it_review it = rid) && p it) (map_to_list (items s)).*2).
Definition decided_as (d : string) (it : item) : bool := str_eqb (it_decision it) d.
Definition counts (rid : uuid) (r : review) (s : store) : counted :=
  Counted r (count_items rid (λ _, true) s) (count_items rid (decided_as "pending") s)
    (count_items rid (decided_as "keep") s) (count_items rid (decided_as "revoke") s).

Definition GetAccessReview (rid : uuid) : Z → store → res store_error counted * store :=
  get_row (λ s, (λ r, counts rid r s) <$> reviews s !! rid).
Definition ListAccessReviews (now : Z) (s : store) : res store_error (gmap uuid counted) * store :=
  (Ok (map_imap (λ rid r, Some (counts rid r s)) (reviews s)), s).

(** An item with the name of its resource, or that it is gone. *)
Definition resource_name (it : item) (s : store) : string :=
  let t := HostAccess.tb (access s) in
  default "(deleted)"
    (if str_eqb (it_resource_kind it) "group" then HostAccess.g_name <$> HostAccess.groups t !! it_resource it
     else if str_eqb (it_resource_kind it) "host" then HostAccess.h_name <$> HostAccess.hosts t !! it_resource it
     else None).
Definition AccessReviewItems (rid : uuid) (now : Z) (s : store)
    : res store_error (list (uuid * item * string)) * store :=
  (Ok ((λ ki, (ki, resource_name ki.2 s)) <$>
         map_to_list (filter (λ ki, it_review ki.2 = rid) (items s))), s).

Definition decided_item (it : item) (decision note : string) (by_ : uuid) (now : Z) : item :=
  Item (it_review it) (it_subject it) (it_grant_kind it) (it_resource_kind it) (it_resource it)
    decision note (Some (by_, now)).

(** The DELETE of a revocation. *)
Definition revoke_grant (it : item) (s : store) : option store :=
  if str_eqb (it_grant_kind it) "group_membership" then
    Some (set_access s (HostAccess.RemoveUserFromGroup (it_subject it) (it_resource it) 0 (access s)).2)
  else if str_eqb (it_grant_kind it) "direct_host" then
    Some (set_access s (HostAccess.RemoveUserFromHost (it_resource it) (it_subject it) 0 (access s)).2)
  else None.

Definition decide_tx (rid id by_ : uuid) (decision note : string) (now : Z) (s : store)
    : res store_error (res string unit) * store :=
  match items s !! id with
  | None => (Ok (Err "not found"), s)
  | Some it =>
    if negb (bool_decide (it_review it = rid)) then (Ok (Err "not found"), s)
    else
      match (if str_eqb decision "revoke" then revoke_grant it s else Some s) with
      | None => (Ok (Err "unknown grant kind"), s)
      | Some s' => (Ok (Ok tt), set_items s' (<[id := decided_item it decision note by_ now]> (items s')))
      end
  end.

Definition CompleteAccessReview (rid by_ : uuid) (now : Z) (s : store) : res store_error unit * store :=
  match reviews s !! rid with
  | Some r =>
    if str_eqb (rv_status r) "open" then
      (Ok tt, Store (access s)
         (<[rid := Review (rv_name r) (rv_description r) (rv_scope r) "completed" (rv_created_by r)
                     (rv_created_at r) (rv_due_at r) (Some (now, by_))]> (reviews s)) (items s) (audits s))
    else (Err ErrNotFound, s)
  | None => (Err ErrNotFound, s)
  end.

Definition AppendAudit (e : string * uuid) (now : Z) (s : store) : res store_error unit * store :=
  (Ok tt, Store (access s) (reviews s) (items s) (audits s ++ [e])).

(** * The handlers *)
Section handlers.
Context `{!Env store}.

Definition CreateAccessReview name desc scope by_ due : M store (res string (uuid * counted)) :=
  r ← db (create_tx name desc scope by_ due);
  match r with
  | Err _ => mret (Err "database error")
  | Ok (Err e) => mret (Err e)
  | Ok (Ok rid) =>
    c ← db (GetAccessReview rid);
    mret (match c with Ok c => Ok (rid, c) | Err _ => Err "not found" end)
  end.

Definition DecideReviewItem rid id by_ decision note : M store (res string unit) :=
  if negb (str_eqb decision "keep") && negb (str_eqb decision "revoke") then mret (Err "invalid decision")
  else
    r ← db (decide_tx rid id by_ decision note);
    mret (match r with Err _ => Err "database error" | Ok r => r end).

Definition audit (action : string) (rid : uuid) : M store unit :=
  _ ← db (AppendAudit (action, rid)); mret tt.

Record createReq := MkCreate { rq_name : string; rq_desc : string; rq_scope : ReviewScope; rq_due : Z }.

Definition create (by_ : uuid) (body : option createReq) : M store (reply (uuid * counted)) :=
  match body with
  | None => mret (WriteError 400 "name is required")
  | Some rq =>
    if str_eqb (rq_name rq) "" then mret (WriteError 400 "name is required")
    else
      let sc := rq_scope rq in
      let scope := if str_eqb (Type_ sc) "" then MkScope "all" (GroupID sc) (UserIDs sc) else sc in
      due ← (if 0 <? rq_due rq then now ← time_now; mret (Some (now + wrap64 (rq_due rq * day)))
             else mret None);
      r ← CreateAccessReview (rq_name rq) (rq_desc rq) scope by_ due;
      match r with
      | Err e => mret (WriteError 400 ("could not create review: " +:+ e))
      | Ok (rid, c) => _ ← audit "access_review.create" rid; mret (WriteJSON 201 (rid, c))
      end
  end.

Definition get (rid : option uuid) : M store (reply (counted * list (uuid * item * string))) :=
  match rid with
  | None => mret (WriteError 400 "invalid id")
  | Some rid =>
    r ← db (GetAccessReview rid);
    match r with
    | Err _ => mret (WriteError 404 "no such review")
    | Ok rv =>
      l ← db (AccessReviewItems rid);
      mret (match l with Err _ => WriteError 500 "could not load items" | Ok l => WriteJSON 200 (rv, l) end)
    end
  end.

Definition decide_ (by_ : uuid) (rid id : option uuid) (body : option (string * string))
    : M store (reply string) :=
  match rid, id with
  | Some rid, Some id =>
    match body with
    | None => mret (WriteError 400 "invalid request body")
    | Some (decision, note) =>
      r ← DecideReviewItem rid id by_ decision note;
      match r with
      | Err e => mret (WriteError 400 ("could not record decision: " +:+ e))
      | Ok _ =>
        _ ← (if str_eqb decision "revoke" then audit "access_review.revoke" rid else mret tt);
        mret (WriteJSON 200 "ok")
      end
    end
  | _, _ => mret (WriteError 400 "invalid id")
  end.

Definition complete (by_ : uuid) (rid : option uuid) : M store (reply string) :=
  match rid with
  | None => mret (WriteError 400 "invalid id")
  | Some rid =>
    r ← db (CompleteAccessReview rid by_);
    match r with
    | Err _ => mret (WriteError 409 "could not complete review")
    | Ok _ => _ ← audit "access_review.complete" rid; mret (WriteJSON 200 "completed")
    end
  end.

Definition list_ : M store (reply (gmap uuid counted)) :=
  r ← db ListAccessReviews;
  mret (match r with Err _ => WriteError 500 "could not list reviews" | Ok m => WriteJSON 200 m end).
End handlers.
End store.

(** * Proofs *)
Lemma insert_items_perm rows m :
  (map_to_list (insert_items rows m)).*2 ≡ₚ rows ++ (map_to_list m).*2.
Proof.
  revert m. induction rows as [|r rows IH]; intros m; simpl; [done|].
  unfold insert_items in *. simpl. rewrite IH, map_to_list_insert by apply fresh_lookup. simpl.
  by rewrite Permutation_middle.
Qed.

Lemma insert_items_kept rows m k it : m !! k = Some it → insert_items rows m !! k = Some it.
Proof.
  revert m. induction rows as [|r rows IH]; intros m Hk; [done|]. apply IH.
  rewrite lookup_insert_ne; [done|]. intros <-. by rewrite fresh_lookup in Hk.
Qed.

Lemma insert_items_in rows m it : it ∈ rows → ∃ k, insert_items rows m !! k = Some it.
Proof.
  intros Hin. assert (it ∈ (map_to_list (insert_items rows m)).*2) as Hl.
  { rewrite insert_items_perm. apply elem_of_app. by left. }
  apply list_elem_of_fmap in Hl as ([k r] & -> & Hk%elem_of_map_to_list). by exists k.
Qed.

(** Items belong to campaigns that exist (the foreign key). *)
Definition items_ok (s : store) : Prop := ∀ k it, items s !! k = Some it → is_Some (reviews s !! it_review it).

Lemma count_perm rid p s l :
  (map_to_list (items s)).*2 ≡ₚ l →
  count_items rid p s = length (List.filter (λ it, bool_decide (it_review it = rid) && p it) l).
Proof.
  intros Hl. unfold count_items. apply Permutation_length. induction Hl; simpl; repeat case_match; try done.
  - by constructor.
  - by constructor.
  - by etrans.
Qed.

Lemma filter_all {A} (p : A → bool) l : (∀ x, x ∈ l → p x = true) → List.filter p l = l.
Proof.
  induction l as [|x l IH]; intros Hp; [done|]. simpl. rewrite Hp by apply list_elem_of_here.
  rewrite IH; [done|]. intros y Hy. apply Hp. by apply list_elem_of_further.
Qed.

Lemma filter_none {A} (p : A → bool) l : (∀ x, x ∈ l → p x = false) → List.filter p l = [].
Proof.
  induction l as [|x l IH]; intros Hp; [done|]. simpl. rewrite Hp by apply list_elem_of_here.
  apply IH. intros y Hy. apply Hp. by apply list_elem_of_further.
Qed.

(** A fresh campaign counts exactly its own rows. *)
Lemma count_snapshot p rid rows s s' :
  items_ok s → reviews s !! rid = None → items s' = insert_items rows (items s) →
  (∀ it, it ∈ rows → it_review it = rid ∧ p it = true) → count_items rid p s' = length rows.
Proof.
  intros Hok Hfresh Hi Hrows. rewrite (count_perm rid p s' (rows ++ (map_to_list (items s)).*2)).
  - rewrite List.filter_app, length_app, filter_all, filter_none; [simpl; lia|..].
    + intros it ([k r] & -> & Hk%elem_of_map_to_list)%list_elem_of_fmap. simpl.
      rewrite bool_decide_eq_false_2; [done|]. intros <-. apply Hok in Hk as [??]. congruence.
    + intros it [-> ->]%Hrows. by rewrite bool_decide_eq_true_2.
  - by rewrite Hi, insert_items_perm.
Qed.

Section quiet.
Context `{!Env store, !Quiet Env0} (pgx_sends : nat → nat → bool).

Definition plain (scope : ReviewScope) : Prop := Type_ scope ≠ "group" ∧ Type_ scope ≠ "user".

Lemma snapshot_plain rid scope s :
  plain scope → pgx_sends 1%nat 1%nat = true →
  snapshotGrants pgx_sends rid scope s =
    Ok (insert_items ((membership_item rid <$> elements (user_groups s)) ++
                      (direct_item rid <$> elements (host_users s))) (items s)).
Proof.
  intros [Hg Hu] Hp. unfold snapshotGrants, str_eqb.
  rewrite !bool_decide_eq_false_2, Hp by done. unfold insert_items. by rewrite foldl_app.
Qed.

Lemma snapshot_scoped rid scope s :
  (∀ n k, pgx_sends n k = true → n = k) → Type_ scope = "group" ∨ Type_ scope = "user" →
  ∃ e, snapshotGrants pgx_sends rid scope s = Err e.
Proof.
  intros Hp Ht. unfold snapshotGrants.
  assert (pgx_sends 1%nat 2%nat = false) as Hf by (apply not_true_is_false; intros ?%Hp; lia).
  rewrite Hf. destruct Ht as [-> | ->]; simpl.
  - destruct (GroupID scope); by eexists.
  - case_bool_decide; by eexists.
Qed.

(** a campaign with a scope can never be opened. The driver refuses a statement whose argument
    count is not its placeholder count; the scoped INSERTs number their argument as the review's. So
    whatever the state and whichever statements fail, a request scoped to a group or to users is
    answered 400 and leaves no campaign, item or audit row. *)
Theorem scoped_review_refused by_ rq n s :
  (∀ n k, pgx_sends n k = true → n = k) → Type_ (rq_scope rq) = "group" ∨ Type_ (rq_scope rq) = "user" →
  ∃ msg n', create pgx_sends by_ (Some rq) (World n s) = (WriteError 400 msg, World n' s).
Proof.
  intros Hp Ht. unfold create. destruct (str_eqb (rq_name rq) ""); [by eexists _, _|].
  assert (str_eqb (Type_ (rq_scope rq)) "" = false) as -> by (by destruct Ht as [-> | ->]).
  assert (∀ due m, ∃ e m', CreateAccessReview pgx_sends (rq_name rq) (rq_desc rq) (rq_scope rq) by_ due
    (World m s) = (Err e, World m' s)) as Hc.
  { intros due m. unfold CreateAccessReview. run_step. destruct (db_err m); [by eexists _, _|].
    unfold create_tx. destruct (snapshot_scoped (fresh (dom (reviews s))) (rq_scope rq) s) as [e ->]; [done..|].
    by eexists _, _. }
  cbv zeta. rewrite !run_bind. destruct (0 <? rq_due rq); run_step.
  - destruct (Hc (Some (clock n + wrap64 (rq_due rq * day))) (S n)) as (e & m' & ->). by eexists _, _.
  - destruct (Hc None n) as (e & m' & ->). by eexists _, _.
Qed.

Context (Hdb : ∀ n, db_err n = false).

(** The rows of a campaign over everything. *)
Definition all_rows (rid : uuid) (s : store) : list item :=
  (membership_item rid <$> elements (user_groups s)) ++ (direct_item rid <$> elements (host_users s)).

Definition snapshotted (rid : uuid) (rv : review) (s : store) : store :=
  Store (access s) (<[rid := rv]> (reviews s)) (insert_items (all_rows rid s) (items s)) (audits s).

Lemma create_plain_run by_ rq n s :
  rq_name rq ≠ "" → plain (rq_scope rq) → pgx_sends 1%nat 1%nat = true →
  let rid := fresh (dom (reviews s)) in
  ∃ rv n' s', let s1 := snapshotted rid rv s in
    create pgx_sends by_ (Some rq) (World n s) = (WriteJSON 201 (rid, counts rid rv s1), World n' s') ∧
    rv_status rv = "open" ∧ access s' = access s1 ∧ items s' = items s1 ∧ reviews s' = reviews s1.
Proof.
  intros Hname Hscope Hp rid.
  set (scope := if str_eqb (Type_ (rq_scope rq)) "" then MkScope "all" (GroupID (rq_scope rq)) (UserIDs (rq_scope rq))
                else rq_scope rq).
  assert (plain scope) as Hsc by (unfold scope; by destruct (str_eqb _ _)).
  assert (∀ m due, ∃ rv m', CreateAccessReview pgx_sends (rq_name rq) (rq_desc rq) scope by_ due (World m s) =
    (Ok (rid, counts rid rv (snapshotted rid rv s)), World m' (snapshotted rid rv s)) ∧ rv_status rv = "open") as Hc.
  { intros m due. unfold CreateAccessReview. run_step. rewrite Hdb. unfold create_tx. fold rid.
    rewrite snapshot_plain by done. cbn -[insert_items counts]. run_step. rewrite Hdb. cbn -[insert_items counts].
    rewrite lookup_insert_eq. cbn -[insert_items counts]. by eexists _, _. }
  unfold create. rewrite (proj2 (bool_decide_eq_false (rq_name rq = "")) Hname : str_eqb _ _ = false).
  fold scope. rewrite run_bind. destruct (0 <? rq_due rq); run_step;
    match goal with |- context [CreateAccessReview _ _ _ _ _ ?due (World ?m s)] =>
      destruct (Hc m due) as (rv & m' & -> & Hst) end;
    unfold audit; run_step; rewrite Hdb; by eexists rv, _, _.
Qed.

Lemma all_rows_review rid s it : it ∈ all_rows rid s → it_review it = rid ∧ decided_as "pending" it = true.
Proof using Type.
  by intros [(x & -> & _)%list_elem_of_fmap|(x & -> & _)%list_elem_of_fmap]%elem_of_app.
Qed.

Lemma items_ok_snapshotted rid rv s : items_ok s → items_ok (snapshotted rid rv s).
Proof using Type.
  intros Hok k it Hk. simpl in *.
  assert (it ∈ all_rows rid s ++ (map_to_list (items s)).*2) as Hin.
  { rewrite <- insert_items_perm. apply list_elem_of_fmap. exists (k, it). by rewrite elem_of_map_to_list. }
  apply elem_of_app in Hin as [[<- _]%all_rows_review|([k' r] & -> & Hk'%elem_of_map_to_list)%list_elem_of_fmap].
  - rewrite lookup_insert_eq. by eexists.
  - apply lookup_insert_is_Some'. right. eapply Hok, Hk'.
Qed.

(** a campaign over everything snapshots every grant, once. With the statements succeeding, the
    request is answered 201 with a new open campaign whose total - all of it pending - is the number
    of group memberships plus the number of direct grants; each of them has its item; the items of
    other campaigns and the grants themselves are untouched. *)
Theorem review_snapshots_every_grant by_ rq n s :
  rq_name rq ≠ "" → plain (rq_scope rq) → pgx_sends 1%nat 1%nat = true → items_ok s →
  ∃ rid c n' s', create pgx_sends by_ (Some rq) (World n s) = (WriteJSON 201 (rid, c), World n' s') ∧
    reviews s !! rid = None ∧ rv_status (ct_review c) = "open" ∧ access s' = access s ∧
    Total c = (size (user_groups s) + size (host_users s))%nat ∧ Pending c = Total c ∧
    (∀ ug, ug ∈ user_groups s → ∃ k, items s' !! k = Some (membership_item rid ug)) ∧
    (∀ hu, hu ∈ host_users s → ∃ k, items s' !! k = Some (direct_item rid hu)) ∧
    (∀ k it, items s !! k = Some it → items s' !! k = Some it) ∧ items_ok s'.
Proof.
  intros Hname Hscope Hp Hok.
  destruct (create_plain_run by_ rq n s Hname Hscope Hp) as (rv & n' & s' & Hrun & Hst & Ha & Hi & Hr).
  set (rid := fresh (dom (reviews s))) in *.
  assert (∀ p, (∀ it, it ∈ all_rows rid s → p it = true) →
    count_items rid p (snapshotted rid rv s) = length (all_rows rid s)) as Hcount.
  { intros p Hrows. eapply count_snapshot; [done|apply fresh_lookup|done|].
    intros it Hin. split; [by apply (all_rows_review rid s)|by apply Hrows]. }
  exists rid, (counts rid rv (snapshotted rid rv s)), n', s'. rewrite Hi. simpl. split_and!; try done.
  - apply fresh_lookup.
  - rewrite Hcount by done. unfold all_rows. by rewrite length_app, !length_fmap.
  - rewrite !Hcount; [done|done|]. intros it Hin. by apply (all_rows_review rid s).
  - intros ug Hug. apply insert_items_in, elem_of_app. left. by apply list_elem_of_fmap_2, elem_of_elements.
  - intros hu Hhu. apply insert_items_in, elem_of_app. right. by apply list_elem_of_fmap_2, elem_of_elements.
  - intros k it. apply insert_items_kept.
  - intros k it. rewrite Hi, Hr. by apply (items_ok_snapshotted rid rv s).
Qed.

(** The state a decision leaves: the item, and for a revocation its grant. *)
Lemma decide_tx_run rid id by_ decision note now s it :
  items s !! id = Some it → it_review it = rid →
  it_grant_kind it = "group_membership" ∨ it_grant_kind it = "direct_host" →
  ∃ a, decide_tx rid id by_ decision note now s =
    (Ok (Ok tt), Store a (reviews s) (<[id := decided_item it decision note by_ now]> (items s)) (audits s)) ∧
    a = if negb (str_eqb decision "revoke") then access s
        else if str_eqb (it_grant_kind it) "group_membership"
        then (HostAccess.RemoveUserFromGroup (it_subject it) (it_resource it) 0 (access s)).2
        else (HostAccess.RemoveUserFromHost (it_resource it) (it_subject it) 0 (access s)).2.
Proof using Type.
  intros Hi Hr Hk. unfold decide_tx, revoke_grant. rewrite Hi, bool_decide_eq_true_2 by done. simpl.
  destruct (str_eqb decision "revoke"); [|by eexists].
  destruct Hk as [-> | ->]; by eexists.
Qed.

(** a decision does what it says to the grant. Deciding an item of a campaign records the
    decision, the reviewer and the time in it and leaves every other item and campaign alone; a
    revocation removes exactly the item's membership or direct grant, and a keep removes nothing.
    The status of the campaign is not consulted: the items of a completed one change too. *)
Theorem review_decision_effect by_ rid id it decision note n s :
  decision = "keep" ∨ decision = "revoke" → items s !! id = Some it → it_review it = rid →
  it_grant_kind it = "group_membership" ∨ it_grant_kind it = "direct_host" →
  ∃ n' s', decide_ by_ (Some rid) (Some id) (Some (decision, note)) (World n s) = (WriteJSON 200 "ok", World n' s') ∧
    items s' = <[id := decided_item it decision note by_ (clock n)]> (items s) ∧ reviews s' = reviews s ∧
    (∀ ug, ug ∈ user_groups s' ↔ ug ∈ user_groups s ∧
       ¬ (decision = "revoke" ∧ it_grant_kind it = "group_membership" ∧ ug = (it_subject it, it_resource it))) ∧
    (∀ hu, hu ∈ host_users s' ↔ hu ∈ host_users s ∧
       ¬ (decision = "revoke" ∧ it_grant_kind it = "direct_host" ∧ hu = (it_resource it, it_subject it))).
Proof using Quiet0 Hdb.
  clear pgx_sends. intros Hd Hi Hr Hk.
  destruct (decide_tx_run rid id by_ decision note (clock n) s it Hi Hr Hk) as (a & Htx & Ha).
  unfold decide_, DecideReviewItem.
  assert (negb (str_eqb decision "keep") && negb (str_eqb decision "revoke") = false) as ->
    by (by destruct Hd as [-> | ->]).
  run_step. rewrite Hdb, Htx. cbn [fst snd]. run_step.
  assert (∃ n' e, ((if str_eqb decision "revoke" then audit "access_review.revoke" rid else mret tt) : M store unit)
    (World (S n) (Store a (reviews s) (<[id := decided_item it decision note by_ (clock n)]> (items s)) (audits s))) =
    (tt, World n' (Store a (reviews s) (<[id := decided_item it decision note by_ (clock n)]> (items s)) e))) as (n' & e & ->).
  { destruct (str_eqb decision "revoke"); [|by eexists _, _]. unfold audit. run_step. rewrite Hdb. by eexists _, _. }
  eexists _, _. split; [done|]. simpl. split_and!; [done..| |]; rewrite Ha; destruct Hd as [-> | ->];
    destruct Hk as [-> | ->]; simpl; set_solver.
Qed.
End quiet.

(** A keep does not bring a revoked grant back, and a completed campaign still changes: its evidence
    can be rewritten. *)
Definition ex_item : item := Item 1 2 "group_membership" "group" 20 "pending" "" None.
Definition ex_store : store :=
  Store HostAccess.toy_store {[1%N := Review "q1" "" (MkScope "all" None []) "completed" 1 0 None (Some (5, 1%N))]}
    {[7%N := ex_item]} [].
Definition ex_decide (d : string) (s : store) : store :=
  w_db (@decide_ quiet_env 1 (Some 1%N) (Some 7%N) (Some (d, "")) (World 9 s)).2.
Example keep_after_revoke :
  let s := ex_decide "keep" (ex_decide "revoke" ex_store) in
  (it_decision <$> items s !! 7%N) = Some "keep" ∧ user_groups s = ∅ ∧
  (rv_status <$> reviews s !! 1%N) = Some "completed".
Proof. by vm_compute. Qed.

(** * Witnesses *)
Definition ex_req (t : string) : createReq := MkCreate "q1" "" (MkScope t (Some 20%N) [2%N]) 7.

Lemma scoped_review_refused_witness :
  ∃ msg n', @create Nat.eqb quiet_env 1 (Some (ex_req "group")) (World 0 ex_store) = (WriteError 400 msg, World n' ex_store).
Proof.
  apply (@scoped_review_refused quiet_env _ Nat.eqb 1 (ex_req "group") 0 ex_store).
  - intros n k. apply Nat.eqb_eq.
  - by left.
Defined.

Lemma review_snapshots_every_grant_witness :
  ∃ rid c n' s', @create Nat.eqb quiet_env 1 (Some (ex_req "")) (World 0 ex_store) = (WriteJSON 201 (rid, c), World n' s') ∧
    Total c = 1%nat.
Proof.
  destruct (@review_snapshots_every_grant quiet_env _ Nat.eqb (λ _, eq_refl) 1 (ex_req "") 0 ex_store)
    as (rid & c & n' & s' & Hrun & _ & _ & _ & Ht & _).
  - done.
  - done.
  - done.
  - intros k it Hk. simpl in Hk. apply lookup_singleton_Some in Hk as [<- <-]. by eexists.
  - exists rid, c, n', s'. split; [done|]. by rewrite Ht.
Defined.

Lemma review_decision_effect_witness :
  ∃ n' s', @decide_ quiet_env 1 (Some 1%N) (Some 7%N) (Some ("revoke", "left")) (World 0 ex_store) =
    (WriteJSON 200 "ok", World n' s') ∧ (2%N, 20%N) ∉ user_groups s'.
Proof.
  destruct (@review_decision_effect quiet_env _ (λ _, eq_refl) 1 1 7 ex_item "revoke" "left" 0 ex_store)
    as (n' & s' & Hrun & _ & _ & Hug & _).
  - by right.
  - reflexivity.
  - reflexivity.
  - by left.
  - exists n', s'. split; [done|]. rewrite Hug. by intros [_ []].
Defined.
