(* ===== verification/Cluster.v ===== *)
(** Cluster membership and leader election: [cluster/cluster.go] over [store/cluster.go].

    Several instances run the same loop against one database. The state machine interleaves them
    statement by statement: a node is a running coordinator with the place its tick has reached, and
    a database session is a process id; the advisory lock belongs to a session, not to a node. To
    terminate a session only signals it; its end, like that of any session, is an event of its own. *)
From S2P Require Import Prelude.

Definition HeartbeatInterval : Z := 10 * second.
Definition Lease : Z := 30 * second.
Definition pruneGrace : Z := 5 * minute.

(** * State *)

(** Where a tick is: between ticks, at [pg_try_advisory_lock], at [HasLiveLeader], at
    [ReclaimAdvisoryLock], at the retry, at [Heartbeat], at [PruneDeadInstances]. *)
Inductive place := Idle | TryLock | CheckLive | Reclaim | Retry | Beat | Prune.
#[export] Instance place_eq_dec : EqDecision place.
Proof. solve_decision. Defined.

Abbreviation pid := N.

(** A [Coordinator]: [lockConn] is the session that holds its lock. *)
Record node := Node { at_ : place; lockConn : option pid; leader : bool }.

(** A row of [cluster_instances]. *)
Record instance := Instance { is_leader : bool; last_heartbeat : Z }.

Record state := State {
  now : Z;
  nodes : gmap uuid node;
  rows : gmap uuid instance;
  holder : option pid;
  sessions : gset pid;
  next_pid : pid;
  signalled : gset pid;   (* sessions [pg_terminate_backend] has told to end *)
}.

Definition set_nodes (s : state) m :=
  State (now s) m (rows s) (holder s) (sessions s) (next_pid s) (signalled s).
Definition set_rows (s : state) m :=
  State (now s) (nodes s) m (holder s) (sessions s) (next_pid s) (signalled s).

Definition move (i : uuid) (n : node) (s : state) : state := set_nodes s (<[i := n]> (nodes s)).
Definition goto (i : uuid) (n : node) (p : place) (s : state) : state :=
  move i (Node p (lockConn n) (leader n)) s.

(** * The statements *)
Definition RegisterInstance (i : uuid) (s : state) : state :=
  set_rows s (<[i := match rows s !! i with
                     | Some r => Instance (is_leader r) (now s)
                     | None => Instance false (now s)
                     end]> (rows s)).
Definition Heartbeat (i : uuid) (l : bool) (s : state) : state :=
  set_rows s (alter (λ _, Instance l (now s)) i (rows s)).
Definition UnregisterInstance (i : uuid) (s : state) : state := set_rows s (delete i (rows s)).
Definition fresh_beat (lease : Z) (s : state) (r : instance) : bool := now s - lease <? last_heartbeat r.
Definition HasLiveLeader (i : uuid) (lease : Z) (s : state) : bool :=
  existsb (λ kr, negb (bool_decide (kr.1 = i)) && is_leader kr.2 && fresh_beat lease s kr.2)
    (map_to_list (rows s)).
Definition LiveInstanceIDs (lease : Z) (s : state) : gset uuid :=
  dom (filter (λ kr, fresh_beat lease s kr.2 = true) (rows s)).
Definition PruneDeadInstances (grace : Z) (s : state) : state :=
  set_rows s (filter (λ kr, now s - grace ≤ last_heartbeat kr.2) (rows s)).

(** [deadOwnerPredicate]: the rows of a work table that reconciliation may fail. *)
Definition dead_owner (i : uuid) (lease : Z) (s : state) (owner : option uuid) : bool :=
  match owner with
  | None => true
  | Some o => negb (bool_decide (o = i)) &&
              negb (match rows s !! o with Some r => fresh_beat lease s r | None => false end)
  end.

(** The end of a session: its lock is released. *)
Definition end_session (p : pid) (s : state) : state :=
  State (now s) (nodes s) (rows s) (if bool_decide (holder s = Some p) then None else holder s)
    (sessions s ∖ {[p]}) (next_pid s) (signalled s).

(** [pg_try_advisory_lock] on a session fresh from the pool; a session that did not get the lock
    goes back to the pool and plays no further part. *)
Definition try_lock (s : state) : option (pid * state) :=
  match holder s with
  | Some _ => None
  | None =>
    let p := next_pid s in
    Some (p, State (now s) (nodes s) (rows s) (Some p) ({[p]} ∪ sessions s) (p + 1)%N (signalled s))
  end.

(** [ReclaimAdvisoryLock], run by a node that does not hold the lock: the number of sessions
    signalled. [pg_terminate_backend] only tells the holder's session to end; when it does, and its
    lock is released, is another event. *)
Definition ReclaimAdvisoryLock (s : state) : nat * state :=
  match holder s with
  | Some p => (1%nat, State (now s) (nodes s) (rows s) (holder s) (sessions s) (next_pid s)
                        ({[p]} ∪ signalled s))
  | None => (0%nat, s)
  end.

(** * The coordinator

    [act i ok s]: node [i] runs its next statement, which fails unless [ok], and what follows up to
    the statement after it. [tick] and [evaluateLeadership] are the cases in order. *)
Definition after_evaluate (i : uuid) (n : node) (s : state) : state := goto i n Beat s.

Definition act (i : uuid) (ok : bool) (s : state) : option state :=
  n ← nodes s !! i;
  Some match at_ n with
  | Idle =>
    (* the ping of a held connection, or straight on to the election *)
    match lockConn n with
    | Some p =>
      if ok && bool_decide (p ∈ sessions s) then after_evaluate i n s
      else move i (Node TryLock None false) s
    | None => goto i n TryLock s
    end
  | TryLock =>
    if ok then
      match try_lock s with
      | Some (p, s') => move i (Node Beat (Some p) true) s'
      | None => goto i n CheckLive s
      end
    else after_evaluate i n s
  | CheckLive =>
    if ok && negb (HasLiveLeader i Lease s) then goto i n Reclaim s else after_evaluate i n s
  | Reclaim =>
    if ok then
      let '(k, s') := ReclaimAdvisoryLock s in
      if (0 <? k)%nat then goto i n Retry s' else after_evaluate i n s'
    else after_evaluate i n s
  | Retry =>
    if ok then
      match try_lock s with
      | Some (p, s') => move i (Node Beat (Some p) true) s'
      | None => after_evaluate i n s
      end
    else after_evaluate i n s
  | Beat =>
    let s' := if ok then Heartbeat i (leader n) s else s in
    goto i n (if leader n then Prune else Idle) s'
  | Prune => goto i n Idle (if ok then PruneDeadInstances pruneGrace s else s)
  end.

(** [Run]: a boot registers the instance (its error is only logged) and ticks at once. *)
Definition boot (i : uuid) (ok : bool) (s : state) : option state :=
  match nodes s !! i with
  | Some _ => None
  | None => Some (move i (Node Idle None false) (if ok then RegisterInstance i s else s))
  end.

(** [Stop], which waits for an evaluation in progress: the lock is released, the row removed, and
    the process is gone. *)
Definition stoppable (p : place) : bool := bool_decide (p = Idle ∨ p = Beat ∨ p = Prune).
Definition Stop (i : uuid) (ok : bool) (s : state) : option state :=
  n ← nodes s !! i;
  if stoppable (at_ n) then
    let s1 := match lockConn n with Some p => end_session p s | None => s end in
    let s2 := set_nodes s1 (delete i (nodes s1)) in
    Some (if ok then UnregisterInstance i s2 else s2)
  else None.

(** What can happen. A crash leaves the node's session to the database, which ends it some time
    later ([Lose]), as it does with a signalled session; sessions also end while their node lives. *)
Inductive event :=
| Act (i : uuid) (ok : bool) | Boot (i : uuid) (ok : bool) | StopNode (i : uuid) (ok : bool)
| Crash (i : uuid) | Lose (p : pid) | Elapse (d : N).

Definition elapse (d : N) (s : state) : state :=
  State (now s + Z.of_N d) (nodes s) (rows s) (holder s) (sessions s) (next_pid s) (signalled s).

Definition exec (e : event) (s : state) : option state :=
  match e with
  | Act i ok => act i ok s
  | Boot i ok => boot i ok s
  | StopNode i ok => Stop i ok s
  | Crash i => Some (set_nodes s (delete i (nodes s)))
  | Lose p => Some (end_session p s)
  | Elapse d => Some (elapse d s)
  end.

Definition step : relation state := λ s s', ∃ e, exec e s = Some s'.
Definition init : state := State 0 ∅ ∅ None ∅ 0 ∅.
Definition reachable (s : state) : Prop := rtc step init s.

Fixpoint run (es : list event) (s : state) : option state :=
  match es with [] => Some s | e :: es' => s' ← exec e s; run es' s' end.

Lemma run_reachable es s : run es init = Some s → reachable s.
Proof.
  unfold reachable. generalize init. induction es as [|e es IH]; intros s0; simpl.
  - by intros [= ->].
  - intros (s1 & He & Hr)%bind_Some. eapply rtc_l; [by exists e|eauto].
Qed.

Lemma run_default_reachable es : reachable (default init (run es init)).
Proof. destruct (run es init) as [s|] eqn:Hr; [by eapply run_reachable|apply rtc_refl]. Qed.

(** * The invariant *)
Record Inv (s : state) : Prop := {
  inv_leader i n : nodes s !! i = Some n → leader n = bool_decide (is_Some (lockConn n));
  inv_evaluating i n : nodes s !! i = Some n → at_ n ∈ [TryLock; CheckLive; Reclaim; Retry] → lockConn n = None;
  inv_unique i j n m p : nodes s !! i = Some n → nodes s !! j = Some m →
    lockConn n = Some p → lockConn m = Some p → i = j;
  inv_holds i n p : nodes s !! i = Some n → lockConn n = Some p → p ∈ sessions s → holder s = Some p;
  inv_holder p : holder s = Some p → p ∈ sessions s;
  inv_conn i n p : nodes s !! i = Some n → lockConn n = Some p → (p < next_pid s)%N;
  inv_sessions p : p ∈ sessions s → (p < next_pid s)%N;
}.

(** A node replaced by one that holds the same connection or none. *)
Lemma Inv_move i n n' s :
  Inv s → nodes s !! i = Some n → leader n' = bool_decide (is_Some (lockConn n')) →
  (at_ n' ∈ [TryLock; CheckLive; Reclaim; Retry] → lockConn n' = None) →
  (lockConn n' = lockConn n ∨ lockConn n' = None) → Inv (move i n' s).
Proof.
  intros [H1 H2 H3 H4 H5 H6 H7] Hi Hl He Hc.
  assert (∀ j m p, <[i:=n']> (nodes s) !! j = Some m → lockConn m = Some p →
    ∃ m', nodes s !! j = Some m' ∧ lockConn m' = Some p) as Hback.
  { intros j m p Hj Hp. apply lookup_insert_Some in Hj as [[<- <-]|[_ Hj]]; [|eauto].
    exists n. split; [done|]. destruct Hc; congruence. }
  split; simpl.
  - intros j m [[<- <-]|[_ Hj]]%lookup_insert_Some; eauto.
  - intros j m [[<- <-]|[_ Hj]]%lookup_insert_Some; eauto.
  - intros j k m m' p Hj Hk Hm Hm'. destruct (Hback j m p) as (? & ? & ?); [done..|].
    destruct (Hback k m' p) as (? & ? & ?); [done..|]. eauto.
  - intros j m p Hj Hm. destruct (Hback j m p) as (? & ? & ?); eauto.
  - done.
  - intros j m p Hj Hm. destruct (Hback j m p) as (? & ? & ?); eauto.
  - done.
Qed.

Lemma Inv_rows s m : Inv s → Inv (set_rows s m).
Proof. intros [H1 H2 H3 H4 H5 H6 H7]. by split. Qed.

Lemma Inv_end_session p s : Inv s → Inv (end_session p s).
Proof.
  intros [H1 H2 H3 H4 H5 H6 H7]. split; simpl; [done..| | |done|].
  - intros i n q Hi Hq [Hin Hne]%elem_of_difference. rewrite bool_decide_eq_false_2; [eauto|].
    rewrite not_elem_of_singleton in Hne. rewrite (H4 i n q) by done. congruence.
  - intros q. case_bool_decide; [done|]. intros Hq. specialize (H5 _ Hq). set_solver.
  - intros q [Hin _]%elem_of_difference. auto.
Qed.

Lemma Inv_drop_node i s : Inv s → Inv (set_nodes s (delete i (nodes s))).
Proof.
  intros [H1 H2 H3 H4 H5 H6 H7]. split; simpl; try done;
    setoid_rewrite lookup_delete_Some; naive_solver.
Qed.

(** Taking the lock on a fresh session. *)
Lemma Inv_locked i n s p s' :
  Inv s → nodes s !! i = Some n → lockConn n = None → try_lock s = Some (p, s') →
  Inv (move i (Node Beat (Some p) true) s').
Proof.
  intros [H1 H2 H3 H4 H5 H6 H7] Hi Hn. unfold try_lock. destruct (holder s) eqn:Hh; [done|].
  intros [= <- <-]. split; simpl.
  - intros j m [[<- <-]|[_ Hj]]%lookup_insert_Some; [done|eauto].
  - intros j m [[<- <-]|[_ Hj]]%lookup_insert_Some; [simpl; set_solver|eauto].
  - intros j k m m' q Hj Hk Hm Hm'.
    apply lookup_insert_Some in Hj as [[<- <-]|[? Hj]]; apply lookup_insert_Some in Hk as [[<- <-]|[? Hk]]; simpl in *.
    + done.
    + injection Hm as <-. specialize (H6 _ _ _ Hk Hm'). lia.
    + injection Hm' as <-. specialize (H6 _ _ _ Hj Hm). lia.
    + eauto.
  - intros j m q [[<- <-]|[_ Hj]]%lookup_insert_Some Hq; simpl in *; [congruence|].
    intros [->%elem_of_singleton|Hin]%elem_of_union; [done|]. specialize (H4 _ _ _ Hj Hq Hin). done.
  - intros q [= <-]. set_solver.
  - intros j m q [[<- <-]|[_ Hj]]%lookup_insert_Some Hq; simpl in *.
    + injection Hq as <-. lia.
    + specialize (H6 _ _ _ Hj Hq). lia.
  - intros q [->%elem_of_singleton|Hin]%elem_of_union; [lia|]. specialize (H7 _ Hin). lia.
Qed.

Lemma goto_Inv i n p s :
  Inv s → nodes s !! i = Some n → (p ∈ [TryLock; CheckLive; Reclaim; Retry] → lockConn n = None) →
  Inv (goto i n p s).
Proof. intros HI Hi Hp. eapply (Inv_move i n); simpl; [done|done|by eapply inv_leader|done|by left]. Qed.

(** Where a node in an evaluation, or one that found no connection, stands. *)
Lemma evaluating i n s p :
  Inv s → nodes s !! i = Some n → at_ n = p → p ∈ [TryLock; CheckLive; Reclaim; Retry] → lockConn n = None.
Proof. intros HI Hi <- Hp. by eapply inv_evaluating. Qed.

Lemma end_session_nodes p s : nodes (end_session p s) = nodes s.
Proof. done. Qed.

Lemma Inv_reclaim s : Inv s → Inv (ReclaimAdvisoryLock s).2.
Proof.
  intros [H1 H2 H3 H4 H5 H6 H7]. unfold ReclaimAdvisoryLock. destruct (holder s) eqn:Hh; simpl; split; simpl;
    rewrite ?Hh; auto.
Qed.

Lemma Inv_act i ok s s' : Inv s → act i ok s = Some s' → Inv s'.
Proof.
  intros HI (n & Hi & Hs)%bind_Some. injection Hs as <-.
  assert (∀ p s1, Inv s1 → nodes s1 = nodes s → p ∉ [TryLock; CheckLive; Reclaim; Retry] → Inv (goto i n p s1)) as Hgo.
  { intros p s1 H1 Hn Hp. apply goto_Inv; [done|by rewrite Hn|]. by intros ?%Hp. }
  assert (Beat ∉ [TryLock; CheckLive; Reclaim; Retry]) by set_solver.
  assert (Prune ∉ [TryLock; CheckLive; Reclaim; Retry]) by set_solver.
  assert (Idle ∉ [TryLock; CheckLive; Reclaim; Retry]) by set_solver.
  destruct (at_ n) eqn:Hat.
  - destruct (lockConn n) as [p|] eqn:Hc.
    + destruct (_ && _); [by apply Hgo|]. eapply Inv_move; simpl; [done..|by right].
    + by apply goto_Inv.
  - assert (lockConn n = None) as Hc by (eapply evaluating; [done..|set_solver]).
    destruct ok; [|by apply Hgo]. destruct (try_lock s) as [[p s1]|] eqn:Ht; [by eapply Inv_locked|by apply goto_Inv].
  - assert (lockConn n = None) as Hc by (eapply evaluating; [done..|set_solver]).
    destruct (_ && _); [by apply goto_Inv|by apply Hgo].
  - assert (lockConn n = None) as Hc by (eapply evaluating; [done..|set_solver]).
    destruct ok; [|by apply Hgo]. pose proof (Inv_reclaim s HI) as HI1.
    destruct (ReclaimAdvisoryLock s) as [k s1] eqn:Hr. assert (nodes s1 = nodes s) as Hn.
    { unfold ReclaimAdvisoryLock in Hr. by destruct (holder s); simplify_eq. }
    destruct (0 <? k)%nat; [|by apply Hgo]. apply goto_Inv; [done|by rewrite Hn|done].
  - assert (lockConn n = None) as Hc by (eapply evaluating; [done..|set_solver]).
    destruct ok; [|by apply Hgo]. destruct (try_lock s) as [[p s1]|] eqn:Ht; [by eapply Inv_locked|by apply Hgo].
  - apply Hgo; [|by destruct ok|by destruct (leader n)]. destruct ok; [by apply Inv_rows|done].
  - apply Hgo; [|by destruct ok|done]. destruct ok; [by apply Inv_rows|done].
Qed.

Lemma Inv_boot i ok s s' : Inv s → boot i ok s = Some s' → Inv s'.
Proof.
  intros HI. unfold boot. destruct (nodes s !! i) eqn:Hi; [done|]. intros [= <-].
  assert (∀ s1, Inv s1 → nodes s1 = nodes s → Inv (move i (Node Idle None false) s1)) as Hm.
  { intros s1 [H1 H2 H3 H4 H5 H6 H7] Hn. split; simpl; try done;
      setoid_rewrite lookup_insert_Some; try naive_solver. }
  destruct ok; apply Hm; try done. by apply Inv_rows.
Qed.

Lemma Inv_stop i ok s s' : Inv s → Stop i ok s = Some s' → Inv s'.
Proof.
  intros HI (n & Hi & Hs)%bind_Some. destruct (stoppable _); [|done]. injection Hs as <-.
  assert (∀ s1, Inv s1 → Inv (set_nodes s1 (delete i (nodes s1)))) by (intros; by apply Inv_drop_node).
  destruct ok; [apply Inv_rows|]; destruct (lockConn n); auto using Inv_end_session.
Qed.

Lemma Inv_exec e s s' : Inv s → exec e s = Some s' → Inv s'.
Proof.
  intros HI. destruct e; simpl.
  - by apply Inv_act.
  - by apply Inv_boot.
  - by apply Inv_stop.
  - intros [= <-]. by apply Inv_drop_node.
  - intros [= <-]. by apply Inv_end_session.
  - intros [= <-]. destruct HI. by split.
Qed.

Lemma Inv_init : Inv init.
Proof. split; simpl; try done; setoid_rewrite lookup_empty; done. Qed.

Lemma Inv_reachable s : reachable s → Inv s.
Proof.
  unfold reachable. intros Hr. pose proof Inv_init as HI. revert HI. induction Hr as [|x y z [e He] _ IH]; eauto using Inv_exec.
Qed.

(** * The abstract lease: who has it, and who believes to have it *)
Inductive lease_step : option uuid * gset uuid → option uuid * gset uuid → Prop :=
| lease_acquire i B : lease_step (None, B) (Some i, {[i]} ∪ B)
| lease_lapse i B : lease_step (Some i, B) (None, B)
| lease_give_up i o B : lease_step (o, B) (if decide (o = Some i) then None else o, B ∖ {[i]})
| lease_keep x : lease_step x x.

(** The owner of a state: the node whose session holds the lock. *)
Definition owns (s : state) (i : uuid) : Prop :=
  ∃ n p, nodes s !! i = Some n ∧ lockConn n = Some p ∧ holder s = Some p.
Definition owner_is (s : state) (o : option uuid) : Prop :=
  match o with Some i => owns s i | None => ∀ i, ¬ owns s i end.
(** The nodes whose [IsLeader] answers true. *)
Definition believers (s : state) : gset uuid := dom (filter (λ kn, leader kn.2 = true) (nodes s)).

Lemma owns_unique s i j : Inv s → owns s i → owns s j → i = j.
Proof.
  intros HI (n & p & Hi & Hp & Hh) (m & q & Hj & Hq & Hh'). eapply (inv_unique s HI i j n m p); [done..|congruence].
Qed.

Lemma owner_exists s : Inv s → ∃ o, owner_is s o.
Proof.
  intros HI. destruct (holder s) as [p|] eqn:Hh; [|exists None; intros i (n & q & _ & _ & ?); congruence].
  destruct (decide (map_Exists (λ _ n, lockConn n = Some p) (nodes s))) as [(i & n & Hi & Hp)|Hn].
  - exists (Some i), n, p. done.
  - exists None. intros i (n & q & Hi & Hq & ?). apply Hn. exists i, n. split; [done|congruence].
Qed.

Lemma owner_unique s o o' : Inv s → owner_is s o → owner_is s o' → o = o'.
Proof.
  intros HI. destruct o as [i|], o' as [j|]; simpl; intros H1 H2; [|by destruct (H2 i)|by destruct (H1 j)|done].
  f_equal. by eapply owns_unique.
Qed.

Lemma elem_of_believers s i : i ∈ believers s ↔ ∃ n, nodes s !! i = Some n ∧ leader n = true.
Proof.
  unfold believers. rewrite elem_of_dom. split.
  - intros [n [??]%map_lookup_filter_Some]. by exists n.
  - intros (n & ? & ?). exists n. by apply map_lookup_filter_Some.
Qed.

(** What of a node the lease depends on; ownership and belief in these terms. *)
Definition view (s : state) : gmap uuid (option pid * bool) := (λ n, (lockConn n, leader n)) <$> nodes s.

Lemma owns_view s i : owns s i ↔ ∃ p b, view s !! i = Some (Some p, b) ∧ holder s = Some p.
Proof.
  unfold owns, view. setoid_rewrite lookup_fmap. split.
  - intros (n & p & -> & Hp & ?). exists p, (leader n). simpl. by rewrite Hp.
  - intros (p & b & (n & Hi & [= Hp _])%fmap_Some & ?). by exists n, p.
Qed.

Lemma believers_view s i : i ∈ believers s ↔ ∃ c, view s !! i = Some (c, true).
Proof.
  rewrite elem_of_believers. unfold view. setoid_rewrite lookup_fmap. split.
  - intros (n & -> & Hl). exists (lockConn n). simpl. by rewrite Hl.
  - intros (c & (n & Hi & [= _ Hl])%fmap_Some). by exists n.
Qed.

(** What a step does to the lock and to the nodes' connections and flags: one node takes the free
    lock; nothing but the end of the holder's session; or one node drops its connection or is new
    or gone. *)
Definition taken (s s' : state) : Prop :=
  ∃ i p, holder s = None ∧ holder s' = Some p ∧ view s' = <[i := (Some p, true)]> (view s).
Definition kept (s s' : state) : Prop := view s' = view s ∧ (holder s' = holder s ∨ holder s' = None).
Definition dropped (s s' : state) : Prop :=
  ∃ i, (view s' = delete i (view s) ∨ view s' = <[i := (None, false)]> (view s)) ∧
    (holder s' = holder s ∨ holder s' = None ∧ owns s i).

Lemma view_goto i n p s s1 : nodes s !! i = Some n → nodes s1 = nodes s → view (goto i n p s1) = view s.
Proof.
  intros Hi Hn. unfold view. simpl. rewrite Hn, fmap_insert. apply insert_id. by rewrite lookup_fmap, Hi.
Qed.

Lemma view_move i n s s1 : nodes s1 = nodes s → view (move i n s1) = <[i := (lockConn n, leader n)]> (view s).
Proof. intros Hn. unfold view. simpl. by rewrite Hn, fmap_insert. Qed.

Lemma kept_goto i n p s s1 :
  nodes s !! i = Some n → nodes s1 = nodes s → holder s1 = holder s → kept s (goto i n p s1).
Proof. intros Hi Hn Hh. split; [by apply view_goto|by left]. Qed.

Lemma taken_locked i s p s' : try_lock s = Some (p, s') → taken s (move i (Node Beat (Some p) true) s').
Proof.
  unfold try_lock. destruct (holder s) eqn:Hh; [done|]. intros [= <- <-]. exists i, (next_pid s).
  split_and!; [done..|by apply view_move].
Qed.

Lemma act_cases i ok s s' : act i ok s = Some s' → taken s s' ∨ kept s s' ∨ dropped s s'.
Proof.
  intros (n & Hi & Hs)%bind_Some. injection Hs as <-. unfold after_evaluate.
  pose proof (λ p s1, kept_goto i n p s s1 Hi) as Hk. pose proof (taken_locked i s) as Hl.
  destruct (at_ n).
  - destruct (lockConn n); [|by eauto]. destruct (_ && _); [by eauto|]. right; right. exists i.
    split; [right; by apply view_move|by left].
  - destruct ok; [|by eauto]. destruct (try_lock s) as [[q s1]|]; [by eauto|by eauto].
  - destruct (_ && _); by eauto.
  - destruct ok; [|by eauto]. unfold ReclaimAdvisoryLock. destruct (holder s) eqn:Hh; simpl; right; left; by apply Hk.
  - destruct ok; [|by eauto]. destruct (try_lock s) as [[q s1]|]; [by eauto|by eauto].
  - destruct ok; right; left; by apply Hk.
  - destruct ok; right; left; by apply Hk.
Qed.

Lemma kept_end_session p s : kept s (end_session p s).
Proof. split; [done|]. simpl. case_bool_decide; auto. Qed.

Lemma Stop_cases i ok s s' : Stop i ok s = Some s' → dropped s s'.
Proof.
  intros (n & Hi & Hs)%bind_Some. destruct (stoppable _); [|done]. injection Hs as <-. exists i. split.
  - left. unfold view. destruct ok, (lockConn n); simpl; by rewrite fmap_delete.
  - destruct (lockConn n) as [p|] eqn:Hc; [|destruct ok; by left].
    assert (holder (end_session p s) = holder s ∨ holder (end_session p s) = None ∧ owns s i) as Hh.
    { simpl. case_bool_decide; [right; split; [done|by exists n, p]|by left]. }
    by destruct ok.
Qed.

Lemma exec_cases e s s' : exec e s = Some s' → taken s s' ∨ kept s s' ∨ dropped s s'.
Proof.
  destruct e; simpl.
  - apply act_cases.
  - unfold boot. destruct (nodes s !! i) eqn:Hi; [done|]. intros [= <-]. right; right. exists i.
    split; [right; by destruct ok; apply view_move|left; by destruct ok].
  - intros ?. right; right. by eapply Stop_cases.
  - intros [= <-]. right; right. exists i. split; [left; unfold view; simpl; by rewrite fmap_delete|by left].
  - intros [= <-]. right; left. apply kept_end_session.
  - intros [= <-]. right; left. split; [done|by left].
Qed.

Lemma owns_dropped s s' i j :
  view s' = delete i (view s) ∨ view s' = <[i := (None, false)]> (view s) → holder s' = holder s →
  owns s' j ↔ owns s j ∧ j ≠ i.
Proof.
  intros Hv Hh. rewrite !owns_view, Hh.
  destruct Hv as [-> | ->]; destruct (decide (j = i)) as [->|]; simplify_map_eq; naive_solver.
Qed.

Lemma believers_dropped s s' i :
  view s' = delete i (view s) ∨ view s' = <[i := (None, false)]> (view s) → believers s' = believers s ∖ {[i]}.
Proof.
  intros Hv. apply set_eq. intros j. rewrite elem_of_difference, elem_of_singleton, !believers_view.
  destruct Hv as [-> | ->]; destruct (decide (j = i)) as [->|]; simplify_map_eq; naive_solver.
Qed.

Lemma lease_step_exec e s s' o o' :
  Inv s → exec e s = Some s' → owner_is s o → owner_is s' o' → lease_step (o, believers s) (o', believers s').
Proof.
  intros HI He Ho Ho'. pose proof (Inv_exec _ _ _ HI He) as HI'.
  destruct (exec_cases e s s' He) as [(i & p & Hh & Hh' & Hv)|[[Hv Hh]|(i & Hv & Hh)]].
  - assert (o = None) as ->. { destruct o as [j|]; [|done]. destruct Ho as (? & ? & _ & _ & ?). congruence. }
    rewrite (owner_unique s' o' (Some i)); [|done..|].
    + replace (believers s') with ({[i]} ∪ believers s); [constructor|]. apply set_eq. intros j.
      rewrite elem_of_union, elem_of_singleton, !believers_view, Hv.
      destruct (decide (j = i)) as [->|]; simplify_map_eq; naive_solver.
    + apply owns_view. exists p, true. by rewrite Hv, lookup_insert_eq.
  - assert (believers s' = believers s) as -> by (apply set_eq; intros j; by rewrite !believers_view, Hv).
    destruct Hh as [Hh|Hh].
    + rewrite (owner_unique s' o' o); [constructor|done..|].
      destruct o as [j|]; simpl in *; setoid_rewrite owns_view; rewrite Hv, Hh; by setoid_rewrite <-owns_view.
    + assert (o' = None) as ->. { destruct o' as [j|]; [|done]. destruct Ho' as (? & ? & _ & _ & ?). congruence. }
      destruct o; constructor.
  - rewrite (believers_dropped s s' i Hv).
    enough (o' = if decide (o = Some i) then None else o) as -> by constructor.
    apply (owner_unique s'); [done..|]. destruct Hh as [Hh|[Hh Hi]].
    + pose proof (λ j, owns_dropped s s' i j Hv Hh) as Hj.
      case_decide as Hd; [|destruct o as [j|]]; simpl in *; [|apply Hj; split; [done|congruence]|].
      * intros j [Hs Hne]%Hj. subst. destruct Hne. by apply (owns_unique s).
      * intros j [Hs _]%Hj. by eapply Ho.
    + rewrite (owner_unique s o (Some i)), decide_True by done. intros j (? & ? & _ & _ & ?). congruence.
Qed.

(** A believer holds the lock, or the session it held it on has ended. *)
Lemma believer_held s i :
  Inv s → i ∈ believers s →
  owns s i ∨ ∃ n p, nodes s !! i = Some n ∧ lockConn n = Some p ∧ p ∉ sessions s.
Proof.
  intros HI (n & Hi & Hl)%elem_of_believers. rewrite (inv_leader _ HI _ _ Hi) in Hl.
  apply bool_decide_eq_true in Hl as [p Hp]. destruct (decide (p ∈ sessions s)).
  - left. exists n, p. split_and!; [done..|by eapply inv_holds].
  - right. by exists n, p.
Qed.

Lemma owner_believes s i : Inv s → owns s i → i ∈ believers s.
Proof.
  intros HI (n & p & Hi & Hp & _). apply elem_of_believers. exists n. split; [done|].
  rewrite (inv_leader _ HI _ _ Hi), Hp. by apply bool_decide_eq_true.
Qed.

(** The reclaim is guarded. *)
Lemma signalled_by e s s' p :
  exec e s = Some s' → p ∈ signalled s' → p ∉ signalled s →
  holder s = Some p ∧ ∃ i n, e = Act i true ∧ nodes s !! i = Some n ∧ at_ n = Reclaim.
Proof.
  intros He Hin Hn.
  assert (signalled s' ≠ signalled s) as Hd by (by intros Heq; rewrite Heq in Hin).
  destruct e; simpl in He.
  - apply bind_Some in He as (n & Hi & [= <-]). unfold after_evaluate, try_lock, ReclaimAdvisoryLock in *.
    destruct (decide (at_ n = Reclaim)) as [Ha|Ha].
    2: { exfalso. apply Hd. destruct (at_ n); repeat case_match; by simplify_eq. }
    clear Hd. rewrite Ha in Hin. destruct ok; [|done]. destruct (holder s) as [q|] eqn:Hh; [|done].
    assert (p = q) by (simpl in Hin; set_solver). subst q. split; [done|]. by exists i, n.
  - unfold boot in He. repeat case_match; by simplify_eq.
  - apply bind_Some in He as (n & Hi & He). destruct (stoppable _); [|done]. injection He as <-.
    destruct Hd. by destruct ok, (lockConn n).
  - by simplify_eq.
  - by simplify_eq.
  - by simplify_eq.
Qed.

Lemma reclaim_entered e s s' i n' :
  exec e s = Some s' → nodes s' !! i = Some n' → at_ n' = Reclaim →
  (∃ n, nodes s !! i = Some n ∧ at_ n = Reclaim) ∨ e = Act i true ∧ HasLiveLeader i Lease s = false.
Proof.
  intros He Hi Ha.
  assert (∀ j n p s1, nodes s1 = nodes s → nodes (move j (Node p (lockConn n) (leader n)) s1) !! i = Some n' →
    p ≠ Reclaim → ∃ n, nodes s !! i = Some n ∧ at_ n = Reclaim) as Hgo.
  { intros j n p s1 Hn. simpl. rewrite Hn. intros [[<- <-]|[_ ?]]%lookup_insert_Some; [done|eauto]. }
  destruct e as [j ok|j ok|j ok|j|q|d]; simpl in He.
  - apply bind_Some in He as (n & Hj & [= <-]). unfold after_evaluate, try_lock, ReclaimAdvisoryLock, goto in *.
    destruct (at_ n) eqn:Hat; repeat case_match; simplify_eq; try (left; by eapply Hgo);
      simpl in Hi; apply lookup_insert_Some in Hi as [[<- <-]|[_ ?]]; eauto; try done.
    right. destruct ok; [|done]. split; [done|]. by destruct (HasLiveLeader _ _ _).
  - unfold boot in He. repeat case_match; simplify_eq; simpl in Hi;
      apply lookup_insert_Some in Hi as [[<- <-]|[_ ?]]; eauto; done.
  - apply bind_Some in He as (n & Hj & He). destruct (stoppable _); [|done]. injection He as <-.
    left. exists n'. split; [|done]. by destruct ok, (lockConn n); simpl in Hi; apply lookup_delete_Some in Hi as [_ ?].
  - simplify_eq. simpl in Hi. apply lookup_delete_Some in Hi as [_ ?]; eauto.
  - simplify_eq. eauto.
  - simplify_eq. eauto.
Qed.

(** * A whole tick of one node *)
Fixpoint acts (i : uuid) (k : nat) (s : state) : option state :=
  match k with O => Some s | S k' => s' ← act i true s; acts i k' s' end.

Lemma acts_S i k s : acts i (S k) s = act i true s ≫= acts i k.
Proof. done. Qed.

(** A node is at the end of a tick as the leader, and the roster says so. *)
Definition leads (i : uuid) (s : state) : Prop :=
  ∃ n p, nodes s !! i = Some n ∧ at_ n = Idle ∧ leader n = true ∧ lockConn n = Some p ∧ holder s = Some p.

(** From the acquisition to the end of the tick: the heartbeat and the pruning. *)
Lemma finish_tick i p s :
  nodes s !! i = Some (Node Beat (Some p) true) → holder s = Some p →
  ∃ s', acts i 2 s = Some s' ∧ leads i s' ∧
    (∀ r, rows s !! i = Some r → rows s' !! i = Some (Instance true (now s))).
Proof.
  intros Hi Hh. cbn [acts]. set (n := Node Beat (Some p) true).
  assert (act i true s = Some (goto i n Prune (Heartbeat i true s))) as -> by (unfold act; by rewrite Hi).
  cbn [mbind option_bind].
  assert (act i true (goto i n Prune (Heartbeat i true s)) =
    Some (move i (Node Idle (Some p) true) (PruneDeadInstances pruneGrace (goto i n Prune (Heartbeat i true s))))) as ->.
  { unfold act. simpl nodes. rewrite lookup_insert_eq. done. }
  eexists. split; [done|]. split.
  - eexists _, p. simpl. rewrite lookup_insert_eq. by split_and!.
  - intros r Hr. simpl. apply map_lookup_filter_Some. split.
    + by rewrite lookup_alter_eq, Hr.
    + simpl. unfold pruneGrace, minute, second. lia.
Qed.

Lemma start_election i n s :
  nodes s !! i = Some n → at_ n = Idle → lockConn n = None →
  act i true s = Some (goto i n TryLock s).
Proof. intros Hi Ha Hc. unfold act. rewrite Hi. cbn. by rewrite Ha, Hc. Qed.

Lemma HasLiveLeader_rows i lease s s' :
  rows s' = rows s → now s' = now s → HasLiveLeader i lease s' = HasLiveLeader i lease s.
Proof. intros Hr Hn. unfold HasLiveLeader, fresh_beat. by rewrite Hr, Hn. Qed.

(** The election when the lock is free. *)
Lemma elect_free i n s :
  nodes s !! i = Some n → at_ n = TryLock → holder s = None →
  ∃ s', acts i 3 s = Some s' ∧ leads i s' ∧ (∀ r, rows s !! i = Some r → rows s' !! i = Some (Instance true (now s))).
Proof.
  intros Hi Ha Hh. rewrite (acts_S i 2).
  assert (act i true s = Some (move i (Node Beat (Some (next_pid s)) true)
    (State (now s) (nodes s) (rows s) (Some (next_pid s)) ({[next_pid s]} ∪ sessions s) (next_pid s + 1)%N
       (signalled s)))) as ->.
  { unfold act. rewrite Hi. cbn. rewrite Ha. unfold try_lock. by rewrite Hh. }
  cbn [mbind option_bind]. edestruct finish_tick as (s' & -> & Hl & Hr); [by apply lookup_insert_eq|done|].
  exists s'. split; [done|]. split; [done|exact Hr].
Qed.

(** The election when the lock is stranded: up to the retry, having signalled the holder. *)
Lemma elect_stranded i n s p :
  nodes s !! i = Some n → at_ n = TryLock → holder s = Some p → HasLiveLeader i Lease s = false →
  ∃ s1, acts i 3 s = Some s1 ∧ nodes s1 !! i = Some (Node Retry (lockConn n) (leader n)) ∧
    p ∈ signalled s1 ∧ holder s1 = Some p ∧ rows s1 = rows s ∧ now s1 = now s.
Proof.
  intros Hi Ha Hh Hl. rewrite (acts_S i 2).
  assert (act i true s = Some (goto i n CheckLive s)) as ->.
  { unfold act. rewrite Hi. cbn. rewrite Ha. unfold try_lock. by rewrite Hh. }
  cbn [mbind option_bind]. rewrite (acts_S i 1).
  assert (act i true (goto i n CheckLive s) = Some (goto i n Reclaim s)) as ->.
  { unfold act. simpl nodes. rewrite lookup_insert_eq. cbn. rewrite (HasLiveLeader_rows i Lease s) by done.
    rewrite Hl. cbn. unfold goto, move, set_nodes. simpl. by rewrite insert_insert_eq. }
  cbn [mbind option_bind acts]. unfold act. simpl nodes. rewrite lookup_insert_eq. cbn.
  unfold ReclaimAdvisoryLock. simpl. rewrite Hh. cbn. eexists. split; [done|]. simpl.
  rewrite lookup_insert_eq. split_and!; [done|set_solver|done..].
Qed.

(** No other instance is a leader with a fresh heartbeat, said of the rows. *)
Definition no_live_leader (i : uuid) (s : state) : Prop :=
  ∀ j r, j ≠ i → rows s !! j = Some r → is_leader r = true → last_heartbeat r ≤ now s - 30 * second.

Lemma HasLiveLeader_false i s : HasLiveLeader i Lease s = false ↔ no_live_leader i s.
Proof.
  unfold HasLiveLeader, fresh_beat, Lease. rewrite <-not_true_iff_false, existsb_exists. split.
  - intros Hn j r Hj Hr Hl. apply Z.nlt_ge. intros Hlt. apply Hn. exists (j, r).
    split; [by apply list_elem_of_In, elem_of_map_to_list|]. simpl. rewrite Hl.
    rewrite bool_decide_eq_false_2 by done. by apply Z.ltb_lt.
  - intros Hno ([j r] & Hin%list_elem_of_In%elem_of_map_to_list & Hb). simpl in Hb.
    apply andb_true_iff in Hb as [[Hj Hl]%andb_true_iff Hf%Z.ltb_lt].
    apply negb_true_iff, bool_decide_eq_false in Hj. specialize (Hno j r Hj Hin Hl). lia.
Qed.

(** The retry when the signalled session has ended. *)
Lemma retry_free i n s :
  nodes s !! i = Some n → at_ n = Retry → holder s = None →
  ∃ s', acts i 3 s = Some s' ∧ leads i s' ∧ (∀ r, rows s !! i = Some r → rows s' !! i = Some (Instance true (now s))).
Proof.
  intros Hi Ha Hh. rewrite (acts_S i 2).
  assert (act i true s = Some (move i (Node Beat (Some (next_pid s)) true)
    (State (now s) (nodes s) (rows s) (Some (next_pid s)) ({[next_pid s]} ∪ sessions s) (next_pid s + 1)%N
       (signalled s)))) as ->.
  { unfold act. rewrite Hi. cbn. rewrite Ha. unfold try_lock. by rewrite Hh. }
  cbn [mbind option_bind]. edestruct finish_tick as (s' & -> & Hl & Hr); [by apply lookup_insert_eq|done|].
  exists s'. split; [done|]. split; [done|exact Hr].
Qed.

(** The retry when it has not: the tick ends as it began. *)
Lemma retry_held i s p :
  nodes s !! i = Some (Node Retry None false) → holder s = Some p →
  ∃ s', acts i 2 s = Some s' ∧ nodes s' !! i = Some (Node Idle None false) ∧ holder s' = Some p ∧
    (is_Some (rows s !! i) → is_Some (rows s' !! i)).
Proof.
  intros Hi Hh. rewrite (acts_S i 1).
  assert (act i true s = Some (goto i (Node Retry None false) Beat s)) as ->.
  { unfold act. rewrite Hi. cbn. unfold try_lock. by rewrite Hh. }
  cbn [mbind option_bind acts]. unfold act. simpl nodes. rewrite lookup_insert_eq. cbn.
  eexists. split; [done|]. simpl. rewrite lookup_insert_eq. split_and!; [done..|].
  rewrite lookup_alter_eq. by intros [r ->].
Qed.

(** A whole tick of a standby that finds the lock free. *)
Lemma tick_free i n s :
  nodes s !! i = Some n → at_ n = Idle → lockConn n = None → holder s = None →
  ∃ s', acts i 4 s = Some s' ∧ leads i s' ∧ (is_Some (rows s !! i) → rows s' !! i = Some (Instance true (now s))).
Proof.
  intros Hi Ha Hc Hh. rewrite acts_S, (start_election i n s Hi Ha Hc). cbn [mbind option_bind].
  destruct (elect_free i (Node TryLock (lockConn n) (leader n)) (goto i n TryLock s)) as (s' & Hs' & Hl & Hr);
    [simpl; by rewrite lookup_insert_eq|done|done|].
  exists s'. split_and!; [done..|]. intros [r ?]. by eapply Hr.
Qed.

(** * Properties *)

(** C11: leader election refines a lease. In every reachable state - any number of instances
    booting, stopping, crashing, failing statements and losing sessions, interleaved statement by
    statement - at most one node holds the advisory lock, that node reports itself leader, and a node
    that reports itself leader without holding it has lost the session it took the lock on. Every
    step is a step of the abstract lease of an owner and the nodes that report themselves leader: a
    node becomes one only by taking the lock when no node holds it, in the same step; the lock
    passes on only through a state in which nobody has it. The lock's session is told to end only by
    a node at its reclaim, which it reaches only on finding no other leader with a fresh heartbeat.
    (Two nodes can report themselves leader at once: one of them has lost its session.) *)
Theorem cluster_refines_lease s e s' :
  reachable s → exec e s = Some s' →
  (∀ i j, owns s i → owns s j → i = j) ∧ (∀ i, owns s i → i ∈ believers s) ∧
  (∀ i, i ∈ believers s →
     owns s i ∨ ∃ n p, nodes s !! i = Some n ∧ lockConn n = Some p ∧ p ∉ sessions s) ∧
  (∃ o o', owner_is s o ∧ owner_is s' o' ∧ lease_step (o, believers s) (o', believers s')) ∧
  (∀ p, p ∈ signalled s' → p ∉ signalled s →
     holder s = Some p ∧ ∃ i n, e = Act i true ∧ nodes s !! i = Some n ∧ at_ n = Reclaim) ∧
  (∀ i n', nodes s' !! i = Some n' → at_ n' = Reclaim →
     (∃ n, nodes s !! i = Some n ∧ at_ n = Reclaim) ∨ e = Act i true ∧ no_live_leader i s).
Proof.
  intros HI%Inv_reachable He. split_and!.
  - intros i j. by apply owns_unique.
  - intros i. by apply owner_believes.
  - intros i. by apply believer_held.
  - destruct (owner_exists s HI) as [o Ho]. destruct (owner_exists s') as [o' Ho']; [by eapply Inv_exec|].
    exists o, o'. split_and!; [done..|by eapply lease_step_exec].
  - intros p. by eapply signalled_by.
  - intros i n'. rewrite <-HasLiveLeader_false. by eapply reclaim_entered.
Qed.

(** C14: takeover within a tick. In any reachable state where no other instance is a leader with a
    fresh heartbeat, consider a standby whose tick runs undisturbed, no statement failing. If the
    lock is free the tick ends, after four statements, with it as the leader holding the lock, and
    the roster saying so if it is registered. If the lock is stranded on another session, the tick
    tells that session to end; once the database has ended it, the standby leads: at the end of this
    tick when that happens before its retry, and otherwise - it goes on as a standby - at the end of
    its next tick, however much later. *)
Theorem takeover_within_a_tick s i n :
  reachable s → nodes s !! i = Some n → at_ n = Idle → lockConn n = None → no_live_leader i s →
  match holder s with
  | None => ∃ s', acts i 4 s = Some s' ∧ leads i s' ∧
      (is_Some (rows s !! i) → rows s' !! i = Some (Instance true (now s)))
  | Some p => ∃ s1, acts i 4 s = Some s1 ∧ p ∈ signalled s1 ∧ holder s1 = Some p ∧
      (∃ s', acts i 3 (end_session p s1) = Some s' ∧ leads i s' ∧
         (is_Some (rows s !! i) → rows s' !! i = Some (Instance true (now s)))) ∧
      (∃ s2, acts i 2 s1 = Some s2 ∧ nodes s2 !! i = Some (Node Idle None false) ∧ holder s2 = Some p ∧
         ∀ d, ∃ s', acts i 4 (elapse d (end_session p s2)) = Some s' ∧ leads i s' ∧
           (is_Some (rows s !! i) → rows s' !! i = Some (Instance true (now s2 + Z.of_N d))))
  end.
Proof.
  intros Hre Hi Ha Hc Hl%HasLiveLeader_false. destruct (holder s) as [p|] eqn:Hh; [|by eapply tick_free].
  assert (leader n = false) as Hf.
  { rewrite (inv_leader _ (Inv_reachable _ Hre) _ _ Hi), Hc. apply bool_decide_eq_false. by intros [??]. }
  destruct (elect_stranded i (Node TryLock (lockConn n) (leader n)) (goto i n TryLock s) p)
    as (s1 & Hs1 & Hi1 & Hp & Hh1 & Hr1 & Hn1); [simpl; by rewrite lookup_insert_eq|done|done|..].
  { by rewrite (HasLiveLeader_rows i Lease s). }
  simpl in Hi1, Hr1, Hn1. rewrite Hc, Hf in Hi1. exists s1. rewrite acts_S, (start_election i n s Hi Ha Hc).
  assert (∀ s0, holder s0 = Some p → holder (end_session p s0) = None) as Hend.
  { intros s0 Hs0. simpl. by rewrite bool_decide_eq_true_2. }
  split_and!; [done..| |].
  - destruct (retry_free i (Node Retry None false) (end_session p s1)) as (s' & Hs' & Hlead & Hr); [done|done|by apply Hend|].
    exists s'. split_and!; [done..|]. simpl in Hr. rewrite Hr1, Hn1 in Hr. intros [r ?]. by eapply Hr.
  - destruct (retry_held i s1 p Hi1 Hh1) as (s2 & Hs2 & Hi2 & Hh2 & Hr2). exists s2. split_and!; [done..|].
    intros d. destruct (tick_free i (Node Idle None false) (elapse d (end_session p s2))) as (s' & Hs' & Hlead & Hr);
      [done|done|done|by apply (Hend s2)|].
    exists s'. split_and!; [done..|]. rewrite Hr1 in Hr2. intros Hrow. by apply Hr, Hr2.
Qed.

(** a leader that lost the lock finds out at its next tick. In every reachable state a node that
    takes itself for the leader either holds the lock, or the session it held it on has ended; in the
    second case the first statement of its next tick makes it step down, whether it fails or not, and
    in the first a successful ping leaves it the leader. *)
Theorem lost_leader_steps_down s i n ok :
  reachable s → nodes s !! i = Some n → leader n = true → at_ n = Idle →
  ∃ p s', lockConn n = Some p ∧ act i ok s = Some s' ∧
    (owns s i → ok = true → s' = goto i n Beat s) ∧
    (¬ owns s i → (p ∉ sessions s) ∧ s' = move i (Node TryLock None false) s).
Proof.
  intros HI%Inv_reachable Hi Hl Ha. rewrite (inv_leader _ HI _ _ Hi) in Hl.
  apply bool_decide_eq_true in Hl as [p Hp]. exists p. unfold act. rewrite Hi. cbn. rewrite Ha, Hp.
  eexists. split_and!; [done..| |].
  - intros (n' & q & Hi' & Hq & Hh) ->. rewrite Hi in Hi'. injection Hi' as <-. rewrite Hp in Hq. injection Hq as <-.
    rewrite bool_decide_eq_true_2; [done|]. by eapply inv_holder.
  - intros Hn. assert (p ∉ sessions s) as Hgone.
    { intros Hin. apply Hn. exists n, p. split_and!; [done..|]. by eapply inv_holds. }
    split; [done|]. rewrite bool_decide_eq_false_2, andb_false_r by done. done.
Qed.

(** Two instances boot together: the second finds the lock taken before the first has written the
    heartbeat that says who took it, and terminates its session. *)
Definition boot_race : list event :=
  [Boot 1 true; Boot 2 true;
   Act 1 true; Act 1 true;                         (* 1 takes the lock *)
   Act 2 true; Act 2 true; Act 2 true; Act 2 true; (* 2 finds no live leader, reclaims *)
   Lose 0;                                         (* the signalled session ends *)
   Act 2 true; Act 2 true; Act 2 true;             (* takes the lock, beats, prunes *)
   Act 1 true; Act 1 true].                        (* 1 beats as leader, prunes *)

(** two healthy instances can both lead. There is a reachable state, with no failure, no lost
    heartbeat and no time elapsed, in which both nodes take themselves for the leader and both roster
    rows say so with a heartbeat of this instant, while only one of them holds the lock. *)
Theorem two_leaders_reachable :
  ∃ s n m, reachable s ∧ nodes s !! 1%N = Some n ∧ nodes s !! 2%N = Some m ∧
    leader n = true ∧ leader m = true ∧ at_ n = Idle ∧ at_ m = Idle ∧
    rows s !! 1%N = Some (Instance true (now s)) ∧ rows s !! 2%N = Some (Instance true (now s)) ∧
    owns s 2 ∧ ¬ owns s 1.
Proof.
  destruct (run boot_race init) as [s|] eqn:Hr; [|by vm_compute in Hr].
  exists s. pose proof (run_reachable _ _ Hr) as Hre. vm_compute in Hr. injection Hr as <-.
  eexists _, _. split; [done|]. split_and!; try reflexivity.
  - by eexists _, _.
  - intros (n & p & Hn & Hp & Hh). vm_compute in Hn, Hh. by simplify_eq.
Qed.

(** reconciliation never fails a live instance's work, nor the caller's own: a row it may take is
    owned by nobody, or by another instance that is not registered or has not beaten within the
    lease, and such an owner is not among [LiveInstanceIDs]. *)
Theorem dead_owner_spec i lease s owner :
  dead_owner i lease s owner = true ↔
  match owner with
  | None => True
  | Some o => o ≠ i ∧ o ∉ LiveInstanceIDs lease s
  end.
Proof.
  destruct owner as [o|]; [|done]. simpl. rewrite andb_true_iff, !negb_true_iff, bool_decide_eq_false.
  unfold LiveInstanceIDs. rewrite elem_of_dom. split; intros [Hne Ho]; (split; [done|]).
  - intros [r [Hr Hf]%map_lookup_filter_Some]. rewrite Hr in Ho. simpl in Hf. congruence.
  - destruct (rows s !! o) as [r|] eqn:Hr; [|done]. destruct (fresh_beat lease s r) eqn:Hf; [|done].
    exfalso. apply Ho. exists r. by apply map_lookup_filter_Some.
Qed.

(** * Witnesses *)
Definition solo : list event := [Boot 1 true; Act 1 true; Act 1 true; Act 1 true; Act 1 true].

Definition before_lock : state := default init (run [Boot 1 true; Act 1 true] init).
Definition with_lock : state := default init (run [Boot 1 true; Act 1 true; Act 1 true] init).

Lemma cluster_refines_lease_witness :
  ∃ o o', owner_is before_lock o ∧ owner_is with_lock o' ∧
    lease_step (o, believers before_lock) (o', believers with_lock).
Proof.
  destruct (cluster_refines_lease before_lock (Act 1 true) with_lock) as (_ & _ & _ & Hs & _).
  - apply run_default_reachable.
  - by vm_compute.
  - exact Hs.
Defined.

(** Instance 1 leads and crashes; its session lingers past the lease; instance 2 has booted. *)
Definition stranded : list event := solo ++ [Crash 1; Elapse 31000000000; Boot 2 true].
Definition stranded_state : state := default init (run stranded init).

Lemma takeover_within_a_tick_witness :
  ∃ s1 s', acts 2 4 stranded_state = Some s1 ∧ acts 2 3 (end_session 0 s1) = Some s' ∧ leads 2 s'.
Proof.
  assert (holder stranded_state = Some 0%N) as Hh by (by vm_compute).
  pose proof (takeover_within_a_tick stranded_state 2 (Node Idle None false)) as Ht. rewrite Hh in Ht.
  destruct Ht as (s1 & H1 & _ & _ & (s' & H2 & H3 & _) & _).
  - apply run_default_reachable.
  - by vm_compute.
  - by vm_compute.
  - by vm_compute.
  - apply HasLiveLeader_false. by vm_compute.
  - exists s1, s'. exact (conj H1 (conj H2 H3)).
Defined.

Lemma lost_leader_steps_down_witness :
  ∃ s', act 1 true (default init (run boot_race init)) = Some s' ∧ (leader <$> nodes s' !! 1%N) = Some false.
Proof.
  destruct (lost_leader_steps_down (default init (run boot_race init)) 1 (Node Idle (Some 0%N) true) true)
    as (p & s' & Hp & Ha & _ & Hn).
  - apply run_default_reachable.
  - by vm_compute.
  - by vm_compute.
  - by vm_compute.
  - exists s'. split; [done|]. destruct Hn as [_ ->].
    + intros (n & q & Hi & Hq & Hh). vm_compute in Hi, Hh. injection Hi as <-. injection Hh as <-.
      discriminate Hq.
    + by vm_compute.
Defined.
