(* ===== verification/CertAuthority.v ===== *)
(** The certificate authority: [ca/ca.go] over the [ca_keys] table of [store/certs.go]. The CA's
    private keys are sealed with the envelopes of [SecretBox]; the signer in use lives in memory.
    Key generation, PEM and the public key formats are the class [Keys]. *)
From S2P Require Import Prelude.
From S2P Require Import SecretBox.

(** Keypairs, named by a number: [generate_key fips n] draws one with the [n]-th randomness. *)
Class Keys := {
  generate_key : bool → nat → option N;
  key_type : N → string;
  public_line : N → string;
  fingerprint : N → string;
  marshal_key : N → option bytes;
  parse_key : bytes → option N;
  parse_marshal k b : marshal_key k = Some b → parse_key b = Some k;
}.

(** A row of [ca_keys]. *)
Record ca_key := CaKey {
  ca_kind : string; ca_algo : string; ca_public : string; ca_private : bytes; ca_fingerprint : string;
  ca_active : bool; ca_created : Z; ca_retired : option Z;
}.

(** The table, the signer the process holds with the id of its row, and the actions audited. *)
Record store := Store { ca_keys : gmap uuid ca_key; signer : option (N * uuid); audits : list string }.

Definition set_keys (s : store) m := Store m (signer s) (audits s).
Definition set_signer (k : N) (id : uuid) (s : store) := Store (ca_keys s) (Some (k, id)) (audits s).

(** * The statements of [store/certs.go] *)
Definition InsertCAKey (kind algo public : string) (enc : bytes) (fp : string) (now : Z) (s : store)
    : res store_error uuid * store :=
  let id := fresh (dom (ca_keys s)) in
  (Ok id, set_keys s (<[id := CaKey kind algo public enc fp true now None]> (ca_keys s))).

Definition of_kind (kind : string) (s : store) : gmap uuid ca_key :=
  filter (λ kr, ca_kind kr.2 = kind ∧ ca_active kr.2 = true) (ca_keys s).

(** [ORDER BY created_at DESC LIMIT 1]. *)
Fixpoint newest (l : list (uuid * ca_key)) : option (uuid * ca_key) :=
  match l with
  | [] => None
  | x :: l' =>
    match newest l' with
    | Some y => Some (if ca_created y.2 <? ca_created x.2 then x else y)
    | None => Some x
    end
  end.

Definition GetActiveCAKey (kind : string) : Z → store → res store_error (uuid * ca_key) * store :=
  get_row (λ s, newest (map_to_list (of_kind kind s))).
Definition ActiveCACreatedAt (kind : string) : Z → store → res store_error Z * store :=
  get_row (λ s, (λ x, ca_created x.2) <$> newest (map_to_list (of_kind kind s))).
Definition ListCAKeys (now : Z) (s : store) : res store_error (gmap uuid ca_key) * store :=
  (Ok (ca_keys s), s).
Definition ListActiveCAPublicKeys (kind : string) (now : Z) (s : store)
    : res store_error (list string) * store :=
  (Ok ((λ x, ca_public x.2) <$> map_to_list (of_kind kind s)), s).
Definition retired (now : Z) (r : ca_key) : ca_key :=
  CaKey (ca_kind r) (ca_algo r) (ca_public r) (ca_private r) (ca_fingerprint r) false
    (ca_created r) (Some now).
Definition RetireCAKey (id : uuid) (now : Z) (s : store) : res store_error unit * store :=
  (Ok tt, set_keys s (alter (retired now) id (ca_keys s))).
Definition resealed (enc : bytes) (r : ca_key) : ca_key :=
  CaKey (ca_kind r) (ca_algo r) (ca_public r) enc (ca_fingerprint r) (ca_active r)
    (ca_created r) (ca_retired r).
Definition ReSealCAKey (id : uuid) (enc : bytes) (now : Z) (s : store) : res store_error unit * store :=
  (Ok tt, set_keys s (alter (resealed enc) id (ca_keys s))).
Definition AppendAudit (action : string) (now : Z) (s : store) : res store_error unit * store :=
  (Ok tt, Store (ca_keys s) (signer s) (audits s ++ [action])).

(** * The manager *)
Section ca.
Context `{!Env store, !Crypto, !Keys}.
(** The passphrase, the FIPS mode, the opt-in flag of the upgrade, and the randomness. *)
Context (passphrase : bytes) (fips reencrypt : bool).
Context (rnd : nat → rand_draw).

Definition encryptKey (k : N) : M store (option bytes) :=
  r ← draw rnd;
  mret (b ← marshal_key k;
        match SealBytes fips r passphrase b with Ok enc => Some enc | Err _ => None end).

Definition decryptSigner (enc : bytes) : option N :=
  match OpenBytes passphrase enc with Ok b => parse_key b | Err _ => None end.

(** [None] is success; the errors are only told apart by their source. *)
Definition generate : M store (option string) :=
  k ← draw (generate_key fips);
  match k with
  | None => mret (Some "generate key")
  | Some k =>
    enc ← encryptKey k;
    match enc with
    | None => mret (Some "encrypt key")
    | Some enc =>
      r ← db (InsertCAKey "user" (key_type k) (public_line k) enc (fingerprint k));
      match r with
      | Err _ => mret (Some "insert key")
      | Ok id => _ ← effect (set_signer k id); mret None
      end
    end
  end.

Definition Rotate : M store (option string) := generate.

Definition reSealActiveKey (id : uuid) (oldEnc : bytes) : M store unit :=
  r ← draw rnd;
  match OpenBytes passphrase oldEnc with
  | Err _ => mret tt
  | Ok plain =>
    match SealBytes fips r passphrase plain with
    | Err _ => mret tt
    | Ok newEnc =>
      match OpenBytes passphrase newEnc with
      | Ok check =>
        if bool_decide (check = plain) then _ ← db (ReSealCAKey id newEnc); mret tt else mret tt
      | Err _ => mret tt
      end
    end
  end.

Definition EnsureUserCA : M store (option string) :=
  r ← db (GetActiveCAKey "user");
  match r with
  | Err ErrNotFound => generate
  | Err ErrDB => mret (Some "load CA")
  | Ok (id, rec) =>
    match decryptSigner (ca_private rec) with
    | None => mret (Some "load CA signer")
    | Some k =>
      _ ← effect (set_signer k id);
      if reencrypt && NeedsReseal fips (ca_private rec)
      then _ ← reSealActiveKey id (ca_private rec); mret None
      else mret None
    end
  end.

Definition ResealActiveKey : M store (bool * option string) :=
  r ← db (GetActiveCAKey "user");
  match r with
  | Err _ => mret (false, Some "load CA")
  | Ok (id, rec) =>
    d ← draw rnd;
    match ResealBytes fips d passphrase (ca_private rec) with
    | (newEnc, true, None) =>
      r ← db (ReSealCAKey id newEnc);
      mret (match r with Ok _ => (true, None) | Err _ => (false, Some "reseal") end)
    | (_, _, None) => mret (false, None)
    | (_, _, Some _) => mret (false, Some "reseal")
    end
  end.

(** [ActiveKeyType], [ActiveID], [PublicKeyAuthorized] *)
Definition ActiveKeyType (s : store) : string := default "" (key_type ∘ fst <$> signer s).
Definition ActiveID (s : store) : option uuid := snd <$> signer s.
Definition PublicKeyAuthorized (s : store) : string := default "" (public_line ∘ fst <$> signer s).

(** * The handlers of [certificates/handlers.go] about the CA itself *)
Definition caPub : M store (reply (list string)) :=
  r ← db (ListActiveCAPublicKeys "user");
  mret (match r with
        | Ok (_ :: _ as keys) => WriteJSON 200 keys
        | _ => WriteError 503 "no active CA"
        end).

Definition listCA : M store (reply (gmap uuid ca_key * string)) :=
  r ← db ListCAKeys;
  match r with
  | Err _ => mret (WriteError 500 "could not list CAs")
  | Ok m => p ← peek PublicKeyAuthorized; mret (WriteJSON 200 (m, p))
  end.

Definition rotate : M store (reply (option uuid)) :=
  r ← Rotate;
  match r with
  | Some _ => mret (WriteError 500 "rotation failed")
  | None => _ ← db (AppendAudit "certificate.ca_rotate"); id ← peek ActiveID; mret (WriteJSON 200 id)
  end.

(** * Certificates *)

(** What a user certificate says, and the key that signed it. Times are seconds since the epoch. *)
Record certificate := Certificate {
  x_key : N; x_serial : Z; x_key_id : string; x_principals : list string;
  x_after : Z; x_before : Z; x_extensions : list string; x_signer : N;
}.

Definition extensions : list string :=
  ["permit-pty"; "permit-user-rc"; "permit-agent-forwarding"; "permit-port-forwarding"].

(** [time.Time.Unix], for instants after the epoch, and back. *)
Definition unix (t : Z) : Z := t / second.

(** [SignUserCertificate]; [sign_ok] tells whether the signature itself succeeds. *)
Definition SignUserCertificate (sign_ok : N → bool) (s : store) (pub : N) (keyID : string)
    (principals : list string) (serial validFor now : Z) : option certificate :=
  match signer s with
  | None => None
  | Some (k, _) =>
    if sign_ok k
    then Some (Certificate pub serial keyID principals (unix (now - minute)) (unix (now + validFor))
                 extensions k)
    else None
  end.
End ca.

(** * Proofs *)
Lemma newest_spec l x :
  newest l = Some x → x ∈ l ∧ ∀ y, y ∈ l → ca_created y.2 ≤ ca_created x.2.
Proof.
  revert x. induction l as [|a l IH]; intros x; simpl; [done|].
  destruct (newest l) as [b|] eqn:Hl.
  - destruct (IH b eq_refl) as [Hin Hmax]. intros [= <-]. split; [case_match; by constructor|].
    intros y [->|Hy]%elem_of_cons; [case_match; lia|]. specialize (Hmax y Hy). case_match; lia.
  - destruct l as [|c l]; [|simpl in Hl; by destruct (newest l)].
    intros [= <-]. split; [constructor|]. intros y [->|[]%elem_of_nil]%elem_of_cons. done.
Qed.

Lemma newest_none l : newest l = None → l = [].
Proof. destruct l as [|a l]; [done|]. simpl. by destruct (newest l). Qed.

Lemma of_kind_lookup kind s id r :
  of_kind kind s !! id = Some r ↔ ca_keys s !! id = Some r ∧ ca_kind r = kind ∧ ca_active r = true.
Proof. unfold of_kind. by rewrite map_lookup_filter_Some. Qed.

Lemma newest_of_kind kind s id r :
  newest (map_to_list (of_kind kind s)) = Some (id, r) →
  (ca_keys s !! id = Some r ∧ ca_kind r = kind ∧ ca_active r = true) ∧
  ∀ id' r', ca_keys s !! id' = Some r' → ca_kind r' = kind → ca_active r' = true →
    ca_created r' ≤ ca_created r.
Proof.
  intros [Hin Hmax]%newest_spec. apply elem_of_map_to_list, of_kind_lookup in Hin.
  split; [done|]. intros id' r' ???. apply (Hmax (id', r')), elem_of_map_to_list, of_kind_lookup. done.
Qed.


Section invariant.
Context `{!Env store, !Crypto, !CryptoLaws, !Keys} (pp : bytes) (fips re : bool) (rnd : nat → rand_draw).

(** A row whose sealed blob opens to the key its public line was taken from. *)
Definition opens (r : ca_key) (p : bytes) : Prop := OpenBytes pp (ca_private r) = Ok p.
Definition good_row (r : ca_key) : Prop := ∃ k,
  decryptSigner pp (ca_private r) = Some k ∧ ca_public r = public_line k ∧ ca_algo r = key_type k.
Definition has_row (id : uuid) (p : bytes) (s : store) : Prop :=
  ∃ r, ca_keys s !! id = Some r ∧ opens r p.

Record Inv (s : store) : Prop := {
  inv_rows : map_Forall (λ _, good_row) (ca_keys s);
  inv_signer : ∀ k id, signer s = Some (k, id) → ∃ p, has_row id p s ∧ parse_key p = Some k;
}.

(** No private key is lost and no public line changes. *)
Definition keeps (s s' : store) : Prop := ∀ id r p, ca_keys s !! id = Some r → opens r p →
  ∃ r', ca_keys s' !! id = Some r' ∧ opens r' p ∧ ca_public r' = ca_public r.
Definition R (s s' : store) : Prop := (Inv s → Inv s') ∧ keeps s s'.

Lemma decrypt_opens r k :
  decryptSigner pp (ca_private r) = Some k ↔ ∃ p, opens r p ∧ parse_key p = Some k.
Proof.
  unfold decryptSigner, opens. split.
  - destruct (OpenBytes _ _) as [p|]; [|done]. by exists p.
  - by intros (p & -> & ?).
Qed.

#[export] Instance R_preorder : PreOrder R.
Proof.
  split.
  - intros s. split; [done|]. intros id r k ??. by exists r.
  - intros s1 s2 s3 [I1 K1] [I2 K2]. split; [auto|]. intros id r k Hr Hk.
    destruct (K1 _ _ _ Hr Hk) as (r2 & Hr2 & Hk2 & E2).
    destruct (K2 _ _ _ Hr2 Hk2) as (r3 & ? & ? & E3). exists r3. by rewrite E3.
Qed.

Lemma has_row_keep id p s s' : has_row id p s → keeps s s' → has_row id p s'.
Proof. intros (r & Hr & Hk) K. destruct (K _ _ _ Hr Hk) as (r' & ? & ? & _). by exists r'. Qed.

#[export] Instance has_row_stable id p : Stable R (has_row id p).
Proof. intros s s' Hrow [_ K]. by eapply has_row_keep. Qed.

Lemma Inv_keep s s' :
  Inv s → keeps s s' → signer s' = signer s → map_Forall (λ _, good_row) (ca_keys s') → Inv s'.
Proof.
  intros [_ Hsig] K Hs Hrows. split; [done|]. intros k id. rewrite Hs. intros (p & Hp & ?)%Hsig.
  exists p. split; [by eapply has_row_keep | done].
Qed.

Lemma R_insert k p enc now s :
  OpenBytes pp enc = Ok p → parse_key p = Some k →
  let q := InsertCAKey "user" (key_type k) (public_line k) enc (fingerprint k) now s in
  R s q.2 ∧ ∀ id, q.1 = Ok id → has_row id p q.2.
Proof.
  intros Ho Hk. simpl. set (r := CaKey _ _ _ _ _ _ _ _). set (i := fresh _).
  assert (Hf : ca_keys s !! i = None) by apply fresh_lookup.
  assert (Hkeep : keeps s (set_keys s (<[i := r]> (ca_keys s)))).
  { intros id r0 k0 Hr0 Hk0. exists r0. split; [|done]. simpl.
    rewrite lookup_insert_ne; [done | congruence]. }
  split; [|intros id [= <-]; exists r; simpl; by rewrite lookup_insert_eq].
  split; [|done]. intros HI. eapply Inv_keep; [done..|]. apply map_Forall_insert_2; [|apply HI].
  exists k. split; [|done]. apply decrypt_opens. by exists p.
Qed.

Lemma R_set_signer k p id s : has_row id p s → parse_key p = Some k → R s (set_signer k id s).
Proof.
  intros Hrow Hk. split; [|intros i r k0 ??; by exists r].
  intros [Hrows Hsig]. split; [done|]. intros k0 id0 [= <- <-]. by exists p.
Qed.

Lemma R_reseal id p enc now s :
  has_row id p s → OpenBytes pp enc = Ok p → R s (ReSealCAKey id enc now s).2.
Proof.
  intros (r & Hr & Hp) He. unfold ReSealCAKey. simpl.
  assert (Hkeep : keeps s (set_keys s (alter (resealed enc) id (ca_keys s)))).
  { intros i r0 p0 Hr0 Hp0. simpl. destruct (decide (i = id)) as [->|].
    - exists (resealed enc r0). rewrite lookup_alter_eq, Hr0. split_and!; [done| |done].
      unfold opens in *. simpl. congruence.
    - exists r0. by rewrite lookup_alter_ne. }
  split; [|done]. intros HI. eapply Inv_keep; [done..|].
  intros i r0. simpl. rewrite lookup_alter. case_decide as Hi; [|apply HI].
  subst i. rewrite Hr. intros [= <-]. destruct (inv_rows _ HI _ _ Hr) as (k & Hk & ? & ?).
  exists k. simpl. split; [|done]. revert Hk. unfold decryptSigner, opens in *. by rewrite Hp, He.
Qed.

Context `{!Relies R} (Hdraw : ∀ n, good_draw (rnd n)).

#[local] Ltac ret := by (apply guar_ret; [exact _|]).

Lemma guar_encryptKey k :
  guar R (λ _, True) (encryptKey pp fips rnd k)
    (λ o _, ∀ enc, o = Some enc → ∃ p, OpenBytes pp enc = Ok p ∧ parse_key p = Some k).
Proof using H0 Hdraw.
  unfold encryptKey.
  eapply guar_bind; [exact _|apply (guar_draw _ _ _ (λ d _, good_draw d)); by eauto|].
  intros d. apply guar_ret; [exact _|]. intros s Hd enc.
  destruct (marshal_key k) as [b|] eqn:Hm; [|done]. simpl.
  destruct (SealBytes fips d pp b) as [raw|] eqn:Hs; [|done]. intros [= <-].
  exists b. split; [|by apply parse_marshal]. by apply (OpenBytes_SealBytes _ _ _ _ _ Hd Hs).
Qed.

Lemma guar_set_signer k p id :
  parse_key p = Some k → guar R (has_row id p) (effect (set_signer k id)) (λ _, has_row id p).
Proof using Type. intros Hk w Hw. split; [by eapply R_set_signer | exact Hw]. Qed.

Lemma within_generate : within R (generate pp fips rnd).
Proof using H0 Relies0 Hdraw.
  unfold generate. eapply guar_bind; [exact _|by apply (guar_draw _ _ _ (λ _ _, True))|].
  intros [k|]; [|ret]. eapply guar_bind; [exact _|apply guar_encryptKey|].
  intros [enc|]; [|ret].
  eapply (guar_weaken _ _ (λ s, True ∧ ∃ p, OpenBytes pp enc = Ok p ∧ parse_key p = Some k)); [|by eauto].
  apply guar_pure. intros (p & Ho & Hk).
  eapply guar_bind; [exact _| |].
  - apply (guar_db _ _ (λ r s, ∀ id, r = Ok id → has_row id p s)); [done|].
    intros now s _. by apply R_insert.
  - intros [id|]; [|ret].
    eapply guar_bind; [exact _| |intros; ret].
    eapply guar_weaken; [by eapply guar_set_signer|]. intros s Hs. by apply Hs.
Qed.

Lemma guar_reseal_step id p enc :
  OpenBytes pp enc = Ok p → guar R (has_row id p) (db (ReSealCAKey id enc)) (λ _ _, True).
Proof using Relies0.
  intros Henc. apply guar_db; [exact _..|done|]. intros now s Hrow. split; [by eapply R_reseal|done].
Qed.

Lemma guar_reSealActiveKey id p old :
  OpenBytes pp old = Ok p → guar R (has_row id p) (reSealActiveKey pp fips rnd id old) (λ _ _, True).
Proof using Relies0.
  intros Hold. unfold reSealActiveKey.
  eapply guar_bind; [exact _|by apply (guar_draw _ _ _ (λ _, has_row id p))|].
  intros d. rewrite Hold.
  destruct (SealBytes fips d pp p) as [new|]; [|ret].
  destruct (OpenBytes pp new) as [check|] eqn:Hc; [|ret].
  case_bool_decide as Heq; [|ret]. subst check.
  eapply guar_bind; [exact _|by apply guar_reseal_step|intros; ret].
Qed.

(** The row that was read is in the table, and stays openable. *)
Lemma guar_get_active kind :
  guar R (λ _, True) (db (GetActiveCAKey kind))
    (λ r s, ∀ id rec p, r = Ok (id, rec) → opens rec p → has_row id p s).
Proof using Relies0.
  apply guar_db; [exact _..|done|]. intros now s _. split; [reflexivity|].
  intros id rec k. simpl. case_match eqn:Hn; [|done]. intros [= ->] Hk.
  apply newest_of_kind in Hn as [(Hr & _) _]. by exists rec.
Qed.

Lemma within_EnsureUserCA : within R (EnsureUserCA pp fips re rnd).
Proof using H0 Relies0 Hdraw.
  unfold EnsureUserCA. eapply guar_bind; [exact _|apply guar_get_active|].
  intros [[id rec]|[]]; [|apply guar_within, within_generate|ret].
  destruct (decryptSigner pp (ca_private rec)) as [k|] eqn:Hk; [|ret].
  apply decrypt_opens in Hk as (p & Ho & Hk).
  eapply guar_bind; [exact _| |].
  { eapply guar_weaken; [by eapply guar_set_signer|]. intros s Hs. by apply (Hs id rec). }
  intros []. case_match; [|ret].
  eapply guar_bind; [exact _|by eapply guar_reSealActiveKey|intros; ret].
Qed.

Lemma within_ResealActiveKey : within R (ResealActiveKey pp fips rnd).
Proof using Relies0.
  unfold ResealActiveKey. eapply guar_bind; [exact _|apply guar_get_active|].
  intros [[id rec]|]; [|ret].
  eapply guar_bind; [exact _|by apply (guar_draw _ _ _ (λ _ s, ∀ p, opens rec p → has_row id p s)); eauto|].
  intros d. destruct (ResealBytes fips d pp (ca_private rec)) as [[new ch] e] eqn:Hr.
  apply ResealBytes_same in Hr as [[-> ->]|(-> & -> & _ & p & Ho & Hn & _)];
    [destruct e; ret|].
  eapply guar_bind; [exact _| |intros []; ret].
  eapply guar_weaken; [by apply (guar_reseal_step id p)|]. intros s Hs. by apply Hs.
Qed.

(** The CA operations a process serves. *)
Inductive ca_op := OpEnsure | OpRotate | OpReseal | OpList.
Definition serve (op : ca_op) : M store unit :=
  match op with
  | OpEnsure => _ ← EnsureUserCA pp fips re rnd; mret tt
  | OpRotate => _ ← rotate pp fips rnd; mret tt
  | OpReseal => _ ← ResealActiveKey pp fips rnd; mret tt
  | OpList => _ ← caPub; _ ← listCA; mret tt
  end.

Lemma R_audit a now s : R s (AppendAudit a now s).2.
Proof using Type. split; [intros [Hr Hs]; by split|]. intros id r p ??. by exists r. Qed.

Lemma within_rotate : within R (rotate pp fips rnd).
Proof using H0 Relies0 Hdraw.
  unfold rotate. apply within_bind; [exact _|apply within_generate|]. intros [e|]; [ret|].
  pose proof R_audit. within_tac.
Qed.

Lemma within_ca_serve op : within R (serve op).
Proof using H0 Relies0 Hdraw.
  destruct op; [| | |unfold serve, caPub, listCA, ListActiveCAPublicKeys, ListCAKeys; within_tac; ret];
    (apply within_bind; [exact _| |intros; ret]);
    [apply within_EnsureUserCA|apply within_rotate|apply within_ResealActiveKey].
Qed.
End invariant.

Section boot.
Context `{!Env store, !Quiet Env0, !Crypto, !CryptoLaws, !Keys} (pp : bytes) (fips re : bool) (rnd : nat → rand_draw).

(** A row up to the envelope of its private key. *)
Definition same_key (s s' : store) : Prop := ∀ id r,
  ca_keys s !! id = Some r → ∃ enc, ca_keys s' !! id = Some (resealed enc r).

Lemma reSealActiveKey_frame id old n s :
  let w := (reSealActiveKey pp fips rnd id old (World n s)).2 in
  signer (w_db w) = signer s ∧ same_key s (w_db w).
Proof.
  assert (Hsame : same_key s s).
  { intros i r Hr. exists (ca_private r). by destruct r. }
  unfold reSealActiveKey. run_step. repeat (case_match; try done).
  run_step. destruct (db_err n); [done|]. simpl. split; [done|].
  intros i r Hr. simpl. destruct (decide (i = id)) as [->|].
  - rewrite lookup_alter_eq, Hr. by exists a0.
  - rewrite lookup_alter_ne by done. by apply Hsame.
Qed.

Lemma generate_frame n s w :
  generate pp fips rnd (World n s) = (None, w) →
  ∃ k id r, signer (w_db w) = Some (k, id) ∧ of_kind "user" (w_db w) !! id = Some r.
Proof.
  unfold generate, encryptKey. run_step.
  destruct (generate_key fips n) as [k|]; [|done]. run_step.
  destruct (b ← marshal_key k; _) as [enc|]; [|done]. run_step.
  destruct (db_err n); [done|]. run_step. intros [= <-]. simpl.
  eexists k, _, _. split; [done|]. apply of_kind_lookup. simpl. by rewrite lookup_insert_eq.
Qed.

Lemma EnsureUserCA_frame n s w :
  EnsureUserCA pp fips re rnd (World n s) = (None, w) →
  ∃ k id r, signer (w_db w) = Some (k, id) ∧ of_kind "user" (w_db w) !! id = Some r ∧
    ∀ id' r', of_kind "user" s !! id' = Some r' → ca_created r' ≤ ca_created r.
Proof.
  unfold EnsureUserCA. run_step. destruct (db_err n); [done|]. unfold GetActiveCAKey, get_row, reading.
  simpl. destruct (newest (map_to_list (of_kind "user" s))) as [[id rec]|] eqn:Hn; simpl.
  - apply newest_of_kind in Hn as [(Hr & Hkind & Hact) Hmax].
    destruct (decryptSigner pp (ca_private rec)) as [k|]; [|done]. run_step.
    assert (Hall : ∀ id' r', of_kind "user" s !! id' = Some r' → ca_created r' ≤ ca_created rec).
    { intros id' r' (?&?&?)%of_kind_lookup. by eapply Hmax. }
    case_match.
    + pose proof (reSealActiveKey_frame id (ca_private rec) (S n) (set_signer k id s)) as [Hs Hk].
      rewrite run_bind. intros [= <-]. rewrite Hs. destruct (Hk id rec Hr) as [enc Henc].
      exists k, id, (resealed enc rec). split_and!; [done| |done]. by apply of_kind_lookup.
    + intros [= <-]. exists k, id, rec. split_and!; [done| |done]. by apply of_kind_lookup.
  - intros (k & id & r & Hs & Hr)%generate_frame. exists k, id, r. split_and!; [done..|].
    apply newest_none, map_to_list_empty_iff in Hn. intros id' r'. by rewrite Hn.
Qed.
End boot.

(** * Properties *)

(** no CA key is ever lost. Whatever boots, rotations and re-sealing sweeps run, interleaved with
    those of other servers and with any statement failing, every row of [ca_keys] keeps its public
    key and stays openable to the same private key, so that every row that was usable is usable and
    the signer in memory is a key of the table. *)
Theorem ca_keys_recoverable `{!Env store, !Crypto, !CryptoLaws, !Keys} pp fips re rnd op (w : world store) :
  Relies (R pp) → (∀ n, good_draw (rnd n)) → Inv pp (w_db w) →
  let w' := (serve pp fips re rnd op w).2 in
  Inv pp (w_db w') ∧
  ∀ id r k, ca_keys (w_db w) !! id = Some r → decryptSigner pp (ca_private r) = Some k →
    ∃ r', ca_keys (w_db w') !! id = Some r' ∧ decryptSigner pp (ca_private r') = Some k ∧
          ca_public r' = ca_public r.
Proof.
  intros Hrel Hd HI w'. destruct (within_ca_serve pp fips re rnd Hd op w I) as [[HI' K] _].
  split; [by apply HI'|]. intros id r k Hr (p & Hp & Hk)%decrypt_opens.
  destruct (K _ _ _ Hr Hp) as (r' & ? & ? & ?). exists r'. split_and!; [done| |done].
  apply decrypt_opens. by exists p.
Qed.

(** a server that has loaded its CA signs with a key the hosts are told to trust. When
    [EnsureUserCA] succeeds - loading the newest active key, or generating the first one - the
    signer is a newest active user key, and every certificate signed in that state verifies under
    one of the public keys served to hosts, carries exactly the serial and principals asked for, and
    is valid from a minute ago until at most the lifetime asked for, in whole seconds. *)
Theorem boot_signs_with_trusted_key `{!Env store, !Quiet Env0, !Crypto, !CryptoLaws, !Keys}
    pp fips re rnd n s w :
  (∀ n, good_draw (rnd n)) → Inv pp s → EnsureUserCA pp fips re rnd (World n s) = (None, w) →
  (∃ k id r, signer (w_db w) = Some (k, id) ∧ of_kind "user" (w_db w) !! id = Some r ∧
     ∀ id' r', of_kind "user" s !! id' = Some r' → ca_created r' ≤ ca_created r) ∧
  ∀ sign_ok pub keyID ps serial ttl now x,
    SignUserCertificate sign_ok (w_db w) pub keyID ps serial ttl now = Some x →
    (∃ keys, (ListActiveCAPublicKeys "user" now (w_db w)).1 = Ok keys ∧
             public_line (x_signer x) ∈ keys) ∧
    x_serial x = serial ∧ x_principals x = ps ∧
    x_after x * second ≤ now - minute ∧ now + ttl - second < x_before x * second ≤ now + ttl.
Proof.
  intros Hd HI Hrun. pose proof (EnsureUserCA_frame _ _ _ _ _ _ _ Hrun) as (k & id & r & Hs & Hr & Hmax).
  split; [by exists k, id, r|].
  assert (HI' : Inv pp (w_db w)).
  { assert (Relies (R pp)) by (intros ??; rewrite quiet; reflexivity).
    pose proof (within_EnsureUserCA pp fips re rnd Hd (World n s) I) as [[HI' _] _].
    rewrite Hrun in HI'. by apply HI'. }
  intros sign_ok pub keyID ps serial ttl now x. unfold SignUserCertificate. rewrite Hs.
  destruct (sign_ok k); [|done]. intros [= <-]. simpl.
  unfold unix, minute, second.
  split_and!; [|done|done|Z.to_euclidean_division_equations; lia..]. eexists. split; [done|].
  apply list_elem_of_fmap. exists (id, r). split; [|by apply elem_of_map_to_list]. simpl.
  apply of_kind_lookup in Hr as (Hr & _). destruct (inv_signer _ _ HI' _ _ Hs) as (p & (r0 & Hr0 & Ho) & Hk).
  assert (r0 = r) as -> by congruence. destruct (inv_rows _ _ HI' _ _ Hr) as (k' & Hk' & -> & _).
  assert (decryptSigner pp (ca_private r) = Some k) by (apply decrypt_opens; by exists p).
  simpl. congruence.
Qed.

(** * Witnesses *)
Definition toy_keys : Keys.
Proof.
  refine {|
    generate_key _ _ := Some 7%N;
    key_type _ := "ssh-ed25519"; public_line _ := "ssh-ed25519 AAAA"; fingerprint _ := "SHA256:x";
    marshal_key k := if decide (k = 7%N) then Some [Byte.x07] else None;
    parse_key b := match b with [Byte.x07] => Some 7%N | _ => None end;
  |}.
  intros k b. case_decide; [by intros [= <-]; subst|done].
Defined.


#[local] Existing Instances toy_crypto toy_keys.
Definition boot_run : option string * world store :=
  EnsureUserCA (Env0:=quiet_env) [] false true (λ _, toy_draw) (World 0 (Store ∅ None [])).
Example boot_run_ok : boot_run.1 = None ∧ signer (w_db boot_run.2) = Some (7%N, 0%N).
Proof. by vm_compute. Qed.

Lemma ca_inv_empty pp : Inv pp (Store ∅ None []).
Proof. split; [apply map_Forall_empty | done]. Qed.

#[local] Existing Instance toy_laws.
Lemma toy_relies : @Relies store quiet_env (R []).
Proof. intros n s. simpl. reflexivity. Qed.

Lemma boot_inv : Inv [] (w_db boot_run.2).
Proof.
  split.
  - assert (Hm : ca_keys (w_db boot_run.2) = {[0%N := snd (default (0%N, CaKey "" "" "" [] "" false 0 None)
      (head (map_to_list (ca_keys (w_db boot_run.2)))))]}) by (by vm_compute).
    rewrite Hm. apply map_Forall_singleton. exists 7%N. by vm_compute.
  - intros k id. vm_compute. intros [= <- <-]. exists [Byte.x07]. split; [|done].
    eexists. by split.
Qed.

Lemma ca_keys_recoverable_witness :
  Inv [] (w_db (serve (Env0:=quiet_env) [] false true (λ _, toy_draw) OpRotate boot_run.2).2).
Proof.
  exact (proj1 (ca_keys_recoverable (Env0:=quiet_env) [] false true (λ _, toy_draw)
    OpRotate boot_run.2 toy_relies (λ _, toy_draw_good) boot_inv)).
Defined.

Lemma boot_signs_with_trusted_key_witness :
  ∃ k id r, signer (w_db boot_run.2) = Some (k, id) ∧ of_kind "user" (w_db boot_run.2) !! id = Some r ∧
    ∀ id' r', of_kind "user" (Store ∅ None []) !! id' = Some r' → ca_created r' ≤ ca_created r.
Proof.
  refine (proj1 (boot_signs_with_trusted_key (Env0:=quiet_env) [] false true (λ _, toy_draw) 0
    (Store ∅ None []) boot_run.2 (λ _, toy_draw_good) (ca_inv_empty []) _)).
  by vm_compute.
Defined.
