(* ===== verification/Identity.v ===== *)
(** Ephemeral SSH identities: [identity/issuer.go], [identity/vault.go], [identity/system.go],
    [principals], the certificate tables of [store/certs.go], the credential selection of
    [sshgw/gateway.go], the principal files [enrollment/service.go] writes on a host, and the
    handlers of [certificates/handlers.go] on certificates. Keys and signing are those of
    [CertAuthority]. Credential objects are shared by the vault and by connections being dialled, so
    they live in a heap. *)
From stdpp Require Import pretty sorting.
From S2P Require Import Prelude SecretBox.
From S2P Require Import CertAuthority.

(** * Principals ([principals/principals.go]) *)
Definition Global : string := "fleet".
Definition GlobalLogin : string := "fleet-login".

(** The text of a uuid ([uuid.UUID.String]): distinct ids have distinct texts. *)
Class UuidText := { uuid_text : uuid → string; uuid_text_inj :: Inj (=) (=) uuid_text }.

Section principals.
Context `{!UuidText}.
Definition Host (id : uuid) : string := "fleet-h-" +:+ uuid_text id.
Definition HostLogin (id : uuid) : string := "fleet-login-h-" +:+ uuid_text id.
End principals.
Definition User (name : string) : string := "user:" +:+ name.

(** * State *)

(** [models.SSHCertificate]: a row of [ssh_certificates], keyed by serial. *)
Record cert := Cert {
  c_kind : string; c_ca : option uuid; c_user : option uuid; c_session : option uuid;
  c_host : option uuid; c_key_id : string; c_principals : list string; c_public : string;
  c_expires : Z; c_instance : option uuid; c_revoked : option (Z * string);
}.

(** [Credential]; [k_key] is the private key with its signer, nil once zeroized. *)
Record credential := Credential {
  k_session : uuid; k_host : uuid; k_user : uuid; k_username : string; k_serial : Z;
  k_principals : list string; k_expires : Z; k_key : option N;
}.

(** [systemHolder], with what its certificate carries. *)
Record holder := Holder { y_principals : list string; y_serial : Z; y_expires : Z }.

(** The CA, the tables certificates refer to, the sequence of serials, [ssh_certificates],
    [cert_revocations], the heartbeats of [cluster_instances], the audit log; the credential objects,
    the vault of pointers to them, and the cache of system signers. *)
Record store := Store {
  ca : CertAuthority.store;
  users : gmap uuid string;
  sessions : gset uuid;
  hosts : gset uuid;
  seq : Z;
  certs : gmap Z cert;
  revocations : gmap Z (Z * string);
  beats : gmap uuid Z;
  audits : list (string * Z);
  heap : gmap N credential;
  vault : gmap uuid (gmap uuid N);
  systemCache : gmap string holder;
}.

Definition set_certs (s : store) m r := Store (ca s) (users s) (sessions s) (hosts s) (seq s) m r
  (beats s) (audits s) (heap s) (vault s) (systemCache s).
Definition set_vault (s : store) h v := Store (ca s) (users s) (sessions s) (hosts s) (seq s) (certs s)
  (revocations s) (beats s) (audits s) h v (systemCache s).

(** * The statements *)
Definition NextCertSerial (now : Z) (s : store) : res store_error Z * store :=
  (Ok (seq s + 1), Store (ca s) (users s) (sessions s) (hosts s) (seq s + 1) (certs s) (revocations s)
     (beats s) (audits s) (heap s) (vault s) (systemCache s)).

Definition AppendAudit (e : string * Z) (now : Z) (s : store) : res store_error unit * store :=
  (Ok tt, Store (ca s) (users s) (sessions s) (hosts s) (seq s) (certs s) (revocations s)
     (beats s) (audits s ++ [e]) (heap s) (vault s) (systemCache s)).

Definition GetUserByID (id : uuid) : Z → store → res store_error string * store :=
  get_row (λ s, users s !! id).

(** A nullable foreign key. *)
Definition refers (s : gset uuid) (id : option uuid) : bool :=
  match id with Some i => bool_decide (i ∈ s) | None => true end.

(** [serial] is unique, [ca_key_id] not null, and the ids must exist. *)
Definition InsertCertificate (serial : Z) (c : cert) (now : Z) (s : store) : res store_error unit * store :=
  if bool_decide (certs s !! serial = None) &&
     match c_ca c with Some i => bool_decide (is_Some (ca_keys (ca s) !! i)) | None => false end &&
     refers (dom (users s)) (c_user c) && refers (sessions s) (c_session c) && refers (hosts s) (c_host c)
  then (Ok tt, set_certs s (<[serial := c]> (certs s)) (revocations s))
  else (Err ErrDB, s).

Definition clamp_limit (limit : Z) : nat :=
  if (limit <=? 0) || (1000 <? limit) then 200%nat else Z.to_nat limit.

(** Newest first; a serial is newer than the smaller ones. *)
Definition by_serial_desc : relation (Z * cert) := λ a b, b.1 ≤ a.1.
#[export] Instance by_serial_desc_dec : RelDecision by_serial_desc.
Proof. intros a b. unfold by_serial_desc. apply _. Defined.
Definition ListCertificates (sid : option uuid) (limit : Z) (now : Z) (s : store)
    : res store_error (list (Z * cert)) * store :=
  let all := merge_sort by_serial_desc (map_to_list (certs s)) in
  let hit := match sid with
             | Some i => List.filter (λ kc, bool_decide (c_session kc.2 = Some i)) all
             | None => all
             end in
  (Ok (take (clamp_limit limit) hit), s).

Definition revoke (now : Z) (reason : string) (c : cert) : cert :=
  Cert (c_kind c) (c_ca c) (c_user c) (c_session c) (c_host c) (c_key_id c) (c_principals c)
    (c_public c) (c_expires c) (c_instance c) (Some (now, reason)).

Definition RevokeCertificate (serial : Z) (reason : string) (now : Z) (s : store)
    : res store_error unit * store :=
  (Ok tt, set_certs s (alter (revoke now reason) serial (certs s))
            (revocations s ∪ {[serial := (now, reason)]})).

(** [UPDATE ... RETURNING serial] followed by the inserts, in one transaction. *)
Definition revoke_where (p : cert → bool) (reason : string) (now : Z) (s : store)
    : res store_error nat * store :=
  let hit := filter (λ kc, p kc.2 = true) (certs s) in
  (Ok (size hit),
   set_certs s ((λ c, if p c then revoke now reason c else c) <$> certs s)
     (revocations s ∪ ((λ _, (now, reason)) <$> hit))).

Definition of_session (sid : uuid) (c : cert) : bool :=
  bool_decide (c_session c = Some sid) && bool_decide (c_revoked c = None).
Definition RevokeSessionCertificates (sid : uuid) (reason : string) (now : Z) (s : store) :=
  revoke_where (of_session sid) reason now s.

Definition keyless (lease : Z) (self : uuid) (now : Z) (s : store) (c : cert) : bool :=
  bool_decide (c_revoked c = None) && (now <? c_expires c) &&
  match c_instance c with
  | None => false
  | Some i => negb (bool_decide (i = self)) &&
              match beats s !! i with Some b => negb (now - lease <? b) | None => true end
  end.
Definition RevokeDeadInstanceCertificates (lease : Z) (self : uuid) (now : Z) (s : store) :=
  revoke_where (keyless lease self now s) "issuing instance died" now s.

Definition PruneExpiredRevocations (before : Z) (now : Z) (s : store) : res store_error unit * store :=
  (Ok tt, set_certs s (certs s) (filter (λ kr, before ≤ kr.2.1) (revocations s))).
Definition RevokedSerials (now : Z) (s : store) : res store_error (gset Z) * store :=
  (Ok (dom (revocations s)), s).

Definition by_expiry : relation (Z * cert) := λ a b, c_expires a.2 ≤ c_expires b.2.
#[export] Instance by_expiry_dec : RelDecision by_expiry.
Proof. intros a b. unfold by_expiry. apply _. Defined.
Definition expiring (before : Z) (c : cert) : bool :=
  str_eqb (c_kind c) "user" && bool_decide (c_revoked c = None) && (c_expires c <? before).
Definition ExpiringCertificates (before : Z) (now : Z) (s : store)
    : res store_error (list (Z * cert)) * store :=
  (Ok (merge_sort by_expiry (List.filter (λ kc, expiring before kc.2) (map_to_list (certs s)))), s).

(** * The vault ([identity/vault.go]) *)
Definition sessionScope : uuid := uuid_nil.

(** [zero] *)
Definition zero (c : credential) : credential :=
  Credential (k_session c) (k_host c) (k_user c) (k_username c) (k_serial c) (k_principals c)
    (k_expires c) None.

Definition slot (sid hid : uuid) (s : store) : option N := m ← vault s !! sid; m !! hid.
Definition lookup_cred (sid hid : uuid) (s : store) : option credential :=
  p ← slot sid hid s; heap s !! p.
Definition GetHost (sid hid : uuid) (s : store) : option credential := lookup_cred sid hid s.
Definition Get (sid : uuid) (s : store) : option credential := lookup_cred sid sessionScope s.

(** [put] of a new object. *)
Definition put (c : credential) (s : store) : store :=
  let p := fresh (dom (heap s)) in
  let byHost := default ∅ (vault s !! k_session c) in
  let h := match byHost !! k_host c with Some q => alter zero q (heap s) | None => heap s end in
  set_vault s (<[p := c]> h) (<[k_session c := <[k_host c := p]> byHost]> (vault s)).

Definition zero_all (l : list N) (h : gmap N credential) : gmap N credential := foldr (alter zero) h l.

Definition Destroy (sid : uuid) (s : store) : store :=
  match vault s !! sid with
  | None => s
  | Some byHost =>
    set_vault s (zero_all (map_to_list byHost).*2 (heap s)) (delete sid (vault s))
  end.

Definition Sessions (s : store) : gset uuid := dom (vault s).

(** * The issuer *)
Section issuer.
Context `{!Env store, !Keys, !UuidText}.
Context (fips : bool) (UserCertTTL CertRenewBefore : Z) (HostScopedOnly : bool).
(** The instance id stamped on rows ([ownerArg]), and whether a signature succeeds. *)
Context (ownerArg : option uuid) (sign_ok : N → bool).

(** The first eight bytes of an id's text. *)
Definition short (id : uuid) : string := String.substring 0 8 (uuid_text id).

Definition dedupe_step (acc : list string * list string) (p : string) : list string * list string :=
  let '(seen, out) := acc in
  if str_eqb p "" || bool_decide (p ∈ seen) then acc else (p :: seen, out ++ [p]).
Definition dedupePrincipals (l : list string) : list string := (foldl dedupe_step ([], []) l).2.

Definition scopeForHost (l : list string) (hid : uuid) : list string :=
  dedupePrincipals (l ≫= λ p,
    p :: (if str_eqb p Global then [Host hid]
          else if str_eqb p GlobalLogin then [HostLogin hid] else [])).

(** The principals a per-host certificate carries. *)
Definition hostPrincipals (principals : list string) (username : string) (hid : uuid) : list string :=
  scopeForHost (if bool_decide (principals = []) then [Global; User username] else principals) hid.

(** [issue]; the serial in use, or nothing when it returned an error. *)
Definition issue (sid hid uid : uuid) (username : string) (principals : list string) (keyID : string)
    : M store (option Z) :=
  k ← draw (generate_key fips);
  match k with
  | None => mret None
  | Some k =>
    r ← db NextCertSerial;
    match r with
    | Err _ => mret None
    | Ok serial =>
      let fullKeyID := keyID +:+ "/" +:+ pretty serial in
      now ← time_now;
      x ← peek (λ s, SignUserCertificate sign_ok (ca s) k fullKeyID principals serial UserCertTTL now);
      match x with
      | None => mret None
      | Some x =>
        caID ← peek (λ s, ActiveID (ca s));
        let expiresAt := x_before x * second in
        r ← db (InsertCertificate serial
                  (Cert "user" caID (Some uid) (Some sid)
                     (if bool_decide (hid = sessionScope) then None else Some hid)
                     fullKeyID principals (public_line k) expiresAt ownerArg None));
        match r with
        | Err _ => mret None
        | Ok _ =>
          _ ← effect (put (Credential sid hid uid username serial principals expiresAt (Some k)));
          _ ← db (AppendAudit ("certificate.issue", serial));
          mret (Some serial)
        end
      end
    end
  end.

Definition Issue (sid uid : uuid) (username : string) (principals : list string) : M store (option Z) :=
  let principals := if bool_decide (principals = []) then [User username] else principals in
  issue sid sessionScope uid username principals (username +:+ "/" +:+ short sid).

Definition IssueForHost (sid uid hid : uuid) (username hostname : string) (principals : list string)
    : M store (option Z) :=
  let label := if str_eqb hostname "" then short hid else hostname in
  issue sid hid uid username (hostPrincipals principals username hid) (username +:+ "/host:" +:+ label).

Definition EnsureHostCredential (sid uid hid : uuid) (username hostname : string)
    (principals : list string) : M store (option Z) :=
  c ← peek (GetHost sid hid);
  match c with
  | Some c =>
    now ← time_now;
    if CertRenewBefore <? k_expires c - now then mret (Some (k_serial c))
    else IssueForHost sid uid hid username hostname principals
  | None => IssueForHost sid uid hid username hostname principals
  end.

Definition DestroySession (sid : uuid) : M store unit :=
  _ ← effect (Destroy sid);
  _ ← db (RevokeSessionCertificates sid "session_ended");
  mret tt.

(** The hook that mints a session's identity where this instance lacks it ([api/server.go]). *)
Definition sessionPrincipals (username : string) : list string :=
  dedupePrincipals [Global; User username].
Definition EnsureCredential (uid sid : uuid) (username : string) : M store unit :=
  c ← peek (Get sid);
  match c with
  | Some _ => mret tt
  | None => _ ← Issue sid uid username (sessionPrincipals username); mret tt
  end.

Definition renew_one (x : Z * cert) : M store unit :=
  let '(serial, c) := x in
  match c_session c with
  | None => mret tt
  | Some sid =>
    live ← peek (Get sid);
    match live, c_user c with
    | Some _, Some uid =>
      u ← db (GetUserByID uid);
      let username := match u with Ok n => n | Err _ => "" end in
      r ← Issue sid uid username (c_principals c);
      match r with
      | None => mret tt
      | Some _ => _ ← db (RevokeCertificate serial "renewed"); mret tt
      end
    | _, _ => mret tt
    end
  end.

Fixpoint renew_all (l : list (Z * cert)) : M store unit :=
  match l with
  | [] => mret tt
  | x :: l' => _ ← renew_one x; renew_all l'
  end.

Definition RenewExpiring : M store unit :=
  now ← time_now;
  r ← db (ExpiringCertificates (now + CertRenewBefore));
  match r with Err _ => mret tt | Ok l => renew_all l end.

(** * System identities ([identity/system.go], [identity/material.go]) *)
Fixpoint join (sep : string) (l : list string) : string :=
  match l with
  | [] => ""
  | [a] => a
  | a :: l' => a +:+ sep +:+ join sep l'
  end.

Definition mint (prefix : string) (principals : list string) (ttl : Z) : M store (option certificate) :=
  k ← draw (generate_key fips);
  match k with
  | None => mret None
  | Some k =>
    r ← db NextCertSerial;
    match r with
    | Err _ => mret None
    | Ok serial =>
      now ← time_now;
      peek (λ s, SignUserCertificate sign_ok (ca s) k (prefix +:+ pretty serial) principals serial ttl now)
    end
  end.

Definition cache_holder (key : string) (h : holder) (s : store) : store :=
  Store (ca s) (users s) (sessions s) (hosts s) (seq s) (certs s) (revocations s) (beats s) (audits s)
    (heap s) (vault s) (<[key := h]> (systemCache s)).

Definition fresh_holder (principals : list string) (ttl : Z) : M store (option holder) :=
  x ← mint "system/monitor/" principals ttl;
  match x with
  | None => mret None
  | Some x =>
    let h := Holder principals (x_serial x) (x_before x * second) in
    _ ← effect (cache_holder (join "," principals) h); mret (Some h)
  end.

Definition SystemSigner (principals : list string) (ttl : Z) : M store (option holder) :=
  h ← peek (λ s, systemCache s !! join "," principals);
  match h with
  | Some h =>
    now ← time_now;
    if 5 * minute <? y_expires h - now then mret (Some h) else fresh_holder principals ttl
  | None => fresh_holder principals ttl
  end.

Definition SystemKeyMaterial (principals : list string) (ttl : Z) : M store (option certificate) :=
  mint "system/ansible/" principals ttl.

Definition SystemHostPrincipals (hid : uuid) : list string :=
  if HostScopedOnly then [Global; Host hid] else [Global].
Definition SystemHostLoginPrincipals (hid : uuid) : list string :=
  if HostScopedOnly then [GlobalLogin; HostLogin hid] else [GlobalLogin].

(** * The gateway's choice of credentials ([sshgw/gateway.go]) *)
Definition LoginTier (sudo : bool) (sshUser username : string) : string * list string :=
  if sudo then (sshUser, []) else (sshUser +:+ "-login", [GlobalLogin; User username]).

(** The certificates a dial presents to the jump host and to the managed host. *)
Record presented := Presented { d_jump : credential; d_host : credential; d_user : string }.

Definition dialWithSigners (jump host : credential) (user : string) : res string presented :=
  if bool_decide (k_key jump = None) || bool_decide (k_key host = None)
  then Err "session credential unavailable" else Ok (Presented jump host user).

Definition Dial (sid : option uuid) (user : string) : M store (res string presented) :=
  match sid with
  | None => mret (Err "no live credential for session")
  | Some sid =>
    c ← peek (Get sid);
    mret (match c with
          | None => Err "no live credential for session"
          | Some c => dialWithSigners c c user
          end)
  end.

Definition DialForHost (sid uid hid : uuid) (username hostname user : string) (principals : list string)
    : M store (res string presented) :=
  r ← EnsureHostCredential sid uid hid username hostname principals;
  match r with
  | None => mret (Err "issue per-host credential")
  | Some _ =>
    c ← peek (GetHost sid hid);
    match c with
    | None => mret (Err "no per-host credential for session")
    | Some c =>
      j ← peek (Get sid);
      mret (match j with
            | None => Err "no live credential for session"
            | Some j => dialWithSigners j c user
            end)
    end
  end.

Definition HostCredentialSerial (sid hid : uuid) (s : store) : option Z := k_serial <$> GetHost sid hid s.
Definition CredentialSerial (sid : option uuid) (s : store) : option Z :=
  sid ← sid; k_serial <$> Get sid s.

(** * The principal files of a host ([caTrustScript] of [enrollment/service.go]) *)
Definition sudo_lines (hid : uuid) : list string :=
  (if HostScopedOnly then [] else [Global]) ++ [Host hid].
Definition login_lines (hid : uuid) : list string :=
  (if HostScopedOnly then [] else [GlobalLogin]) ++ [HostLogin hid].

(** * Handlers ([certificates/handlers.go]) *)
Context (distribute : option (M store (option (nat * nat)))).

Definition list_ (limit : Z) : M store (reply (list (Z * cert))) :=
  r ← db (ListCertificates None limit);
  mret (match r with Err _ => WriteError 500 "could not list certificates" | Ok l => WriteJSON 200 l end).

Definition revoke_handler (serial : option Z) (reason : string) : M store (reply (nat * nat)) :=
  match serial with
  | None => mret (WriteError 400 "invalid serial")
  | Some serial =>
    r ← db (RevokeCertificate (wrap64 serial) reason);
    match r with
    | Err _ => mret (WriteError 500 "revocation failed")
    | Ok _ =>
      _ ← db (AppendAudit ("certificate.revoke", serial));
      match distribute with
      | None => mret (WriteJSON 200 (0%nat, 0%nat))
      | Some d => n ← d; mret (WriteJSON 200 (default (0%nat, 0%nat) n))
      end
    end
  end.

Definition distribute_handler : M store (reply (string * (nat * nat))) :=
  match distribute with
  | None => mret (WriteError 501 "distribution unavailable")
  | Some d =>
    n ← d;
    match n with
    | None => mret (WriteError 500 "distribution failed")
    | Some (pushed, failed) =>
      _ ← db (AppendAudit ("certificate.krl_distribute", 0));
      mret (WriteJSON 200 (if (0 <? failed)%nat then "partial" else "distributed", (pushed, failed)))
    end
  end.

Definition krl : M store (reply (gset Z)) :=
  r ← db RevokedSerials;
  mret (match r with Err _ => WriteError 500 "could not load KRL" | Ok m => WriteJSON 200 m end).
End issuer.

(** * Proofs: the vault *)

(** A slot of the vault points to a live credential of that session and host, and a credential that
    is still live is in its slot: a key out of the vault is zeroized. *)
Record VaultInv (s : store) : Prop := {
  slot_live : ∀ sid hid p, slot sid hid s = Some p →
    ∃ c, heap s !! p = Some c ∧ k_key c ≠ None ∧ k_session c = sid ∧ k_host c = hid;
  live_slot : ∀ p c, heap s !! p = Some c → k_key c ≠ None → slot (k_session c) (k_host c) s = Some p;
}.

Lemma VaultInv_frame s s' : heap s' = heap s → vault s' = vault s → VaultInv s → VaultInv s'.
Proof.
  intros Hh Hv [H1 H2]. split; [intros sid hid p | intros p c]; unfold slot; rewrite Hv, Hh;
    [apply H1 | apply H2].
Qed.

Lemma slot_put c s sid hid :
  slot sid hid (put c s) =
  if decide (k_session c = sid ∧ k_host c = hid) then Some (fresh (dom (heap s))) else slot sid hid s.
Proof.
  unfold slot, put. simpl. destruct (decide (k_session c = sid)) as [->|Hs].
  - rewrite lookup_insert_eq. simpl. destruct (decide (k_host c = hid)) as [->|Hh].
    + rewrite lookup_insert_eq. by rewrite decide_True.
    + rewrite lookup_insert_ne by done. rewrite decide_False by naive_solver.
      by destruct (vault s !! sid).
  - rewrite lookup_insert_ne by done. by rewrite decide_False by naive_solver.
Qed.

Lemma put_heap c s p c' :
  heap (put c s) !! p = Some c' →
  (p = fresh (dom (heap s)) ∧ c' = c) ∨
  (slot (k_session c) (k_host c) s = Some p ∧ k_key c' = None) ∨
  (heap s !! p = Some c' ∧ slot (k_session c) (k_host c) s ≠ Some p).
Proof.
  unfold put, slot. simpl. set (f := fresh _). destruct (decide (p = f)) as [->|Hne].
  { rewrite lookup_insert_eq. intros [= <-]. by left. }
  rewrite lookup_insert_ne by done. intros Hp. right.
  destruct (vault s !! k_session c) as [m|] eqn:Hm; simpl in *.
  - destruct (m !! k_host c) as [q|] eqn:Hq; [|by right].
    destruct (decide (q = p)) as [->|]; [left|right].
    + rewrite lookup_alter_eq in Hp. destruct (heap s !! p); [|done].
      injection Hp as <-. by split.
    + rewrite lookup_alter_ne in Hp by done. by split; [|congruence].
  - rewrite lookup_empty in Hp. by right.
Qed.

Lemma VaultInv_put c s : k_key c ≠ None → VaultInv s → VaultInv (put c s).
Proof.
  intros Hc [H1 H2]. pose proof (fresh_lookup (heap s)) as Hf. split.
  - intros sid hid p. rewrite slot_put. case_decide as Hd.
    + intros [= <-]. exists c. split_and!; [|done|tauto..]. unfold put. simpl. by rewrite lookup_insert_eq.
    + intros Hp. destruct (H1 _ _ _ Hp) as (c' & Hc' & Hk & Hs & Hh). exists c'. split; [|done].
      unfold put. simpl. rewrite lookup_insert_ne by congruence.
      destruct (default ∅ (vault s !! k_session c) !! k_host c) as [q|] eqn:Hq; [|done].
      rewrite lookup_alter_ne; [done|]. intros ->. apply Hd. 
      assert (Hq' : slot (k_session c) (k_host c) s = Some p).
      { unfold slot. destruct (vault s !! k_session c); [done|]. simpl in Hq. by rewrite lookup_empty in Hq. }
      destruct (H1 _ _ _ Hq') as (c'' & Hc'' & _ & <- & <-). by simplify_eq.
  - intros p c' [[-> ->]|[[_ Hn]|[Hp Hne]]]%put_heap Hk; [|done|]; rewrite slot_put.
    + by rewrite decide_True.
    + rewrite decide_False; [by apply H2|]. intros [E1 E2]. apply Hne. rewrite E1, E2. by apply H2.
Qed.

Lemma zero_all_lookup l h p :
  zero_all l h !! p = if decide (p ∈ l) then zero <$> h !! p else h !! p.
Proof.
  induction l as [|a l IH]; simpl; [done|].
  destruct (decide (a = p)) as [->|Hne].
  - rewrite lookup_alter_eq, IH. rewrite (decide_True (P:=p ∈ p :: l)) by constructor.
    case_decide; [|done]. by destruct (h !! p).
  - rewrite lookup_alter_ne by done. rewrite IH. apply decide_ext. rewrite elem_of_cons.
    split; [by right|]. intros [->|?]; done.
Qed.

Lemma slot_Destroy sid sid' hid s :
  slot sid' hid (Destroy sid s) = if decide (sid' = sid) then None else slot sid' hid s.
Proof.
  unfold Destroy. destruct (vault s !! sid) as [m|] eqn:Hm; unfold slot; simpl.
  - case_decide as Hd; [subst; by rewrite lookup_delete_eq | by rewrite lookup_delete_ne].
  - case_decide as Hd; [|done]. subst. by rewrite Hm.
Qed.

Lemma slots_of sid s m : vault s !! sid = Some m →
  ∀ p, p ∈ (map_to_list m).*2 ↔ ∃ hid, slot sid hid s = Some p.
Proof.
  intros Hm p. unfold slot. rewrite Hm. simpl. rewrite list_elem_of_fmap. split.
  - intros ([hid q] & -> & Hq%elem_of_map_to_list). by exists hid.
  - intros [hid Hq]. exists (hid, p). split; [done|]. by apply elem_of_map_to_list.
Qed.

#[export] Instance slot_dec sid s p : Decision (∃ hid, slot sid hid s = Some p).
Proof.
  destruct (vault s !! sid) as [m|] eqn:Hm.
  - destruct (decide (p ∈ (map_to_list m).*2)) as [Hp|Hp]; [left|right];
      by rewrite <- (slots_of sid s m Hm).
  - right. unfold slot. rewrite Hm. by intros [].
Defined.

Lemma heap_Destroy_other sid s p :
  (∀ hid, slot sid hid s ≠ Some p) → heap (Destroy sid s) !! p = heap s !! p.
Proof.
  intros Hno. unfold Destroy. destruct (vault s !! sid) as [m|] eqn:Hm; [|done]. simpl.
  rewrite zero_all_lookup, decide_False; [done|]. rewrite slots_of by done. by intros [hid ?%Hno].
Qed.

Lemma heap_Destroy_slot sid hid s p :
  slot sid hid s = Some p → heap (Destroy sid s) !! p = zero <$> heap s !! p.
Proof.
  intros Hp. unfold Destroy. destruct (vault s !! sid) as [m|] eqn:Hm.
  - simpl. rewrite zero_all_lookup, decide_True; [done|]. apply (slots_of sid s m Hm). by exists hid.
  - revert Hp. unfold slot. by rewrite Hm.
Qed.

Lemma VaultInv_Destroy sid s : VaultInv s → VaultInv (Destroy sid s).
Proof.
  intros [H1 H2]. split.
  - intros sid' hid p. rewrite slot_Destroy. case_decide as Hd; [done|]. intros Hp.
    destruct (H1 _ _ _ Hp) as (c & Hc & Hk & Hs & Hh). exists c. split; [|done].
    rewrite heap_Destroy_other; [done|]. intros hid' Hp'.
    destruct (H1 _ _ _ Hp') as (c' & Hc' & _ & Hs' & _). congruence.
  - intros p c Hc Hk. rewrite slot_Destroy.
    destruct (decide (∃ hid, slot sid hid s = Some p)) as [[hid Hp]|Hno].
    + rewrite (heap_Destroy_slot _ _ _ _ Hp) in Hc. destruct (heap s !! p); [|done].
      by injection Hc as <-.
    + rewrite heap_Destroy_other in Hc by naive_solver. pose proof (H2 _ _ Hc Hk) as Hp.
      case_decide as Hd; [|done]. subst sid. naive_solver.
Qed.

(** * Every program of the package keeps the vault's invariant *)
Definition Rv (s s' : store) : Prop := VaultInv s → VaultInv s'.
#[export] Instance Rv_preorder : PreOrder Rv.
Proof. split; unfold Rv; [intros ?|intros ???]; auto. Qed.

Lemma Rv_put c s : k_key c ≠ None → Rv s (put c s).
Proof. intros Hc HI. by apply VaultInv_put. Qed.
Lemma Rv_Destroy sid s : Rv s (Destroy sid s).
Proof. intros HI. by apply VaultInv_Destroy. Qed.

(** A statement touches no credential. *)
Lemma within_credless {A} `{!Env store, !Relies Rv} (f : Z → store → res store_error A * store) :
  (∀ now s, heap (f now s).2 = heap s ∧ vault (f now s).2 = vault s) → within Rv (db f).
Proof. intros Hf. apply within_db; [exact _..|]. intros now s HI. eapply VaultInv_frame; [apply Hf..|exact HI]. Qed.

#[local] Ltac stmt := apply within_credless; intros; unfold InsertCertificate; try case_match; done.
#[local] Hint Extern 1 (within Rv (db _)) => stmt : within.
#[local] Hint Extern 1 (within Rv (effect (put _))) => apply within_effect; intros; by apply Rv_put : within.
#[local] Hint Extern 1 (within Rv (effect (Destroy _))) => apply within_effect; intros; apply Rv_Destroy : within.
#[local] Hint Extern 1 (within Rv (effect (cache_holder _ _))) =>
  apply within_effect; intros ? HI; by eapply VaultInv_frame, HI : within.

Section programs.
Context `{!Env store, !Relies Rv, !Keys, !UuidText}.
Context (fips : bool) (ttl rb : Z) (hso : bool) (own : option uuid) (sign_ok : N → bool).

Lemma within_issue sid hid uid name ps kid : within Rv (issue fips ttl own sign_ok sid hid uid name ps kid).
Proof. unfold issue. within_tac. Qed.
#[local] Hint Resolve within_issue : within.
Lemma within_Issue sid uid name ps : within Rv (Issue fips ttl own sign_ok sid uid name ps).
Proof. apply within_issue. Qed.
Lemma within_IssueForHost sid uid hid name hn ps :
  within Rv (IssueForHost fips ttl own sign_ok sid uid hid name hn ps).
Proof. apply within_issue. Qed.
#[local] Hint Resolve within_Issue within_IssueForHost : within.
Lemma within_Ensure sid uid hid name hn ps :
  within Rv (EnsureHostCredential fips ttl rb own sign_ok sid uid hid name hn ps).
Proof. unfold EnsureHostCredential. within_tac. Qed.
#[local] Hint Resolve within_Ensure : within.
Lemma within_renew_all l : within Rv (renew_all fips ttl own sign_ok l).
Proof.
  induction l as [|[serial c] l IH]; simpl; [within_tac|]. within_step; [|done].
  unfold renew_one. within_tac.
Qed.
#[local] Hint Resolve within_renew_all : within.
Lemma within_fresh_holder ps t : within Rv (fresh_holder fips sign_ok ps t).
Proof. unfold fresh_holder, mint. within_tac. Qed.
#[local] Hint Resolve within_fresh_holder : within.

Context (dist : option (M store (option (nat * nat)))).

(** What reaches the package: sign-ins and first requests, connections, the end of a session, the
    renewal loop, system workers and the certificate endpoints. *)
Inductive op :=
| OpEnsure (uid sid : uuid) (name : string)
| OpDial (sid uid hid : uuid) (name hostname user : string) (ps : list string)
| OpDestroy (sid : uuid)
| OpRenew
| OpSystem (ps : list string) (t : Z)
| OpMaterial (ps : list string) (t : Z)
| OpRevoke (serial : option Z) (reason : string)
| OpDeadInstances (lease : Z) (self : uuid)
| OpList (limit : Z)
| OpKRL.

Definition serve (o : op) : M store unit :=
  match o with
  | OpEnsure uid sid name => EnsureCredential fips ttl own sign_ok uid sid name
  | OpDial sid uid hid name hn user ps =>
    _ ← DialForHost fips ttl rb own sign_ok sid uid hid name hn user ps; mret tt
  | OpDestroy sid => DestroySession sid
  | OpRenew => RenewExpiring fips ttl rb own sign_ok
  | OpSystem ps t => _ ← SystemSigner fips sign_ok ps t; mret tt
  | OpMaterial ps t => _ ← SystemKeyMaterial fips sign_ok ps t; mret tt
  | OpRevoke serial reason => _ ← revoke_handler dist serial reason; mret tt
  | OpDeadInstances lease self => _ ← db (RevokeDeadInstanceCertificates lease self); mret tt
  | OpList limit => _ ← list_ limit; mret tt
  | OpKRL => _ ← krl; _ ← distribute_handler dist; mret tt
  end.

Lemma within_identity_serve o : (∀ d, dist = Some d → within Rv d) → within Rv (serve o).
Proof.
  intros Hd. destruct o; unfold serve, EnsureCredential, DialForHost, DestroySession, RenewExpiring,
    SystemSigner, SystemKeyMaterial, mint, revoke_handler, list_, krl, distribute_handler;
    within_tac; by apply Hd.
Qed.
End programs.

(** * Proofs: principals *)
Lemma elem_dedupe l p : p ∈ dedupePrincipals l ↔ p ∈ l ∧ p ≠ "".
Proof.
  unfold dedupePrincipals.
  assert (H : ∀ l seen out, (∀ q, q ∈ seen ↔ q ∈ out) →
    p ∈ (foldl dedupe_step (seen, out) l).2 ↔ p ∈ out ∨ (p ∈ l ∧ p ≠ "")).
  2: { rewrite H by done. split; [by intros [?%elem_of_nil|]|by right]. }
  clear l. induction l as [|a l IH]; intros seen out Heq; simpl; [set_solver|].
  destruct (str_eqb a "" || bool_decide (a ∈ seen)) eqn:Hb.
  - rewrite IH by done. apply orb_true_iff in Hb as [->%str_eqb_eq|Hb%bool_decide_eq_true];
      [set_solver|]. apply Heq in Hb. set_solver.
  - apply orb_false_iff in Hb as [Hb _]. unfold str_eqb in Hb. apply bool_decide_eq_false in Hb.
    rewrite IH; set_solver.
Qed.

Section tiers.
Context `{!UuidText}.

Lemma elem_scope l hid p :
  p ∈ scopeForHost l hid ↔ p ≠ "" ∧
    (p ∈ l ∨ (p = Host hid ∧ Global ∈ l) ∨ (p = HostLogin hid ∧ GlobalLogin ∈ l)).
Proof.
  unfold scopeForHost. rewrite elem_dedupe. rewrite (comm and). f_equiv. rewrite list_elem_of_bind.
  split.
  - intros (q & Hp & Hq). apply elem_of_cons in Hp as [->|Hp]; [by left|].
    destruct (str_eqb q Global) eqn:E1; [apply str_eqb_eq in E1; subst; set_solver|].
    destruct (str_eqb q GlobalLogin) eqn:E2; [apply str_eqb_eq in E2; subst; set_solver|].
    by apply elem_of_nil in Hp.
  - intros [Hp|[[-> Hg]|[-> Hg]]]; [exists p; split; [by constructor|done]|..].
    + exists Global. split; [|done]. by right; left.
    + exists GlobalLogin. split; [|done]. by right; left.
Qed.

#[local] Ltac str_neq := let H := fresh in intros H; cbv in H; discriminate H.
Lemma Host_Global h : Host h ≠ Global. Proof. str_neq. Qed.
Lemma HostLogin_GlobalLogin h : HostLogin h ≠ GlobalLogin. Proof. str_neq. Qed.
Lemma Host_GlobalLogin h : Host h ≠ GlobalLogin. Proof. str_neq. Qed.
Lemma HostLogin_Global h : HostLogin h ≠ Global. Proof. str_neq. Qed.
Lemma Host_HostLogin h h' : Host h ≠ HostLogin h'. Proof. str_neq. Qed.
Lemma Global_GlobalLogin : Global ≠ GlobalLogin. Proof. str_neq. Qed.
Lemma User_Global n : User n ≠ Global. Proof. str_neq. Qed.
Lemma User_GlobalLogin n : User n ≠ GlobalLogin. Proof. str_neq. Qed.
Lemma User_Host n h : User n ≠ Host h. Proof. str_neq. Qed.
Lemma User_HostLogin n h : User n ≠ HostLogin h. Proof. str_neq. Qed.
Lemma Host_inj h h' : Host h = Host h' ↔ h' = h.
Proof. unfold Host. split; [|by intros ->]. intros Heq. apply (inj (String.append _)), (inj uuid_text) in Heq. done. Qed.
Lemma HostLogin_inj h h' : HostLogin h = HostLogin h' ↔ h' = h.
Proof. unfold HostLogin. split; [|by intros ->]. intros Heq. apply (inj (String.append _)), (inj uuid_text) in Heq. done. Qed.
End tiers.

(** sshd's check of a certificate against an [AuthorizedPrincipalsFile]: some principal of the
    certificate is a line of the file. *)
Class Sshd := {
  accepts : list string → list string → bool;
  accepts_spec file ps : accepts file ps = true ↔ ∃ p, p ∈ ps ∧ p ∈ file;
}.

Section accept.
Context `{!UuidText, !Sshd}.

(** The principals of a per-host certificate of a tier. *)
Definition tier_principals (sudo : bool) (sshUser name : string) (h : uuid) : list string :=
  hostPrincipals (LoginTier sudo sshUser name).2 name h.

Lemma elem_tier sudo sshUser name h p : p ∈ tier_principals sudo sshUser name h ↔
  p = User name ∨ (if sudo then p = Global ∨ p = Host h else p = GlobalLogin ∨ p = HostLogin h).
Proof.
  assert (Hne : User name ≠ "" ∧ Host h ≠ "" ∧ HostLogin h ≠ "").
  { split_and!; intros Hx; cbv in Hx; discriminate Hx. }
  destruct Hne as (HU & HH & HL). unfold tier_principals, hostPrincipals.
  destruct sudo; simpl; rewrite elem_scope, !elem_of_cons, !elem_of_nil; split.
  - intros (_ & [[?|[?|[]]]|[[? _]|[_ [E|[E|[]]]]]]); [auto..| |].
    + by apply symmetry, Global_GlobalLogin in E.
    + by apply symmetry, User_GlobalLogin in E.
  - intros [ -> | [ -> | -> ] ]; (split; [done|]); auto.
  - intros (_ & [[?|[?|[]]]|[[_ [E|[E|[]]]]|[? _]]]); [auto..| | |auto].
    + by apply Global_GlobalLogin in E.
    + by apply symmetry, User_Global in E.
  - intros [ -> | [ -> | -> ] ]; (split; [done|]); auto.
Qed.

Lemma accepts_app l1 l2 ps : accepts (l1 ++ l2) ps = true ↔ accepts l1 ps = true ∨ accepts l2 ps = true.
Proof. rewrite !accepts_spec. set_solver. Qed.

Lemma accepts_one q ps : accepts [q] ps = true ↔ q ∈ ps.
Proof. rewrite accepts_spec. set_solver. Qed.

Lemma accepts_none ps : accepts [] ps = true ↔ False.
Proof. rewrite accepts_spec. set_solver. Qed.

Lemma Global_tier sudo u name h : Global ∈ tier_principals sudo u name h ↔ sudo = true.
Proof.
  rewrite elem_tier. destruct sudo; [tauto|]. split; [|done].
  intros [E|[E|E]]; exfalso;
    [by eapply User_Global|by eapply Global_GlobalLogin|by eapply HostLogin_Global].
Qed.

Lemma GlobalLogin_tier sudo u name h : GlobalLogin ∈ tier_principals sudo u name h ↔ sudo = false.
Proof.
  rewrite elem_tier. destruct sudo; [|tauto]. split; [|done].
  intros [E|[E|E]]; exfalso;
    [by eapply User_GlobalLogin|by eapply Global_GlobalLogin|by eapply Host_GlobalLogin].
Qed.

Lemma Host_tier sudo u name h h' : Host h' ∈ tier_principals sudo u name h ↔ sudo = true ∧ h' = h.
Proof.
  rewrite elem_tier. destruct sudo; split.
  - intros [E|[E|E]]; [by apply symmetry, User_Host in E|by apply Host_Global in E|].
    by apply symmetry, Host_inj in E.
  - intros [_ ->]. by auto.
  - intros [E|[E|E]]; [by apply symmetry, User_Host in E|by apply Host_GlobalLogin in E|].
    by apply Host_HostLogin in E.
  - by intros [].
Qed.

Lemma HostLogin_tier sudo u name h h' :
  HostLogin h' ∈ tier_principals sudo u name h ↔ sudo = false ∧ h' = h.
Proof.
  rewrite elem_tier. destruct sudo; split.
  - intros [E|[E|E]]; [by apply symmetry, User_HostLogin in E|by apply HostLogin_Global in E|].
    by apply symmetry, Host_HostLogin in E.
  - by intros [].
  - intros [E|[E|E]]; [by apply symmetry, User_HostLogin in E|by apply HostLogin_GlobalLogin in E|].
    by apply symmetry, HostLogin_inj in E.
  - intros [_ ->]. by auto.
Qed.
End accept.

(** * Proofs: what issuing does *)
Lemma InsertCertificate_cases serial c now s :
  InsertCertificate serial c now s = (Err ErrDB, s) ∨
  (InsertCertificate serial c now s = (Ok tt, set_certs s (<[serial := c]> (certs s)) (revocations s)) ∧
   certs s !! serial = None).
Proof.
  unfold InsertCertificate. case_match eqn:Hg; [right|by left]. split; [done|].
  repeat (apply andb_true_iff in Hg as [Hg _]). by apply bool_decide_eq_true in Hg.
Qed.

Section issued.
Context `{!Env store, !Quiet Env0, !Keys, !UuidText}.
Context (fips : bool) (ttl rb : Z) (own : option uuid) (sign_ok : N → bool).

(** A credential was put in its slot, and its certificate recorded, unrevoked. *)
Record issued (sid hid uid : uuid) (name : string) (ps : list string) (serial : Z) (s s' : store) : Prop := {
  iss_cred : ∃ exp k, let c := Credential sid hid uid name serial ps exp (Some k) in
    vault s' = vault (put c s) ∧ heap s' = heap (put c s);
  iss_row : ∃ row, certs s' = <[serial := row]> (certs s) ∧ certs s !! serial = None ∧
    c_revoked row = None ∧ c_principals row = ps ∧ c_session row = Some sid ∧
    c_host row = (if bool_decide (hid = sessionScope) then None else Some hid);
  iss_rest : users s' = users s ∧ sessions s' = sessions s ∧ revocations s' = revocations s;
}.

Lemma issue_issued sid hid uid name ps kid n s serial w :
  issue fips ttl own sign_ok sid hid uid name ps kid (World n s) = (Some serial, w) →
  issued sid hid uid name ps serial s (w_db w).
Proof.
  unfold issue. run_step. destruct (generate_key fips n) as [k|]; [|done]. run_step.
  destruct (db_err n); [done|]. unfold NextCertSerial at 1. cbn [fst]. run_step.
  match goal with |- context [match ?t with Some _ => _ | None => _ end] => destruct t as [x|]; [|done] end. run_step.
  destruct (db_err (S (S n))); [done|].
  match goal with |- context [Cert ?a ?b ?c ?d ?e ?f ?g ?h ?i ?j ?l] => set (row := Cert a b c d e f g h i j l) end.
  destruct (InsertCertificate_cases (seq s + 1) row (clock (S (S n))) (NextCertSerial (clock n) s).2)
    as [->|[-> Hg]]; [done|]. run_step. intros Heq.
  set (c := Credential _ _ _ _ _ _ _ _) in Heq.
  assert (Hc : serial = seq s + 1 ∧
    w_db w = (if db_err (S (S (S n))) then id else λ s, (AppendAudit ("certificate.issue", seq s) 0 s).2)
      (put c (set_certs (NextCertSerial 0 s).2 (<[seq s + 1 := row]> (certs s)) (revocations s)))).
  { by destruct (db_err (S (S (S n)))); injection Heq as <- <-. }
  destruct Hc as [-> ->]. by split; [exists (x_before x * second), k|exists row|];
    destruct (db_err (S (S (S n)))).
Qed.

Lemma issued_get sid hid uid name ps serial s s' : issued sid hid uid name ps serial s s' →
  ∃ c, lookup_cred sid hid s' = Some c ∧ k_serial c = serial ∧ k_principals c = ps ∧ is_Some (k_key c) ∧
    k_session c = sid.
Proof.
  intros [(exp & k & Hv & Hh) _ _]. eexists (Credential sid hid uid name serial ps exp (Some k)).
  split_and!; [|done..|by eexists|done]. unfold lookup_cred.
  assert (Hs : slot sid hid s' = Some (fresh (dom (heap s)))).
  { unfold slot. rewrite Hv. fold (slot sid hid (put (Credential sid hid uid name serial ps exp (Some k)) s)).
    by rewrite slot_put, decide_True. }
  rewrite Hs. simpl. rewrite Hh. unfold put. simpl. by rewrite lookup_insert_eq.
Qed.

Lemma issued_other sid hid uid name ps serial s s' sid' hid' :
  issued sid hid uid name ps serial s s' → VaultInv s → (sid', hid') ≠ (sid, hid) →
  lookup_cred sid' hid' s' = lookup_cred sid' hid' s.
Proof.
  intros [(exp & k & Hv & Hh) _ _] HI Hne. unfold lookup_cred.
  set (c := Credential sid hid uid name serial ps exp (Some k)) in *.
  assert (Hs : slot sid' hid' s' = slot sid' hid' s).
  { unfold slot. rewrite Hv. fold (slot sid' hid' (put c s)).
    rewrite slot_put, decide_False; [done|]. simpl. naive_solver. }
  rewrite Hs. destruct (slot sid' hid' s) as [p|] eqn:Hp; [|done]. simpl. rewrite Hh.
  destruct (slot_live _ HI _ _ _ Hp) as (c0 & Hc0 & _ & Hs0 & Hh0).
  unfold put. simpl. rewrite lookup_insert_ne; [|intros <-; by rewrite fresh_lookup in Hc0].
  destruct (default ∅ (vault s !! sid) !! hid) as [q|] eqn:Hq; [|done].
  rewrite lookup_alter_ne; [done|]. intros ->.
  assert (Hq' : slot sid hid s = Some p).
  { unfold slot. destruct (vault s !! sid); [done|]. simpl in Hq. by rewrite lookup_empty in Hq. }
  destruct (slot_live _ HI _ _ _ Hq') as (c1 & Hc1 & _ & ? & ?). by simplify_eq.
Qed.
End issued.

(** * Properties *)

(** C5: a certificate of one tier opens only that tier's account, and only where the host trusts it.
    For every user name, however chosen, and every pair of hosts: a per-host certificate minted for
    host [h] is accepted for the sudo account of host [h'] exactly when its owner has the sudo tier
    and [h'] is not locked down or is [h]; for the login-only account exactly when the owner has the
    login tier, under the same condition; and by the jump host exactly in the sudo tier. *)
Theorem certificate_tier_confined `{!UuidText, !Sshd} (lockdown sudo : bool) sshUser name h h' :
  let ps := tier_principals sudo sshUser name h in
  (accepts (sudo_lines lockdown h') ps = true ↔ sudo = true ∧ (lockdown = false ∨ h' = h)) ∧
  (accepts (login_lines lockdown h') ps = true ↔ sudo = false ∧ (lockdown = false ∨ h' = h)) ∧
  (accepts [Global] ps = true ↔ sudo = true).
Proof.
  intros ps. subst ps. unfold sudo_lines, login_lines.
  rewrite !accepts_app, !accepts_one, Host_tier, HostLogin_tier, Global_tier.
  destruct lockdown; rewrite ?accepts_none, ?accepts_one, ?Global_tier, ?GlobalLogin_tier;
    destruct sudo; naive_solver.
Qed.

(** private keys live exactly as long as the vault refers to them. Whatever sign-ins, connections,
    renewals, revocations and session ends interleave, and whichever statement fails: every slot of
    the vault holds a live credential of that session and host, and a credential whose key is not
    zeroized is the one in its slot; in particular a session the vault does not know has no live key. *)
Theorem vault_keys_inv `{!Env store, !Keys, !UuidText} fips ttl rb own sign_ok dist o (w : world store) :
  Relies Rv → (∀ d, dist = Some d → within Rv d) → VaultInv (w_db w) →
  let s := w_db (serve fips ttl rb own sign_ok dist o w).2 in
  VaultInv s ∧
  ∀ sid, sid ∉ Sessions s → ∀ p c, heap s !! p = Some c → k_session c = sid → k_key c = None.
Proof.
  intros Hrel Hd HI s.
  assert (HI' : VaultInv s) by (by apply (within_identity_serve fips ttl rb own sign_ok dist o Hd w)).
  split; [done|]. intros sid Hsid p c Hc <-. destruct (k_key c) eqn:Hk; [|done].
  assert (Hp : slot (k_session c) (k_host c) s = Some p) by (apply HI'; [done|congruence]).
  exfalso. apply Hsid, elem_of_dom. unfold slot in Hp. by destruct (vault s !! k_session c).
Qed.

(** ending a session ends its credentials. After [DestroySession] the vault holds nothing of the
    session and every key it ever held for it is zeroized, even when the statement fails; the other
    sessions' credentials are untouched. When the statement succeeds, every certificate of the
    session is revoked, those that were not yet revoked are in the revocation list, no revocation is
    forgotten, and the certificates of other sessions are unchanged. *)
Theorem destroy_session_spec `{!Env store, !Quiet Env0} sid n s :
  VaultInv s →
  let s' := w_db (DestroySession sid (World n s)).2 in
  (∀ hid, lookup_cred sid hid s' = None) ∧
  (∀ p c, heap s' !! p = Some c → k_session c = sid → k_key c = None) ∧
  (∀ sid' hid, sid' ≠ sid → lookup_cred sid' hid s' = lookup_cred sid' hid s) ∧
  (db_err n = false → ∀ serial c, certs s !! serial = Some c →
    (c_session c = Some sid → serial ∈ dom (certs s') ∧
       ∀ c', certs s' !! serial = Some c' → c_revoked c' ≠ None) ∧
    (of_session sid c = true → serial ∈ dom (revocations s')) ∧
    (c_session c ≠ Some sid → certs s' !! serial = Some c)) ∧
  dom (revocations s) ⊆ dom (revocations s').
Proof.
  intros HI s'.
  assert (Hv : vault s' = vault (Destroy sid s) ∧ heap s' = heap (Destroy sid s)).
  { subst s'. unfold DestroySession. run_step. by destruct (db_err n). }
  destruct Hv as [Hv Hh].
  assert (HI' : VaultInv s') by (eapply VaultInv_frame; [done..|by apply VaultInv_Destroy]).
  assert (Hslot : ∀ sid' hid, slot sid' hid s' = if decide (sid' = sid) then None else slot sid' hid s).
  { intros sid' hid. rewrite <- slot_Destroy. unfold slot. by rewrite Hv. }
  split_and!.
  - intros hid. unfold lookup_cred. by rewrite Hslot, decide_True.
  - intros p c Hc <-. destruct (k_key c) eqn:Hk; [|done].
    assert (Hp : slot (k_session c) (k_host c) s' = Some p) by (apply HI'; [done|congruence]).
    by rewrite Hslot, decide_True in Hp.
  - intros sid' hid Hne. unfold lookup_cred. rewrite Hslot, decide_False by done.
    destruct (slot sid' hid s) as [p|] eqn:Hp; [|done]. simpl. rewrite Hh. apply heap_Destroy_other.
    intros hid' Hp'. destruct (slot_live _ HI _ _ _ Hp) as (c & Hc & _ & <- & _).
    destruct (slot_live _ HI _ _ _ Hp') as (c' & Hc' & _ & ? & _). congruence.
  - intros He serial c Hc.
    assert (Hrun : certs s' = (λ c, if of_session sid c then revoke (clock n) "session_ended" c else c) <$> certs s ∧
      revocations s' = revocations s ∪ ((λ _, (clock n, "session_ended")) <$>
        filter (λ kc, of_session sid kc.2 = true) (certs s))).
    { subst s'. unfold DestroySession. run_step. rewrite He. unfold Destroy.
      by destruct (vault s !! sid). }
    destruct Hrun as [-> ->]. rewrite lookup_fmap, Hc. simpl. split_and!.
    + intros Hs. rewrite dom_fmap. split; [by apply elem_of_dom_2 in Hc|].
      intros c' [= <-]. unfold of_session. rewrite bool_decide_eq_true_2 by done. simpl.
      case_bool_decide; done.
    + intros Hof. rewrite dom_union, dom_fmap. apply elem_of_union_r, elem_of_dom. exists c.
      by apply map_lookup_filter_Some.
    + intros Hs. unfold of_session. by rewrite bool_decide_eq_false_2.
  - subst s'. unfold DestroySession. run_step. destruct (db_err n); simpl;
      unfold Destroy; destruct (vault s !! sid); simpl; set_solver.
Qed.

Section quiet.
Context `{!Env store, !Quiet Env0, !Keys, !UuidText}.
Context (fips : bool) (ttl rb : Z) (own : option uuid) (sign_ok : N → bool).

(** what [EnsureHostCredential] guarantees when it answers. Either the session already had a live
    certificate for the host with more than the renewal window left, which is returned as it is,
    whatever principals are asked for; or a new credential is in the session's slot for the host, with
    a live key, exactly the principals of the tier asked for, and an unrevoked row recorded under its
    serial, a serial no certificate had before. *)
Theorem ensure_host_credential_spec sid uid hid name hn ps n s serial w :
  EnsureHostCredential fips ttl rb own sign_ok sid uid hid name hn ps (World n s) = (Some serial, w) →
  (w_db w = s ∧ ∃ c, GetHost sid hid s = Some c ∧ k_serial c = serial ∧ rb < k_expires c - clock n) ∨
  (∃ c row, GetHost sid hid (w_db w) = Some c ∧ k_serial c = serial ∧ is_Some (k_key c) ∧
     k_principals c = hostPrincipals ps name hid ∧
     certs s !! serial = None ∧ certs (w_db w) !! serial = Some row ∧ c_revoked row = None ∧
     c_principals row = hostPrincipals ps name hid ∧ c_session row = Some sid).
Proof.
  assert (Hnew : ∀ m, IssueForHost fips ttl own sign_ok sid uid hid name hn ps (World m s) = (Some serial, w) →
    ∃ c row, GetHost sid hid (w_db w) = Some c ∧ k_serial c = serial ∧ is_Some (k_key c) ∧
     k_principals c = hostPrincipals ps name hid ∧
     certs s !! serial = None ∧ certs (w_db w) !! serial = Some row ∧ c_revoked row = None ∧
     c_principals row = hostPrincipals ps name hid ∧ c_session row = Some sid).
  { intros m Hi. apply issue_issued in Hi. pose proof (issued_get _ _ _ _ _ _ _ _ Hi) as (c & ?&?&?&?&?).
    destruct (iss_row _ _ _ _ _ _ _ _ Hi) as (row & -> & ?&?&?&?&?). exists c, row.
    rewrite lookup_insert_eq. by split_and!. }
  unfold EnsureHostCredential. run_step. destruct (GetHost sid hid s) as [c|]; [|right; eauto].
  run_step. case_match eqn:Hrb; [|right; eauto]. intros [= <- <-]. left. split; [done|].
  exists c. split_and!; [done..|lia].
Qed.

(** revoking a certificate does not take it out of the vault. After the certificate of a live
    per-host credential is revoked - as cutting a user's access to a host does - the next connection
    is given that same serial, whatever principals it asks for, until the credential enters its
    renewal window; so access restored by an administrator stays refused by the host. *)
Theorem revoked_credential_reused sid uid hid name hn ps n m s c reason :
  GetHost sid hid s = Some c → rb < k_expires c - clock m →
  let s' := (RevokeCertificate (k_serial c) reason n s).2 in
  k_serial c ∈ dom (revocations s') ∧
  EnsureHostCredential fips ttl rb own sign_ok sid uid hid name hn ps (World m s') =
    (Some (k_serial c), World (S m) s').
Proof.
  intros Hc Hlong s'. split.
  - subst s'. simpl. rewrite dom_union, dom_singleton. set_solver.
  - unfold EnsureHostCredential. run_step. change (GetHost sid hid s') with (GetHost sid hid s). rewrite Hc.
    run_step. by rewrite (proj2 (Z.ltb_lt _ _) Hlong).
Qed.

(** renewal turns a per-host certificate into the session's identity. The renewal loop re-issues
    every certificate about to expire as the session-level credential, with the principals of the old
    one: when the expiring certificate is a login-tier one for a host, the session's own credential,
    which authenticates the jump hop, no longer carries the fleet principal, so that the jump host
    refuses every further connection of the session; and the host's credential is not renewed. *)
Theorem renewal_drops_fleet `{!Sshd} n s serial c sid uid :
  VaultInv s → db_err (S n) = false →
  (ExpiringCertificates (clock n + rb) (clock (S n)) s).1 = Ok [(serial, c)] →
  c_session c = Some sid → c_user c = Some uid → is_Some (Get sid s) →
  c_principals c ≠ [] → Global ∉ c_principals c →
  let name := if db_err (S (S n)) then "" else default "" (users s !! uid) in
  (Issue fips ttl own sign_ok sid uid name (c_principals c) (World (S (S (S n))) s)).1 ≠ None →
  let s' := w_db (RenewExpiring fips ttl rb own sign_ok (World n s)).2 in
  (∃ j, Get sid s' = Some j ∧ k_principals j = c_principals c ∧ is_Some (k_key j) ∧
        accepts [Global] (k_principals j) = false) ∧
  ∀ h, h ≠ sessionScope → GetHost sid h s' = GetHost sid h s.
Proof.
  intros HI He Hexp Hsid Huid [live Hlive] Hne HnoG name Hissue s'.
  destruct (Issue fips ttl own sign_ok sid uid name (c_principals c) (World (S (S (S n))) s)) as [[z|] w] eqn:Hi;
    [|done].
  assert (Hw : vault s' = vault (w_db w) ∧ heap s' = heap (w_db w)).
  { subst s'. unfold RenewExpiring. run_step. rewrite He, Hexp. simpl. rewrite Hsid. run_step.
    rewrite Hlive, Huid. run_step. subst name.
    destruct (db_err (S (S n))); simpl;
      [|unfold get_row, reading; destruct (users s !! uid); simpl in *];
      rewrite Hi; simpl; rewrite run_bind; destruct w as [t s1]; rewrite run_db;
      by destruct (db_err t). }
  destruct Hw as [Hv Hh]. unfold Issue in Hi. rewrite bool_decide_eq_false_2 in Hi by done.
  apply issue_issued in Hi.
  assert (Hlk : ∀ h, lookup_cred sid h s' = lookup_cred sid h (w_db w)).
  { intros h. unfold lookup_cred, slot. by rewrite Hv, Hh. }
  split.
  - destruct (issued_get _ _ _ _ _ _ _ _ Hi) as (j & Hj & _ & Hps & Hk & _). exists j. split_and!; [|done..|].
    + unfold Get. by rewrite Hlk.
    + apply not_true_iff_false. rewrite Hps, accepts_spec. set_solver.
  - intros h Hh0. unfold GetHost. rewrite Hlk. eapply issued_other; [done..|]. naive_solver.
Qed.
End quiet.

(** * Witnesses *)
#[export] Instance toy_text : UuidText.
Proof. refine {| uuid_text := pretty |}. Defined.
#[export] Instance toy_sshd : Sshd.
Proof.
  refine {| accepts file ps := existsb (λ p, bool_decide (p ∈ file)) ps |}.
  intros file ps. rewrite existsb_exists. setoid_rewrite bool_decide_eq_true.
  by setoid_rewrite list_elem_of_In.
Defined.
#[local] Existing Instances toy_keys quiet_env.

(** A signed-in user 2 with session 9, host 5, and the CA of [CertAuthority.boot_run]. *)
Definition toy_store : store :=
  Store (w_db boot_run.2) {[2%N := "ana"]} {[9%N]} {[5%N]} 0 ∅ ∅ ∅ [] ∅ ∅ ∅.
Definition life : Z := 100 * second.
Definition window : Z := 30 * second.
Definition yes (k : N) : bool := true.
Definition signed_in : world store :=
  (EnsureCredential false life None yes 2 9 "ana" (World 0 toy_store)).2.
Definition connected : option Z * world store :=
  EnsureHostCredential false life window None yes 9 2 5 "ana" "web" [GlobalLogin; User "ana"] signed_in.

Example connected_ok : connected.1 = Some 2 ∧ w_tick connected.2 = 8%nat ∧
  (k_principals <$> Get 9 (w_db connected.2)) = Some ["fleet"; "user:ana"] ∧
  (k_principals <$> GetHost 9 5 (w_db connected.2)) = Some ["fleet-login"; "fleet-login-h-5"; "user:ana"].
Proof. by vm_compute. Qed.

Lemma VaultInv_empty s : heap s = ∅ → vault s = ∅ → VaultInv s.
Proof.
  intros Hh Hv. split.
  - intros sid hid p. unfold slot. by rewrite Hv.
  - intros p c. by rewrite Hh.
Qed.

#[local] Instance toy_relies : @Relies store quiet_env Rv.
Proof. intros n s. exact id. Qed.

Lemma connected_inv : VaultInv (w_db connected.2).
Proof.
  assert (H1 : VaultInv (w_db signed_in)).
  { eapply (within_identity_serve false life window None yes None (OpEnsure 2 9 "ana")); [done|exact I|].
    by apply VaultInv_empty. }
  eapply (within_Ensure false life window None yes 9 2 5); [exact I|exact H1].
Qed.

Lemma vault_keys_inv_witness :
  VaultInv (w_db (serve false life window None yes None (OpDestroy 9) connected.2).2).
Proof.
  exact (proj1 (vault_keys_inv false life window None yes None (OpDestroy 9) connected.2
    toy_relies (λ d H, match H with end) connected_inv)).
Defined.

Definition connected_cred : credential := default (Credential 0 0 0 "" 0 [] 0 None) (GetHost 9 5 (w_db connected.2)).

Lemma ensure_host_credential_spec_witness :
  ∃ c row, GetHost 9 5 (w_db connected.2) = Some c ∧ k_serial c = 2 ∧ is_Some (k_key c) ∧
     k_principals c = hostPrincipals [GlobalLogin; User "ana"] "ana" 5 ∧
     certs (w_db signed_in) !! 2 = None ∧ certs (w_db connected.2) !! 2 = Some row ∧ c_revoked row = None ∧
     c_principals row = hostPrincipals [GlobalLogin; User "ana"] "ana" 5 ∧ c_session row = Some 9%N.
Proof.
  destruct (ensure_host_credential_spec false life window None yes 9 2 5 "ana" "web"
    [GlobalLogin; User "ana"] (w_tick signed_in) (w_db signed_in) 2 connected.2) as [[_ (c & H & _)]|H].
  - by vm_compute.
  - exfalso. revert H. by vm_compute.
  - exact H.
Defined.

Lemma revoked_credential_reused_witness :
  (EnsureHostCredential false life window None yes 9 2 5 "ana" "web" []
     (World 20 (RevokeCertificate 2 "host access revoked" 15 (w_db connected.2)).2)).1 = Some 2.
Proof.
  assert (H := proj2 (revoked_credential_reused false life window None yes 9 2 5 "ana" "web" [] 15 20
    (w_db connected.2) connected_cred "host access revoked" ltac:(by vm_compute) ltac:(by vm_compute))).
  change (k_serial connected_cred) with 2 in H. by rewrite H.
Defined.

Lemma destroy_session_spec_witness :
  is_Some (lookup_cred 9 5 (w_db connected.2)) ∧
  lookup_cred 9 5 (w_db (DestroySession 9 (World 30 (w_db connected.2))).2) = None.
Proof.
  split; [by eexists; vm_compute|].
  exact (proj1 (destroy_session_spec 9 30 (w_db connected.2) connected_inv) 5%N).
Defined.

(** An environment whose clock is past the renewal point of the host certificate, the session's own
    certificate being revoked already (it was renewed on another instance). *)
Definition late_env : Env store := MkEnv store (λ _, false) (λ n, 80 * second + Z.of_nat n) (λ _ s, s).
#[local] Instance late_quiet : @Quiet store late_env.
Proof. done. Qed.
Definition late_store : store := (RevokeCertificate 1 "manual" 10 (w_db connected.2)).2.

Lemma renewal_drops_fleet_witness :
  ∃ j, Get 9 (w_db (RenewExpiring (Env0:=late_env) false life window None yes (World 0 late_store)).2) = Some j ∧
    k_principals j = ["fleet-login"; "fleet-login-h-5"; "user:ana"] ∧ is_Some (k_key j) ∧
    accepts [Global] (k_principals j) = false.
Proof.
  refine (proj1 (renewal_drops_fleet (Env0:=late_env) false life window None yes 0 late_store 2
    (Cert "user" (Some 0%N) (Some 2%N) (Some 9%N) (Some 5%N) "ana/host:web/2"
       ["fleet-login"; "fleet-login-h-5"; "user:ana"] "ssh-ed25519 AAAA" (100 * second) None None) 9 2
    _ _ _ _ _ _ _ _ _)).
  - eapply VaultInv_frame; [..|exact connected_inv]; by vm_compute.
  - done.
  - by vm_compute.
  - done.
  - done.
  - vm_compute. by eexists.
  - done.
  - simpl. rewrite !elem_of_cons, elem_of_nil. intros [H|[H|[H|[]]]]; by vm_compute in H.
  - by vm_compute.
Defined.
