(* ===== verification/HostKeys.v ===== *)
(** Trust on first use of SSH host keys: the verifier of [sshgw/hostkey.go], the pins of
    [store/hostkeys.go] and the two handlers of [hosts/handlers.go]. [knownhosts.Normalize] and the
    fingerprint of a key line are parameters. The verifier holds its mutex across its statements, so
    that a check, seen from its own process, is one step. *)
From stdpp Require Import pretty.
From S2P Require Import Prelude.

(** [HostKeyPin], keyed by host. *)
Record pin := Pin { KeyLine : string; KeyType : string; Source : string }.

(** What a host is dialled as. *)
Record host := Host { SSHPort : Z; WGAddress : string; Address : string; Hostname : string }.

(** [hosts], [ssh_host_keys], the audit log, and the verifier's cache [seen]. *)
Record store := Store {
  hosts : gmap uuid host; pins : gmap string pin; audits : list (string * uuid);
  seen : gmap string string;
}.

Definition set_pins (s : store) m := Store (hosts s) m (audits s) (seen s).
Definition set_seen (s : store) m := Store (hosts s) (pins s) (audits s) m.

(** * The statements *)
Definition GetHostKey (h : string) (now : Z) (s : store) : res store_error (option pin) * store :=
  (Ok (pins s !! h), s).
Definition PinHostKey (h line typ : string) (now : Z) (s : store) : res store_error unit * store :=
  (Ok tt, set_pins s (match pins s !! h with
                      | Some _ => pins s
                      | None => <[h := Pin line typ "tofu"]> (pins s)
                      end)).
Definition SetPinnedHostKey (h line typ : string) (now : Z) (s : store) : res store_error unit * store :=
  (Ok tt, set_pins s (<[h := Pin line typ "pinned"]> (pins s))).
Definition DeleteHostKey (h : string) (now : Z) (s : store) : res store_error unit * store :=
  (Ok tt, set_pins s (delete h (pins s))).

Definition delete_rows (hs : list string) (now : Z) (s : store) : res store_error nat * store :=
  let kept := filter (λ kp, kp.1 ∉ hs) (pins s) in
  (Ok (size (pins s) - size kept)%nat, set_pins s kept).
Definition list_rows (hs : list string) (now : Z) (s : store)
    : res store_error (gmap string pin) * store :=
  (Ok (filter (λ kp, kp.1 ∈ hs) (pins s)), s).
Definition GetHost (id : uuid) : Z → store → res store_error host * store := get_row (λ s, hosts s !! id).
Definition AppendAudit (e : string * uuid) (now : Z) (s : store) : res store_error unit * store :=
  (Ok tt, Store (hosts s) (pins s) (audits s ++ [e]) (seen s)).

(** [net.JoinHostPort] *)
Definition JoinHostPort (h p : string) : string :=
  if contains_sub ":" h || contains_sub "%" h then "[" +:+ h +:+ "]:" +:+ p else h +:+ ":" +:+ p.

Section verifier.
Context `{!Env store}.
Context (Normalize : string → string) (Fingerprint : string → string).
(** Whether the verifier has a database behind it, and whether the gateway verifies at all. *)
Context (has_store insecure : bool).

(** Nothing is asked of the database when no host is named. *)
Definition DeleteHostKeys (hs : list string) : M store (res store_error nat) :=
  if bool_decide (hs = []) then mret (Ok 0%nat) else db (delete_rows hs).
Definition ListHostKeys (hs : list string) : M store (res store_error (gmap string pin)) :=
  if bool_decide (hs = []) then mret (Ok ∅) else db (list_rows hs).

Definition cache (id line : string) (s : store) : store := set_seen s (<[id := line]> (seen s)).

(** [compare]: nil, or the mismatch error. *)
Definition compare (pinned presented : string) : option string :=
  if str_eqb pinned presented then None else Some "host key does not match the pinned key".

(** [check]: the third step of the verifier, pinning a host seen for the first time. *)
Definition first_use (id line typ : string) : M store (option string) :=
  _ ← effect (cache id line);
  if has_store then _ ← db (PinHostKey id line typ); mret None else mret None.

Definition check (hostname line typ : string) : M store (option string) :=
  let id := Normalize hostname in
  prev ← peek (λ s, seen s !! id);
  match prev with
  | Some prev => mret (compare prev line)
  | None =>
    if has_store then
      r ← db (GetHostKey id);
      match r with
      | Err _ => mret (Some "could not verify host key")
      | Ok (Some p) => _ ← effect (cache id (KeyLine p)); mret (compare (KeyLine p) line)
      | Ok None => first_use id line typ
      end
    else first_use id line typ
  end.

(** [hostKeyCallback] *)
Definition hostKeyCallback (hostname line typ : string) : M store (option string) :=
  if insecure then mret None else check hostname line typ.

Definition HostKeyID (addr : string) (port : Z) : string := Normalize (JoinHostPort addr (pretty port)).

Definition add_id (port : Z) (ids : list string) (a : string) : list string :=
  let a := TrimSpace a in
  if str_eqb a "" then ids
  else let id := HostKeyID a port in if bool_decide (id ∈ ids) then ids else ids ++ [id].
Definition HostKeyIDs (port : Z) (addrs : list string) : list string :=
  let port := if port <=? 0 then 22 else port in
  foldl (add_id port) [] addrs.

Definition ForgetHostKeys (ids : list string) (s : store) : store :=
  set_seen s (filter (λ kl, kl.1 ∉ ids) (seen s)).

(** * The handlers *)
Definition hostKeyIdentities (h : host) : list string :=
  HostKeyIDs (SSHPort h) [WGAddress h; Address h; Hostname h].

Definition hostKeyPins (idp : option uuid) : M store (reply (gmap string (string * string * string))) :=
  match idp with
  | None => mret (WriteError 400 "invalid host id")
  | Some id =>
    r ← db (GetHost id);
    match r with
    | Err _ => mret (WriteError 404 "host not found")
    | Ok h =>
      r ← ListHostKeys (hostKeyIdentities h);
      mret (match r with
            | Err _ => WriteError 500 "could not read host key pins"
            | Ok m => WriteJSON 200 ((λ p, (KeyType p, Source p, Fingerprint (KeyLine p))) <$> m)
            end)
    end
  end.

Definition clearHostKeyPins (idp : option uuid) : M store (reply (nat * list string)) :=
  match idp with
  | None => mret (WriteError 400 "invalid host id")
  | Some id =>
    r ← db (GetHost id);
    match r with
    | Err _ => mret (WriteError 404 "host not found")
    | Ok h =>
      let ids := hostKeyIdentities h in
      _ ← ListHostKeys ids;
      r ← DeleteHostKeys ids;
      match r with
      | Err _ => mret (WriteError 500 "could not clear host key pins")
      | Ok cleared =>
        _ ← effect (ForgetHostKeys ids);
        _ ← db (AppendAudit ("host.host_key_cleared", id));
        mret (WriteJSON 200 (cleared, ids))
      end
    end
  end.
End verifier.

(** * Proofs *)

(** The mutex: while a check runs, nothing else of its process touches the cache. *)
Class Mutex `(Env0 : Env store) : Prop := mutex : ∀ n s, seen (interfere n s) = seen s.

(** A process never changes its mind about a host. *)
Definition trusts (s s' : store) : Prop := ∀ id line, seen s !! id = Some line → seen s' !! id = Some line.
#[export] Instance trusts_preorder : PreOrder trusts.
Proof. split; unfold trusts; [intros ?|intros ???]; auto. Qed.

Section check.
Context `{!Env store, !Mutex Env0} (Normalize : string → string).

Lemma compare_spec a b : compare a b = None ↔ a = b.
Proof using Type. unfold compare. destruct (str_eqb a b) eqn:E; [by apply str_eqb_eq in E|].
  split; [done|]. intros ->. by rewrite (proj2 (str_eqb_eq b b)) in E. Qed.

Lemma db_seen {A} (f : Z → store → res store_error A * store) w :
  (∀ now s, seen (f now s).2 = seen s) → seen (w_db (db f w).2) = seen (w_db w).
Proof using Mutex0.
  intros Hf. rewrite db_eq. case_match; simpl; [apply mutex|]. by rewrite Hf, mutex.
Qed.

Lemma first_use_run has_store id line typ w :
  (first_use has_store id line typ w).1 = None ∧
  seen (w_db (first_use has_store id line typ w).2) = <[id := line]> (seen (w_db w)).
Proof using Mutex0.
  unfold first_use. rewrite run_bind. destruct has_store; [|done]. rewrite run_bind. split; [done|].
  simpl. by rewrite db_seen.
Qed.

(** The cache after a check, and its answer. *)
Lemma check_cached has_store h line typ w prev :
  seen (w_db w) !! Normalize h = Some prev →
  check Normalize has_store h line typ w = (compare prev line, w).
Proof using Type. intros Hp. unfold check. rewrite run_bind. simpl. rewrite Hp. by destruct w. Qed.

Lemma check_uncached has_store h line typ w :
  seen (w_db w) !! Normalize h = None →
  let s := interfere (w_tick w) (w_db w) in
  let q := check Normalize has_store h line typ w in
  if has_store then
    if db_err (w_tick w) then q.1 ≠ None ∧ seen (w_db q.2) = seen (w_db w)
    else match pins s !! Normalize h with
         | Some p => (q.1 = None ↔ KeyLine p = line) ∧
                     seen (w_db q.2) = <[Normalize h := KeyLine p]> (seen (w_db w))
         | None => q.1 = None ∧ seen (w_db q.2) = <[Normalize h := line]> (seen (w_db w))
         end
  else q.1 = None ∧ seen (w_db q.2) = <[Normalize h := line]> (seen (w_db w)).
Proof using Mutex0.
  intros Hn s q. subst q. unfold check. rewrite run_bind. simpl. rewrite Hn.
  destruct has_store; [|apply first_use_run].
  rewrite run_bind, db_eq. fold s. destruct (db_err (w_tick w)); simpl;
    [split; [done|apply mutex]|].
  destruct (pins s !! Normalize h) as [p|].
  - rewrite run_bind. simpl. split; [apply compare_spec|]. subst s. by rewrite mutex.
  - subst s. destruct (first_use_run true (Normalize h) line typ
      (World (S (w_tick w)) (interfere (w_tick w) (w_db w)))) as [-> Hs].
    rewrite Hs. simpl. by rewrite mutex.
Qed.
End check.

(** A check keeps what the process trusts, and what it accepts is what it trusts afterwards. *)
Lemma check_trust `{!Env store, !Mutex Env0} Normalize hst h line typ w :
  let q := check Normalize hst h line typ w in
  trusts (w_db w) (w_db q.2) ∧ (q.1 = None → seen (w_db q.2) !! Normalize h = Some line).
Proof.
  intros q. destruct (seen (w_db w) !! Normalize h) as [prev|] eqn:Hp.
  - subst q. rewrite (check_cached _ _ _ _ _ _ _ Hp). split; [by intros ?|].
    simpl. rewrite compare_spec. by intros <-.
  - pose proof (check_uncached Normalize hst h line typ w Hp) as H. fold q in H. simpl in H.
    assert (Hins : ∀ l, seen (w_db q.2) = <[Normalize h := l]> (seen (w_db w)) → trusts (w_db w) (w_db q.2)).
    { intros l Hl i l' Hi. rewrite Hl, lookup_insert_ne; [done|congruence]. }
    destruct hst; [destruct (db_err (w_tick w)); [|destruct (pins _ !! _) as [p|]]|].
    + destruct H as [H1 H2]. split; [intros i l; by rewrite H2|]. by intros ?%H1.
    + destruct H as [H1 H2]. split; [by eapply Hins|]. intros Hn%H1. by rewrite H2, lookup_insert_eq, Hn.
    + destruct H as [H1 H2]. split; [by eapply Hins|]. intros _. by rewrite H2, lookup_insert_eq.
    + destruct H as [H1 H2]. split; [by eapply Hins|]. intros _. by rewrite H2, lookup_insert_eq.
Qed.

(** A dial: the address, the key presented, and its type. *)
Definition dial : Type := string * string * string.
Definition run_check `{!Env store} Normalize hst (d : dial) : M store (option string) :=
  check Normalize hst d.1.1 d.1.2 d.2.

Lemma checks_trust `{!Env store, !Mutex Env0} Normalize hst l w :
  let q := mapM (run_check Normalize hst) l w in
  trusts (w_db w) (w_db q.2) ∧
  ∀ i d, l !! i = Some d → q.1 !! i = Some None → seen (w_db q.2) !! Normalize d.1.1 = Some d.1.2.
Proof.
  revert w. induction l as [|d l IH]; intros w; [by split|].
  change (mapM (run_check Normalize hst) (d :: l))
    with (b ← run_check Normalize hst d; bs ← mapM (run_check Normalize hst) l; mret (b :: bs)).
  rewrite run_bind, run_bind. simpl.
  destruct (check_trust Normalize hst d.1.1 d.1.2 d.2 w) as [K1 K2].
  destruct (IH (run_check Normalize hst d w).2) as [L1 L2]. split; [by etrans|].
  intros [|i] d'; simpl.
  - intros [= <-] [= Hn]. by apply L1, K2.
  - intros Hd Hr. by eapply L2.
Qed.

(** trust on first use. Within a run of a server, however other servers' pins interleave with its
    statements and whichever of them fail, any two accepted connections to the same host presented
    the same key; and a host already trusted, or pinned in the database when it is first dialled,
    is accepted exactly with that key, while a failed lookup of its pin refuses it. *)
Theorem tofu_one_key `{!Env store, !Mutex Env0} Normalize l w :
  let q := mapM (run_check Normalize true) l w in
  (∀ i j di dj, l !! i = Some di → l !! j = Some dj → q.1 !! i = Some None → q.1 !! j = Some None →
     Normalize di.1.1 = Normalize dj.1.1 → di.1.2 = dj.1.2) ∧
  ∀ d, let id := Normalize d.1.1 in let ans := (run_check Normalize true d w).1 in
    match seen (w_db w) !! id with
    | Some known => ans = None ↔ d.1.2 = known
    | None =>
      if db_err (w_tick w) then ans ≠ None
      else match pins (interfere (w_tick w) (w_db w)) !! id with
           | Some p => ans = None ↔ d.1.2 = KeyLine p
           | None => ans = None
           end
    end.
Proof.
  intros q. destruct (checks_trust Normalize true l w) as [_ H]. fold q in H. split.
  - intros i j di dj Hi Hj Ri Rj Heq. pose proof (H _ _ Hi Ri). pose proof (H _ _ Hj Rj). congruence.
  - intros d id ans. subst id ans. unfold run_check. destruct (seen (w_db w) !! _) as [known|] eqn:Hp.
    + rewrite (check_cached _ _ _ _ _ _ _ Hp). simpl. rewrite compare_spec. done.
    + pose proof (check_uncached Normalize true d.1.1 d.1.2 d.2 w Hp) as Hu. simpl in Hu.
      destruct (db_err (w_tick w)); [apply Hu|]. destruct (pins _ !! _); [|apply Hu].
      destruct Hu as [-> _]. done.
Qed.

(** The other server pins its own first key between this server's lookup and its insert. *)
Definition racing (id line : string) : Env store :=
  MkEnv store (λ _, false) (λ _, 0)
    (λ n s, if (n =? 1)%nat then (PinHostKey id line "ssh-ed25519" 0 s).2 else s).
#[export] Instance racing_mutex id line : Mutex (racing id line).
Proof. intros n s. simpl. by destruct (n =? 1)%nat. Qed.

(** two servers can trust different keys of one host. When another server pins a key between this
    server's lookup of the pin and its insert, the insert does nothing and the first connection is
    accepted all the same: the table holds the other key, while this server goes on accepting its
    own, and refuses the pinned one, until it restarts. *)
Theorem first_use_race Normalize h mine other typ hs0 :
  mine ≠ other →
  let env := racing (Normalize h) other in
  let s := Store hs0 ∅ [] ∅ in
  let q := check (Env0:=env) Normalize true h mine typ (World 0 s) in
  q.1 = None ∧
  (KeyLine <$> pins (w_db q.2) !! Normalize h) = Some other ∧
  (check (Env0:=env) Normalize true h mine typ q.2).1 = None ∧
  (check (Env0:=env) Normalize true h other typ q.2).1 ≠ None.
Proof.
  intros Hne env s.
  assert (Hq : check (Env0:=env) Normalize true h mine typ (World 0 s) =
    (None, World 2 (Store hs0 {[Normalize h := Pin other "ssh-ed25519" "tofu"]} []
                      {[Normalize h := mine]}))).
  { unfold check, first_use. rewrite run_bind. cbn [peek fst snd w_db seen s]. rewrite lookup_empty.
    rewrite run_bind, db_eq. cbn. rewrite lookup_empty. rewrite run_bind. cbn [effect fst snd].
    rewrite run_bind, db_eq. cbn. rewrite lookup_empty. cbn. by rewrite lookup_insert_eq. }
  intros q. subst q. rewrite Hq. simpl. rewrite lookup_singleton_eq.
  assert (Hc : ∀ line, (check (Env0:=env) Normalize true h line typ (World 2 (Store hs0
    {[Normalize h := Pin other "ssh-ed25519" "tofu"]} [] {[Normalize h := mine]}))).1 = compare mine line).
  { intros line. rewrite (check_cached _ _ _ _ _ _ mine); [done|]. simpl. by rewrite lookup_singleton_eq. }
  rewrite !Hc. split_and!; [done..|by apply compare_spec|]. by rewrite compare_spec.
Qed.

(** * Forgetting a host *)
Section clear.
Context (Normalize : string → string).

Lemma elem_HostKeyIDs port addrs id :
  id ∈ HostKeyIDs Normalize port addrs ↔
  ∃ a, a ∈ addrs ∧ TrimSpace a ≠ "" ∧
       id = HostKeyID Normalize (TrimSpace a) (if port <=? 0 then 22 else port).
Proof.
  unfold HostKeyIDs. set (p := if port <=? 0 then 22 else port).
  assert (H : ∀ l acc, id ∈ foldl (add_id Normalize p) acc l ↔
    id ∈ acc ∨ ∃ a, a ∈ l ∧ TrimSpace a ≠ "" ∧ id = HostKeyID Normalize (TrimSpace a) p).
  2: { rewrite H. split; [by intros [?%elem_of_nil|]|by right]. }
  induction l as [|a l IH]; intros acc; simpl.
  { split; [by left|]. by intros [|(a & ?%elem_of_nil & _)]. }
  rewrite IH. unfold add_id. destruct (str_eqb (TrimSpace a) "") eqn:Ha.
  - apply str_eqb_eq in Ha. split.
    + intros [|(b & ? & ?)]; [by left|right; exists b; split; [by right|done]].
    + intros [|(b & [->| ]%elem_of_cons & ? & ?)]; [by left|done|right; by exists b].
  - assert (TrimSpace a ≠ "") by (intros E; apply str_eqb_eq in E; congruence).
    assert (Hadd : id ∈ (if bool_decide (HostKeyID Normalize (TrimSpace a) p ∈ acc) then acc
                         else acc ++ [HostKeyID Normalize (TrimSpace a) p]) ↔
                   id ∈ acc ∨ id = HostKeyID Normalize (TrimSpace a) p).
    { case_bool_decide; [|by rewrite elem_of_app, list_elem_of_singleton].
      split; [by left|]. by intros [| ->]. }
    rewrite Hadd. split.
    + intros [[| ->]|(b & ? & ?)]; [by left|right; exists a; split; [by left|done]
                                  |right; exists b; split; [by right|done]].
    + intros [|(b & [->| ]%elem_of_cons & ? & ->)]; [by left; left|by left; right|right; by exists b].
Qed.

Lemma lookup_drop {A} (m : gmap string A) (ids : list string) id :
  filter (λ kp, kp.1 ∉ ids) m !! id = if decide (id ∈ ids) then None else m !! id.
Proof.
  case_decide.
  - apply map_lookup_filter_None. right. simpl. tauto.
  - destruct (m !! id) eqn:Hm; [by apply map_lookup_filter_Some | apply map_lookup_filter_None; by left].
Qed.

Lemma empty_ids {A} (m : gmap string A) : filter (λ kp, kp.1 ∉ ([] : list string)) m = m.
Proof. apply map_eq. intros i. rewrite lookup_drop, decide_False; [done|apply not_elem_of_nil]. Qed.

(** clearing a host's pins lets it be trusted afresh, and nothing else. When the request answers
    200, the identities of the host - one per address it is dialled as - are gone from the table and
    from the cache, every other pin and cached key is as it was, and the next connection to any of
    the host's addresses is accepted whatever key it presents. *)
Theorem clear_host_keys_spec `{!Env store, !Quiet Env0} hid n s cleared ids w :
  clearHostKeyPins Normalize (Some hid) (World n s) = (WriteJSON 200 (cleared, ids), w) →
  ∃ h, hosts s !! hid = Some h ∧ ids = hostKeyIdentities Normalize h ∧
    (∀ id, pins (w_db w) !! id = if decide (id ∈ ids) then None else pins s !! id) ∧
    (∀ id, seen (w_db w) !! id = if decide (id ∈ ids) then None else seen s !! id) ∧
    ∀ addr line typ, addr ∈ [WGAddress h; Address h; Hostname h] → addr ≠ "" → TrimSpace addr = addr →
      0 < SSHPort h → db_err (w_tick w) = false →
      (check Normalize true (JoinHostPort addr (pretty (SSHPort h))) line typ w).1 = None.
Proof.
  unfold clearHostKeyPins. run_step. destruct (db_err n); [done|]. unfold GetHost, get_row, reading. cbn [fst snd].
  destruct (hosts s !! hid) as [h|] eqn:Hh; [|done]. simpl. intros Hrun. exists h. split; [done|].
  assert (Hw : ids = hostKeyIdentities Normalize h ∧
    pins (w_db w) = filter (λ kp, kp.1 ∉ ids) (pins s) ∧ seen (w_db w) = filter (λ kl, kl.1 ∉ ids) (seen s)).
  { revert Hrun. unfold ListHostKeys, DeleteHostKeys.
    case_bool_decide as Hids; run_step.
    - destruct (db_err (S n)); intros [= <- <- <-]; simpl; rewrite Hids; by rewrite empty_ids.
    - unfold delete_rows.
      destruct (db_err (S n)); run_step; (destruct (db_err (S (S n))); [done|]); run_step;
        destruct (db_err (S (S (S n)))); by intros [= <- <- <-]. }
  destruct Hw as (Hids & Hp & Hs). split; [done|]. rewrite Hp, Hs.
  split; [intros; apply lookup_drop|]. split; [intros; apply lookup_drop|].
  intros addr line typ Hin Hne Htrim Hport He.
  assert (Hid : Normalize (JoinHostPort addr (pretty (SSHPort h))) ∈ ids).
  { rewrite Hids. apply elem_HostKeyIDs. exists addr. rewrite Htrim. split_and!; [done..|].
    by rewrite (proj2 (Z.leb_gt _ _) Hport). }
  assert (HM : Mutex Env0) by (intros ??; by rewrite quiet).
  pose proof (check_uncached Normalize true (JoinHostPort addr (pretty (SSHPort h))) line typ w) as Hc.
  cbv zeta in Hc. rewrite He, quiet, Hp, Hs, !lookup_drop, !decide_True in Hc by done. by apply Hc.
Qed.
End clear.

(** * Witnesses *)
Definition toy_host : host := Host 22 "10.8.0.2" "" "web".
Definition toy_store : store :=
  Store {[5%N := toy_host]} {["web:22" := Pin "k1" "t" "tofu"; "db:22" := Pin "k2" "t" "tofu"]} []
    {["10.8.0.2:22" := "k1"]}.
#[local] Existing Instance quiet_env.
#[local] Instance quiet_mutex : Mutex (@quiet_env store).
Proof. done. Qed.

Definition dials : list (string * string * string) :=
  [("web:22", "k1", "t"); ("web:22", "k3", "t"); ("web:22", "k1", "t")].
Lemma tofu_one_key_witness :
  (mapM (run_check id true) dials (World 0 toy_store)).1 !! 0%nat = Some None ∧
  (mapM (run_check id true) dials (World 0 toy_store)).1 !! 1%nat ≠ Some None.
Proof.
  split; [by vm_compute|]. intros H1.
  enough ("k1" = "k3") by discriminate.
  refine (proj1 (tofu_one_key id dials (World 0 toy_store)) 0%nat 1%nat ("web:22", "k1", "t") ("web:22", "k3", "t")
    _ _ _ H1 _); by vm_compute.
Defined.

Lemma first_use_race_witness :
  (check (Env0:=racing "web:22" "k9") id true "web:22" "k1" "t" (World 0 (Store ∅ ∅ [] ∅))).1 = None.
Proof. exact (proj1 (first_use_race id "web:22" "k1" "k9" "t" ∅ ltac:(done))). Defined.

Definition cleared_run := clearHostKeyPins id (Some 5%N) (World 0 toy_store).
Lemma clear_host_keys_spec_witness :
  ∃ h, hosts toy_store !! 5%N = Some h ∧ ["10.8.0.2:22"; "web:22"] = hostKeyIdentities id h.
Proof.
  destruct (clear_host_keys_spec id 5 0 toy_store 1 ["10.8.0.2:22"; "web:22"] cleared_run.2) as (h & H1 & H2 & _);
    [by vm_compute | by exists h].
Defined.
