(* ===== verification/Release.v ===== *)
(** Signed releases: the versions and the manifest of [release/manifest.go], the channel index of
    [release/channel.go], signatures and keys of [release/sign.go] and [release/keys.go], the bundle
    of [release/bundle.go]. Ed25519, SHA-256 and the JSON decoder are a class of operations; a tar is
    the sequence of entries [archive/tar] yields. *)
From stdpp Require Import sorting pretty.
From S2P Require Import Prelude GoStrings SecretBox.
From Stdlib Require Import Strings.Ascii.

(** * Versions *)
Record semver := Semver { major : Z; minor : Z; patch : Z }.

Definition natural (s : string) : option Z :=
  n ← Atoi s; if n <? 0 then None else Some n.
Definition parseVersion (s : string) : option semver :=
  let s := before_any ["-"%char; "+"%char] (TrimPrefix "v" (TrimSpace s)) in
  match Split "." s with
  | [a; b; c] => x ← natural a; y ← natural b; z ← natural c; Some (Semver x y z)
  | _ => None
  end.

Definition sign (n : Z) : Z := if 0 <? n then 1 else if n <? 0 then -1 else 0.
Definition compare (a b : semver) : Z :=
  if negb (major a =? major b) then sign (wrap64 (major a - major b))
  else if negb (minor a =? minor b) then sign (wrap64 (minor a - minor b))
  else sign (wrap64 (patch a - patch b)).

Definition NewerVersion (a b : string) : bool :=
  match parseVersion a, parseVersion b with
  | None, _ => false
  | Some _, None => true
  | Some av, Some bv => 0 <? compare av bv
  end.

(** * The manifest *)
Record ConfigAddition := MkAddition { Key : string; Default : string; Generate : string; Comment : string }.
Record ImageRef := MkImage {
  Component : string; Image : string; Tag : string; File : string; Digest : string; Bytes : Z;
}.
Record Manifest := MkManifest {
  SchemaVersion : Z; Version : string; MinFromVersion : string; Components : list string;
  Images : list ImageRef;
  MigrationCompatibility : string; ConfigAdditions : list ConfigAddition;
}.

Inductive manifest_err :=
| BadSchema | NoVersion | NoImages | BadCompatibility
| MissingField (i : nat) | BadDigest (i : nat)
| BadKey (key : string) | BadGenerate (key : string) | DefaultNewline (key : string).

(** [^[A-Z][A-Z0-9_]*$] *)
Definition configKeyRE (s : string) : bool :=
  match s with
  | EmptyString => false
  | String c s' => code_between 65 90 c &&
      all_chars (λ d, code_between 65 90 d || is_digit d || Ascii.eqb d "_") s'
  end.

Definition Addition_Validate (c : ConfigAddition) : option manifest_err :=
  if negb (configKeyRE (Key c)) then Some (BadKey (Key c))
  else if negb (str_eqb (Generate c) "") && negb (str_eqb (Generate c) "secret") then Some (BadGenerate (Key c))
  else if negb (all_chars (λ d, negb (Ascii.eqb d "010") && negb (Ascii.eqb d "013")) (Default c))
  then Some (DefaultNewline (Key c))
  else None.

Definition ManifestSchema : Z := 1.

Definition image_ok (i : nat) (im : ImageRef) : option manifest_err :=
  if str_eqb (Component im) "" || str_eqb (Image im) "" || str_eqb (Tag im) "" || str_eqb (File im) ""
  then Some (MissingField i)
  else if negb (has_prefix "sha256:" (Digest im)) || negb (Nat.eqb (String.length (Digest im)) 71)
  then Some (BadDigest i)
  else None.
(** The first error of a list. *)
Fixpoint first_err {A E} (f : nat → A → option E) (i : nat) (l : list A) : option E :=
  match l with
  | [] => None
  | a :: l' => match f i a with Some e => Some e | None => first_err f (S i) l' end
  end.

Definition Manifest_Validate (m : Manifest) : option manifest_err :=
  if negb (SchemaVersion m =? ManifestSchema) then Some BadSchema
  else if str_eqb (TrimSpace (Version m)) "" then Some NoVersion
  else if bool_decide (Images m = []) then Some NoImages
  else if negb (str_eqb (MigrationCompatibility m) "additive") &&
          negb (str_eqb (MigrationCompatibility m) "breaking") then Some BadCompatibility
  else match first_err image_ok 0 (Images m) with
       | Some e => Some e
       | None => first_err (λ _, Addition_Validate) 0 (ConfigAdditions m)
       end.

Inductive upgrade_err := ErrNotRelease | ErrNotNewer | ErrTooOld.
Definition CheckUpgradeable (m : Manifest) (currentVersion : string) : option upgrade_err :=
  match parseVersion (Version m) with
  | None => Some ErrNotRelease
  | Some newV =>
    match parseVersion currentVersion with
    | None => None
    | Some cur =>
      if compare newV cur <=? 0 then Some ErrNotNewer
      else match parseVersion (MinFromVersion m) with
           | Some minV => if compare cur minV <? 0 then Some ErrTooOld else None
           | None => None
           end
    end
  end.

(** * Signatures *)
Record ChannelRelease := MkRelease {
  r_version : string; r_min_from : string; r_url : string; r_compat : string;
}.
Record ChannelIndex := MkIndex { ix_schema : Z; ix_latest : string; ix_releases : list ChannelRelease }.

Class ReleaseLib := {
  sha256 : bytes → bytes;
  ed_sign : bytes → bytes → bytes;
  ed_verify : bytes → bytes → bytes → bool;
  parse_manifest : bytes → option Manifest;
  parse_index : bytes → option ChannelIndex;
}.

Definition SignatureSize : nat := 64.
Definition PublicKeySize : nat := 32.

Inductive verify_err := ErrNoKeys | ErrSigSize | ErrNoMatch.
Section sign.
Context `{!ReleaseLib}.

Definition Sign (manifestJSON priv : bytes) : bytes := ed_sign priv manifestJSON.
Definition Verify (manifestJSON sig : bytes) (trusted : list bytes) : option verify_err :=
  if bool_decide (trusted = []) then Some ErrNoKeys
  else if negb (Nat.eqb (length sig) SignatureSize) then Some ErrSigSize
  else if existsb (λ pub, Nat.eqb (length pub) PublicKeySize && ed_verify pub manifestJSON sig) trusted
  then None else Some ErrNoMatch.
End sign.

(** [base64.RawStdEncoding]: the standard encoding without its padding. *)
Fixpoint strip_pad (s : string) : string :=
  match s with
  | EmptyString => ""
  | String c s' => if Ascii.eqb c Base64.pad then strip_pad s' else String c (strip_pad s')
  end.
Fixpoint repad (s : string) : option string :=
  match s with
  | EmptyString => Some ""
  | String a (String b EmptyString) => Some (String a (String b "=="))
  | String a (String b (String c EmptyString)) => Some (String a (String b (String c "=")))
  | String a (String b (String c (String d s'))) =>
    t ← repad s'; Some (String a (String b (String c (String d t))))
  | _ => None
  end.
Definition raw_encode (bs : bytes) : string := strip_pad (Base64.encode bs).
Definition raw_decode (s : string) : option bytes :=
  let s := Base64.strip_newlines s in
  if all_chars (λ c, negb (Ascii.eqb c Base64.pad)) s then repad s ≫= Base64.decode_quanta else None.
Definition decodeB64 (s : string) : option bytes :=
  match raw_decode s with Some b => Some b | None => Base64.decode s end.

Definition EncodePublicKey (pub : bytes) : string := raw_encode pub.
Definition EncodeSig (sig : bytes) : string := raw_encode sig.

(** [strings.FieldsFunc] with the separators of a key list. *)
Definition is_sep (c : ascii) : bool := bool_decide (N_of_ascii c ∈ [44; 32; 10; 9; 13]%N).
Fixpoint Fields (cur : string) (s : string) : list string :=
  match s with
  | EmptyString => if str_eqb cur "" then [] else [cur]
  | String c s' =>
    if is_sep c then (if str_eqb cur "" then Fields "" s' else cur :: Fields "" s')
    else Fields (cur +:+ String c "") s'
  end.

Inductive key_err := ErrKeyEncoding | ErrKeyLength.
Fixpoint parse_keys (toks : list string) : res key_err (list bytes) :=
  match toks with
  | [] => Ok []
  | t :: l =>
    let t := TrimSpace t in
    if str_eqb t "" then parse_keys l
    else match decodeB64 t with
         | None => Err ErrKeyEncoding
         | Some b =>
           if negb (Nat.eqb (length b) PublicKeySize) then Err ErrKeyLength
           else k ← parse_keys l; Ok (b :: k)
         end
  end.
Definition ParsePublicKeys (s : string) : res key_err (list bytes) := parse_keys (Fields "" s).

(** The keys embedded at build time, then those of the configuration. *)
Definition TrustedKeys (embeddedTrustKeys extra : string) : res key_err (list bytes) :=
  keys ← ParsePublicKeys embeddedTrustKeys; more ← ParsePublicKeys extra; Ok (keys ++ more).

(** * The channel *)

(** [io.LimitReader] *)
Definition limited (n : Z) (data : bytes) : bytes :=
  if Z.of_nat (length data) <=? n then data else take (Z.to_nat n) data.

Definition to_string (bs : bytes) : string :=
  String.string_of_list_ascii (Ascii.ascii_of_byte <$> bs).
Definition decodeSig (raw : bytes) : bytes :=
  if Nat.eqb (length raw) SignatureSize then raw
  else match decodeB64 (TrimSpace (to_string raw)) with Some b => b | None => raw end.

Inductive channel_err := ErrFetchIndex | ErrFetchSig | ErrChannelSig (e : verify_err) | ErrParseIndex | ErrIndexSchema.

Section channel.
Context `{!ReleaseLib}.
(** The body of a GET answered 200. *)
Context (http : string → option bytes).

Definition httpGet (url : string) (limit : Z) : option bytes := limited limit <$> http url.

Definition FetchChannel (channelURL : string) (trusted : list bytes) : res channel_err ChannelIndex :=
  match httpGet channelURL (2 ^ 20) with
  | None => Err ErrFetchIndex
  | Some idx =>
    match httpGet (channelURL +:+ ".sig") 4096 with
    | None => Err ErrFetchSig
    | Some sigRaw =>
      match Verify idx (decodeSig sigRaw) trusted with
      | Some e => Err (ErrChannelSig e)
      | None =>
        match parse_index idx with
        | None => Err ErrParseIndex
        | Some index => if negb (ix_schema index =? 1) then Err ErrIndexSchema else Ok index
        end
      end
    end
  end.
End channel.

(** Whether a release applies to the running version, and its own version. *)
Definition candidate (cur : option semver) (r : ChannelRelease) : option semver :=
  match parseVersion (r_version r) with
  | None => None
  | Some rv =>
    match cur with
    | None => Some rv
    | Some cur =>
      if compare rv cur <=? 0 then None
      else match parseVersion (r_min_from r) with
           | Some minV => if compare cur minV <? 0 then None else Some rv
           | None => Some rv
           end
    end
  end.
Definition pick_step (cur : option semver) (best : option (ChannelRelease * semver)) (r : ChannelRelease)
    : option (ChannelRelease * semver) :=
  match candidate cur r with
  | None => best
  | Some rv => match best with
               | Some (_, bestV) => if 0 <? compare rv bestV then Some (r, rv) else best
               | None => Some (r, rv)
               end
  end.
Definition PickUpdate (idx : ChannelIndex) (currentVersion : string) : option ChannelRelease :=
  fst <$> foldl (pick_step (parseVersion currentVersion)) None (ix_releases idx).

(** * Bundles *)
(** [filepath.Base] *)
Fixpoint last_elem (cur s : string) : string :=
  match s with
  | EmptyString => cur
  | String c s' => if Ascii.eqb c "/" then last_elem "" s' else last_elem (cur +:+ String c "") s'
  end.
Fixpoint drop_slashes (s : string) : string := (* of a reversed path *)
  match s with
  | EmptyString => ""
  | String c s' => if Ascii.eqb c "/" then drop_slashes s' else s
  end.
Definition Base (path : string) : string :=
  if str_eqb path "" then "."
  else let p := rev_string (drop_slashes (rev_string path "")) "" in
       if str_eqb p "" then "/" else last_elem "" p.

(** The entries of a tar, and whether it ends without a read error. *)
Record tar := MkTar { entries : list (string * bytes); clean : bool }.

Definition manifestName : string := "manifest.json".
Definition sigName : string := "manifest.sig".

Inductive bundle_err :=
| ErrFirstEntry | ErrSecondEntry | ErrVerify (e : verify_err) | ErrParse | ErrManifest (e : manifest_err)
| ErrReadEntry | ErrUnexpected (name : string) | ErrCreate (name : string)
| ErrDigest (component : string) | ErrSize (component : string) | ErrMissing (component : string).

Section bundle.
Context `{!ReleaseLib}.

Definition digest_of (data : bytes) : string := "sha256:" +:+ hex (sha256 data).
(** [HashFile] of a file with this content. *)
Definition HashFile (data : bytes) : string * Z := (digest_of data, Z.of_nat (length data)).

Definition by_name : relation (string * bytes) := λ a b, String.leb a.1 b.1 = true.
#[export] Instance by_name_dec : RelDecision by_name.
Proof. intros a b. unfold by_name. exact _. Defined.

Definition WriteBundle (manifestJSON sig : bytes) (imageFiles : gmap string bytes) : tar :=
  MkTar ((manifestName, manifestJSON) :: (sigName, sig) :: merge_sort by_name (map_to_list imageFiles)) true.

Record Bundle := MkBundle { b_manifest : Manifest; b_rest : tar }.

Definition openReader (t : tar) (trusted : list bytes) : res bundle_err Bundle :=
  match entries t with
  | (n1, d1) :: rest =>
    if negb (str_eqb n1 manifestName) then Err ErrFirstEntry
    else
      let manifestJSON := limited (2 ^ 20) d1 in
      match rest with
      | (n2, d2) :: rest =>
        if negb (str_eqb n2 sigName) then Err ErrSecondEntry
        else
          match Verify manifestJSON (limited 4096 d2) trusted with
          | Some e => Err (ErrVerify e)
          | None =>
            match parse_manifest manifestJSON with
            | None => Err ErrParse
            | Some m => match Manifest_Validate m with
                        | Some e => Err (ErrManifest e)
                        | None => Ok (MkBundle m (MkTar rest (clean t)))
                        end
            end
          end
      | [] => Err ErrSecondEntry
      end
  | [] => Err ErrFirstEntry
  end.

(** [ReadManifestUnverified] *)
Definition ReadManifestUnverified (t : tar) : option Manifest :=
  match entries t with
  | (n1, d1) :: _ => if str_eqb n1 manifestName then parse_manifest (limited (2 ^ 20) d1) else None
  | [] => None
  end.

(** [os.Create] of a name in the destination: it truncates a file and refuses a directory; [disk]
    says where writing fails for other reasons. *)
Context (disk : string → bool).
Definition can_create (base : string) : bool :=
  negb (bool_decide (base ∈ ["."; ".."; "/"])) && disk base.

(** The files written so far, the entries seen and the path of each component. *)
Record extraction := MkExtraction {
  x_files : gmap string bytes; x_seen : gset string; x_out : gmap string string;
}.

Definition byFile (m : Manifest) (name : string) : option ImageRef :=
  last (List.filter (λ im, str_eqb (File im) name) (Images m)).

Definition extract_entry (m : Manifest) (x : extraction) (e : string * bytes) : res bundle_err extraction :=
  let '(name, data) := e in
  match byFile m name with
  | None => Err (ErrUnexpected name)
  | Some im =>
    let dest := Base name in
    if negb (can_create dest) then Err (ErrCreate dest)
    else if negb (str_eqb (digest_of data) (Digest im)) then Err (ErrDigest (Component im))
    else if negb (Bytes im =? 0) && negb (Z.of_nat (length data) =? Bytes im) then Err (ErrSize (Component im))
    else Ok (MkExtraction (<[dest := data]> (x_files x)) ({[name]} ∪ x_seen x)
               (<[Component im := dest]> (x_out x)))
  end.
Fixpoint extract_all (m : Manifest) (x : extraction) (l : list (string * bytes)) : res bundle_err extraction :=
  match l with
  | [] => Ok x
  | e :: l' => x ← extract_entry m x e; extract_all m x l'
  end.

(** [ExtractImages]: the files of the destination and the path of each component. *)
Definition ExtractImages (b : Bundle) : res bundle_err (gmap string bytes * gmap string string) :=
  x ← extract_all (b_manifest b) (MkExtraction ∅ ∅ ∅) (entries (b_rest b));
  if negb (clean (b_rest b)) then Err ErrReadEntry
  else match List.find (λ im, negb (bool_decide (File im ∈ x_seen x))) (Images (b_manifest b)) with
       | Some im => Err (ErrMissing (Component im))
       | None => Ok (x_files x, x_out x)
       end.
End bundle.

(** * Proofs: versions *)
Definition valid_version (v : semver) : Prop :=
  0 ≤ major v < 2 ^ 63 ∧ 0 ≤ minor v < 2 ^ 63 ∧ 0 ≤ patch v < 2 ^ 63.
Definition version_lt (a b : semver) : Prop :=
  major a < major b ∨ major a = major b ∧ (minor a < minor b ∨ minor a = minor b ∧ patch a < patch b).

Lemma Atoi_range s n : Atoi s = Some n → - 2 ^ 63 ≤ n < 2 ^ 63.
Proof.
  assert (∀ b t, signed_digits b t = Some n → - 2 ^ 63 ≤ n < 2 ^ 63) as Hs.
  { intros b t. unfold signed_digits. repeat case_match; try done; intros [= <-]; unfold int_range in *; lia. }
  unfold Atoi. repeat case_match; eauto.
Qed.

Lemma natural_range s n : natural s = Some n → 0 ≤ n < 2 ^ 63.
Proof.
  unfold natural. destruct (Atoi s) as [z|] eqn:Ha; [|done]. simpl. destruct (z <? 0) eqn:Hz; [done|].
  intros [= <-]. apply Atoi_range in Ha. lia.
Qed.

Lemma parseVersion_valid s v : parseVersion s = Some v → valid_version v.
Proof.
  unfold parseVersion. destruct (Split _ _) as [|a [|b [|c [|]]]]; try done.
  destruct (natural a) as [x|] eqn:Ha; [|done]. destruct (natural b) as [y|] eqn:Hb; [|done].
  destruct (natural c) as [z|] eqn:Hc; [|done]. intros [= <-].
  split_and!; simpl; eauto using natural_range; eapply natural_range; eauto.
Qed.

Lemma wrap_diff a b : 0 ≤ a < 2 ^ 63 → 0 ≤ b < 2 ^ 63 → wrap64 (a - b) = a - b.
Proof. intros. unfold wrap64. rewrite Z.mod_small; lia. Qed.

(** The subtractions do not overflow, and the comparison is the lexicographic order. *)
Lemma version_compare_spec a b : valid_version a → valid_version b →
  (compare a b = 0 ↔ a = b) ∧ (0 < compare a b ↔ version_lt b a) ∧ (compare a b < 0 ↔ version_lt a b).
Proof.
  intros (A1 & A2 & A3) (B1 & B2 & B3). unfold compare, version_lt. rewrite !wrap_diff by done. unfold sign.
  destruct a as [a1 a2 a3], b as [b1 b2 b3]; simpl in *.
  assert (Semver a1 a2 a3 = Semver b1 b2 b3 ↔ a1 = b1 ∧ a2 = b2 ∧ a3 = b3) as -> by naive_solver.
  repeat case_match; lia.
Qed.

Lemma NewerVersion_spec a b av bv : parseVersion a = Some av → parseVersion b = Some bv →
  NewerVersion a b = true ↔ version_lt bv av.
Proof.
  intros Ha Hb. unfold NewerVersion. rewrite Ha, Hb, Z.ltb_lt.
  destruct (version_compare_spec av bv) as (_ & H1 & _); [by eapply parseVersion_valid..|]. done.
Qed.

Lemma version_lt_trans a b c : version_lt a b → version_lt b c → version_lt a c.
Proof. unfold version_lt. lia. Qed.
Lemma version_total a b : ¬ version_lt a b → ¬ version_lt b a → a = b.
Proof. destruct a, b. unfold version_lt. simpl. intros. f_equal; lia. Qed.
Lemma version_lt_irrefl a : ¬ version_lt a a.
Proof. unfold version_lt. lia. Qed.

(** ** Choosing an update *)
Definition describes (m : Manifest) (r : ChannelRelease) : Prop :=
  Version m = r_version r ∧ MinFromVersion m = r_min_from r.

Lemma candidate_check m r cur : describes m r →
  (is_Some (candidate (parseVersion cur) r) ↔ CheckUpgradeable m cur = None).
Proof.
  intros [Hv Hm]. unfold candidate, CheckUpgradeable. rewrite Hv, Hm.
  repeat case_match; try done; split; intros Hx; try done; by destruct Hx.
Qed.

Lemma candidate_version cur r rv : candidate cur r = Some rv → parseVersion (r_version r) = Some rv.
Proof. unfold candidate. repeat case_match; naive_solver. Qed.

(** The best of what was seen. *)
Definition best_of (cur : option semver) (l : list ChannelRelease) (best : option (ChannelRelease * semver)) : Prop :=
  match best with
  | None => ∀ r, r ∈ l → candidate cur r = None
  | Some (b, bv) => b ∈ l ∧ candidate cur b = Some bv ∧
      ∀ r rv, r ∈ l → candidate cur r = Some rv → ¬ version_lt bv rv
  end.

Lemma pick_step_best cur l best r : best_of cur l best → best_of cur (l ++ [r]) (pick_step cur best r).
Proof.
  intros Hb. unfold pick_step. destruct (candidate cur r) as [rv|] eqn:Hr.
  - destruct best as [[b bv]|].
    + destruct Hb as (Hin & Hc & Hmax).
      destruct (version_compare_spec rv bv) as (_ & Hgt & _); [by eapply parseVersion_valid, candidate_version..|].
      destruct (0 <? compare rv bv) eqn:Hlt.
      * apply Z.ltb_lt, Hgt in Hlt. split_and!; [set_solver|done|].
        intros r' rv' [Hr'| ->%list_elem_of_singleton]%elem_of_app Hc' Hx.
        -- by apply (Hmax r' rv' Hr' Hc'), (version_lt_trans _ rv).
        -- rewrite Hr in Hc'. injection Hc' as <-. by eapply version_lt_irrefl.
      * apply Z.ltb_ge in Hlt. split_and!; [set_solver|done|].
        intros r' rv' [Hr'| ->%list_elem_of_singleton]%elem_of_app Hc'; [by apply (Hmax r')|].
        rewrite Hr in Hc'. injection Hc' as <-. intros Hx%Hgt. lia.
    + split_and!; [set_solver|done|]. intros r' rv' [Hr'| ->%list_elem_of_singleton]%elem_of_app Hc'.
      * by rewrite (Hb r' Hr') in Hc'.
      * rewrite Hr in Hc'. injection Hc' as <-. apply version_lt_irrefl.
  - destruct best as [[b bv]|].
    + destruct Hb as (Hin & Hc & Hmax). split_and!; [set_solver|done|].
      intros r' rv' [Hr'| ->%list_elem_of_singleton]%elem_of_app Hc'; [by apply (Hmax r')|congruence].
    + intros r' [Hr'| ->%list_elem_of_singleton]%elem_of_app; [by apply Hb|done].
Qed.

Lemma pick_best cur l l' best : best_of cur l best →
  best_of cur (l ++ l') (foldl (pick_step cur) best l').
Proof.
  revert l best. induction l' as [|r l' IH]; intros l best Hb; simpl; [by rewrite app_nil_r|].
  change (r :: l') with ([r] ++ l'). rewrite (assoc_L (++)). apply IH. by apply pick_step_best.
Qed.

Lemma PickUpdate_best idx cur :
  best_of (parseVersion cur) (ix_releases idx) (foldl (pick_step (parseVersion cur)) None (ix_releases idx)).
Proof. apply (pick_best _ [] (ix_releases idx) None). by intros r ?%not_elem_of_nil. Qed.

(** ** Parsing what is printed *)
Lemma digits_pretty_go x s : digits 0 (pretty_N_go x s) = digits (Z.of_N x) s.
Proof.
  revert s. induction (N.lt_wf_0 x) as [x _ IH]; intros s.
  destruct (decide (0 < x)%N) as [Hx|Hx].
  - rewrite pretty_N_go_step by done. rewrite IH by (apply N.div_lt; lia). simpl.
    assert (x `mod` 10 < 10)%N as Hm by (apply N.mod_lt; lia).
    assert (is_digit (pretty_N_char (x `mod` 10)) = true ∧
      Z.of_N (N_of_ascii (pretty_N_char (x `mod` 10)) - 48) = Z.of_N (x `mod` 10)) as [-> ->].
    { revert Hm. generalize (x `mod` 10)%N as n. intros n Hn.
      assert (n = 0 ∨ n = 1 ∨ n = 2 ∨ n = 3 ∨ n = 4 ∨ n = 5 ∨ n = 6 ∨ n = 7 ∨ n = 8 ∨ n = 9)%N as Hc by lia.
      repeat destruct Hc as [->|Hc]; [by vm_compute..|subst n; by vm_compute]. }
    f_equal. pose proof (N.div_mod' x 10). lia.
  - assert (x = 0)%N as -> by lia. by rewrite pretty_N_go_0.
Qed.

(** ** Versions *)
Definition print_version (v : semver) : string :=
  "v" +:+ pretty (Z.to_N (major v)) +:+ "." +:+ pretty (Z.to_N (minor v)) +:+ "." +:+ pretty (Z.to_N (patch v)).

Lemma digits_all_digits acc s z : digits acc s = Some z → all_chars is_digit s = true.
Proof.
  revert acc. induction s as [|c s IH]; intros acc; [done|]. simpl. destruct (is_digit c) eqn:Hc; [|done].
  intros Hd. unfold all_chars. simpl. rewrite Hc. by eapply IH.
Qed.

Lemma pretty_digits n : digits 0 (pretty n) = Some (Z.of_N n) ∧ pretty n ≠ "".
Proof.
  unfold pretty, pretty_N. case_decide as Hn; [subst; by vm_compute|].
  rewrite digits_pretty_go. split; [done|]. intros He.
  pose proof (digits_pretty_go n "") as Hd. rewrite He in Hd. simpl in Hd. injection Hd as Hd. lia.
Qed.

Lemma natural_pretty z : 0 ≤ z < 2 ^ 63 → natural (pretty (Z.to_N z)) = Some z.
Proof.
  intros Hz. destruct (pretty_digits (Z.to_N z)) as [Hd Hne]. rewrite Z2N.id in Hd by lia.
  assert (Atoi (pretty (Z.to_N z)) = Some z) as Ha.
  { assert (signed_digits false (pretty (Z.to_N z)) = Some z) as Hs.
    { unfold signed_digits, str_eqb. rewrite bool_decide_false, Hd by done. unfold int_range.
      rewrite (proj2 (andb_true_iff _ _)); [done|]. split; [apply Z.leb_le|apply Z.ltb_lt]; lia. }
    unfold Atoi. destruct (pretty (Z.to_N z)) as [|c s]; [done|].
    repeat case_match; subst; done. }
  unfold natural. rewrite Ha. simpl. by rewrite (proj2 (Z.ltb_ge _ _)) by lia.
Qed.

Lemma pretty_plain (n : N) : all_chars is_digit (pretty n) = true.
Proof. eapply digits_all_digits, (proj1 (pretty_digits n)). Qed.
Lemma digit_not c d : is_digit c = true → is_digit d = false → negb (Ascii.eqb c d) = true.
Proof. intros Hc Hd. destruct (Ascii.eqb_spec c d) as [->|]; [congruence|done]. Qed.
Lemma digit_plain c : is_digit c = true → plain_char c = true.
Proof. unfold is_digit, plain_char, code_between. rewrite !bool_decide_eq_true. lia. Qed.

Lemma parse_print v : valid_version v → parseVersion (print_version v) = Some v.
Proof.
  destruct v as [a b c]. intros (Ha & Hb & Hc). simpl in *. unfold parseVersion, print_version. cbn [major minor patch].
  assert (∀ f, (∀ d, is_digit d = true → f d = true) → f "."%char = true →
    all_chars f (pretty (Z.to_N a) +:+ "." +:+ pretty (Z.to_N b) +:+ "." +:+ pretty (Z.to_N c)) = true) as Hall.
  { intros f Hf Hdot. assert (∀ n : N, all_chars f (pretty n) = true) as Hp.
    { intros n. eapply all_chars_impl; [exact Hf|apply pretty_plain]. }
    rewrite !all_chars_app, !Hp. unfold all_chars. simpl. by rewrite Hdot. }
  rewrite TrimSpace_all_plain; cycle 1.
  { rewrite all_chars_app, Hall; [by vm_compute|apply digit_plain|by vm_compute]. }
  unfold TrimPrefix.
  rewrite has_prefix_app.
  set (t := pretty (Z.to_N a) +:+ _) in *. change (str_drop (String.length "v") ("v" +:+ t)) with t.
  rewrite before_any_none; cycle 1.
  { apply Hall; [|by vm_compute]. intros d Hd. apply negb_true_iff, bool_decide_eq_false.
    intros [->|[->|?%not_elem_of_nil]%elem_of_cons]%elem_of_cons; done. }
  assert (∀ z, all_chars (λ d, negb (Ascii.eqb d ".")) (pretty (Z.to_N z)) = true) as Hnd.
  { intros z. eapply all_chars_impl; [|apply pretty_plain]. intros d Hd. by apply digit_not. }
  subst t. rewrite (Split_sep "." (pretty (Z.to_N a)) (pretty (Z.to_N b) +:+ "." +:+ pretty (Z.to_N c))) by done.
  rewrite (Split_sep "." (pretty (Z.to_N b)) (pretty (Z.to_N c))) by done.
  rewrite Split_nosep by done. by rewrite !natural_pretty.
Qed.

(** ** Keys *)
Lemma repad_strip bs : repad (strip_pad (Base64.encode bs)) = Some (Base64.encode bs).
Proof.
  induction bs as [bs IH] using (induction_ltof1 _ (@length _)). unfold ltof in IH.
  assert (∀ s t, strip_pad (String (Base64.char_of s) t) = String (Base64.char_of s) (strip_pad t)) as Hc.
  { intros s t. simpl. by rewrite (proj1 (Base64.char_not_special s)). }
  destruct bs as [|x [|y [|z bs]]]; [done|..]; cbn [Base64.encode].
  - destruct (Byte.to_bits x) as (?&?&?&?&?&?&?&?). rewrite !Hc. done.
  - destruct (Byte.to_bits x) as (?&?&?&?&?&?&?&?), (Byte.to_bits y) as (?&?&?&?&?&?&?&?). rewrite !Hc. done.
  - destruct (Byte.to_bits x) as (?&?&?&?&?&?&?&?), (Byte.to_bits y) as (?&?&?&?&?&?&?&?),
      (Byte.to_bits z) as (?&?&?&?&?&?&?&?). rewrite !Hc. cbn [repad]. rewrite IH by (simpl; lia). done.
Qed.

(** The characters of an encoding. *)
Lemma encode_chars f bs : (∀ s, f (Base64.char_of s) = true) →
  all_chars f (strip_pad (Base64.encode bs)) = true ∧
  (f Base64.pad = true → all_chars f (Base64.encode bs) = true).
Proof.
  intros Hf. induction bs as [bs IH] using (induction_ltof1 _ (@length _)). unfold ltof in IH.
  assert (∀ s t, strip_pad (String (Base64.char_of s) t) = String (Base64.char_of s) (strip_pad t)) as Hc.
  { intros s t. simpl. by rewrite (proj1 (Base64.char_not_special s)). }
  assert (∀ c t, f c = true → all_chars f t = true → all_chars f (String c t) = true) as Hs.
  { intros c t Hc' Ht. unfold all_chars in *. simpl. by rewrite Hc', Ht. }
  destruct bs as [|x [|y [|z bs]]]; [done|..]; cbn [Base64.encode].
  - destruct (Byte.to_bits x) as (?&?&?&?&?&?&?&?). rewrite !Hc. split; intros; repeat apply Hs; done.
  - destruct (Byte.to_bits x) as (?&?&?&?&?&?&?&?), (Byte.to_bits y) as (?&?&?&?&?&?&?&?). rewrite !Hc.
    split; intros; repeat apply Hs; done.
  - destruct (Byte.to_bits x) as (?&?&?&?&?&?&?&?), (Byte.to_bits y) as (?&?&?&?&?&?&?&?),
      (Byte.to_bits z) as (?&?&?&?&?&?&?&?). rewrite !Hc.
    destruct (IH bs) as [IH1 IH2]; [simpl; lia|]. split; intros; repeat apply Hs; auto.
Qed.

Lemma strip_newlines_id s :
  all_chars (λ c, negb (Ascii.eqb c "010" || Ascii.eqb c "013")) s = true → Base64.strip_newlines s = s.
Proof.
  induction s as [|c s IH]; [done|]. unfold all_chars. simpl. intros [Hc Hs]%andb_true_iff.
  apply negb_true_iff in Hc. rewrite Hc. by rewrite IH.
Qed.

#[local] Ltac all_sextets := let s := fresh in intros s; destruct s as [[[[[[] []] []] []] []] []]; by vm_compute.

Lemma raw_decode_encode bs : raw_decode (raw_encode bs) = Some bs.
Proof.
  unfold raw_decode, raw_encode.
  rewrite strip_newlines_id by (apply encode_chars; all_sextets).
  rewrite (proj1 (encode_chars (λ c, negb (Ascii.eqb c Base64.pad)) bs ltac:(all_sextets))).
  rewrite repad_strip. cbn [mbind option_bind].
  pose proof (Base64.decode_encode bs) as Hd. unfold Base64.decode in Hd.
  rewrite strip_newlines_id in Hd; [done|]. apply encode_chars; [all_sextets|by vm_compute].
Qed.

Lemma Fields_token cur t rest : all_chars (λ c, negb (is_sep c)) t = true →
  Fields cur (t +:+ rest) = Fields (cur +:+ t) rest.
Proof.
  revert cur. induction t as [|c t IH]; intros cur; [by rewrite str_app_nil|].
  unfold all_chars. simpl. intros [Hc Ht]%andb_true_iff. apply negb_true_iff in Hc.
  change (String c t +:+ rest) with (String c (t +:+ rest)). cbn [Fields]. rewrite Hc, IH by done.
  by rewrite <- str_app_assoc.
Qed.

(** A list of keys as the configuration holds it. *)
Fixpoint key_list (keys : list bytes) : string :=
  match keys with
  | [] => ""
  | [k] => EncodePublicKey k
  | k :: l => EncodePublicKey k +:+ String "," (key_list l)
  end.

Lemma Fields_key_list keys : (∀ k, k ∈ keys → EncodePublicKey k ≠ "") →
  Fields "" (key_list keys) = EncodePublicKey <$> keys.
Proof.
  intros Hne.
  assert (∀ k, all_chars (λ c, negb (is_sep c)) (EncodePublicKey k) = true) as Hs.
  { intros k. unfold EncodePublicKey, raw_encode. apply encode_chars. all_sextets. }
  assert (∀ k, k ∈ keys → str_eqb (EncodePublicKey k) "" = false) as He.
  { intros k Hk. apply bool_decide_eq_false. by apply Hne. }
  induction keys as [|k keys IH]; [done|]. destruct keys as [|k' keys].
  - change (key_list [k]) with (EncodePublicKey k). rewrite <- (str_app_nil (EncodePublicKey k)) at 1.
    rewrite Fields_token by done. cbn [Fields].
    change ("" +:+ EncodePublicKey k) with (EncodePublicKey k). by rewrite (He k) by set_solver.
  - change (key_list (k :: k' :: keys)) with (EncodePublicKey k +:+ String "," (key_list (k' :: keys))).
    rewrite Fields_token by done. cbn [Fields]. change (is_sep ",") with true. cbn iota.
    change ("" +:+ EncodePublicKey k) with (EncodePublicKey k). rewrite (He k) by set_solver. rewrite IH by (intros; set_solver). done.
Qed.

Lemma parse_encoded keys : Forall (λ k, length k = PublicKeySize) keys →
  parse_keys (EncodePublicKey <$> keys) = Ok keys.
Proof.
  induction 1 as [|k keys Hk _ IH]; [done|]. rewrite fmap_cons. cbn [parse_keys].
  rewrite TrimSpace_all_plain by (apply encode_chars; all_sextets).
  assert (str_eqb (EncodePublicKey k) "" = false) as ->.
  { apply bool_decide_eq_false. intros He. pose proof (raw_decode_encode k) as Hd.
    unfold EncodePublicKey in He. rewrite He in Hd. injection Hd as <-. done. }
  unfold decodeB64. assert (raw_decode (EncodePublicKey k) = Some k) as -> by apply raw_decode_encode.
  rewrite Hk. cbn [Nat.eqb PublicKeySize negb].
  rewrite IH. done.
Qed.

Lemma parse_key_list keys : Forall (λ k, length k = PublicKeySize) keys → ParsePublicKeys (key_list keys) = Ok keys.
Proof.
  intros Hk. unfold ParsePublicKeys. rewrite Fields_key_list; [by apply parse_encoded|].
  intros k Hin He. rewrite Forall_forall in Hk. specialize (Hk k Hin). pose proof (raw_decode_encode k) as Hd.
  unfold EncodePublicKey in He. rewrite He in Hd. injection Hd as <-. done.
Qed.

(** * Proofs: bundles *)
Section extraction.
Context `{!ReleaseLib} (disk : string → bool).

Lemma byFile_spec m name im : byFile m name = Some im → im ∈ Images m ∧ File im = name.
Proof.
  unfold byFile. intros Hl%last_Some_elem_of. apply list_elem_of_In, List.filter_In in Hl as [Hin Hn].
  split; [by apply list_elem_of_In|by apply str_eqb_eq].
Qed.

(** An image whose content the extraction has written and checked. *)
Definition matches_image (im : ImageRef) (data : bytes) : Prop :=
  digest_of data = Digest im ∧ (Bytes im ≠ 0 → Z.of_nat (length data) = Bytes im).

(** Every path handed out holds a checked image of that component, everything written is one,
    and the entries seen are images of the manifest. *)
Definition extracted (m : Manifest) (x : extraction) : Prop :=
  (∀ c d, x_out x !! c = Some d → ∃ im data, im ∈ Images m ∧ Component im = c ∧ Base (File im) = d ∧
     x_files x !! d = Some data ∧ matches_image im data) ∧
  (∀ d data, x_files x !! d = Some data → ∃ im, im ∈ Images m ∧ Base (File im) = d ∧ matches_image im data) ∧
  (∀ n, n ∈ x_seen x → ∃ im, byFile m n = Some im ∧ is_Some (x_out x !! Component im) ∧
     is_Some (x_files x !! Base n)).

(** The files of a manifest that would be written under different names. *)
Definition distinct_names (m : Manifest) : Prop := NoDup ((Base ∘ File) <$> Images m).

Lemma distinct_image m im im' : distinct_names m → im ∈ Images m → im' ∈ Images m →
  Base (File im) = Base (File im') → im = im'.
Proof.
  unfold distinct_names. induction (Images m) as [|a l IH]; intros Hd; [by intros ?%not_elem_of_nil|].
  rewrite fmap_cons in Hd. apply NoDup_cons in Hd as [Hni Hd].
  intros [->|Hin]%elem_of_cons [->|Hin']%elem_of_cons Heq; [done| | |by auto]; exfalso; apply Hni;
    apply list_elem_of_fmap; [by exists im'|by exists im].
Qed.

Lemma extract_entry_inv m x e x' : distinct_names m →
  extract_entry disk m x e = Ok x' → extracted m x → extracted m x' ∧ x_seen x' = {[e.1]} ∪ x_seen x.
Proof.
  intros Hd. destruct e as [name data]. unfold extract_entry.
  destruct (byFile m name) as [im|] eqn:Hb; [|done]. destruct (can_create _ _); [|done]. cbn [negb].
  destruct (str_eqb (digest_of data) (Digest im)) eqn:Hdg; [|done]. apply str_eqb_eq in Hdg. cbn [negb].
  destruct (negb (Bytes im =? 0) && _) eqn:Hsz; [done|]. intros [= <-] (Ho & Hf & Hs). split; [|done].
  pose proof (byFile_spec _ _ _ Hb) as [Hin Hn].
  assert (matches_image im data) as Hm.
  { split; [done|]. intros Hz. destruct (Bytes im =? 0) eqn:Hz0; [by apply Z.eqb_eq in Hz0|].
    simpl in Hsz. apply negb_false_iff, Z.eqb_eq in Hsz. done. }
  split_and!; simpl.
  - intros c d Hc. apply lookup_insert_Some in Hc as [[<- <-]|[Hne Hc]].
    + exists im, data. rewrite lookup_insert_eq. subst name. by split_and!.
    + destruct (Ho c d Hc) as (im' & data' & Hin' & Hc' & Hd' & Hfl & Hm').
      destruct (decide (Base name = d)) as [Heq|Hne'].
      * exists im', data. rewrite Heq, lookup_insert_eq.
        assert (im = im') as <- by (apply (distinct_image m); [done..|congruence]). by split_and!.
      * exists im', data'. rewrite lookup_insert_ne by done. by split_and!.
  - intros d data' [[<- <-]|[Hne Hl]]%lookup_insert_Some; [|by apply Hf]. exists im. subst name. by split_and!.
  - intros n [->%elem_of_singleton|Hn']%elem_of_union.
    + exists im. rewrite !lookup_insert_eq. split_and!; [done|by eexists..].
    + destruct (Hs n Hn') as (im' & Hb' & Ho' & Hf'). exists im'. split; [done|].
      split; apply lookup_insert_is_Some';  auto.
Qed.

Lemma extract_all_inv m l x x' : distinct_names m →
  extract_all disk m x l = Ok x' → extracted m x → extracted m x' ∧ x_seen x' = list_to_set l.*1 ∪ x_seen x.
Proof.
  intros Hd. revert x. induction l as [|e l IH]; intros x; simpl.
  - intros [= ->] Hx. split; [done|]. set_solver.
  - destruct (extract_entry disk m x e) as [x1|] eqn:He; [|done]. intros Hl Hx.
    destruct (extract_entry_inv m x e x1 Hd He Hx) as [Hx1 Hs1].
    destruct (IH x1 Hl Hx1) as [Hx' Hs']. split; [done|]. rewrite Hs', Hs1. set_solver.
Qed.

Lemma Verify_ok mj sig trusted : Verify mj sig trusted = None →
  length sig = SignatureSize ∧ ∃ k, k ∈ trusted ∧ length k = PublicKeySize ∧ ed_verify k mj sig = true.
Proof.
  unfold Verify. case_bool_decide; [done|]. destruct (Nat.eqb _ _) eqn:Hl; [|done]. cbn [negb].
  destruct (existsb _ _) eqn:He; [|done]. intros _. apply Nat.eqb_eq in Hl. split; [done|].
  apply existsb_exists in He as (k & Hk%list_elem_of_In & [Hlk Hv]%andb_true_iff).
  apply Nat.eqb_eq in Hlk. eauto.
Qed.

Lemma openReader_ok t trusted b : openReader t trusted = Ok b →
  ∃ d1 d2, entries t = (manifestName, d1) :: (sigName, d2) :: entries (b_rest b) ∧ clean (b_rest b) = clean t ∧
    Verify (limited (2 ^ 20) d1) (limited 4096 d2) trusted = None ∧
    parse_manifest (limited (2 ^ 20) d1) = Some (b_manifest b) ∧ Manifest_Validate (b_manifest b) = None.
Proof.
  unfold openReader. destruct (entries t) as [|[n1 d1] rest]; [done|].
  destruct (str_eqb n1 manifestName) eqn:H1; [|done]. apply str_eqb_eq in H1 as ->. cbn [negb].
  destruct rest as [|[n2 d2] rest]; [done|]. destruct (str_eqb n2 sigName) eqn:H2; [|done].
  apply str_eqb_eq in H2 as ->. cbn [negb]. destruct (Verify _ _ _) eqn:Hv; [done|].
  destruct (parse_manifest _) as [m|] eqn:Hp; [|done]. destruct (Manifest_Validate m) eqn:Hm; [done|].
  intros [= <-]. exists d1, d2. by split_and!.
Qed.

Lemma byFile_image m im : distinct_names m → im ∈ Images m → byFile m (File im) = Some im.
Proof.
  intros Hd Hin. unfold byFile. destruct (last _) as [im'|] eqn:Hl.
  - f_equal. apply last_Some_elem_of, list_elem_of_In, List.filter_In in Hl as [Hin' Hn%str_eqb_eq].
    symmetry. apply (distinct_image m); [done..|by apply list_elem_of_In|by rewrite Hn].
  - apply last_None in Hl. exfalso.
    assert (im ∈ List.filter (λ im0, str_eqb (File im0) (File im)) (Images m)) as Hx.
    { apply list_elem_of_In, List.filter_In. split; [by apply list_elem_of_In|by apply str_eqb_eq]. }
    rewrite Hl in Hx. by apply not_elem_of_nil in Hx.
Qed.

(** Entries that are images of the manifest extract. *)
Definition good_entry (m : Manifest) (e : string * bytes) : Prop :=
  ∃ im, im ∈ Images m ∧ File im = e.1 ∧ can_create disk (Base e.1) = true ∧ matches_image im e.2.

Lemma extract_entry_good m x e im : distinct_names m → im ∈ Images m → File im = e.1 →
  can_create disk (Base e.1) = true → matches_image im e.2 →
  extract_entry disk m x e = Ok (MkExtraction (<[Base e.1 := e.2]> (x_files x)) ({[e.1]} ∪ x_seen x)
    (<[Component im := Base e.1]> (x_out x))).
Proof.
  intros Hd Hin Hf Hc [Hdg Hsz]. destruct e as [n data]. simpl in *. subst n. unfold extract_entry.
  rewrite (byFile_image m im Hd Hin), Hc. cbn [negb].
  rewrite (proj2 (str_eqb_eq _ _) Hdg). cbn [negb]. destruct (Bytes im =? 0) eqn:Hz; [done|].
  apply Z.eqb_neq in Hz. rewrite Hsz by done. by rewrite Z.eqb_refl.
Qed.

Lemma extract_all_good m l x : distinct_names m → NoDup (Component <$> Images m) → NoDup l.*1 →
  Forall (good_entry m) l →
  ∃ x', extract_all disk m x l = Ok x' ∧ x_seen x' = list_to_set l.*1 ∪ x_seen x ∧
    (∀ d, (∀ e, e ∈ l → Base e.1 ≠ d) → x_files x' !! d = x_files x !! d) ∧
    (∀ c, (∀ e im, e ∈ l → im ∈ Images m → File im = e.1 → Component im ≠ c) → x_out x' !! c = x_out x !! c) ∧
    ∀ e im, e ∈ l → im ∈ Images m → File im = e.1 →
      x_files x' !! Base e.1 = Some e.2 ∧ x_out x' !! Component im = Some (Base e.1).
Proof.
  intros Hd Hcomp. revert x. induction l as [|e l IH]; intros x Hnd Hg; simpl.
  { exists x. split_and!; [done|set_solver|done|done|]. by intros e im ?%not_elem_of_nil. }
  rewrite fmap_cons in Hnd. apply NoDup_cons in Hnd as [Hni Hnd]. apply Forall_cons in Hg as [(im & Hin & Hf & Hc & Hm) Hg].
  rewrite (extract_entry_good m x e im) by done. cbn [mbind res_bind].
  destruct (IH (MkExtraction (<[Base e.1 := e.2]> (x_files x)) ({[e.1]} ∪ x_seen x)
    (<[Component im := Base e.1]> (x_out x)))) as (x' & He & Hs & Hfl & Ho & Hall); [done..|].
  assert (∀ e', e' ∈ l → Base e'.1 ≠ Base e.1) as Hbases.
  { intros e' He' Heq. rewrite Forall_forall in Hg. destruct (Hg e' He') as (im' & Hin' & Hf' & _).
    assert (im = im') as <- by (apply (distinct_image m); [done..|congruence]).
    apply Hni, list_elem_of_fmap. exists e'. split; [congruence|done]. }
  assert (∀ e' im', e' ∈ l → im' ∈ Images m → File im' = e'.1 → Component im' ≠ Component im) as Hcs.
  { intros e' im' He' Hin' Hf' Heq. apply (Hbases e' He'). rewrite <- Hf, <- Hf'. f_equal. f_equal.
    apply list_elem_of_lookup in Hin as [i Hi], Hin' as [j Hj].
    assert (i = j) as -> by (eapply NoDup_lookup; [exact Hcomp|by rewrite list_lookup_fmap, Hi|];
      rewrite list_lookup_fmap, Hj; simpl; congruence). congruence. }
  exists x'. split_and!; [done|rewrite Hs; set_solver|..].
  - intros d Hd'. rewrite Hfl by (intros e' He'; apply Hd'; by apply elem_of_cons; right). simpl.
    apply lookup_insert_ne. apply Hd'. by apply elem_of_cons; left.
  - intros c Hc'. rewrite Ho by (intros e' im' He'; apply Hc'; by apply elem_of_cons; right). simpl.
    apply lookup_insert_ne. apply (Hc' e); [by apply elem_of_cons; left|done..].
  - intros e' im' [->|He']%elem_of_cons Hin' Hf'; [|by apply Hall].
    assert (im = im') as <- by (apply (distinct_image m); [done..|congruence]).
    rewrite Hfl, Ho by done. simpl. by rewrite !lookup_insert_eq.
Qed.
End extraction.

(** * Properties *)

(** The update that is offered is the best one that applies: a release of the channel whose
    manifest the upgrade check accepts, and no acceptable release of the channel is newer; none is
    offered exactly when none is acceptable. *)
Theorem pick_update_best (describe : ChannelRelease → Manifest) idx cur :
  (∀ r, describes (describe r) r) →
  match PickUpdate idx cur with
  | Some r => r ∈ ix_releases idx ∧ CheckUpgradeable (describe r) cur = None ∧
      ∀ r', r' ∈ ix_releases idx → CheckUpgradeable (describe r') cur = None →
        NewerVersion (r_version r') (r_version r) = false
  | None => ∀ r, r ∈ ix_releases idx → CheckUpgradeable (describe r) cur ≠ None
  end.
Proof.
  intros Hdesc. pose proof (PickUpdate_best idx cur) as Hb. unfold PickUpdate.
  destruct (foldl _ _ _) as [[b bv]|]; simpl in *.
  - destruct Hb as (Hin & Hc & Hmax). split; [done|]. split.
    { apply (candidate_check (describe b) b cur (Hdesc b)). by eexists. }
    intros r' Hr' Hck. apply (candidate_check (describe r') r' cur (Hdesc r')) in Hck as [rv Hrv].
    apply not_true_is_false. rewrite NewerVersion_spec by eauto using candidate_version. by apply (Hmax r').
  - intros r Hr Hck. apply (candidate_check (describe r) r cur (Hdesc r)) in Hck as [rv Hrv].
    by rewrite Hb in Hrv.
Qed.

(** C18: Only signed content is extracted. When a bundle opens and its images extract, a trusted key
    has signed the manifest that was parsed, and if the manifest's files have distinct base names,
    every path handed out holds content with the digest (and size, if given) the manifest pins for
    that component, every image of the manifest got a path, and nothing else was written. *)
Theorem bundle_authentic `{!ReleaseLib} disk t trusted b files out :
  openReader t trusted = Ok b → ExtractImages disk b = Ok (files, out) → distinct_names (b_manifest b) →
  (∃ mj sig k, k ∈ trusted ∧ ed_verify k mj sig = true ∧ parse_manifest mj = Some (b_manifest b)) ∧
  (∀ c d, out !! c = Some d → ∃ im data, im ∈ Images (b_manifest b) ∧ Component im = c ∧ Base (File im) = d ∧
     files !! d = Some data ∧ matches_image im data) ∧
  (∀ im, im ∈ Images (b_manifest b) → is_Some (out !! Component im)) ∧
  (∀ d data, files !! d = Some data →
     ∃ im, im ∈ Images (b_manifest b) ∧ Base (File im) = d ∧ matches_image im data).
Proof.
  intros Ho Hx Hd. apply openReader_ok in Ho as (d1 & d2 & _ & _ & Hv & Hp & _).
  apply Verify_ok in Hv as (_ & k & Hk & _ & Hver). split; [by eexists _, _, k|].
  unfold ExtractImages in Hx. destruct (extract_all _ _ _ _) as [x|] eqn:Hall; [|done]. cbn [mbind res_bind] in Hx.
  destruct (clean _); [|done]. cbn [negb] in Hx. destruct (List.find _ _) eqn:Hf; [done|].
  injection Hx as <- <-.
  destruct (extract_all_inv disk (b_manifest b) _ _ _ Hd Hall) as [(Hout & Hfl & Hseen) _]; [by split_and!|].
  split_and!; [done| |done]. intros im Hin.
  pose proof (List.find_none _ _ Hf im (proj1 (list_elem_of_In _ _) Hin)) as Hs.
  apply negb_false_iff, bool_decide_eq_true in Hs. destruct (Hseen _ Hs) as (im' & Hb & Hsome & _).
  rewrite byFile_image in Hb by done. by injection Hb as <-.
Qed.

(** After an extraction every image of the manifest has its checked content on disk. *)
Lemma extracted_data `{!ReleaseLib} disk b files out im :
  ExtractImages disk b = Ok (files, out) → distinct_names (b_manifest b) → im ∈ Images (b_manifest b) →
  ∃ data, files !! Base (File im) = Some data ∧ matches_image im data.
Proof.
  intros Hx Hd Hin. unfold ExtractImages in Hx. destruct (extract_all _ _ _ _) as [x|] eqn:Hall; [|done].
  cbn [mbind res_bind] in Hx. destruct (clean _); [|done]. cbn [negb] in Hx.
  destruct (List.find _ _) eqn:Hf; [done|]. injection Hx as <- <-.
  destruct (extract_all_inv disk (b_manifest b) _ _ _ Hd Hall) as [(_ & Hfl & Hseen) _]; [by split_and!|].
  pose proof (List.find_none _ _ Hf im (proj1 (list_elem_of_In _ _) Hin)) as Hs.
  apply negb_false_iff, bool_decide_eq_true in Hs. destruct (Hseen _ Hs) as (_ & _ & _ & data & Hdata).
  exists data. split; [done|]. destruct (Hfl _ _ Hdata) as (im' & Hin' & Hbase & Hm).
  by rewrite (distinct_image (b_manifest b) im im') by done.
Qed.

(** What a publisher writes, an instance installs: a signed bundle whose files match its manifest
    opens under the key and extracts to exactly the files that went in. *)
Theorem bundle_roundtrip `{!ReleaseLib} disk trusted pub priv m mj (images : gmap string bytes) :
  pub ∈ trusted → length pub = PublicKeySize → length (Sign mj priv) = SignatureSize →
  ed_verify pub mj (Sign mj priv) = true → Z.of_nat (length mj) ≤ 2 ^ 20 →
  parse_manifest mj = Some m → Manifest_Validate m = None →
  distinct_names m → NoDup (Component <$> Images m) →
  (∀ n data, images !! n = Some data → good_entry disk m (n, data)) →
  (∀ im, im ∈ Images m → is_Some (images !! File im)) →
  ∃ b files out, openReader (WriteBundle mj (Sign mj priv) images) trusted = Ok b ∧ b_manifest b = m ∧
    ExtractImages disk b = Ok (files, out) ∧
    ∀ im, im ∈ Images m → out !! Component im = Some (Base (File im)) ∧ files !! Base (File im) = images !! File im.
Proof.
  intros Hpub Hlk Hls Hver Hlen Hp Hv Hd Hcomp Hgood Hall.
  set (l := merge_sort by_name (map_to_list images)).
  assert (l ≡ₚ map_to_list images) as Hperm by apply merge_sort_Permutation.
  assert (∀ e, e ∈ l ↔ images !! e.1 = Some e.2) as Hl.
  { intros [n d]. rewrite Hperm. apply elem_of_map_to_list. }
  assert (openReader (WriteBundle mj (Sign mj priv) images) trusted = Ok (MkBundle m (MkTar l true))) as Ho.
  { unfold openReader, WriteBundle. cbn [entries clean]. fold l. unfold limited.
    rewrite (proj2 (Z.leb_le _ _)) by done. rewrite Hls. cbn [negb].
    assert (Verify mj (Sign mj priv) trusted = None) as Hver'.
    { unfold Verify. rewrite bool_decide_false by (by intros ->; apply not_elem_of_nil in Hpub).
      rewrite Hls. cbn [Nat.eqb negb SignatureSize].
      rewrite (proj2 (existsb_exists _ _)); [done|]. exists pub. split; [by apply list_elem_of_In|].
      by rewrite Hlk, Hver. }
    replace (str_eqb manifestName manifestName) with true by done.
    replace (str_eqb sigName sigName) with true by done. cbn [negb].
    change (Z.of_nat SignatureSize <=? 4096) with true. cbn iota. by rewrite Hver', Hp, Hv. }
  assert (Forall (good_entry disk m) l) as Hge.
  { apply Forall_forall. intros [n d] Hin%Hl. by apply Hgood. }
  assert (NoDup l.*1) as Hnd by (rewrite Hperm; apply NoDup_fst_map_to_list).
  destruct (extract_all_good disk m l (MkExtraction ∅ ∅ ∅) Hd Hcomp Hnd Hge) as (x & Hx & Hseen & _ & _ & Hfiles).
  eexists _, (x_files x), (x_out x). split; [exact Ho|]. split; [done|]. split.
  - unfold ExtractImages. cbn [b_manifest b_rest entries clean]. rewrite Hx. cbn [mbind res_bind negb].
    destruct (List.find _ _) as [im|] eqn:Hf; [|done]. exfalso.
    apply List.find_some in Hf as [Hin%list_elem_of_In Hn]. apply negb_true_iff, bool_decide_eq_false in Hn.
    apply Hn. rewrite Hseen. apply elem_of_union_l, elem_of_list_to_set. destruct (Hall im Hin) as [d Hdd].
    apply list_elem_of_fmap. exists (File im, d). split; [done|]. by apply Hl.
  - intros im Hin. destruct (Hall im Hin) as [d Hdd].
    destruct (Hfiles (File im, d) im) as [Hf1 Hf2]; [by apply Hl|done..|]. simpl in *. by rewrite Hf1, Hf2, Hdd.
Qed.

(** Two images whose paths differ but whose base names agree overwrite each other: extraction
    succeeds, and the path handed out for the first holds the second's content. *)
Theorem extract_collision `{!ReleaseLib} disk m a b da db_ :
  Images m = [a; b] → File a ≠ File b → Base (File a) = Base (File b) → Component a ≠ Component b →
  can_create disk (Base (File a)) = true → matches_image a da → matches_image b db_ →
  ∃ files out, ExtractImages disk (MkBundle m (MkTar [(File a, da); (File b, db_)] true)) = Ok (files, out) ∧
    out !! Component a = Some (Base (File a)) ∧ files !! Base (File a) = Some db_.
Proof.
  intros Hm Hne Hb Hc Hok [Ha1 Ha2] [Hb1 Hb2].
  assert (byFile m (File a) = Some a) as Hfa.
  { unfold byFile. rewrite Hm. simpl. rewrite (proj2 (str_eqb_eq _ _)) by done.
    unfold str_eqb. by rewrite bool_decide_false by done. }
  assert (byFile m (File b) = Some b) as Hfb.
  { unfold byFile. rewrite Hm. simpl. unfold str_eqb. by rewrite bool_decide_false, bool_decide_true by done. }
  assert (∀ im data, matches_image im data →
    str_eqb (digest_of data) (Digest im) = true ∧ negb (Bytes im =? 0) && negb (Z.of_nat (length data) =? Bytes im) = false) as Hmt.
  { intros im data [Hd Hs]. split; [by apply str_eqb_eq|]. destruct (Bytes im =? 0) eqn:Hz; [done|].
    apply Z.eqb_neq in Hz. by rewrite Hs, Z.eqb_refl by done. }
  destruct (Hmt a da) as [A1 A2]; [done|]. destruct (Hmt b db_) as [B1 B2]; [done|].
  eexists _, _. split.
  { unfold ExtractImages. cbn [b_manifest b_rest entries clean extract_all extract_entry].
    rewrite Hfa, Hok, A1, A2. cbn [negb mbind res_bind extract_entry]. rewrite Hfb, <- Hb, Hok, B1, B2.
    cbn [negb mbind res_bind x_files x_seen x_out]. rewrite Hm. cbn [List.find].
    rewrite bool_decide_true by set_solver. cbn [negb]. rewrite bool_decide_true by set_solver. done. }
  rewrite lookup_insert_ne by done. by rewrite !lookup_insert_eq.
Qed.

(** * Witnesses *)
Definition toy_image (c : string) (data : bytes) : ImageRef :=
  MkImage c ("fleet-" +:+ c) "v1.2.0" ("images/" +:+ c +:+ ".tar")
    ("sha256:" +:+ hex (take 32 (data ++ replicate 32 Byte.x00))) 0.
Definition backend : bytes := [Byte.x41; Byte.x42].
Definition frontend : bytes := [Byte.x43].
Definition toy_manifest : Manifest :=
  MkManifest 1 "v1.2.0" "v1.0.0" ["backend"; "frontend"] [toy_image "backend" backend; toy_image "frontend" frontend] "additive" [].
#[local] Instance toy_lib : ReleaseLib := {|
  sha256 d := take 32 (d ++ replicate 32 Byte.x00);
  ed_sign k m := replicate 64 Byte.x00;
  ed_verify k m s := true;
  parse_manifest b := Some toy_manifest;
  parse_index b := None;
|}.
Definition toy_key : bytes := replicate 32 Byte.x01.
Definition toy_images : gmap string bytes :=
  {["images/backend.tar" := backend; "images/frontend.tar" := frontend]}.
Definition toy_bundle : tar := WriteBundle [Byte.x7b] (Sign [Byte.x7b] toy_key) toy_images.
Definition opened : Bundle := MkBundle toy_manifest (MkTar (drop 2 (entries toy_bundle)) true).

Definition rel (v : string) : ChannelRelease := MkRelease v "v1.0.0" "" "additive".
Definition toy_index : ChannelIndex := MkIndex 1 "v1.3.0" [rel "v1.1.0"; rel "v1.3.0"; rel "v1.2.9"; rel "dev"].
Lemma pick_update_best_witness :
  PickUpdate toy_index "v1.0.0" = Some (rel "v1.3.0") ∧ NewerVersion "v1.2.9" "v1.3.0" = false.
Proof.
  assert (PickUpdate toy_index "v1.0.0" = Some (rel "v1.3.0")) as He by by vm_compute.
  split; [exact He|].
  pose proof (pick_update_best (λ r, MkManifest 1 (r_version r) (r_min_from r) [] [] "additive" []) toy_index "v1.0.0"
    (λ r, conj eq_refl eq_refl)) as Hp.
  rewrite He in Hp. destruct Hp as (_ & _ & Hmax). apply (Hmax (rel "v1.2.9")); [|by vm_compute].
  simpl. do 2 (apply elem_of_cons; right). apply elem_of_cons. by left.
Defined.

Lemma toy_distinct : distinct_names toy_manifest.
Proof. apply (bool_decide_unpack _). by vm_compute. Qed.

Lemma bundle_authentic_witness :
  ∃ files out, ExtractImages (λ _, true) opened = Ok (files, out) ∧ is_Some (out !! "backend").
Proof.
  assert (openReader toy_bundle [toy_key] = Ok opened) as Ho by by vm_compute.
  destruct (ExtractImages (λ _, true) opened) as [[files out]|e] eqn:Hx; [|by vm_compute in Hx].
  exists files, out. split; [done|].
  refine (proj1 (proj2 (proj2 (bundle_authentic (λ _, true) toy_bundle [toy_key] opened files out Ho Hx toy_distinct)))
    (toy_image "backend" backend) _). apply elem_of_cons. by left.
Defined.

Lemma toy_good n data : toy_images !! n = Some data → good_entry (λ _, true) toy_manifest (n, data).
Proof.
  unfold toy_images. intros [[<- <-]|[_ [<- <-]%lookup_singleton_Some]]%lookup_insert_Some.
  - exists (toy_image "backend" backend). split_and!; [apply elem_of_cons; by left|by vm_compute..].
  - exists (toy_image "frontend" frontend). split_and!; [apply elem_of_cons; right; by apply list_elem_of_singleton|by vm_compute..].
Qed.

Lemma bundle_roundtrip_witness :
  ∃ b, openReader toy_bundle [toy_key] = Ok b ∧ b_manifest b = toy_manifest.
Proof.
  destruct (bundle_roundtrip (λ _, true) [toy_key] toy_key toy_key toy_manifest [Byte.x7b] toy_images)
    as (b & files & out & Hb & Hm & _); [by apply list_elem_of_singleton|by vm_compute..| | | | |].
  - exact toy_distinct.
  - apply (bool_decide_unpack _). by vm_compute.
  - exact toy_good.
  - intros im [->|[->|?%not_elem_of_nil]%elem_of_cons]%elem_of_cons; [..|done]; by eexists.
  - by exists b.
Defined.

Definition twin (c dir : string) (data : bytes) : ImageRef :=
  MkImage c c "v1" (dir +:+ "/app.tar") ("sha256:" +:+ hex (take 32 (data ++ replicate 32 Byte.x00))) 0.
Lemma extract_collision_witness :
  ∃ files out, ExtractImages (λ _, true) (MkBundle
      (MkManifest 1 "v1.2.0" "" [] [twin "backend" "a" backend; twin "frontend" "b" frontend] "additive" [])
      (MkTar [("a/app.tar", backend); ("b/app.tar", frontend)] true)) = Ok (files, out) ∧
    out !! "backend" = Some "app.tar" ∧ files !! "app.tar" = Some frontend.
Proof. by apply (extract_collision (λ _, true) _ (twin "backend" "a" backend) (twin "frontend" "b" frontend)). Defined.
