(* ===== verification/Upgrade.v ===== *)
(** The upgrade service of one instance: [upgrade/service.go] and [upgrade/handlers.go], over the
    releases of [Release]. The state of the service is guarded by a mutex: a critical section is one
    step, and other requests run between two of them. The updater sidecar, the database backup and
    the release channel are parameters. *)
From S2P Require Import Prelude SecretBox Release.

(** [Status]; the log lines and the start time are not modelled. *)
Record Status := MkStatus {
  State : string; TargetVersion : string; Step : string; Error : string; Draining : bool; UpdatedAt : option Z;
}.

(** [models.ClusterInstance] and [models.Site], as the update screen shows them. *)
Record ClusterMember := MkMember { m_hostname : string; m_version : string; m_leader : bool; m_heartbeat : Z }.
Record SiteVersion := MkSite { si_name : string; si_build : string; si_status : string; si_up_to_date : bool }.

(** [Service]: the local status and the drain flag; the staged file; the upgrades posted to the
    updater with its answer; banners sent; the audit log; the database's rows. *)
Record store := Store {
  local : Status; draining : bool; staged : option tar; posted : list (string * option Z);
  banners : list (bool * string); audits : list string;
  instances : list ClusterMember; sites : list (string * string * string);
}.
Definition set_local (s : store) x := Store x (draining s) (staged s) (posted s) (banners s) (audits s) (instances s) (sites s).
Definition set_draining (s : store) x := Store (local s) x (staged s) (posted s) (banners s) (audits s) (instances s) (sites s).
Definition set_staged (s : store) x := Store (local s) (draining s) x (posted s) (banners s) (audits s) (instances s) (sites s).
Definition set_posted (s : store) x := Store (local s) (draining s) (staged s) x (banners s) (audits s) (instances s) (sites s).
Definition set_banners (s : store) x := Store (local s) (draining s) (staged s) (posted s) x (audits s) (instances s) (sites s).
Definition set_audits (s : store) x := Store (local s) (draining s) (staged s) (posted s) (banners s) x (instances s) (sites s).

Definition AppendAudit (a : string) (now : Z) (s : store) : res store_error unit * store :=
  (Ok tt, set_audits s (a :: audits s)).
Definition ListClusterInstances (now : Z) (s : store) : res store_error (list ClusterMember) * store :=
  (Ok (instances s), s).
Definition ListSites (now : Z) (s : store) : res store_error (list (string * string * string)) * store :=
  (Ok (sites s), s).

(** What the service asks of other processes, each call at a tick: a backup, the updater's status
    and its answer to a dispatch (an HTTP status, if it answers), the channel, a bundle download. *)
Class Outside := {
  backup_ok : nat → bool;
  updater_status : nat → option Status;
  updater_apply : nat → option Z;
  channel : nat → res channel_err ChannelIndex;
  download_bundle : nat → string → option tar;
  (** writing the staging file: refused before it is truncated, or what is then in it and whether
      all was written *)
  write_staged : nat → tar → option (tar * bool);
}.

Record config := Config {
  version : string; trusted : list bytes; has_backup : bool; UpdateChannelURL : string;
  hub_mode : bool; bootAt : Z; Lease : Z;
}.

Inductive apply_err :=
| ErrNoBundle | ErrBundle (e : bundle_err) | ErrUpgrade (e : upgrade_err)
| ErrInProgress | ErrBackup | ErrUnreachable | ErrRejected (code : Z)
| ErrNoChannel | ErrChannel (e : channel_err) | ErrNoRelease | ErrDownload.

Section service.
Context `{!Env store, !ReleaseLib, !Outside}.
Context (cfg : config).

(** A critical section, or another step that cannot fail: the others ran before it. *)
Definition locked {A} (f : Z → store → A * store) : M store A := λ w,
  let s := interfere (w_tick w) (w_db w) in
  let '(a, s') := f (clock (w_tick w)) s in (a, World (S (w_tick w)) s').
(** A call to another process. *)
Definition call {A} (f : nat → A) : M store A := λ w, (f (w_tick w), World (S (w_tick w)) (w_db w)).

Definition IsDraining : M store bool := locked (λ _ s, (draining s, s)).
Definition SetDrain (on : bool) (message : string) : M store unit :=
  _ ← locked (λ _ s, (tt, set_draining s on));
  effect (λ s, set_banners s ((on, message) :: banners s)).

Definition Stage (upload : option tar) : M store bool :=
  match upload with
  | None => mret false
  | Some t =>
    r ← call (λ n, write_staged n t);
    match (r : option (tar * bool)) with
    | None => mret false
    | Some (t', whole) => _ ← locked (λ _ s, (tt, set_staged s (Some t'))); mret whole
    end
  end.

(** The check of a bundle's content: signature, manifest, and an upgrade of this version. *)
Definition verify_bundle (t : option tar) : res apply_err Manifest :=
  match t with
  | None => Err ErrNoBundle
  | Some t =>
    match openReader t (trusted cfg) with
    | Err e => Err (ErrBundle e)
    | Ok b => match CheckUpgradeable (b_manifest b) (version cfg) with
              | Some e => Err (ErrUpgrade e)
              | None => Ok (b_manifest b)
              end
    end
  end.
Definition Service_Verify : M store (res apply_err Manifest) := locked (λ _ s, (verify_bundle (staged s), s)).

Definition fail (msg : string) : M store unit :=
  locked (λ now s, (tt, set_local s (MkStatus "failed" (TargetVersion (local s)) (Step (local s)) msg
                                       (Draining (local s)) (Some now)))).

Definition in_progress (st : string) : bool :=
  str_eqb st "verifying" || str_eqb st "backing_up" || str_eqb st "dispatched".

(** The end of [Apply], on the updater's answer. *)
Definition handed_over (resp : option Z) : M store (option apply_err) :=
  match resp with
  | None => _ ← fail "could not reach the updater service"; mret (Some ErrUnreachable)
  | Some code =>
    if negb (code =? 202) && negb (code =? 200) then
      _ ← fail "updater rejected the upgrade"; mret (Some (ErrRejected code))
    else
      _ ← locked (λ now s, (tt, set_local s (MkStatus "dispatched" (TargetVersion (local s))
                                 "applying update" (Error (local s)) (Draining (local s)) (Some now))));
      mret None
  end.

Definition Apply : M store (option apply_err) :=
  m ← Service_Verify;
  match (m : res apply_err Manifest) with
  | Err e => mret (Some e)
  | Ok m =>
    st ← locked (λ _ s, (State (local s), s));
    blocked ← (if in_progress st then
                 if str_eqb st "dispatched" then
                   us ← call updater_status;
                   mret (match us with Some us => str_eqb (State us) "running" | None => true end)
                 else mret true
               else mret false);
    if (blocked : bool) then mret (Some ErrInProgress)
    else
      now ← time_now;
      _ ← locked (λ _ s, (tt, set_local s (MkStatus "backing_up" (Version m)
                                "taking pre-upgrade database backup" "" (draining s) (Some now))));
      ok ← (if has_backup cfg then call backup_ok else mret true);
      if negb (ok : bool) then _ ← fail "pre-upgrade backup failed"; mret (Some ErrBackup)
      else
        _ ← SetDrain true ("Upgrading to " +:+ Version m +:+ " — reconnecting shortly.");
        resp ← call updater_apply;
        _ ← effect (λ s, set_posted s ((Version m, resp) :: posted s));
        handed_over resp
  end.

(** [Status]: the updater's report, unless it is the outcome of an earlier process's upgrade. *)
Definition with_draining (d : bool) (st : Status) : Status :=
  MkStatus (State st) (TargetVersion st) (Step st) (Error st) d (UpdatedAt st).
Definition stale (us : Status) : bool :=
  (str_eqb (State us) "success" || str_eqb (State us) "failed") &&
  (match UpdatedAt us with None => true | Some t => t <? bootAt cfg end).
Definition local_status : M store Status := locked (λ _ s, (with_draining (draining s) (local s), s)).
Definition status : M store Status :=
  us ← call updater_status;
  match (us : option Status) with
  | Some us => if stale us then local_status
               else d ← IsDraining; mret (with_draining d us)
  | None => local_status
  end.

Definition clusterRoster : M store (list ClusterMember) :=
  r ← db ListClusterInstances;
  now ← time_now;
  mret (match (r : res store_error (list ClusterMember)) with
        | Err _ => []
        | Ok l => List.filter (λ m, negb (Lease cfg <? now - m_heartbeat m)) l
        end).

(** [federationSites]: a site is up to date when it reports exactly the target version. *)
Definition federationSites (target : string) : M store (list SiteVersion * bool) :=
  if negb (hub_mode cfg) then mret ([], false)
  else
    r ← db ListSites;
    mret (match (r : res store_error (list (string * string * string))) with
          | Err _ => ([], false)
          | Ok l =>
            let out := (λ x : string * string * string, MkSite x.1.1 x.1.2 x.2
                          (negb (str_eqb x.1.2 "") && str_eqb x.1.2 target)) <$> l in
            (out, existsb (λ v, negb (si_up_to_date v)) out)
          end).

Record CheckResult := MkCheck {
  ChannelEnabled : bool; Available : option ChannelRelease; Roster : list ClusterMember;
  Sites : list SiteVersion; SitesBehind : bool;
}.

Definition CheckForUpdate : M store (res channel_err CheckResult) :=
  roster ← clusterRoster;
  if str_eqb (UpdateChannelURL cfg) "" then mret (Ok (MkCheck false None roster [] false))
  else
    r ← call channel;
    match (r : res channel_err ChannelIndex) with
    | Err e => mret (Err e)
    | Ok idx =>
      let up := PickUpdate idx (version cfg) in
      fs ← federationSites (match up with Some r => r_version r | None => version cfg end);
      mret (Ok (MkCheck true up roster fs.1 fs.2))
    end.

Definition download (url : string) : M store bool :=
  t ← call (λ n, download_bundle n url); Stage t.

Definition PullAndApply (ver : string) : M store (option apply_err) :=
  if str_eqb (UpdateChannelURL cfg) "" then mret (Some ErrNoChannel)
  else
    r ← call channel;
    match (r : res channel_err ChannelIndex) with
    | Err e => mret (Some (ErrChannel e))
    | Ok idx =>
      match (if str_eqb ver "" then PickUpdate idx (version cfg)
             else List.find (λ r, str_eqb (r_version r) ver) (ix_releases idx)) with
      | None => mret (Some ErrNoRelease)
      | Some rel =>
        ok ← download (r_url rel);
        if (ok : bool) then Apply else mret (Some ErrDownload)
      end
    end.

(** * Handlers *)
Definition audit (action : string) : M store unit := _ ← db (AppendAudit action); mret tt.

Definition preview (upload : option tar) : M store (reply Manifest) :=
  match upload with
  | None => mret (WriteError 400 "expected a multipart 'bundle' file")
  | Some t =>
    ok ← Stage (Some t);
    if (ok : bool) then
      m ← Service_Verify;
      match (m : res apply_err Manifest) with
      | Err _ => mret (WriteError 400 "bundle refused")
      | Ok m => _ ← audit "system.upgrade_preview"; mret (WriteJSON 200 m)
      end
    else mret (WriteError 500 "could not stage the bundle")
  end.

(** The reply, then the work of the goroutine the handler starts. *)
Definition apply (reviewed : string) : M store (reply string) :=
  m ← Service_Verify;
  match (m : res apply_err Manifest) with
  | Err _ => mret (WriteError 400 "no valid staged bundle to apply")
  | Ok m =>
    if negb (str_eqb reviewed "") && negb (str_eqb reviewed (Version m)) then
      mret (WriteError 409 "the staged bundle version changed since preview; re-upload and review again")
    else
      _ ← audit "system.upgrade_apply";
      _ ← Apply;
      mret (WriteJSON 202 (Version m))
  end.

Definition check : M store (reply CheckResult) :=
  r ← CheckForUpdate;
  mret (match r with Err _ => WriteError 502 "could not reach the update channel" | Ok c => WriteJSON 200 c end).

Definition pull (ver : string) : M store (reply string) :=
  _ ← audit "system.upgrade_pull";
  _ ← PullAndApply ver;
  mret (WriteJSON 202 ver).

Definition drain (rq : option (bool * string)) : M store (reply bool) :=
  match rq with
  | None => mret (WriteError 400 "invalid body")
  | Some (on, msg) =>
    let msg := if str_eqb msg "" && on then "Maintenance in progress — this instance is draining." else msg in
    _ ← SetDrain on msg;
    _ ← audit "system.drain";
    mret (WriteJSON 200 on)
  end.

Inductive op :=
| OpPreview (upload : option tar) | OpApply (reviewed : string) | OpStatus | OpCheck | OpPull (ver : string)
| OpDrain (rq : option (bool * string)).
Definition serve (o : op) : M store unit :=
  match o with
  | OpPreview u => _ ← preview u; mret tt
  | OpApply v => _ ← apply v; mret tt
  | OpStatus => _ ← status; mret tt
  | OpCheck => _ ← check; mret tt
  | OpPull v => _ ← pull v; mret tt
  | OpDrain rq => _ ← drain rq; mret tt
  end.

(** * Proofs *)
(** The bundle of version [v] opened under a trusted key and upgrades the running version. *)
Definition verified (v : string) : Prop :=
  ∃ t b, openReader t (trusted cfg) = Ok b ∧ CheckUpgradeable (b_manifest b) (version cfg) = None ∧
    v = Version (b_manifest b).
Definition posts (s s' : store) : Prop := ∀ x, x ∈ posted s' → x ∈ posted s ∨ verified x.1.
#[export] Instance posts_preorder : PreOrder posts.
Proof. split; [intros s x; auto | intros a b c H1 H2 x [Hx|Hx]%H2; auto]. Qed.
Lemma posts_same s s' : posted s' = posted s → posts s s'.
Proof. intros Heq x. rewrite Heq. auto. Qed.

Lemma within_locked {A} (R : relation store) `{!PreOrder R, !Relies R} (f : Z → store → A * store) :
  (∀ now s, R s (f now s).2) → within R (locked f).
Proof.
  intros Hf w _. unfold locked. specialize (Hf (clock (w_tick w)) (interfere (w_tick w) (w_db w))).
  destruct (f _ _) as [a s']. split; [|done]. etrans; [apply relies | exact Hf].
Qed.
Lemma within_call {A} (R : relation store) `{!PreOrder R} (f : nat → A) : within R (call f).
Proof. intros w _. split; [reflexivity | done]. Qed.

Ltac same_posts := first [exact _ | intros; apply posts_same; reflexivity].

Context `{!Relies posts}.
Hint Resolve within_call : within.
Hint Extern 1 (within posts (locked _)) => apply within_locked; same_posts : within.
Hint Extern 1 (within posts (effect _)) => apply within_effect; same_posts : within.
Hint Extern 1 (within posts (db _)) => apply within_db; same_posts : within.

Lemma verify_bundle_ok t m : verify_bundle t = Ok m → verified (Version m).
Proof. unfold verify_bundle. repeat case_match; try done. intros [= <-]. by eexists _, _. Qed.

Lemma guar_Verify P :
  guar posts P Service_Verify (λ r _, ∀ m, r = Ok m → verified (Version m)).
Proof.
  intros w _. split; [|intros m; apply verify_bundle_ok].
  eapply (within_locked posts (λ _ s, (verify_bundle (staged s), s))); [reflexivity|exact I].
Qed.
Lemma within_Service_Verify : within posts Service_Verify.
Proof. apply within_locked; same_posts. Qed.
Lemma within_fail msg : within posts (fail msg).
Proof. apply within_locked; same_posts. Qed.
Lemma within_handed_over resp : within posts (handed_over resp).
Proof. unfold handed_over. within_tac; apply within_fail. Qed.
Lemma within_SetDrain on msg : within posts (SetDrain on msg).
Proof. unfold SetDrain. within_tac. Qed.
Lemma within_Stage u : within posts (Stage u).
Proof. unfold Stage. within_tac. Qed.
Lemma within_upgrade_audit a : within posts (audit a).
Proof. unfold audit. within_tac. Qed.
Hint Resolve within_Service_Verify within_fail within_handed_over within_SetDrain within_Stage within_upgrade_audit : within.


(** A condition on the result of an earlier step, carried as a fact. *)
Lemma guar_const {A} (R : relation store) (φ : Prop) (m : M store A) Q :
  (φ → guar R (λ _, True) m Q) → guar R (λ _, φ) m Q.
Proof. intros Hm w Hφ. exact (Hm Hφ w I). Qed.

Lemma within_Apply : within posts Apply.
Proof.
  eapply guar_bind; [exact _ | apply guar_Verify |]. intros r.
  apply (guar_const _ (∀ m, r = Ok m → verified (Version m))). intros Hv.
  destruct r as [m|e]; [|apply within_ret; exact _]. specialize (Hv m eq_refl).
  assert (∀ resp, within posts (effect (λ s, set_posted s ((Version m, resp) :: posted s)))) as Hp.
  { intros resp. apply within_effect. intros s x [->|Hx]%elem_of_cons; auto. }
  match goal with |- guar _ _ ?x _ => change (within posts x) end. within_tac.
Qed.
Hint Resolve within_Apply : within.

Lemma within_PullAndApply ver : within posts (PullAndApply ver).
Proof. unfold PullAndApply, download. within_tac. Qed.
Lemma within_reads : within posts status ∧ within posts CheckForUpdate.
Proof. unfold status, local_status, IsDraining, CheckForUpdate, clusterRoster, federationSites. split; within_tac. Qed.
Hint Extern 1 (within posts status) => exact (proj1 within_reads) : within.
Hint Extern 1 (within posts CheckForUpdate) => exact (proj2 within_reads) : within.
Hint Resolve within_PullAndApply : within.

(** Whatever requests are served, and whatever runs between their steps, an upgrade is only ever
    posted to the updater for a bundle that was opened under a trusted release key and whose
    manifest upgrades the running version. *)
Theorem dispatch_verified o w v resp :
  (v, resp) ∈ posted (w_db (serve o w).2) → (v, resp) ∈ posted (w_db w) ∨ verified v.
Proof.
  assert (within posts (serve o)) as Hw
    by (destruct o; unfold serve, preview, apply, check, pull, drain; within_tac).
  intros Hin. exact (proj1 (Hw w I) _ Hin).
Qed.
End service.

(** * Runs of [Apply] *)
Section run.
Context `{!Env store, !ReleaseLib, !Outside}.
Implicit Types cfg : config.

Lemma run_locked {A} (f : Z → store → A * store) n s :
  locked f (World n s) = ((f (clock n) (interfere n s)).1, World (S n) (f (clock n) (interfere n s)).2).
Proof. unfold locked. simpl. by destruct (f _ _). Qed.
Lemma run_call {A} (f : nat → A) n (s : store) : call f (World n s) = (f n, World (S n) s).
Proof. done. Qed.

Definition accepted (resp : option Z) : bool :=
  match resp with Some code => (code =? 202) || (code =? 200) | None => false end.

Definition settled (resp : option Z) (r : option apply_err * world store) (s : store) : Prop :=
  posted (w_db r.2) = posted s ∧ draining (w_db r.2) = draining s ∧ staged (w_db r.2) = staged s ∧
  if accepted resp then r.1 = None ∧ State (local (w_db r.2)) = "dispatched"
  else r.1 ≠ None ∧ State (local (w_db r.2)) = "failed".
Lemma handed_over_run resp n s : interfere n s = s → settled resp (handed_over resp (World n s)) s.
Proof.
  intros Hi. unfold settled, handed_over, accepted, fail. destruct resp as [code|].
  - destruct (code =? 202), (code =? 200); cbn [negb orb andb]; rewrite run_bind, run_locked, Hi; done.
  - rewrite run_bind, run_locked, Hi; done.
Qed.

(** A run of [Apply] that the others leave alone but before its first step, and for the moment
    between its check that no upgrade runs and its own mark. *)
Lemma apply_run cfg n s m :
  (∀ k x, (n < k)%nat → k ≠ (3 + n)%nat → interfere k x = x) → (∀ k, backup_ok k = true) →
  let s1 := interfere n s in
  verify_bundle cfg (staged s1) = Ok m → in_progress (State (local s1)) = false →
  let s' := interfere (3 + n)%nat s1 in
  let r := Apply cfg (World n s) in
  ∃ k, posted (w_db r.2) = (Version m, updater_apply k) :: posted s' ∧
    draining (w_db r.2) = true ∧ staged (w_db r.2) = staged s' ∧
    (if accepted (updater_apply k)
     then r.1 = None ∧ State (local (w_db r.2)) = "dispatched"
     else r.1 ≠ None ∧ State (local (w_db r.2)) = "failed").
Proof.
  intros Hi Hb s1 Hv Hp s' r. subst r. unfold Apply, Service_Verify, SetDrain, fail.
  rewrite !run_bind, run_locked. cbn [fst snd]. fold s1. rewrite Hv.
  rewrite !run_bind, run_locked, Hi by lia. cbn [fst snd]. rewrite Hp.
  destruct (has_backup cfg);
    repeat (progress (rewrite ?run_bind, ?run_call, ?Hb; cbn [negb fst snd mret M_ret time_now effect w_tick w_db];
                      rewrite ?run_locked));
    rewrite (Hi (S (S (S (S _))))) by lia;
    (eexists; match goal with |- context [handed_over ?resp (World ?n ?x)] =>
       destruct (handed_over_run resp n x) as (-> & -> & -> & Hend); [apply Hi; lia|done] end).
Qed.

(** A backend whose upgrade is refused by the updater, or whose updater does not answer, reports
    the upgrade as failed and keeps draining: [Apply] drains before it dispatches and never undoes
    it, so the readiness probe goes on failing until an operator ends the drain. *)
Theorem failed_upgrade_keeps_draining cfg n s m `{!Quiet Env0} :
  verify_bundle cfg (staged s) = Ok m → in_progress (State (local s)) = false →
  (∀ k, backup_ok k = true) → (∀ k, accepted (updater_apply k) = false) →
  let r := Apply cfg (World n s) in
  r.1 ≠ None ∧ State (local (w_db r.2)) = "failed" ∧ (IsDraining r.2).1 = true.
Proof.
  intros Hv Hp Hb Ha r. pose proof (apply_run cfg n s m) as Hr. rewrite !quiet in Hr.
  destruct Hr as (k & _ & Hd & _ & Hend); [intros; apply quiet|done..|]. rewrite Ha in Hend. destruct Hend as [He Hs].
  split_and!; [done..|]. unfold IsDraining, locked. by rewrite quiet.
Qed.
End run.

Section races.
Context `{!ReleaseLib, !Outside}.

(** Only one apply is meant to be in flight, but the check and the mark are separate critical
    sections: an [Apply] that runs in between is not noticed, and both post to the updater. *)
Theorem two_applies_race cfg s m :
  verify_bundle cfg (staged s) = Ok m → in_progress (State (local s)) = false → (∀ k, backup_ok k = true) →
  let E := interposed 3 (λ s, w_db (Apply (Env0 := quiet_env) cfg (World 0 s)).2) in
  ∃ r1 r2, posted (w_db (Apply (Env0 := E) cfg (World 0 s)).2) = (Version m, r1) :: (Version m, r2) :: posted s.
Proof.
  intros Hv Hp Hb E.
  destruct (apply_run (Env0 := quiet_env) cfg 0 s m) as (k & Hk & _); [done..|].
  destruct (apply_run (Env0 := E) cfg 0 s m) as (k' & Hk' & _); [|done..|].
  { intros i x Hi Hi3. simpl. by rewrite bool_decide_false. }
  simpl in Hk, Hk'. do 2 eexists. by rewrite Hk', Hk.
Qed.

(** A preview leaves its upload staged and starts nothing. *)
Lemma preview_stages cfg t n s :
  (∀ k t, write_staged k t = Some (t, true)) →
  let s' := w_db (preview (Env0 := quiet_env) cfg (Some t) (World n s)).2 in
  staged s' = Some t ∧ local s' = local s ∧ posted s' = posted s.
Proof.
  intros Hw s'. subst s'. unfold preview, Stage, Service_Verify, audit.
  rewrite !run_bind, run_call, Hw. repeat (rewrite ?run_bind, ?run_locked; cbn [fst snd mret M_ret]).
  rewrite !quiet. destruct (verify_bundle _ _); [|done]. by rewrite !run_bind, run_db.
Qed.

(** The handler refuses a bundle whose version is not the reviewed one, but the upgrade it then
    starts opens the staged file anew: a bundle previewed in between is applied in its place. *)
Theorem reviewed_bundle_replaced cfg s m m2 t2 :
  verify_bundle cfg (staged s) = Ok m → verify_bundle cfg (Some t2) = Ok m2 →
  in_progress (State (local s)) = false → (∀ k, backup_ok k = true) →
  (∀ k t, write_staged k t = Some (t, true)) →
  let E := interposed 2 (λ s, w_db (preview (Env0 := quiet_env) cfg (Some t2) (World 0 s)).2) in
  let r := apply (Env0 := E) cfg (Version m) (World 0 s) in
  r.1 = WriteJSON 202 (Version m) ∧ ∃ resp, posted (w_db r.2) = (Version m2, resp) :: posted s.
Proof.
  intros Hv Hv2 Hp Hb Hw E r. subst r. unfold apply, Service_Verify, audit.
  rewrite run_bind, run_locked. cbn [fst snd].
  change (interfere 0%nat s) with s. rewrite Hv.
  assert (str_eqb (Version m) (Version m) = true) as -> by by apply str_eqb_eq.
  rewrite andb_false_r, !run_bind, db_eq. cbn [fst snd mret M_ret w_tick w_db].
  change (db_err 1%nat) with false. change (interfere 1%nat s) with s. cbn [AppendAudit fst snd w_tick w_db].
  split; [done|]. pose (s1 := set_audits s ("system.upgrade_apply" :: audits s)). fold s1.
  destruct (preview_stages cfg t2 0 s1 Hw) as (H1 & H2 & H3).
  destruct (apply_run (Env0 := E) cfg 2 s1 m2) as (k & Hk & _).
  - intros i x Hi _. simpl. rewrite bool_decide_false by lia. done.
  - done.
  - etrans; [|exact Hv2]. f_equal. exact H1.
  - etrans; [|exact Hp]. do 2 f_equal. exact H2.
  - exists (updater_apply k). etrans; [exact Hk|]. f_equal. exact H3.
Qed.
End races.

(** * Witnesses *)
Definition release_of (v : string) : Manifest := MkManifest 1 v "" ["backend"] [toy_image "backend" backend] "additive" [].
#[local] Instance two_releases : ReleaseLib := {|
  sha256 d := take 32 (d ++ replicate 32 Byte.x00);
  ed_sign k m := replicate 64 Byte.x00;
  ed_verify k m s := true;
  parse_manifest b := Some (release_of (if bool_decide (b = [Byte.x01]) then "v1.2.0" else "v1.3.0"));
  parse_index b := None;
|}.
#[local] Instance accepts : Outside := {|
  backup_ok _ := true; updater_status _ := None; updater_apply _ := Some 202;
  channel _ := Err ErrFetchIndex; download_bundle _ _ := None; write_staged _ t := Some (t, true);
|}.
Definition refuses : Outside := {|
  backup_ok _ := true; updater_status _ := None; updater_apply _ := None;
  channel _ := Err ErrFetchIndex; download_bundle _ _ := None; write_staged _ t := Some (t, true);
|}.
Definition bundle_of (b : Byte.byte) : tar := WriteBundle [b] (Sign [b] toy_key) toy_images.
Definition toy_cfg : config := Config "v1.1.0" [toy_key] true "" false 0 30.
Definition idle : Status := MkStatus "idle" "" "" "" false None.
Definition toy_store : store := Store idle false (Some (bundle_of Byte.x01)) [] [] [] [] [].
#[local] Existing Instance quiet_env.

Lemma dispatch_verified_witness : verified toy_cfg "v1.2.0".
Proof.
  destruct (dispatch_verified toy_cfg (OpApply "v1.2.0") (World 0 toy_store) "v1.2.0" (Some 202)) as [Hin|Hv];
    [|by apply not_elem_of_nil in Hin|exact Hv].
  apply list_elem_of_singleton. by vm_compute.
Defined.

Lemma failed_upgrade_keeps_draining_witness :
  (IsDraining (Apply (H0 := refuses) toy_cfg (World 0 toy_store)).2).1 = true.
Proof.
  destruct (failed_upgrade_keeps_draining (H0 := refuses) toy_cfg 0 toy_store (release_of "v1.2.0"))
    as (_ & _ & Hd); [by vm_compute|done..|]. exact Hd.
Defined.

Lemma two_applies_race_witness :
  length (posted (w_db (Apply (Env0 := interposed 3 (λ s, w_db (Apply toy_cfg (World 0 s)).2))
    toy_cfg (World 0 toy_store)).2)) = 2%nat.
Proof.
  destruct (two_applies_race toy_cfg toy_store (release_of "v1.2.0")) as (r1 & r2 & Hr); [by vm_compute|done..|].
  by rewrite Hr.
Defined.

Lemma reviewed_bundle_replaced_witness :
  posted (w_db (apply (Env0 := interposed 2 (λ s, w_db (preview toy_cfg (Some (bundle_of Byte.x02)) (World 0 s)).2))
    toy_cfg "v1.2.0" (World 0 toy_store)).2) = [("v1.3.0", Some 202)].
Proof.
  destruct (reviewed_bundle_replaced toy_cfg toy_store (release_of "v1.2.0") (release_of "v1.3.0") (bundle_of Byte.x02))
    as (_ & resp & Hr); [by vm_compute|by vm_compute|done..|].
  etrans; [exact Hr|]. revert Hr. by vm_compute.
Defined.
