(* ===== verification/Updater.v ===== *)
(** The updater sidecar, [cmd/fleet-updater]: the merge of new settings into the deployment's .env
    ([configmigrate.go]), the pipeline that applies a release bundle, with its rollback
    ([apply.go]), and the HTTP server in front of it ([main.go]). The Docker daemon and the health
    probe are the interfaces of the source, classes here. *)
From stdpp Require Import sorting.
From S2P Require Import Prelude GoStrings SecretBox Release.
From Stdlib Require Import Strings.Ascii.

(** * Settings: [configmigrate.go] *)
Definition nl : ascii := "010".

(** The key a line of the file assigns, if any: what precedes its first [=]. *)
Fixpoint upto (c : ascii) (s : string) : option string :=
  match s with
  | EmptyString => None
  | String d s' => if Ascii.eqb d c then Some "" else String d <$> upto c s'
  end.
Definition assigned_key (line : string) : option string :=
  let t := TrimSpace line in
  if str_eqb t "" || has_prefix "#" t then None
  else match upto "=" t with
       | Some k => if str_eqb k "" then None else Some (TrimSpace k)
       | None => None
       end.
Definition assigned (envContent : string) : list string := omap assigned_key (Split nl envContent).

Definition ends_with (c : ascii) (s : string) : bool :=
  match rev_string s "" with String d _ => Ascii.eqb d c | EmptyString => false end.

Inductive merge_err := MergeInvalid (e : manifest_err) | MergeRandom.

Section merge.
(** The random source: the 32 bytes of the [n]th draw, unless it fails. *)
Context (rand : nat → option bytes).

Definition entry_text (a : ConfigAddition) (val : string) : string :=
  (if str_eqb (Comment a) "" then "" else "# " +:+ Comment a +:+ String nl "") +:+
  Key a +:+ "=" +:+ val +:+ String nl "".

Fixpoint merge_loop (adds : list ConfigAddition) (existing : gset string) (n : nat) (b : string)
    (added : list string) : res merge_err (string * list string) :=
  match adds with
  | [] => Ok (b, added)
  | a :: adds' =>
    match Addition_Validate a with
    | Some e => Err (MergeInvalid e)
    | None =>
      if bool_decide (Key a ∈ existing) then merge_loop adds' existing n b added
      else
        let put val n' := merge_loop adds' ({[Key a]} ∪ existing) n' (b +:+ entry_text a val) (added ++ [Key a]) in
        if str_eqb (Generate a) "secret" then
          match rand n with
          | None => Err MergeRandom
          | Some bs => put (hex bs) (S n)
          end
        else put (Default a) n
    end
  end.

Definition mergeConfigAdditions (envContent : string) (additions : list ConfigAddition)
    : res merge_err (string * list string) :=
  let b := envContent +:+ (if negb (str_eqb envContent "") && negb (ends_with nl envContent)
                           then String nl "" else "") in
  merge_loop additions (list_to_set (assigned envContent)) 0 b [].

Inductive env_err := EnvRead | EnvMerge (e : merge_err) | EnvWrite.

(** The file before ([None]: it cannot be read) and what a write that fails leaves in it; the keys
    added and the file after. *)
Definition applyConfigAdditions (file : option string) (broken : option string) (additions : list ConfigAddition)
    : res env_err (list string) * option string :=
  if bool_decide (additions = []) then (Ok [], file)
  else match file with
       | None => (Err EnvRead, file)
       | Some cur =>
         match mergeConfigAdditions cur additions with
         | Err e => (Err (EnvMerge e), file)
         | Ok (merged, added) =>
           if bool_decide (added = []) then (Ok [], file)
           else match broken with
                | None => (Ok added, Some merged)
                | Some torn => (Err EnvWrite, Some torn)
                end
         end
       end.
End merge.

Example merge_ex :
  mergeConfigAdditions (λ _, None) ("FLEET_A=1" +:+ String nl "FLEET_B=2")
    [MkAddition "FLEET_A" "x" "" ""; MkAddition "FLEET_C" "new" "" "the c"] =
  Ok ("FLEET_A=1" +:+ String nl "FLEET_B=2" +:+ String nl "# the c" +:+ String nl "FLEET_C=new" +:+ String nl "", ["FLEET_C"]).
Proof. by vm_compute. Qed.

(** ** Proofs *)
Definition no_nl (s : string) : bool := all_chars (λ d, negb (Ascii.eqb d nl)) s.

Lemma assigned_app a b : assigned (a +:+ String nl "" +:+ b) = assigned a ++ assigned b.
Proof. unfold assigned. by rewrite Split_app, omap_app. Qed.
Lemma assigned_nl a : assigned (a +:+ String nl "") = assigned a.
Proof. rewrite <- (str_app_nil (a +:+ String nl "")), <- str_app_assoc, assigned_app. apply app_nil_r. Qed.
Lemma assigned_line l : no_nl l = true → assigned l = match assigned_key l with Some k => [k] | None => [] end.
Proof. intros Hl. unfold assigned. rewrite Split_nosep by done. simpl. by destruct (assigned_key l). Qed.

Lemma upto_sep c k t : all_chars (λ d, negb (Ascii.eqb d c)) k = true → upto c (k +:+ String c t) = Some k.
Proof.
  induction k as [|d k IH]; intros Hk.
  { change (upto c (String c t) = Some ""). cbn [upto]. by rewrite Ascii.eqb_refl. }
  apply andb_true_iff in Hk as [Hd Hk]. apply negb_true_iff in Hd.
  change (String d k +:+ String c t) with (String d (k +:+ String c t)). cbn [upto]. rewrite Hd. by rewrite IH.
Qed.

Definition key_char (d : ascii) : bool := code_between 65 90 d || is_digit d || Ascii.eqb d "_".
Lemma key_char_plain d : key_char d = true → plain_char d = true ∧ negb (Ascii.eqb d "=") = true ∧ negb (Ascii.eqb d nl) = true.
Proof.
  intros Hd. assert (N_of_ascii d < 256)%N as Hb by apply N_ascii_bounded.
  rewrite <- (ascii_N_embedding d) in *. revert Hd Hb. rewrite N_ascii_embedding by apply N_ascii_bounded.
  generalize (N_of_ascii d). intros n Hd Hn. revert Hd.
  assert (∀ k, (k < 256)%nat → key_char (ascii_of_nat k) = true →
    plain_char (ascii_of_nat k) && negb (Ascii.eqb (ascii_of_nat k) "=") && negb (Ascii.eqb (ascii_of_nat k) nl) = true) as Hall.
  { assert (forallb (λ k, negb (key_char (ascii_of_nat k)) || (plain_char (ascii_of_nat k) &&
      negb (Ascii.eqb (ascii_of_nat k) "=") && negb (Ascii.eqb (ascii_of_nat k) nl))) (seq 0 256) = true) as Hf by by vm_compute.
    intros k Hk Hkc. rewrite forallb_forall in Hf. specialize (Hf k (proj2 (in_seq _ _ _) (conj (Nat.le_0_l _) Hk))).
    by rewrite Hkc in Hf. }
  intros Hd. specialize (Hall (N.to_nat n) ltac:(lia)). unfold ascii_of_nat in Hall. rewrite N2Nat.id in Hall.
  specialize (Hall Hd). apply andb_true_iff in Hall as [[]%andb_true_iff ?]. done.
Qed.

Lemma valid_key a : Addition_Validate a = None →
  ∃ c s, Key a = String c s ∧ all_chars key_char (Key a) = true ∧ no_nl (Default a) = true.
Proof.
  unfold Addition_Validate. destruct (configKeyRE (Key a)) eqn:Hk; [|done]. cbn [negb].
  destruct (_ && _); [done|]. destruct (all_chars _ (Default a)) eqn:Hd; [|done]. intros _.
  destruct (Key a) as [|c s]; [done|]. exists c, s. split; [done|]. simpl in Hk.
  apply andb_true_iff in Hk as [Hc Hs]. split.
  - apply andb_true_iff. split; [unfold key_char; by rewrite Hc|exact Hs].
  - eapply all_chars_impl; [|exact Hd]. by intros d [? _]%andb_true_iff.
Qed.

Lemma key_line a val : Addition_Validate a = None → assigned_key (Key a +:+ "=" +:+ val) = Some (Key a).
Proof.
  intros (c & s & Hk & Hall & _)%valid_key. rewrite Hk in *.
  assert (all_chars plain_char (String c s) = true) as Hpl by (eapply all_chars_impl; [|exact Hall]; apply key_char_plain).
  assert (plain_char c = true ∧ c ≠ "#"%char) as [Hc Hne].
  { apply andb_true_iff in Hall as [Hc _]. split; [by apply key_char_plain|]. by intros ->. }
  destruct (TrimSpace_keeps c (s +:+ "=") "=" val Hc eq_refl) as [t Ht]; [by exists (String c s)|].
  unfold assigned_key.
  replace (String c s +:+ "=" +:+ val) with (String c (s +:+ "=") +:+ val) by
    (change (String c (s +:+ "=")) with (String c s +:+ "="); by rewrite <- str_app_assoc).
  rewrite Ht. change (String c (s +:+ "=") +:+ t) with (String c ((s +:+ "=") +:+ t)).
  unfold str_eqb at 1. rewrite bool_decide_false by done. cbn [orb has_prefix].
  destruct (Ascii.eqb_spec "#" c) as [<-|_]; [done|]. rewrite <- str_app_assoc.
  change (String c (s +:+ "=" +:+ t)) with (String c s +:+ String "=" t). rewrite upto_sep.
  - unfold str_eqb. rewrite bool_decide_false by done. by rewrite TrimSpace_all_plain.
  - eapply all_chars_impl; [|exact Hall]. apply key_char_plain.
Qed.

Lemma comment_line c : assigned_key ("# " +:+ c) = None.
Proof.
  destruct (TrimSpace_keeps "#" "" "#" (" " +:+ c) eq_refl eq_refl) as [t Ht]; [by exists ""|].
  unfold assigned_key. change ("# " +:+ c) with ("#" +:+ " " +:+ c). rewrite Ht.
  change ("#" +:+ t) with (String "#" t). unfold str_eqb. by rewrite bool_decide_false.
Qed.

Lemma no_nl_app a b : no_nl (a +:+ b) = no_nl a && no_nl b.
Proof. apply all_chars_app. Qed.

Lemma key_no_nl a : Addition_Validate a = None → no_nl (Key a) = true.
Proof. intros (c & s & _ & Hall & _)%valid_key. eapply all_chars_impl; [|exact Hall]. apply key_char_plain. Qed.

Lemma entry_assigned a val : Addition_Validate a = None → no_nl (Comment a) = true → no_nl val = true →
  assigned (entry_text a val) = [Key a].
Proof.
  intros Ha Hc Hv. unfold entry_text.
  assert (assigned (Key a +:+ "=" +:+ val +:+ String nl "") = [Key a]) as Hkey.
  { replace (Key a +:+ "=" +:+ val +:+ String nl "") with ((Key a +:+ "=" +:+ val) +:+ String nl "")
      by (rewrite <- !str_app_assoc; done).
    rewrite assigned_nl, assigned_line by (rewrite !no_nl_app, Hv, key_no_nl; done). by rewrite key_line. }
  destruct (str_eqb (Comment a) ""); [exact Hkey|].
  replace (("# " +:+ Comment a +:+ String nl "") +:+ Key a +:+ "=" +:+ val +:+ String nl "")
    with (("# " +:+ Comment a) +:+ String nl "" +:+ Key a +:+ "=" +:+ val +:+ String nl "")
    by (rewrite <- !str_app_assoc; done).
  rewrite assigned_app, Hkey, assigned_line by by rewrite no_nl_app, Hc. by rewrite comment_line.
Qed.

Lemma hex_no_nl bs : no_nl (hex bs) = true.
Proof.
  induction bs as [|b bs IH]; [done|].
  change (hex (b :: bs)) with (hex [b] +:+ hex bs). rewrite no_nl_app, IH. by destruct b.
Qed.

(** A text that ends where a line begins. *)
Definition closed (b : string) : Prop := b = "" ∨ ∃ b0, b = b0 +:+ String nl "".
Lemma assigned_closed b t : closed b → assigned (b +:+ t) = assigned b ++ assigned t.
Proof. intros [->|[b0 ->]]; [done|]. by rewrite <- str_app_assoc, assigned_app, assigned_nl. Qed.
Lemma closed_entry b a val : closed (b +:+ entry_text a val).
Proof.
  right. unfold entry_text. eexists (b +:+ (if str_eqb (Comment a) "" then "" else "# " +:+ Comment a +:+ String nl "") +:+
    Key a +:+ "=" +:+ val). by rewrite <- !str_app_assoc.
Qed.
Lemma ends_with_closed s : ends_with nl s = true → closed s.
Proof.
  unfold ends_with. destruct (rev_string s "") as [|d r] eqn:Hr; [done|]. intros Hd.
  destruct (Ascii.eqb_spec d nl) as [->|]; [|done]. right. exists (rev_string r "").
  pose proof (rev_string_rev s "") as Hs. rewrite Hr in Hs. cbn [rev_string] in Hs.
  by rewrite <- Hs, <- (rev_string_app r "" (String nl "")).
Qed.
Lemma closed_ends_with s : closed s → s ≠ "" → ends_with nl s = true.
Proof. intros [->|[b ->]] Hne; [done|]. unfold ends_with. rewrite rev_string_snoc. by rewrite Ascii.eqb_refl. Qed.

Section merge_spec.
Context (rand : nat → option bytes).

Lemma merge_loop_spec adds n b added out added' :
  closed b → (∀ a, a ∈ adds → no_nl (Comment a) = true) →
  merge_loop rand adds (list_to_set (assigned b)) n b added = Ok (out, added') →
  ∃ tail more, out = b +:+ tail ∧ added' = added ++ more ∧ assigned out = assigned b ++ more ∧ NoDup more ∧
    (∀ k, k ∈ more → (k ∉ assigned b) ∧ (∃ a, a ∈ adds ∧ Key a = k)) ∧
    (∀ a, a ∈ adds → Addition_Validate a = None ∧ Key a ∈ assigned out) ∧ closed out.
Proof.
  revert n b added. induction adds as [|a adds IH]; intros n b added Hb Hc; cbn [merge_loop].
  { intros [= <- <-]. exists "", []. rewrite str_app_nil, !app_nil_r.
    split_and!; [done..|constructor|by intros ? ?%not_elem_of_nil|by intros ? ?%not_elem_of_nil|done]. }
  destruct (Addition_Validate a) eqn:Ha; [done|].
  assert (∀ a', a' ∈ adds → no_nl (Comment a') = true) as Hc' by (intros; apply Hc; by apply elem_of_cons; right).
  case_bool_decide as Hin; [rewrite elem_of_list_to_set in Hin|].
  { intros (tail & more & -> & -> & Hass & Hnd & Hmore & Hall & Hcl)%IH; [|done..].
    exists tail, more. split_and!; [done..| | |done].
    - intros k (? & a' & ? & ?)%Hmore. split; [done|]. exists a'. split; [by apply elem_of_cons; right|done].
    - intros a' [->|Ha']%elem_of_cons; [|by apply Hall]. split; [done|]. rewrite Hass. apply elem_of_app. by left. }
  rewrite elem_of_list_to_set in Hin.
  assert (∀ val n', no_nl val = true →
    merge_loop rand adds ({[Key a]} ∪ list_to_set (assigned b)) n' (b +:+ entry_text a val) (added ++ [Key a]) = Ok (out, added') →
    ∃ tail more, out = b +:+ tail ∧ added' = added ++ more ∧ assigned out = assigned b ++ more ∧ NoDup more ∧
      (∀ k, k ∈ more → (k ∉ assigned b) ∧ (∃ a', a' ∈ a :: adds ∧ Key a' = k)) ∧
      (∀ a', a' ∈ a :: adds → Addition_Validate a' = None ∧ Key a' ∈ assigned out) ∧ closed out) as Hput.
  { intros val n' Hv Hr. assert (assigned (b +:+ entry_text a val) = assigned b ++ [Key a]) as Has.
    { rewrite assigned_closed by done. rewrite entry_assigned; [done..| |done]. apply Hc, elem_of_cons. by left. }
    replace ({[Key a]} ∪ list_to_set (assigned b)) with (list_to_set (assigned (b +:+ entry_text a val)) : gset string) in Hr
      by (rewrite Has, list_to_set_app_L; simpl; set_solver).
    apply IH in Hr as (tail & more & -> & -> & Hass & Hnd & Hmore & Hall & Hcl); [|apply closed_entry|done].
    rewrite Has in Hass, Hmore. exists (entry_text a val +:+ tail), (Key a :: more).
    rewrite <- str_app_assoc in *. split_and!; [by rewrite str_app_assoc|by rewrite <- app_assoc|by rewrite Hass, <- app_assoc| | | |done].
    - constructor; [|done]. intros Hk%Hmore. apply (proj1 Hk), elem_of_app. right. by apply list_elem_of_singleton.
    - intros k [->|Hk]%elem_of_cons; [split; [done|]; exists a; split; [by apply elem_of_cons; left|done]|].
      apply Hmore in Hk as (Hk & a' & ? & ?). split; [intros ?; apply Hk, elem_of_app; by left|].
      exists a'. split; [by apply elem_of_cons; right|done].
    - intros a' [->|Ha']%elem_of_cons; [|by apply Hall]. split; [done|]. rewrite Hass.
      apply elem_of_app. left. apply elem_of_app. right. by apply list_elem_of_singleton. }
  destruct (str_eqb (Generate a) "secret").
  - destruct (rand n); [|done]. by apply Hput, hex_no_nl.
  - apply Hput. by apply valid_key in Ha as (? & ? & ? & ? & ?).
Qed.

Lemma merge_loop_nothing adds (existing : gset string) n b added :
  (∀ a, a ∈ adds → Addition_Validate a = None ∧ Key a ∈ existing) →
  merge_loop rand adds existing n b added = Ok (b, added).
Proof.
  induction adds as [|a adds IH]; intros Hall; [done|]. cbn [merge_loop].
  destruct (Hall a) as [-> Hin]; [by apply elem_of_cons; left|]. rewrite bool_decide_true by done.
  apply IH. intros a' ?. by apply Hall, elem_of_cons; right.
Qed.
End merge_spec.

Lemma buffer_closed cur :
  let b := cur +:+ (if negb (str_eqb cur "") && negb (ends_with nl cur) then String nl "" else "") in
  closed b ∧ assigned b = assigned cur.
Proof.
  destruct (str_eqb cur "") eqn:He; cbn [negb andb].
  { apply str_eqb_eq in He as ->. split; [by left|done]. }
  destruct (ends_with nl cur) eqn:Hn; cbn [negb].
  - rewrite str_app_nil. split; [by apply ends_with_closed|done].
  - split; [right; by eexists|apply assigned_nl].
Qed.

(** Merging a release's settings into the .env file only adds: the old text stays as it is and the
    keys assigned are the old ones, in order, then the added ones, which are new and distinct; every
    setting of the release is assigned; merging again changes nothing. It needs the comments of the
    additions to be single lines, which nothing checks. *)
Theorem merge_additive rand cur adds out added :
  (∀ a, a ∈ adds → no_nl (Comment a) = true) →
  mergeConfigAdditions rand cur adds = Ok (out, added) →
  (∃ tail, out = cur +:+ tail) ∧ assigned out = assigned cur ++ added ∧ NoDup added ∧
  (∀ k, k ∈ added → k ∉ assigned cur) ∧ (∀ a, a ∈ adds → Key a ∈ assigned out) ∧
  ∀ rand', mergeConfigAdditions rand' out adds = Ok (out, []).
Proof.
  intros Hc Hm. unfold mergeConfigAdditions in Hm.
  destruct (buffer_closed cur) as [Hb Has]. set (b := cur +:+ _) in *. rewrite <- Has in Hm.
  apply merge_loop_spec in Hm as (tail & more & -> & -> & Hass & Hnd & Hmore & Hall & Hcl); [|done..].
  rewrite Has in Hass, Hmore. split_and!; [|done|done|intros k Hk; by apply Hmore in Hk as [? _]|intros a Hk; by apply Hall in Hk as [_ ?]|].
  - unfold b. rewrite <- str_app_assoc. by eexists.
  - intros rand'. unfold mergeConfigAdditions.
    assert (negb (str_eqb (b +:+ tail) "") && negb (ends_with nl (b +:+ tail)) = false) as ->.
    { destruct (str_eqb (b +:+ tail) "") eqn:He; [done|].
      assert (b +:+ tail ≠ "") as Hne by (intros Hz; apply (proj2 (str_eqb_eq _ _)) in Hz; by rewrite Hz in He).
      by rewrite closed_ends_with. }
    rewrite str_app_nil. apply merge_loop_nothing. intros a Ha. destruct (Hall a Ha) as [Hv Hin].
    split; [done|]. by apply elem_of_list_to_set.
Qed.

Definition multi_line : ConfigAddition :=
  MkAddition "FLEET_C" "new" "" ("the c" +:+ String nl "FLEET_A=2").
(** A comment of two lines assigns a key the file already has: additions with such a comment pass
    validation. *)
Lemma comment_assigns : Addition_Validate multi_line = None ∧
  ∃ out, mergeConfigAdditions (λ _, None) ("FLEET_A=1" +:+ String nl "") [multi_line] = Ok (out, ["FLEET_C"]) ∧
    assigned out = ["FLEET_A"; "FLEET_A"; "FLEET_C"].
Proof. split; [by vm_compute|]. eexists. split; by vm_compute. Qed.

(** * The pipeline: [apply.go] *)
Record Status := MkStatus {
  State : string; TargetVersion : string; Step : string; Log : list string; Error : string;
}.
Record ApplyReq := MkReq { rq_bundle : string; rq_current : string; rq_target : string }.
Record Config := MkConfig {
  UpdatesDir : string; Project : string; ComposeFiles : list string; EnvFile : string;
  BackendURL : string; BackendServices : list string;
}.

(** The interfaces [Docker] and [Health] of the source, over the daemon's state. An error is [false]
    or [None]; the override file of a [ComposeUp] is the map it pins. *)
Class Docker (D : Type) := {
  Load : bytes → D → bool * D;
  RunningImageID : string → D → option string;
  TagImage : string → string → D → bool * D;
  ComposeUp : list string → gmap string string → D → bool * D;
  InspectMount : string → string → D → option string;
  RunDetached : string → list string → string → D → bool * D;
  WaitHealthy : string → string → D → bool * D;
}.

(** The updater's memory, its mirror on disk, the .env file and the daemon. *)
Record updater (D : Type) := MkUpdater {
  u_status : Status; u_persisted : option Status; u_env : option string; u_docker : D;
}.
Arguments MkUpdater {D}.
Arguments u_status {D}.
Arguments u_persisted {D}.
Arguments u_env {D}.
Arguments u_docker {D}.

(** A part of [Apply]: it goes on with a value or has reported a failure and returned. *)
Definition U (D A : Type) : Type := updater D → option A * updater D.
#[export] Instance U_ret D : MRet (U D) := λ A a u, (Some a, u).
#[export] Instance U_bind D : MBind (U D) := λ A B k m u,
  match m u with (Some a, u') => k a u' | (None, u') => (None, u') end.

(** The files the updater reads and writes: the bundles, the temporary directory, the status mirror,
    the override files, what a failed write leaves of the .env file. *)
Class Files := {
  open_file : string → option tar;
  extract_disk : string → bool;
  mirror_ok : Status → bool;
  override_ok : string → bool;
  env_torn : option string;
  env_rand : nat → option bytes;
}.

Definition updaterComponent : string := "fleet-updater".
Definition by_component : relation ImageRef := λ a b, String.leb (Component a) (Component b) = true.
#[export] Instance by_component_dec : RelDecision by_component.
Proof. intros a b. unfold by_component. exact _. Defined.
Definition sortedImages (imgs : list ImageRef) : list ImageRef := merge_sort by_component imgs.

Definition str_le : relation string := λ a b, String.leb a b = true.
#[export] Instance str_le_dec : RelDecision str_le.
Proof. intros a b. unfold str_le. exact _. Defined.
Definition sort_strings (l : list string) : list string := merge_sort str_le l.

(** [writeOverride]: the text of the file. *)
Definition line (s : string) : string := s +:+ String nl "".
Definition render_override (serviceImages : gmap string string) : string :=
  foldl (λ b s, b +:+ line ("  " +:+ s +:+ ":") +:+ line ("    image: " +:+ default "" (serviceImages !! s)) +:+
                  line "    pull_policy: never")
        (line "services:") (sort_strings (elements (dom serviceImages))).

Fixpoint join (sep : string) (l : list string) : string :=
  match l with [] => "" | [s] => s | s :: l' => s +:+ sep +:+ join sep l' end.

Section pipeline.
Context {D : Type} `{!Docker D, !Files, !ReleaseLib}.
Context (cfg : Config) (trusted : list bytes).
Abbreviation U := (U D).

Definition set_status (f : Status → Status) (u : updater D) : updater D :=
  let st := f (u_status u) in
  MkUpdater st (if mirror_ok st then Some st else u_persisted u) (u_env u) (u_docker u).

Definition set (state step : string) : U unit := λ u,
  (Some tt, set_status (λ s, MkStatus state (TargetVersion s) step (Log s ++ [step]) (Error s)) u).
Definition fail {A} (msg : string) : U A := λ u,
  (None, set_status (λ s, MkStatus "failed" (TargetVersion s) (Step s) (Log s ++ ["FAILED: " +:+ msg]) msg) u).
(** A call of the daemon. *)
Definition daemon {A} (f : D → A * D) : U A := λ u,
  let '(a, d) := f (u_docker u) in (Some a, MkUpdater (u_status u) (u_persisted u) (u_env u) d).
Definition inspect {A} (f : D → A) : U A := daemon (λ d, (f d, d)).

(** Runs [f] over a list, as a loop whose body may return. *)
Fixpoint each {A} (f : A → U unit) (l : list A) : U unit :=
  match l with [] => mret tt | a :: l' => _ ← f a; each f l' end.

Definition servicesFor (component : string) : list string :=
  if str_eqb component "backend" && negb (bool_decide (BackendServices cfg = []))
  then BackendServices cfg else [component].
Definition backendHealthURL (service : string) : string :=
  if str_eqb service "backend" && negb (str_eqb (BackendURL cfg) "") then BackendURL cfg
  else "http://" +:+ service +:+ ":8080".
Definition container (svc : string) : string := Project cfg +:+ "-" +:+ svc +:+ "-1".

Definition write_override (path : string) : U bool := λ u, (Some (override_ok path), u).
Definition upgrade_override : string := UpdatesDir cfg +:+ "/docker-compose.upgrade.yml".
Definition rollback_override : string := UpdatesDir cfg +:+ "/docker-compose.rollback.yml".

Definition rollback {A} (rollbackTags : gmap string string) (reason : string) : U A :=
  _ ← set "running" ("rolling back: " +:+ reason);
  if bool_decide (rollbackTags = ∅) then
    fail (reason +:+ " (no rollback anchor available — manual recovery required)")
  else
    written ← write_override rollback_override;
    if negb written then fail (reason +:+ " (rollback override write failed)")
    else
      ok ← daemon (ComposeUp (sort_strings (elements (dom rollbackTags))) rollbackTags);
      if negb (ok : bool) then fail (reason +:+ " (rollback failed — manual recovery required)")
      else
        _ ← daemon (WaitHealthy (backendHealthURL (default "" (head (servicesFor "backend")))) "");
        fail (reason +:+ " (rolled back to the previous version)").

(** 1b: the settings of the release. *)
Definition migrate_config (m : Manifest) : U unit :=
  if bool_decide (ConfigAdditions m = []) then mret tt
  else
    _ ← set "running" "applying config additions";
    r ← (λ u, let '(r, env) := applyConfigAdditions env_rand (u_env u) env_torn (ConfigAdditions m) in
              (Some r, MkUpdater (u_status u) (u_persisted u) env (u_docker u)));
    match (r : res env_err (list string)) with
    | Err _ => fail "config migration failed"
    | Ok added => if bool_decide (added = []) then mret tt
                  else set "running" ("added config keys: " +:+ join ", " added)
    end.

Definition load_image (files : gmap string bytes) (im : ImageRef) : U unit :=
  _ ← set "running" ("loading image " +:+ Component im);
  ok ← daemon (Load (default [] (files !! Base (File im))));
  if (ok : bool) then mret tt else fail ("docker load " +:+ Component im).

(** 4: the running image of each service, tagged. *)
Definition anchor (im : ImageRef) (tags : gmap string string) (svc : string) : U (gmap string string) :=
  let rb := Image im +:+ ":rollback" in
  id ← inspect (RunningImageID (container svc));
  match (id : option string) with
  | None => _ ← set "running" ("note: no rollback anchor for " +:+ svc); mret tags
  | Some id =>
    ok ← daemon (TagImage id rb);
    if (ok : bool) then mret (<[svc := rb]> tags) else fail ("tag rollback " +:+ svc)
  end.
Fixpoint anchor_services (im : ImageRef) (tags : gmap string string) (svcs : list string) : U (gmap string string) :=
  match svcs with [] => mret tags | svc :: svcs' => tags ← anchor im tags svc; anchor_services im tags svcs' end.
Fixpoint anchor_images (tags : gmap string string) (ims : list ImageRef) : U (gmap string string) :=
  match ims with
  | [] => mret tags
  | im :: ims' =>
    if str_eqb (Component im) updaterComponent then anchor_images tags ims'
    else tags ← anchor_services im tags (servicesFor (Component im)); anchor_images tags ims'
  end.

(** 5: the image each service is pinned to. *)
Definition serviceImages (imgs : list ImageRef) : gmap string string :=
  foldl (λ acc im, foldl (λ acc svc, <[svc := Image im +:+ ":" +:+ Tag im]> acc) acc (servicesFor (Component im)))
        ∅ imgs.

Definition compose (ov tags : gmap string string) (services : list string) (reason : string) : U unit :=
  ok ← daemon (ComposeUp services ov);
  if (ok : bool) then mret tt else rollback tags reason.
Definition healthy (tags : gmap string string) (svc wantVersion reason : string) : U unit :=
  ok ← daemon (WaitHealthy (backendHealthURL svc) wantVersion);
  if (ok : bool) then mret tt else rollback tags reason.

Definition roll_backend (ov tags : gmap string string) (m : Manifest) (svc : string) : U unit :=
  _ ← set "running" ("rolling " +:+ svc +:+ " (additive)");
  _ ← compose ov tags [svc] (svc +:+ " update failed");
  healthy tags svc (Version m) (svc +:+ " did not become healthy").
Definition update_backends (ov tags : gmap string string) (m : Manifest) : U unit :=
  let backends := servicesFor "backend" in
  if str_eqb (MigrationCompatibility m) "additive" && Nat.ltb 1 (length backends) then
    each (roll_backend ov tags m) backends
  else
    _ ← set "running" (if Nat.ltb 1 (length backends)
                       then "updating all backends together (breaking migrations — brief outage)"
                       else "updating backend");
    _ ← compose ov tags backends "backend update failed";
    healthy tags (default "" (head backends)) (Version m) "new version did not become healthy".

Definition is_sidecar (c : string) : bool :=
  negb (str_eqb c "frontend") && negb (str_eqb c "backend") && negb (str_eqb c updaterComponent).

Definition selfUpdate (newImage : string) (u : updater D) : bool * updater D :=
  if str_eqb newImage "" then (false, u)
  else
    let self := container updaterComponent in
    match InspectMount self "/compose" (u_docker u) with
    | None | Some "" => (false, u)
    | Some composeSrc =>
      match InspectMount self (EnvFile cfg) (u_docker u) with
      | None | Some "" => (false, u)
      | Some envSrc =>
        let args := ["compose"; "--project-directory"; composeSrc; "--env-file"; EnvFile cfg] ++
          mbind (λ f, ["-f"; f]) (ComposeFiles cfg) ++
          ["-f"; upgrade_override; "up"; "-d"; "--no-build"; "--no-deps"; updaterComponent] in
        let binds := ["/var/run/docker.sock:/var/run/docker.sock"; composeSrc +:+ ":/compose:ro";
          envSrc +:+ ":" +:+ EnvFile cfg +:+ ":ro"; Project cfg +:+ "_updates:" +:+ UpdatesDir cfg] in
        let '(ok, d) := RunDetached newImage binds ("sleep 5; docker " +:+ join " " args) (u_docker u) in
        (ok, MkUpdater (u_status u) (u_persisted u) (u_env u) d)
      end
    end.

(** Steps 5 and 6. *)
Definition deploy (ov tags : gmap string string) (m : Manifest) : U unit :=
  let has c := bool_decide (c ∈ Components m) in
  _ ← (if has "frontend"
       then _ ← set "running" "updating frontend"; compose ov tags ["frontend"] "frontend update failed"
       else mret tt);
  let sidecars := sort_strings (filter (λ c, is_sidecar c) (Components m)) in
  _ ← (if bool_decide (sidecars = []) then mret tt
       else _ ← set "running" ("updating " +:+ join ", " sidecars); compose ov tags sidecars "sidecar update failed");
  if has "backend" then update_backends ov tags m else mret tt.

Definition finish (ov : gmap string string) (m : Manifest) : U unit :=
  _ ← (λ u, (Some tt, set_status (λ s, MkStatus "success" (TargetVersion s) "upgrade complete"
                        (Log s ++ ["upgraded to " +:+ Version m]) (Error s)) u));
  if bool_decide (updaterComponent ∈ Components m) then
    ok ← (λ u, let '(ok, u') := selfUpdate (default "" (ov !! updaterComponent)) u in (Some ok, u'));
    if (ok : bool) then set "success" "handed off updater self-update to a detached helper"
    else set "success" "note: self-update handoff failed — updater still on previous version"
  else mret tt.

Definition install (b : Bundle) : U unit :=
  let m := b_manifest b in
  _ ← migrate_config m;
  _ ← set "running" "extracting images";
  match ExtractImages extract_disk b with
  | Err _ => fail "image extraction/verification failed"
  | Ok (files, _) =>
    _ ← each (load_image files) (sortedImages (Images m));
    tags ← anchor_images ∅ (sortedImages (Images m));
    let ov := serviceImages (Images m) in
    written ← write_override upgrade_override;
    if negb written then fail "write compose override"
    else _ ← deploy ov tags m; finish ov m
  end.

Definition Apply (req : ApplyReq) : U unit :=
  _ ← (λ u, (Some tt, set_status (λ _, MkStatus "running" (rq_target req) "" [] "") u));
  _ ← set "running" "verifying bundle signature";
  match open_file (rq_bundle req) with
  | None => fail "signature verification failed"
  | Some t =>
    match openReader t trusted with
    | Err _ => fail "signature verification failed"
    | Ok b => match CheckUpgradeable (b_manifest b) (rq_current req) with
              | Some _ => fail "the bundle does not upgrade the running version"
              | None => install b
              end
    end
  end.
End pipeline.

(** * The server: [main.go] *)
Definition splitList (s : string) : list string :=
  filter (λ p, p ≠ "") (TrimSpace <$> mbind (Split ",") (Split ":" s)).

Definition authOK (token got : string) : bool := str_eqb token "" || str_eqb got token.
Definition busy (st : Status) : bool := str_eqb (State st) "running".

(** [main]: without a token it starts in development only; the last status is restored from disk. *)
Definition boot (token env : string) (mirror : option Status) : option Status :=
  if str_eqb token "" && negb (str_eqb env "development") then None
  else Some (match mirror with
             | Some st => if str_eqb (State st) "" then MkStatus "idle" "" "" [] "" else st
             | None => MkStatus "idle" "" "" [] ""
             end).

(** The status and the applies accepted whose goroutine has not begun. *)
Record server := MkServer { s_status : Status; s_pending : list ApplyReq }.
Definition handle_apply (token : string) (post : bool) (got : string) (body : option ApplyReq) (s : server)
    : Z * server :=
  if negb post then (405, s)
  else if negb (authOK token got) then (401, s)
  else match body with
       | None => (400, s)
       | Some req =>
         if str_eqb (rq_bundle req) "" then (400, s)
         else if busy (s_status s) then (409, s)
         else (202, MkServer (s_status s) (s_pending s ++ [req]))
       end.
Definition handle_status (token got : string) (s : server) : option Status :=
  if authOK token got then Some (s_status s) else None.

(** * Proofs *)
(** Partial correctness of a part of [Apply]: [Q] where it goes on, [E] where it has returned. *)
Definition hoare {D A} (P : updater D → Prop) (m : U D A) (Q : A → updater D → Prop) (E : updater D → Prop) : Prop :=
  ∀ u, P u → match m u with (Some a, u') => Q a u' | (None, u') => E u' end.

Section hoare.
Context {D : Type}.
Implicit Types P E : updater D → Prop.

Lemma hoare_bind {A B} P Q (Q' : B → updater D → Prop) E (m : U D A) (k : A → U D B) :
  hoare P m Q E → (∀ a, hoare (Q a) (k a) Q' E) → hoare P (m ≫= k) Q' E.
Proof.
  intros Hm Hk u HP. unfold mbind, U_bind. specialize (Hm u HP). destruct (m u) as [[a|] u']; [by apply Hk|done].
Qed.
Lemma hoare_ret {A} P (Q : A → updater D → Prop) E a : (∀ u, P u → Q a u) → hoare P (mret a) Q E.
Proof. intros HQ u HP. by apply HQ. Qed.
Lemma hoare_conseq {A} P P' (Q Q' : A → updater D → Prop) E E' m :
  hoare P' m Q' E' → (∀ u, P u → P' u) → (∀ a u, Q' a u → Q a u) → (∀ u, E' u → E u) → hoare P m Q E.
Proof. intros Hm HP HQ HE u Hu. specialize (Hm u (HP u Hu)). destruct (m u) as [[a|] u']; auto. Qed.
Lemma hoare_pre {A} P P' (Q : A → updater D → Prop) E m : hoare P' m Q E → (∀ u, P u → P' u) → hoare P m Q E.
Proof. intros Hm HP. by eapply hoare_conseq. Qed.
Lemma hoare_pure {A} (φ : Prop) P (Q : A → updater D → Prop) E m :
  (φ → hoare P m Q E) → hoare (λ u, φ ∧ P u) m Q E.
Proof. intros Hm u [Hφ HP]. by apply Hm. Qed.
Lemma hoare_and {A} P P' (Q Q' : A → updater D → Prop) E E' m :
  hoare P m Q E → hoare P' m Q' E' →
  hoare (λ u, P u ∧ P' u) m (λ a u, Q a u ∧ Q' a u) (λ u, E u ∧ E' u).
Proof. intros Hm Hm' u [HP HP']. specialize (Hm u HP). specialize (Hm' u HP'). destruct (m u) as [[a|] u']; auto. Qed.
End hoare.

(** What the daemon is documented to do: which image a service runs and what a reference names.
    Only [ComposeUp] changes the running images, of the services it is given; on success each
    service it pins runs the image its reference names. An archive that was loaded stays loaded. *)
Class DockerLaws (D : Type) `{!Docker D} (cfg : Config) := {
  running : D → string → option string;
  named : D → string → option string;
  inspect_running d svc i : RunningImageID (container cfg svc) d = Some i → running d svc = Some i;
  load_running data d svc : running (Load data d).2 svc = running d svc;
  tag_running src dst d svc : running (TagImage src dst d).2 svc = running d svc;
  tag_named src dst d : (TagImage src dst d).1 = true → named (TagImage src dst d).2 dst = Some src;
  tag_named_other src dst d ref : ref ≠ dst → named (TagImage src dst d).2 ref = named d ref;
  compose_other svcs ov d svc : svc ∉ svcs → running (ComposeUp svcs ov d).2 svc = running d svc;
  compose_named svcs ov d ref : named (ComposeUp svcs ov d).2 ref = named d ref;
  compose_pinned svcs ov d svc ref : (ComposeUp svcs ov d).1 = true → svc ∈ svcs → ov !! svc = Some ref →
    is_Some (named d ref) ∧ running (ComposeUp svcs ov d).2 svc = named d ref;
  health_running url v d svc : running (WaitHealthy url v d).2 svc = running d svc;
  health_named url v d ref : named (WaitHealthy url v d).2 ref = named d ref;
  detached_running im binds sh d svc : running (RunDetached im binds sh d).2 svc = running d svc;
  detached_named im binds sh d ref : named (RunDetached im binds sh d).2 ref = named d ref;
  loaded : D → bytes → Prop;
  load_loaded data d : (Load data d).1 = true → loaded (Load data d).2 data;
  load_keeps data d x : loaded d x → loaded (Load data d).2 x;
  tag_keeps src dst d x : loaded d x → loaded (TagImage src dst d).2 x;
  compose_keeps svcs ov d x : loaded d x → loaded (ComposeUp svcs ov d).2 x;
  health_keeps url v d x : loaded d x → loaded (WaitHealthy url v d).2 x;
  detached_keeps im binds sh d x : loaded d x → loaded (RunDetached im binds sh d).2 x;
}.

Section outcome.
Context {D : Type} `{!Docker D, !Files, !ReleaseLib}.
Context (cfg : Config) (trusted : list bytes) `{!DockerLaws D cfg}.
Context (d0 : D) (m : Manifest).

(** A service with a rollback anchor: it belongs to an image of the release and was running. *)
Definition anchored (svc : string) : Prop :=
  (∃ im, im ∈ Images m ∧ Component im ≠ updaterComponent ∧ svc ∈ servicesFor cfg (Component im)) ∧ is_Some (running d0 svc).
Definition touched (svc : string) : Prop :=
  svc ∈ Components m ∨ svc ∈ servicesFor cfg "backend" ∨ anchored svc.
(** Services that share an image repository run the same image, as they share a rollback tag. *)
Definition coherent : Prop := ∀ im im' svc svc' i i',
  im ∈ Images m → im' ∈ Images m → svc ∈ servicesFor cfg (Component im) → svc' ∈ servicesFor cfg (Component im') →
  Image im = Image im' → running d0 svc = Some i → running d0 svc' = Some i' → i = i'.

Definition untouched (d : D) : Prop := ∀ svc, running d svc = running d0 svc.
Definition others (d : D) : Prop := ∀ svc, ¬ touched svc → running d svc = running d0 svc.
Definition restored (d : D) : Prop := others d ∧ ∀ svc, anchored svc → running d svc = running d0 svc.
Definition gave_up (err : string) : Prop := ∃ reason,
  err = reason +:+ " (no rollback anchor available — manual recovery required)" ∨
  err = reason +:+ " (rollback override write failed)" ∨
  err = reason +:+ " (rollback failed — manual recovery required)".
Definition rolled_back (err : string) : Prop :=
  ∃ reason, err = reason +:+ " (rolled back to the previous version)".
Definition failed_with (u : updater D) : Prop :=
  State (u_status u) = "failed" ∧
  (untouched (u_docker u) ∨ rolled_back (Error (u_status u)) ∧ restored (u_docker u) ∨ gave_up (Error (u_status u))).

Definition on (I : D → Prop) (u : updater D) : Prop := I (u_docker u).
Definition tags_ok (tags : gmap string string) : Prop :=
  (∀ svc, anchored svc → is_Some (tags !! svc)) ∧ ∀ svc rb, tags !! svc = Some rb → anchored svc.
Definition anchors (tags : gmap string string) (d : D) : Prop :=
  ∀ svc rb, tags !! svc = Some rb → ∃ i, running d0 svc = Some i ∧ named d rb = Some i.
Definition updated (ov : gmap string string) (svcs : list string) (d : D) : Prop :=
  ∀ svc ref, svc ∈ svcs → ov !! svc = Some ref → is_Some (named d ref) ∧ running d svc = named d ref.

(** ** The steps that leave the daemon alone *)
Lemma set_on (I : D → Prop) E state step : hoare (on I) (set state step) (λ _, on I) E.
Proof. by intros u Hu. Qed.
Lemma fail_spec {A} (I : D → Prop) (Q : A → updater D → Prop) msg :
  (∀ d, I d → untouched d) → hoare (on I) (fail msg) Q failed_with.
Proof. intros HI u Hu. split; [done|]. left. by apply HI. Qed.
Lemma daemon_on {A} (I : D → Prop) (f : D → A * D) (Q : A → D → Prop) E :
  (∀ d, I d → Q (f d).1 (f d).2) → hoare (on I) (daemon f) (λ a, on (Q a)) E.
Proof. intros Hf u Hu. unfold daemon. specialize (Hf _ Hu). by destruct (f (u_docker u)). Qed.
Lemma write_override_on (I : D → Prop) E path : hoare (on I) (write_override path) (λ _, on I) E.
Proof. by intros u Hu. Qed.

Lemma untouched_migrate : hoare (on untouched) (migrate_config m) (λ _, on untouched) failed_with.
Proof.
  unfold migrate_config. case_bool_decide; [by apply hoare_ret|].
  eapply hoare_bind; [apply set_on|intros ?]. eapply (hoare_bind _ (λ _, on untouched)).
  { intros u Hu. by destruct (applyConfigAdditions _ _ _ _). }
  intros [added|]; [|by apply fail_spec]. case_bool_decide; [by apply hoare_ret|apply set_on].
Qed.

Lemma untouched_loads files l : hoare (on untouched) (each (load_image files) l) (λ _, on untouched) failed_with.
Proof.
  induction l as [|im l IH]; [by apply hoare_ret|]. simpl. eapply hoare_bind; [|intros ?; exact IH].
  unfold load_image. eapply hoare_bind; [apply set_on|intros ?].
  eapply (hoare_bind _ (λ _, on untouched)); [|intros []; [by apply hoare_ret|by apply fail_spec]].
  apply (daemon_on untouched _ (λ _, untouched)). intros d Hd svc. rewrite load_running. apply Hd.
Qed.

(** ** The rollback anchors *)
Context (Hinspect : ∀ d svc i, running d svc = Some i → RunningImageID (container cfg svc) d = Some i).
Context (Hcoh : coherent).

Definition anchoring (seen : list string) (tags : gmap string string) (d : D) : Prop :=
  untouched d ∧
  (∀ svc rb, tags !! svc = Some rb → ∃ im i, im ∈ Images m ∧ Component im ≠ updaterComponent ∧
     svc ∈ servicesFor cfg (Component im) ∧ rb = Image im +:+ ":rollback" ∧
     running d0 svc = Some i ∧ named d rb = Some i) ∧
  (∀ svc, svc ∈ seen → is_Some (running d0 svc) → is_Some (tags !! svc)).

Lemma anchoring_insert seen tags im svc i d :
  im ∈ Images m → Component im ≠ updaterComponent → svc ∈ servicesFor cfg (Component im) →
  anchoring seen tags d → running d0 svc = Some i →
  let rb := Image im +:+ ":rollback" in
  (TagImage i rb d).1 = true → anchoring (svc :: seen) (<[svc := rb]> tags) (TagImage i rb d).2.
Proof.
  intros Him Hne Hsvc (Hu & Hp & Hs) Hi rb Hok. split_and!.
  - intros x. rewrite tag_running. apply Hu.
  - intros x rbx Hx. destruct (decide (x = svc)) as [->|Hxs].
    + rewrite lookup_insert_eq in Hx. injection Hx as <-. exists im, i. split_and!; [done..|]. by apply tag_named.
    + rewrite lookup_insert_ne in Hx by done. apply Hp in Hx as (im' & i' & H1 & H2 & H3 & H4 & H5 & H6).
      exists im', i'. split_and!; [done..|]. destruct (decide (rbx = rb)) as [Heq|Hrb]; [|by rewrite tag_named_other].
      rewrite Heq, tag_named by done. f_equal. eapply (Hcoh im im'); [done..| |done|done].
      apply (str_app_inj_r _ _ ":rollback"). by rewrite <- H4, Heq.
  - intros x [->|Hx]%elem_of_cons Hr; [by rewrite lookup_insert_eq|].
    destruct (decide (x = svc)) as [->|?]; [by rewrite lookup_insert_eq|]. rewrite lookup_insert_ne by done. by apply Hs.
Qed.

Lemma anchor_spec seen im tags svc :
  im ∈ Images m → Component im ≠ updaterComponent → svc ∈ servicesFor cfg (Component im) →
  hoare (on (anchoring seen tags)) (anchor cfg im tags svc) (λ tags', on (anchoring (svc :: seen) tags')) failed_with.
Proof.
  intros Him Hne Hsvc. unfold anchor.
  eapply (hoare_bind _ (λ id, on (λ d, anchoring seen tags d ∧ RunningImageID (container cfg svc) d = id))).
  { intros u Hu. by split. }
  intros [i|].
  - eapply (hoare_bind _ (λ ok, on (λ d, untouched d ∧ (ok = true → anchoring (svc :: seen) (<[svc := Image im +:+ ":rollback"]> tags) d)))).
    { apply daemon_on. intros d [Ha Hr]. assert (running d svc = Some i) as Hi by by apply inspect_running. split.
      - intros x. rewrite tag_running. apply Ha.
      - rewrite (proj1 Ha svc) in Hi. intros Hok. by apply anchoring_insert. }
    intros []; [apply hoare_ret; intros u [_ Hu]; by apply Hu|]. apply fail_spec. by intros d [? _].
  - eapply hoare_bind; [apply set_on|intros ?]. apply hoare_ret. intros u [(Hu & Hp & Hs) Hi].
    split_and!; [done..|]. intros x [->|Hx]%elem_of_cons Hr; [|by apply Hs]. destruct Hr as [i Hr].
    rewrite <- Hu in Hr. apply Hinspect in Hr. congruence.
Qed.

Lemma anchoring_sub seen seen' tags d : (∀ x, x ∈ seen' → x ∈ seen) → anchoring seen tags d → anchoring seen' tags d.
Proof. intros Hsub (H1 & H2 & H3). split_and!; [done..|]. eauto. Qed.

Lemma anchor_services_spec seen im tags svcs :
  im ∈ Images m → Component im ≠ updaterComponent → (∀ svc, svc ∈ svcs → svc ∈ servicesFor cfg (Component im)) →
  hoare (on (anchoring seen tags)) (anchor_services cfg im tags svcs)
    (λ tags', on (anchoring (svcs ++ seen) tags')) failed_with.
Proof.
  intros Him Hne. revert seen tags. induction svcs as [|svc svcs IH]; intros seen tags Hall; [by apply hoare_ret|].
  cbn [anchor_services]. eapply hoare_bind; [apply anchor_spec; [done..|apply Hall, elem_of_cons; by left]|].
  intros tags'. eapply hoare_conseq; [apply IH|done| |done].
  - intros x Hx. apply Hall, elem_of_cons. by right.
  - intros tags'' u. apply anchoring_sub. intros x Hx. rewrite !elem_of_app, elem_of_cons in *. naive_solver.
Qed.

Lemma anchor_images_spec seen tags ims :
  (∀ im, im ∈ ims → im ∈ Images m) →
  hoare (on (anchoring seen tags)) (anchor_images cfg tags ims)
    (λ tags', on (anchoring (mbind (λ im, if str_eqb (Component im) updaterComponent then []
                                          else servicesFor cfg (Component im)) ims ++ seen) tags')) failed_with.
Proof.
  revert seen tags. induction ims as [|im ims IH]; intros seen tags Hall; [by apply hoare_ret|]. cbn [anchor_images].
  assert (∀ x, x ∈ ims → x ∈ Images m) as Hall' by (intros; apply Hall; by apply elem_of_cons; right).
  rewrite bind_cons. destruct (str_eqb (Component im) updaterComponent) eqn:Hc; [by apply IH|].
  eapply hoare_bind; [apply anchor_services_spec|].
  - apply Hall, elem_of_cons. by left.
  - intros He. apply (proj2 (str_eqb_eq _ _)) in He. by rewrite He in Hc.
  - done.
  - intros tags'. eapply hoare_conseq; [by apply IH|done| |done].
    intros tags'' u. apply anchoring_sub. intros x Hx. rewrite !elem_of_app in *. naive_solver.
Qed.

Lemma sortedImages_elem im l : im ∈ sortedImages l ↔ im ∈ l.
Proof. unfold sortedImages. by rewrite (merge_sort_Permutation by_component l). Qed.

Lemma anchors_taken : hoare (on untouched) (anchor_images cfg ∅ (sortedImages (Images m)))
  (λ tags u, tags_ok tags ∧ on (λ d, untouched d ∧ anchors tags d) u) failed_with.
Proof.
  eapply hoare_conseq; [apply (anchor_images_spec []); intros im ?; by apply sortedImages_elem| | |done].
  - intros u Hu. split_and!; [done|by intros ???%lookup_empty_Some|by intros ? ?%not_elem_of_nil].
  - intros tags u (Hu & Hp & Hs). split; [split|split; [done|]].
    + intros svc [(im & Him & Hne & Hsvc) Hr]. apply Hs; [|done]. apply elem_of_app. left.
      apply list_elem_of_bind. exists im. split; [|by apply sortedImages_elem].
      unfold str_eqb. by rewrite bool_decide_false.
    + intros svc rb (im & i & H1 & H2 & H3 & _ & H5 & _)%Hp. split; [by exists im|]. by eexists.
    + intros svc rb (im & i & _ & _ & _ & _ & H5 & H6)%Hp. by exists i.
Qed.

(** ** Deployment and rollback *)
Definition deploying (ov tags : gmap string string) (svcs : list string) (d : D) : Prop :=
  others d ∧ anchors tags d ∧ updated ov svcs d.

Lemma rollback_spec {A} (Q : A → updater D → Prop) tags reason : tags_ok tags →
  hoare (on (λ d, others d ∧ anchors tags d)) (rollback cfg tags reason) Q failed_with.
Proof.
  intros [Hdom Hsub]. unfold rollback. eapply hoare_bind; [apply set_on|intros ?].
  assert (∀ msg (I : D → Prop), gave_up msg → hoare (on I) (fail msg) Q failed_with) as Hgive.
  { intros msg I Hg u _. split; [done|]. right. by right. }
  case_bool_decide; [apply Hgive; exists reason; by left|].
  eapply hoare_bind; [apply write_override_on|intros []]; [cbn [negb]|apply Hgive; exists reason; right; by left].
  eapply (hoare_bind _ (λ ok, on (λ d, ok = true → restored d))).
  { apply daemon_on. intros d [Ho Ha] Hok. split.
    - intros svc Hsvc. rewrite compose_other; [by apply Ho|]. unfold sort_strings.
      rewrite merge_sort_Permutation, elem_of_elements, elem_of_dom. intros [rb Hrb]. apply Hsvc.
      right. right. by eapply Hsub.
    - intros svc Hsvc. destruct (Hdom svc Hsvc) as [rb Hrb]. destruct (Ha svc rb Hrb) as (i & -> & Hi).
      destruct (compose_pinned (sort_strings (elements (dom tags))) tags d svc rb Hok) as [_ ->]; [|done..].
      unfold sort_strings. rewrite merge_sort_Permutation, elem_of_elements, elem_of_dom. by eexists. }
  intros []; [cbn [negb]|apply Hgive; exists reason; by right; right].
  eapply (hoare_bind _ (λ _, on restored)).
  { apply (daemon_on _ _ (λ _, restored)). intros d Hd. destruct (Hd eq_refl) as [Ho Hr].
    split; intros svc Hsvc; rewrite health_running; auto. }
  intros ? u Hu. split; [done|]. right. left. split; [by exists reason|done].
Qed.

Lemma compose_spec ov tags done svcs reason : tags_ok tags → (∀ svc, svc ∈ svcs → touched svc) →
  hoare (on (deploying ov tags done)) (compose cfg ov tags svcs reason)
    (λ _, on (deploying ov tags (svcs ++ done))) failed_with.
Proof.
  intros Htags Htouch. unfold compose.
  eapply (hoare_bind _ (λ ok, on (λ d, (others d ∧ anchors tags d) ∧ (ok = true → updated ov (svcs ++ done) d)))).
  { apply daemon_on. intros d (Ho & Ha & Hup). split_and!.
    - intros svc Hsvc. rewrite compose_other; [by apply Ho|]. intros ?. by apply Hsvc, Htouch.
    - intros svc rb Hrb. destruct (Ha svc rb Hrb) as (i & ? & ?). exists i. by rewrite compose_named.
    - intros Hok svc ref Hsvc Href. rewrite compose_named. destruct (decide (svc ∈ svcs)) as [Hin|Hin].
      + by apply compose_pinned.
      + rewrite compose_other by done. apply Hup; [|done]. by apply elem_of_app in Hsvc as [?|?]. }
  intros []; [apply hoare_ret; intros u [[Ho Ha] Hup]; split_and!; [done..|by apply Hup]|].
  eapply hoare_pre; [by apply rollback_spec|]. by intros u [Hoa _].
Qed.

Lemma healthy_spec ov tags done svc v reason : tags_ok tags →
  hoare (on (deploying ov tags done)) (healthy cfg tags svc v reason) (λ _, on (deploying ov tags done)) failed_with.
Proof.
  intros Htags. unfold healthy. eapply (hoare_bind _ (λ _, on (deploying ov tags done))).
  { apply (daemon_on _ _ (λ _, deploying ov tags done)). intros d (Ho & Ha & Hup). split_and!.
    - intros x Hx. rewrite health_running. by apply Ho.
    - intros x rb Hrb. destruct (Ha x rb Hrb) as (i & ? & ?). exists i. by rewrite health_named.
    - intros x ref Hx Href. rewrite health_running, health_named. by apply Hup. }
  intros []; [by apply hoare_ret|]. eapply hoare_pre; [by apply rollback_spec|]. by intros u (Ho & Ha & _).
Qed.

Lemma deploying_sub ov tags done done' d : (∀ x, x ∈ done' → x ∈ done) → deploying ov tags done d → deploying ov tags done' d.
Proof. intros Hsub (H1 & H2 & H3). split_and!; [done..|]. intros svc ref Hs. apply H3. auto. Qed.

Lemma update_backends_spec ov tags done : tags_ok tags →
  hoare (on (deploying ov tags done)) (update_backends cfg ov tags m)
    (λ _, on (deploying ov tags (servicesFor cfg "backend" ++ done))) failed_with.
Proof.
  intros Htags. unfold update_backends. destruct (_ && _).
  - assert (∀ svcs done, (∀ svc, svc ∈ svcs → svc ∈ servicesFor cfg "backend") →
      hoare (on (deploying ov tags done)) (each (roll_backend cfg ov tags m) svcs)
        (λ _, on (deploying ov tags (svcs ++ done))) failed_with) as Heach; [|by apply Heach].
    clear done. induction svcs as [|svc svcs IH]; intros done Hall; [by apply hoare_ret|]. cbn [each].
    assert (∀ x, x ∈ [svc] → touched x) as Ht.
    { intros x ->%list_elem_of_singleton. right. left. apply Hall, elem_of_cons. by left. }
    eapply (hoare_bind _ (λ _, on (deploying ov tags ([svc] ++ done)))).
    + unfold roll_backend. eapply hoare_bind; [apply set_on|intros ?].
      eapply hoare_bind; [by apply compose_spec|intros ?]. by apply healthy_spec.
    + intros ?. eapply hoare_conseq; [apply IH|done| |done].
      * intros x Hx. apply Hall, elem_of_cons. by right.
      * intros ? u. apply deploying_sub.
        intros x [[->|Hx]%elem_of_cons|Hx]%elem_of_app; rewrite !elem_of_app, list_elem_of_singleton; auto.
  - eapply hoare_bind; [apply set_on|intros ?]. eapply hoare_bind; [apply compose_spec; [done|]|intros ?].
    + intros x Hx. right. by left.
    + by apply healthy_spec.
Qed.

Lemma deploy_spec ov tags : tags_ok tags →
  hoare (on (λ d, untouched d ∧ anchors tags d)) (deploy cfg ov tags m)
    (λ _, on (deploying ov tags (mbind (servicesFor cfg)
            (filter (λ c, c ≠ updaterComponent) (Components m))))) failed_with.
Proof.
  intros Htags. unfold deploy.
  set (fr := if bool_decide ("frontend" ∈ Components m) then ["frontend"] else []).
  set (sc := sort_strings (filter (λ c, is_sidecar c) (Components m))).
  assert (∀ c, c ∈ sc ↔ is_sidecar c = true ∧ c ∈ Components m) as Hsc.
  { intros c. unfold sc, sort_strings. rewrite merge_sort_Permutation, list_elem_of_filter.
    by rewrite Is_true_true. }
  eapply (hoare_bind _ (λ _, on (deploying ov tags fr))).
  { eapply (hoare_pre _ (on (deploying ov tags []))); cycle 1.
    { intros u [Hu Ha]. split_and!; [intros ? _; apply Hu|done|by intros ?? ?%not_elem_of_nil]. }
    unfold fr. case_bool_decide as Hf; [|by apply hoare_ret].
    eapply hoare_bind; [apply set_on|intros ?]. apply (compose_spec ov tags [] ["frontend"]); [done|].
    intros x ->%list_elem_of_singleton. by left. }
  intros ?. eapply (hoare_bind _ (λ _, on (deploying ov tags (sc ++ fr)))).
  { case_bool_decide as Hn; [apply hoare_ret; by rewrite Hn|].
    eapply hoare_bind; [apply set_on|intros ?]. apply compose_spec; [done|].
    intros x [_ Hx]%Hsc. by left. }
  intros ?. eapply (hoare_conseq _ _ _ (λ _, on (deploying ov tags
      ((if bool_decide ("backend" ∈ Components m) then servicesFor cfg "backend" else []) ++ sc ++ fr)))); [|done| |done].
  { case_bool_decide; [by apply update_backends_spec|by apply hoare_ret]. }
  intros ? u. apply deploying_sub. intros x (c & Hx & [Hne Hc]%list_elem_of_filter)%list_elem_of_bind.
  destruct (str_eqb c "backend") eqn:Hb.
  - apply str_eqb_eq in Hb as ->. rewrite bool_decide_true by done. apply elem_of_app. by left.
  - unfold servicesFor in Hx. rewrite Hb in Hx. cbn [andb] in Hx.
    apply list_elem_of_singleton in Hx as ->. apply elem_of_app. right. apply elem_of_app.
    destruct (str_eqb c "frontend") eqn:Hf.
    + apply str_eqb_eq in Hf as ->. right. unfold fr. rewrite bool_decide_true by done. by apply list_elem_of_singleton.
    + left. apply Hsc. split; [|done]. unfold is_sidecar. rewrite Hb, Hf. unfold str_eqb. by rewrite bool_decide_false.
Qed.

Lemma finish_spec ov (I : D → Prop) :
  (∀ im binds sh d, I d → I (RunDetached im binds sh d).2) →
  hoare (on I) (finish cfg ov m) (λ _ u, State (u_status u) = "success" ∧ on I u) failed_with.
Proof.
  intros HI. unfold finish. eapply (hoare_bind _ (λ _ u, State (u_status u) = "success" ∧ on I u)); [by intros u Hu|].
  intros ?. case_bool_decide; [|by apply hoare_ret].
  eapply (hoare_bind _ (λ _ u, State (u_status u) = "success" ∧ on I u)).
  - intros u [Hs Hu]. unfold selfUpdate. repeat case_match; simplify_eq; try done.
    all: split; [done|]; match goal with Hr : RunDetached ?im ?b ?sh ?d = _ |- _ =>
           pose proof (HI im b sh d Hu) as Hi; by rewrite Hr in Hi end.
  - intros []; intros u [_ Hu]; done.
Qed.

(** ** The images that were loaded *)
Section loads.
Context (x : bytes).
(** A step that goes on keeps an archive loaded. *)
Abbreviation keeps f := (hoare (on (λ d, loaded d x)) f (λ _, on (λ d, loaded d x)) (λ _, True)).

Lemma keeps_step {A} (f : D → A * D) : (∀ d, loaded d x → loaded (f d).2 x) → keeps (daemon f).
Proof. intros Hf. apply (daemon_on _ f (λ _ d, loaded d x)). auto. Qed.
Lemma keeps_bind {A B} (f : U D A) (k : A → U D B) : keeps f → (∀ a, keeps (k a)) → keeps (f ≫= k).
Proof. intros Hf Hk. eapply hoare_bind; [exact Hf|exact Hk]. Qed.
Lemma keeps_ret {A} (a : A) : keeps (mret a : U D A).
Proof. by apply hoare_ret. Qed.
Lemma keeps_fail {A} msg : keeps (fail msg : U D A).
Proof. by intros u _. Qed.
Lemma keeps_each {A} (f : A → U D unit) l : (∀ a, keeps (f a)) → keeps (each f l).
Proof. intros Hf. induction l; [apply keeps_ret|]. simpl. by apply keeps_bind. Qed.

Ltac keeps_tac := repeat first
  [ apply keeps_bind; [|intros ?] | apply keeps_ret | apply keeps_fail | apply set_on | apply write_override_on
  | apply keeps_each; intros ? | apply keeps_step; intros ?; first [apply load_keeps|apply tag_keeps
      |apply compose_keeps|apply health_keeps|by intros ?] | case_match ].

Lemma keeps_rollback {A} tags reason : keeps (rollback cfg tags reason : U D A).
Proof. unfold rollback. keeps_tac. Qed.
Lemma keeps_loads files l : keeps (each (load_image files) l).
Proof. unfold load_image. keeps_tac. Qed.
Lemma keeps_anchors tags l : keeps (anchor_images cfg tags l).
Proof.
  assert (∀ im svcs tags, keeps (anchor_services cfg im tags svcs)) as Ha.
  { intros im svcs. induction svcs as [|svc svcs IH]; intros tags'; [apply keeps_ret|]. simpl. unfold anchor, inspect.
    apply keeps_bind; [|intros; apply IH]. keeps_tac. }
  revert tags. induction l as [|im l IH]; intros tags; [apply keeps_ret|]. simpl. case_match; [apply IH|].
  apply keeps_bind; [apply Ha|intros; apply IH].
Qed.
Lemma keeps_deploy ov tags : keeps (deploy cfg ov tags m).
Proof.
  assert (∀ svcs reason, keeps (compose cfg ov tags svcs reason)) as Hc.
  { intros. unfold compose. keeps_tac. }
  assert (∀ svc v reason, keeps (healthy cfg tags svc v reason)) as Hh.
  { intros. unfold healthy. keeps_tac. }
  unfold deploy, update_backends, roll_backend. keeps_tac; auto.
Qed.
Lemma keeps_finish ov : keeps (finish cfg ov m).
Proof.
  unfold finish. apply keeps_bind; [by intros u Hu|intros ?]. case_match; [|apply keeps_ret].
  apply keeps_bind; [|intros []; apply set_on]. intros u Hu. unfold selfUpdate. repeat case_match; simplify_eq; try done.
  match goal with Hr : RunDetached ?im ?b ?sh ?d = _ |- _ => pose proof (detached_keeps im b sh d x Hu) as Hk; by rewrite Hr in Hk end.
Qed.
End loads.

Definition all_loaded (files : gmap string bytes) (l : list ImageRef) (d : D) : Prop :=
  ∀ im, im ∈ l → loaded d (default [] (files !! Base (File im))).

Lemma loads_all (I : updater D → Prop) files l :
  hoare I (each (load_image files) l) (λ _, on (all_loaded files l)) (λ _, True).
Proof.
  revert I. induction l as [|im l IH]; intros I; [apply hoare_ret; by intros u _ ? ?%not_elem_of_nil|]. simpl.
  set (data := default [] (files !! Base (File im))).
  eapply (hoare_bind _ (λ _, on (λ d, loaded d data))).
  { unfold load_image. fold data. eapply (hoare_bind _ (λ _ _, True)); [by intros u _|intros ?].
    eapply (hoare_bind _ (λ ok, on (λ d, ok = true → loaded d data)));
      [|intros []; [apply hoare_ret; intros u Hu; by apply Hu|by intros u _]].
    intros u _. unfold daemon. pose proof (load_loaded data (u_docker u)) as Hl.
    by destruct (Load data (u_docker u)). }
  intros _. eapply hoare_conseq; [apply (hoare_and _ _ _ _ _ _ _ (keeps_loads data files l) (IH (λ _, True)))|done| |done].
  intros _ u [Hd Hl] im' [->|Hin]%elem_of_cons; [done|by apply Hl].
Qed.

Lemma keeps_all {A} (f : U D A) files l :
  (∀ x, hoare (on (λ d, loaded d x)) f (λ _, on (λ d, loaded d x)) (λ _, True)) →
  hoare (on (all_loaded files l)) f (λ _, on (all_loaded files l)) (λ _, True).
Proof.
  intros Hf u Hu. destruct (f u) as [[a|] u'] eqn:He; [|done]. intros im Hin.
  specialize (Hf _ u (Hu im Hin)). by rewrite He in Hf.
Qed.

Lemma install_loads b : b_manifest b = m →
  hoare (λ _, True) (install cfg b) (λ _, on (λ d, ∃ files out, ExtractImages extract_disk b = Ok (files, out) ∧
    all_loaded files (Images m) d)) (λ _, True).
Proof.
  intros Hm. unfold install. rewrite Hm.
  eapply (hoare_bind _ (λ _ _, True)); [intros u _; by destruct (migrate_config m u) as [[]?]|intros ?].
  eapply (hoare_bind _ (λ _ _, True)); [by intros u _|intros ?].
  destruct (ExtractImages extract_disk b) as [[files out]|e] eqn:Hx; [|by intros u _].
  eapply hoare_bind; [apply loads_all|intros ?].
  eapply hoare_bind; [apply keeps_all; intros; apply keeps_anchors|intros tags].
  eapply hoare_bind; [apply write_override_on|intros []]; [|by intros u _]. cbn [negb].
  eapply hoare_bind; [apply keeps_all; intros; apply keeps_deploy|intros ?].
  eapply hoare_conseq; [apply keeps_all; intros; apply keeps_finish|done| |done].
  intros ? u Hu. exists files, out. split; [done|]. intros im Hin. apply Hu. by apply sortedImages_elem.
Qed.

(** What a release that was applied left: its images were extracted and verified, the archive of each
    was loaded, and each of its components runs what its pin names. *)
Definition applied (b : Bundle) (d : D) : Prop :=
  (∃ files out, ExtractImages extract_disk b = Ok (files, out) ∧ all_loaded files (Images m) d) ∧
  (distinct_names m → ∀ im, im ∈ Images m → ∃ data, matches_image im data ∧ loaded d data) ∧ others d ∧
  ∀ c svc ref, c ∈ Components m → c ≠ updaterComponent → svc ∈ servicesFor cfg c →
    serviceImages cfg (Images m) !! svc = Some ref → is_Some (named d ref) ∧ running d svc = named d ref.

Lemma install_spec b : b_manifest b = m →
  hoare (on untouched) (install cfg b) (λ _ u, State (u_status u) = "success" ∧ on (applied b) u) failed_with.
Proof.
  intros Hm. set (run d := others d ∧ ∀ c svc ref, c ∈ Components m → c ≠ updaterComponent → svc ∈ servicesFor cfg c →
    serviceImages cfg (Images m) !! svc = Some ref → is_Some (named d ref) ∧ running d svc = named d ref).
  assert (hoare (on untouched) (install cfg b) (λ _ u, State (u_status u) = "success" ∧ on run u) failed_with) as Hrun.
  { unfold install. rewrite Hm. eapply hoare_bind; [apply untouched_migrate|intros ?].
    eapply hoare_bind; [apply set_on|intros ?].
    destruct (ExtractImages extract_disk b) as [[files out]|e] eqn:Hx; [|by apply fail_spec].
    eapply hoare_bind; [apply untouched_loads|intros ?]. eapply hoare_bind; [apply anchors_taken|].
    intros tags. apply hoare_pure. intros Htags.
    eapply hoare_bind; [apply write_override_on|intros []]; [|apply fail_spec; by intros d [? _]].
    eapply hoare_bind; [by apply deploy_spec|intros ?].
    eapply hoare_conseq; [apply (finish_spec _ run)| |done|done].
    - intros im binds sh d (H2 & H3). split.
      + intros x Hx'. rewrite detached_running. by apply H2.
      + intros c svc ref ????. rewrite detached_running, detached_named. eauto.
    - intros u (Ho & _ & Hup). split; [done|].
      intros c svc ref Hc Hne Hsvc. apply Hup. apply list_elem_of_bind. exists c. split; [done|].
      by apply list_elem_of_filter. }
  eapply hoare_conseq; [apply (hoare_and _ _ _ _ _ _ _ Hrun (install_loads b Hm))|by intros u Hu| |by intros u [? _]].
  intros _ u [[Hs [Ho Hr]] Hl]. split; [done|]. split; [exact Hl|]. split; [|by split].
  intros Hd im Hin. destruct Hl as (files & out & Hx & Hl). rewrite <-Hm in Hd.
  destruct (extracted_data extract_disk b files out im Hx Hd) as (data & Hdata & Hmatch); [by rewrite Hm|].
  exists data. split; [done|]. specialize (Hl im Hin). by rewrite Hdata in Hl.
Qed.
End outcome.

Section apply.
Context {D : Type} `{!Docker D, !Files, !ReleaseLib}.
Context (cfg : Config) (trusted : list bytes) `{!DockerLaws D cfg}.

(** The bundle a request names, as the updater itself verifies it. *)
Definition admitted (req : ApplyReq) (b : Bundle) : Prop := ∃ t,
  open_file (rq_bundle req) = Some t ∧ openReader t trusted = Ok b ∧ CheckUpgradeable (b_manifest b) (rq_current req) = None.

(** C19: An apply ends in success or failure, given a daemon that does what it is documented to,
    whose containers can be inspected, and services sharing an image repository that run the same
    image before. On success the bundle was signed by a trusted key, upgrades the version it was told,
    its images were extracted, every one was loaded into the daemon, with the digest of the manifest
    if the files have distinct base names, and every component of the release but the updater runs the
    image its pin names. On failure no service runs another image than before; or the message says
    that it was rolled back, and then every service of an image of the release (the updater's
    excepted) that was running runs the image it ran, and services the release has nothing to do
    with are untouched (one of its services that was not running may now run the new image); or the
    message says that the rollback was not done. *)
Theorem apply_outcome req u :
  (∀ d svc i, running d svc = Some i → RunningImageID (container cfg svc) d = Some i) →
  (∀ b, admitted req b → coherent cfg (u_docker u) (b_manifest b)) →
  let r := Apply cfg trusted req u in let d := u_docker r.2 in
  match r.1 with
  | Some _ => State (u_status r.2) = "success" ∧ ∃ b, admitted req b ∧ applied cfg (u_docker u) (b_manifest b) b d
  | None => State (u_status r.2) = "failed" ∧
      (untouched cfg (u_docker u) d ∨
       ∃ b, admitted req b ∧
         (rolled_back (Error (u_status r.2)) ∧ restored cfg (u_docker u) (b_manifest b) d ∨
          gave_up (Error (u_status r.2))))
  end.
Proof.
  intros Hi Hco. set (E (u' : updater D) := State (u_status u') = "failed" ∧
    (untouched cfg (u_docker u) (u_docker u') ∨ ∃ b, admitted req b ∧
       (rolled_back (Error (u_status u')) ∧ restored cfg (u_docker u) (b_manifest b) (u_docker u') ∨
        gave_up (Error (u_status u'))))).
  set (Q (_ : unit) (u' : updater D) := State (u_status u') = "success" ∧
    ∃ b, admitted req b ∧ applied cfg (u_docker u) (b_manifest b) b (u_docker u')).
  assert (hoare (on (untouched cfg (u_docker u))) (Apply cfg trusted req) Q E) as Ha.
  { assert (∀ msg, hoare (on (untouched cfg (u_docker u))) (fail msg) Q E) as Hfail
      by (intros msg v Hv; split; [done|by left]).
    unfold Apply. eapply (hoare_bind _ (λ _, on (untouched cfg (u_docker u)))); [by intros v Hv|intros ?].
    eapply hoare_bind; [apply set_on|intros ?].
    destruct (open_file (rq_bundle req)) as [t|] eqn:Ht; [|apply Hfail].
    destruct (openReader t trusted) as [b|] eqn:Hb; [|apply Hfail].
    destruct (CheckUpgradeable _ _) eqn:Hc; [apply Hfail|].
    assert (admitted req b) as Hadm by by exists t.
    eapply hoare_conseq; [apply (install_spec cfg (u_docker u) (b_manifest b) Hi (Hco b Hadm) b eq_refl)|done| |].
    - intros ? v [Hs Hv]. split; [done|]. by exists b.
    - intros v [Hs [Hun|Hr]]; (split; [done|]); [by left|right; by exists b]. }
  specialize (Ha u (λ _, eq_refl)). cbv zeta. by destruct (Apply cfg trusted req u) as [[x|] u'].
Qed.
End apply.

(** * The server *)
(** An updater that is stopped while it applies a bundle restores the status it mirrored last, which
    says an apply is running: from then on it accepts no apply at all, and reports one that nobody
    runs. *)
Theorem interrupted_apply_blocks token env st :
  (token ≠ "" ∨ env = "development") → State st = "running" →
  boot token env (Some st) = Some st ∧
  ∀ post got body pending, let s := MkServer st pending in
    (handle_apply token post got body s).1 ≠ 202 ∧ (handle_apply token post got body s).2 = s.
Proof.
  intros Hstart Hst. split.
  - unfold boot. rewrite Hst. destruct (str_eqb token "") eqn:Ht; [|done]. apply str_eqb_eq in Ht.
    destruct Hstart as [?| ->]; [done|by vm_compute].
  - intros post got body pending s. unfold handle_apply, busy. cbn [s_status s]. rewrite Hst.
    destruct post, (authOK token got), body as [rq|]; try done. cbn [negb]. by destruct (str_eqb (rq_bundle rq) "").
Qed.

(** The check that no apply runs and the mark of the goroutine are separate: two requests that arrive
    before the first goroutine has begun are both accepted, and both run. *)
Theorem two_applies_accepted token got req req' s :
  authOK token got = true → rq_bundle req ≠ "" → rq_bundle req' ≠ "" → busy (s_status s) = false →
  let r1 := handle_apply token true got (Some req) s in
  let r2 := handle_apply token true got (Some req') r1.2 in
  r1.1 = 202 ∧ r2.1 = 202 ∧ s_pending r2.2 = s_pending s ++ [req; req'].
Proof.
  intros Ha Hr Hr' Hb r1 r2. subst r2 r1. unfold handle_apply. rewrite Ha. cbn [negb].
  unfold str_eqb. rewrite !bool_decide_false by done. rewrite Hb. cbn [fst snd s_status s_pending]. rewrite Hb.
  cbn [fst snd s_pending]. by rewrite <- app_assoc.
Qed.

(** * Witnesses *)
Record toy := MkToy { t_run : gmap string string; t_tags : gmap string string; t_healthy : bool }.
Definition toy_cfg : Config := MkConfig "/updates" "fleet" ["/compose/docker-compose.yml"] "/compose/.env" "" [].
Definition pin (ov : gmap string string) (d : toy) (svc : string) : toy :=
  match (ref ← ov !! svc; t_tags d !! ref) with
  | Some i => MkToy (<[container toy_cfg svc := i]> (t_run d)) (t_tags d) (t_healthy d)
  | None => d
  end.
Definition toy_loads (data : bytes) : gmap string string :=
  if bool_decide (data = backend) then {["fleet-backend:v1.2.0" := "new-backend"]}
  else {["fleet-frontend:v1.2.0" := "new-frontend"]}.
Definition toy_docker (hidden : gset string) : Docker toy := {|
  Load data d := (true, MkToy (t_run d) (toy_loads data ∪ t_tags d) (t_healthy d));
  RunningImageID c d := if bool_decide (c ∈ hidden) then None else t_run d !! c;
  TagImage src dst d := (true, MkToy (t_run d) (<[dst := src]> (t_tags d)) (t_healthy d));
  ComposeUp svcs ov d :=
    if forallb (λ svc, match ov !! svc with Some ref => bool_decide (is_Some (t_tags d !! ref)) | None => true end) svcs
    then (true, foldl (pin ov) d svcs) else (false, d);
  InspectMount c dest d := Some ("/host" +:+ dest);
  RunDetached im binds sh d := (true, d);
  WaitHealthy url v d := (t_healthy d, d);
|}.
#[local] Instance toy_files : Files := {|
  open_file _ := Some toy_bundle; extract_disk _ := true; mirror_ok _ := true; override_ok _ := true;
  env_torn := None; env_rand _ := None;
|}.
#[local] Existing Instance Release.toy_lib.

Lemma pin_tags ov l d : t_tags (foldl (pin ov) d l) = t_tags d.
Proof. revert d. induction l as [|svc l IH]; intros d; [done|]. simpl. rewrite IH. unfold pin. by case_match. Qed.
Lemma container_inj a b : container toy_cfg a = container toy_cfg b → a = b.
Proof. unfold container. intros Heq%str_app_inj_l. apply (str_app_inj_r _ _ "-1"). by injection Heq. Qed.
Lemma pin_other ov l d svc : svc ∉ l → t_run (foldl (pin ov) d l) !! container toy_cfg svc = t_run d !! container toy_cfg svc.
Proof.
  revert d. induction l as [|x l IH]; intros d Hn; [done|]. apply not_elem_of_cons in Hn as [Hne Hn]. simpl. rewrite IH by done.
  unfold pin. case_match; [|done]. simpl. rewrite lookup_insert_ne; [done|]. by intros ?%container_inj.
Qed.
Lemma pin_pinned ov l d svc ref i : svc ∈ l → ov !! svc = Some ref → t_tags d !! ref = Some i →
  t_run (foldl (pin ov) d l) !! container toy_cfg svc = Some i.
Proof.
  revert d. induction l as [|x l IH]; intros d Hin Hov Hi; [by apply not_elem_of_nil in Hin|]. simpl.
  assert (t_tags (pin ov d x) = t_tags d) as Ht by (unfold pin; by case_match).
  destruct (decide (svc ∈ l)) as [Hl|Hl]; [apply IH; [done..|by rewrite Ht]|].
  apply elem_of_cons in Hin as [->|?]; [|done]. rewrite pin_other by done. unfold pin. rewrite Hov. simpl. rewrite Hi. simpl.
  by rewrite lookup_insert_eq.
Qed.
#[local] Instance toy_laws hidden : @DockerLaws toy (toy_docker hidden) toy_cfg.
Proof.
  refine (@Build_DockerLaws toy (toy_docker hidden) toy_cfg (λ d svc, t_run d !! container toy_cfg svc) (λ d ref, t_tags d !! ref)
    _ _ _ _ _ _ _ _ _ _ _ _ (λ d data, dom (toy_loads data) ⊆ dom (t_tags d)) _ _ _ _ _ _); try done.
  - intros d svc i. simpl. by case_bool_decide.
  - intros src dst d _. simpl. by rewrite lookup_insert_eq.
  - intros src dst d ref Hne. simpl. by rewrite lookup_insert_ne.
  - intros svcs ov d svc Hn. simpl. destruct (forallb _ svcs); [by apply pin_other|done].
  - intros svcs ov d ref. simpl. destruct (forallb _ svcs); [cbn [snd]; by rewrite pin_tags|done].
  - intros svcs ov d svc ref. simpl. destruct (forallb _ svcs) eqn:Hf; [|done]. intros _ Hin Hov.
    rewrite forallb_forall in Hf. specialize (Hf svc (proj1 (list_elem_of_In _ _) Hin)). rewrite Hov in Hf.
    apply bool_decide_eq_true in Hf as [i Hi]. split; [by eexists|]. simpl. rewrite Hi. by eapply pin_pinned.
  - intros data d _. cbn [Load toy_docker snd t_tags]. set_solver.
  - intros data d x. cbn [Load toy_docker snd t_tags]. set_solver.
  - intros src dst d x. cbn [TagImage toy_docker snd t_tags]. set_solver.
  - intros svcs ov d x. simpl. destruct (forallb _ svcs); [cbn [snd]; by rewrite pin_tags|done].
Defined.

Definition toy_world (healthy : bool) : updater toy :=
  MkUpdater (MkStatus "idle" "" "" [] "") None (Some "FLEET_A=1")
    (MkToy {["fleet-backend-1" := "old-backend"; "fleet-frontend-1" := "old-frontend"]} ∅ healthy).
Definition toy_req : ApplyReq := MkReq "/updates/pending.fleetup" "v1.1.0" "v1.2.0".
Definition toy_run hidden healthy := @Apply toy (toy_docker hidden) toy_files toy_lib toy_cfg [toy_key] toy_req (toy_world healthy).

Example toy_runs :
  State (u_status (toy_run ∅ true).2) = "success" ∧
  t_run (u_docker (toy_run ∅ true).2) !! "fleet-backend-1" = Some "new-backend" ∧
  t_run (u_docker (toy_run ∅ false).2) !! "fleet-backend-1" = Some "old-backend" ∧
  Error (u_status (toy_run ∅ false).2) = "new version did not become healthy (rolled back to the previous version)".
Proof. by vm_compute. Qed.

(** A service whose container could not be inspected has no anchor: after a failed health check it
    keeps running the new image, and the message says the upgrade was rolled back. *)
Lemma rollback_skips_unanchored :
  Error (u_status (toy_run {["fleet-backend-1"]} false).2) =
    "new version did not become healthy (rolled back to the previous version)" ∧
  t_run (u_docker (toy_run {["fleet-backend-1"]} false).2) !! "fleet-backend-1" = Some "new-backend".
Proof. by vm_compute. Qed.

Lemma toy_coherent d : coherent toy_cfg (Docker0 := toy_docker ∅) d toy_manifest.
Proof.
  intros im im' svc svc' i i' Him Him' Hs Hs' Himg Hr Hr'.
  assert (∀ x, x ∈ Images toy_manifest → x = toy_image "backend" backend ∨ x = toy_image "frontend" frontend) as Hc.
  { intros x [->|[->|?%not_elem_of_nil]%elem_of_cons]%elem_of_cons; auto. done. }
  destruct (Hc im Him) as [->| ->], (Hc im' Him') as [->| ->]; try done;
    apply list_elem_of_singleton in Hs as ->; apply list_elem_of_singleton in Hs' as ->; congruence.
Qed.

Lemma apply_outcome_witness :
  State (u_status (toy_run ∅ true).2) = "success" ∧
  running (Docker0 := toy_docker ∅) (u_docker (toy_run ∅ true).2) "backend" =
    named (Docker0 := toy_docker ∅) (u_docker (toy_run ∅ true).2) "fleet-backend:v1.2.0".
Proof.
  assert (∀ b, admitted [toy_key] toy_req b → b_manifest b = toy_manifest) as Hm.
  { intros b (t & [= <-] & Hb & _). assert (openReader toy_bundle [toy_key] = Ok opened) as Ho by by vm_compute.
    rewrite Ho in Hb. by injection Hb as <-. }
  pose proof (apply_outcome (Docker0 := toy_docker ∅) toy_cfg [toy_key] toy_req (toy_world true)) as Hr.
  assert ((toy_run ∅ true).1 = Some tt) as H1 by by vm_compute.
  unfold toy_run in *. set (r := Apply _ _ _ _) in *. clearbody r. rewrite H1 in Hr. destruct Hr as [Hs (b & Hadm & _ & _ & _ & Hall)].
  - intros d svc i Hi. exact Hi.
  - intros b Hb. rewrite (Hm b Hb). apply toy_coherent.
  - split; [exact Hs|]. rewrite (Hm b Hadm) in Hall.
    refine (proj2 (Hall "backend" "backend" "fleet-backend:v1.2.0" _ _ _ _)); try done.
    + by apply elem_of_cons; left.
    + by apply list_elem_of_singleton.
Defined.

Definition one_setting : list ConfigAddition := [MkAddition "FLEET_C" "new" "" "the c"].
Definition merged_env : string := "FLEET_A=1" +:+ String nl "" +:+ line "# the c" +:+ line "FLEET_C=new".
Lemma merge_additive_witness :
  assigned merged_env = ["FLEET_A"; "FLEET_C"] ∧
  mergeConfigAdditions (λ _, None) merged_env one_setting = Ok (merged_env, []).
Proof.
  destruct (merge_additive (λ _, None) "FLEET_A=1" one_setting merged_env ["FLEET_C"]) as (_ & Ha & _ & _ & _ & Hi).
  - by intros a ->%list_elem_of_singleton.
  - by vm_compute.
  - split; [exact Ha|apply Hi].
Defined.

Lemma interrupted_apply_blocks_witness :
  (handle_apply "t" true "t" (Some toy_req) (MkServer (MkStatus "running" "v1.2.0" "loading image backend" [] "") [])).1 ≠ 202.
Proof.
  destruct (interrupted_apply_blocks "t" "production" (MkStatus "running" "v1.2.0" "loading image backend" [] ""))
    as [_ Hb]; [by left|done|]. exact (proj1 (Hb true "t" (Some toy_req) [])).
Defined.

Lemma two_applies_accepted_witness :
  let r1 := handle_apply "t" true "t" (Some toy_req) (MkServer (MkStatus "idle" "" "" [] "") []) in
  s_pending (handle_apply "t" true "t" (Some toy_req) r1.2).2 = [toy_req; toy_req].
Proof.
  destruct (two_applies_accepted "t" "t" toy_req toy_req (MkServer (MkStatus "idle" "" "" [] "") []))
    as (_ & _ & Hp); [done..|]. exact Hp.
Defined.
