(* ===== verification/Forward.v ===== *)
(** Forwarding of audit events to a collector ([auditfwd/auditfwd.go], [auditfwd/handlers.go]).

    Every appended event is handed to [Forward] by a goroutine of its own; one worker takes events
    from a bounded queue and delivers them. Connections are those of [NetGuard]. The settings'
    encoding, text case, time texts and TLS handshakes are parameters; the bytes of HTTP requests are
    left out. *)
From S2P Require Import Prelude GoStrings SecretBox NetGuard Kms.
From S2P Require AuditChain.
From stdpp Require Import pretty.
From Stdlib Require Import Strings.Ascii Strings.Byte.
#[local] Open Scope Z_scope.

(** * Data *)
Definition queueCapacity : nat := 2048.
Definition maxRetries : nat := 5.
Definition baseBackoff : Z := 500 * (second / 1000).
Definition maxBackoff : Z := 30 * second.
Definition cacheTTL : Z := 30 * second.

Record Config := MkConfig {
  Enabled : bool; Type_ : string; Address : string; Protocol : string;
  TLS : bool; InsecureSkipVerify : bool; CACertPEM : string; Token : string;
}.
Definition no_config : Config := MkConfig false "" "" "" false false "" "".
(** An event with the time of its row ([0]: none). *)
Record audited := Audited { ev : AuditChain.event; CreatedAt : Z }.
#[export] Instance event_eq_dec : EqDecision AuditChain.event.
Proof. solve_decision. Defined.
#[export] Instance audited_eq_dec : EqDecision audited.
Proof. solve_decision. Defined.

(** What became of an event the worker took: [GaveUp] is logged as an error. *)
Inductive fate := Delivered | GaveUp | Discarded.
#[export] Instance fate_eq_dec : EqDecision fate.
Proof. solve_decision. Defined.

(** The row of the settings, the forwarder's fields, the connections made and the messages written.
    [accepted], [taken], [attempts], [fates] and [slept] record what the worker did. *)
Record store := Store {
  setting : option Config; cached : Config; cachedAt : Z; queue : list audited; dropped : Z;
  net : net_state; written : list (IP * string); audits : list string;
  accepted : list audited; taken : option audited; attempts : list (audited * bool); fates : list (audited * fate); slept : Z;
}.
Definition set_setting v s := Store v (cached s) (cachedAt s) (queue s) (dropped s) (net s) (written s) (audits s) (accepted s) (taken s) (attempts s) (fates s) (slept s).
Definition set_cached c t s := Store (setting s) c t (queue s) (dropped s) (net s) (written s) (audits s) (accepted s) (taken s) (attempts s) (fates s) (slept s).
Definition set_net v s := Store (setting s) (cached s) (cachedAt s) (queue s) (dropped s) v (written s) (audits s) (accepted s) (taken s) (attempts s) (fates s) (slept s).
Definition add_written m s := Store (setting s) (cached s) (cachedAt s) (queue s) (dropped s) (net s) (written s ++ [m]) (audits s) (accepted s) (taken s) (attempts s) (fates s) (slept s).
Definition add_audit a s := Store (setting s) (cached s) (cachedAt s) (queue s) (dropped s) (net s) (written s) (audits s ++ [a]) (accepted s) (taken s) (attempts s) (fates s) (slept s).
Definition add_attempt a s := Store (setting s) (cached s) (cachedAt s) (queue s) (dropped s) (net s) (written s) (audits s) (accepted s) (taken s) (attempts s ++ [a]) (fates s) (slept s).
Definition add_slept d s := Store (setting s) (cached s) (cachedAt s) (queue s) (dropped s) (net s) (written s) (audits s) (accepted s) (taken s) (attempts s) (fates s) (slept s + d).
(** A send to the channel that does not wait. *)
Definition enqueue (e : audited) (s : store) : store :=
  if bool_decide (length (queue s) < queueCapacity)%nat then
    Store (setting s) (cached s) (cachedAt s) (queue s ++ [e]) (dropped s) (net s) (written s) (audits s) (accepted s ++ [e]) (taken s) (attempts s) (fates s) (slept s)
  else
    Store (setting s) (cached s) (cachedAt s) (queue s) ((dropped s + 1) mod 2 ^ 64) (net s) (written s) (audits s) (accepted s) (taken s) (attempts s) (fates s) (slept s).
(** The worker's receive, and the end of its turn. *)
Definition dequeue (s : store) : store :=
  match queue s with
  | [] => s
  | e :: q => Store (setting s) (cached s) (cachedAt s) q (dropped s) (net s) (written s) (audits s) (accepted s) (Some e) (attempts s) (fates s) (slept s)
  end.
Definition finish (f : fate) (s : store) : store :=
  match taken s with
  | None => s
  | Some e => Store (setting s) (cached s) (cachedAt s) (queue s) (dropped s) (net s) (written s) (audits s) (accepted s) None (attempts s) (fates s ++ [(e, f)]) (slept s)
  end.

Class Collector := {
  lower : string → string;
  marshal : audited → string; RFC3339 : Z → string; hostname : string;
  handshake : nat → IP → string → bool → option string → bool;
  pem_ok : string → bool;
  write_ok : nat → IP → bool;
}.

Section forward.
Context `{!Net, !Collector, !Env store}.

Definition on_net {A} (m : NetM A) : M store A := λ w,
  let q := m (net (w_db w)) in (q.1, World (w_tick w) (set_net q.2 (w_db w))).
(** [time.Sleep]: the others run meanwhile. *)
Definition sleep (d : Z) : M store unit := λ w, (tt, World (S (w_tick w)) (add_slept d (interfere (w_tick w) (w_db w)))).

(** * [auditfwd.go] *)
Definition GetSetting (_ : Z) (s : store) : res store_error Config * store :=
  (match setting s with Some c => Ok c | None => Err ErrNotFound end, s).
Definition SetSetting (c : Config) (_ : Z) (s : store) : res store_error unit * store := (Ok tt, set_setting (Some c) s).

Definition LoadConfig : M store Config :=
  r ← db GetSetting; mret (match r with Ok c => c | Err _ => no_config end).
Definition validateTarget (c : Config) : M store (option string) :=
  on_net (if str_eqb (lower (Type_ c)) "http" then ValidateURL (Address c) else ValidateHostPort (Address c)).
Definition active (c : Config) : bool := Enabled c && negb (str_eqb (TrimSpace (Address c)) "").
Definition SaveConfig (c : Config) : M store (option string) :=
  v ← (if active c then validateTarget c else mret None);
  match v with
  | Some e => mret (Some e)
  | None =>
    r ← db (SetSetting c);
    match r with
    | Err _ => mret (Some "settings")
    | Ok _ => now ← time_now; _ ← effect (set_cached c now); mret None
    end
  end.
Definition config : M store Config :=
  now ← time_now;
  s ← peek id;
  if now - cachedAt s <? cacheTTL then mret (cached s)
  else c ← LoadConfig; now ← time_now; _ ← effect (set_cached c now); mret c.
Definition Forward (e : audited) : M store unit :=
  c ← config;
  if active c then effect (enqueue e) else mret tt.

(** The message: facility local0, severity informational. *)
Definition syslog_message (e : audited) (now : Z) : string :=
  let ts := if CreatedAt e =? 0 then now else CreatedAt e in
  let msgid := if str_eqb (AuditChain.e_action (ev e)) "" then "-" else AuditChain.e_action (ev e) in
  "<134>1 " +:+ RFC3339 ts +:+ " " +:+ hostname +:+ " fleet-terminal - " +:+ msgid +:+ " - " +:+ marshal e.
Definition framed (c : Config) (msg : string) : string :=
  if TLS c then pretty (N.of_nat (String.length msg)) +:+ " " +:+ msg else msg +:+ newline.
(** The server name, whether any certificate will do, and the roots. *)
Definition tlsConfig (c : Config) : res string (string * bool * option string) :=
  let host := match SplitHostPort (Address c) with Some (h, _) => h | None => Address c end in
  let pem := TrimSpace (CACertPEM c) in
  if str_eqb pem "" then Ok (host, InsecureSkipVerify c, None)
  else if pem_ok pem then Ok (host, InsecureSkipVerify c, Some pem) else Err "audit forward: invalid CACertPEM".
Definition dialSyslog (c : Config) : M store (option IP) :=
  if TLS c then
    match tlsConfig c with
    | Err _ => mret None
    | Ok (host, skip, roots) =>
      conn ← on_net (plain_dial (Address c));
      match conn with
      | None => mret None
      | Some ip => draw (λ n, if handshake n ip host skip roots then Some ip else None)
      end
    end
  else on_net (plain_dial (Address c)).
Definition sendSyslog (c : Config) (e : audited) : M store (option string) :=
  now ← time_now;
  let msg := syslog_message e now in
  conn ← dialSyslog c;
  match conn with
  | None => mret (Some "dial")
  | Some ip =>
    ok ← draw (λ n, write_ok n ip);
    if (ok : bool) then _ ← effect (add_written (ip, framed c msg)); mret None else mret (Some "write")
  end.
(** [None]: sent. *)
Definition send (c : Config) (e : audited) : M store (option string) :=
  v ← validateTarget c;
  match v with
  | Some err => mret (Some err)
  | None =>
    if str_eqb (lower (Type_ c)) "http" then
      r ← on_net (Do 5 [] (Address c));
      mret (match r.1 with
            | Some (Ok code) => if 300 <=? code then Some "collector returned an error" else None
            | Some (Err err) => Some err
            | None => Some "request"
            end)
    else sendSyslog c e
  end.

(** The attempts that are left, and the next pause. *)
Fixpoint deliver_loop (left_ : nat) (backoff : Z) (e : audited) : M store fate :=
  match left_ with
  | O => mret GaveUp
  | S left_ =>
    c ← config;
    if negb (active c) then mret Discarded
    else
      err ← send c e;
      _ ← effect (add_attempt (e, bool_decide (err = None)));
      match err with
      | None => mret Delivered
      | Some _ =>
        match left_ with
        | O => mret GaveUp
        | _ =>
          _ ← sleep backoff;
          deliver_loop left_ (if maxBackoff <? backoff * 2 then maxBackoff else backoff * 2) e
        end
      end
  end.
Definition deliver (e : audited) : M store fate := deliver_loop maxRetries baseBackoff e.
(** One turn of the worker; it waits on an empty queue. *)
Definition worker : M store unit :=
  _ ← effect dequeue;
  s ← peek id;
  match taken s with
  | None => mret tt
  | Some e => f ← deliver e; effect (finish f)
  end.

Definition SendTest (c : Config) (now : Z) : M store (option string) :=
  v ← validateTarget c;
  match v with
  | Some err => mret (Some err)
  | None => send c (Audited (AuditChain.Event None "system" "audit.forward_test" "system" "" "" "Fleet audit forwarding test") now)
  end.

(** * [handlers.go], behind System.Configure *)
Definition get : M store (reply Config) := c ← LoadConfig; mret (WriteJSON 200 c).
Definition put (rq : option Config) : M store (reply Config) :=
  match rq with
  | None => mret (WriteError 400 "invalid request body")
  | Some c =>
    r ← SaveConfig c;
    match r with
    | Some _ => mret (WriteError 500 "could not save settings")
    | None => _ ← effect (add_audit "system.audit_forwarding"); mret (WriteJSON 200 c)
    end
  end.
Definition test (rq : option Config) : M store (reply bool) :=
  match rq with
  | None => mret (WriteError 400 "invalid request body")
  | Some c => now ← time_now; r ← SendTest c now; mret (WriteJSON 200 (bool_decide (r = None)))
  end.
End forward.

(** * Proofs *)
(** A step while [e] is attempted with the outcomes [bs] and pauses of [d] in all: the queue only
    grows at its end, within its capacity, by events that are recorded as accepted. *)
Definition busy (e : audited) (bs : list bool) (d : Z) (s s' : store) : Prop :=
  taken s' = taken s ∧ fates s' = fates s ∧ attempts s' = attempts s ++ ((e,.) <$> bs) ∧ slept s' = slept s + d ∧
  ∃ new, queue s' = queue s ++ new ∧ accepted s' = accepted s ++ new ∧
    (length (queue s) ≤ queueCapacity → length (queue s') ≤ queueCapacity)%nat.
(** What everybody but the worker does. *)
Definition others (s s' : store) : Prop :=
  taken s' = taken s ∧ fates s' = fates s ∧ attempts s' = attempts s ∧ slept s' = slept s ∧
  ∃ new, queue s' = queue s ++ new ∧ accepted s' = accepted s ++ new ∧
    (length (queue s) ≤ queueCapacity → length (queue s') ≤ queueCapacity)%nat.
(** Every accepted event is done with, in hand or waiting, in this order. *)
Definition accounted (s : store) : Prop :=
  accepted s = (fates s).*1 ++ option_list (taken s) ++ queue s ∧ (length (queue s) ≤ queueCapacity)%nat.

Lemma busy_others e s s' : others s s' → busy e [] 0 s s'.
Proof. intros (H1 & H2 & H3 & H4 & H5). unfold busy. rewrite H1, H2, H3, H4, fmap_nil, app_nil_r, Z.add_0_r. done. Qed.
Lemma busy_trans e bs bs' d d' s s' s'' : busy e bs d s s' → busy e bs' d' s' s'' → busy e (bs ++ bs') (d + d') s s''.
Proof.
  intros (H1 & H2 & H3 & H4 & new & H5 & H6 & H7) (I1 & I2 & I3 & I4 & new' & I5 & I6 & I7). unfold busy.
  rewrite I1, I2, I3, I4, H1, H2, H3, H4, fmap_app, app_assoc, Z.add_assoc. split_and!; [done..|]. exists (new ++ new').
  split_and!; [by rewrite I5, H5, app_assoc|by rewrite I6, H6, app_assoc|auto].
Qed.
#[export] Instance others_preorder : PreOrder others.
Proof.
  split.
  - intros s. unfold others. split_and!; [done..|]. exists []. by rewrite !app_nil_r.
  - intros s s' s'' (H1 & H2 & H3 & H4 & new & H5 & H6 & H7) (I1 & I2 & I3 & I4 & new' & I5 & I6 & I7).
    unfold others. split_and!; [congruence..|]. exists (new ++ new').
    split_and!; [by rewrite I5, H5, app_assoc|by rewrite I6, H6, app_assoc|auto].
Qed.
Lemma others_accounted s s' : others s s' → accounted s → accounted s'.
Proof.
  intros (H1 & H2 & _ & _ & new & H5 & H6 & H7) [Ha Hl]. split; [|by apply H7].
  by rewrite H6, Ha, H1, H2, H5, <- !app_assoc.
Qed.
Lemma others_same s s' : taken s' = taken s → fates s' = fates s → attempts s' = attempts s → slept s' = slept s →
  queue s' = queue s → accepted s' = accepted s → others s s'.
Proof. intros. unfold others. split_and!; [done..|]. exists []. rewrite !app_nil_r. split_and!; [done..|congruence]. Qed.
Lemma others_enqueue e s : others s (enqueue e s).
Proof.
  unfold enqueue. case_bool_decide as Hq; [|by apply others_same]. unfold others. split_and!; [done..|]. exists [e].
  split_and!; [done..|]. cbn [queue]. rewrite length_app. cbn [length]. lia.
Qed.

Section accounting.
Context `{!Net, !Collector, !Env store, !Relies others}.

Lemma within_on_net {A} (m : NetM A) : within others (on_net m).
Proof. intros w _. split; [|done]. by apply others_same. Qed.
Lemma within_get_setting : within others (db GetSetting).
Proof. apply (within_reading others). Qed.
Lemma others_set_cached c t s : others s (set_cached c t s).
Proof. by apply others_same. Qed.
Lemma others_set c now s : others s (SetSetting c now s).2.
Proof. by apply others_same. Qed.
Lemma others_written m s : others s (add_written m s).
Proof. by apply others_same. Qed.
#[local] Hint Resolve within_on_net within_get_setting others_set_cached others_set others_written others_enqueue : within.
Lemma within_LoadConfig : within others LoadConfig.
Proof. unfold LoadConfig. within_tac. Qed.
#[local] Hint Resolve within_LoadConfig : within.
Lemma within_config : within others config.
Proof. unfold config. within_tac. Qed.
#[local] Hint Resolve within_config : within.
Lemma within_validate c : within others (validateTarget c).
Proof. apply within_on_net. Qed.
#[local] Hint Resolve within_validate : within.
Lemma within_Forward e : within others (Forward e).
Proof. unfold Forward. within_tac. Qed.
Lemma within_SaveConfig c : within others (SaveConfig c).
Proof. unfold SaveConfig. within_tac. Qed.
Lemma within_dial c : within others (dialSyslog c).
Proof. unfold dialSyslog. within_tac. Qed.
#[local] Hint Resolve within_dial : within.
Lemma within_send c e : within others (send c e).
Proof. unfold send, sendSyslog. within_tac. Qed.
#[local] Hint Resolve within_send : within.
Lemma within_SendTest c now : within others (SendTest c now).
Proof. unfold SendTest. within_tac. Qed.
Lemma ran {A} (m : M store A) w : within others m → others (w_db w) (w_db (m w).2).
Proof. intros Hm. by apply Hm. Qed.

(** The pauses before the attempts that are left. *)
Fixpoint pauses (left_ : nat) (backoff : Z) : Z :=
  match left_ with
  | S (S _ as n) => backoff + pauses n (if maxBackoff <? backoff * 2 then maxBackoff else backoff * 2)
  | _ => 0
  end.
(** How the attempts of an event go. *)
Definition outcome (n : nat) (f : fate) (bs : list bool) : Prop :=
  match f with
  | Delivered => ∃ k, bs = replicate k false ++ [true] ∧ (k < n)%nat
  | GaveUp => bs = replicate n false
  | Discarded => ∃ k, bs = replicate k false ∧ (k < n)%nat
  end.
Lemma outcome_S n f bs : outcome n f bs → outcome (S n) f (false :: bs).
Proof. destruct f; cbn [outcome]; [intros (k & -> & ?); exists (S k); split; [done|lia]|by intros ->|intros (k & -> & ?); exists (S k); split; [done|lia]]. Qed.
Lemma pauses_nonneg n b : 0 ≤ b → 0 ≤ pauses n b.
Proof.
  revert b. induction n as [|[|n] IH]; intros b Hb; [done..|]. cbn [pauses]. assert (0 ≤ if maxBackoff <? b * 2 then maxBackoff else b * 2) as Hn.
  { destruct (_ <? _); [done|lia]. }
  pose proof (IH _ Hn). cbn [pauses] in *. lia.
Qed.

(** The settings the forwarder goes by: those of its cache for thirty seconds, then those of the table,
    where a read that fails counts as switched off. *)
Definition in_force (n : nat) (s : store) : Config :=
  if clock n - cachedAt s <? 30 * second then cached s
  else if db_err (S n) then no_config else default no_config (setting (interfere (S n) s)).

(** [config] answers with them, and they are in the cache afterwards. *)
Lemma config_run n s : (config (World n s)).1 = in_force n s ∧ cached (w_db (config (World n s)).2) = in_force n s.
Proof.
  unfold config, in_force, cacheTTL. rewrite run_bind. cbn [time_now fst snd w_tick w_db]. rewrite run_bind. unfold peek, id.
  cbn [fst snd w_tick w_db]. destruct (_ <? _); [done|]. unfold LoadConfig. rewrite !run_bind, db_eq. cbn [w_tick w_db].
  destruct (db_err (S n)); [done|]. unfold GetSetting. cbn. by destruct (setting _).
Qed.

Lemma deliver_loop_spec left_ backoff e w : (0 < left_)%nat → 0 ≤ backoff → let q := deliver_loop left_ backoff e w in
  ∃ bs d, busy e bs d (w_db w) (w_db q.2) ∧ outcome left_ q.1 bs ∧ 0 ≤ d ≤ pauses left_ backoff ∧
    (q.1 = Discarded → active (cached (w_db q.2)) = false) ∧
    (active (in_force (w_tick w) (w_db w)) = false ↔ q.1 = Discarded ∧ bs = []).
Proof.
  cbn zeta. revert backoff w. induction left_ as [|n IH]; intros backoff w Hn Hb; [lia|]. cbn [deliver_loop]. rewrite run_bind.
  pose proof (ran config w within_config) as Hc. destruct w as [n0 s0]. cbn [w_tick w_db] in *.
  destruct (config_run n0 s0) as [Hf Hcache]. destruct (config (World n0 s0)) as [c w1]. cbn [fst snd] in *. rewrite <-Hf in *.
  apply (busy_others e) in Hc. pose proof (pauses_nonneg (S n) backoff Hb) as Hpos.
  destruct (active c) eqn:Hact; cbn [negb].
  2:{ exists [], 0. split; [exact Hc|]. split; [exists 0%nat; split; [done|lia]|]. split; [lia|]. cbn [mret M_ret fst snd].
    split; [intros _; by rewrite Hcache|done]. }
  rewrite run_bind. pose proof (ran (send c e) w1 (within_send c e)) as Hs. destruct (send c e w1) as [err w2]. cbn [fst snd] in *.
  apply (busy_others e) in Hs. rewrite run_bind. cbn [effect fst snd w_tick w_db]. set (b := bool_decide (err = None)).
  assert (busy e [b] 0 s0 (add_attempt (e, b) (w_db w2))) as Ha.
  { change [b] with ([] ++ [] ++ [b]). change 0 with (0 + (0 + 0)). eapply busy_trans; [exact Hc|]. eapply busy_trans; [exact Hs|].
    unfold busy. cbn. split_and!; [done..|lia|]. exists []. by rewrite !app_nil_r. }
  destruct err as [err|].
  2:{ exists [true], 0. split; [exact Ha|]. split; [exists 0%nat; split; [done|lia]|]. split; [lia|]. split; [done|]. split; [done|by intros [? _]]. }
  destruct n as [|n]; [exists [false], 0; split; [exact Ha|split; [done|split; [lia|split; [done|split; [done|by intros [? _]]]]]]|].
  rewrite run_bind. unfold sleep. cbn [fst snd w_tick w_db].
  match goal with |- context [deliver_loop (S n) ?b' e ?w3] => set (next := b'); destruct (IH next w3) as (bs & d & Hbusy & Ho & Hd & Hdis & _) end; [lia| |].
  { unfold next. destruct (_ <? _); [done|lia]. }
  exists (false :: bs), (backoff + d). split; [|split; [by apply outcome_S|split; [|split; [exact Hdis|split; [done|by intros [_ ?]]]]]].
  - change (false :: bs) with ([false] ++ [] ++ [] ++ bs). replace (backoff + d) with (0 + (0 + (backoff + d))) by lia.
    eapply busy_trans; [exact Ha|]. eapply busy_trans; [apply busy_others, relies|]. eapply busy_trans; [|exact Hbusy].
    cbn [w_db]. unfold busy. cbn. rewrite app_nil_r. split_and!; [done..|]. exists []. by rewrite !app_nil_r.
  - cbn [pauses] in *. fold next. lia.
Qed.
End accounting.


(** ** A collector that is down *)
#[local] Instance down_net : Net := {|
  lookup_ip _ _ := Some [[x0a; x00; x00; x05]]; connects _ _ _ := false;
  url_parse u := Some ("http", u, u); NetGuard.answer _ _ _ := Status 200;
|}.
#[local] Instance toy_collector : Collector := {|
  lower := id; marshal _ := "{}"; RFC3339 _ := "t"; hostname := "h"; handshake _ _ _ _ _ := true; pem_ok _ := true; write_ok _ _ := true;
|}.
Definition toy_event : audited := Audited (AuditChain.Event None "ada" "auth.login" "user" "1" "" "{}") 1.
Definition toy_config : Config := MkConfig true "syslog" "collector:514" "tcp" false false "" "".
Definition toy_store (q : list audited) : store :=
  Store (Some toy_config) no_config (- hour) q 0 (NetState 0 []) [] [] q None [] [] 0.


(** An outage longer than the pauses loses the event, with the queue all but empty. *)
Lemma short_outage_loses_event :
  let s := w_db (worker (Env0 := quiet_env) (World 0 (toy_store [toy_event]))).2 in
  fates s = [(toy_event, GaveUp)] ∧ slept s = 15 * second / 2 ∧ dropped s = 0 ∧ queue s = [].
Proof. by vm_compute. Qed.

(** One settings read that fails turns forwarding off for thirty seconds: the event is neither
    queued nor counted as dropped, and so are those after it. *)
Definition read_fails : Env store := MkEnv store (λ n, bool_decide (n = 1%nat)) Z.of_nat (λ _ s, s).
Lemma read_failure_discards :
  let s := w_db ((Forward (Env0 := read_fails) toy_event ≫= λ _, Forward (Env0 := read_fails) toy_event) (World 0 (toy_store []))).2 in
  queue s = [] ∧ dropped s = 0 ∧ cached s = no_config ∧ setting s = Some toy_config.
Proof. by vm_compute. Qed.
(** The worker sets an event aside for the same reason. *)
Lemma read_failure_sets_aside :
  fates (w_db (worker (Env0 := read_fails) (World 0 (toy_store [toy_event]))).2) = [(toy_event, Discarded)].
Proof. by vm_compute. Qed.
