(* ===== verification/Notify.v ===== *)
(** Notifications ([notify/notify.go], [notify/admin.go], [notify/senders.go],
    [notify/handlers.go]): routing, throttling, the channels, and the settings with their secrets.

    Secrets are sealed with the class of [SecretBox], webhooks go through the client of [NetGuard].
    The SMTP dialogue, the requests to the two paging services, dates, quoting and text case are
    parameters. *)
From S2P Require Import Prelude GoStrings SecretBox NetGuard Kms.
From stdpp Require Import pretty.
From Stdlib Require Import Strings.Ascii Strings.Byte.
#[local] Open Scope Z_scope.

(** * Data ([notify.go]) *)
Definition SeverityInfo := "info".
Definition SeverityWarning := "warning".
Definition SeverityError := "error".
Record Attachment := MkAttachment { Filename : string; ContentType : string; Data : bytes }.
Record Event := MkEvent {
  ev_Type : string; ev_Severity : string; Title : string; ev_Body : string; DedupeKey : string; Recipient : string;
  Attachments : list Attachment;
}.
Record EmailConfig := MkEmail {
  e_Enabled : bool; Host : string; Port : Z; Username : string; Password : string; PasswordEnc : string;
  From : string; To : string; Security : string;
}.
Record WebhookConfig := MkWebhook { w_Enabled : bool; URL : string; Format : string }.
(** PagerDuty and Opsgenie: a secret, and the least severity that pages. *)
Record PagerDutyConfig := MkPagerDuty { pd_Enabled : bool; RoutingKey : string; RoutingKeyEnc : string; pd_MinSeverity : string }.
Record OpsgenieConfig := MkOpsgenie { og_Enabled : bool; APIKey : string; APIKeyEnc : string; Region : string; og_MinSeverity : string }.
Record Route := MkRoute { r_Email : bool; r_Webhook : bool }.
Record Config := MkConfig {
  Email : EmailConfig; Webhook : WebhookConfig; PagerDuty : PagerDutyConfig; Opsgenie : OpsgenieConfig;
  Events : gmap string Route; ThrottleMinutes : Z;
}.
Definition no_config : Config :=
  MkConfig (MkEmail false "" 0 "" "" "" "" "" "") (MkWebhook false "" "") (MkPagerDuty false "" "" "")
    (MkOpsgenie false "" "" "" "") ∅ 0.
(** The keys of the catalogue. *)
Definition AllEventTypes : list string :=
  ["host.offline"; "host.recovered"; "host.overlay_down"; "host.overlay_restored"; "approval.pending"; "approval.resolved";
   "access.expired"; "scan.findings"; "playbook.failed"; "script.failed"; "ca.aging"; "fleet.digest"; "report.scheduled";
   "command.flagged"; "command.blocked"; "command.approval"; "credential.rotated"; "credential.rotate_failed"].

Definition with_secrets (password routing api : string * string) (c : Config) : Config :=
  let e := Email c in let p := PagerDuty c in let o := Opsgenie c in
  MkConfig (MkEmail (e_Enabled e) (Host e) (Port e) (Username e) password.1 password.2 (From e) (To e) (Security e)) (Webhook c)
    (MkPagerDuty (pd_Enabled p) routing.1 routing.2 (pd_MinSeverity p))
    (MkOpsgenie (og_Enabled o) api.1 api.2 (Region o) (og_MinSeverity o)) (Events c) (ThrottleMinutes c).

(** What is handed to the outside. *)
Inductive dispatch :=
| Mail (implicit : bool) (addr host : string) (auth : option (string * string)) (from : string) (rcpts : list string) (msg : string)
| Hook (url : string) (payload : list (string * string))
| Page (key severity summary : string) (dedup : option string) (details : list (string * string))
| Alert (host key : string) (message description priority : string) (alias : option string).

(** The row of the settings, the service's memory, the connections, what was handed out, the
    warnings. *)
Record store := Store {
  setting : option Config; lastSent : gmap string Z; net : net_state; outbox : list dispatch; warnings : list string;
}.
Definition set_setting v s := Store v (lastSent s) (net s) (outbox s) (warnings s).
Definition set_lastSent v s := Store (setting s) v (net s) (outbox s) (warnings s).
Definition set_net v s := Store (setting s) (lastSent s) v (outbox s) (warnings s).
Definition add_outbox d s := Store (setting s) (lastSent s) (net s) (outbox s ++ [d]) (warnings s).
Definition add_warning x s := Store (setting s) (lastSent s) (net s) (outbox s) (warnings s ++ [x]).

Class Outside := {
  lower : string → string;
  (** [None]: accepted *)
  smtp : nat → dispatch → option string;
  post : nat → dispatch → option string;
  RFC1123Z : Z → string; quote : string → string;
}.

(** * Severities *)
Definition severityRank (s : string) : Z := if str_eqb s SeverityError then 2 else if str_eqb s SeverityWarning then 1 else 0.
Definition meetsMinSeverity (ev min : string) : bool :=
  severityRank (if str_eqb min "" then SeverityWarning else min) <=? severityRank ev.
Definition severityColor (s : string) : string :=
  if str_eqb s SeverityError then "D93F0B" else if str_eqb s SeverityWarning then "FBCA04" else "1F6FEB".
Definition pagerdutySeverity (s : string) : string :=
  if str_eqb s SeverityError then "critical" else if str_eqb s SeverityWarning then "warning" else "info".
Definition opsgeniePriority (s : string) : string :=
  if str_eqb s SeverityError then "P1" else if str_eqb s SeverityWarning then "P3" else "P5".
Definition truncate (s : string) (n : nat) : string := if bool_decide (String.length s ≤ n)%nat then s else str_take n s.

(** * Messages ([senders.go]) *)
Definition CR : ascii := "013".
Definition LF : ascii := "010".
Definition CRLF : string := String CR (String LF "").
Definition hdrSafe (s : string) : string := RawURL.map_chars (λ c, if Ascii.eqb c CR || Ascii.eqb c LF then " "%char else c) s.
(** Runs of separators count as one. *)
Fixpoint FieldsFunc (sep : ascii → bool) (s : string) : list string :=
  match s with
  | EmptyString => []
  | String c t =>
    if sep c then FieldsFunc sep t
    else
      match t with
      | String d _ => if sep d then String c "" :: FieldsFunc sep t
                      else match FieldsFunc sep t with h :: r => String c h :: r | [] => [String c ""] end
      | EmptyString => [String c ""]
      end
  end.
Definition splitList (s : string) : list string :=
  filter (λ p, p ≠ "") (TrimSpace <$> FieldsFunc (λ c, bool_decide (c ∈ [","; ";"; " "]%char)) s).
Fixpoint wrap76 (fuel : nat) (enc : string) : string :=
  match fuel with
  | O => enc +:+ CRLF
  | S fuel => if bool_decide (76 < String.length enc)%nat then str_take 76 enc +:+ CRLF +:+ wrap76 fuel (str_drop 76 enc) else enc +:+ CRLF
  end.
Definition writeBase64Wrapped (data : bytes) : string :=
  let enc := Base64.encode data in wrap76 (String.length enc) enc.

Section notify.
Context `{!Net, !Outside} {box : SecretBox} `{!Env store}.
Context (rnd : nat → rand_draw) (CAKeyPassphrase : bytes).

Definition boundary := "fleet-mixed-boundary-8f3a1c".
Definition headers (from to subject : string) (now : Z) : string :=
  "From: " +:+ hdrSafe from +:+ CRLF +:+ "To: " +:+ hdrSafe to +:+ CRLF +:+ "Subject: " +:+ hdrSafe subject +:+ CRLF +:+
  "MIME-Version: 1.0" +:+ CRLF +:+ "Date: " +:+ RFC1123Z now +:+ CRLF.
Definition attachment_part (a : Attachment) : string :=
  "--" +:+ boundary +:+ CRLF +:+
  "Content-Type: " +:+ (if str_eqb (ContentType a) "" then "application/octet-stream" else ContentType a) +:+ CRLF +:+
  "Content-Transfer-Encoding: base64" +:+ CRLF +:+
  "Content-Disposition: attachment; filename=" +:+ quote (Filename a) +:+ CRLF +:+ CRLF +:+
  writeBase64Wrapped (Data a) +:+ CRLF.
Definition buildMessage (from to subject body : string) (attachments : list Attachment) (now : Z) : string :=
  headers from to subject now +:+
  match attachments with
  | [] => "Content-Type: text/plain; charset=UTF-8" +:+ CRLF +:+ CRLF +:+ body
  | _ =>
    "Content-Type: multipart/mixed; boundary=" +:+ quote boundary +:+ CRLF +:+ CRLF +:+
    "--" +:+ boundary +:+ CRLF +:+ "Content-Type: text/plain; charset=UTF-8" +:+ CRLF +:+ CRLF +:+ body +:+ CRLF +:+
    String.concat "" (attachment_part <$> attachments) +:+ "--" +:+ boundary +:+ "--" +:+ CRLF
  end.

(** * The service *)
Definition on_net {A} (m : NetM A) : M store A := λ w,
  let q := m (net (w_db w)) in (q.1, World (w_tick w) (set_net q.2 (w_db w))).
Definition GetSetting (_ : Z) (s : store) : res store_error Config * store :=
  (match setting s with Some c => Ok c | None => Err ErrNotFound end, s).
Definition SetSetting (c : Config) (_ : Z) (s : store) : res store_error unit * store := (Ok tt, set_setting (Some c) s).
(** An error is not told from an absent row. *)
Definition LoadConfig : M store Config := r ← db GetSetting; mret (match r with Ok c => c | Err _ => no_config end).
Definition warn (x : string) : M store unit := effect (add_warning x).

(** What runs under the lock of the service. *)
Definition locked {A} (f : store → A * store) : M store A := λ w, let q := f (w_db w) in (q.1, World (w_tick w) q.2).
(** Under the lock: the times of the comparison and of the record. *)
Definition allow_at (ev : Event) (c : Config) (t1 t2 : Z) (s : store) : bool * store :=
  if str_eqb (DedupeKey ev) "" then (true, s)
  else
    let window := wrap64 (ThrottleMinutes c * minute) in
    let window := if window <=? 0 then 5 * minute else window in
    let key := ev_Type ev +:+ "|" +:+ DedupeKey ev in
    match lastSent s !! key with
    | Some last => if t1 - last <? window then (false, s) else (true, set_lastSent (<[key := t2]> (lastSent s)) s)
    | None => (true, set_lastSent (<[key := t2]> (lastSent s)) s)
    end.
Definition allow (ev : Event) (c : Config) : M store bool :=
  t1 ← time_now; t2 ← time_now; locked (allow_at ev c t1 t2).

(** ** Senders; [None]: sent *)
Definition emailPassword (c : Config) : M store string :=
  if str_eqb (PasswordEnc (Email c)) "" then mret ""
  else
    match box_open CAKeyPassphrase (PasswordEnc (Email c)) with
    | Err _ => _ ← warn "decrypt smtp password"; mret ""
    | Ok pw => mret (String.string_of_list_byte pw)
    end.
Definition hand_out (send : nat → dispatch → option string) (d : dispatch) : M store (option string) :=
  _ ← effect (add_outbox d); draw (λ n, send n d).
Definition sendEmail (c : Config) (ev : Event) (toOverride : string) : M store (option string) :=
  let e := Email c in
  let to := if str_eqb toOverride "" then To e else toOverride in
  if str_eqb (Host e) "" || str_eqb (From e) "" || str_eqb to "" then mret (Some "email channel is incompletely configured")
  else
    let addr := JoinHostPort (Host e) (pretty (if Port e =? 0 then 587 else Port e)) in
    now ← time_now;
    let msg := buildMessage (From e) to ("[Fleet] " +:+ Title ev) (ev_Body ev) (Attachments ev) now in
    auth ← (if str_eqb (Username e) "" then mret None else pw ← emailPassword c; mret (Some (Username e, pw)));
    hand_out smtp (Mail (str_eqb (lower (Security e)) "tls") addr (Host e) auth (From e) (splitList to) msg).
Definition webhook_payload (c : Config) (ev : Event) : list (string * string) :=
  let text := "*" +:+ Title ev +:+ "*" +:+ newline +:+ ev_Body ev in
  let f := lower (Format (Webhook c)) in
  if str_eqb f "slack" || str_eqb f "mattermost" then [("text", text)]
  else if str_eqb f "discord" then [("content", text)]
  else if str_eqb f "teams" then
    [("@type", "MessageCard"); ("@context", "http://schema.org/extensions"); ("summary", Title ev);
     ("themeColor", severityColor (ev_Severity ev)); ("title", Title ev); ("text", ev_Body ev)]
  else [("type", ev_Type ev); ("severity", ev_Severity ev); ("title", Title ev); ("body", ev_Body ev)].
Definition sendWebhook (c : Config) (ev : Event) : M store (option string) :=
  let url := URL (Webhook c) in
  if str_eqb url "" then mret (Some "webhook URL is not set")
  else
    v ← on_net (ValidateURL url);
    match v with
    | Some e => mret (Some e)
    | None =>
      _ ← effect (add_outbox (Hook url (webhook_payload c ev)));
      r ← on_net (Do 5 [] url);
      mret (match r.1 with
            | Some (Ok code) => if 300 <=? code then Some "webhook returned an error" else None
            | Some (Err e) => Some e
            | None => Some "request"
            end)
    end.
Definition decryptSecret (enc : string) : res box_err string :=
  if str_eqb enc "" then Ok "" else b ← box_open CAKeyPassphrase enc; Ok (String.string_of_list_byte b).
Definition dedup (ev : Event) : option string :=
  if str_eqb (DedupeKey ev) "" then None else Some (ev_Type ev +:+ ":" +:+ DedupeKey ev).
Definition sendPagerDuty (c : Config) (ev : Event) : M store (option string) :=
  match decryptSecret (RoutingKeyEnc (PagerDuty c)) with
  | Err _ | Ok "" => mret (Some "pagerduty routing key is not set")
  | Ok key => hand_out post (Page key (pagerdutySeverity (ev_Severity ev)) (truncate (Title ev) 1024) (dedup ev)
                [("type", ev_Type ev); ("body", ev_Body ev)])
  end.
Definition sendOpsgenie (c : Config) (ev : Event) : M store (option string) :=
  match decryptSecret (APIKeyEnc (Opsgenie c)) with
  | Err _ | Ok "" => mret (Some "opsgenie api key is not set")
  | Ok key =>
    let host := if str_eqb (lower (Region (Opsgenie c))) "eu" then "api.eu.opsgenie.com" else "api.opsgenie.com" in
    hand_out post (Alert host key (truncate (Title ev) 130) (ev_Body ev) (opsgeniePriority (ev_Severity ev)) (dedup ev))
  end.

Record channels := Channels { adminEmail : bool; directEmail : bool; adminWebhook : bool; pageDuty : bool; pageOpsgenie : bool }.
Definition route_of (c : Config) (ev : Event) : channels :=
  let route := default (MkRoute false false) (Events c !! ev_Type ev) in
  Channels (r_Email route && e_Enabled (Email c))
    (negb (str_eqb (Recipient ev) "") && r_Email route && e_Enabled (Email c))
    (r_Webhook route && w_Enabled (Webhook c))
    (pd_Enabled (PagerDuty c) && meetsMinSeverity (ev_Severity ev) (pd_MinSeverity (PagerDuty c)))
    (og_Enabled (Opsgenie c) && meetsMinSeverity (ev_Severity ev) (og_MinSeverity (Opsgenie c))).
Definition attempt (on : bool) (m : M store (option string)) (what : string) : M store unit :=
  if on then r ← m; match r with Some _ => warn what | None => mret tt end else mret tt.
Definition Notify (ev : Event) : M store unit :=
  c ← LoadConfig;
  let r := route_of c ev in
  if negb (adminEmail r || adminWebhook r || directEmail r || pageDuty r || pageOpsgenie r) then mret tt
  else
    ok ← allow ev c;
    if negb ok then mret tt
    else
      _ ← attempt (adminEmail r) (sendEmail c ev "") "notify email failed";
      _ ← attempt (directEmail r) (sendEmail c ev (Recipient ev)) "notify recipient email failed";
      _ ← attempt (adminWebhook r) (sendWebhook c ev) "notify webhook failed";
      _ ← attempt (pageDuty r) (sendPagerDuty c ev) "notify pagerduty failed";
      attempt (pageOpsgenie r) (sendOpsgenie c ev) "notify opsgenie failed".

(** * Settings ([admin.go]) *)
(** One secret of an incoming configuration: sealed when it is given, else the stored one. *)
Definition keep_or_seal (given stored : string) : M store (res box_err string) :=
  if str_eqb given "" then mret (Ok stored)
  else draw (λ n, box_seal (rnd n) CAKeyPassphrase (String.list_byte_of_string given)).
Definition Save (new : Config) : M store (option string) :=
  cur ← LoadConfig;
  p ← keep_or_seal (Password (Email new)) (PasswordEnc (Email cur));
  match p with
  | Err _ => mret (Some "seal")
  | Ok p =>
    k ← keep_or_seal (RoutingKey (PagerDuty new)) (RoutingKeyEnc (PagerDuty cur));
    match k with
    | Err _ => mret (Some "seal")
    | Ok k =>
      a ← keep_or_seal (APIKey (Opsgenie new)) (APIKeyEnc (Opsgenie cur));
      match a with
      | Err _ => mret (Some "seal")
      | Ok a => r ← db (SetSetting (with_secrets ("", p) ("", k) ("", a) new)); mret (match r with Ok _ => None | Err _ => Some "settings" end)
      end
    end
  end.

(** How many secrets were re-sealed, and the error, if any. *)
Definition reseal_one (enc : string) : M store (string * bool * option box_err) := draw (λ n, box_reseal (rnd n) CAKeyPassphrase enc).
Definition ResealSecrets : M store (Z * option string) :=
  c ← LoadConfig;
  p ← reseal_one (PasswordEnc (Email c));
  match p with
  | (_, _, Some _) => mret (0, Some "reseal")
  | (p, ch1, None) =>
    let n1 := if (ch1 : bool) then 1 else 0 in
    k ← reseal_one (RoutingKeyEnc (PagerDuty c));
    match k with
    | (_, _, Some _) => mret (n1, Some "reseal")
    | (k, ch2, None) =>
      let n2 := if (ch2 : bool) then n1 + 1 else n1 in
      a ← reseal_one (APIKeyEnc (Opsgenie c));
      match a with
      | (_, _, Some _) => mret (n2, Some "reseal")
      | (a, ch3, None) =>
        let n3 := if (ch3 : bool) then n2 + 1 else n2 in
        if n3 =? 0 then mret (0, None)
        else
          let pick (ch : bool) (new old : string) := if ch then new else old in
          r ← db (SetSetting (with_secrets (Password (Email c), pick ch1 p (PasswordEnc (Email c)))
                     (RoutingKey (PagerDuty c), pick ch2 k (RoutingKeyEnc (PagerDuty c)))
                     (APIKey (Opsgenie c), pick ch3 a (APIKeyEnc (Opsgenie c))) c));
          mret (n3, match r with Ok _ => None | Err _ => Some "settings" end)
      end
    end
  end.

Record Redacted := MkRedacted { rd_Config : Config; PasswordSet : bool; PagerDutyKeySet : bool; OpsgenieKeySet : bool }.
Definition redacted (c : Config) : Redacted :=
  let set (s : string) := negb (str_eqb s "") in
  MkRedacted (with_secrets ("", "") ("", "") ("", "") c) (set (PasswordEnc (Email c))) (set (RoutingKeyEnc (PagerDuty c)))
    (set (APIKeyEnc (Opsgenie c))).
Definition SendTest (channel : string) : M store (option string) :=
  c ← LoadConfig;
  let ev := MkEvent "test" SeverityInfo "Fleet test notification"
    "This is a test notification from Moorgate. If you received it, the channel is configured correctly." "" "" [] in
  if str_eqb channel "email" then if e_Enabled (Email c) then sendEmail c ev "" else mret (Some "email channel is disabled")
  else if str_eqb channel "webhook" then if w_Enabled (Webhook c) then sendWebhook c ev else mret (Some "webhook channel is disabled")
  else if str_eqb channel "pagerduty" then if pd_Enabled (PagerDuty c) then sendPagerDuty c ev else mret (Some "pagerduty channel is disabled")
  else if str_eqb channel "opsgenie" then if og_Enabled (Opsgenie c) then sendOpsgenie c ev else mret (Some "opsgenie channel is disabled")
  else mret (Some "unknown channel").

(** * Handlers ([handlers.go]), behind System.Configure *)
Definition get : M store (reply Redacted) := c ← LoadConfig; mret (WriteJSON 200 (redacted c)).
Definition put (rq : option Config) : M store (reply Redacted) :=
  match rq with
  | None => mret (WriteError 400 "invalid request body")
  | Some new =>
    r ← Save new;
    match r with
    | Some _ => mret (WriteError 500 "could not save settings")
    | None => c ← LoadConfig; mret (WriteJSON 200 (redacted c))
    end
  end.
Definition test (rq : option string) : M store (reply (bool * string)) :=
  match rq with
  | None => mret (WriteError 400 "invalid request body")
  | Some channel =>
    r ← SendTest channel;
    mret (WriteJSON 200 (match r with Some e => (false, e) | None => (true, "") end))
  end.
Definition events : reply (list string) := WriteJSON 200 AllEventTypes.
End notify.

(** * Proofs: the header of a mail *)
(** How a lenient reader takes a message apart: a line ends at CR LF, at a bare LF or at a bare CR;
    the header are the lines up to the first empty one. *)
Fixpoint line (s : string) : string * option string :=
  match s with
  | EmptyString => ("", None)
  | String c t =>
    if Ascii.eqb c LF then ("", Some t)
    else if Ascii.eqb c CR then
      match t with String d t' => if Ascii.eqb d LF then ("", Some t') else ("", Some t) | EmptyString => ("", Some t) end
    else let q := line t in (String c q.1, q.2)
  end.
Fixpoint header_lines (fuel : nat) (s : string) : list string :=
  match fuel with
  | O => []
  | S fuel => match line s with ("", _) | (_, None) => [] | (l, Some t) => l :: header_lines fuel t end
  end.

(** What a value becomes: character by character, a space for a line break, else itself. *)
Definition tamed (s r : string) : Prop :=
  Forall2 (λ c d, if bool_decide (c = CR ∨ c = LF) then d = " "%char else d = c)
    (String.list_ascii_of_string s) (String.list_ascii_of_string r).

Definition no_break : string → bool := all_chars (λ c, negb (Ascii.eqb c CR) && negb (Ascii.eqb c LF)).
Lemma line_app l t : no_break l = true → line (l +:+ CRLF +:+ t) = (l, Some t).
Proof.
  induction l as [|c l IH]; [done|]. unfold no_break. rewrite all_chars_cons.
  intros [[Hc%negb_true_iff Hd%negb_true_iff]%andb_true_iff Hl]%andb_true_iff.
  change (String c l +:+ CRLF +:+ t) with (String c (l +:+ CRLF +:+ t)). cbn [line]. by rewrite Hc, Hd, IH.
Qed.
Lemma hdrSafe_no_break s : no_break (hdrSafe s) = true.
Proof.
  unfold no_break, hdrSafe. rewrite all_chars_map. induction s as [|c s IH]; [done|]. rewrite all_chars_cons, IH, andb_true_r.
  destruct (Ascii.eqb c CR) eqn:Hc; [done|]. cbn [orb]. destruct (Ascii.eqb c LF) eqn:Hl; [done|]. by rewrite Hc, Hl.
Qed.
Lemma hdrSafe_tamed s : tamed s (hdrSafe s).
Proof.
  induction s as [|c s IH]; [constructor|]. constructor; [|exact IH].
  destruct (Ascii.eqb_spec c CR) as [->|Hc]; [by rewrite bool_decide_true by auto|].
  destruct (Ascii.eqb_spec c LF) as [->|Hl]; [by rewrite bool_decide_true by auto|].
  rewrite bool_decide_false; [done|]. by intros [?|?].
Qed.
Lemma no_break_app a b : no_break (a +:+ b) = no_break a && no_break b.
Proof. apply all_chars_app. Qed.
Lemma header_lines_S n l t : no_break l = true → l ≠ "" → header_lines (S n) (l +:+ CRLF +:+ t) = l :: header_lines n t.
Proof. intros Hl Hne. cbn [header_lines]. rewrite line_app by done. by destruct l. Qed.
Lemma header_lines_end n t : header_lines n (CRLF +:+ t) = [].
Proof. by destruct n. Qed.

(** C38: whatever the addresses, the title, the text and the attachments of an event hold, the mail has
    exactly these six header lines, also for a reader who takes a bare CR or a bare LF for the end of a
    line: the values have a space for each line break and are otherwise as given, and nothing in them
    adds a header or ends the header early. (The printed date and the quoted boundary hold no line
    break.) *)
Theorem mail_header_fixed `{!Outside} from to subject text attachments now :
  no_break (RFC1123Z now) = true → no_break (quote boundary) = true →
  ∃ f t sub, tamed from f ∧ tamed to t ∧ tamed subject sub ∧
    header_lines 7 (buildMessage from to subject text attachments now) =
    ["From: " +:+ f; "To: " +:+ t; "Subject: " +:+ sub; "MIME-Version: 1.0";
     "Date: " +:+ RFC1123Z now;
     match attachments with [] => "Content-Type: text/plain; charset=UTF-8"
     | _ => "Content-Type: multipart/mixed; boundary=" +:+ quote boundary end].
Proof.
  intros Hd Hq. exists (hdrSafe from), (hdrSafe to), (hdrSafe subject). split_and!; [apply hdrSafe_tamed..|].
  set (l1 := "From: " +:+ hdrSafe from). set (l2 := "To: " +:+ hdrSafe to). set (l3 := "Subject: " +:+ hdrSafe subject).
  set (l5 := "Date: " +:+ RFC1123Z now).
  assert (no_break l1 = true ∧ no_break l2 = true ∧ no_break l3 = true ∧ no_break l5 = true) as (H1 & H2 & H3 & H5).
  { unfold l1, l2, l3, l5. by rewrite !no_break_app, !hdrSafe_no_break, Hd. }
  assert (∀ rest, headers from to subject now +:+ rest =
    l1 +:+ CRLF +:+ l2 +:+ CRLF +:+ l3 +:+ CRLF +:+ "MIME-Version: 1.0" +:+ CRLF +:+ l5 +:+ CRLF +:+ rest) as Hh.
  { intros rest. unfold headers, l1, l2, l3, l5. by rewrite <- !str_app_assoc. }
  unfold buildMessage. rewrite Hh, !header_lines_S by (done || by unfold l1, l2, l3, l5).
  do 5 f_equal. destruct attachments as [|x l].
  - rewrite header_lines_S by done. by rewrite header_lines_end.
  - set (l6 := "Content-Type: multipart/mixed; boundary=" +:+ quote boundary).
    rewrite (str_app_assoc "Content-Type: multipart/mixed; boundary=" (quote boundary)). fold l6.
    rewrite header_lines_S by (done || by unfold l6; rewrite no_break_app, Hq). by rewrite header_lines_end.
Qed.

(** * Proofs: throttling *)
Section throttle.
(** Calls one after the other, as the lock has them, each with its time. *)
Definition call : Type := Event * Config * Z.
Definition calls (l : list call) (s : store) : store :=
  foldl (λ s q, (allow_at q.1.1 q.1.2 q.2 q.2 s).2) s l.
Definition window (c : Config) : Z :=
  let w := wrap64 (ThrottleMinutes c * minute) in if w <=? 0 then 5 * minute else w.
Definition throttle_key (ev : Event) : string := ev_Type ev +:+ "|" +:+ DedupeKey ev.
Definition sent_by (k : string) (t : Z) (s : store) : Prop := ∃ last, lastSent s !! k = Some last ∧ t ≤ last.

Lemma allow_keeps k t q s : t ≤ q.2 → sent_by k t s → sent_by k t (allow_at q.1.1 q.1.2 q.2 q.2 s).2.
Proof.
  intros Hq (last & Hl & Ht). destruct q as [[ev c] t']. cbn [fst snd] in *. unfold allow_at.
  destruct (str_eqb _ _); [by exists last|]. destruct (decide (throttle_key ev = k)) as [<-|Hne].
  - unfold throttle_key in *. rewrite Hl. destruct (_ <? _); [by exists last|]. exists t'. cbn. by rewrite lookup_insert_eq.
  - unfold throttle_key in *. destruct (lastSent s !! (ev_Type ev +:+ "|" +:+ DedupeKey ev)); [destruct (_ <? _); [by exists last|]|];
      (exists last; cbn; by rewrite lookup_insert_ne).
Qed.
Lemma calls_keep k t l s : Forall (λ q : call, t ≤ q.2) l → sent_by k t s → sent_by k t (calls l s).
Proof.
  revert s. induction l as [|q l IH]; intros s Hl Hs; [done|]. apply Forall_cons in Hl as [Hq Hl].
  unfold calls in *. cbn [foldl]. apply IH; [done|]. by apply allow_keeps.
Qed.
Lemma allow_records ev c t s : DedupeKey ev ≠ "" → (allow_at ev c t t s).1 = true →
  sent_by (throttle_key ev) t (allow_at ev c t t s).2.
Proof.
  intros Hd. unfold allow_at. destruct (str_eqb _ _) eqn:He; [by apply str_eqb_eq in He|]. fold (throttle_key ev).
  destruct (lastSent s !! throttle_key ev); [destruct (_ <? _); [done|]|]; intros _; exists t; cbn; by rewrite lookup_insert_eq.
Qed.
End throttle.

(** two notifications of one type and one key are let through at least a window apart, whatever else
    is notified in between and however the window is changed. *)
Theorem notifications_spaced ev ev' c c' t t' l s :
  DedupeKey ev ≠ "" → ev_Type ev' = ev_Type ev → DedupeKey ev' = DedupeKey ev →
  Forall (λ q : call, t ≤ q.2) l →
  (allow_at ev c t t s).1 = true →
  (allow_at ev' c' t' t' (calls l (allow_at ev c t t s).2)).1 = true →
  t + window c' ≤ t'.
Proof.
  intros Hd Ht Hk Hl H1 H2. pose proof (allow_records ev c t s Hd H1) as Hs.
  apply (calls_keep _ _ l) in Hs as (last & Hlast & Hle); [|done]. unfold allow_at in H2 at 1. rewrite Ht, Hk in H2.
  destruct (str_eqb (DedupeKey ev) "") eqn:He; [by apply str_eqb_eq in He|]. unfold throttle_key in Hlast. rewrite Hlast in H2.
  fold (window c') in H2. destruct (t' - last <? window c') eqn:Hw; [done|]. lia.
Qed.

Definition toy_event (key : string) : Event := MkEvent "host.offline" "error" "h" "b" key "" [].
Definition toy_state : store := Store None ∅ (NetState 0 []) [] [].
Lemma notifications_spaced_witness : 0 + window no_config ≤ 5 * minute.
Proof.
  by apply (notifications_spaced (toy_event "h1") (toy_event "h1") no_config no_config 0 (5 * minute)
    [(toy_event "h1", no_config, minute); (toy_event "h2", no_config, 2 * minute)] toy_state); repeat constructor.
Defined.

(** * Proofs: the secrets of the settings *)
Section secrets.
Context `{!SecretBox, !SecretBoxLaws, !Env store, !Quiet Env0}.
Context (rnd : nat → rand_draw) (key : bytes) (Hrnd : ∀ n, good_draw (rnd n)) (Hdb : ∀ n, db_err (Env := Env0) n = false).

(** A sealed value that is the secret that was given, or the stored one when none was. *)
Definition secret_for (given stored enc : string) : Prop :=
  if str_eqb given "" then enc = stored else box_open key enc = Ok (String.list_byte_of_string given).
Lemma keep_or_seal_spec given stored w enc : (keep_or_seal rnd key given stored w).1 = Ok enc → secret_for given stored enc.
Proof.
  unfold keep_or_seal, secret_for. destruct (str_eqb given ""); [cbn; congruence|]. cbn. intros Hs. by eapply box_open_seal.
Qed.
Lemma keep_or_seal_world given stored w : w_db (keep_or_seal rnd key given stored w).2 = w_db w.
Proof. unfold keep_or_seal. by destruct (str_eqb given ""). Qed.
Definition stored (s : store) : Config := default no_config (setting s).

Lemma LoadConfig_quiet w : (LoadConfig w).1 = stored (w_db w) ∧ w_db (LoadConfig w).2 = w_db w.
Proof.
  destruct w as [n s]. unfold LoadConfig. rewrite run_bind, run_db, Hdb. unfold stored. by destruct (setting s) eqn:Hs; cbn; rewrite Hs.
Qed.
Lemma Save_spec new w : (Save rnd key new w).1 = None → ∃ p k a,
  w_db (Save rnd key new w).2 = set_setting (Some (with_secrets ("", p) ("", k) ("", a) new)) (w_db w) ∧
  secret_for (Password (Email new)) (PasswordEnc (Email (stored (w_db w)))) p ∧
  secret_for (RoutingKey (PagerDuty new)) (RoutingKeyEnc (PagerDuty (stored (w_db w)))) k ∧
  secret_for (APIKey (Opsgenie new)) (APIKeyEnc (Opsgenie (stored (w_db w)))) a.
Proof.
  unfold Save. rewrite run_bind. destruct (LoadConfig_quiet w) as [-> Hw]. set (cur := stored (w_db w)).
  set (w1 := (LoadConfig w).2) in *. rewrite run_bind.
  pose proof (keep_or_seal_world (Password (Email new)) (PasswordEnc (Email cur)) w1) as Hw1.
  destruct (keep_or_seal rnd key (Password _) _ w1) as [[p|] w2] eqn:Hp; [|done]. cbn [fst snd] in *. rewrite run_bind.
  pose proof (keep_or_seal_world (RoutingKey (PagerDuty new)) (RoutingKeyEnc (PagerDuty cur)) w2) as Hw2.
  destruct (keep_or_seal rnd key (RoutingKey _) _ w2) as [[k|] w3] eqn:Hk; [|done]. cbn [fst snd] in *. rewrite run_bind.
  pose proof (keep_or_seal_world (APIKey (Opsgenie new)) (APIKeyEnc (Opsgenie cur)) w3) as Hw3.
  destruct (keep_or_seal rnd key (APIKey _) _ w3) as [[a|] w4] eqn:Ha; [|done]. cbn [fst snd] in *. rewrite run_bind.
  intros _. exists p, k, a. destruct w4 as [n4 s4]. cbn [w_db] in *. rewrite run_db, Hdb. cbn. split; [congruence|].
  split_and!; (eapply keep_or_seal_spec; by rewrite ?Hp, ?Hk, ?Ha).
Qed.
End secrets.


(** ** A concrete service *)
#[local] Instance toy_net : Net := {| lookup_ip _ _ := None; connects _ _ _ := false; url_parse _ := None; NetGuard.answer _ _ _ := Status 200 |}.
(** A mail server that refuses everything. *)
#[local] Instance toy_outside : Outside := {|
  lower := id; smtp _ _ := Some "refused"; post _ _ := None; RFC1123Z _ := "Mon, 02 Jan 2006 15:04:05 +0000"; quote s := s |}.

Lemma mail_header_fixed_witness :
  let m := buildMessage "f@x" "t@x" ("h" +:+ String LF "Bcc: evil@x") (CRLF +:+ "text") [] 0 in
  length (header_lines 7 m) = 6%nat ∧ header_lines 7 m !! 2%nat = Some "Subject: h Bcc: evil@x".
Proof.
  cbv zeta. split; [|by vm_compute].
  destruct (mail_header_fixed "f@x" "t@x" ("h" +:+ String LF "Bcc: evil@x") (CRLF +:+ "text") [] 0)
    as (f & t & sub & _ & _ & _ & ->); by vm_compute.
Defined.

Definition toy_config : Config :=
  MkConfig (MkEmail true "mail" 0 "u" "" "psecret" "f@x" "t@x" "starttls") (MkWebhook false "" "") (MkPagerDuty false "" "" "")
    (MkOpsgenie false "" "" "" "") {["host.offline" := MkRoute true false]} 0.
Definition toy_world : world store := World 0 (Store (Some toy_config) ∅ (NetState 0 []) [] []).
Definition toy_rnd (_ : nat) : rand_draw := toy_draw.
Lemma toy_rnd_good n : good_draw (toy_rnd n).
Proof. apply toy_draw_good. Qed.


(** ** What goes wrong *)
(** When the stored settings cannot be read, saving without entering the password again wipes it. *)
Definition first_fails : Env store := MkEnv store (λ n, bool_decide (n = 0%nat)) Z.of_nat (λ _ s, s).
Lemma failed_read_wipes_secrets :
  let w := Save (Env0 := first_fails) (box := plain_box) toy_rnd [] toy_config toy_world in
  w.1 = None ∧ PasswordEnc (Email (stored (w_db w.2))) = "" ∧ PasswordEnc (Email (stored (w_db toy_world))) = "psecret".
Proof. by vm_compute. Qed.

(** A notification that could not be delivered counts as sent: its repetition is held back. *)
Lemma failed_delivery_throttles :
  let notify := Notify (Env0 := quiet_env) (box := plain_box) [] (toy_event "h1") in
  let s := w_db ((notify ≫= λ _, notify) toy_world).2 in
  warnings s = ["notify email failed"] ∧ length (outbox s) = 1%nat.
Proof. by vm_compute. Qed.

(** Secrets that are not saved are counted as re-sealed, and settings that cannot be read as having
    none left to do. *)
Definition second_fails_box : SecretBox := {|
  box_seal := box_seal (SecretBox := plain_box); box_open := box_open (SecretBox := plain_box);
  box_reseal _ _ s := if str_eqb s "psecret" then ("qsecret", true, None) else (s, false, if str_eqb s "" then None else Some ErrAuth);
|}.
Lemma reseal_miscounts :
  let start := World 0 (set_setting (Some (with_secrets ("", "psecret") ("", "spoilt") ("", "") toy_config)) (w_db toy_world)) in
  let w := ResealSecrets (Env0 := quiet_env) (box := second_fails_box) toy_rnd [] start in
  w.1 = (1, Some "reseal") ∧ PasswordEnc (Email (stored (w_db w.2))) = "psecret" ∧
  (ResealSecrets (Env0 := first_fails) (box := second_fails_box) toy_rnd [] start).1 = (0, None).
Proof. by vm_compute. Qed.
