(* ===== verification/HostFacts.v ===== *)
(** What the monitor reads out of the answers of a host ([monitor/metrics.go] and the parsing half of
    [monitor/monitor.go]): resources, inventory, pending updates, Windows facts.

    The scripts that run on the hosts are not modelled: their answers are arguments. The prefix and
    case functions of [strings] are those of [GoStrings]; [strings.EqualFold] is a parameter. *)
From S2P Require Import Prelude GoStrings Binary64 GoParse.
From Stdlib Require Import Strings.Ascii.
#[local] Open Scope Z_scope.

(** * Strings *)
(** [strings.Fields]: every step takes a byte. *)
Fixpoint fields_from (fuel : nat) (cur s : string) : list string :=
  let done_with := if str_eqb cur "" then [] else [cur] in
  match fuel, s with
  | S fuel, String c t =>
    match List.find (λ p, has_prefix p s) go_spaces with
    | Some p => done_with ++ fields_from fuel "" (str_drop (String.length p) s)
    | None => fields_from fuel (cur +:+ String c "") t
    end
  | _, _ => done_with
  end.
Definition Fields (s : string) : list string := fields_from (String.length s) "" s.
Definition newline : ascii := "010".
Definition Lines : string → list string := Split newline.
Definition HasSuffix (p s : string) : bool := has_prefix (rev_string p "") (rev_string s "").
Definition TrimSuffix (p s : string) : string := rev_string (TrimPrefix (rev_string p "") (rev_string s "")) "".
Definition trunc (s : string) (n : nat) : string := String.substring 0 n s.
Fixpoint dedupe_from (seen : list string) (l : list string) : list string :=
  match l with
  | [] => []
  | v :: l => if str_eqb v "" || bool_decide (v ∈ seen) then dedupe_from seen l else v :: dedupe_from (v :: seen) l
  end.
Definition dedupe : list string → list string := dedupe_from [].

(** * Numbers *)
(** [int64] of a float, as amd64 has it out of range. *)
Definition to_int64 (x : float64) : Z :=
  match x with
  | S754_zero _ => 0
  | S754_finite neg m e =>
    let q := truncate (S754_finite false m e) in
    let z := if neg then - q else q in if int_range z then z else - 2 ^ 63
  | _ => - 2 ^ 63
  end.
Definition half : float64 := fdiv (f_of_Z 1) (f_of_Z 2).
Definition round1 (f : float64) : float64 := fdiv (f_of_Z (to_int64 (fadd (fmul f (f_of_Z 10)) half))) (f_of_Z 10).
(** [float64(a) / float64(b) * 100] *)
Definition percent (a b : Z) : float64 := fmul (fdiv (f_of_Z a) (f_of_Z b)) (f_of_Z 100).

(** * Data ([models/models.go]) *)
Record DiskFS := MkDisk { Mount : string; SizeBytes : Z; UsedBytes : Z; AvailBytes : Z; UsePct : float64 }.
Record NetInterface := MkIface { ni_Name : string; Addrs : list string }.
#[export] Instance NetInterface_eq_dec : EqDecision NetInterface.
Proof. solve_decision. Defined.
Record HostNetwork := MkNetwork { Interfaces : list NetInterface; net_PrimaryIP : string; DefaultGateway : string; DefaultIface : string }.
Record HostMetrics := MkMetrics {
  Disk : list DiskFS; MinDiskFreePct : option float64; MemTotalMB : Z; MemAvailableMB : Z; MemUsedPct : option float64;
  Load1 : option float64; Load5 : option float64; Load15 : option float64; LoadPerCore : option float64;
  Network : option HostNetwork; PrimaryIP : string;
}.
Record PendingUpdate := MkUpdate { Package : string; NewVersion : string; Security : bool }.
(** [None] for a field that was not collected. *)
Record HostInventory := MkInventory {
  OSName : string; OSVersion : string; KernelVersion : string; Architecture : string; SSHVersion : string;
  CPUCount : Z; MemoryMB : Z; CollectedAt : option Z;
  UpdatesAvailable : option Z; SecurityUpdates : option Z; UpdatesCheckedAt : option Z;
  UpdatePackages : option (list PendingUpdate); ObsoletePackages : option (list string);
}.

(** * Resources ([metrics.go]) *)
Definition is_marker (l : string) : bool := has_prefix "::" l && HasSuffix "::" l && bool_decide (4 < String.length l)%nat.
Definition marker_name (l : string) : string := TrimSuffix "::" (TrimPrefix "::" l).
Definition flush (cur b : string) (sections : gmap string string) : gmap string string :=
  if str_eqb cur "" then sections else <[cur := TrimRight newline b]> sections.
Fixpoint split_lines (ls : list string) (cur b : string) (sections : gmap string string) : gmap string string :=
  match ls with
  | [] => flush cur b sections
  | l :: ls =>
    let l := TrimRight "013" l in
    if is_marker l then split_lines ls (marker_name l) "" (flush cur b sections)
    else split_lines ls cur (b +:+ l +:+ String newline "") sections
  end.
Definition splitSections (out : string) : gmap string string := split_lines (Lines out) "" "" ∅.

Definition parseLoadAvg (s : string) (cpuCount : Z) : option float64 * option float64 * option float64 * option float64 :=
  match Fields (TrimSpace s) with
  | a :: b :: c :: _ =>
    let l1 := ParseFloat a in
    (l1, ParseFloat b, ParseFloat c,
     v ← l1; if 0 <? cpuCount then Some (fdiv v (f_of_Z cpuCount)) else None)
  | _ => (None, None, None, None)
  end.

(** In kilobytes, the last two in bytes. *)
Record mem_info := MemInfo { totalKB : Z; availKB : Z; arcSizeB : Z; arcCMinB : Z }.
Definition mem_line (m : mem_info) (l : string) : mem_info :=
  match Fields l with
  | k :: v :: _ =>
    match Atoi v with
    | Some v =>
      if str_eqb k "MemTotal:" then MemInfo v (availKB m) (arcSizeB m) (arcCMinB m)
      else if str_eqb k "MemAvailable:" then MemInfo (totalKB m) v (arcSizeB m) (arcCMinB m)
      else if str_eqb k "ArcSize:" then MemInfo (totalKB m) (availKB m) v (arcCMinB m)
      else if str_eqb k "ArcCMin:" then MemInfo (totalKB m) (availKB m) (arcSizeB m) v
      else m
    | None => m
    end
  | _ => m
  end.
Definition scan_mem (s : string) : mem_info := foldl mem_line (MemInfo 0 0 0 0) (Lines s).
(** With the part of the ZFS cache that can be given back. *)
Definition available (m : mem_info) : Z :=
  if (arcCMinB m <? arcSizeB m) && (0 <=? arcCMinB m) then
    let a := wrap64 (availKB m + Z.quot (arcSizeB m - arcCMinB m) 1024) in
    if totalKB m <? a then totalKB m else a
  else availKB m.
(** Total, available, and the share in use. *)
Definition parseMem (s : string) : option (Z * Z * float64) :=
  let m := scan_mem s in
  if totalKB m <=? 0 then None
  else
    let a := available m in
    let used := percent (wrap64 (totalKB m - a)) (totalKB m) in
    Some (Z.quot (totalKB m) 1024, Z.quot a 1024, if SFltb used (f_of_Z 0) then f_of_Z 0 else used).

Section equalfold.
Context (EqualFold : string → string → bool).
Definition df_line (first : bool) (l : string) : option DiskFS :=
  match Fields l with
  | fs :: size :: used :: avail :: _ :: mount :: rest =>
    if first && (str_eqb fs "Filesystem" || EqualFold size "1B-blocks") then None
    else
      match Atoi size, Atoi used, Atoi avail with
      | Some size, Some used, Some avail =>
        if size <=? 0 then None
        else Some (MkDisk (String.concat " " (mount :: rest)) size used avail (round1 (percent used size)))
      | _, _, _ => None
      end
  | _ => None
  end.
Definition parseDF (s : string) : list DiskFS :=
  match Lines s with
  | [] => []
  | l :: ls => option_list (df_line true l) ++ omap (df_line false) ls
  end.
End equalfold.
Definition disk_free (d : DiskFS) : float64 := percent (AvailBytes d) (SizeBytes d).
Fixpoint least_free (m : option float64) (l : list DiskFS) : option float64 :=
  match l with
  | [] => m
  | d :: l =>
    if SizeBytes d <=? 0 then least_free m l
    else
      let free := disk_free d in
      least_free (match m with Some f => if SFltb free f then Some free else m | None => Some free end) l
  end.
Definition minDiskFreePct (disk : list DiskFS) : option float64 := round1 <$> least_free None disk.

(** The field after the first occurrence of the key that is not the last field. *)
Fixpoint fieldAfter (fields : list string) (key : string) : string :=
  match fields with
  | f :: (g :: _) as t => if str_eqb f key then g else fieldAfter t key
  | _ => ""
  end.
(** Interfaces in the order of their first address. *)
Fixpoint add_address (name cidr : string) (l : list NetInterface) : list NetInterface :=
  match l with
  | [] => [MkIface name [cidr]]
  | i :: l => if str_eqb (ni_Name i) name then MkIface name (Addrs i ++ [cidr]) :: l else i :: add_address name cidr l
  end.
Definition addr_line (l : list NetInterface) (s : string) : list NetInterface :=
  let f := Fields s in
  match f with
  | _ :: name :: _ :: _ :: _ =>
    let iface := TrimSuffix ":" name in
    let cidr := fieldAfter f "inet" in
    if str_eqb iface "" || str_eqb cidr "" then l else add_address iface cidr l
  | _ => l
  end.
Definition parseNetwork (ipOut routeOut srcOut : string) : option HostNetwork :=
  let ifaces := foldl addr_line [] (Lines ipOut) in
  let rf := Fields (TrimSpace routeOut) in
  let default_ := match rf with d :: _ :: _ :: _ :: _ :: _ => str_eqb d "default" | _ => false end in
  let gateway := if default_ then fieldAfter rf "via" else "" in
  let primary := fieldAfter (Fields (TrimSpace srcOut)) "src" in
  if bool_decide (ifaces = []) && str_eqb primary "" && str_eqb gateway "" then None
  else Some (MkNetwork ifaces primary gateway (if default_ then fieldAfter rf "dev" else "")).

Definition parseMetrics (EqualFold : string → string → bool) (out : string) (cpuCount : Z) : HostMetrics :=
  let section k := default "" (splitSections out !! k) in
  let '(l1, l5, l15, per) := parseLoadAvg (section "LOADAVG") cpuCount in
  let '(total, avail, used) := match parseMem (section "MEM") with Some (t, a, u) => (t, a, Some u) | None => (0, 0, None) end in
  let disk := parseDF EqualFold (section "DF") in
  let net := parseNetwork (section "IP") (section "ROUTE") (section "SRC") in
  MkMetrics disk (minDiskFreePct disk) total avail used l1 l5 l15 per net
    (match net with Some n => net_PrimaryIP n | None => "" end).

(** * Inventory ([monitor.go]) *)
Definition parse_inventory (out : string) (now : Z) : HostInventory :=
  let lines := Lines (TrimSpace out) in
  let field i := TrimSpace (default "" (lines !! i)) in
  let os := field 3%nat in
  MkInventory (if str_eqb os "" then field 0%nat else os) "" (field 1%nat) (field 2%nat) (field 4%nat)
    (default 0 (Atoi (field 5%nat))) (match Atoi (field 6%nat) with Some kb => Z.quot kb 1024 | None => 0 end) (Some now)
    None None None None None.

Definition obsoletePackagesCap : nat := 500.
Fixpoint parse_obsolete (seen : list string) (n : nat) (ls : list string) : list string :=
  match ls with
  | [] => []
  | l :: ls =>
    let name := TrimSpace l in
    if str_eqb name "" || bool_decide (name ∈ seen) then parse_obsolete seen n ls
    else match n with O => parse_obsolete (name :: seen) O ls | S n => name :: parse_obsolete (name :: seen) n ls end
  end.
Definition parseObsolete (out : string) : list string := parse_obsolete [] obsoletePackagesCap (Lines out).

Definition updatePackagesCap : nat := 500.
(** The two counts, whether the first was read, the packages. *)
Definition update_state : Type := option Z * option Z * bool * list PendingUpdate.
Definition update_line (u : update_state) (l : string) : update_state :=
  let '(total, sec, got, pkgs) := u in
  let l := TrimSpace l in
  if has_prefix "COUNTS|" l then
    match Split "|" l with
    | _ :: t :: s :: _ =>
      let '(total, got) := match Atoi (TrimSpace t) with Some n => (Some n, true) | None => (total, got) end in
      (total, match Atoi (TrimSpace s) with Some n => Some n | None => sec end, got, pkgs)
    | _ => u
    end
  else if has_prefix "PKG|" l then
    match Split "|" l with
    | _ :: p :: v :: s :: _ =>
      if str_eqb p "" then u
      else if bool_decide (length pkgs < updatePackagesCap)%nat then
        (total, sec, got, pkgs ++ [MkUpdate p v (str_eqb (TrimSpace s) "1")])
      else u
    | _ => u
    end
  else u.
Definition parse_updates (out : string) (now : Z) (inv : HostInventory) : HostInventory :=
  let '(total, sec, got, pkgs) := foldl update_line (UpdatesAvailable inv, SecurityUpdates inv, false, []) (Lines out) in
  MkInventory (OSName inv) (OSVersion inv) (KernelVersion inv) (Architecture inv) (SSHVersion inv) (CPUCount inv) (MemoryMB inv)
    (CollectedAt inv) total sec (if got then Some now else UpdatesCheckedAt inv)
    (if got then Some pkgs else UpdatePackages inv) (ObsoletePackages inv).
Definition set_obsolete (l : list string) (inv : HostInventory) : HostInventory :=
  MkInventory (OSName inv) (OSVersion inv) (KernelVersion inv) (Architecture inv) (SSHVersion inv) (CPUCount inv) (MemoryMB inv)
    (CollectedAt inv) (UpdatesAvailable inv) (SecurityUpdates inv) (UpdatesCheckedAt inv) (UpdatePackages inv) (Some l).

Definition parseUptime (s : string) : option Z :=
  match Fields (TrimSpace s) with [] => None | f :: _ => to_int64 <$> ParseFloat f end.

(** * Windows *)
Record WinDisk := MkWinDisk { wd_Mount : string; wd_SizeBytes : Z; wd_FreeBytes : Z }.
(** What WinRM answers ([winrm.Facts]). *)
Record Facts := MkFacts {
  f_OS : string; f_OSVersion : string; f_Architecture : string; f_CPUCount : Z; f_MemoryMB : Z; f_MemFreeMB : Z;
  f_Disks : list WinDisk; f_Interfaces : list NetInterface; f_Gateway : string; f_UptimeSeconds : Z;
  f_UpdatesAvailable : option Z; f_SecurityUpdates : option Z;
}.
Definition usable_address (wgAddr a : string) : bool :=
  contains_sub "." a && negb (str_eqb a wgAddr || has_prefix "127." a || has_prefix "169.254." a).
Definition windowsPrimaryIP (ifaces : list NetInterface) (wgAddr : string) : string :=
  default "" (List.find (usable_address wgAddr) (ifaces ≫= Addrs)).
Definition win_disk (d : WinDisk) : DiskFS :=
  let used := wrap64 (wd_SizeBytes d - wd_FreeBytes d) in
  MkDisk (wd_Mount d) (wd_SizeBytes d) used (wd_FreeBytes d) (percent used (wd_SizeBytes d)).
Definition win_least (m : option float64) (d : DiskFS) : option float64 :=
  let free := fsub (f_of_Z 100) (UsePct d) in
  match m with Some f => if SFltb free f then Some free else m | None => Some free end.
Definition win_inventory (f : Facts) (now : Z) : HostInventory :=
  MkInventory (f_OS f) (f_OSVersion f) "" (f_Architecture f) "" (f_CPUCount f) (f_MemoryMB f) (Some now)
    (f_UpdatesAvailable f) (match f_UpdatesAvailable f with Some _ => f_SecurityUpdates f | None => None end)
    (match f_UpdatesAvailable f with Some _ => Some now | None => None end) None None.
Definition win_metrics (f : Facts) (wgAddr : string) : HostMetrics :=
  let disks := win_disk <$> f_Disks f in
  let primary := windowsPrimaryIP (f_Interfaces f) wgAddr in
  let net := if bool_decide (f_Interfaces f = []) && str_eqb (f_Gateway f) "" then None
             else Some (MkNetwork (f_Interfaces f) primary (f_Gateway f) "") in
  MkMetrics disks (foldl win_least None disks) (f_MemoryMB f) (f_MemFreeMB f)
    (if 0 <? f_MemoryMB f then Some (percent (wrap64 (f_MemoryMB f - f_MemFreeMB f)) (f_MemoryMB f)) else None)
    None None None None net primary.

(** * Examples *)
Definition lines_of (l : list string) : string := foldr (λ x acc, x +:+ (String newline acc)) "" l.
Definition sample_answer : string := lines_of
  ["::LOADAVG::"; "0.50 0.25 0.10 1/234 5678"; "::MEM::"; "MemTotal: 2048000"; "MemAvailable: 1024000"; "::DF::";
   "Filesystem 1B-blocks Used Available Capacity Mounted on"; "/dev/sda1 1000 250 700 27% /"; "/dev/sdb1 1000 900 100 90% /srv data";
   "::IP::"; "2: eth0    inet 10.0.0.5/24 brd 10.0.0.255 scope global eth0"; "::ROUTE::"; "default via 10.0.0.1 dev eth0 proto static";
   "::SRC::"; "1.1.1.1 via 10.0.0.1 dev eth0 src 10.0.0.5 uid 0"; "::END::"].
Example sample_metrics : parseMetrics str_eqb sample_answer 2 =
  MkMetrics [MkDisk "/" 1000 250 700 (f_of_Z 25); MkDisk "/srv data" 1000 900 100 (f_of_Z 90)] (Some (f_of_Z 10)) 2000 1000 (Some (f_of_Z 50))
    (Some half) (Some (fdiv half (f_of_Z 2))) (Some (fdiv (f_of_Z 1) (f_of_Z 10))) (Some (fdiv half (f_of_Z 2)))
    (Some (MkNetwork [MkIface "eth0" ["10.0.0.5/24"]] "10.0.0.5" "10.0.0.1" "eth0")) "10.0.0.5".
Proof. by vm_compute. Qed.

(** A host without [nproc] prints no line for it: the next line, its memory in kilobytes, becomes the
    number of processors and the memory is lost. *)
Lemma missing_tool_shifts : let inv := parse_inventory (lines_of ["Linux"; "6.1.0"; "x86_64"; "Alpine Linux 3.19"; "OpenSSH_9.6"; "2048000"]) 0 in
  CPUCount inv = 2048000 ∧ MemoryMB inv = 0.
Proof. by vm_compute. Qed.

(** * Proofs *)
(** Memory that can be given back is added once, and never makes more available than there is. *)
Lemma available_bounds m : 0 ≤ availKB m ≤ totalKB m → totalKB m < 2 ^ 62 → arcSizeB m < 2 ^ 63 → 0 ≤ available m ≤ totalKB m.
Proof.
  intros Ha Ht Hs. unfold available. destruct ((arcCMinB m <? arcSizeB m) && (0 <=? arcCMinB m)) eqn:Hc; [|done].
  apply andb_true_iff in Hc as [H1%Z.ltb_lt H2%Z.leb_le].
  assert (0 ≤ Z.quot (arcSizeB m - arcCMinB m) 1024 < 2 ^ 53) as Hq.
  { rewrite Z.quot_div_nonneg by lia. split; [apply Z.div_pos; lia|apply Z.div_lt_upper_bound; lia]. }
  assert (wrap64 (availKB m + Z.quot (arcSizeB m - arcCMinB m) 1024) = availKB m + Z.quot (arcSizeB m - arcCMinB m) 1024) as ->.
  { unfold wrap64. rewrite Z.mod_small; lia. }
  destruct (totalKB m <? _) eqn:Hl; lia.
Qed.

Lemma parse_obsolete_spec seen n ls :
  let r := parse_obsolete seen n ls in
  NoDup r ∧ (length r ≤ n)%nat ∧ Forall (λ x, x ∉ seen ∧ x ≠ "" ∧ x ∈ (TrimSpace <$> ls)) r.
Proof.
  revert seen n. induction ls as [|l ls IH]; intros seen n; cbn [parse_obsolete].
  { split_and!; [constructor|simpl; lia|constructor]. }
  assert (∀ seen' n', let r := parse_obsolete seen' n' ls in
    NoDup r ∧ (length r ≤ n')%nat ∧ Forall (λ x, x ∉ seen' ∧ x ≠ "" ∧ x ∈ (TrimSpace <$> (l :: ls))) r) as IH'.
  { intros seen' n'. destruct (IH seen' n') as (H1 & H2 & H3). split_and!; [done..|].
    eapply Forall_impl; [exact H3|]. set_solver. }
  clear IH. destruct (str_eqb (TrimSpace l) "" || _) eqn:Hs; [apply IH'|]. apply orb_false_iff in Hs as [He Hin].
  apply bool_decide_eq_false in Hin. assert (TrimSpace l ≠ "") as Hne by (intros H; by rewrite H in He).
  destruct n as [|n].
  { destruct (IH' (TrimSpace l :: seen) O) as (H1 & H2 & H3). split_and!; [done..|].
    eapply Forall_impl; [exact H3|]. set_solver. }
  destruct (IH' (TrimSpace l :: seen) n) as (H1 & H2 & H3). cbn zeta. split_and!.
  - constructor; [|done]. intros Hx. rewrite Forall_forall in H3. specialize (H3 _ Hx). set_solver.
  - simpl; lia.
  - constructor; [set_solver|]. eapply Forall_impl; [exact H3|]. set_solver.
Qed.
(** The packages kept are distinct, at most five hundred, and names the host gave. *)
Lemma parseObsolete_spec out : NoDup (parseObsolete out) ∧ (length (parseObsolete out) ≤ 500)%nat ∧
  Forall (λ x, x ≠ "" ∧ x ∈ (TrimSpace <$> Lines out)) (parseObsolete out).
Proof.
  destruct (parse_obsolete_spec [] obsoletePackagesCap (Lines out)) as (H1 & H2 & H3). split_and!; [done..|].
  eapply Forall_impl; [exact H3|]. naive_solver.
Qed.

(** ** The sections of an answer *)
Definition good_line (l : string) : bool :=
  all_chars (λ c, negb (Ascii.eqb c newline)) l && str_eqb (TrimRight "013" l) l.
Definition section_lines (q : string * list string) : list string := ("::" +:+ q.1 +:+ "::") :: q.2.
(** The answer of a script that prints sections one after the other. *)
Definition answer (l : list (string * list string)) : string := lines_of (l ≫= section_lines).

Lemma Lines_lines_of ls : Forall (λ l, all_chars (λ c, negb (Ascii.eqb c newline)) l = true) ls → Lines (lines_of ls) = ls ++ [""].
Proof.
  unfold Lines. induction 1 as [|l ls Hl Hls IH]; [done|]. cbn [lines_of foldr].
  change (String newline (foldr (λ x acc, x +:+ (String newline acc)) "" ls)) with (String newline "" +:+ lines_of ls).
  rewrite Split_app, IH, Split_nosep by done. done.
Qed.
Lemma rev_marker n : rev_string ("::" +:+ n +:+ "::") "" = "::" +:+ rev_string n "" +:+ "::".
Proof. by rewrite !rev_string_concat, <- str_app_assoc. Qed.
Lemma marker_ok n : n ≠ "" → is_marker ("::" +:+ n +:+ "::") = true ∧ marker_name ("::" +:+ n +:+ "::") = n.
Proof.
  intros Hn. unfold is_marker, marker_name, HasSuffix, TrimSuffix, TrimPrefix. rewrite rev_marker, !has_prefix_app, !str_drop_app.
  change (rev_string "::" "") with "::". split.
  - apply andb_true_iff. split; [done|]. apply bool_decide_eq_true. destruct n as [|c n]; [done|].
    change ("::" +:+ String c n +:+ "::") with (String ":" (String ":" (String c (n +:+ "::")))). cbn [String.length].
    assert (2 ≤ String.length (n +:+ "::"))%nat; [|lia]. clear. induction n as [|d n IH]; [done|].
    change (String d n +:+ "::") with (String d (n +:+ "::")). cbn [String.length]. lia.
  - rewrite rev_string_concat. change (rev_string "::" "") with "::". rewrite has_prefix_app, str_drop_app. apply rev_string_rev.
Qed.
Definition good_section (q : string * list string) : Prop :=
  q.1 ≠ "" ∧ all_chars (λ c, negb (Ascii.eqb c newline)) q.1 = true ∧ Forall (λ l, good_line l = true ∧ is_marker l = false) q.2.
Definition section_text (q : string * list string) : string := TrimRight newline (lines_of q.2).

Lemma split_lines_body ls rest cur b m : Forall (λ l, good_line l = true ∧ is_marker l = false) ls →
  split_lines (ls ++ rest) cur b m = split_lines rest cur (b +:+ lines_of ls) m.
Proof.
  intros Hls. revert b. induction Hls as [|l ls [Hg Hm] Hls IH]; intros b; [by cbn; rewrite str_app_nil|].
  apply andb_true_iff in Hg as [_ Hr%str_eqb_eq]. cbn [app split_lines]. cbn zeta. rewrite Hr, Hm, IH. f_equal.
  cbn [lines_of foldr]. by rewrite <- !str_app_assoc.
Qed.
Lemma split_lines_sections l cur b m : Forall good_section l →
  split_lines ((l ≫= section_lines) ++ [""]) cur b m =
  foldl (λ m q, <[q.1 := section_text q]> m) (flush cur b m) l.
Proof.
  revert cur b m. induction l as [|[n ls] l IH]; intros cur b m Hl.
  - cbn [mbind list_bind app split_lines foldl]. cbn zeta. cbn [TrimRight is_marker has_prefix andb].
    unfold flush. destruct (str_eqb cur ""); [done|].
    change ("" +:+ String newline "") with (String newline ""). by rewrite (TrimRight_snoc newline b).
  - inversion_clear Hl as [|? ? (Hn & Hc & Hls) Hl']. cbn [fst snd] in *. destruct (marker_ok n Hn) as [H1 H2].
    cbn [mbind list_bind]. change (section_lines (n, ls)) with (("::" +:+ n +:+ "::") :: ls). rewrite <- !app_assoc.
    cbn [app split_lines]. cbn zeta.
    assert (TrimRight "013" ("::" +:+ n +:+ "::") = "::" +:+ n +:+ "::") as ->.
    { replace ("::" +:+ n +:+ "::") with (("::" +:+ n +:+ ":") +:+ String ":" "") by (by rewrite <- !str_app_assoc).
      by apply TrimRight_keeps. }
    rewrite H1, H2, split_lines_body, IH by done. cbn [foldl]. f_equal. unfold flush at 1.
    destruct (str_eqb n "") eqn:He; [by apply str_eqb_eq in He|done].
Qed.
(** An answer is taken apart into the sections it was printed with, whatever their lines hold, as
    long as none of them looks like a marker. *)
Lemma splitSections_answer l : Forall good_section l →
  splitSections (answer l) = foldl (λ m q, <[q.1 := section_text q]> m) ∅ l.
Proof.
  intros Hl. unfold splitSections, answer. rewrite Lines_lines_of; [by rewrite split_lines_sections|].
  clear -Hl. induction Hl as [|[n ls] l (Hn & Hc & Hls) Hl IH]; [constructor|]. cbn [mbind list_bind fst snd] in *. apply Forall_app. split; [|done].
  constructor.
  - cbn [fst]. by rewrite !all_chars_app, Hc.
  - eapply Forall_impl; [exact Hls|]. intros x [Hx _]. by apply andb_true_iff in Hx as [-> _].
Qed.
