(* ===== verification/Monitor.v ===== *)
(** The host monitor ([monitor/monitor.go], the rows of [store/hosts.go], [store/metrics.go],
    [store/metrics_history.go], [store/status_events.go] it reads and writes).

    Connections, the answers of the scripts, WinRM and the resolution of vault credentials (the gate of
    which is [Vault.ForSystem]) are parameters; what is read out of the answers is [HostFacts]. The
    probes of a sweep run in parallel in the code; here one runs after the other, and what the others
    write meanwhile is the environment's. Alerts are handed to the notifier of [Notify]. *)
From S2P Require Import Prelude GoStrings Binary64 GoParse HostFacts.
From S2P Require HostKeys Notify.
From stdpp Require Import pretty.
From Stdlib Require Import Strings.Ascii.
#[local] Open Scope Z_scope.

(** * Data *)
Definition targetCadence : Z := 30 * second.
Definition minSweepGap : Z := 2 * second.
Definition defaultMonitorConcurrency : Z := 6.
Definition maxMonitorConcurrency : Z := 16.
Definition inventoryTTL : Z := hour.

Record HostStatus := MkStatus {
  Status : string; SSHOK : bool; WGOK : bool; LatencyMS : option Z; UptimeSeconds : option Z;
  LastSuccessAt : option Z; LastFailureAt : option Z; LastError : string; CheckedAt : option Z;
}.
(** A row of the hosts, and the host as it is listed, with its details ([None]: absent, or not read). *)
Record host := MkHost {
  Hostname : string; Environment : string; Address : string; WGAddress : string; Overlay : string; SSHPort : Z; SSHUser : string;
  Enrolled : bool; AuthMethod : string; CredentialID : option uuid; Protocol : string; RDPPort : Z;
  DeviceType : string; RouterOSAPI : bool; MaintenanceUntil : option Z;
}.
Record Host := Listed { h_id : uuid; h_row : host; h_inventory : option HostInventory; h_status : option HostStatus }.
Record HostStatusEvent := StatusEvent { ev_host : uuid; FromStatus : string; ToStatus : string; ev_error : string; At : Z }.
Record sample := Sample { sm_host : uuid; sm_disk : option float64; sm_mem : option float64; sm_load : option float64; sm_at : Z }.
Record config := MkConf {
  MonitorConcurrency : Z; RDPCollectFacts : bool; MetricHistoryRetention : Z; MetricHistorySample : Z;
  MonitorConfirmDelay : Z; MonitorOfflineConfirmations : Z; WGInterface : string;
}.
(** The tables, and what the monitor hands out: alerts, broadcasts, records of its runs, gauges. *)
Record store := Store {
  hosts : gmap uuid host; status : gmap uuid HostStatus; inventory : gmap uuid HostInventory; metrics : gmap uuid HostMetrics;
  history : list sample; status_events : list HostStatusEvent; software : gmap uuid (gmap (string * string) string);
  alerts : list Notify.Event; broadcasts : list (uuid * HostStatus); runs : list (option string); gauges : gmap string Z;
}.
Definition set_status v s := Store (hosts s) v (inventory s) (metrics s) (history s) (status_events s) (software s) (alerts s) (broadcasts s) (runs s) (gauges s).
Definition set_inventory v s := Store (hosts s) (status s) v (metrics s) (history s) (status_events s) (software s) (alerts s) (broadcasts s) (runs s) (gauges s).
Definition set_metrics v s := Store (hosts s) (status s) (inventory s) v (history s) (status_events s) (software s) (alerts s) (broadcasts s) (runs s) (gauges s).
Definition set_history v s := Store (hosts s) (status s) (inventory s) (metrics s) v (status_events s) (software s) (alerts s) (broadcasts s) (runs s) (gauges s).
Definition set_events v s := Store (hosts s) (status s) (inventory s) (metrics s) (history s) v (software s) (alerts s) (broadcasts s) (runs s) (gauges s).
Definition set_software v s := Store (hosts s) (status s) (inventory s) (metrics s) (history s) (status_events s) v (alerts s) (broadcasts s) (runs s) (gauges s).
Definition add_alert a s := Store (hosts s) (status s) (inventory s) (metrics s) (history s) (status_events s) (software s) (alerts s ++ [a]) (broadcasts s) (runs s) (gauges s).
Definition add_broadcast b s := Store (hosts s) (status s) (inventory s) (metrics s) (history s) (status_events s) (software s) (alerts s) (broadcasts s ++ [b]) (runs s) (gauges s).
Definition add_run r s := Store (hosts s) (status s) (inventory s) (metrics s) (history s) (status_events s) (software s) (alerts s) (broadcasts s) (runs s ++ [r]) (gauges s).
Definition set_gauges v s := Store (hosts s) (status s) (inventory s) (metrics s) (history s) (status_events s) (software s) (alerts s) (broadcasts s) (runs s) v.

(** The scripts that are run on a host. *)
Inductive command := CatUptime | InventoryScript | ObsoleteScript | UpdatesScript | MetricsScript | TunAddresses | WGHandshakes (iface : string).
(** How a host is dialed: with a certificate, or as the user of a vault credential. *)
Record dial := Dial { d_host : uuid; d_addr : string; d_port : Z; d_user : string; d_vaulted : bool }.

(** The network: [None] is success where an error is the other case. [cancelled]: the server is told to
    stop before a pause is over. *)
Class Reach := {
  signer : nat → uuid → option string;
  jump : nat → option string;
  tcp : nat → string → option string;
  ssh : nat → dial → option string;
  run_cmd : nat → dial → command → option string;
  win_credential : nat → Host → option (string * string);
  winrm : nat → string → string * string → bool → option Facts;
  win_software : nat → string → string * string → option (list (string * string * string));
  systemInjection : nat → Host → option string;
  cancelled : nat → bool;
  EqualFold : string → string → bool;
  by_hostname : list Host → list Host;
  by_hostname_perm : ∀ l, by_hostname l ≡ₚ l;
}.

Section monitor.
Context `{!Reach, !Env store}.

(** Something on the network: it takes its time. *)
Definition io {A} (f : nat → A) : M store A := λ w, (f (w_tick w), World (S (w_tick w)) (interfere (w_tick w) (w_db w))).
(** Whether the context is done before the time is over. *)
Definition pause : M store bool := io cancelled.

(** * Statements *)
Definition listed (s : store) (q : uuid * host) : Host := Listed q.1 q.2 (inventory s !! q.1) (status s !! q.1).
Definition bare (q : uuid * host) : Host := Listed q.1 q.2 None None.
Definition page_of (limit offset : nat) (l : list Host) : list Host := take limit (drop offset l).
Definition ListHosts_rows (limit offset : nat) : Z → store → res store_error (list Host) * store :=
  reading (λ _ s, Ok (page_of limit offset (by_hostname (bare <$> map_to_list (hosts s))))).
(** Details that cannot be read are left absent. *)
Definition attach (with_inventory : bool) (hs : list Host) : Z → store → res store_error (list Host) * store :=
  reading (λ _ s, Ok ((λ h, if with_inventory
    then Listed (h_id h) (h_row h) (inventory s !! h_id h) (h_status h)
    else Listed (h_id h) (h_row h) (h_inventory h) (status s !! h_id h)) <$> hs)).
Definition ListHosts (limit offset : nat) : M store (res store_error (list Host)) :=
  r ← db (ListHosts_rows limit offset);
  match r with
  | Err e => mret (Err e)
  | Ok [] => mret (Ok [])
  | Ok hs =>
    r ← db (attach true hs);
    let hs := match r with Ok hs => hs | Err _ => hs end in
    r ← db (attach false hs);
    mret (Ok (match r with Ok hs => hs | Err _ => hs end))
  end.
Definition page : nat := 500.
(** [None]: out of fuel. *)
Fixpoint AllHosts (fuel : nat) (offset : nat) (out : list Host) : M store (option (res store_error (list Host))) :=
  match fuel with
  | O => mret None
  | S fuel =>
    r ← ListHosts page offset;
    match r with
    | Err e => mret (Some (Err e))
    | Ok batch =>
      if bool_decide (length batch < page)%nat then mret (Some (Ok (out ++ batch)))
      else AllHosts fuel (offset + page) (out ++ batch)
    end
  end.

(** The rows of a host go with it. *)
Definition of_host {A} (id : uuid) (s : store) (r : res store_error A * store) : res store_error A * store :=
  if bool_decide (is_Some (hosts s !! id)) then r else (Err ErrDB, s).
Definition coalesce {A} (new old : option A) : option A := match new with Some _ => new | None => old end.
Definition UpdateStatus (id : uuid) (st : HostStatus) (now : Z) (s : store) : res store_error unit * store :=
  let old := status s !! id in
  of_host id s (Ok tt, set_status (<[id := MkStatus (Status st) (SSHOK st) (WGOK st) (LatencyMS st) (UptimeSeconds st)
     (coalesce (LastSuccessAt st) (o ← old; LastSuccessAt o)) (coalesce (LastFailureAt st) (o ← old; LastFailureAt o))
     (LastError st) (Some now)]> (status s)) s).
Definition UpsertInventory (id : uuid) (i : HostInventory) (now : Z) (s : store) : res store_error unit * store :=
  let old := inventory s !! id in
  of_host id s (Ok tt, set_inventory (<[id := MkInventory (OSName i) (OSVersion i) (KernelVersion i) (Architecture i) (SSHVersion i) (CPUCount i)
     (MemoryMB i) (Some now) (coalesce (UpdatesAvailable i) (o ← old; UpdatesAvailable o))
     (coalesce (SecurityUpdates i) (o ← old; SecurityUpdates o)) (coalesce (UpdatesCheckedAt i) (o ← old; UpdatesCheckedAt o))
     (coalesce (UpdatePackages i) (o ← old; UpdatePackages o)) (coalesce (ObsoletePackages i) (o ← old; ObsoletePackages o))]> (inventory s)) s).
Definition UpsertMetrics (id : uuid) (m : HostMetrics) (_ : Z) (s : store) : res store_error unit * store :=
  of_host id s (Ok tt, set_metrics (<[id := m]> (metrics s)) s).
Definition RecordMetricHistory (id : uuid) (m : HostMetrics) (every : Z) (now : Z) (s : store) : res store_error unit * store :=
  if existsb (λ x, bool_decide (sm_host x = id) && (now - Z.max 0 every <? sm_at x)) (history s) then (Ok tt, s)
  else of_host id s (Ok tt, set_history (history s ++ [Sample id (MinDiskFreePct m) (MemUsedPct m) (LoadPerCore m) now]) s).
Definition PruneMetricHistoryBefore (cutoff : Z) (_ : Z) (s : store) : res store_error Z * store :=
  (Ok (Z.of_nat (length (filter (λ x, sm_at x < cutoff) (history s)))), set_history (filter (λ x, ¬ sm_at x < cutoff) (history s)) s).
Definition RecordStatusEvent (id : uuid) (from to err : string) (at_ : Z) (_ : Z) (s : store) : res store_error unit * store :=
  of_host id s (Ok tt, set_events (status_events s ++ [StatusEvent id from to err at_]) s).
Definition PruneStatusEventsBefore (cutoff : Z) (_ : Z) (s : store) : res store_error Z * store :=
  (Ok (Z.of_nat (length (filter (λ x, At x < cutoff) (status_events s)))), set_events (filter (λ x, ¬ At x < cutoff) (status_events s)) s).
Definition ReplaceWindowsSoftware (id : uuid) (items : list (string * string * string)) (_ : Z) (s : store) : res store_error unit * store :=
  of_host id s (Ok tt, set_software (<[id := foldl (λ m x, let '(name, version, publisher) := x in
    if str_eqb name "" then m else <[(name, version) := publisher]> m) ∅ items]> (software s)) s).
Definition CountHostsByStatus : Z → store → res store_error (gmap string Z) * store :=
  reading (λ _ s, Ok (foldr (λ q m, <[Status q.2 := default 0 (m !! Status q.2) + 1]> m)
    (list_to_map [("online", 0); ("offline", 0); ("unknown", 0)]) (map_to_list (status s)))).
Definition MarkHostFactsStale (id : uuid) (_ : Z) (s : store) : res store_error unit * store :=
  (Ok tt, set_inventory (alter (λ i, MkInventory (OSName i) (OSVersion i) (KernelVersion i) (Architecture i) (SSHVersion i) (CPUCount i)
     (MemoryMB i) (CollectedAt i) (UpdatesAvailable i) (SecurityUpdates i) None (UpdatePackages i) (ObsoletePackages i)) id (inventory s)) s).
(** With its details' rows. *)
Definition no_inventory : HostInventory := MkInventory "" "" "" "" "" 0 0 None None None None None None.
Definition new_status : HostStatus := MkStatus "unknown" false false None None None None "" None.
Definition CreateHost (h : host) (_ : Z) (s : store) : res store_error uuid * store :=
  let id := fresh (dom (hosts s)) in
  (Ok id, Store (<[id := h]> (hosts s)) (<[id := new_status]> (status s)) (<[id := no_inventory]> (inventory s)) (metrics s)
     (history s) (status_events s) (software s) (alerts s) (broadcasts s) (runs s) (gauges s)).

(** * Alerts *)
Context (conf : config) (notifier : bool).

Definition InMaintenance (h : host) (now : Z) : bool := match MaintenanceUntil h with Some t => now <? t | None => false end.
Definition IsRouterOS (h : host) : bool := str_eqb (DeviceType h) "routeros" || RouterOSAPI h.
Definition hasVaultedCredential (h : host) : bool :=
  bool_decide (is_Some (CredentialID h)) && (str_eqb (AuthMethod h) "vault_password" || str_eqb (AuthMethod h) "vault_ssh_key").
Definition IsCertOverlay (name : string) : bool := str_eqb name "openvpn".
Definition overlayLabel (name : string) : string := if str_eqb (TrimSpace name) "openvpn" then "OpenVPN" else "WireGuard".
Definition overlayWhereToLook (name : string) : string :=
  if str_eqb (TrimSpace name) "openvpn" then "Check the openvpn client on the host and the openvpn server on the jump host."
  else "Check the WireGuard service on the host and the peer entry on the jump host.".

Definition alert (type severity title body key : string) : M store unit :=
  effect (add_alert (Notify.MkEvent type severity title body key "" [])).
Definition notifyTransition (h : Host) (prev now_ : string) : M store unit :=
  if negb notifier || str_eqb prev "" || str_eqb prev now_ then mret tt
  else
    t ← time_now;
    let row := h_row h in
    if InMaintenance row t then mret tt
    else if str_eqb prev "online" && str_eqb now_ "offline" then
      alert "host.offline" Notify.SeverityError ("Host offline: " +:+ Hostname row)
        ("Fleet can no longer reach " +:+ Hostname row +:+ " (" +:+ Environment row +:+ "). It was last seen online.") (pretty (h_id h))
    else if negb (str_eqb prev "online") && str_eqb now_ "online" then
      alert "host.recovered" Notify.SeverityInfo ("Host recovered: " +:+ Hostname row)
        (Hostname row +:+ " (" +:+ Environment row +:+ ") is reachable again.") (pretty (h_id h))
    else mret tt.
Definition definite (x : string) : bool := str_eqb x "online" || str_eqb x "offline".
Definition recordTransition (h : Host) (prev now_ lastErr : string) : M store unit :=
  _ ← (if negb (str_eqb prev "") && negb (str_eqb prev now_) && definite prev && definite now_ then
         t ← time_now; _ ← db (RecordStatusEvent (h_id h) prev now_ lastErr t); mret tt
       else mret tt);
  notifyTransition h prev now_.
Definition notifyOverlayTransition (h : Host) (prev : string) (prevWG : bool) (st : HostStatus) : M store unit :=
  let row := h_row h in
  if negb notifier || str_eqb (WGAddress row) "" || negb (str_eqb prev "online") || negb (str_eqb (Status st) "online")
     || Bool.eqb prevWG (WGOK st) then mret tt
  else
    t ← time_now;
    if InMaintenance row t then mret tt
    else if prevWG then
      alert "host.overlay_down" Notify.SeverityWarning ("Overlay tunnel down: " +:+ Hostname row)
        (Hostname row +:+ " (" +:+ Environment row +:+ ") is still reachable, but its " +:+ overlayLabel (Overlay row) +:+ " tunnel ("
         +:+ WGAddress row +:+ ") is down — Fleet is falling back to the direct address. " +:+ overlayWhereToLook (Overlay row))
        (pretty (h_id h) +:+ ":overlay")
    else
      alert "host.overlay_restored" Notify.SeverityInfo ("Overlay tunnel restored: " +:+ Hostname row)
        (Hostname row +:+ " (" +:+ Environment row +:+ ") is reachable over its " +:+ overlayLabel (Overlay row) +:+ " tunnel ("
         +:+ WGAddress row +:+ ") again.")
        (pretty (h_id h) +:+ ":overlay").
Definition broadcastStatus (h : Host) (st : HostStatus) : M store unit := _ ← time_now; effect (add_broadcast (h_id h, st)).

(** * Probes *)
Definition result : Type := HostStatus * option HostInventory * option HostMetrics.
Definition millis (start now : Z) : Z := Z.quot (now - start) 1000000.
Definition offline (err : string) (now : Z) : HostStatus := MkStatus "offline" false false None None None (Some now) (trunc err 240) (Some now).
Definition candidates (h : host) : list string := dedupe [WGAddress h; Address h; Hostname h].
Definition over_overlay (addr : string) (h : host) : bool := str_eqb addr (WGAddress h) && negb (str_eqb (WGAddress h) "").

(** The first address that answers, with the milliseconds it took; else the last error. *)
Fixpoint try_rdp (port : Z) (addrs : list string) (err : string) : M store (res string (string * Z)) :=
  match addrs with
  | [] => mret (Err err)
  | addr :: addrs =>
    start ← time_now;
    r ← io (λ n, tcp n (HostKeys.JoinHostPort addr (pretty port)));
    match r with
    | None => now ← time_now; mret (Ok (addr, millis start now))
    | Some err => try_rdp port addrs err
    end
  end.
Definition probeRDPOver (h : Host) : M store HostStatus :=
  now ← time_now;
  let row := h_row h in
  r ← try_rdp (if RDPPort row <=? 0 then 3389 else RDPPort row) (candidates row) "";
  mret (match r with
        | Ok (addr, lat) => MkStatus "online" false (over_overlay addr row) (Some lat) None (Some now) None "" (Some now)
        | Err err => offline err now
        end).

Definition updatesStale (i : option HostInventory) (now : Z) : bool :=
  match i ≫= UpdatesCheckedAt with Some t => inventoryTTL <? now - t | None => true end.
Definition inventoryStale (i : option HostInventory) (now : Z) : bool :=
  match i ≫= CollectedAt with Some t => inventoryTTL <? now - t | None => true end.

(** Inventory, metrics, uptime. *)
Definition collectWindowsFactsOver (h : Host) : M store (option (HostInventory * HostMetrics * Z)) :=
  cred ← io (λ n, win_credential n h);
  match cred, candidates (h_row h) with
  | None, _ | _, [] => mret None
  | Some cred, addr :: _ =>
    now ← time_now;
    let dueUpdates := updatesStale (h_inventory h) now in
    f ← io (λ n, winrm n addr cred dueUpdates);
    match f with
    | None => mret None
    | Some f =>
      _ ← (if dueUpdates then
             sw ← io (λ n, win_software n addr cred);
             match sw with Some items => _ ← db (ReplaceWindowsSoftware (h_id h) items); mret tt | None => mret tt end
           else mret tt);
      now ← time_now;
      mret (Some (win_inventory f now, win_metrics f (WGAddress (h_row h)), f_UptimeSeconds f))
    end
  end.
Definition probe_rdp (h : Host) : M store result :=
  j ← io jump;
  match j with
  | Some err => now ← time_now; mret (offline err now, None, None)
  | None =>
    st ← probeRDPOver h;
    if RDPCollectFacts conf && str_eqb (Status st) "online" then
      f ← collectWindowsFactsOver h;
      mret (match f with
            | Some (inv, m, up) =>
              (MkStatus (Status st) (SSHOK st) (WGOK st) (LatencyMS st) (if 0 <? up then Some up else UptimeSeconds st)
                 (LastSuccessAt st) (LastFailureAt st) (LastError st) (CheckedAt st), Some inv, Some m)
            | None => (st, None, None)
            end)
    else mret (st, None, None)
  end.

Definition run (d : dial) (c : command) : M store (option string) := io (λ n, run_cmd n d c).
Definition collectUpdates (d : dial) (inv : HostInventory) : M store HostInventory :=
  out ← run d UpdatesScript;
  match out with None => mret inv | Some out => now ← time_now; mret (parse_updates out now inv) end.
Definition collectObsolete (d : dial) (inv : HostInventory) : M store HostInventory :=
  out ← run d ObsoleteScript;
  mret (match out with None => inv | Some out => set_obsolete (parseObsolete out) inv end).
Definition collectInventory (d : dial) : M store (option HostInventory) :=
  out ← run d InventoryScript;
  match out with
  | None => mret None
  | Some out =>
    now ← time_now;
    inv ← collectUpdates d (parse_inventory out now);
    inv ← collectObsolete d inv;
    mret (Some inv)
  end.
Definition collectMetrics (d : dial) (cpuCount : Z) : M store (option HostMetrics) :=
  out ← run d MetricsScript;
  mret ((λ out, parseMetrics EqualFold out cpuCount) <$> out).
Definition overlayUp (d : dial) (h : host) : M store bool :=
  if IsCertOverlay (TrimSpace (Overlay h)) then
    let addr := TrimSpace (WGAddress h) in
    if str_eqb addr "" then mret false
    else
      out ← run d TunAddresses;
      mret (match out with
            | Some out => existsb (λ l, str_eqb (before_any ["/"%char] (TrimSpace l)) addr) (Fields out)
            | None => false
            end)
  else
    out ← run d (WGHandshakes (WGInterface conf));
    match out with
    | None => mret false
    | Some out =>
      let hs := TrimSpace out in
      if str_eqb hs "" || str_eqb hs "0" then mret false
      else match Atoi hs with None => mret false | Some v => now ← time_now; mret (wrap64 (now / second - v) <? 180) end
    end.

Fixpoint try_ssh (h : Host) (user : string) (vaulted : bool) (addrs : list string) (err : string) : M store (res string (dial * Z)) :=
  match addrs with
  | [] => mret (Err err)
  | addr :: addrs =>
    let d := Dial (h_id h) addr (SSHPort (h_row h)) user vaulted in
    start ← time_now;
    r ← io (λ n, ssh n d);
    match r with
    | None => now ← time_now; mret (Ok (d, millis start now))
    | Some err => try_ssh h user vaulted addrs err
    end
  end.
(** [inj]: the user of the injected credential. *)
Definition probe (inj : option string) (h : Host) : M store result :=
  now ← time_now;
  let row := h_row h in
  c ← try_ssh h (default (SSHUser row) inj) (bool_decide (is_Some inj)) (candidates row) "";
  match c with
  | Err err => mret (offline err now, None, None)
  | Ok (d, lat) =>
    let st up wg := MkStatus "online" true wg (Some lat) up (Some now) None "" (Some now) in
    let wg := over_overlay (d_addr d) row in
    if IsRouterOS row then
      mret (st None wg, Some (MkInventory "MikroTik RouterOS" "" "" "" "" 0 0 (Some now) None None None None None), None)
    else
      up ← run d CatUptime;
      wg ← (if wg then mret true else overlayUp d row);
      t ← time_now;
      inv ← (if inventoryStale (h_inventory h) t then collectInventory d else mret None);
      let cpu := match h_inventory h with Some i => CPUCount i | None => 0 end in
      let cpu := match inv with Some i => if 0 <? CPUCount i then CPUCount i else cpu | None => cpu end in
      m ← collectMetrics d cpu;
      mret (st (up ≫= parseUptime) wg, inv, m)
  end.

(** * Confirmation *)
Definition offlineConfirmations : Z := if 1 <=? MonitorOfflineConfirmations conf then MonitorOfflineConfirmations conf else 3.
Definition confirmNeeded (h : Host) (prev : string) (prevWG : bool) (st : HostStatus) : string :=
  if str_eqb prev "online" && str_eqb (Status st) "offline" then "offline"
  else if negb (str_eqb (WGAddress (h_row h)) "") && prevWG && str_eqb (Status st) "online" && negb (WGOK st) then "overlay down"
  else "".
Definition degraded (h : Host) (prev : string) (prevWG : bool) (r : result) : bool := negb (str_eqb (confirmNeeded h prev prevWG r.1.1) "").
(** The attempts that are left. *)
Fixpoint confirm_loop (left_ : nat) (h : Host) (prev : string) (prevWG : bool) (probe_again : M store result) (r : result) : M store result :=
  match left_ with
  | O => mret r
  | S left_ =>
    done_ ← pause;
    if (done_ : bool) then mret r
    else
      r ← probe_again;
      if degraded h prev prevWG r then confirm_loop left_ h prev prevWG probe_again r else mret r
  end.
Definition probeConfirmed (h : Host) (prev : string) (prevWG : bool) (probe_ : M store result) : M store result :=
  r ← probe_;
  if degraded h prev prevWG r then confirm_loop (Z.to_nat (offlineConfirmations - 1)) h prev prevWG probe_ r else mret r.

(** * A sweep *)
Definition persist (h : Host) (prev : string) (prevWG : bool) (r : result) : M store unit :=
  let '(st, inv, m) := r in
  u ← db (UpdateStatus (h_id h) st);
  match u with
  | Err _ => mret tt
  | Ok _ =>
    _ ← recordTransition h prev (Status st) (LastError st);
    _ ← notifyOverlayTransition h prev prevWG st;
    _ ← (match inv with Some i => _ ← db (UpsertInventory (h_id h) i); mret tt | None => mret tt end);
    _ ← (match m with
         | Some m =>
           _ ← db (UpsertMetrics (h_id h) m);
           if 0 <? MetricHistoryRetention conf then _ ← db (RecordMetricHistory (h_id h) m (MetricHistorySample conf)); mret tt else mret tt
         | None => mret tt
         end);
    broadcastStatus h st
  end.
Definition probeHost (h : Host) : M store unit :=
  e ← io (λ n, signer n (h_id h));
  match e with
  | Some _ => mret tt
  | None =>
    let prev := match h_status h with Some st => Status st | None => "" end in
    let prevWG := match h_status h with Some st => WGOK st | None => false end in
    if str_eqb (Protocol (h_row h)) "rdp" then
      r ← probeConfirmed h prev prevWG (probe_rdp h); persist h prev prevWG r
    else if hasVaultedCredential (h_row h) then
      inj ← io (λ n, systemInjection n h);
      match inj with
      | None => mret tt
      | Some user => r ← probeConfirmed h prev prevWG (probe (Some user) h); persist h prev prevWG r
      end
    else r ← probeConfirmed h prev prevWG (probe None h); persist h prev prevWG r
  end.

Definition monitorConcurrency : Z :=
  let n := if MonitorConcurrency conf <? 1 then defaultMonitorConcurrency else MonitorConcurrency conf in
  if maxMonitorConcurrency <? n then maxMonitorConcurrency else n.
Definition refreshGauges : M store unit :=
  r ← db CountHostsByStatus; match r with Ok c => effect (λ s, set_gauges (c ∪ gauges s) s) | Err _ => mret tt end.
Definition probed (h : Host) : bool := Enrolled (h_row h) || str_eqb (Protocol (h_row h)) "rdp" || hasVaultedCredential (h_row h).
Fixpoint probe_all (hs : list Host) : M store unit :=
  match hs with [] => mret tt | h :: hs => _ ← (if probed h then probeHost h else mret tt); probe_all hs end.
(** [None]: the listing is out of fuel. *)
Definition sweep (fuel : nat) : M store (option unit) :=
  r ← AllHosts fuel 0 [];
  match r with
  | None => mret None
  | Some (Err _) => _ ← effect (add_run (Some "list hosts")); mret (Some tt)
  | Some (Ok hs) => _ ← probe_all hs; _ ← refreshGauges; _ ← effect (add_run None); mret (Some tt)
  end.
Definition nextSweepGap (target elapsed : Z) : Z :=
  let remaining := target - elapsed in if minSweepGap <? remaining then remaining else minSweepGap.
(** One turn of the loop: how long until the next. *)
Definition Run_tick (fuel : nat) (leader : bool) : M store (option Z) :=
  if negb leader then mret (Some (5 * second))
  else
    start ← time_now; r ← sweep fuel; now ← time_now;
    mret (match r with Some _ => Some (nextSweepGap targetCadence (now - start)) | None => None end).
End monitor.

(** * Proofs: confirmation *)
Section confirmation.
Context `{!Reach, !Env store} (conf : config).

(** Probes, each a pause after the one before, and what they reported. *)
Inductive probes (probe_ : M store result) : list result → world store → world store → Prop :=
  | probes_one w r w' : probe_ w = (r, w') → probes probe_ [r] w w'
  | probes_more rs w w1 w2 r w' : probes probe_ rs w w1 → pause w1 = (false, w2) → probe_ w2 = (r, w') → probes probe_ (rs ++ [r]) w w'.
(** The host was online and is offline now, or its tunnel was up and the host is online without it. *)
Definition worse (h : Host) (prev : string) (prevWG : bool) (r : result) : Prop :=
  (prev = "online" ∧ Status r.1.1 = "offline") ∨
  (WGAddress (h_row h) ≠ "" ∧ prevWG = true ∧ Status r.1.1 = "online" ∧ WGOK r.1.1 = false).

Lemma degraded_spec h prev wg r : degraded h prev wg r = true ↔ worse h prev wg r.
Proof.
  unfold degraded, confirmNeeded, worse. destruct (str_eqb prev "online" && str_eqb (Status r.1.1) "offline") eqn:H1.
  - apply andb_true_iff in H1 as [H1 H2]. apply str_eqb_eq in H1, H2. split; [by left|done].
  - destruct (negb (str_eqb (WGAddress (h_row h)) "") && wg && str_eqb (Status r.1.1) "online" && negb (WGOK r.1.1)) eqn:H2.
    + rewrite !andb_true_iff, !negb_true_iff in H2. destruct H2 as [[[H2 ->] H3%str_eqb_eq] H4].
      split; [|done]. right. split_and!; [|done..]. intros Hx%str_eqb_eq. congruence.
    + split; [done|]. intros [[Ha Hb]|(Ha & Hb & Hc & Hd)].
      * apply str_eqb_eq in Ha, Hb. by rewrite Ha, Hb in H1.
      * apply str_eqb_eq in Hc. rewrite Hb, Hc, Hd in H2. cbn in H2. rewrite !andb_true_r in H2. by apply negb_false_iff, str_eqb_eq in H2.
Qed.

Lemma confirm_loop_spec left h prev wg p front r w0 w :
  probes p (front ++ [r]) w0 w → Forall (worse h prev wg) front → worse h prev wg r →
  let q := confirm_loop left h prev wg p r w in
  ∃ front' w1, probes p (front' ++ [q.1]) w0 w1 ∧ Forall (worse h prev wg) front' ∧ (length front' ≤ length front + left)%nat ∧
    ((q.2 = w1 ∧ (worse h prev wg q.1 → length front' = (length front + left)%nat)) ∨
     (worse h prev wg q.1 ∧ (length front' < length front + left)%nat ∧ pause w1 = (true, q.2))).
Proof.
  revert front r w. induction left as [|left IH]; intros front r w Hp Hf Hr; cbn [confirm_loop].
  { exists front, w. split_and!; [done|done|lia|]. left. split; [done|intros _; lia]. }
  rewrite run_bind. destruct (pause w) as [[|] w1] eqn:Hw; cbn [fst snd].
  { exists front, w. split_and!; [done|done|lia|]. right. split_and!; [done|lia|done]. }
  rewrite run_bind. destruct (p w1) as [r1 w2] eqn:Hp1. cbn [fst snd].
  assert (probes p ((front ++ [r]) ++ [r1]) w0 w2) as Hp2 by (by eapply probes_more).
  assert (Forall (worse h prev wg) (front ++ [r])) as Hf2 by (apply Forall_app; by split; [|constructor]).
  destruct (degraded h prev wg r1) eqn:H1.
  - apply degraded_spec in H1. destruct (IH _ _ _ Hp2 Hf2 H1) as (front' & w3 & Ha & Hb & Hl & Hc).
    rewrite length_app in Hl, Hc. cbn [length] in Hl, Hc. exists front', w3. split_and!; [done|done|lia|].
    destruct Hc as [[Hc Hd]|(Hc & Hd & He)]; [left|right]; split_and!; try done; [|lia]. intros Hx. specialize (Hd Hx). lia.
  - exists (front ++ [r]), w2. rewrite length_app. cbn [length mret M_ret fst snd]. split_and!; [done|done|lia|].
    left. split; [done|]. intros Hx%degraded_spec. congruence.
Qed.

(** C40: what is reported of a host that was last seen well is the report of the last of a row of
    probes, each a pause after the one before: all but the last found it worse, that is offline
    after online, or online with a tunnel that was up and is not. There are at most as many as
    configured (three, where less than one is configured), and exactly as many where the report is
    the worse one too: a host is not reported offline, nor its tunnel down, on fewer failed
    probes. The one exception is stated: the server stopping during a pause lets the result stand
    as it is. Seen well is what the sweep listed: a status that could not be read counts as none
    (unread_status_flaps, a finding). *)
Theorem offline_needs_confirmation h prev wg p w :
  let n := (let c := MonitorOfflineConfirmations conf in if c <? 1 then 3 else c) in
  let q := probeConfirmed conf h prev wg p w in
  ∃ front w1, probes p (front ++ [q.1]) w w1 ∧ Forall (worse h prev wg) front ∧ Z.of_nat (S (length front)) ≤ n ∧
    ((q.2 = w1 ∧ (worse h prev wg q.1 → Z.of_nat (S (length front)) = n)) ∨
     (worse h prev wg q.1 ∧ Z.of_nat (S (length front)) < n ∧ pause w1 = (true, q.2))).
Proof.
  cbv zeta. assert (offlineConfirmations conf = if MonitorOfflineConfirmations conf <? 1 then 3 else MonitorOfflineConfirmations conf) as Hn.
  { unfold offlineConfirmations. destruct (1 <=? _) eqn:?, (_ <? 1) eqn:?; lia. }
  rewrite <- Hn. assert (1 ≤ offlineConfirmations conf) as H1 by (rewrite Hn; destruct (_ <? 1) eqn:?; lia). clear Hn.
  unfold probeConfirmed. rewrite run_bind. destruct (p w) as [r w1] eqn:Hp. cbn [fst snd].
  assert (probes p ([] ++ [r]) w w1) as Hp1 by (by apply probes_one). destruct (degraded h prev wg r) eqn:Hr.
  - apply degraded_spec in Hr.
    destruct (confirm_loop_spec (Z.to_nat (offlineConfirmations conf - 1)) h prev wg p [] r w w1 Hp1 (Forall_nil_2 _) Hr) as (front & w2 & Ha & Hb & Hl & Hc).
    cbn [length] in Hl, Hc. exists front, w2. split_and!; [done|done|lia|].
    destruct Hc as [[Hc Hd]|(Hc & Hd & He)]; [left|right]; split_and!; try done; [|lia]. intros Hx. specialize (Hd Hx). lia.
  - exists [], w1. split_and!; [done|constructor|cbn; lia|]. left. split; [done|]. cbn [mret M_ret fst]. intros Hx%degraded_spec. congruence.
Qed.
End confirmation.

(** * Proofs: the availability history *)
(** What others do while a sweep runs: the hosts, their statuses and the history stay as they are. *)
Definition others (s s' : store) : Prop := hosts s' = hosts s ∧ status s' = status s ∧ status_events s' = status_events s.
#[export] Instance others_preorder : PreOrder others.
Proof. split; [done|]. intros s s' s'' (H1 & H2 & H3) (I1 & I2 & I3). split_and!; congruence. Qed.
Lemma others_unchanged s s' : status s' = status s → status_events s' = status_events s → hosts s' = hosts s → others s s'.
Proof. done. Qed.

Definition events_of (id : uuid) (s : store) : list HostStatusEvent := filter (λ e, ev_host e = id) (status_events s).
(** Events that follow each other, each a change between the two definite statuses. *)
Fixpoint chained (from : option string) (l : list HostStatusEvent) : Prop :=
  match l with
  | [] => True
  | e :: l =>
    (∀ f, from = Some f → FromStatus e = f) ∧ FromStatus e ≠ ToStatus e ∧ definite (FromStatus e) = true ∧ definite (ToStatus e) = true ∧
    chained (Some (ToStatus e)) l
  end.
(** The history of a host ends in its status. *)
Definition told (id : uuid) (s : store) : Prop :=
  chained None (events_of id s) ∧ ∀ e, last (events_of id s) = Some e → ∃ st, status s !! id = Some st ∧ Status st = ToStatus e.
Definition history_tells (s : store) : Prop := ∀ id, told id s.
(** The status a sweep listed is the current one. *)
Definition current (h : Host) (s : store) : Prop := status s !! h_id h = h_status h.

(** From one of the two definite statuses to the other. *)
Definition changed (a b : string) : bool :=
  (str_eqb a "online" && str_eqb b "offline") || (str_eqb a "offline" && str_eqb b "online").
(** Nothing of the host changes; its status and its history change together, by the one event that
    tells the change and the error found, if it is one from a definite status to the other. *)
Definition untouched (id : uuid) (s s' : store) : Prop := status s' !! id = status s !! id ∧ events_of id s' = events_of id s.
Definition chronicle (id : uuid) (s s' : store) : Prop :=
  ∃ at_, events_of id s' = events_of id s ++
    match status s !! id, status s' !! id with
    | Some a, Some b => if changed (Status a) (Status b) then [StatusEvent id (Status a) (Status b) (LastError b) at_] else []
    | _, _ => []
    end.

Lemma changed_same a : changed a a = false.
Proof. unfold changed. destruct (str_eqb a "online") eqn:H; [|by rewrite andb_false_r]. apply str_eqb_eq in H as ->. done. Qed.
Lemma untouched_chronicle id s s' : untouched id s s' → chronicle id s s'.
Proof.
  intros [Hs He]. exists 0. rewrite Hs, He. destruct (status s !! id) as [a|]; [rewrite changed_same|]; by rewrite app_nil_r.
Qed.
Lemma untouched_left id s s1 s' : untouched id s s1 → chronicle id s1 s' → chronicle id s s'.
Proof. intros [Hs He] [t Hc]. exists t. by rewrite <- Hs, <- He. Qed.
Lemma untouched_right id s s1 s' : chronicle id s s1 → untouched id s1 s' → chronicle id s s'.
Proof. intros [t Hc] [Hs He]. exists t. by rewrite Hs, He. Qed.
Lemma others_untouched id s s' : others s s' → untouched id s s'.
Proof. intros (_ & H2 & H3). unfold untouched, events_of. by rewrite H2, H3. Qed.
Lemma untouched_trans id s s1 s' : untouched id s s1 → untouched id s1 s' → untouched id s s'.
Proof. intros [? ?] [? ?]. split; congruence. Qed.

Lemma chained_snoc from l e : chained from l →
  (∀ f, match last l with Some e' => Some (ToStatus e') | None => from end = Some f → FromStatus e = f) →
  FromStatus e ≠ ToStatus e → definite (FromStatus e) = true → definite (ToStatus e) = true → chained from (l ++ [e]).
Proof.
  intros Hl Hf Hn H1 H2. revert from Hl Hf. induction l as [|x l IH]; intros from Hl Hf; [by split_and!|].
  destruct Hl as (Ha & Hb & Hc & Hd & Hr). cbn [app chained]. split_and!; [done..|]. apply IH; [done|].
  intros f Hx. apply Hf. rewrite last_cons. by destruct (last l).
Qed.
Lemma untouched_told id s s' : untouched id s s' → told id s → told id s'.
Proof. intros [Hs He]. unfold told. by rewrite Hs, He. Qed.
Lemma others_tells s s' : others s s' → history_tells s → history_tells s'.
Proof. intros H Hs id. by eapply untouched_told; [apply others_untouched|]. Qed.
Lemma untouched_current h s s' : untouched (h_id h) s s' → current h s → current h s'.
Proof. intros [Hs _]. unfold current. congruence. Qed.
Lemma others_current h s s' : others s s' → current h s → current h s'.
Proof. intros. by eapply untouched_current; [apply others_untouched|]. Qed.

Definition flips (prev now : string) : bool := negb (str_eqb prev "") && negb (str_eqb prev now) && definite prev && definite now.
(** What recording a status does. *)
Definition recorded (id : uuid) (prev now err : string) (s s' : store) : Prop :=
  (∃ st, status s' = <[id := st]> (status s) ∧ Status st = now ∧ LastError st = err) ∧
  ∃ at_, status_events s' = status_events s ++ (if flips prev now then [StatusEvent id prev now err at_] else []).

Lemma flips_changed a b : flips a b = changed a b.
Proof.
  unfold flips, changed, definite. destruct (str_eqb a "online") eqn:Ha; [apply str_eqb_eq in Ha as ->|].
  { destruct (str_eqb b "online") eqn:Hb; [by apply str_eqb_eq in Hb as ->|]. destruct (str_eqb b "offline") eqn:Hc; [by apply str_eqb_eq in Hc as ->|].
    by rewrite andb_false_r. }
  destruct (str_eqb a "offline") eqn:Hd; [apply str_eqb_eq in Hd as ->|by rewrite andb_false_r].
  destruct (str_eqb b "online") eqn:Hb; [by apply str_eqb_eq in Hb as ->|]. destruct (str_eqb b "offline") eqn:Hc; [by apply str_eqb_eq in Hc as ->|].
  by rewrite andb_false_r.
Qed.
Lemma chained_last from l e : chained from l → last l = Some e → definite (ToStatus e) = true.
Proof.
  revert from. induction l as [|x l IH]; intros from; [done|]. intros (_ & _ & _ & Hd & Hr). destruct l as [|y l]; [by intros [= <-]|].
  intros Hl. by eapply IH.
Qed.
Lemma definite_nonempty x : definite x = true → str_eqb x "" = false.
Proof. unfold definite. intros [->%str_eqb_eq| ->%str_eqb_eq]%orb_true_iff; done. Qed.
Lemma recorded_untouched id id' prev now err s s' : id' ≠ id → recorded id prev now err s s' → untouched id' s s'.
Proof.
  intros Hne ((st & Hs & _) & at_ & He). unfold untouched, events_of. rewrite Hs, He, lookup_insert_ne, filter_app by done. split; [done|].
  destruct (flips prev now); [|by rewrite app_nil_r]. rewrite filter_cons_False by (cbn; congruence). by rewrite app_nil_r.
Qed.
Definition status_text (h : Host) : string := match h_status h with Some st => Status st | None => "" end.
Lemma recorded_events id prev now err s s' : recorded id prev now err s s' →
  ∃ at_, events_of id s' = events_of id s ++ (if changed prev now then [StatusEvent id prev now err at_] else []).
Proof.
  intros (_ & at_ & He). exists at_. unfold events_of. rewrite He, filter_app, flips_changed. f_equal.
  destruct (changed _ _); [|done]. by rewrite filter_cons_True.
Qed.
Lemma recorded_chronicle h now err s s' : current h s → recorded (h_id h) (status_text h) now err s s' → chronicle (h_id h) s s'.
Proof.
  intros Hc Hr. destruct (recorded_events _ _ _ _ _ _ Hr) as (at_ & He). destruct Hr as ((st & Hs & <- & <-) & _). exists at_.
  rewrite He, Hs, Hc, lookup_insert_eq. unfold status_text. by destruct (h_status h).
Qed.
Lemma changed_definite a b : changed a b = true → definite a = true ∧ definite b = true ∧ a ≠ b.
Proof. unfold changed. intros [[->%str_eqb_eq ->%str_eqb_eq]%andb_true_iff|[->%str_eqb_eq ->%str_eqb_eq]%andb_true_iff]%orb_true_iff; done. Qed.
Lemma unchanged_definite a b : changed a b = false → definite a = true → definite b = true → a = b.
Proof.
  unfold changed, definite. intros H [->%str_eqb_eq| ->%str_eqb_eq]%orb_true_iff [->%str_eqb_eq| ->%str_eqb_eq]%orb_true_iff; done.
Qed.
Lemma recorded_told h now err s s' : definite now = true → current h s → told (h_id h) s →
  recorded (h_id h) (status_text h) now err s s' → told (h_id h) s'.
Proof.
  intros Hnow Hcur [Hc Hl] Hr. destruct (recorded_events _ _ _ _ _ _ Hr) as (at_ & He). destruct Hr as ((st & Hs & Hn & _) & _).
  unfold told. rewrite He, Hs, lookup_insert_eq. destruct (changed (status_text h) now) eqn:Hf.
  - apply changed_definite in Hf as (Hd1 & Hd2 & Hne). split; [apply chained_snoc; [done| |done..]|].
    + intros f. destruct (last (events_of (h_id h) s)) as [e|] eqn:Hle; [|done]. intros [= <-]. destruct (Hl e eq_refl) as (x & Hx & Hxs).
      unfold status_text. rewrite <- Hcur, Hx. done.
    + intros e. rewrite last_snoc. intros [= <-]. by exists st.
  - rewrite app_nil_r. split; [done|]. intros e Hle. exists st. split; [done|]. destruct (Hl e Hle) as (x & Hx & Hxs).
    rewrite Hn, <- Hxs. symmetry. apply unchanged_definite; [|by rewrite Hxs; eapply chained_last|done].
    revert Hf. unfold status_text. by rewrite <- Hcur, Hx.
Qed.
Lemma recorded_others id prev now err s s1 s2 s' : others s s1 → recorded id prev now err s1 s2 → others s2 s' → recorded id prev now err s s'.
Proof.
  intros (_ & H1 & H2) ((st & Hst & Hn) & at_ & He) (_ & I1 & I2). split.
  - exists st. rewrite I1, Hst, H1. done.
  - exists at_. by rewrite I2, He, H2.
Qed.
(** What handling a host does to it, and to the others. *)
Definition handled (h : Host) (s s' : store) : Prop :=
  (history_tells s → told (h_id h) s') ∧ chronicle (h_id h) s s' ∧ ∀ id, id ≠ h_id h → untouched id s s'.
Lemma recorded_handled h now err s s' : definite now = true → current h s → recorded (h_id h) (status_text h) now err s s' → handled h s s'.
Proof.
  intros Hd Hc Hr. split_and!; [intros Ht; by eapply recorded_told|by eapply recorded_chronicle|intros id Hne; by eapply recorded_untouched].
Qed.
Lemma others_handled h s s' : others s s' → handled h s s'.
Proof.
  intros Ho. split_and!; [intros Ht; by apply (others_tells s)|by apply untouched_chronicle, others_untouched|intros; by apply others_untouched].
Qed.
Lemma handled_left h s s1 s' : others s s1 → handled h s1 s' → handled h s s'.
Proof.
  intros Ho (Ha & Hb & Hc). split_and!.
  - intros Ht. apply Ha. by eapply others_tells.
  - eapply untouched_left; [by apply others_untouched|done].
  - intros id Hne. eapply untouched_trans; [by apply others_untouched|by apply Hc].
Qed.
Lemma handled_right h s s1 s' : handled h s s1 → others s1 s' → handled h s s'.
Proof.
  intros (Ha & Hb & Hc) Ho. split_and!.
  - intros Ht. eapply untouched_told; [by apply others_untouched|by apply Ha].
  - eapply untouched_right; [done|by apply others_untouched].
  - intros id Hne. eapply untouched_trans; [by apply Hc|by apply others_untouched].
Qed.
Lemma handled_tells h s s' : handled h s s' → history_tells s → history_tells s'.
Proof.
  intros (Ha & _ & Hc) Ht id. destruct (decide (id = h_id h)) as [->|Hne]; [by apply Ha|]. eapply untouched_told; [by apply Hc|done].
Qed.

Section history.
Context `{!Reach, !Env store, !Relies others} (conf : config) (notifier : bool).
Context (Hdb : ∀ n, db_err (Env := Env0) n = false).

Lemma within_io {A} (f : nat → A) : within others (io f).
Proof. intros w _. split; [|done]. apply relies. Qed.
Lemma within_pause : within others pause.
Proof. apply within_io. Qed.
Lemma within_run d c : within others (run d c).
Proof. apply within_io. Qed.
#[local] Hint Resolve within_io within_pause within_run : within.
Lemma others_alert a s : others s (add_alert a s).
Proof. by apply others_unchanged. Qed.
Lemma others_broadcast a s : others s (add_broadcast a s).
Proof. by apply others_unchanged. Qed.
Lemma of_host_others {A} id s (r : res store_error A * store) : others s r.2 → others s (of_host id s r).2.
Proof. unfold of_host. by case_bool_decide. Qed.
Lemma others_inventory id i now s : others s (UpsertInventory id i now s).2.
Proof. apply of_host_others. by apply others_unchanged. Qed.
Lemma others_metrics id m now s : others s (UpsertMetrics id m now s).2.
Proof. apply of_host_others. by apply others_unchanged. Qed.
Lemma others_software id l now s : others s (ReplaceWindowsSoftware id l now s).2.
Proof. apply of_host_others. by apply others_unchanged. Qed.
Lemma others_history id m every now s : others s (RecordMetricHistory id m every now s).2.
Proof. unfold RecordMetricHistory. destruct (existsb _ _); [done|]. apply of_host_others. by apply others_unchanged. Qed.
#[local] Hint Resolve others_alert others_broadcast others_inventory others_metrics others_software others_history : within.

Lemma within_try_rdp port l err : within others (try_rdp port l err).
Proof. revert err. induction l as [|a l IH]; intros err; cbn [try_rdp]; within_tac. Qed.
Lemma within_try_ssh h user v l err : within others (try_ssh h user v l err).
Proof. revert err. induction l as [|a l IH]; intros err; cbn [try_ssh]; within_tac. Qed.
#[local] Hint Resolve within_try_rdp within_try_ssh : within.
Lemma within_rdp_over h : within others (probeRDPOver h).
Proof. unfold probeRDPOver. within_tac. Qed.
Lemma within_windows h : within others (collectWindowsFactsOver h).
Proof. unfold collectWindowsFactsOver. within_tac. Qed.
#[local] Hint Resolve within_rdp_over within_windows : within.
Lemma within_probe_rdp h : within others (probe_rdp conf h).
Proof. unfold probe_rdp. within_tac. Qed.
Lemma within_updates d i : within others (collectUpdates d i).
Proof. unfold collectUpdates. within_tac. Qed.
Lemma within_obsolete d i : within others (collectObsolete d i).
Proof. unfold collectObsolete. within_tac. Qed.
#[local] Hint Resolve within_updates within_obsolete : within.
Lemma within_collect d : within others (collectInventory d).
Proof. unfold collectInventory. within_tac. Qed.
Lemma within_collect_metrics d c : within others (collectMetrics d c).
Proof. unfold collectMetrics. within_tac. Qed.
Lemma within_overlayUp d h : within others (overlayUp conf d h).
Proof. unfold overlayUp. within_tac. Qed.
#[local] Hint Resolve within_collect within_collect_metrics within_overlayUp : within.
Lemma within_probe inj h : within others (probe conf inj h).
Proof. unfold probe. within_tac. Qed.
Lemma within_confirmed h prev wg p : within others p → within others (probeConfirmed conf h prev wg p).
Proof.
  intros Hp. unfold probeConfirmed. apply within_bind; [typeclasses eauto|done|]. intros r.
  destruct (degraded _ _ _ _); [|apply within_ret; typeclasses eauto].
  generalize (Z.to_nat (offlineConfirmations conf - 1)); intros n. revert r. induction n as [|n IH]; intros r; cbn [confirm_loop]; within_tac.
Qed.
Lemma within_alert a b c d e : within others (alert a b c d e).
Proof. unfold alert. within_tac. Qed.
#[local] Hint Resolve within_alert : within.
Lemma within_transition h prev now : within others (notifyTransition notifier h prev now).
Proof. unfold notifyTransition. within_tac. Qed.
Lemma within_overlay h prev wg st : within others (notifyOverlayTransition notifier h prev wg st).
Proof. unfold notifyOverlayTransition. within_tac. Qed.
Lemma within_broadcast h st : within others (broadcastStatus h st).
Proof. unfold broadcastStatus. within_tac. Qed.
#[local] Hint Resolve within_probe_rdp within_probe within_confirmed within_transition within_overlay within_broadcast : within.

Lemma record_runs h prev now err w st : is_Some (hosts (w_db w) !! h_id h) → status (w_db w) !! h_id h = Some st → Status st = now → LastError st = err →
  recorded (h_id h) prev now err (w_db w) (w_db (recordTransition notifier h prev now err w).2).
Proof.
  intros Hh Hst Hn Hle. unfold recordTransition. change (negb (str_eqb prev "") && negb (str_eqb prev now) && definite prev && definite now) with (flips prev now).
  rewrite run_bind. pose proof (λ w, proj1 (within_transition h prev now w I)) as Ht.
  assert (∀ s, status s = status (w_db w) → ∃ st, status s = <[h_id h := st]> (status s) ∧ Status st = now ∧ LastError st = err) as Hs.
  { intros s Hs. exists st. rewrite Hs. split; [|done]. by rewrite insert_id. }
  destruct (flips prev now) eqn:Hf.
  - rewrite !run_bind, db_eq, Hdb. cbn [time_now fst snd w_tick w_db mret M_ret].
    set (s1 := interfere _ (w_db w)). assert (others (w_db w) s1) as Ho by apply relies. pose proof Ho as (H1 & H2 & H3).
    unfold RecordStatusEvent, of_host. rewrite bool_decide_eq_true_2 by (by rewrite H1). cbn [fst snd].
    eapply (recorded_others _ _ _ _ _ s1); [done| |apply Ht]. split; [exact (Hs s1 H2)|]. rewrite Hf. by eexists.
  - cbn [mret M_ret fst snd]. eapply (recorded_others _ _ _ _ _ (w_db w)); [done| |apply Ht]. split; [by apply Hs|].
    rewrite Hf. exists 0. by rewrite app_nil_r.
Qed.
Lemma persist_handled h wg r w : definite (Status r.1.1) = true → current h (w_db w) →
  handled h (w_db w) (w_db (persist conf notifier h (status_text h) wg r w).2).
Proof.
  intros Hd Hc. destruct r as [[st inv] m]. cbn [fst] in Hd. unfold persist. rewrite run_bind, db_eq, Hdb. cbn zeta.
  set (s1 := interfere _ (w_db w)). assert (others (w_db w) s1) as Ho by apply relies.
  unfold UpdateStatus, of_host. cbn [fst snd]. case_bool_decide as Hh; cbn [fst snd]; [|by apply others_handled].
  set (s2 := set_status _ s1). rewrite run_bind.
  match goal with |- context [recordTransition ?a ?b ?c ?d ?e ?w2] =>
    pose proof (record_runs b c d e w2 _ Hh (lookup_insert_eq _ _ _) eq_refl eq_refl) as Hr; set (w3 := recordTransition a b c d e w2) in * end.
  assert (recorded (h_id h) (status_text h) (Status st) (LastError st) (w_db w) (w_db w3.2)) as Hrec.
  { eapply (recorded_others _ _ _ _ _ s1 (w_db w3.2)); [done| |done]. destruct Hr as ((x & Hx & Hn) & at_ & He). split; [|by exists at_].
    exists x. split; [|done]. rewrite Hx. unfold s2. cbn. by rewrite insert_insert_eq. }
  eapply (handled_right _ _ (w_db w3.2)); [by eapply recorded_handled|].
  match goal with |- others _ (w_db (?m _).2) => assert (within others m) as Hw by within_tac end. apply (Hw w3.2 I).
Qed.

(** What a program returns, wherever it is started. *)
Definition yields {A} (φ : A → Prop) (m : M store A) : Prop := ∀ w, φ (m w).1.
Lemma yields_bind {A B} φ (m : M store A) (k : A → M store B) : (∀ a, yields φ (k a)) → yields φ (m ≫= k).
Proof. intros Hk w. rewrite run_bind. apply Hk. Qed.
Lemma yields_ret {A} (φ : A → Prop) a : φ a → yields φ (mret a).
Proof. by intros Ha w. Qed.
Ltac yields_tac := repeat match goal with
  | |- forall _, _ => intros ?
  | |- yields _ (match ?x with _ => _ end) => destruct x
  | |- yields _ (_ ≫= _) => apply yields_bind
  | |- yields _ (mret _) => apply yields_ret; try done
  end.
Definition certain (r : result) : Prop := definite (Status r.1.1) = true.
Lemma yields_probe inj h : yields certain (probe conf inj h).
Proof. unfold probe. yields_tac. Qed.
Lemma yields_rdp_over h : yields (λ st, definite (Status st) = true) (probeRDPOver h).
Proof. unfold probeRDPOver. yields_tac. by destruct a0 as [[? ?]|]. Qed.
Lemma yields_probe_rdp h : yields certain (probe_rdp conf h).
Proof.
  unfold probe_rdp. intros w. rewrite run_bind. destruct (io jump w) as [[err|] w1]; cbn [fst snd].
  { by rewrite run_bind. }
  rewrite run_bind. pose proof (yields_rdp_over h w1) as Hd. destruct (probeRDPOver h w1) as [st w2]. cbn [fst snd] in *.
  destruct (RDPCollectFacts conf && _); [|done]. rewrite run_bind. by destruct (collectWindowsFactsOver h w2) as [[[[? ?] ?]|] w3].
Qed.
Lemma yields_confirmed h prev wg p : yields certain p → yields certain (probeConfirmed conf h prev wg p).
Proof.
  intros Hp w. unfold probeConfirmed. rewrite run_bind. pose proof (Hp w) as Hr. destruct (p w) as [r w1]. cbn [fst snd] in *.
  destruct (degraded h prev wg r); [|done]. generalize (Z.to_nat (offlineConfirmations conf - 1)); intros n.
  revert r w1 Hr. induction n as [|n IH]; intros r w1 Hr; cbn [confirm_loop]; [done|]. rewrite run_bind.
  destruct (pause w1).1; [done|]. rewrite run_bind. pose proof (Hp (pause w1).2) as Hr'. destruct (p (pause w1).2) as [r' w2]. cbn [fst snd] in *. destruct (degraded h prev wg r'); [by apply IH|done].
Qed.

Lemma probe_then_persist h wg p w : within others p → yields certain p → current h (w_db w) →
  handled h (w_db w) (w_db ((r ← probeConfirmed conf h (status_text h) wg p; persist conf notifier h (status_text h) wg r) w).2).
Proof.
  intros Hw Hy Hc. rewrite run_bind. pose proof (within_confirmed h (status_text h) wg p Hw w I) as [Ho _].
  pose proof (yields_confirmed h (status_text h) wg p Hy w) as Hd. destruct (probeConfirmed conf h (status_text h) wg p w) as [r w1]. cbn [fst snd] in *.
  eapply handled_left; [exact Ho|]. apply persist_handled; [done|]. by eapply others_current.
Qed.
Lemma probeHost_handled h w : current h (w_db w) → handled h (w_db w) (w_db (probeHost conf notifier h w).2).
Proof.
  intros Hc. unfold probeHost. rewrite run_bind. change (match h_status h with Some st => Status st | None => "" end) with (status_text h).
  pose proof (within_io (λ n, signer n (h_id h)) w I) as [Ho _]. destruct (io _ w) as [e w1]. cbn [fst snd] in *.
  assert (current h (w_db w1)) as Hc1 by (by eapply others_current). eapply handled_left; [exact Ho|].
  destruct e as [e|]; [by apply others_handled|]. destruct (str_eqb (Protocol (h_row h)) "rdp"); [eauto using probe_then_persist, within_probe_rdp, yields_probe_rdp|].
  destruct (hasVaultedCredential (h_row h)); [|eauto using probe_then_persist, within_probe, yields_probe].
  rewrite run_bind. pose proof (within_io (λ n, systemInjection n h) w1 I) as [Ho2 _]. destruct (io _ w1) as [inj w2]. cbn [fst snd] in *.
  assert (current h (w_db w2)) as Hc2 by (by eapply others_current). eapply handled_left; [exact Ho2|].
  destruct inj as [user|]; [|by apply others_handled]. eauto using probe_then_persist, within_probe, yields_probe.
Qed.
Lemma probe_all_handled hs w : NoDup (h_id <$> hs) → Forall (λ h, current h (w_db w)) hs →
  let s' := w_db (probe_all conf notifier hs w).2 in
  (history_tells (w_db w) → history_tells s') ∧ (∀ id, chronicle id (w_db w) s') ∧ ∀ id, id ∉ h_id <$> hs → untouched id (w_db w) s'.
Proof.
  revert w. induction hs as [|h hs IH]; intros w Hnd Hc; [split_and!; [done| |done]; intros id; by apply untouched_chronicle|].
  apply NoDup_cons in Hnd as [Hn Hnd]. inversion_clear Hc as [|? ? Hh Hhs].
  cbn [probe_all]. rewrite run_bind. assert (handled h (w_db w) (w_db ((if probed h then probeHost conf notifier h else mret tt) w).2)) as Hs.
  { destruct (probed h); [by apply probeHost_handled|by apply others_handled]. }
  destruct ((if probed h then probeHost conf notifier h else mret tt) w) as [[] w1]. cbn [fst snd] in *. pose proof Hs as (_ & Hb & Hu).
  destruct (IH w1 Hnd) as (Ha & Hch & Hk).
  { rewrite Forall_forall in *. intros h' Hin. eapply untouched_current; [|by apply Hhs]. apply Hu. intros Heq. apply Hn. rewrite <- Heq. by apply list_elem_of_fmap_2. }
  split_and!.
  - intros Ht. apply Ha. by eapply handled_tells.
  - intros id. destruct (decide (id = h_id h)) as [->|Hne]; [|eapply untouched_left; [by apply Hu|done]].
    eapply untouched_right; [exact Hb|]. by apply Hk.
  - intros id [Hne Hin]%not_elem_of_cons. eapply untouched_trans; [by apply Hu|by apply Hk].
Qed.
End history.

(** ** The listing *)
Section listing.
Context `{!Reach, !Env store, !Relies others} (conf : config) (notifier : bool).
Context (Hdb : ∀ n, db_err (Env := Env0) n = false).

(** What of a listed host nobody else changes. *)
Definition known (h : Host) : uuid * host * option HostStatus := (h_id h, h_row h, h_status h).
Definition in_order (s : store) : list (uuid * host * option HostStatus) :=
  (λ h, (h_id h, h_row h, status s !! h_id h)) <$> by_hostname (bare <$> map_to_list (hosts s)).

Lemma others_in_order s s' : others s s' → in_order s' = in_order s.
Proof. intros (H1 & H2 & _). unfold in_order. by rewrite H1, H2. Qed.
Lemma ListHosts_reads limit offset w : ∃ hs,
  (ListHosts limit offset w).1 = Ok hs ∧ known <$> hs = take limit (drop offset (in_order (w_db w))) ∧
  others (w_db w) (w_db (ListHosts limit offset w).2).
Proof.
  unfold ListHosts, ListHosts_rows, attach. rewrite run_bind, db_eq, Hdb. cbn [reading fst snd].
  set (s1 := interfere _ (w_db w)). assert (others (w_db w) s1) as Ho1 by apply relies.
  rewrite <- (others_in_order _ _ Ho1). unfold in_order, page_of. rewrite <- fmap_drop, <- fmap_take.
  destruct (take limit _) as [|h l]; [by exists []|]. rewrite run_bind, db_eq, Hdb. cbn [reading fst snd w_db w_tick].
  set (s2 := interfere _ s1). assert (others s1 s2) as Ho2 by apply relies.
  rewrite run_bind, db_eq, Hdb. cbn [reading fst snd w_db w_tick]. set (s3 := interfere _ s2). assert (others s2 s3) as Ho3 by apply relies.
  eexists. split; [reflexivity|]. assert (others s1 s3) as Ho by (by etrans). split; [|by etrans].
  destruct Ho as (_ & Hs & _). rewrite <- !list_fmap_compose. apply list_fmap_ext. intros i x _. unfold known. cbn. by rewrite Hs.
Qed.
Lemma AllHosts_reads fuel offset out w : (offset ≤ length (in_order (w_db w)))%nat → (length (in_order (w_db w)) < offset + 500 * fuel)%nat →
  ∃ hs, (AllHosts fuel offset out w).1 = Some (Ok (out ++ hs)) ∧ known <$> hs = drop offset (in_order (w_db w)) ∧
    others (w_db w) (w_db (AllHosts fuel offset out w).2).
Proof.
  revert offset out w. induction fuel as [|fuel IH]; intros offset out w Ho Hf; [exfalso; lia|].
  cbn [AllHosts]. rewrite run_bind. destruct (ListHosts_reads page offset w) as (hs & Hr & Hk & Hw).
  destruct (ListHosts page offset w) as [r w1]. cbn [fst snd] in *. subst r. pose proof (others_in_order _ _ Hw) as Hin.
  assert (length hs = Nat.min page (length (in_order (w_db w)) - offset)) as Hlen.
  { by rewrite <- (length_fmap known hs), Hk, length_take, length_drop. }
  assert (page = 500)%nat as Hp by done. case_bool_decide as Hlt; rewrite Hlen in Hlt.
  - exists hs. split_and!; [done| |done]. rewrite Hk. apply take_ge. rewrite length_drop. lia.
  - destruct (IH (offset + page)%nat (out ++ hs) w1) as (hs' & H1 & H2 & H3); [rewrite Hin; lia|rewrite Hin; lia|].
    exists (hs ++ hs'). split_and!; [by rewrite H1, app_assoc| |by etrans]. rewrite fmap_app, Hk, H2, Hin, <- drop_drop. apply take_drop.
Qed.
Lemma in_order_ids s : NoDup ((λ x, x.1.1) <$> in_order s).
Proof.
  unfold in_order. rewrite <- list_fmap_compose. assert (h_id <$> (bare <$> map_to_list (hosts s)) = (map_to_list (hosts s)).*1) as He.
  { rewrite <- list_fmap_compose. by apply list_fmap_ext. }
  change ((λ x, x.1.1) ∘ (λ h, (h_id h, h_row h, status s !! h_id h))) with h_id. rewrite by_hostname_perm, He. apply NoDup_fst_map_to_list.
Qed.
Lemma in_order_length s : length (in_order s) = size (hosts s).
Proof. unfold in_order. by rewrite length_fmap, by_hostname_perm, length_fmap, length_map_to_list. Qed.
Lemma listed_ids hs s : known <$> hs = in_order s → NoDup (h_id <$> hs).
Proof.
  intros Hk. pose proof (in_order_ids s) as Hn. rewrite <- Hk, <- list_fmap_compose in Hn. exact Hn.
Qed.
Lemma listed_current hs s : known <$> hs = in_order s → Forall (λ h, current h s) hs.
Proof.
  intros Hk. rewrite Forall_forall. intros h Hh. assert (known h ∈ in_order s) as Hin by (rewrite <- Hk; by apply list_elem_of_fmap_2).
  unfold in_order in Hin. apply list_elem_of_fmap in Hin as (x & Hx & _). unfold known in Hx. unfold current. injection Hx as H1 _ H3. by rewrite H1, H3.
Qed.

(** C39: as long as no statement fails and nobody else adds, removes or changes a host or writes a
    status or an event while it runs (an insertion or a rename while more than 500 hosts are
    listed page by page can list one twice and tell its event twice; what else others write is
    free), a sweep ends, whatever the network answers, and then: the history of every host has
    grown by exactly one event, from its status before to its status now and with the error of
    the status now, if the one was online and the other offline or the reverse, and by none
    otherwise; and if the history of every host was a chain of such changes that ends in its
    status, it still is. What failing statements lose is shown beside it (event_lost,
    unread_status_flaps). *)
Theorem history_tells_status fuel w : (size (hosts (w_db w)) < 500 * fuel)%nat →
  let s' := w_db (sweep conf notifier fuel w).2 in
  (sweep conf notifier fuel w).1 = Some tt ∧ (∀ id, chronicle id (w_db w) s') ∧ (history_tells (w_db w) → history_tells s').
Proof.
  intros Hf. unfold sweep. rewrite run_bind.
  destruct (AllHosts_reads fuel 0 [] w) as (hs & Hr & Hk & Ho); [lia|rewrite in_order_length; lia|].
  destruct (AllHosts fuel 0 [] w) as [r w1]. cbn [fst snd] in *. subst r. cbn [app]. rewrite run_bind.
  rewrite drop_0, <- (others_in_order _ _ Ho) in Hk.
  destruct (probe_all_handled conf notifier Hdb hs w1 (listed_ids _ _ Hk) (listed_current _ _ Hk)) as (Ha & Hb & _).
  destruct (probe_all conf notifier _ w1) as [[] w2]. cbn [fst snd] in *.
  assert (within others refreshGauges) as Hg.
  { unfold refreshGauges, CountHostsByStatus. within_tac. apply within_effect. intros s. by apply others_unchanged. }
  destruct (Hg w2 I) as [Hg' _]. rewrite !run_bind. destruct (refreshGauges w2) as [[] w3]. cbn [fst snd effect mret M_ret w_db] in *.
  assert (others (w_db w2) (add_run None (w_db w3))) as Hl by (etrans; [exact Hg'|by apply others_unchanged]).
  split_and!; [done| |].
  - intros id. eapply untouched_left; [by apply others_untouched|]. eapply untouched_right; [apply Hb|by apply others_untouched].
  - intros Ht. eapply others_tells; [exact Hl|]. apply Ha. by eapply others_tells.
Qed.
End listing.
Lemma no_events_told s : status_events s = [] → history_tells s.
Proof. intros He id. unfold told, events_of. by rewrite He. Qed.

(** ** A concrete fleet *)
(** The host answers the dials for which [up] holds. *)
Definition toy_reach (up : nat → bool) : Reach := {|
  signer _ _ := None; jump _ := None; tcp n _ := if up n then None else Some "refused";
  ssh n _ := if up n then None else Some "refused";
  run_cmd _ _ c := match c with
    | UpdatesScript => Some (lines_of ["COUNTS|1|0"; "PKG|vim|9.1|0"]) | InventoryScript => Some (lines_of ["Linux"; "6.1"; "x86_64"]) | _ => Some "" end;
  win_credential _ _ := None; winrm _ _ _ _ := None; win_software _ _ _ := None; systemInjection _ _ := None;
  EqualFold := str_eqb; cancelled _ := false; by_hostname := id; by_hostname_perm := λ l, reflexivity l;
|}.
Definition toy_conf : config := MkConf 0 false 0 0 second 3 "wg0".
Definition toy_host : host := MkHost "h1" "prod" "10.0.0.5" "" "" 22 "fleet" true "fleet_cert" None "ssh" 0 "" false None.
Definition toy_status (x : string) : HostStatus := MkStatus x true false None None None None "" None.
Definition toy_inventory (checked : option Z) : HostInventory := MkInventory "Linux" "" "6.1" "x86_64" "" 2 2000 (Some 0) (Some 7) (Some 1) checked (Some []) None.
Definition toy_store (x : string) (checked : option Z) : store :=
  Store {[1%N := toy_host]} {[1%N := toy_status x]} {[1%N := toy_inventory checked]} ∅ [] [] ∅ [] [] [] ∅.
Definition toy_world (x : string) : world store := World 0 (toy_store x (Some 0)).

#[export] Instance quiet_others : Relies (Env0 := quiet_env) others.
Proof. intros n s. done. Qed.
Lemma history_tells_status_witness :
  let sw := sweep (H := toy_reach (λ _, false)) (Env0 := quiet_env) toy_conf true 1 (toy_world "online") in
  sw.1 = Some tt ∧ history_tells (w_db sw.2) ∧ chronicle 1%N (toy_store "online" (Some 0)) (w_db sw.2) ∧
  ((λ e, (FromStatus e, ToStatus e, ev_error e)) <$> status_events (w_db sw.2)) = [("online", "offline", "refused")].
Proof.
  intros sw. destruct (@history_tells_status (toy_reach (λ _, false)) quiet_env _ toy_conf true (λ _, eq_refl) 1 (toy_world "online")) as (H1 & H2 & H3).
  - apply Nat.ltb_lt. by vm_compute.
  - split; [exact H1|]. split; [apply H3; by apply no_events_told|]. split; [apply (H2 1%N)|]. by vm_compute.
Defined.

(** ** What goes wrong *)
(** The status is written before the event: an event that cannot be written is never made up for,
    and the history misses an outage. *)
Definition fails_at (k : nat) : Env store := MkEnv store (λ n, bool_decide (n = k)) Z.of_nat (λ _ s, s).
Definition after (E : Env store) (up : nat → bool) (w : world store) : store :=
  w_db (sweep (H := toy_reach up) (Env0 := E) toy_conf true 1 w).2.
Definition seen_status (s : store) : option string := Status <$> status s !! 1%N.
Lemma event_lost : ∃ k, let s := after (fails_at k) (λ _, false) (toy_world "online") in
  seen_status s = Some "offline" ∧ status_events s = [].
Proof. exists 23%nat. by vm_compute. Qed.

(** When the statuses cannot be read with the list of hosts, one failed probe is enough to record a
    host offline, with neither an event nor an alert. *)
Lemma unread_status_flaps : let s := after (fails_at 2) (λ n, (20 <? n)%nat) (toy_world "online") in
  seen_status s = Some "offline" ∧ status_events s = [] ∧ alerts s = [].
Proof. by vm_compute. Qed.

(** The first observation is not told apart: a new host's status row says unknown, and its first
    successful probe alerts that it has recovered and is reachable again. *)
Lemma new_host_recovers :
  let s := w_db ((_ ← db (Env0 := quiet_env) (CreateHost toy_host); sweep (H := toy_reach (λ _, true)) (Env0 := quiet_env) toy_conf true 1)
                   (World 0 (Store ∅ ∅ ∅ ∅ [] [] ∅ [] [] [] ∅))).2 in
  (Notify.ev_Type <$> alerts s) = ["host.recovered"].
Proof. by vm_compute. Qed.

(** Asking for a host's updates to be collected again does nothing on a Linux host: the time that is
    cleared is looked at for Windows only. *)
Lemma refresh_ignored :
  let s := w_db ((_ ← db (Env0 := quiet_env) (MarkHostFactsStale 1%N); sweep (H := toy_reach (λ _, true)) (Env0 := quiet_env) toy_conf true 1)
                   (toy_world "online")).2 in
  (UpdatesCheckedAt <$> inventory s !! 1%N) = Some None ∧ (UpdatesAvailable <$> inventory s !! 1%N) = Some (Some 7).
Proof. by vm_compute. Qed.

(** The pause between sweeps keeps them half a minute apart when they are shorter, and never vanishes;
    the number of probes at once is between one and sixteen whatever is configured. *)
Lemma cadence conf elapsed : 0 ≤ elapsed →
  minSweepGap ≤ nextSweepGap targetCadence elapsed ≤ targetCadence ∧
  (elapsed ≤ targetCadence - minSweepGap → elapsed + nextSweepGap targetCadence elapsed = targetCadence) ∧
  1 ≤ monitorConcurrency conf ≤ 16.
Proof.
  intros He. unfold nextSweepGap, minSweepGap, targetCadence, second, monitorConcurrency, defaultMonitorConcurrency, maxMonitorConcurrency.
  repeat case_match; repeat match goal with
    | H : (_ <? _) = true |- _ => apply Z.ltb_lt in H | H : (_ <? _) = false |- _ => apply Z.ltb_ge in H end; lia.
Qed.
